(* ===== verification/_CoqProject ===== *)
-Q . S2P
Prelude.v
Extern.v
Bits.v
GoStrings.v
GoBig.v
GoFloat.v
EthashSizes.v
Ethash.v
EthashCache.v
DataFile.v
ChunkCodec.v
DataShard.v
ShardManager.v
KvStore.v
StorageManager.v
SyncTask.v
SyncClient.v
SyncRun.v
SyncSafety.v
SyncStorageManager.v
SyncWire.v
SyncServer.v
SyncServe.v
Tracker.v
BlobSources.v
BlobCache.v
Downloader.v
DownloaderFacts.v
MetaView.v
BlobReader.v
BlobEncoder.v
BlobBits.v
BlobEncoderFacts.v
BlobCodec.v
BlobFields.v
EsApi.v
Merkle.v
Miner.v
MinerFacts.v
MinerLife.v
MiningTx.v
Scanner.v
ScannerFacts.v
ScannerLife.v
Archiver.v
ArchiverFacts.v
StartUp.v
StartUpFacts.v
ShardConfig.v
L1Client.v
HeadPolling.v
KzgProver.v
KzgFacts.v
ProofJson.v
PeerNet.v
NodeLife.v
Dashboard.v
EsUtils.v
EsSend.v
P2pConfig.v
Discovery.v
NodeConfig.v
