(* ===== verification/Prelude.v ===== *)
(** * es-node: a verification development

    es-node is a storage node for the EthStorage contract.  The contract on L1 keeps for each key-value pair (KV) a
    record with the hash of a blob; a node stores the blobs of some shards of KVs in local files, masked for its miner,
    and earns rewards by proving random samples of them.  This library models the Go code of the node and proves what
    its parts promise each other and their users.

    ** The program and the files of the library

    Storage, from the disk upwards:
    - [DataFile] (ethstorage/data_file.go): one file of masked chunks with its header and the KV metadata;
    - [EthashSizes], [Ethash] (ethstorage/pora): the memory-hard masks; [EthashCache] (pora/ethash.go, pora/ethash/ethash.go):
      the table of caches shared by goroutines, and their files; [ChunkCodec] (encoder/encoder.go and the chunk
      functions of data_shard.go): the four encode types, the encode keys and the check of commits;
    - [DataShard] (data_shard.go), [ShardManager] (shard_manager.go, with [Bits] for its powers of two): routing of KVs
      and chunks to files; [KvStore] states the shards as an abstract map from KVs to blobs with commits, and that
      the operations refine it;
    - [StorageManager] (storage_manager.go): the view of the last finalized L1 block, commits of blobs, the download of
      all metadata; [MetaView]: the metadata workers interleaved with the batches of the downloader;
    - [ShardConfig] (shard_config.go): the registered managers; [StartUp], [StartUpFacts] (cmd/es-node/main.go and
      utils.go, node/node.go): the commands init and sync, and the opening of the storage by the node.

    Sync with peers (ethstorage/p2p/protocol and p2p):
    - [SyncTask] (task.go): the work left for a shard; [SyncClient] (syncclient.go): every handler and critical section;
      [SyncRun]: the goroutines as a step relation; [SyncSafety]: the invariant; [SyncStorageManager]: the storage
      manager as the storage of the client;
    - [SyncWire] (utils.go): messages; [SyncServer], [SyncServe] (syncserver.go, peer.go): the serving side and the two
      sides together; [Tracker] (tracker.go, with [GoFloat]): the throughput of peers and the sizes of requests;
    - [PeerNet] (discovery.go, node.go, peer_gater.go, peer_scorer.go): which nodes become peers; [P2pConfig] (p2p/config.go,
      peer_params.go, topic_params.go, p2p/cli): the configuration; [Discovery] (discovery.go, host.go, gossip.go): announcing,
      finding and dialling, and the goroutines that do it.

    The L1 chain:
    - [L1Client] (ethstorage/eth/polling_client.go, heads.go, randao_client.go, block_info.go, id.go): calls of the contract
      and block references; [HeadPolling] (polling_client.go): the poller of new heads and its subscribers;
    - [BlobSources] (beacon_client.go, da_client.go, blobs/blob.go), [BlobCache] (downloader/blob_mem_cache.go and
      blob_disk_cache.go), [Downloader], [DownloaderFacts] (downloader/downloader.go): blobs of new and finalized blocks.

    Users of the storage:
    - [BlobReader] (blobs/blob_reader.go), [EsApi] (node/es_api.go), [Archiver], [ArchiverFacts] (ethstorage/archiver):
      blobs for the miner, the RPC and the beacon API;
    - [Miner], [MinerFacts] (miner/worker.go, miner.go, algorithm.go): the search for nonces and the worker's loops;
      [MinerLife] (worker.go, miner.go): its goroutines from [New] to [Close], and the statistics on the disk; [MiningTx]
      (miner/l1_mining_api.go): the transaction; [Merkle], [KzgProver], [KzgFacts] (ethstorage/prover): proofs; [ProofJson]
      (prover/utils.go, zk_prover.go, zk_prover_go.go): the two provers of the circuit, and points in JSON;
    - [Scanner], [ScannerFacts] (ethstorage/scanner): the check and repair of local KVs; [ScannerLife] (scanner.go): its
      goroutines from [Start] to [Close].

    The programs:
    - [NodeConfig] (cmd/es-node/config.go, miner/cli.go, signer, email, flags): the configuration of the node; [NodeLife]
      (node/node.go, node/config.go): the opening, start and closing of all parts, and the handlers of new blocks;
    - [Dashboard] (node/state.go, node/node.go, metrics/network_metrics.go, cmd/priv-dashboard): the state that nodes upload
      and the dashboard that counts them;
    - [BlobEncoder], [BlobBits], [BlobEncoderFacts], [BlobCodec], [BlobFields] (cmd/es-utils/utils): data in blobs; [EsUtils]
      (cmd/es-utils/main.go): the commands on data files; [EsSend] (cmd/es-utils/utils/utils.go): blob transactions.

    This file has Go's integers, errors, panics, slices, files and the monads; [GoStrings] has strings and strconv, [GoBig]
    texts of big numbers, [GoFloat] IEEE numbers; [Extern] has the third-party hashes and KZG functions.

    ** How the code is modelled

    A method is a function with the name of the source.  [gores] is a value, an error or a panic; [ST S A] threads the
    state of the receiver.  A [uint64] is a [Z] with its wrap-around written out.  Code outside the repository is a class
    of operations ([Geth], [Kzg], [SnarkPrograms], [Snappy], [RLP], [Billy], [Abi], ...) with a class of documented laws, and each has an
    instance that satisfies the laws.  Nodes, servers and clocks are oracles: functions of the number of the request, so
    that they may answer anything at any time.  The interfaces of the source are classes ([Il1Source], [SyncStorage],
    [BlobCache], [ScanStorage], ...); clients are proved against the interface, and the storage manager, the caches and
    the polling client are instances.  Goroutines are steps of a relation between states, one per critical section
    or channel operation; where only the order of independent writes matters, the order is an argument.  The order in
    which Go visits a map is an argument too.

    Fuel: loops without a structural bound take fuel and panic with [OutOfFuel] when it ends.  The theorems say how much
    is enough: the number of looks for a blob transaction ([SendBlobTx_spec]), the number of entries for the download of metadata ([DownloadAllMetas_spec]), the number of nonces for
    mining ([mineTask_complete]), the number of blocks for the downloader ([download_spec]), one more than the number of
    shards for [getShardList_spec].  Where the loop of the source may not end, there is a theorem that no fuel is enough.

    ** What is proved

    - The store: writing and reading, on all shards and encode types, refine a map ([store_refines_map]); chunks decode to
      what was encoded; a node starts with a well-formed storage from what init created; commits and downloads store
      the latest blob of every KV under its commit and change nothing else.
    - No KV is forgotten: when the sync client says that the sync is done, all KVs are filled, under every interleaving,
      except KVs beyond a floor of the contract's count that are left to the downloader and KVs of a request whose answer
      repeats a KV ([sync_done_filled]).
    - What is served has the asked hash: blob reader, RPC, archiver, the sync command and [FetchBlob], with servers and
      peers that may answer anything; what one node serves another accepts.
    - The metadata view of the managed KVs is always that of one block; every head reaches every subscriber in order.
    - Mining: the hash of a published nonce is within the difficulty, over the samples that were hashed, which are those of
      the result unless the storage changed in between; a good nonce is found, results are not forgotten, the transaction
      is the one for the result and profitable when the reward is known; Merkle proofs verify and bind, except where
      [GetProof] and [GetRoot] disagree about a chunk at the end of the data; a KZG proof opens the sample at its index, at
      a point of its own; the two provers of the circuit return proofs that verify, with the same masks.
    - Goroutines: the shared ethash caches have the right content and no call waits forever ([Cache_transparent],
      [Cache_returns]); scans and repairs never overlap ([one_scan]); miner and scanner can be closed under every
      interleaving, and are still afterwards ([miner_closes], [scanner_closes]); a started node whose L1 node is reached
      over HTTP and whose poller is not blocked closes every part once, and otherwise hangs ([started_node_closes]).
    - Estimates in floating point stay in their bounds ([request_size_bounds]).
    - Configuration: what the node is started with is consistent ([node_config_sound], [NewConfig_sound]).
    - Codecs: both blob encodings, messages, shard lists, configuration texts, headers of data files; data and statistics
      are read back by later runs ([create_write_read], [statistics_survive], [key_kept]).
    - Errors: on which inputs code fails, panics or blocks, among them defects of the code (lost errors, a deadlock of the
      head poller, panics on overflowing lengths, a node that hangs when it cannot be opened or was reached over a
      websocket), each shown by a run or an input.

    ** What is not modelled

    - Logs, the counters of metrics.go, the texts of e-mails and of wrapped errors: they do not influence the rest.
    - Deadlines and cancellation by contexts, except where a loop tests them; the rate limiters inside [limitPeer] (their
      decisions are arguments).
    - HTTP, JSON, JSON-RPC, ABI and RLP decoding, except where the source does it by hand: oracles or parameters with
      round-trip laws.
    - The options given to libp2p, gossipsub and the HTTP servers, the flag library, the circuit, signing and SMTP: calls of
      other programs.
    - cmd/alert, cmd/dashboard, cmd/integration-test-server and the test programs: they query and print, and no part of the
      node depends on them. *)

From stdpp Require Export base list list_numbers gmap strings numbers sorting.
From Stdlib Require Export ssreflect ZArith Lia.

#[global] Set Default Goal Selector "!".
#[global] Open Scope Z_scope.
#[global] Open Scope general_if_scope.

(** ** Go integers

    A [uint64] is a [Z] in [[0, 2^64)]; every operation of the source that can
    leave that interval is written with its wrap-around.  [int] and [int64]
    are the 64-bit signed integers of the platforms the node is built for. *)

Definition two64 : Z := 18446744073709551616.
Definition two63 : Z := 9223372036854775808.
Definition two32 : Z := 4294967296.

Definition wrap64 (x : Z) : Z := x mod two64.
Definition wrap32 (x : Z) : Z := x mod two32.
Definition int64 (x : Z) : Z := (x + two63) mod two64 - two63.

Definition add64 (a b : Z) : Z := wrap64 (a + b).
Definition sub64 (a b : Z) : Z := wrap64 (a - b).
Definition mul64 (a b : Z) : Z := wrap64 (a * b).
Definition shl64 (a n : Z) : Z := wrap64 (Z.shiftl a n).

Definition is_u64 (x : Z) : Prop := 0 ≤ x < two64.

(** ** Go errors and panics *)

Definition bytes := list Z.

(** The error values of the modelled code: [errors.New] and [fmt.Errorf]
    without [%w]; the error types the code tests for ([CommitMismatchError],
    storage_manager.go, and [errDropped], worker.go); the [httpError] of the archiver
    (utils.go); and [fmt.Errorf] with [%w]. *)
Inductive error : Type :=
| ErrMsg (msg : string)
| ErrCommitMismatch (expected found : bytes) (message : string)
| ErrDropped (reason : string)
| ErrHttp (code : Z) (message : string)
| ErrWrap (msg : string) (inner : error).

(** [errors.As(err, &commitErr)] for [*CommitMismatchError]. *)
Fixpoint as_commit_mismatch (e : error) : bool :=
  match e with
  | ErrMsg _ | ErrDropped _ | ErrHttp _ _ => false
  | ErrCommitMismatch _ _ _ => true
  | ErrWrap _ e' => as_commit_mismatch e'
  end.

(** [errors.As(err, &dropErr)] for [errDropped]. *)
Fixpoint as_dropped (e : error) : bool :=
  match e with
  | ErrMsg _ | ErrCommitMismatch _ _ _ | ErrHttp _ _ => false
  | ErrDropped _ => true
  | ErrWrap _ e' => as_dropped e'
  end.

Inductive panic : Type :=
| DivideByZero
| OutOfRange
| NilPointer
| Explicit (msg : string)
| OutOfFuel.

(** The outcome of a call: the value, a non-nil error, or a panic. *)
Inductive gores (A : Type) : Type :=
| Ret (a : A)
| Fail (e : error)
| Panic (p : panic).
Arguments Ret {A} a.
Arguments Fail {A} e.
Arguments Panic {A} p.

#[export] Instance error_eq_dec : EqDecision error.
Proof. solve_decision. Defined.
#[export] Instance panic_eq_dec : EqDecision panic.
Proof. solve_decision. Defined.

#[export] Instance gores_ret : MRet gores := @Ret.
#[export] Instance gores_bind : MBind gores := λ A B f m,
  match m with
  | Ret a => f a
  | Fail e => Fail e
  | Panic p => Panic p
  end.

(** State passing with errors: the state survives an error, as a mutated
    object survives an early return. *)
Definition ST (S A : Type) : Type := S → gores A * S.

#[export] Instance st_ret {S} : MRet (ST S) := λ A a s, (Ret a, s).
#[export] Instance st_bind {S} : MBind (ST S) := λ A B f m s,
  match m s with
  | (Ret a, s') => f a s'
  | (Fail e, s') => (Fail e, s')
  | (Panic p, s') => (Panic p, s')
  end.

Definition st_lift {S A} (r : gores A) : ST S A := λ s, (r, s).
Definition st_get {S} : ST S S := λ s, (Ret s, s).
Definition st_put {S} (s : S) : ST S unit := λ _, (Ret tt, s).

(** [v, err := m] where the code goes on whatever [err] is. *)
Definition st_catch {S A} (m : ST S A) : ST S (error + A) := λ s,
  match m s with
  | (Ret a, s') => (Ret (inr a), s')
  | (Fail e, s') => (Ret (inl e), s')
  | (Panic p, s') => (Panic p, s')
  end.

Definition catch {A} (m : gores A) : gores (error + A) :=
  match m with
  | Ret a => Ret (inr a)
  | Fail e => Ret (inl e)
  | Panic p => Panic p
  end.

(** The value of a successful call, for concrete executions. *)
Definition from_ret {A} (d : A) (m : gores A) : A :=
  match m with Ret a => a | _ => d end.

Lemma Ret_inj {A} (a b : A) : Ret a = Ret b → a = b.
Proof. by intros [=]. Qed.

(** Integer division and remainder of unsigned integers. *)
Definition udiv (a b : Z) : gores Z :=
  if b =? 0 then Panic DivideByZero else Ret (a / b).
Definition umod (a b : Z) : gores Z :=
  if b =? 0 then Panic DivideByZero else Ret (a mod b).

(** [for _, x := range l { body }] over an accumulator, left to right. *)
Fixpoint foldM {A B} (f : B → A → gores B) (b : B) (l : list A) : gores B :=
  match l with
  | [] => Ret b
  | a :: l => b' ← f b a; foldM f b' l
  end.

Fixpoint st_foldM {S A B} (f : B → A → ST S B) (b : B) (l : list A) : ST S B :=
  match l with
  | [] => mret b
  | a :: l => b' ← f b a; st_foldM f b' l
  end.

(** ** Byte slices *)

Definition zlen {A} (l : list A) : Z := Z.of_nat (length l).
Definition zeros (n : Z) : bytes := replicate (Z.to_nat n) 0.

Definition is_bytes (b : bytes) : Prop := Forall (λ x, 0 ≤ x < 256) b.

(** [copy(dst, src)]: overwrites the first [min(len(dst), len(src))] bytes. *)
Definition go_copy (dst src : bytes) : bytes :=
  take (length dst) src ++ drop (length src) dst.

(** [b[lo:hi]].  Slices are modelled with capacity equal to their length. *)
Definition slice (b : bytes) (lo hi : Z) : gores bytes :=
  if (0 <=? lo) && (lo <=? hi) && (hi <=? zlen b)
  then Ret (take (Z.to_nat (hi - lo)) (drop (Z.to_nat lo) b))
  else Panic OutOfRange.

(** [l[i]]. *)
Definition index {A} (l : list A) (i : Z) : gores A :=
  if 0 <=? i then
    match l !! Z.to_nat i with
    | Some x => Ret x
    | None => Panic OutOfRange
    end
  else Panic OutOfRange.

(** [make([]byte, n)]: panics on a negative length. *)
Definition make_bytes (n : Z) : gores bytes :=
  if n <? 0 then Panic OutOfRange else Ret (zeros n).

Definition xor_bytes (a b : bytes) : bytes := zip_with Z.lxor a b.

(** Big-endian integers ([binary.BigEndian], [big.Int.Bytes]). *)
Definition be_encode (n : Z) (x : Z) : bytes := reverse (Z_to_little_endian n 8 x).
Definition be_decode (b : bytes) : Z := little_endian_to_Z 8 (reverse b).

(** Minimal big-endian bytes of a non-negative integer, as [big.Int.Bytes]:
    no leading zero byte, empty for zero. *)
Definition be_min (x : Z) : bytes :=
  if x =? 0 then [] else be_encode (Z.log2 x / 8 + 1) x.

(** ** Local files ([os.File])

    The contents and whether the handle is closed.  A closed handle also
    stands for a handle on which every operation fails. *)
Record file := mkFile { f_data : bytes; f_closed : bool }.

Definition ErrClosed : error := ErrMsg "file already closed".
Definition ErrNegativeOffset : error := ErrMsg "negative offset".
Definition EOF : error := ErrMsg "EOF".

(** [f.ReadAt(buf, off)] with a fresh zeroed [buf] of [n] bytes: the buffer
    afterwards, the number of bytes read, and the error. *)
Definition ReadAt (f : file) (n off : Z) : bytes * Z * option error :=
  if f_closed f then (zeros n, 0, Some ErrClosed)
  else if off <? 0 then (zeros n, 0, Some ErrNegativeOffset)
  else
    let got := take (Z.to_nat n) (drop (Z.to_nat off) (f_data f)) in
    (go_copy (zeros n) got, zlen got,
     if zlen got <? n then Some EOF else None).

(** The bytes of [d] once [b] is written at offset [off]; a gap is zeroed. *)
Definition overlay (d : bytes) (off : nat) (b : bytes) : bytes :=
  take off (d ++ replicate (off - length d) 0) ++ b ++ drop (off + length b) d.

(** [f.WriteAt(b, off)]. *)
Definition WriteAt (f : file) (b : bytes) (off : Z) : option error * file :=
  if f_closed f then (Some ErrClosed, f)
  else if off <? 0 then (Some ErrNegativeOffset, f)
  else if decide (b = []) then (None, f)
  else (None, mkFile (overlay (f_data f) (Z.to_nat off) b) false).

(** ** Automation *)

Create HintDb es discriminated.

(** Case analysis on the scrutinee of the next [match] or [if] of the goal. *)
Ltac step_match :=
  match goal with
  | |- context [match ?x with _ => _ end] =>
      lazymatch x with context [match _ with _ => _ end] => fail | _ => idtac end;
      destruct x eqn:?
  end.

(** Turns boolean comparisons in the context into propositions. *)
Ltac bools :=
  repeat match goal with
  | H : (_ <? _) = true |- _ => apply Z.ltb_lt in H
  | H : (_ <? _) = false |- _ => apply Z.ltb_ge in H
  | H : (_ <=? _) = true |- _ => apply Z.leb_le in H
  | H : (_ <=? _) = false |- _ => apply Z.leb_gt in H
  | H : (_ =? _) = true |- _ => apply Z.eqb_eq in H
  | H : (_ =? _) = false |- _ => apply Z.eqb_neq in H
  | H : (_ && _) = true |- _ => apply andb_true_iff in H as [? ?]
  | H : (_ && _) = false |- _ => apply andb_false_iff in H
  | H : (_ || _) = true |- _ => apply orb_true_iff in H
  | H : (_ || _) = false |- _ => apply orb_false_iff in H as [? ?]
  | H : negb _ = true |- _ => apply negb_true_iff in H
  | H : negb _ = false |- _ => apply negb_false_iff in H
  end.

(** Inverts a successful monadic computation in hypothesis [H]. *)
Ltac inv_ret H :=
  repeat match type of H with
  | context [match ?x with _ => _ end] =>
      lazymatch x with context [match _ with _ => _ end] => fail | _ => idtac end;
      destruct x eqn:?; try discriminate H
  end; simplify_eq H.

(** ** Lemmas on integers *)

Lemma wrap64_small x : 0 ≤ x < two64 → wrap64 x = x.
Proof. apply Z.mod_small. Qed.

Lemma wrap64_range x : 0 ≤ wrap64 x < two64.
Proof. by apply Z.mod_pos_bound. Qed.

Lemma int64_small x : - two63 ≤ x < two63 → int64 x = x.
Proof. rw /int64 /two64 /two63 => ?. rw Z.mod_small; lia. Qed.

Lemma udiv_nz a b : b ≠ 0 → udiv a b = Ret (a / b).
Proof. rw /udiv => ?. by case: Z.eqb_spec. Qed.

Lemma umod_nz a b : b ≠ 0 → umod a b = Ret (a mod b).
Proof. rw /umod => ?. by case: Z.eqb_spec. Qed.

(** Removes wrap-arounds whose argument is in range by linear arithmetic. *)
Ltac unwrap :=
  unfold add64, sub64, mul64, shl64, two64, two63 in *;
  repeat match goal with
    | |- context [wrap64 ?x] => rewrite -> (wrap64_small x) by (unfold two64; lia)
    | |- context [int64 ?x] => rewrite -> (int64_small x) by (unfold two63; lia)
  end.

(** ** Lemmas on lists and byte slices *)

Lemma zlen_nonneg {A} (l : list A) : 0 ≤ zlen l.
Proof. rw /zlen. lia. Qed.

Lemma zlen_app {A} (l k : list A) : zlen (l ++ k) = zlen l + zlen k.
Proof. rw /zlen length_app. lia. Qed.

Lemma zlen_zeros n : 0 ≤ n → zlen (zeros n) = n.
Proof. rw /zlen /zeros length_replicate. lia. Qed.

Lemma length_go_copy dst src : length (go_copy dst src) = length dst.
Proof. rw /go_copy length_app length_take length_drop. lia. Qed.

Lemma go_copy_full dst src : length src = length dst → go_copy dst src = src.
Proof.
  rw /go_copy => H. rw take_ge; [lia|].
  rw drop_ge; [lia|]. by rw app_nil_r.
Qed.

Lemma go_copy_zeros n src :
  zlen src ≤ n → go_copy (zeros n) src = src ++ zeros (n - zlen src).
Proof.
  rw /go_copy /zeros /zlen => H. rw take_ge.
  { rw length_replicate. lia. }
  f_equal. rw drop_replicate. f_equal. lia.
Qed.

Lemma index_lookup {A} (l : list A) i x :
  0 ≤ i → l !! Z.to_nat i = Some x → index l i = Ret x.
Proof. rw /index => ? ->. by case: Z.leb_spec; [|lia]. Qed.

Lemma index_in {A} (l : list A) i : 0 ≤ i < zlen l → ∃ x, index l i = Ret x.
Proof.
  rw /zlen => Hi. destruct (lookup_lt_is_Some_2 l (Z.to_nat i)) as [x Hx]; [lia|].
  exists x. apply index_lookup; [lia|done].
Qed.

(** A counting loop over a state, with an invariant indexed by the counter. *)
Lemma st_foldM_count {S B} (P : Z → B → S → Prop) (f : B → Z → ST S B) a n :
  (∀ i b s, a ≤ i < a + Z.of_nat n → P i b s → ∃ b' s', f b i s = (Ret b', s') ∧ P (i + 1) b' s') →
  ∀ b s, P a b s →
  ∃ b' s', st_foldM f b (seqZ a (Z.of_nat n)) s = (Ret b', s') ∧ P (a + Z.of_nat n) b' s'.
Proof.
  revert a. induction n as [|n IH]; intros a Hf b s HP.
  { exists b, s. by rw Z.add_0_r. }
  rw seqZ_cons; [lia|]. simpl. rw /mbind /st_bind.
  destruct (Hf a b s) as (b' & s' & -> & HP'); [lia|done|].
  have E : Z.pred (Z.of_nat (Datatypes.S n)) = Z.of_nat n by lia.
  destruct (IH (Z.succ a)) with (b := b') (s := s') as (b2 & s2 & H1 & H2).
  { intros. apply Hf; [lia|done]. }
  { by rw -Z.add_1_r. }
  exists b2, s2. rw E. split; [done|]. by replace (a + Z.of_nat (Datatypes.S n)) with (Z.succ a + Z.of_nat n) by lia.
Qed.

(** A loop over a state with an invariant on the elements handled so far. *)
Lemma st_foldM_inv {S A B} (P : list A → B → S → Prop) (f : B → A → ST S B) l :
  (∀ pre a b s, a ∈ l → P pre b s → ∃ b' s', f b a s = (Ret b', s') ∧ P (pre ++ [a]) b' s') →
  ∀ b s, P [] b s → ∃ b' s', st_foldM f b l s = (Ret b', s') ∧ P l b' s'.
Proof.
  have Hgen k : (∀ pre a b s, a ∈ k → P pre b s →
                   ∃ b' s', f b a s = (Ret b', s') ∧ P (pre ++ [a]) b' s') →
    ∀ pre b s, P pre b s → ∃ b' s', st_foldM f b k s = (Ret b', s') ∧ P (pre ++ k) b' s'.
  { induction k as [|a k IH]; intros Hf pre b s HP; [exists b, s; by rw app_nil_r|].
    simpl. rw /mbind /st_bind.
    destruct (Hf pre a b s (list_elem_of_here _ _) HP) as (b' & s' & -> & HP').
    destruct (IH (λ pre a b s Ha, Hf pre a b s (list_elem_of_further _ _ _ Ha))
                (pre ++ [a]) b' s' HP') as (b2 & s2 & ? & HP2).
    exists b2, s2. split; [done|]. by rw -app_assoc in HP2. }
  intros Hf b s HP. exact (Hgen l Hf [] b s HP).
Qed.

(** Two loops whose bodies agree on the states that an invariant describes. *)
(** What a loop that returned has kept. *)
Lemma st_foldM_ok {S A B} (P : list A → B → S → Prop) (f : B → A → ST S B) l :
  (∀ pre a b s b' s', P pre b s → f b a s = (Ret b', s') → P (pre ++ [a]) b' s') →
  ∀ b s b' s', P [] b s → st_foldM f b l s = (Ret b', s') → P l b' s'.
Proof.
  intros Hf. have Hgen k : ∀ pre b s b' s', P pre b s → st_foldM f b k s = (Ret b', s') → P (pre ++ k) b' s'.
  { induction k as [|a k IH]; intros pre b s b' s' HP.
    { intros [= <- <-]. by rw app_nil_r. }
    simpl. rw /mbind /st_bind. destruct (f b a s) as [[b1| |] s1] eqn:E; [|done..]. intros H.
    have := IH (pre ++ [a]) _ _ _ _ (Hf _ _ _ _ _ _ HP E) H. by rw -app_assoc. }
  intros b s b' s' HP. exact (Hgen l [] b s b' s' HP).
Qed.

Lemma st_foldM_ext {S A B} (P : S → Prop) (f g : B → A → ST S B) l :
  (∀ b a s, a ∈ l → P s → f b a s = g b a s ∧ P (f b a s).2) →
  ∀ b s, P s → st_foldM f b l s = st_foldM g b l s.
Proof.
  induction l as [|a l IH]; intros Hfg b s HP; [done|]. simpl. rw /mbind /st_bind.
  destruct (Hfg b a s (list_elem_of_here _ _) HP) as [<- HP'].
  destruct (f b a s) as [[b'|e|p] s']; [|done..].
  apply IH; [|done]. intros ??? Ha ?. apply Hfg; [by apply list_elem_of_further|done].
Qed.

(** A loop whose body keeps an invariant and returns, returns. *)
Lemma foldM_total {A B} (P : B → Prop) (f : B → A → gores B) l :
  (∀ b a, P b → a ∈ l → ∃ b', f b a = Ret b' ∧ P b') →
  ∀ b, P b → ∃ b', foldM f b l = Ret b' ∧ P b'.
Proof.
  induction l as [|a l IH]; intros Hf b Hb; simpl; [by exists b|].
  destruct (Hf b a Hb) as (b' & -> & Hb'); [apply list_elem_of_here|]. simpl.
  apply IH; [|done]. intros ?? H' ?. apply Hf; [done|]. by apply list_elem_of_further.
Qed.

(** Runs the first [foldM] of the goal with the loop invariant [P]. *)
Ltac run_loop P :=
  match goal with
  | |- context [foldM ?f ?b ?l] =>
      let r := fresh "r" in let E := fresh "E" in let H := fresh "HP" in
      edestruct (λ Hf, foldM_total P f l Hf b) as (r & E & H); [| |rw E; clear E]
  end.

Lemma st_foldM_cons {S A B} (f : B → A → ST S B) b a l s :
  st_foldM f b (a :: l) s = (b' ← f b a; st_foldM f b' l) s.
Proof. done. Qed.

Lemma st_foldM_app {S A B} (f : B → A → ST S B) l k : ∀ b s,
  st_foldM f b (l ++ k) s = (b' ← st_foldM f b l; st_foldM f b' k) s.
Proof.
  induction l as [|a l IH]; intros b s; [done|]. rw -app_comm_cons st_foldM_cons {1 2}/mbind /st_bind.
  rw st_foldM_cons /mbind /st_bind. destruct (f b a s) as [[b1| |] s1]; [|done..]. by rw IH.
Qed.

Lemma foldM_cons {A B} (f : B → A → gores B) b a l :
  foldM f b (a :: l) = (b' ← f b a; foldM f b' l).
Proof. done. Qed.

Lemma foldM_one {A B} (f : B → A → gores B) b a : foldM f b [a] = f b a.
Proof. simpl. by destruct (f b a). Qed.

Lemma foldM_app {A B} (f : B → A → gores B) b l k :
  foldM f b (l ++ k) = (b' ← foldM f b l; foldM f b' k).
Proof.
  revert b. induction l as [|a l IH]; intros b; simpl; [done|].
  destruct (f b a); simpl; [apply IH|done..].
Qed.

Lemma foldM_ext {A B} (f g : B → A → gores B) b l :
  (∀ b a, a ∈ l → f b a = g b a) → foldM f b l = foldM g b l.
Proof.
  revert b. induction l as [|a l IH]; intros b Hfg; [done|].
  rw !foldM_cons Hfg; [apply list_elem_of_here|]. destruct (g b a); simpl; [|done..].
  apply IH. intros. by apply Hfg, list_elem_of_further.
Qed.

(** A counting loop that takes [P i] to [P (i + 1)] at every step. *)
Lemma foldM_count {B} (P : Z → B) (f : B → Z → gores B) a n :
  (∀ i, a ≤ i < a + Z.of_nat n → f (P i) i = Ret (P (i + 1))) →
  foldM f (P a) (seqZ a (Z.of_nat n)) = Ret (P (a + Z.of_nat n)).
Proof.
  induction n as [|n IH]; intros Hf; [by rw Z.add_0_r|].
  rw seqZ_S foldM_app IH; [intros; apply Hf; lia|].
  rw /mbind /gores_bind foldM_one Hf; [lia|]. do 2 f_equal. lia.
Qed.

(** [for _, x := range l { y := f(x); out = append(out, y) }] *)
Definition go_map {A B} (f : A → gores B) (l : list A) : gores (list B) :=
  foldM (λ acc x, y ← f x; mret (acc ++ [y])) [] l.

Lemma go_map_Forall2 {A B} (f : A → gores B) l r :
  go_map f l = Ret r ↔ Forall2 (λ x y, f x = Ret y) l r.
Proof.
  have Hgen : ∀ acc r, foldM (λ acc x, y ← f x; mret (acc ++ [y])) acc l = Ret r ↔
    ∃ ys, r = acc ++ ys ∧ Forall2 (λ x y, f x = Ret y) l ys.
  { clear r. induction l as [|x l IH]; intros acc r.
    { split; [intros [= <-]; exists []; by rw app_nil_r|].
      intros (ys & -> & HF%Forall2_nil_inv_l). by rw HF app_nil_r. }
    rw foldM_cons. split.
    - destruct (f x) as [y| |] eqn:E; [|done..]. simpl.
      intros (ys & -> & HF)%IH. exists (y :: ys). rw -app_assoc. split; [done|]. by constructor.
    - intros (ys & -> & HF). destruct ys as [|y ys]; [by apply Forall2_cons_nil_inv in HF|].
      apply Forall2_cons in HF as [Hy HF]. rw Hy /=. apply IH. exists ys. by rw -app_assoc. }
  rw /go_map Hgen. split; [intros (ys & -> & ?); done|]. intros. by exists r.
Qed.

Lemma bind_ext_elem {A B} (l : list A) (f g : A → list B) :
  (∀ a, a ∈ l → f a = g a) → l ≫= f = l ≫= g.
Proof.
  induction l as [|a l IH]; intros Hfg; [done|]. rw !bind_cons Hfg; [apply list_elem_of_here|].
  f_equal. apply IH. intros. by apply Hfg, list_elem_of_further.
Qed.

Lemma slice_ok b lo hi :
  0 ≤ lo ≤ hi → hi ≤ zlen b →
  slice b lo hi = Ret (take (Z.to_nat (hi - lo)) (drop (Z.to_nat lo) b)).
Proof.
  rw /slice => ??.
  by rw !(proj2 (Z.leb_le _ _)); [lia..|].
Qed.

Lemma slice_full b n : zlen b = n → slice b 0 n = Ret b.
Proof.
  intros Hn. pose proof (zlen_nonneg b). rw slice_ok; [lia..|].
  rw drop_0 take_ge //. rw /zlen in Hn. lia.
Qed.

Lemma xor_bytes_involutive a k :
  (length a ≤ length k)%nat → xor_bytes (xor_bytes a k) k = a.
Proof.
  rw /xor_bytes. revert k. induction a as [|x a IH]; intros [|y k]; simpl; [done..| |].
  - lia.
  - intros. rw IH; [lia|]. by rw Z.lxor_assoc Z.lxor_nilpotent Z.lxor_0_r.
Qed.

Lemma length_xor_bytes a k : length (xor_bytes a k) = Nat.min (length a) (length k).
Proof. apply length_zip_with. Qed.

Lemma xor_bytes_comm a b : xor_bytes a b = xor_bytes b a.
Proof.
  rw /xor_bytes. revert b. induction a as [|x a IH]; intros [|y b]; simpl; try done.
  by rw IH Z.lxor_comm.
Qed.

(** *** Big-endian codecs *)

Lemma length_be_encode n x : 0 ≤ n → zlen (be_encode n x) = n.
Proof. intros. rw /zlen /be_encode length_reverse. by apply length_Z_to_little_endian. Qed.

Lemma be_decode_encode n x :
  0 ≤ n → 0 ≤ x < 2 ^ (8 * n) → be_decode (be_encode n x) = x.
Proof.
  intros Hn Hx. rw /be_decode /be_encode reverse_involutive.
  rw little_endian_to_Z_to_little_endian; [lia..|].
  rw Z.mod_small //. by rw Z.mul_comm.
Qed.

Lemma is_bytes_be_encode n x : 0 ≤ n → is_bytes (be_encode n x).
Proof.
  intros. rw /is_bytes /be_encode Forall_reverse.
  apply (Z_to_little_endian_bound n 8); lia.
Qed.

Lemma be_encode_decode n b :
  is_bytes b → zlen b = n → be_encode n (be_decode b) = b.
Proof.
  intros Hb Hn. rw /be_encode /be_decode.
  rw Z_to_little_endian_to_Z; [by rw length_reverse|lia| |by rw reverse_involutive].
  by apply Forall_reverse.
Qed.

Lemma be_decode_bound b : is_bytes b → 0 ≤ be_decode b < 2 ^ (8 * zlen b).
Proof.
  intros Hb. rw /be_decode Z.mul_comm /zlen -(length_reverse b).
  apply little_endian_to_Z_bound; [lia|]. by apply Forall_reverse.
Qed.

Lemma be_encode_inj n x y :
  0 ≤ n → 0 ≤ x < 2 ^ (8 * n) → 0 ≤ y < 2 ^ (8 * n) →
  be_encode n x = be_encode n y → x = y.
Proof.
  intros ??? E. by rw -(be_decode_encode n x) // E be_decode_encode.
Qed.

(** ** Lemmas on local files *)

Lemma length_overlay d off b :
  (off + length b ≤ length d)%nat → length (overlay d off b) = length d.
Proof.
  intros. rw /overlay !length_app length_take length_drop length_app length_replicate. lia.
Qed.

Lemma overlay_read_same d off b :
  take (length b) (drop off (overlay d off b)) = b.
Proof.
  rw /overlay drop_app_length'.
  { rw length_take length_app length_replicate. lia. }
  by rw take_app_length.
Qed.

(** A region of a file that a write at a disjoint place leaves alone. *)
Lemma overlay_read_disjoint d off b p n :
  (p + n ≤ off ∨ off + length b ≤ p)%nat → (p + n ≤ length d)%nat →
  take n (drop p (overlay d off b)) = take n (drop p d).
Proof.
  intros Hdis Hin. apply list_eq => i.
  destruct (decide (i < n)%nat) as [Hi|Hi]; last first.
  { rw !lookup_take_ge //; lia. }
  rw !lookup_take_lt // !lookup_drop /overlay.
  destruct Hdis as [H|H].
  - rw lookup_app_l.
    { rw length_take length_app length_replicate. lia. }
    rw lookup_take_lt; [lia|]. rw lookup_app_l //. lia.
  - rw lookup_app_r.
    { rw length_take length_app length_replicate. lia. }
    rw length_take length_app length_replicate.
    rw lookup_app_r; [lia|]. rw lookup_drop. f_equal. lia.
Qed.

(** A read entirely inside an open file returns that region. *)
Lemma ReadAt_inside f n off :
  f_closed f = false → 0 ≤ n → 0 ≤ off → off + n ≤ zlen (f_data f) →
  ReadAt f n off = (take (Z.to_nat n) (drop (Z.to_nat off) (f_data f)), n, None).
Proof.
  rw /zlen => Ho Hn Hoff Hin. rw /ReadAt Ho.
  have Hl : length (take (Z.to_nat n) (drop (Z.to_nat off) (f_data f))) = Z.to_nat n.
  { rw length_take length_drop. lia. }
  rw (proj2 (Z.ltb_ge _ _)); [lia|]. rw go_copy_full.
  { by rw Hl /zeros length_replicate. }
  rw /zlen Hl Z2Nat.id; [lia|]. by rw Z.ltb_irrefl.
Qed.

(** A write entirely inside an open file succeeds and keeps its size. *)
Lemma WriteAt_inside f b off :
  f_closed f = false → 0 ≤ off → off + zlen b ≤ zlen (f_data f) →
  ∃ d, WriteAt f b off = (None, mkFile d false)
     ∧ length d = length (f_data f)
     ∧ take (length b) (drop (Z.to_nat off) d) = b
     ∧ ∀ p n, (p + n ≤ Z.to_nat off ∨ Z.to_nat off + length b ≤ p)%nat →
              (p + n ≤ length (f_data f))%nat →
              take n (drop p d) = take n (drop p (f_data f)).
Proof.
  rw /zlen => Ho Hoff Hin. rw /WriteAt Ho.
  rw (proj2 (Z.ltb_ge _ _)); [lia|].
  case_decide as Hb.
  - exists (f_data f). subst b. split; [destruct f; simpl in *; by subst|].
    split_and!; [done| |done]. by rw take_0.
  - exists (overlay (f_data f) (Z.to_nat off) b). split_and!; [done| | |].
    + rw length_overlay //. lia.
    + apply overlay_read_same.
    + intros. by apply overlay_read_disjoint.
Qed.

(** The sum over the goroutines of a state when one of them moves. *)
Lemma sum_list_with_insert {A} (f : A → nat) (l : list A) i x y : l !! i = Some x →
  (sum_list_with f (<[i := y]> l) + f x = sum_list_with f l + f y)%nat.
Proof.
  revert i. induction l as [|z l IH]; intros [|i] Hi; simpl in *; [done..|injection Hi as ->; lia|]. specialize (IH i Hi). lia.
Qed.

Lemma sum_list_with_0 {A} (f : A → nat) (l : list A) i x : sum_list_with f l = 0%nat → l !! i = Some x → f x = 0%nat.
Proof.
  revert i. induction l as [|z l IH]; intros [|i] H Hi; simpl in *; [done..|injection Hi as ->; lia|]. apply (IH i); [lia|done].
Qed.

#[global] Arguments foldM : simpl never.
#[global] Arguments st_foldM : simpl never.
#[global] Arguments seqZ : simpl never.
#[global] Arguments zeros : simpl never.
