(* ===== verification/Extern.v ===== *)
(** * Third-party code the storage layer calls

    go-ethereum's [common] and [crypto], the KZG libraries and the Poseidon
    and FFT code of the encoder are not part of the repository: they are the
    operations of the class [Geth], and what the code relies on of their
    documented behaviour are the laws of [GethLaws].  [toy_geth] is a concrete
    instance that satisfies the laws. *)

From S2P Require Import Prelude.

Class Geth := {
  (** [crypto.Keccak256Hash] *)
  Keccak256Hash : bytes → bytes;
  (** [sha3.NewLegacyKeccak512] *)
  Keccak512 : bytes → bytes;
  (** [common.BytesToHash] *)
  BytesToHash : bytes → bytes;
  (** [common.BigToHash] *)
  BigToHash : Z → bytes;
  (** [kzg4844.BlobToCommitment] followed by [eth.KZGToVersionedHash]; the
      argument is the 131072-byte blob *)
  BlobVersionedHash : bytes → gores bytes;
  (** [constants.Q], the order of the scalar field *)
  constants_Q : Z;
  (** [poseidon.HashState(0, [k1, k2])]: the first two elements of the state,
      [None] when it returns an error *)
  PoseidonHashState : Z → Z → option (Z * Z);
  (** [fft.NewDomain(n).FFT(pol, DIF); fft.BitReverse(pol)] on the scalar field,
      which panics when the length is no power of two, and the 32-byte big-endian
      form of an element *)
  FrFFT : list Z → gores (list Z);
  FrBytes : Z → bytes }.

Class GethLaws (G : Geth) : Prop := {
  Keccak256Hash_length b : length (Keccak256Hash b) = 32%nat;
  Keccak512_length b : length (Keccak512 b) = 64%nat;
  Keccak512_bytes b : is_bytes (Keccak512 b);
  (** "BytesToHash sets b to hash": left-padded with zeros. *)
  BytesToHash_pad b : (length b ≤ 32)%nat → BytesToHash b = replicate (32 - length b) 0 ++ b;
  (** "BigToHash sets byte representation of b to hash." *)
  BigToHash_be x : 0 ≤ x < 2 ^ 256 → BigToHash x = be_encode 32 x;
  BlobVersionedHash_length b h : BlobVersionedHash b = Ret h → length h = 32%nat;
  (** inputs inside the field are accepted *)
  PoseidonHashState_field k1 k2 :
    0 ≤ k1 < constants_Q → 0 ≤ k2 < constants_Q → is_Some (PoseidonHashState k1 k2);
  FrFFT_pow2 p (n : nat) : length p = (2 ^ n)%nat → ∃ q, FrFFT p = Ret q;
  FrFFT_length p q : FrFFT p = Ret q → length q = length p;
  FrBytes_length x : length (FrBytes x) = 32%nat }.

(** A toy hash: the sum of the bytes weighted by position, as 32 bytes. *)
Definition toy_hash (b : bytes) : bytes :=
  be_encode 32 (foldl (λ acc x, (acc * 257 + x + 1) mod 2 ^ 256) 7 b).

#[export] Instance toy_geth : Geth := {
  Keccak256Hash := toy_hash;
  Keccak512 b := toy_hash b ++ toy_hash (toy_hash b);
  constants_Q := 2 ^ 61 - 1;
  BytesToHash b := if (length b <=? 32)%nat then replicate (32 - length b) 0 ++ b
                   else drop (length b - 32) b;
  BigToHash x := be_encode 32 (Z.abs x);
  BlobVersionedHash b := Ret (toy_hash (take 64 b));
  PoseidonHashState k1 k2 :=
    if (k1 <? 2 ^ 61 - 1) && (k2 <? 2 ^ 61 - 1)
    then Some (3 * k1 + 5 * k2 + 7, 11 * k1 + 13 * k2 + 17) else None;
  FrFFT p := let n := zlen p in if (0 <? n) && (n =? 2 ^ Z.log2 n) then Ret (reverse p) else Panic OutOfRange;
  FrBytes := be_encode 32 }.

Lemma length_be_encode_32 x : length (be_encode 32 x) = 32%nat.
Proof. pose proof (length_be_encode 32 x) as H. rw /zlen in H. lia. Qed.

#[export] Instance toy_geth_laws : GethLaws toy_geth.
Proof.
  constructor.
  - intros. apply length_be_encode_32.
  - intros. by rw /Keccak512 /toy_geth length_app /toy_hash !length_be_encode_32.
  - intros. apply Forall_app. split; by apply is_bytes_be_encode.
  - intros b Hb. simpl. by rw (proj2 (Nat.leb_le _ _) Hb).
  - intros x Hx. simpl. by rw Z.abs_eq; [lia|].
  - intros b h [= <-]. apply length_be_encode_32.
  - intros k1 k2 [_ H1] [_ H2]. simpl in *. rw !(proj2 (Z.ltb_lt _ _)) //.
  - intros p n Hn. exists (reverse p). cbn [FrFFT toy_geth]. have Hz : zlen p = 2 ^ Z.of_nat n by rw /zlen Hn Nat2Z.inj_pow.
    have Hpos := Z.pow_pos_nonneg 2 (Z.of_nat n) eq_refl (Nat2Z.is_nonneg n).
    by rw Hz Z.log2_pow2 ?(proj2 (Z.ltb_lt _ _)) ?Z.eqb_refl //; lia.
  - intros p q. cbn [FrFFT toy_geth]. destruct (_ && _); [|done]. intros [= <-]. apply length_reverse.
  - intros. apply length_be_encode_32.
Qed.
