(* ===== verification/Bits.v ===== *)
(** * Powers of two (shard_manager.go)

    The two helpers every size of the storage layer goes through: [isPow2n]
    and [checkAndGetBits]. *)

From S2P Require Import Prelude.

(** [bits.LeadingZeros64]. *)
Definition LeadingZeros64 (v : Z) : Z := if v =? 0 then 64 else 63 - Z.log2 v.

Definition isPow2n (v : Z) : bool :=
  if v =? 0 then false
  else Z.land v (sub64 v 1) =? 0.

Definition checkAndGetBits (v : Z) : gores Z :=
  if isPow2n v then Ret (63 - LeadingZeros64 v)
  else Panic (Explicit "v must be 2^n").

Lemma land_pred_pow2 n : 0 ≤ n → Z.land (2 ^ n) (2 ^ n - 1) = 0.
Proof.
  intros. replace (2 ^ n - 1) with (Z.ones n) by (rw Z.ones_equiv; lia).
  rw Z.land_ones //. apply Z.mod_same. apply Z.pow_nonzero; lia.
Qed.

Lemma land_pred_nz v : 0 < v → v ≠ 2 ^ Z.log2 v → Z.land v (v - 1) ≠ 0.
Proof.
  intros Hv Hne H0. pose proof (Z.log2_spec v Hv) as [Hlo Hhi].
  have Hlog : Z.log2 (v - 1) = Z.log2 v.
  { apply Z.log2_unique; [apply Z.log2_nonneg|lia]. }
  have Hb : Z.testbit (Z.land v (v - 1)) (Z.log2 v) = true.
  { rw Z.land_spec Z.bit_log2 //=. rw -Hlog. apply Z.bit_log2.
    have ? : 0 < 2 ^ Z.log2 v by apply Z.pow_pos_nonneg; [lia|apply Z.log2_nonneg]. lia. }
  by rw H0 Z.bits_0 in Hb.
Qed.

Lemma isPow2n_log2 v : is_u64 v → isPow2n v = true → v = 2 ^ Z.log2 v ∧ 0 < v.
Proof.
  rw /isPow2n /is_u64 => Hv. case: Z.eqb_spec => // Hnz H. bools.
  rw /sub64 wrap64_small in H; [lia|].
  destruct (decide (v = 2 ^ Z.log2 v)) as [|Hne]; [lia|].
  exfalso. eapply land_pred_nz; [|exact Hne|exact H]. lia.
Qed.

(** [isPow2n] accepts exactly the powers of two of a [uint64]. *)
Lemma isPow2n_spec v :
  is_u64 v → isPow2n v = true ↔ ∃ n, 0 ≤ n < 64 ∧ v = 2 ^ n.
Proof.
  intros Hv. split.
  - intros H. destruct (isPow2n_log2 v Hv H) as [He Hp].
    exists (Z.log2 v). split; [|done]. split; [apply Z.log2_nonneg|].
    apply Z.log2_lt_pow2; [done|]. apply Hv.
  - intros [n [Hn ->]]. rw /isPow2n.
    have ? : 0 < 2 ^ n by apply Z.pow_pos_nonneg; lia.
    case: Z.eqb_spec => [|_]; [lia|]. rw /is_u64 in Hv. rw /sub64 wrap64_small; [lia|].
    rw land_pred_pow2 //. lia.
Qed.

Lemma checkAndGetBits_ret v n :
  is_u64 v → checkAndGetBits v = Ret n ↔ 0 ≤ n < 64 ∧ v = 2 ^ n.
Proof.
  intros Hv. rw /checkAndGetBits /LeadingZeros64. split.
  - destruct (isPow2n v) eqn:E; [|done]. intros [= <-].
    pose proof (proj1 (isPow2n_spec v Hv) E) as [m [Hm ->]].
    have ? : 0 < 2 ^ m by apply Z.pow_pos_nonneg; lia.
    case: Z.eqb_spec => [|_]; [lia|]. rw Z.log2_pow2; [lia|].
    split; [lia|]. f_equal; lia.
  - intros [Hn ->]. rw (proj2 (isPow2n_spec _ Hv)); [by exists n|].
    have ? : 0 < 2 ^ n by apply Z.pow_pos_nonneg; lia.
    case: Z.eqb_spec => [|_]; [lia|]. rw Z.log2_pow2; [lia|]. f_equal; lia.
Qed.
