(* ===== verification/GoStrings.v ===== *)
(** * Strings (Go's strings and strconv)

    The functions of Go's standard library on text that the program uses, and the facts about them:
    decimal numbers read back, and a split text is put together again. *)

From stdpp Require Import pretty.
From S2P Require Import Prelude.

Definition chr (n : nat) : Ascii.ascii := Ascii.ascii_of_nat n.
Definition code (c : Ascii.ascii) : Z := Z.of_nat (Ascii.nat_of_ascii c).

(** The bytes of a string literal. *)
Definition bytes_of (s : string) : bytes := code <$> String.list_ascii_of_string s.

(** ** Numbers: [strconv.ParseUint(s, 10, 64)] and [strconv.Atoi] *)
Fixpoint parse_digits (n : Z) (s : string) : option Z :=
  match s with
  | EmptyString => Some n
  | String c s =>
      let d := code c - 48 in
      if (0 <=? d) && (d <? 10)
      then let n := 10 * n + d in if n <? two64 then parse_digits n s else None
      else None
  end.

Definition ParseUint (s : string) : option Z :=
  match s with EmptyString => None | _ => parse_digits 0 s end.

Definition Atoi (s : string) : option Z :=
  let '(neg, digits) :=
    match s with
    | String c rest => if code c =? 45 then (true, rest) else if code c =? 43 then (false, rest) else (false, s)
    | EmptyString => (false, s)
    end in
  match ParseUint digits with
  | None => None
  | Some n => if neg then if n <=? two63 then Some (- n) else None else if n <? two63 then Some n else None
  end.

(** ** Text: [strings.ToLower], [strings.TrimSpace], [strings.Contains] and [strings.Split(s, ",")], on ASCII text *)
Definition lower_char (c : Ascii.ascii) : Ascii.ascii :=
  if (65 <=? code c) && (code c <=? 90) then chr (Z.to_nat (code c + 32)) else c.

Fixpoint ToLower (s : string) : string :=
  match s with EmptyString => EmptyString | String c s => String (lower_char c) (ToLower s) end.

Definition is_space (c : Ascii.ascii) : bool := ((9 <=? code c) && (code c <=? 13)) || (code c =? 32).

Fixpoint trim_left (s : string) : string :=
  match s with
  | EmptyString => EmptyString
  | String c s' => if is_space c then trim_left s' else s
  end.

Fixpoint trim_right (s : string) : string :=
  match s with
  | EmptyString => EmptyString
  | String c s' =>
      match trim_right s' with
      | EmptyString => if is_space c then EmptyString else String c EmptyString
      | r => String c r
      end
  end.

Definition TrimSpace (s : string) : string := trim_right (trim_left s).

Definition contains (s sub : string) : bool := match String.index 0 sub s with Some _ => true | None => false end.

Fixpoint split_comma (s : string) : list string :=
  match s with
  | EmptyString => [EmptyString]
  | String c s' =>
      if code c =? 44 then EmptyString :: split_comma s'
      else match split_comma s' with
           | [] => [String c EmptyString]
           | w :: ws => String c w :: ws
           end
  end.

(** ** Facts *)

Lemma parse_digits_pretty n s : Z.of_N n < two64 → parse_digits 0 (pretty_N_go n s) = parse_digits (Z.of_N n) s.
Proof.
  revert s. induction (N.lt_wf_0 n) as [n _ IH]. intros s Hn. destruct (decide (n = 0)%N) as [->|H0].
  { by rw pretty_N_go_0. }
  rw pretty_N_go_step; [lia|]. have Hd := N.div_mod n 10 ltac:(done). have Hm := N.mod_lt n 10 ltac:(done).
  have Hlt := N.div_lt n 10 ltac:(lia) ltac:(lia).
  rw IH; [done|apply (Z.le_lt_trans _ (Z.of_N n)); [apply N2Z.inj_le; by apply N.lt_le_incl|done]|]. cbn [parse_digits].
  have Ec : code (pretty_N_char (n `mod` 10)) - 48 = Z.of_N (n `mod` 10).
  { rw /N.modulo in Hm |- *. destruct (N.div_eucl n 10).2 as [|p]; [done|]. do 4 (destruct p as [p|p|]; try done; try lia). }
  rw Ec. have -> : (0 <=? Z.of_N (n `mod` 10)) && (Z.of_N (n `mod` 10) <? 10) = true.
  { apply andb_true_iff. split; [apply Z.leb_le, N2Z.is_nonneg|apply Z.ltb_lt; by apply (N2Z.inj_lt _ 10)]. }
  have -> : 10 * Z.of_N (n / 10) + Z.of_N (n `mod` 10) = Z.of_N n by rw {3}Hd N2Z.inj_add N2Z.inj_mul.
  by rw (proj2 (Z.ltb_lt _ _)).
Qed.

(** A printed number reads back. *)
Lemma ParseUint_pretty n : 0 ≤ n < two64 → ParseUint (pretty n) = Some n.
Proof.
  intros Hn. destruct n as [|p|p]; [done| |lia].
  have Hp := parse_digits_pretty (Npos p) "" (proj2 Hn). rw /ParseUint.
  change (pretty (Zpos p)) with (pretty_N_go (Npos p) ""). destruct (pretty_N_go (Npos p) "") eqn:E; [by rw /= in Hp|by rw Hp].
Qed.

Lemma Atoi_ParseUint s n : ParseUint s = Some n → Atoi s = if n <? two63 then Some n else None.
Proof.
  rw /Atoi. destruct s as [|c s]; [done|]. intros Hs. move: (Hs). rw /ParseUint. cbn [parse_digits].
  destruct ((0 <=? code c - 48) && _) eqn:E; [|done]. intros _.
  rw (proj2 (Z.eqb_neq (code c) 45)); [lia|]. rw (proj2 (Z.eqb_neq (code c) 43)); [lia|]. rw /ParseUint in Hs. by rw Hs.
Qed.

Lemma Atoi_minus s n : ParseUint s = Some n → Atoi ("-" +:+ s) = if n <=? two63 then Some (- n) else None.
Proof. intros Hs. change (Atoi ("-" +:+ s)) with (match ParseUint s with None => None | Some n => if n <=? two63 then Some (- n) else None end). by rw Hs. Qed.

(** A word without a comma is one word. *)
Lemma split_comma_digits n s m : parse_digits n s = Some m → split_comma s = [s].
Proof.
  revert n. induction s as [|c s IH]; [done|]. intros n. cbn [parse_digits split_comma].
  destruct ((0 <=? code c - 48) && _) eqn:E; [|done]. destruct (_ <? two64); [|done]. intros Hs.
  rw (proj2 (Z.eqb_neq (code c) 44)); [lia|]. by rw (IH _ Hs).
Qed.

Lemma split_comma_app a b : split_comma a = [a] → split_comma (a +:+ "," +:+ b) = a :: split_comma b.
Proof.
  induction a as [|c a IH]; [done|]. change (String c a +:+ "," +:+ b) with (String c (a +:+ "," +:+ b)). cbn [split_comma]. destruct (code c =? 44); [by intros [=]|].
  intros Ha. have -> : split_comma (a +:+ "," +:+ b) = a :: split_comma b; [|done]. apply IH.
  destruct (split_comma a) as [|w [|w' ws]] eqn:E; [injection Ha as <-; by cbn in E|by injection Ha as ->|by simplify_eq].
Qed.

Lemma parse_digits_get n s m i c : parse_digits n s = Some m → String.get i s = Some c → 48 ≤ code c ≤ 57.
Proof.
  revert n i. induction s as [|c' s IH]; [by destruct i|]. intros n i. cbn [parse_digits].
  destruct ((0 <=? code c' - 48) && _) eqn:E; [|done]. destruct (_ <? two64); [|done]. intros Hs.
  destruct i as [|i]; [intros [= <-]; lia|]. exact (IH _ i Hs).
Qed.

Lemma get_last s c : String.get (String.length s) (s +:+ String c "") = Some c.
Proof. by induction s. Qed.

Lemma length_snoc s c : String.length (s +:+ String c "") = S (String.length s).
Proof. induction s as [|? ? IH]; [done|]. cbn. by rw -IH. Qed.

Lemma substring_snoc s c : String.substring 0 (String.length s) (s +:+ String c "") = s.
Proof.
  induction s as [|c' s IH]; [done|].
  change (String.substring 0 (String.length (String c' s)) (String c' s +:+ String c ""))
    with (String c' (String.substring 0 (String.length s) (s +:+ String c ""))). by rw IH.
Qed.

Lemma get_some c s : is_Some (String.get (String.length s) (String c s)).
Proof. revert c. induction s as [|c' s IH]; intros c; [by eexists|]. exact (IH c'). Qed.

Lemma split_comma_snoc s c : split_comma s = [s] → code c ≠ 44 → split_comma (s +:+ String c "") = [s +:+ String c ""].
Proof.
  intros Hs Hc. induction s as [|c' s IH].
  { cbn [split_comma]. change ("" +:+ String c "") with (String c ""). cbn [split_comma]. by rw (proj2 (Z.eqb_neq _ _) Hc). }
  change (String c' s +:+ String c "") with (String c' (s +:+ String c "")). move: Hs. cbn [split_comma].
  destruct (code c' =? 44); [by intros [=]|]. intros Hs. rw IH //.
  destruct (split_comma s) as [|w [|w' ws]] eqn:E; [injection Hs as <-; by cbn in E|by injection Hs as ->|by simplify_eq].
Qed.
