(* ===== verification/GoBig.v ===== *)
(** * Numbers as text (Go's math/big)

    [big.Int.SetString] reads a whole string in a base; base 0 takes the base from a prefix and allows underscores
    between digits.  Printed numbers are read back, in base 10 and in base 0. *)

From stdpp Require Import pretty.
From S2P Require Import Prelude GoStrings.

(** The value of a digit of the bases up to 36; 63 for other characters. *)
Definition digit_of (c : Ascii.ascii) : Z :=
  let x := code c in
  if (48 <=? x) && (x <=? 57) then x - 48
  else if (97 <=? x) && (x <=? 122) then x - 87
  else if (65 <=? x) && (x <=? 90) then x - 55
  else 63.

(** The last character that was read. *)
Inductive last_char := NoChar | Digit | Underscore.

Definition is_digit_char (p : last_char) : bool := match p with Digit => true | _ => false end.
Definition is_underscore (p : last_char) : bool := match p with Underscore => true | _ => false end.

(** The number, whether a digit was read, whether an underscore is misplaced, and what follows. *)
Fixpoint scan_digits (b : Z) (sep : bool) (prev : last_char) (inval : bool) (acc : Z) (some : bool) (s : string) : Z * bool * bool * string :=
  match s with
  | EmptyString => (acc, some, inval || is_underscore prev, EmptyString)
  | String c s' =>
      if sep && (code c =? 95) then scan_digits b sep Underscore (inval || negb (is_digit_char prev)) acc some s'
      else if digit_of c <? b then scan_digits b sep Digit inval (acc * b + digit_of c) true s'
      else (acc, some, inval || is_underscore prev, s)
  end.

(** [octal] tells whether the prefix was a single 0, which is a number by itself. *)
Definition scan_in (b : Z) (sep : bool) (prev : last_char) (octal : bool) (s : string) : option (Z * string) :=
  let '(n, some, inval, rest) := scan_digits b sep prev false 0 false s in
  if inval then None else if some then Some (n, rest) else if octal then Some (0, rest) else None.

Definition scan_nat (base : Z) (s : string) : option (Z * string) :=
  if base =? 0 then
    match s with
    | String c s1 =>
        if code c =? 48 then
          match s1 with
          | EmptyString => Some (0, EmptyString)
          | String c2 s2 =>
              let x := code (lower_char c2) in
              if x =? 98 then scan_in 2 true Digit false s2
              else if x =? 111 then scan_in 8 true Digit false s2
              else if x =? 120 then scan_in 16 true Digit false s2
              else scan_in 8 true Digit true s1
          end
        else scan_in 10 true NoChar false s
    | EmptyString => None
    end
  else scan_in base false NoChar false s.

(** [new(big.Int).SetString(s, base)]: [None] when it is not ok. *)
Definition SetString (s : string) (base : Z) : option Z :=
  let '(neg, s) :=
    match s with
    | String c rest => if code c =? 45 then (true, rest) else if code c =? 43 then (false, rest) else (false, s)
    | EmptyString => (false, s)
    end in
  match scan_nat base s with
  | Some (n, EmptyString) => Some (if neg then - n else n)
  | _ => None
  end.

(** ** Printed numbers *)

Lemma pretty_char_code n : (n < 10)%N → code (pretty_N_char n) = 48 + Z.of_N n ∧ digit_of (pretty_N_char n) = Z.of_N n.
Proof. intros Hn. destruct n as [|p]; [done|]. do 4 (destruct p as [p|p|]; try done; try lia). Qed.

Lemma scan_pretty_go sep n s prev : (0 < n)%N → ∀ some,
  scan_digits 10 sep prev false 0 some (pretty_N_go n s) = scan_digits 10 sep Digit false (Z.of_N n) true s.
Proof.
  revert s. induction (N.lt_wf_0 n) as [n _ IH]. intros s Hn some.
  rw pretty_N_go_step; [lia|]. have Hd := N.div_mod n 10 ltac:(done). have Hm := N.mod_lt n 10 ltac:(done).
  destruct (pretty_char_code (n `mod` 10) Hm) as [Hc1 Hc2].
  have Hne : sep && (code (pretty_N_char (n `mod` 10)) =? 95) = false.
  { rw Hc1 (proj2 (Z.eqb_neq _ _)) ?andb_false_r //. apply (N2Z.inj_lt _ 10) in Hm. lia. }
  have Hlt : (Z.of_N (n `mod` 10) <? 10) = true by apply Z.ltb_lt, (N2Z.inj_lt _ 10).
  destruct (decide (n / 10 = 0)%N) as [E0|E0].
  - rw E0 pretty_N_go_0. cbn [scan_digits]. rw Hne Hc2 Hlt. do 2 f_equal. rw E0 N.mul_0_r N.add_0_l in Hd. by rw -Hd.
  - rw IH; [apply N.div_lt; lia|by apply N.neq_0_lt_0|]. cbn [scan_digits]. rw Hne Hc2 Hlt.
    by have -> : Z.of_N (n / 10) * 10 + Z.of_N (n `mod` 10) = Z.of_N n by rw {3}Hd N2Z.inj_add N2Z.inj_mul Z.mul_comm.
Qed.

(** The first character of a printed positive number is a digit that is not 0. *)
Lemma pretty_go_head n s : (0 < n)%N → ∃ c r, pretty_N_go n s = String c r ∧ 49 ≤ code c ≤ 57.
Proof.
  revert s. induction (N.lt_wf_0 n) as [n _ IH]. intros s Hn. rw pretty_N_go_step; [lia|].
  have Hd := N.div_mod n 10 ltac:(done). have Hm := N.mod_lt n 10 ltac:(done).
  destruct (decide (n / 10 = 0)%N) as [E0|E0]; [|apply IH; [apply N.div_lt; lia|by apply N.neq_0_lt_0]].
  rw E0 pretty_N_go_0. eexists _, _. split; [done|]. destruct (pretty_char_code (n `mod` 10) Hm) as [-> _].
  apply (N2Z.inj_lt _ 10) in Hm. rw E0 N.mul_0_r N.add_0_l in Hd. rw -Hd in Hm |- *. apply N2Z.inj_lt in Hn. lia.
Qed.

Lemma scan_nat_pretty base n : base = 0 ∨ base = 10 → (0 < n)%N → scan_nat base (pretty_N_go n "") = Some (Z.of_N n, ""%string).
Proof.
  intros Hb Hn. destruct (pretty_go_head n "" Hn) as (c & r & E & Hc).
  have Hs sep : scan_in 10 sep NoChar false (pretty_N_go n "") = Some (Z.of_N n, ""%string).
  { rw /scan_in scan_pretty_go //. }
  rw /scan_nat. destruct Hb as [-> | ->]; [|exact (Hs false)]. specialize (Hs true). rw E in Hs |- *.
  change (0 =? 0) with true. cbv iota. rw (proj2 (Z.eqb_neq (code c) 48)); [lia|]. exact Hs.
Qed.

(** A printed number is read back, also when the base is to be found out. *)
Lemma SetString_pretty n base : base = 0 ∨ base = 10 → SetString (pretty n) base = Some n.
Proof.
  intros Hb. rw /SetString. destruct n as [|p|p]; [by destruct Hb as [-> | ->]| |].
  - change (pretty (Zpos p)) with (pretty_N_go (Npos p) ""). pose proof (scan_nat_pretty base (Npos p) Hb ltac:(done)) as Hs.
    destruct (pretty_go_head (Npos p) "" ltac:(done)) as (c & r & E & Hc). rw E in Hs |- *.
    rw (proj2 (Z.eqb_neq (code c) 45)); [lia|]. rw (proj2 (Z.eqb_neq (code c) 43)); [lia|]. by rw Hs.
  - change (match scan_nat base (pretty_N_go (Npos p) "") with Some (n, EmptyString) => Some (- n) | _ => None end = Some (Zneg p)).
    by rw (scan_nat_pretty base (Npos p) Hb).
Qed.

(** It never starts like a hexadecimal number. *)
Lemma pretty_not_hex (n : Z) : String.prefix "0x" (pretty n) = false.
Proof.
  destruct n as [|p|p]; [done| |done]. change (pretty (Zpos p)) with (pretty_N_go (Npos p) "").
  destruct (pretty_go_head (Npos p) "" ltac:(done)) as (c & r & -> & Hc). cbn [String.prefix].
  destruct (Ascii.ascii_dec _ _) as [<-|]; [|done]. exfalso. move: Hc. cbv. intuition done.
Qed.

(** A prefix is no part of a number in base 16. *)
Lemma SetString_prefix_16 s : SetString ("0x" +:+ s)%string 16 = None.
Proof. done. Qed.

#[global] Arguments SetString : simpl never.
