(* ===== verification/GoFloat.v ===== *)
(** * Floating-point numbers

    A [float64] is a [spec_float] of precision 53: the values and the roundings of IEEE 754, as the hardware and Go compute
    them.  Comparisons are by value.  The lemmas give bounds of rounded results by powers of two, and say that integers
    of less than 53 bits are exact. *)

From Stdlib Require Import SpecFloat.
From S2P Require Import Prelude.

Open Scope Z_scope.

Abbreviation float64 := spec_float.

Definition fadd : float64 → float64 → float64 := SFadd 53 1024.
Definition fmul : float64 → float64 → float64 := SFmul 53 1024.
Definition fdiv : float64 → float64 → float64 := SFdiv 53 1024.

(** [float64(n)] of an integer. *)
Definition of_Z (n : Z) : float64 := binary_normalize 53 1024 n 0 false.

(** The order of [m1 * 2 ^ e1] and [m2 * 2 ^ e2]. *)
Definition compare_scaled (m1 e1 m2 e2 : Z) : comparison :=
  let e := Z.min e1 e2 in (m1 * 2 ^ (e1 - e)) ?= (m2 * 2 ^ (e2 - e)).

Definition signed (s : bool) (m : positive) : Z := if s then Z.neg m else Z.pos m.

Definition mantissa (x : float64) : Z * Z :=
  match x with S754_finite s m e => (signed s m, e) | _ => (0, 0) end.

(** [x < y]. *)
Definition fltb (x y : float64) : bool :=
  match x, y with
  | S754_nan, _ | _, S754_nan => false
  | S754_infinity s1, S754_infinity s2 => s1 && negb s2
  | S754_infinity s, _ => s
  | _, S754_infinity s => negb s
  | _, _ => match compare_scaled (mantissa x).1 (mantissa x).2 (mantissa y).1 (mantissa y).2 with Lt => true | _ => false end
  end.

(** [math.Ceil]. *)
Definition Ceil (x : float64) : float64 :=
  match x with
  | S754_finite s m e =>
      if 0 <=? e then x
      else binary_normalize 53 1024 (- (- signed s m / 2 ^ (- e))) 0 s
  | _ => x
  end.

Definition is_zero (x : float64) : bool := match x with S754_zero _ => true | _ => false end.
Definition is_neg (x : float64) : bool :=
  match x with S754_zero s | S754_infinity s | S754_finite s _ _ => s | S754_nan => false end.
Definition is_nan (x : float64) : bool := match x with S754_nan => true | _ => false end.

(** [math.Min] and [math.Max]. *)
Definition Min (x y : float64) : float64 :=
  match x, y with
  | S754_infinity true, _ | _, S754_infinity true => S754_infinity true
  | S754_nan, _ | _, S754_nan => S754_nan
  | S754_zero _, S754_zero _ => if is_neg x then x else y
  | _, _ => if fltb x y then x else y
  end.
Definition Max (x y : float64) : float64 :=
  match x, y with
  | S754_infinity false, _ | _, S754_infinity false => S754_infinity false
  | S754_nan, _ | _, S754_nan => S754_nan
  | S754_zero _, S754_zero _ => if is_neg x then y else x
  | _, _ => if fltb y x then x else y
  end.

(** The integer part of a finite number. *)
Definition trunc (x : float64) : option Z :=
  match x with
  | S754_zero _ => Some 0
  | S754_finite s m e => Some (if 0 <=? e then signed s m * 2 ^ e else Z.quot (signed s m) (2 ^ (- e)))
  | _ => None
  end.

(** [uint64(x)] is the integer part when it fits; otherwise its value depends on the machine. *)
Definition to_uint64 (machine : float64 → Z) (x : float64) : Z :=
  match trunc x with
  | Some n => if bool_decide (0 ≤ n < two64) then n else machine x
  | None => machine x
  end.

(** ** Rounding *)

Lemma iter_pos_nat {A} (f : A → A) p x : SpecFloat.iter_pos f p x = Nat.iter (Pos.to_nat p) f x.
Proof.
  revert x. induction p as [p IH|p IH|]; intros x; cbn [SpecFloat.iter_pos]; rw ?IH.
  - rw Pos2Nat.inj_xI /= Nat.add_0_r Nat.iter_add. by rw -!Nat.iter_succ_r.
  - by rw Pos2Nat.inj_xO /= Nat.add_0_r Nat.iter_add.
  - done.
Qed.

Lemma digits_log2 m : 0 < m → Zdigits2 m = Z.log2 m + 1.
Proof.
  destruct m as [|p|p]; [lia| |lia]. intros _. cbn [Zdigits2].
  have H : ∀ p, Z.pos (digits2_pos p) = Z.log2 (Z.pos p) + 1.
  { clear. induction p as [p IH|p IH|]; cbn [digits2_pos]; [| |done].
    - rw Pos2Z.inj_succ IH. rw (Pos2Z.inj_xI p). rw Z.log2_succ_double; lia.
    - rw Pos2Z.inj_succ IH. rw (Pos2Z.inj_xO p). rw Z.log2_double; lia. }
  apply H.
Qed.

Lemma shr_1_m r : 0 ≤ shr_m r → shr_m (shr_1 r) = shr_m r / 2.
Proof.
  destruct r as [m r s]. cbn [shr_m]. rw -Z.div2_div. by destruct m as [|[p|p|]|].
Qed.

Lemma shr_m_iter n r : 0 ≤ shr_m r → shr_m (Nat.iter n shr_1 r) = shr_m r / 2 ^ Z.of_nat n.
Proof.
  intros Hr. induction n as [|n IH]; [cbn; by rw Z.div_1_r|].
  rw Nat.iter_succ shr_1_m; rw IH; [apply Z.div_pos; [done|lia]|].
  rw Z.div_div; [lia|lia|]. f_equal. rw Nat2Z.inj_succ Z.pow_succ_r; lia.
Qed.

Lemma shr_spec r e n : 0 ≤ shr_m r → shr_m (shr r e n).1 = shr_m r / 2 ^ Z.max 0 n ∧ (shr r e n).2 = e + Z.max 0 n.
Proof.
  intros Hr. destruct n as [|p|p]; cbn [shr fst snd].
  - change (2 ^ Z.max 0 0) with 1. rw Z.div_1_r. split; [done|lia].
  - rw iter_pos_nat shr_m_iter // positive_nat_Z. split; [do 2 f_equal; lia|lia].
  - replace (Z.max 0 (Z.neg p)) with 0 by lia. change (2 ^ 0) with 1. rw Z.div_1_r. split; [done|lia].
Qed.

Lemma round_up m l : 0 ≤ m → m ≤ round_nearest_even m l ≤ m + 1.
Proof. intros. destruct l as [|[]]; cbn; try lia. destruct (Z.even m); lia. Qed.

Lemma shr_record_m m l : shr_m (shr_record_of_loc m l) = m.
Proof. by destruct l as [|[]]. Qed.

(** The two steps of a rounding: a shift that rounds to 53 bits, and one that takes back a carry. *)
Definition shift_of (m e : Z) : Z := Z.max 0 (fexp 53 1024 (Zdigits2 m + e) - e).

Lemma shr_fexp_spec m e l : 0 ≤ m →
  shr_m (shr_fexp 53 1024 m e l).1 = m / 2 ^ shift_of m e ∧ (shr_fexp 53 1024 m e l).2 = e + shift_of m e.
Proof.
  intros Hm. rw /shr_fexp. destruct (shr_spec (shr_record_of_loc m l) e (fexp 53 1024 (Zdigits2 m + e) - e)) as [H1 H2].
  - by rw shr_record_m.
  - by rw H1 H2 shr_record_m.
Qed.

(** What a rounding returns, in terms of the mantissa [m1] after the first step. *)
Lemma round_aux_cases s m e l : 0 ≤ m →
  ∃ m1, m / 2 ^ shift_of m e ≤ m1 ≤ m / 2 ^ shift_of m e + 1 ∧ (l = loc_Exact → shift_of m e = 0 → m1 = m) ∧
  let e1 := e + shift_of m e in
  let m2 := m1 / 2 ^ shift_of m1 e1 in
  let e2 := e1 + shift_of m1 e1 in
  0 ≤ m2 ∧
  binary_round_aux 53 1024 s m e l =
    if m2 =? 0 then S754_zero s else if e2 <=? 971 then S754_finite s (Z.to_pos m2) e2 else S754_infinity s.
Proof.
  intros Hm. destruct (shr_fexp_spec m e l Hm) as [H1 H2].
  have Hq : 0 ≤ m / 2 ^ shift_of m e by apply Z.div_pos; [done|]; apply Z.pow_pos_nonneg; rw /shift_of; lia.
  rw /binary_round_aux.
  destruct (shr_fexp 53 1024 m e l) as [r1 e1] eqn:E1. cbn [fst snd] in *. subst e1.
  exists (round_nearest_even (shr_m r1) (loc_of_shr_record r1)). set (m1 := round_nearest_even _ _).
  have Hm1 : shr_m r1 ≤ m1 ≤ shr_m r1 + 1 by apply round_up; lia. rw H1 in Hm1. split; [exact Hm1|]. split.
  { intros -> Hz. rw /shr_fexp in E1. subst m1. rw /shift_of in Hz.
    destruct (fexp 53 1024 (Zdigits2 m + e) - e); cbn in E1; [by injection E1 as <- _|lia|by injection E1 as <- _]. }
  cbv zeta. destruct (shr_fexp_spec m1 (e + shift_of m e) loc_Exact) as [H3 H4]; [lia|].
  have H0 : 0 ≤ m1 / 2 ^ shift_of m1 (e + shift_of m e).
  { apply Z.div_pos; [lia|]. apply Z.pow_pos_nonneg; rw /shift_of; lia. }
  split; [exact H0|].
  destruct (shr_fexp 53 1024 m1 _ loc_Exact) as [r2 e2]. cbn [fst snd] in *. subst e2. rw -H3 in H0 *.
  by destruct (shr_m r2).
Qed.

(** ** Numbers that are not negative *)

Definition nonneg (x : float64) : Prop := is_nan x = false ∧ is_neg x = false.

(** [x] is at least [2 ^ a]. *)
Definition ge_pow (x : float64) (a : Z) : Prop :=
  match x with
  | S754_infinity false => True
  | S754_finite false m e => a ≤ Z.log2 (Z.pos m) + e
  | _ => False
  end.

Lemma ge_pow_nonneg x a : ge_pow x a → nonneg x.
Proof. by destruct x as [|[]| |[]]. Qed.

Lemma round_nonneg m e l : 0 ≤ m → nonneg (binary_round_aux 53 1024 false m e l).
Proof.
  intros Hm. destruct (round_aux_cases false m e l Hm) as (m1 & _ & _ & H). cbv zeta in H. destruct H as [_ ->].
  by repeat case_match.
Qed.

(** A shift keeps the bound [2 ^ a]. *)
Lemma shift_bound m e a : -1074 ≤ a → 0 < m → a ≤ Z.log2 m + e →
  0 < m / 2 ^ shift_of m e ∧ a ≤ Z.log2 (m / 2 ^ shift_of m e) + (e + shift_of m e).
Proof.
  intros Ha Hm Hb. have Hk : 0 ≤ shift_of m e ≤ Z.log2 m.
  { rw /shift_of digits_log2 // /fexp /emin. pose proof (Z.log2_nonneg m). lia. }
  split.
  - apply Z.div_str_pos. split; [apply Z.pow_pos_nonneg; lia|]. etransitivity; [|apply (Z.log2_spec m Hm)]. apply Z.pow_le_mono_r; lia.
  - rw -Z.shiftr_div_pow2; [lia|]. rw Z.log2_shiftr //. lia.
Qed.

Lemma round_ge m e l a : -1074 ≤ a → 0 < m → a ≤ Z.log2 m + e → ge_pow (binary_round_aux 53 1024 false m e l) a.
Proof.
  intros Ha Hm Hb. destruct (round_aux_cases false m e l) as (m1 & Hm1 & _ & H); [lia|]. cbv zeta in H. destruct H as [_ ->].
  destruct (shift_bound m e a Ha Hm Hb) as [H1 H2].
  destruct (shift_bound m1 (e + shift_of m e) a Ha) as [H3 H4]; [lia| |].
  { etransitivity; [exact H2|]. apply Z.add_le_mono_r. apply Z.log2_le_mono. lia. }
  rw (proj2 (Z.eqb_neq _ 0)); [lia|]. case_match; [|done]. cbn [ge_pow]. rw Z2Pos.id //.
Qed.

Lemma shl_align_spec m e e' : Z.pos (shl_align m e e').1 = Z.pos m * 2 ^ (e - Z.min e e') ∧ (shl_align m e e').2 = Z.min e e'.
Proof.
  rw /shl_align. destruct (e' - e) as [|d|d] eqn:E; cbn [fst snd].
  - replace (Z.min e e') with e by lia. rw Z.sub_diag. lia.
  - replace (Z.min e e') with e by lia. rw Z.sub_diag. lia.
  - replace (Z.min e e') with e' by lia. replace (e - e') with (Z.pos d) by lia. split; [|done].
    clear. induction d as [|d IH] using Pos.peano_ind; [cbn; lia|].
    rw Pos.iter_succ Pos2Z.inj_xO. rw IH Pos2Z.inj_succ Z.pow_succ_r; lia.
Qed.

Lemma binary_round_ge m e a : -1074 ≤ a → a ≤ Z.log2 (Z.pos m) + e → ge_pow (binary_round 53 1024 false m e) a.
Proof.
  intros Ha Hb. rw /binary_round. set (e' := fexp _ _ _). destruct (shl_align_spec m e e') as [H1 H2].
  destruct (shl_align m e e') as [mz ez]. cbn [fst snd] in *. apply round_ge; [done|done|]. rw H1 H2 Z.log2_mul_pow2; lia.
Qed.

Lemma binary_round_nonneg m e : nonneg (binary_round 53 1024 false m e).
Proof. rw /binary_round. destruct (shl_align _ _ _) as [mz ez]. by apply round_nonneg. Qed.

Lemma of_Z_ge n a : 0 ≤ a → 2 ^ a ≤ n → ge_pow (of_Z n) a.
Proof.
  intros Ha Hn. have Hp : 0 < 2 ^ a by apply Z.pow_pos_nonneg. destruct n as [|m|m]; [lia| |lia].
  apply binary_round_ge; [lia|]. rw Z.add_0_r. apply Z.log2_le_pow2; lia.
Qed.

Lemma of_Z_nonneg n : 0 ≤ n → nonneg (of_Z n).
Proof. intros Hn. destruct n as [|m|m]; [done| |lia]. apply binary_round_nonneg. Qed.

(** A sum of such numbers is one, and not less than the first up to a power of two. *)
Lemma fadd_pos mx ex my ey : ∃ m, Z.pos m = Z.pos mx * 2 ^ (ex - Z.min ex ey) + Z.pos my * 2 ^ (ey - Z.min ex ey) ∧
  fadd (S754_finite false mx ex) (S754_finite false my ey) = binary_round 53 1024 false m (Z.min ex ey).
Proof.
  destruct (shl_align_spec mx ex (Z.min ex ey)) as [H1 _]. destruct (shl_align_spec my ey (Z.min ex ey)) as [H2 _].
  replace (Z.min ex (Z.min ex ey)) with (Z.min ex ey) in H1 by lia. replace (Z.min ey (Z.min ex ey)) with (Z.min ex ey) in H2 by lia.
  eexists (_ + _)%positive. split; [|done]. by rw Pos2Z.inj_add H1 H2.
Qed.

Lemma fadd_nonneg x y : nonneg x → nonneg y → nonneg (fadd x y).
Proof.
  intros [Hx1 Hx2] [Hy1 Hy2]. destruct x as [[]|[]| |[] mx ex], y as [[]|[]| |[] my ey]; try done.
  destruct (fadd_pos mx ex my ey) as (m & _ & ->). apply binary_round_nonneg.
Qed.

Lemma fadd_ge x y a : -1074 ≤ a → ge_pow x a → nonneg y → ge_pow (fadd x y) a.
Proof.
  intros Ha Hx [Hy1 Hy2]. destruct x as [|[]| |[] mx ex], y as [[]|[]| |[] my ey]; try done.
  cbn [ge_pow] in Hx. destruct (fadd_pos mx ex my ey) as (m & Hm & ->). apply binary_round_ge; [done|].
  have H : Z.log2 (Z.pos mx * 2 ^ (ex - Z.min ex ey)) ≤ Z.log2 (Z.pos m).
  { apply Z.log2_le_mono. rw Hm. have : 0 ≤ Z.pos my * 2 ^ (ey - Z.min ex ey) by apply Z.mul_nonneg_nonneg; [|apply Z.pow_nonneg].
    lia. }
  rw Z.log2_mul_pow2 in H; lia.
Qed.

(** A product with a positive number. *)
Definition positive_finite (x : float64) : Prop := match x with S754_finite false _ _ => True | _ => False end.

Lemma fmul_nonneg_l x y : nonneg x → positive_finite y → nonneg (fmul x y).
Proof.
  intros [Hx1 Hx2] Hy. destruct x as [[]|[]| |[] mx ex], y as [[]|[]| |[] my ey]; try done. by apply round_nonneg.
Qed.

Lemma fmul_nonneg_r x y : positive_finite x → nonneg y → nonneg (fmul x y).
Proof.
  intros Hx [Hy1 Hy2]. destruct x as [[]|[]| |[] mx ex], y as [[]|[]| |[] my ey]; try done. by apply round_nonneg.
Qed.

(** ** Quotients *)

Lemma div_core m1 e1 m2 e2 : 0 < m1 → 0 < m2 →
  let '(q, e, _) := SFdiv_core_binary 53 1024 m1 e1 m2 e2 in
  0 ≤ q ∧ (-1074 ≤ Z.log2 m1 + e1 - (Z.log2 m2 + e2) - 1 → 0 < q ∧ Z.log2 m1 + e1 - (Z.log2 m2 + e2) - 1 ≤ Z.log2 q + e).
Proof.
  intros H1 H2. rw /SFdiv_core_binary !digits_log2 //. cbv zeta. set (e := Z.min _ _). set (s := e1 - e2 - e).
  have Hs : 0 ≤ s by lia. have -> : match s with Z0 => m1 | Z.pos _ => Z.shiftl m1 s | Z.neg _ => 0 end = m1 * 2 ^ s.
  { destruct s as [|p|p] eqn:E; [lia| |lia]. by rw Z.shiftl_mul_pow2. }
  have Hq : (Z.div_eucl (m1 * 2 ^ s) m2).1 = m1 * 2 ^ s / m2 by rw /Z.div; by destruct (Z.div_eucl _ _).
  destruct (Z.div_eucl (m1 * 2 ^ s) m2) as [q r]. cbn [fst] in Hq. subst q.
  have Hp : 0 < 2 ^ s by apply Z.pow_pos_nonneg. split; [apply Z.div_pos; nia|]. intros Ha.
  set (t := Z.log2 m1 + s - Z.log2 m2 - 1). have Ht : 0 ≤ t by subst t s e; rw /fexp /emin; lia.
  have Hle : 2 ^ t ≤ m1 * 2 ^ s / m2.
  { apply Z.div_le_lower_bound; [done|]. destruct (Z.log2_spec m1 H1) as [L1 _]. destruct (Z.log2_spec m2 H2) as [_ L2].
    have E : 2 ^ Z.succ (Z.log2 m2) * 2 ^ t = 2 ^ Z.log2 m1 * 2 ^ s.
    { rw -!Z.pow_add_r; try (pose proof (Z.log2_nonneg m1); pose proof (Z.log2_nonneg m2); lia). f_equal. lia. }
    have : 0 < 2 ^ t by apply Z.pow_pos_nonneg. nia. }
  have Ht0 : 0 < 2 ^ t by apply Z.pow_pos_nonneg. split; [lia|].
  apply Z.log2_le_pow2 in Hle; [|lia]. subst t s. lia.
Qed.

Lemma fdiv_ge m1 e1 m2 e2 a : -1074 ≤ a → a ≤ Z.log2 (Z.pos m1) + e1 - (Z.log2 (Z.pos m2) + e2) - 1 →
  ge_pow (fdiv (S754_finite false m1 e1) (S754_finite false m2 e2)) a.
Proof.
  intros Ha Hb. rw /fdiv /SFdiv. pose proof (div_core (Z.pos m1) e1 (Z.pos m2) e2 eq_refl eq_refl) as H.
  destruct (SFdiv_core_binary _ _ _ _ _ _) as [[q e] l]. destruct H as [_ H]. destruct H as [H1 H2]; [lia|].
  apply round_ge; lia.
Qed.

Definition finite_nonneg (x : float64) : Prop := match x with S754_zero false | S754_finite false _ _ => True | _ => False end.

Lemma fdiv_nonneg x y a : finite_nonneg x → ge_pow y a → nonneg (fdiv x y).
Proof.
  intros Hx Hy. destruct x as [[]|[]| |[] m1 e1], y as [|[]| |[] m2 e2]; try done.
  rw /fdiv /SFdiv. pose proof (div_core (Z.pos m1) e1 (Z.pos m2) e2 eq_refl eq_refl) as H.
  destruct (SFdiv_core_binary _ _ _ _ _ _) as [[q e] l]. destruct H as [H _]. by apply round_nonneg.
Qed.

(** ** Integers *)

(** [x] is the integer [n]. *)
Definition exact (x : float64) (n : Z) : Prop :=
  match x with
  | S754_zero _ => n = 0
  | S754_finite s m e => signed s m * 2 ^ Z.max e 0 = n * 2 ^ Z.max (- e) 0
  | _ => False
  end.

Lemma of_pos_round n : ∃ m e, Z.pos m = Z.pos n * 2 ^ (- e) ∧ e = Z.min 0 (Z.log2 (Z.pos n) - 52) ∧
  of_Z (Z.pos n) = binary_round_aux 53 1024 false (Z.pos m) e loc_Exact.
Proof.
  rw /of_Z /binary_normalize /binary_round. set (e' := fexp _ _ _). destruct (shl_align_spec n 0 e') as [H1 H2].
  destruct (shl_align n 0 e') as [mz ez]. cbn [fst snd] in *. exists mz, ez. rw H1. split_and!; [f_equal; f_equal; lia| |done].
  rw H2 /e'. change (Z.pos (digits2_pos n)) with (Zdigits2 (Z.pos n)). rw digits_log2 // /fexp /emin. pose proof (Z.log2_nonneg (Z.pos n)). lia.
Qed.

Lemma of_Z_finite n : 0 ≤ n < two64 → finite_nonneg (of_Z n).
Proof.
  intros Hn. destruct n as [|n|n]; [done| |lia]. destruct (of_pos_round n) as (m & e & Hm & He & ->).
  have Hl : Z.log2 (Z.pos n) < 64 by apply Z.log2_lt_pow2; [done|]; rw /two64 in Hn; lia. pose proof (Z.log2_nonneg (Z.pos n)) as Hl0.
  have Hlm : Z.log2 (Z.pos m) = Z.log2 (Z.pos n) - e by rw Hm Z.log2_mul_pow2; lia.
  destruct (round_aux_cases false (Z.pos m) e loc_Exact) as (m1 & Hm1 & _ & H); [lia|]. cbv zeta in H. destruct H as [_ ->].
  case_match; [done|]. have Hs : 0 ≤ shift_of (Z.pos m) e ≤ 11 by rw /shift_of digits_log2 // /fexp /emin; lia.
  rw (proj2 (Z.leb_le _ 971)); [|done].
  have Hm2 : m1 ≤ Z.pos m + 1.
  { etransitivity; [apply Hm1|]. apply Z.add_le_mono_r. apply Z.div_le_upper_bound; [apply Z.pow_pos_nonneg; lia|].
    have : 0 < 2 ^ shift_of (Z.pos m) e by apply Z.pow_pos_nonneg; lia. nia. }
  have Hl1 : Z.log2 m1 ≤ Z.log2 (Z.pos m) + 1.
  { rw Z.add_1_r in Hm2. apply Z.log2_le_mono in Hm2. pose proof (Z.log2_succ_le (Z.pos m)). lia. }
  rw {2}/shift_of. destruct (decide (0 < m1)) as [Hp|Hp].
  - rw digits_log2 // /fexp /emin. lia.
  - have Hz : m1 = 0. { have : 0 ≤ Z.pos m / 2 ^ shift_of (Z.pos m) e by apply Z.div_pos; [done|]; apply Z.pow_pos_nonneg; lia. lia. }
    subst m1. cbn [Zdigits2]. rw /fexp /emin. lia.
Qed.

Lemma of_Z_exact n : 0 ≤ n < 2 ^ 53 → exact (of_Z n) n.
Proof.
  intros Hn. destruct n as [|n|n]; [done| |lia]. destruct (of_pos_round n) as (m & e & Hm & He & ->).
  have Hl : Z.log2 (Z.pos n) < 53 by apply Z.log2_lt_pow2; lia. pose proof (Z.log2_nonneg (Z.pos n)) as Hl0.
  have Hlm : Z.log2 (Z.pos m) = 52 by rw Hm Z.log2_mul_pow2; lia.
  have Hs : shift_of (Z.pos m) e = 0 by rw /shift_of digits_log2 // /fexp /emin; lia.
  destruct (round_aux_cases false (Z.pos m) e loc_Exact) as (m1 & _ & Hm1 & H); [lia|]. cbv zeta in H. destruct H as [_ ->].
  rw (Hm1 eq_refl Hs) !Hs Z.add_0_r Hs Z.div_1_r /=. rw (proj2 (Z.leb_le _ 971)); [lia|]. cbn [exact signed].
  rw Hm Z.add_0_r. replace (Z.max e 0) with 0 by lia. replace (Z.max (- e) 0) with (- e) by lia. lia.
Qed.

(** ** Comparisons *)

Lemma exact_scaled x n e : exact x n → is_nan x = false → e ≤ (mantissa x).2 →
  (mantissa x).1 * 2 ^ ((mantissa x).2 - e) * 2 ^ Z.max e 0 = n * 2 ^ Z.max (- e) 0.
Proof.
  destruct x as [s|s| |s m e1]; cbn [exact mantissa fst snd]; intros Hx _ He; [by subst|done|done|].
  have Hp : 0 < 2 ^ Z.max (- e1) 0 by apply Z.pow_pos_nonneg; lia. apply (Z.mul_reg_r _ _ (2 ^ Z.max (- e1) 0)); [lia|].
  transitivity (signed s m * 2 ^ Z.max e1 0 * 2 ^ Z.max (- e) 0).
  - rw -!Z.mul_assoc. f_equal. rw -!Z.pow_add_r; try lia. f_equal. lia.
  - rw Hx. ring.
Qed.

Lemma compare_exact x y n k : exact x n → exact y k →
  compare_scaled (mantissa x).1 (mantissa x).2 (mantissa y).1 (mantissa y).2 = (n ?= k).
Proof.
  intros Hx Hy. rw /compare_scaled. set (e := Z.min _ _).
  have Hx' := exact_scaled x n e Hx ltac:(by destruct x) ltac:(lia). have Hy' := exact_scaled y k e Hy ltac:(by destruct y) ltac:(lia).
  have Hp : 0 < 2 ^ Z.max e 0 by apply Z.pow_pos_nonneg; lia. have Hq : 0 < 2 ^ Z.max (- e) 0 by apply Z.pow_pos_nonneg; lia.
  rw (Zmult_compare_compat_r _ _ (2 ^ Z.max e 0)); [lia|]. rw Hx' Hy'. symmetry. apply Zmult_compare_compat_r. lia.
Qed.

Lemma fltb_exact x y n k : exact x n → exact y k → fltb x y = (n <? k).
Proof.
  intros Hx Hy. rw /Z.ltb -(compare_exact x y n k Hx Hy). by destruct x, y.
Qed.

Lemma fltb_ge x y n a : exact x n → 0 ≤ a → n < 2 ^ a → ge_pow y a → fltb x y = true.
Proof.
  intros Hx Ha Hn Hy. destruct y as [|[]| |[] my ey]; try done; [by destruct x|].
  have H : compare_scaled (mantissa x).1 (mantissa x).2 (Z.pos my) ey = Lt; last by destruct x; cbn [fltb mantissa fst snd signed] in *; rw ?H.
  rw /compare_scaled. set (e := Z.min _ _). have Hx' := exact_scaled x n e Hx ltac:(by destruct x) ltac:(lia). cbn [ge_pow] in Hy.
  have Hp : 0 < 2 ^ Z.max e 0 by apply Z.pow_pos_nonneg; lia. have Hq : 0 < 2 ^ Z.max (- e) 0 by apply Z.pow_pos_nonneg; lia.
  apply Z.compare_lt_iff. apply (Z.mul_lt_mono_pos_r (2 ^ Z.max e 0)); [done|]. rw Hx'.
  apply (Z.lt_le_trans _ (2 ^ a * 2 ^ Z.max (- e) 0)); [by apply Z.mul_lt_mono_pos_r|].
  destruct (Z.log2_spec (Z.pos my)) as [Hl _]; [done|]. pose proof (Z.log2_nonneg (Z.pos my)) as H0.
  apply (Z.le_trans _ (2 ^ Z.log2 (Z.pos my) * 2 ^ (ey - e) * 2 ^ Z.max e 0)).
  - rw -!Z.pow_add_r; try lia. apply Z.pow_le_mono_r; lia.
  - apply Z.mul_le_mono_nonneg_r; [lia|]. apply Z.mul_le_mono_nonneg_r; [apply Z.pow_nonneg; lia|done].
Qed.

Lemma Min_exact x y n k : exact x n → exact y k → exact (Min x y) (Z.min n k).
Proof.
  intros Hx Hy. pose proof (fltb_exact x y n k Hx Hy) as Hl.
  destruct x as [s1|s1| |s1 m1 e1], y as [s2|s2| |s2 m2 e2]; try done; cbn [Min]; rw ?Hl.
  { cbn in Hx, Hy. subst. by case_match. }
  all: destruct (Z.ltb_spec n k); [replace (Z.min n k) with n by lia|replace (Z.min n k) with k by lia]; done.
Qed.

Lemma Max_exact x y n k : exact x n → exact y k → exact (Max x y) (Z.max n k).
Proof.
  intros Hx Hy. pose proof (fltb_exact y x k n Hy Hx) as Hl.
  destruct x as [s1|s1| |s1 m1 e1], y as [s2|s2| |s2 m2 e2]; try done; cbn [Max]; rw ?Hl.
  { cbn in Hx, Hy. subst. by case_match. }
  all: destruct (Z.ltb_spec k n); [replace (Z.max n k) with n by lia|replace (Z.max n k) with k by lia]; done.
Qed.

Lemma Min_ge x y n a : exact x n → 0 ≤ a → 0 < n < 2 ^ a → ge_pow y a → Min x y = x.
Proof.
  intros Hx Ha Hn Hy. pose proof (fltb_ge x y n a Hx Ha (proj2 Hn) Hy) as Hl.
  destruct x as [s1|s1| |s1 m1 e1], y as [s2|[]| |[] m2 e2]; try done; cbn [Min]; rw ?Hl //; cbn in Hx; lia.
Qed.

Lemma to_uint64_exact machine x n : exact x n → 0 ≤ n < two64 → to_uint64 machine x = n.
Proof.
  intros Hx Hn. rw /to_uint64. have -> : trunc x = Some n; [|by rw bool_decide_eq_true_2].
  destruct x as [s|s| |s m e]; cbn [exact] in Hx; [by subst|done|done|]. cbn [trunc]. f_equal.
  destruct (Z.leb_spec 0 e).
  - replace (Z.max e 0) with e in Hx by lia. replace (Z.max (- e) 0) with 0 in Hx by lia. lia.
  - replace (Z.max e 0) with 0 in Hx by lia. replace (Z.max (- e) 0) with (- e) in Hx by lia.
    replace (signed s m) with (n * 2 ^ (- e)) by lia. apply Z.quot_mul. have : 0 < 2 ^ (- e) by apply Z.pow_pos_nonneg; lia. lia.
Qed.

(** The ceiling of a number of 1 or more is an integer of 1 or more, exact unless it is large. *)
Lemma Ceil_ge x : ge_pow x 0 → (∃ n, 1 ≤ n ∧ exact (Ceil x) n) ∨ ge_pow (Ceil x) 24.
Proof.
  intros Hx. destruct x as [s|[]| |[] m e]; try done; [by right|]. cbn [Ceil ge_pow] in *.
  destruct (Z.leb_spec 0 e).
  - left. exists (Z.pos m * 2 ^ e). have : 0 < 2 ^ e by apply Z.pow_pos_nonneg. split; [nia|]. cbn [exact signed].
    replace (Z.max e 0) with e by lia. replace (Z.max (- e) 0) with 0 by lia. lia.
  - cbn [signed]. have Hp : 0 < 2 ^ (- e) by apply Z.pow_pos_nonneg; lia.
    have Hn : 1 ≤ - (- Z.pos m / 2 ^ (- e)).
    { have : - Z.pos m / 2 ^ (- e) < 0 by apply Z.div_lt_upper_bound; lia. lia. }
    destruct (decide (- (- Z.pos m / 2 ^ (- e)) < 2 ^ 53)).
    + left. eexists. split; [exact Hn|]. apply of_Z_exact. lia.
    + right. apply of_Z_ge; [done|]. etransitivity; [|apply Z.nlt_ge; eassumption]. by apply Z.pow_le_mono_r.
Qed.
