(* ===== verification/Ethash.v ===== *)
(** * Ethash masks (pora/ethash/algorithm.go, pora/ethash.go)

    The memory-hard functions behind the [ENCODE_ETHASH] masks: the cache, the
    dataset items computed from it, the hashimoto loops over a lookup function,
    and the mask of a chunk.  Words are [uint32]s kept in [[0, 2^32)]. *)

From S2P Require Import Prelude Extern EthashSizes.

Definition epochLength : Z := 30000.
Definition mixBytes : Z := 128.
Definition hashBytes : Z := 64.
Definition hashWords : Z := 16.
Definition datasetParents : Z := 256.
Definition cacheRounds : Z := 3.
Definition loopAccesses : Z := 64.

Definition GetMixBytes : Z := mixBytes.

(** [binary.LittleEndian.Uint32(b[4*i:])] and [PutUint32].  The buffers of this
    file are hash outputs and mixes of constant size, so the reads are in
    range. *)
Definition le32 (b : bytes) (i : nat) : Z :=
  little_endian_to_Z 8 (take 4 (drop (4 * i) b)).
Definition put32 (w : Z) : bytes := Z_to_little_endian 4 8 w.
Definition words_of (b : bytes) : list Z := le32 b <$> seq 0 (length b / 4).
Definition bytes_of (ws : list Z) : bytes := ws ≫= put32.

(** Iterates [keccak256] over the seed, once per epoch. *)
Definition seedHash `{Geth} (block : Z) : bytes :=
  if block <? epochLength then zeros 32
  else Nat.iter (Z.to_nat (block / epochLength)) Keccak256Hash (zeros 32).

Definition fnv (a b : Z) : Z := Z.lxor (wrap32 (a * 0x01000193)) b.

Definition fnvHash (mix data : list Z) : gores (list Z) :=
  if zlen data <? zlen mix then Panic OutOfRange
  else Ret (zip_with fnv mix data).

(** [l[lo:]] *)
Definition tail_from {A} (l : list A) (lo : Z) : gores (list A) :=
  if (0 <=? lo) && (lo <=? zlen l) then Ret (drop (Z.to_nat lo) l) else Panic OutOfRange.

(** ** The verification cache *)

(** The rows of the cache, one 64-byte hash each: first a hash chain from the
    seed, then [cacheRounds] passes of RandMemoHash. *)
Fixpoint hash_chain `{Geth} (n : nat) (prev : bytes) : list bytes :=
  match n with
  | O => []
  | S n => let h := Keccak512 prev in h :: hash_chain n h
  end.

Definition memohash_row `{Geth} (rows : Z) (cache : list bytes) (j : Z) : gores (list bytes) :=
  src ← index cache ((j - 1 + rows) mod rows);
  dst ← index cache j;
  x ← umod (le32 dst 0) (wrap32 rows);
  other ← index cache (wrap32 (x * hashBytes) / hashBytes);
  mret (<[Z.to_nat j := Keccak512 (xor_bytes src other)]> cache).

Definition generateCache `{Geth} (size : Z) (seed : bytes) : gores (list Z) :=
  let rows := size / hashBytes in
  let init := hash_chain (Z.to_nat rows) seed in
  cache ← foldM (λ c _, foldM (memohash_row rows) c (seqZ 0 rows)) init (seqZ 0 cacheRounds);
  mret (cache ≫= words_of).

(** ** Dataset items *)

Definition generateDatasetItem `{Geth} (cache : list Z) (idx : Z) : gores bytes :=
  let rows := wrap32 (zlen cache / hashWords) in
  r ← umod idx rows;
  let base := wrap32 (r * hashWords) in
  w0 ← index cache base;
  ws ← foldM (λ acc i, w ← index cache (wrap32 (base + i)); mret (acc ++ [w]))
         [Z.lxor w0 idx] (seqZ 1 15);
  let intMix := words_of (Keccak512 (bytes_of ws)) in
  intMix ← foldM (λ m i,
      w ← index m (i mod 16);
      parent ← umod (fnv (Z.lxor idx i) w) rows;
      data ← tail_from cache (wrap32 (parent * hashWords));
      fnvHash m data) intMix (seqZ 0 datasetParents);
  mret (Keccak512 (bytes_of intMix)).

(** One goroutine of [generateDataset] fills the items [first, limit) of its
    segment; the goroutines write disjoint parts of the dataset, so the order
    in which they run does not matter and they are taken one after another. *)
Definition segment (size threads id : Z) : Z * Z :=
  let batch := (size + hashBytes * threads - 1) / (hashBytes * threads) in
  let first := id * batch in
  (first, Z.min (first + batch) (size / hashBytes)).

Definition generate_segment `{Geth} (cache : list Z) (dest : list bytes) (seg : Z * Z)
    : gores (list bytes) :=
  foldM (λ d i, item ← generateDatasetItem cache (wrap32 i);
                mret (<[Z.to_nat i := item]> d))
    dest (seqZ seg.1 (seg.2 - seg.1)).

(** [dest] is the dataset as rows of 64 bytes; [threads] is the CPU count. *)
Definition generateDataset `{Geth} (threads : Z) (cache : list Z) (dest : list bytes)
    : gores (list bytes) :=
  foldM (λ d id, generate_segment cache d (segment (zlen dest * hashBytes) threads id))
    dest (seqZ 0 threads).

(** ** Hashimoto *)

Definition seed_mix (seed : bytes) : list Z :=
  (λ i : nat, le32 seed (i mod 16)) <$> seq 0 (Z.to_nat (mixBytes / 4)).

(** The main loop, shared by [hashimoto] and [HashimotoForMask]. *)
Definition mix_loop (rows seedHead : Z) (lookup : Z → gores (list Z)) (mix : list Z)
    : gores (list Z) :=
  '(mix, _) ← foldM (λ '(mix, temp) i,
      w ← index mix (i mod zlen mix);
      parent ← umod (fnv (Z.lxor i seedHead) w) rows;
      d0 ← lookup (wrap32 (2 * parent + 0));
      let temp := go_copy temp d0 in
      d1 ← lookup (wrap32 (2 * parent + 1));
      let temp := take 16 temp ++ go_copy (drop 16 temp) d1 in
      mix ← fnvHash mix temp;
      mret (mix, temp))
    (mix, zeros (zlen mix)) (seqZ 0 loopAccesses);
  mret mix.

Definition compress_mix (mix : list Z) : list Z :=
  (λ i : nat, fnv (fnv (fnv (mix !!! (4 * i)%nat) (mix !!! (4 * i + 1)%nat))
                  (mix !!! (4 * i + 2)%nat)) (mix !!! (4 * i + 3)%nat))
    <$> seq 0 (length mix / 4).

Definition hashimoto `{Geth} (hash : bytes) (nonce size : Z) (lookup : Z → gores (list Z))
    : gores (bytes * bytes) :=
  let rows := wrap32 (size / mixBytes) in
  let seed := go_copy (zeros 40) hash in
  let seed := take 32 seed ++ Z_to_little_endian 8 8 nonce in
  let seed := Keccak512 seed in
  mix ← mix_loop rows (le32 seed 0) lookup (seed_mix seed);
  let digest := bytes_of (compress_mix mix) in
  mret (digest, Keccak256Hash (seed ++ digest)).

Definition HashimotoForMask `{Geth} (seed : bytes) (size : Z) (lookup : Z → gores (list Z))
    : gores bytes :=
  let rows := wrap32 (size / mixBytes) in
  let seed := Keccak512 seed in
  mix ← mix_loop rows (le32 seed 0) lookup (seed_mix seed);
  mret (bytes_of mix).

Definition light_lookup `{Geth} (cache : list Z) (idx : Z) : gores (list Z) :=
  rawData ← generateDatasetItem cache idx;
  mret (words_of rawData).

Definition HashimotoForMaskLight `{Geth} (size : Z) (cache : list Z) (hash : bytes)
    : gores bytes :=
  HashimotoForMask hash size (light_lookup cache).

Definition hashimotoLight `{Geth} (size : Z) (cache : list Z) (hash : bytes) (nonce : Z)
    : gores (bytes * bytes) :=
  hashimoto hash nonce size (light_lookup cache).

Definition full_lookup (dataset : list Z) (idx : Z) : gores (list Z) :=
  let offset := wrap32 (idx * hashWords) in
  slice dataset offset (wrap32 (offset + hashWords)).

Definition hashimotoFull `{Geth} (dataset : list Z) (hash : bytes) (nonce : Z)
    : gores (bytes * bytes) :=
  hashimoto hash nonce (zlen dataset * 4) (full_lookup dataset).

(** ** Masks of chunks (pora/ethash.go) *)

(** The cache of an epoch, as [Generate] fills it with an empty directory. *)
Definition Generate `{Geth} (epoch : Z) : gores (list Z) :=
  size ← cacheSize (add64 (mul64 epoch epochLength) 1);
  generateCache size (seedHash (add64 (mul64 epoch epochLength) 1)).

(** One mask block: [copy(maskBuffer[i*mixBytes:], mask)]. *)
Definition put_mask `{Geth} (size : Z) (cache : list Z) (hash : bytes) (buf : bytes) (i : Z)
    : gores bytes :=
  mask ← HashimotoForMaskLight size cache hash;
  if negb (zlen mask =? GetMixBytes) then Panic (Explicit "#mask != MixBytes")
  else
    rest ← tail_from buf (i * GetMixBytes);
    mret (take (Z.to_nat (i * GetMixBytes)) buf ++ go_copy rest mask).

(** The mask blocks of a chunk, with [realHash = encodeKey ++ uint64(i)]. *)
Definition GetMaskData `{Geth} (epoch : Z) (encodeKey : bytes) (chunkSize : Z)
    (maskBuffer : bytes) : gores bytes :=
  maskBuffer ← (if zlen maskBuffer =? chunkSize then Ret maskBuffer else make_bytes chunkSize);
  cache ← Generate epoch;
  size ← DatasetSizeForEpoch epoch;
  foldM (λ buf i, put_mask size cache (encodeKey ++ be_encode 8 i) buf i)
    maskBuffer (seqZ 0 (Z.quot (chunkSize + GetMixBytes - 1) GetMixBytes)).

(** [copyHash] is moot here: the hash part of the buffer is the hash. *)
Definition ToRealHash (hash : bytes) (maxKvSize idxWithinChunk : Z) : bytes :=
  hash ++ be_encode 8 (add64 maxKvSize (shl64 (add64 idxWithinChunk 1) 30)).

Definition CHUNK_SIZE : Z := 4096.

Definition GetMaskDataWithInChunk `{Geth} (epoch : Z) (chunkHash : bytes) (maxKvSize : Z)
    (sizeInChunk : Z) (maskBuffer : bytes) : gores bytes :=
  if CHUNK_SIZE <? sizeInChunk then Panic (Explicit "sizeInChunk > CHUNK_SIZE")
  else
    maskBuffer ← (if zlen maskBuffer =? sizeInChunk then Ret maskBuffer
                  else make_bytes sizeInChunk);
    cache ← Generate epoch;
    size ← DatasetSizeForEpoch epoch;
    buf ← foldM (λ buf i, put_mask size cache (ToRealHash chunkHash maxKvSize i) buf i)
      maskBuffer (seqZ 0 (Z.quot sizeInChunk GetMixBytes));
    let i := Z.quot sizeInChunk GetMixBytes in
    if 0 <? Z.rem sizeInChunk GetMixBytes
    then put_mask size cache (ToRealHash chunkHash maxKvSize i) buf i
    else mret buf.

(** ** The masks are defined *)

Definition cache_ok (cache : list Z) : Prop :=
  ∃ r, zlen cache = 16 * r ∧ 0 < r < 268435456.

Lemma wrap32_small x : 0 ≤ x < two32 → wrap32 x = x.
Proof. apply Z.mod_small. Qed.

Lemma length_put32 w : length (put32 w) = 4%nat.
Proof. pose proof (length_Z_to_little_endian 4 8 w ltac:(lia)). rw /put32. lia. Qed.

Lemma length_bytes_of ws : length (bytes_of ws) = (4 * length ws)%nat.
Proof.
  rw /bytes_of. induction ws as [|w ws IH]; [done|].
  rw bind_cons length_app length_put32 IH /=. lia.
Qed.

Lemma length_words_of b : length (words_of b) = (length b / 4)%nat.
Proof. by rw /words_of length_fmap length_seq. Qed.

Lemma umod_in a b : 0 < b → ∃ m, umod a b = Ret m ∧ 0 ≤ m < b.
Proof. intros. rw umod_nz; [lia|]. eexists. split; [done|]. by apply Z.mod_pos_bound. Qed.

Lemma fnvHash_ok n mix data :
  length mix = n → (n ≤ length data)%nat →
  ∃ m, fnvHash mix data = Ret m ∧ length m = n.
Proof.
  intros Hm Hd. rw /fnvHash (proj2 (Z.ltb_ge _ _)); [rw /zlen; lia|].
  eexists. split; [done|]. rw length_zip_with. lia.
Qed.

Lemma tail_from_ok {A} (l : list A) lo :
  0 ≤ lo ≤ zlen l → tail_from l lo = Ret (drop (Z.to_nat lo) l).
Proof. intros. rw /tail_from. by rw !(proj2 (Z.leb_le _ _)); [lia..|]. Qed.

Section total.
Context `{GethLaws}.

Lemma generateDatasetItem_total cache idx :
  cache_ok cache → ∃ b, generateDatasetItem cache idx = Ret b ∧ length b = 64%nat.
Proof.
  intros (r & Hr & Hr0). rw /generateDatasetItem /hashWords Hr Z.mul_comm Z.div_mul; [lia|].
  rw (wrap32_small r); [rw /two32; lia|].
  destruct (umod_in idx r) as (m & -> & Hm); [lia|]. simpl.
  rw (wrap32_small (m * 16)); [rw /two32; lia|].
  destruct (index_in cache (m * 16)) as [w0 ->]; [lia|]. simpl.
  run_loop (λ acc : list Z, True); [|done|].
  { intros acc i _ Hi%elem_of_seqZ. simpl. rw wrap32_small; [rw /two32; lia|].
    destruct (index_in cache (m * 16 + i)) as [w ->]; [lia|]. by eexists. }
  simpl. run_loop (λ m : list Z, length m = 16%nat).
  3: { simpl. eexists. split; [done|apply Keccak512_length]. }
  2: { by rw length_words_of Keccak512_length. }
  intros mx i Hmx Hi. simpl. destruct (index_in mx (i mod 16)) as [w ->].
  { rw /zlen Hmx. by apply Z.mod_pos_bound. }
  simpl. destruct (umod_in (fnv (Z.lxor idx i) w) r) as (p & -> & Hp); [lia|]. simpl.
  rw wrap32_small; [rw /two32; lia|]. rw tail_from_ok; [lia|]. simpl.
  apply fnvHash_ok; [done|]. rw length_drop. rw /zlen in Hr. lia.
Qed.

Lemma mix_loop_total rows seedHead lookup mix :
  0 < rows → (∀ i, ∃ d, lookup i = Ret d ∧ length d = 16%nat) → length mix = 32%nat →
  ∃ m, mix_loop rows seedHead lookup mix = Ret m ∧ length m = 32%nat.
Proof.
  intros Hrows Hlk Hmix. rw /mix_loop.
  run_loop (λ x : list Z * list Z, length x.1 = 32%nat ∧ length x.2 = 32%nat).
  - intros [mx tmp] i [Hm Ht] _. simpl in *. destruct (index_in mx (i mod zlen mx)) as [w ->].
    { rw /zlen Hm. by apply Z.mod_pos_bound. }
    simpl. destruct (umod_in (fnv (Z.lxor i seedHead) w) rows) as (p & -> & Hp); [lia|]. simpl.
    destruct (Hlk (wrap32 (2 * p + 0))) as (d0 & -> & H0). simpl.
    destruct (Hlk (wrap32 (2 * p + 1))) as (d1 & -> & H1). simpl.
    destruct (fnvHash_ok 32 mx (take 16 (go_copy tmp d0) ++ go_copy (drop 16 (go_copy tmp d0)) d1))
      as (m' & -> & Hm'); [done| |].
    { rw length_app length_take !length_go_copy length_drop length_go_copy. lia. }
    eexists. split; [done|]. simpl. split; [done|].
    rw length_app length_take !length_go_copy length_drop length_go_copy. lia.
  - simpl. by rw /zeros length_replicate /zlen Hmix.
  - destruct r as [m t]. exists m. by split; [|apply HP].
Qed.

Lemma light_lookup_total cache i :
  cache_ok cache → ∃ d, light_lookup cache i = Ret d ∧ length d = 16%nat.
Proof.
  intros Hc. destruct (generateDatasetItem_total cache i Hc) as (b & Hb & Hl).
  exists (words_of b). by rw /light_lookup Hb length_words_of Hl.
Qed.

Lemma HashimotoForMaskLight_total size cache hash :
  cache_ok cache → 0 < wrap32 (size / mixBytes) →
  ∃ m, HashimotoForMaskLight size cache hash = Ret m ∧ zlen m = mixBytes.
Proof.
  intros Hc Hs. rw /HashimotoForMaskLight /HashimotoForMask.
  destruct (mix_loop_total (wrap32 (size / mixBytes)) (le32 (Keccak512 hash) 0)
              (light_lookup cache) (seed_mix (Keccak512 hash))) as (m & -> & Hm); [done| |done|].
  { intros. by apply light_lookup_total. }
  eexists. split; [done|]. by rw /zlen length_bytes_of Hm.
Qed.

(** A row of the cache. *)
Definition is_row (r : bytes) : Prop := length r = 64%nat ∧ is_bytes r.

Definition is_word (w : Z) : Prop := 0 ≤ w < two32.

Lemma is_row_hash b : is_row (Keccak512 b).
Proof. split; [apply Keccak512_length|apply Keccak512_bytes]. Qed.

Lemma hash_chain_rows n b : length (hash_chain n b) = n ∧ Forall is_row (hash_chain n b).
Proof.
  revert b. induction n as [|n IH]; intros b; simpl; [done|].
  destruct (IH (Keccak512 b)) as [-> ?]. split; [done|]. constructor; [apply is_row_hash|done].
Qed.

Lemma le32_word b i : is_bytes b → is_word (le32 b i).
Proof.
  intros Hb. rw /is_word /le32. have Hb' : is_bytes (take 4 (drop (4 * i) b)) by apply Forall_take, Forall_drop.
  pose proof (little_endian_to_Z_bound 8 (take 4 (drop (4 * i) b)) ltac:(lia) Hb') as Hlt.
  have Hl : Z.of_nat (length (take 4 (drop (4 * i) b))) ≤ 4 by rw length_take; lia.
  pose proof (Z.pow_le_mono_r 2 (Z.of_nat (length (take 4 (drop (4 * i) b))) * 8) 32 ltac:(lia) ltac:(lia)). rw /two32. lia.
Qed.

Lemma rows_words l : Forall is_row l → length (l ≫= words_of) = (16 * length l)%nat ∧ Forall is_word (l ≫= words_of).
Proof.
  induction 1 as [|row l [Hrow Hb] HP2 [IH1 IH2]]; [done|]. rw bind_cons length_app length_words_of Hrow IH1. split.
  - cbn. lia.
  - apply Forall_app. split; [|done]. apply Forall_fmap, Forall_forall. intros i _. by apply le32_word.
Qed.

Lemma generateCache_rows r seed :
  0 < r < 67108864 → ∃ c, generateCache (64 * r) seed = Ret c ∧ zlen c = 16 * r ∧ Forall is_word c.
Proof.
  intros Hr. rw /generateCache /hashBytes Z.mul_comm Z.div_mul; [lia|].
  set (P := λ c : list bytes, length c = Z.to_nat r ∧ Forall is_row c).
  run_loop P; [|apply hash_chain_rows|].
  - intros c i Hc _. apply foldM_total; [|done]. clear c Hc i. intros c j [Hc1 Hc2] Hj%elem_of_seqZ.
    rw /memohash_row. destruct (index_in c ((j - 1 + r) mod r)) as [src ->].
    { rw /zlen Hc1 Z2Nat.id; [lia|]. apply Z.mod_pos_bound. lia. }
    simpl. destruct (index_in c j) as [dst ->]; [rw /zlen; lia|]. simpl.
    rw wrap32_small; [rw /two32; lia|].
    destruct (umod_in (le32 dst 0) r) as (x & -> & Hx); [lia|]. simpl.
    rw /hashBytes wrap32_small ?Z.div_mul; [rw /two32; lia|lia|].
    destruct (index_in c x) as [o ->]; [rw /zlen; lia|]. simpl.
    eexists. split; [done|]. split; [by rw length_insert|].
    apply Forall_insert; [done|apply is_row_hash].
  - simpl. eexists. split; [done|]. destruct HP as [HP1 HP2]. destruct (rows_words _ HP2) as [E ?]. split; [|done].
    rw /zlen E HP1. lia.
Qed.

Lemma generateCache_ok r seed :
  0 < r < 67108864 → ∃ c, generateCache (64 * r) seed = Ret c ∧ cache_ok c.
Proof.
  intros Hr. destruct (generateCache_rows r seed Hr) as (c & Hc & Hl & _). exists c. split; [done|]. exists r. split; [done|lia].
Qed.
End total.

(** ** The mask of a chunk as a prefix of one stream of blocks *)

Section masks.
Context `{GethLaws} (epoch : Z) (key : bytes).

Definition mask_block (i : Z) : bytes :=
  from_ret [] (cache ← Generate epoch; size ← DatasetSizeForEpoch epoch;
               HashimotoForMaskLight size cache (key ++ be_encode 8 i)).
Definition mask_stream (n : nat) : bytes := seqZ 0 (Z.of_nat n) ≫= mask_block.

Context (Hepoch : 0 ≤ epoch < maxEpoch).

Lemma epoch_rows : ∃ r, cacheSize (add64 (mul64 epoch epochLength) 1) = Ret (64 * r) ∧ 0 < r < 67108864.
Proof using Hepoch.
  pose proof Hepoch as He. rw /maxEpoch in He.
  have Hblk : add64 (mul64 epoch epochLength) 1 / 30000 = epoch.
  { rw /epochLength. unwrap. rw Z.div_add_l; [lia|]. by rw Z.add_0_r. }
  rw /cacheSize Hblk /maxEpoch (proj2 (Z.ltb_lt _ _)); [lia|].
  destruct (index_in cacheSizes epoch) as [cs Hcs]; [by vm_compute (zlen cacheSizes)|]. rw Hcs.
  rw /index (proj2 (Z.leb_le _ _)) in Hcs; [lia|]. destruct (cacheSizes !! _) eqn:E1 => //. simplify_eq.
  apply cacheSizes_rows in E1 as (r & -> & Hr). by exists r.
Qed.

Lemma epoch_tables :
  ∃ cache size, Generate epoch = Ret cache ∧ cache_ok cache ∧
    DatasetSizeForEpoch epoch = Ret size ∧ 0 < wrap32 (size / mixBytes).
Proof using Hepoch H.
  pose proof Hepoch as He. rw /maxEpoch in He. destruct epoch_rows as (r & Hcs & Hr).
  rw /Generate Hcs /DatasetSizeForEpoch /maxEpoch (proj2 (Z.ltb_lt _ _)); [lia|].
  destruct (index_in datasetSizes epoch) as [sz Hsz]; [by vm_compute (zlen datasetSizes)|].
  rw Hsz /=. rw /index (proj2 (Z.leb_le _ _)) in Hsz; [lia|].
  destruct (datasetSizes !! _) eqn:E2 => //. simplify_eq. apply datasetSizes_rows in E2 as (q & -> & Hq).
  destruct (generateCache_ok r (seedHash (add64 (mul64 epoch epochLength) 1)) Hr) as (c & Hc & Hok).
  exists c, (128 * q). split_and!; [done..|].
  rw /mixBytes Z.mul_comm Z.div_mul; [lia|]. rw wrap32_small; [rw /two32|]; lia.
Qed.

Lemma put_mask_block cache size buf i :
  Generate epoch = Ret cache → cache_ok cache → DatasetSizeForEpoch epoch = Ret size →
  0 < wrap32 (size / mixBytes) → 0 ≤ i * 128 ≤ zlen buf →
  length (mask_block i) = 128%nat ∧
  put_mask size cache (key ++ be_encode 8 i) buf i =
    Ret (take (Z.to_nat (i * 128)) buf ++ go_copy (drop (Z.to_nat (i * 128)) buf) (mask_block i)).
Proof using H.
  intros Hg Hc Hd Hs Hi. rw /put_mask /mask_block Hg Hd /=.
  destruct (HashimotoForMaskLight_total size cache (key ++ be_encode 8 i) Hc Hs)
    as (m & -> & Hm). simpl. split; [rw /zlen in Hm; rw /mixBytes in Hm; lia|].
  rw Hm Z.eqb_refl /= tail_from_ok //.
Qed.

Lemma mask_stream_S n : mask_stream (S n) = mask_stream n ++ mask_block (Z.of_nat n).
Proof using.
  rw /mask_stream seqZ_S bind_app Z.add_0_l bind_cons /= app_nil_r //.
Qed.

Lemma length_mask_block i : length (mask_block i) = 128%nat.
Proof using H Hepoch.
  destruct epoch_tables as (cache & size & Hg & Hc & Hd & Hs).
  rw /mask_block Hg Hd /=.
  destruct (HashimotoForMaskLight_total size cache (key ++ be_encode 8 i) Hc Hs)
    as (m & -> & Hm). rw /zlen /mixBytes in Hm. simpl. lia.
Qed.

Lemma length_mask_stream n : length (mask_stream n) = (128 * n)%nat.
Proof using H Hepoch.
  induction n as [|n IH]; [done|]. rw mask_stream_S length_app IH length_mask_block. lia.
Qed.

Lemma put_masks cache size buf n :
  Generate epoch = Ret cache → cache_ok cache → DatasetSizeForEpoch epoch = Ret size →
  0 < wrap32 (size / mixBytes) → 128 * (Z.of_nat n - 1) ≤ zlen buf →
  foldM (λ buf i, put_mask size cache (key ++ be_encode 8 i) buf i) buf (seqZ 0 (Z.of_nat n)) =
    Ret (take (length buf) (mask_stream n ++ drop (128 * n) buf)).
Proof using H Hepoch.
  intros Hg Hc Hd Hs. induction n as [|n IH]; intros Hn.
  { by rw /mask_stream /= drop_0 take_ge. }
  rw seqZ_S foldM_app IH; [lia|]. rw {1}/mbind /gores_bind foldM_one Z.add_0_l.
  have Hl : length (take (length buf) (mask_stream n ++ drop (128 * n) buf)) = length buf.
  { rw length_take length_app length_mask_stream length_drop. lia. }
  destruct (put_mask_block cache size (take (length buf) (mask_stream n ++ drop (128 * n) buf))
              (Z.of_nat n) Hg Hc Hd Hs) as [_ ->]; [rw /zlen Hl; rw /zlen in Hn; lia|].
  rw mask_stream_S. f_equal. rw /zlen in Hn.
  have -> : Z.to_nat (Z.of_nat n * 128) = (128 * n)%nat by lia.
  rw (take_ge (mask_stream n ++ _)).
  { rw length_app length_mask_stream length_drop. lia. }
  rw take_app_length' ?length_mask_stream // drop_app_length' ?length_mask_stream //.
  rw -app_assoc take_app_ge ?length_mask_stream; [lia|]. f_equal.
  rw /go_copy length_drop length_mask_block drop_drop take_app.
  f_equal. rw length_mask_block take_ge; [rw length_drop; lia|]. f_equal. lia.
Qed.

Lemma mask_stream_take m k (tl : bytes) k' :
  (m ≤ 128 * k)%nat → (m ≤ 128 * k')%nat → take m (mask_stream k ++ tl) = take m (mask_stream k').
Proof using H Hepoch.
  have Hpre a b : (a ≤ b)%nat → ∃ t, mask_stream b = mask_stream a ++ t.
  { induction 1 as [|b _ [t Ht]]; [exists []; by rw app_nil_r|].
    exists (t ++ mask_block (Z.of_nat b)). by rw mask_stream_S Ht app_assoc. }
  intros H1 H2. rw take_app_le; [by rw length_mask_stream|].
  destruct (decide (k ≤ k')%nat) as [Hk|Hk].
  - destruct (Hpre k k' Hk) as [t ->]. rw take_app_le //. by rw length_mask_stream.
  - destruct (Hpre k' k) as [t ->]; [lia|]. rw take_app_le //. by rw length_mask_stream.
Qed.
End masks.

Lemma GetMaskData_stream `{GethLaws} epoch key n :
  0 ≤ epoch < maxEpoch → 0 ≤ n →
  GetMaskData epoch key n [] = Ret (take (Z.to_nat n) (mask_stream epoch key (Z.to_nat n))) ∧
  zlen (take (Z.to_nat n) (mask_stream epoch key (Z.to_nat n))) = n ∧
  ∀ m, 0 ≤ m ≤ n →
    GetMaskData epoch key m [] =
      Ret (take (Z.to_nat m) (take (Z.to_nat n) (mask_stream epoch key (Z.to_nat n)))).
Proof.
  intros He Hn.
  have HM m : 0 ≤ m → GetMaskData epoch key m [] =
                Ret (take (Z.to_nat m) (mask_stream epoch key (Z.to_nat m))).
  { intros Hm. destruct (epoch_tables epoch He) as (cache & size & Hg & Hc & Hd & Hs).
    rw /GetMaskData Hg Hd /=.
    have -> : (if zlen (@nil Z) =? m then Ret [] else make_bytes m) = Ret (zeros m).
    { rw /make_bytes (proj2 (Z.ltb_ge _ _)); [lia|]. by case: Z.eqb_spec => // <-. }
    simpl. set (k := Z.quot (m + GetMixBytes - 1) GetMixBytes).
    have Hk : 0 ≤ k ∧ 128 * (k - 1) ≤ m ≤ 128 * k ∧ k ≤ m.
    { rw /k /GetMixBytes /mixBytes Z.quot_div_nonneg; [lia..|].
      pose proof (Z.div_mod (m + 128 - 1) 128 ltac:(lia)).
      pose proof (Z.mod_pos_bound (m + 128 - 1) 128 ltac:(lia)). lia. }
    rw -(Z2Nat.id k); [lia|]. rw (put_masks epoch key He) //; [rw zlen_zeros; lia|].
    f_equal. rw {1}/zeros length_replicate. apply mask_stream_take; [done|lia..]. }
  rw HM //. split_and!; [done| |].
  - rw /zlen length_take (length_mask_stream epoch key He). lia.
  - intros m Hm. rw HM; [lia|]. f_equal. rw take_take Nat.min_l; [lia|].
    rw -(app_nil_r (mask_stream epoch key (Z.to_nat m))). apply mask_stream_take; [done|lia..].
Qed.

(** For the epochs of the size tables [GetMaskData] returns, and the mask
    of any length is a prefix of one stream of 128-byte blocks that depends on
    the key alone, so a shorter chunk gets a prefix of the mask of a longer
    one. *)
Theorem GetMaskData_prefix `{GethLaws} epoch key n :
  0 ≤ epoch < maxEpoch → 0 ≤ n →
  GetMaskData epoch key n [] = Ret (take (Z.to_nat n) (mask_stream epoch key (Z.to_nat n))) ∧
  zlen (take (Z.to_nat n) (mask_stream epoch key (Z.to_nat n))) = n ∧
  ∀ m, 0 ≤ m ≤ n →
    GetMaskData epoch key m [] =
      Ret (take (Z.to_nat m) (take (Z.to_nat n) (mask_stream epoch key (Z.to_nat n)))).
Proof. apply GetMaskData_stream. Qed.

Lemma GetMaskData_prefix_witness :
  ∃ m, GetMaskData 0 (zeros 32) 7 [] = Ret m ∧ zlen m = 7.
Proof.
  destruct (GetMaskData_prefix 0 (zeros 32) 7) as (H1 & H2 & _); [by vm_compute|lia|].
  eexists. split; [exact H1|exact H2].
Defined.

(** ** Light and full hashimoto *)

Lemma length_bind_rows {A B} (l : list A) (f : A → list B) n :
  Forall (λ a, length (f a) = n) l → length (l ≫= f) = (n * length l)%nat.
Proof.
  induction 1 as [|a l' Ha _ IH]; [simpl; lia|]. rw bind_cons length_app Ha IH /=. lia.
Qed.

(** Row [i] of a concatenation of rows of equal length. *)
Lemma bind_row {A B} (l : list A) (f : A → list B) n i x :
  Forall (λ a, length (f a) = n) l → l !! i = Some x →
  take n (drop (n * i) (l ≫= f)) = f x.
Proof.
  intros Hl Hi. rw -(take_drop_middle l i x Hi) bind_app bind_cons.
  have E : length (take i l ≫= f) = (n * i)%nat.
  { rw (length_bind_rows _ _ n); [by apply Forall_take|].
    apply lookup_lt_Some in Hi. rw length_take. lia. }
  rw drop_app_length' // take_app_length' //. by rw (Forall_lookup_1 _ _ _ _ Hl Hi).
Qed.

Section dataset.
Context `{GethLaws} (cache : list Z) (Hcache : cache_ok cache).

Definition item (i : Z) : bytes := from_ret [] (generateDatasetItem cache (wrap32 i)).
Definition filled (dest : list bytes) (k : Z) : list bytes :=
  (item <$> seqZ 0 k) ++ drop (Z.to_nat k) dest.

Lemma item_ret i : generateDatasetItem cache (wrap32 i) = Ret (item i) ∧ length (item i) = 64%nat.
Proof using H Hcache.
  destruct (generateDatasetItem_total cache (wrap32 i) Hcache) as (b & Hb & Hl).
  by rw /item Hb.
Qed.

Lemma filled_step dest i :
  0 ≤ i < zlen dest → <[Z.to_nat i := item i]> (filled dest i) = filled dest (i + 1).
Proof using.
  intros Hi. rw /zlen in Hi. rw /filled.
  have Hl : length (item <$> seqZ 0 i) = Z.to_nat i by rw length_fmap length_seqZ; lia.
  rw insert_app_r_alt; [lia|]. rw Hl Nat.sub_diag.
  destruct (lookup_lt_is_Some_2 dest (Z.to_nat i)) as [x Hx]; [lia|].
  rw (drop_S _ _ _ Hx) /=. have -> : i + 1 = Z.of_nat (S (Z.to_nat i)) by lia.
  rw seqZ_S fmap_app /= -app_assoc /= Z2Nat.id; [lia|]. do 4 f_equal. lia.
Qed.

Lemma generate_segment_filled dest a b :
  0 ≤ a → (a ≤ b → b ≤ zlen dest) → (b < a → zlen dest ≤ a) →
  generate_segment cache (filled dest (Z.min a (zlen dest))) (a, b) =
    Ret (filled dest (Z.min (Z.max a b) (zlen dest))).
Proof using H Hcache.
  intros Ha Hb Hab. pose proof (zlen_nonneg dest). rw /generate_segment /=.
  destruct (decide (a ≤ b)) as [Hle|Hle]; last first.
  { rw seqZ_nil; [lia|]. rw /foldM. do 2 f_equal. lia. }
  have -> : b - a = Z.of_nat (Z.to_nat (b - a)) by lia.
  rw (Z.min_l a); [lia|]. rw foldM_count.
  { intros i Hi. destruct (item_ret i) as [-> _]. simpl. by rw filled_step; [lia|]. }
  do 2 f_equal. lia.
Qed.

Lemma generateDataset_filled threads dest :
  0 < threads → generateDataset threads cache dest = Ret (filled dest (zlen dest)).
Proof using H Hcache.
  intros Ht. pose proof (zlen_nonneg dest) as Hn. rw /generateDataset /segment /hashBytes.
  set (batch := (zlen dest * 64 + 64 * threads - 1) / (64 * threads)).
  have Hb : 0 ≤ batch ∧ zlen dest ≤ threads * batch.
  { pose proof (Z.div_mod (zlen dest * 64 + 64 * threads - 1) (64 * threads) ltac:(lia)) as Hd.
    pose proof (Z.mod_pos_bound (zlen dest * 64 + 64 * threads - 1) (64 * threads) ltac:(lia)).
    fold batch in Hd. nia. }
  rw Z.div_mul; [lia|]. set (P := λ id, filled dest (Z.min (id * batch) (zlen dest))).
  have HP0 : P 0 = dest.
  { rw /P Z.mul_0_l Z.min_l // /filled seqZ_nil //. }
  rw -[X in foldM _ X _]HP0 -[X in seqZ _ X](Z2Nat.id threads); [lia|]. rw foldM_count.
  { intros id Hid. rw /P generate_segment_filled; [nia|lia|lia|]. do 2 f_equal. lia. }
  rw /P. do 2 f_equal. rw Z.add_0_l Z2Nat.id; lia.
Qed.

Lemma filled_all dest : filled dest (zlen dest) = item <$> seqZ 0 (zlen dest).
Proof using. rw /filled drop_ge ?app_nil_r //. rw /zlen. lia. Qed.

Lemma filled_rows dest :
  Forall (λ r, length (words_of r) = 16%nat) (filled dest (zlen dest)).
Proof using H Hcache.
  rw filled_all. apply Forall_fmap, Forall_true. intros x. simpl.
  by rw length_words_of (proj2 (item_ret x)).
Qed.

Lemma filled_words dest : zlen (filled dest (zlen dest) ≫= words_of) = zlen dest * 16.
Proof using H Hcache.
  rw /zlen (length_bind_rows _ _ 16); [apply filled_rows|].
  rw filled_all length_fmap length_seqZ /zlen. lia.
Qed.

Lemma full_lookup_item dest i :
  0 ≤ i < zlen dest → zlen dest * 16 < two32 →
  full_lookup (filled dest (zlen dest) ≫= words_of) i = light_lookup cache i.
Proof using H Hcache.
  intros Hi H32. pose proof (filled_words dest) as Hw.
  rw /full_lookup /hashWords !wrap32_small; [lia..|].
  have Hl : filled dest (zlen dest) !! Z.to_nat i = Some (item i).
  { rw filled_all list_lookup_fmap lookup_seqZ_lt /=; [lia|]. do 2 f_equal. lia. }
  pose proof (bind_row _ words_of 16 (Z.to_nat i) (item i) (filled_rows dest) Hl) as Hrow.
  rw slice_ok; [lia..|].
  rw /light_lookup -[X in generateDatasetItem _ X](wrap32_small i); [lia|]. rw (proj1 (item_ret i)) /=. f_equal.
  rw -Hrow. f_equal; [lia|]. f_equal. lia.
Qed.
End dataset.

Lemma mix_loop_ext rows seedHead lookup lookup' mix :
  (∀ i, 0 ≤ i < 2 * rows → lookup i = lookup' i) → 0 < rows → 2 * rows < two32 →
  mix_loop rows seedHead lookup mix = mix_loop rows seedHead lookup' mix.
Proof.
  intros Hl Hr Hr32. rw /mix_loop. f_equal. apply foldM_ext. intros [mx t] i _.
  destruct (index mx _); simpl; [|done..].
  destruct (umod_in (fnv (Z.lxor i seedHead) a) rows Hr) as (p & -> & Hp). simpl.
  by rw !wrap32_small ?Hl; [lia..|].
Qed.

(** The mining dataset and the verification cache give the same hashes: for
    any number of generator threads, [hashimotoFull] over the dataset that
    [generateDataset] produces is [hashimotoLight] over the cache. *)
Theorem hashimotoFull_Light `{GethLaws} cache threads (dest : list bytes) hash nonce n :
  cache_ok cache → 0 < threads → zlen dest = 2 * n → 0 < n → zlen dest * 16 < two32 →
  ∃ dataset, generateDataset threads cache dest = Ret dataset ∧
    hashimotoFull (dataset ≫= words_of) hash nonce =
    hashimotoLight (zlen dest * hashBytes) cache hash nonce.
Proof.
  intros Hc Ht Hn Hn0 H32. rw generateDataset_filled //. eexists. split; [done|].
  rw /hashimotoFull /hashimotoLight /hashimoto filled_words // /hashBytes.
  have -> : zlen dest * 16 * 4 = zlen dest * 64 by lia.
  have -> : zlen dest * 64 / mixBytes = n by rw Hn /mixBytes (_ : 2 * n * 64 = n * 128) ?Z.div_mul; lia.
  rw /two32 in H32. rw (wrap32_small n); [rw /two32; lia|].
  erewrite mix_loop_ext; [done| |lia|rw /two32; lia].
  intros i Hi. apply full_lookup_item; [done|lia|rw /two32; lia].
Qed.

(** Four rows of cache, four rows of dataset, three threads. *)
Definition ex_cache : list Z := seqZ 1 64.

Lemma hashimotoFull_Light_witness :
  ∃ dataset, generateDataset 3 ex_cache (replicate 4 []) = Ret dataset ∧
    hashimotoFull (dataset ≫= words_of) (zeros 32) 42 =
    hashimotoLight 256 ex_cache (zeros 32) 42.
Proof.
  apply (hashimotoFull_Light ex_cache 3 (replicate 4 []) (zeros 32) 42 2); [|by vm_compute..].
  exists 4. split; [by vm_compute|lia].
Defined.
