(* ===== verification/EthashCache.v ===== *)
(** * The caches of ethash (pora/ethash/ethash.go and [Cache] of pora/ethash.go)

    The verification caches are kept in a small LRU table with one item made in advance, and are filled at most
    once each, in memory or from a memory-mapped file.  Calls of [Cache] run concurrently: the accesses to the table
    and the fillings are the steps of a relation.  The table of [hashicorp/golang-lru] is a parameter. *)

From stdpp Require Import pretty.
From S2P Require Import Prelude Extern EthashSizes Ethash.

(** ** Caches *)

(** [c_Cache] is the content; [c_mapped] tells whether [mmap] and [dump] are set; [c_done] is the state of [once]. *)
Record Cache := mkCache { c_epoch : Z; c_mapped : bool; c_Cache : list Z; c_done : bool }.

(** Objects are named by the order of their allocation. *)
Definition heap := list Cache.

Definition NewCache (epoch : Z) (h : heap) : nat * heap := (length h, h ++ [mkCache epoch false [] false]).

(** ** The LRU table *)

(** [simplelru.LRU] for values of the type [interface{}] that hold pointers, [None] for a nil interface. *)
Class SimpleLRU := {
  simplelru : Type;
  simplelru_New : Z → option simplelru;
  simplelru_Get : Z → simplelru → option (option nat) * simplelru;
  simplelru_Add : Z → option nat → simplelru → simplelru;
  simplelru_Peek : Z → simplelru → option (option nat);
  simplelru_Len : simplelru → Z;
  simplelru_size : simplelru → Z }.

Class SimpleLRULaws (L : SimpleLRU) : Prop := {
  (** "NewLRU constructs an LRU of the given size": an error unless the size is positive *)
  New_some n : 0 < n → ∃ l, simplelru_New n = Some l ∧ simplelru_size l = n ∧ simplelru_Len l = 0 ∧ ∀ k, simplelru_Peek k l = None;
  (** "Get looks up a key's value from the cache", "Peek returns the key value without updating the recent-ness" *)
  Get_Peek k l : (simplelru_Get k l).1 = simplelru_Peek k l;
  Get_keeps k k' l : simplelru_Peek k' (simplelru_Get k l).2 = simplelru_Peek k' l;
  Get_size k l : simplelru_size (simplelru_Get k l).2 = simplelru_size l ∧ simplelru_Len (simplelru_Get k l).2 = simplelru_Len l;
  (** "Add adds a value to the cache", evicting the oldest entry when it is full *)
  Add_Peek k v l : 0 < simplelru_size l → simplelru_Peek k (simplelru_Add k v l) = Some v;
  Add_other k k' v l : k' ≠ k → simplelru_Peek k' (simplelru_Add k v l) = None ∨ simplelru_Peek k' (simplelru_Add k v l) = simplelru_Peek k' l;
  Add_size k v l : simplelru_size (simplelru_Add k v l) = simplelru_size l ∧ (simplelru_Len l ≤ simplelru_size l → simplelru_Len (simplelru_Add k v l) ≤ simplelru_size l) }.

Section lru.
Context `{SL : SimpleLRU}.

(** [lru_cache] is [None] for a nil table. *)
Record LRU := mkLRU { lru_cache : option simplelru; lru_future : Z; lru_futureItem : option nat }.

(** [new] and [what] are arguments of the methods. *)
Definition NewLRU (maxItems : Z) : LRU :=
  let maxItems := if maxItems <=? 0 then 1 else maxItems in
  mkLRU (simplelru_New maxItems) 0 None.

Definition Get (new : Z → heap → nat * heap) (epoch : Z) : ST (heap * LRU) (option nat * option nat) := λ '(h, lru),
  match lru_cache lru with
  | None => (Panic NilPointer, (h, lru))
  | Some cache =>
      let '(found, cache) := simplelru_Get epoch cache in
      let '(item, cache, h) :=
        match found with
        | Some item => (item, cache, h)
        | None =>
            let '(item, h) :=
              if (0 <? lru_future lru) && (lru_future lru =? epoch) then (lru_futureItem lru, h)
              else let '(p, h) := new epoch h in (Some p, h) in
            (item, simplelru_Add epoch item cache, h)
        end in
      if (epoch <? maxEpoch - 1) && (lru_future lru <? add64 epoch 1)
      then let '(p, h) := new (add64 epoch 1) h in (Ret (item, Some p), (h, mkLRU (Some cache) (add64 epoch 1) (Some p)))
      else (Ret (item, None), (h, mkLRU (Some cache) (lru_future lru) (lru_futureItem lru)))
  end.

End lru.

(** ** Memory-mapped files

    Files by path, on a little-endian machine.  [mmap_env] has the errors of the calls of the operating system:
    opening, mapping (of a file with the given content) and locking for [memoryMap], and those of the creation
    of a file with the name that [rand.Int] gives it. *)

Definition disk := gmap string bytes.

Record mmap_env := mkMmapEnv {
  e_open : option error; e_map : bytes → option error; e_lock : option error;
  e_mkdir : option error; e_create : option error; e_size : option error; e_map_write : option error;
  e_unmap : option error; e_close : option error; e_rename : option error; e_rand : Z }.

Definition ErrInvalidDumpMagic : error := ErrMsg "invalid dump magic".

Definition algorithmRevision : Z := 23.

Definition dumpMagic : list Z := [0xbaddcafe; 0xfee1dead].

Definition isLittleEndian : bool := bool_decide (head (put32 0x01020304) = Some 4).

(** [if err != nil { return err }] for a call with that result. *)
Definition try_err (e : option error) : gores unit := match e with Some e => Fail e | None => mret tt end.

Definition memoryMapFile (mapErr : option error) (data : bytes) : gores (list Z) :=
  _ ← try_err mapErr;
  mret (words_of data).

Definition check_magic (buffer : list Z) : gores unit :=
  foldM (λ _ '(i, magic), w ← index buffer i; if w =? magic then mret tt else Fail ErrInvalidDumpMagic)
    tt (imap (λ i m, (Z.of_nat i, m)) dumpMagic).

Definition memoryMap (env : mmap_env) (path : string) (lock : bool) (d : disk) : gores (list Z) :=
  match d !! path with
  | None => Fail (ErrMsg "no such file or directory")
  | Some data =>
      _ ← try_err (e_open env);
      buffer ← memoryMapFile (e_map env data) data;
      _ ← check_magic buffer;
      _ ← (if lock then try_err (e_lock env) else mret tt);
      tail_from buffer (zlen dumpMagic)
  end.

Definition put_path (path : string) (data : bytes) : ST disk unit := λ d, (Ret tt, <[path := data]> d).
Definition remove_path (path : string) : ST disk unit := λ d, (Ret tt, delete path d).

(** On an error the deferred clean-up of the source runs: [os.Remove(temp)]. *)
Definition or_remove (e : option error) (temp : string) : ST disk unit :=
  match e with
  | Some e => _ ← remove_path temp; st_lift (Fail e)
  | None => mret tt
  end.

(** [generator] fills a buffer of the given number of bytes. *)
Definition memoryMapAndGenerate (env : mmap_env) (path : string) (size : Z) (lock : bool) (generator : Z → gores (list Z))
    : ST disk (list Z) :=
  _ ← st_lift (try_err (e_mkdir env));
  let temp := (path +:+ "." +:+ pretty (e_rand env))%string in
  _ ← st_lift (try_err (e_create env));
  _ ← put_path temp [];
  _ ← or_remove (e_size env) temp;
  let n := zlen dumpMagic * 4 + size in
  _ ← put_path temp (zeros n);
  _ ← or_remove (e_map_write env) temp;
  data ← st_lift (generator (4 * (n / 4 - zlen dumpMagic)));
  let written := bytes_of (dumpMagic ++ data) in
  _ ← put_path temp (written ++ drop (length written) (zeros n));
  _ ← st_lift (try_err (e_unmap env));
  _ ← st_lift (try_err (e_close env));
  _ ← st_lift (try_err (e_rename env));
  _ ← remove_path temp;
  _ ← put_path path (written ++ drop (length written) (zeros n));
  d ← st_get;
  st_lift (memoryMap env path lock d).

(** ** Filling a cache *)

Definition hex_digit (n : Z) : string := String.substring (Z.to_nat n) 1 "0123456789abcdef".
Definition hex_bytes (b : bytes) : string := foldr (λ x s, (hex_digit (x / 16) +:+ hex_digit (x mod 16) +:+ s)%string) ""%string b.

(** [filepath.Join(dir, fmt.Sprintf(kind+"-R%d-%x%s", algorithmRevision, seed[:8], endian))] for a clean [dir]. *)
Definition dump_path (dir kind : string) (seed : bytes) : string :=
  (dir +:+ "/" +:+ kind +:+ "-R" +:+ pretty algorithmRevision +:+ "-" +:+ hex_bytes (take 8 seed) +:+
   (if isLittleEndian then "" else ".be"))%string.

Section generate.
Context `{GE : Geth}.

(** The block whose number the sizes and the seed of an epoch are taken at. *)
Definition epoch_block (epoch : Z) : Z := add64 (mul64 epoch epochLength) 1.

(** [for ep := int(epoch) - limit; ep >= 0; ep-- { os.Remove(...) }] *)
Definition remove_old (dir kind : string) (epoch limit : Z) (d : disk) : disk :=
  foldl (λ d ep, delete (dump_path dir kind (seedHash (epoch_block ep))) d) d
    (reverse (seqZ 0 (int64 (int64 epoch - limit) + 1))).

Definition Cache_Generate (env : mmap_env) (dir : string) (limit : Z) (lock test : bool) (c : Cache) : ST disk Cache :=
  if c_done c then mret c
  else
    size ← st_lift (cacheSize (epoch_block (c_epoch c)));
    let seed := seedHash (epoch_block (c_epoch c)) in
    let size := if test then 1024 else size in
    if bool_decide (dir = "") then
      cache ← st_lift (generateCache (size / 4 * 4) seed);
      mret (mkCache (c_epoch c) false cache true)
    else
      let path := dump_path dir "cache" seed in
      d ← st_get;
      loaded ← st_lift (catch (memoryMap env path lock d));
      match loaded with
      | inr cache => mret (mkCache (c_epoch c) true cache true)
      | inl _ =>
          made ← st_catch (memoryMapAndGenerate env path size lock (λ n, generateCache n seed));
          c' ← (match made with
                | inr cache => mret (mkCache (c_epoch c) true cache true)
                | inl _ =>
                    cache ← st_lift (generateCache (size / 4 * 4) seed);
                    mret (mkCache (c_epoch c) false cache true)
                end);
          d ← st_get;
          _ ← st_put (remove_old dir "cache" (c_epoch c) limit d);
          mret c'
      end.

Definition Cache_finalizer (c : Cache) : Cache := if c_mapped c then mkCache (c_epoch c) false (c_Cache c) (c_done c) else c.

(** [math.MaxInt32] *)
Definition MaxInt32 : Z := 2147483647.

Definition MakeCache (env : mmap_env) (block : Z) (dir : string) : ST disk Cache :=
  Cache_Generate env dir MaxInt32 false false (mkCache (block / epochLength) false [] false).

(** *** Datasets *)

Record dataset := mkDataset { d_epoch : Z; d_mapped : bool; d_dataset : list Z; d_once : bool; d_done : bool }.

Definition newDataset (epoch : Z) : dataset := mkDataset epoch false [] false false.

(** [make([]uint32, n)] filled by [generateDataset], as the rows that fit. *)
Definition dataset_words (threads : Z) (cache : list Z) (n : Z) : gores (list Z) :=
  rows ← generateDataset threads cache (replicate (Z.to_nat (n / hashBytes)) (zeros hashBytes));
  mret (rows ≫= words_of).

Definition dataset_generate (env : mmap_env) (threads : Z) (dir : string) (limit : Z) (lock test : bool) (d : dataset) : ST disk dataset :=
  if d_once d then mret d
  else
    csize ← st_lift (cacheSize (epoch_block (d_epoch d)));
    dsize ← st_lift (DatasetSize (epoch_block (d_epoch d)));
    let seed := seedHash (epoch_block (d_epoch d)) in
    let csize := if test then 1024 else csize in
    let dsize := if test then 32 * 1024 else dsize in
    let done mapped words := mkDataset (d_epoch d) mapped words true true in
    if bool_decide (dir = "") then
      cache ← st_lift (generateCache (csize / 4 * 4) seed);
      words ← st_lift (dataset_words threads cache (dsize / 4 * 4));
      mret (done false words)
    else
      let path := dump_path dir "full" seed in
      fs ← st_get;
      loaded ← st_lift (catch (memoryMap env path lock fs));
      match loaded with
      | inr words => mret (done true words)
      | inl _ =>
          cache ← st_lift (generateCache (csize / 4 * 4) seed);
          made ← st_catch (memoryMapAndGenerate env path dsize lock (dataset_words threads cache));
          d' ← (match made with
                | inr words => mret (done true words)
                | inl _ => words ← st_lift (dataset_words threads cache (dsize / 4 * 4)); mret (done false words)
                end);
          fs ← st_get;
          _ ← st_put (remove_old dir "full" (d_epoch d) limit fs);
          mret d'
      end.

Definition generated (d : dataset) : bool := d_done d.

Definition dataset_finalizer (d : dataset) : dataset :=
  if d_mapped d then mkDataset (d_epoch d) false (d_dataset d) (d_once d) (d_done d) else d.

Definition MakeDataset (env : mmap_env) (threads block : Z) (dir : string) : ST disk dataset :=
  dataset_generate env threads dir MaxInt32 false false (newDataset (block / epochLength)).

End generate.

(** The content of a cache depends on its size in rows only. *)
Lemma generateCache_words `{Geth} size seed : generateCache (size / 4 * 4) seed = generateCache size seed.
Proof.
  rw /generateCache /hashBytes. have -> : size / 4 * 4 / 64 = size / 64; [|done].
  Z.div_mod_to_equations. lia.
Qed.

(** Without a directory the content is that of [Ethash.Generate], which the masks are computed from. *)
Lemma Cache_Generate_memory `{Geth} env limit lock epoch cache d : Ethash.Generate epoch = Ret cache →
  Cache_Generate env "" limit lock false (mkCache epoch false [] false) d = (Ret (mkCache epoch false cache true), d).
Proof.
  rw /Ethash.Generate -/(epoch_block epoch) /Cache_Generate. cbn [c_done c_epoch]. rw {1 2}/mbind /st_bind /st_lift.
  destruct (cacheSize (epoch_block epoch)) as [size| |]; [|done..]. cbn [mbind gores_bind].
  intros Hc. rw bool_decide_true // /mbind generateCache_words Hc. done.
Qed.

(** ** The caches of the masks ([Cache] of pora/ethash.go)

    A call of [Cache] takes the item of its epoch from the table, under the lock of the table, then fills it, which waits
    for another call that fills it, and starts a goroutine for the item made in advance.  Between these steps other
    calls may run. *)

Inductive call :=
| Called (epoch : Z)
| Current (epoch : Z) (item future : option nat)
| Future (p : nat)
| Returned (epoch : Z) (p : nat)
| Finished.

Section shared.
Context `{GE : Geth} `{SL : SimpleLRU} (env : mmap_env).

Record world := mkWorld { w_heap : heap; w_lru : LRU; w_calls : list call }.

Definition caches : LRU := NewLRU 2.

Definition world_0 : world := mkWorld [] caches [].

(** [p.Generate("", 0, false, false)] *)
Definition generate_at (p : nat) (h : heap) : gores heap :=
  match h !! p with
  | None => Panic NilPointer
  | Some c => c' ← (Cache_Generate env "" 0 false false c ∅).1; mret (<[p := c']> h)
  end.

(** The next step of the call [i], [None] when it has none. *)
Definition advance (i : nat) (w : world) : option (gores world) :=
  match w_calls w !! i with
  | Some (Called epoch) =>
      Some (match Get NewCache epoch (w_heap w, w_lru w) with
            | (Ret (item, future), (h, lru)) => Ret (mkWorld h lru (<[i := Current epoch item future]> (w_calls w)))
            | (Fail e, _) => Fail e
            | (Panic p, _) => Panic p
            end)
  | Some (Current epoch None _) => Some (Panic (Explicit "interface conversion"))
  | Some (Current epoch (Some p) future) =>
      Some (h ← generate_at p (w_heap w);
            let started := match future with Some q => [Future q] | None => [] end in
            mret (mkWorld h (w_lru w) (<[i := Returned epoch p]> (w_calls w) ++ started)))
  | Some (Future p) => Some (h ← generate_at p (w_heap w); mret (mkWorld h (w_lru w) (<[i := Finished]> (w_calls w))))
  | _ => None
  end.

Inductive cache_step : world → world → Prop :=
| step_advance i w w' : advance i w = Some (Ret w') → cache_step w w'
| step_call epoch w : 0 ≤ epoch < maxEpoch → cache_step w (mkWorld (w_heap w) (w_lru w) (w_calls w ++ [Called epoch])).

Definition reachable : world → Prop := rtc cache_step world_0.

(** *** The invariant *)

Definition object_ok (c : Cache) : Prop := c_done c = true → Ethash.Generate (c_epoch c) = Ret (c_Cache c).

Definition holds (h : heap) (epoch : Z) (p : nat) : Prop := ∃ c, h !! p = Some c ∧ c_epoch c = epoch.

Definition lru_ok (h : heap) (lru : LRU) : Prop :=
  ∃ l, lru_cache lru = Some l ∧ 0 < simplelru_size l ∧
    (∀ k v, simplelru_Peek k l = Some v → ∃ p, v = Some p ∧ holds h k p) ∧
    (0 < lru_future lru → ∃ p, lru_futureItem lru = Some p ∧ holds h (lru_future lru) p) ∧ 0 ≤ lru_future lru < maxEpoch.

Definition call_ok (h : heap) (c : call) : Prop :=
  match c with
  | Called epoch => 0 ≤ epoch < maxEpoch
  | Current epoch item future => 0 ≤ epoch < maxEpoch ∧ (∃ p, item = Some p ∧ holds h epoch p) ∧
      (∀ q, future = Some q → ∃ e, 0 ≤ e < maxEpoch ∧ holds h e q)
  | Future q => ∃ e, 0 ≤ e < maxEpoch ∧ holds h e q
  | Returned epoch p => ∃ c, h !! p = Some c ∧ c_epoch c = epoch ∧ c_done c = true
  | Finished => True
  end.

Definition world_ok (w : world) : Prop :=
  Forall object_ok (w_heap w) ∧ lru_ok (w_heap w) (w_lru w) ∧ Forall (call_ok (w_heap w)) (w_calls w).

(** Objects are never moved, and a filled one never changes. *)
Definition heap_le (h h' : heap) : Prop :=
  ∀ p c, h !! p = Some c → ∃ c', h' !! p = Some c' ∧ c_epoch c' = c_epoch c ∧ (c_done c = true → c' = c).

#[local] Instance heap_le_preorder : PreOrder heap_le.
Proof.
  split; [intros h p c Hp; by exists c|]. intros h1 h2 h3 H1 H2 p c Hp.
  destruct (H1 p c Hp) as (c' & Hp' & He & Hd). destruct (H2 p c' Hp') as (c'' & Hp'' & He' & Hd').
  exists c''. split_and!; [done|congruence|]. intros Hc. specialize (Hd Hc). subst c'. by apply Hd'.
Qed.

Lemma heap_le_app h k : heap_le h (h ++ k).
Proof. intros p c Hp. exists c. by rw (lookup_app_l_Some _ _ _ _ Hp). Qed.

Lemma holds_mono h h' e p : heap_le h h' → holds h e p → holds h' e p.
Proof. intros Hle (c & Hp & <-). destruct (Hle p c Hp) as (c' & Hp' & He & _). by exists c'. Qed.

Lemma call_ok_mono h h' c : heap_le h h' → call_ok h c → call_ok h' c.
Proof.
  intros Hle. destruct c as [e|e item fut|q|e p|]; simpl; [done|..|done].
  - intros (He & (p & -> & Hp) & Hf). split_and!; [lia..| |].
    + exists p. split; [done|]. eauto using holds_mono.
    + intros q Hq. destruct (Hf q Hq) as (e' & He' & Hh). exists e'. split; [done|]. eauto using holds_mono.
  - intros (e & He & Hh). exists e. split; [done|]. eauto using holds_mono.
  - intros (c & Hp & He & Hd). destruct (Hle p c Hp) as (c' & Hp' & He' & Hd'). rw Hd' // in Hp'. by exists c.
Qed.

Lemma lru_ok_mono h h' lru : heap_le h h' → lru_ok h lru → lru_ok h' lru.
Proof.
  intros Hle (l & Hl & Hs & Hk & Hf & Hb). exists l. split_and!; [done|done| | |lia..].
  - intros k v Hv. destruct (Hk k v Hv) as (p & -> & Hp). exists p. split; [done|]. eauto using holds_mono.
  - intros H0. destruct (Hf H0) as (p & -> & Hp). exists p. split; [done|]. eauto using holds_mono.
Qed.

Lemma holds_new h e : holds (NewCache e h).2 e (NewCache e h).1.
Proof. exists (mkCache e false [] false). split; [|done]. simpl. by rw lookup_app_r // Nat.sub_diag. Qed.

Lemma objects_new h e : Forall object_ok h → Forall object_ok (NewCache e h).2.
Proof. intros. apply Forall_app. split; [done|]. constructor; [by intros|constructor]. Qed.

Context `{!SimpleLRULaws SL}.

(** The table after an item of the heap is added for its epoch. *)
Lemma table_add h l k p :
  0 < simplelru_size l → (∀ k v, simplelru_Peek k l = Some v → ∃ p, v = Some p ∧ holds h k p) → holds h k p →
  ∀ k' v, simplelru_Peek k' (simplelru_Add k (Some p) l) = Some v → ∃ p, v = Some p ∧ holds h k' p.
Proof.
  intros Hs Hl Hp k' v. destruct (decide (k' = k)) as [->|Hk].
  - rw Add_Peek //. intros [= <-]. by exists p.
  - destruct (Add_other k k' (Some p) l Hk) as [->| ->]; [done|]. apply Hl.
Qed.

(** The part of [Get] that finds or makes the item. *)
Lemma Get_item (h : heap) lru l e : 0 ≤ e < maxEpoch → Forall object_ok h → lru_ok h lru → lru_cache lru = Some l →
  ∃ p l' h', heap_le h h' ∧ Forall object_ok h' ∧ holds h' e p ∧ lru_ok h' (mkLRU (Some l') (lru_future lru) (lru_futureItem lru)) ∧
    Get NewCache e (h, lru) =
      if (e <? maxEpoch - 1) && (lru_future lru <? add64 e 1)
      then let '(q, h'') := NewCache (add64 e 1) h' in (Ret (Some p, Some q), (h'', mkLRU (Some l') (add64 e 1) (Some q)))
      else (Ret (Some p, None), (h', mkLRU (Some l') (lru_future lru) (lru_futureItem lru))).
Proof.
  intros He Ho (l0 & Hl & Hs & Hk & Hf & Hb) Hl'. rw Hl in Hl'. injection Hl' as ->.
  pose proof (Get_Peek e l) as HG. pose proof (λ k', Get_keeps e k' l) as HK. pose proof (Get_size e l) as [HS _].
  rw /Get Hl. destruct (simplelru_Get e l) as [found l1] eqn:EG. simpl in HG, HK, HS.
  have Hk1 : ∀ k v, simplelru_Peek k l1 = Some v → ∃ p, v = Some p ∧ holds h k p by (intros k v; rw HK; apply Hk).
  have Hs1 : 0 < simplelru_size l1 by lia.
  destruct found as [item|].
  { destruct (Hk e item) as (p & -> & Hp); [done|]. exists p, l1, h. split_and!; [reflexivity|done..| |done].
    exists l1. split_and!; simpl; first [done|lia]. }
  destruct ((0 <? lru_future lru) && (lru_future lru =? e)) eqn:Ef.
  - bools. destruct Hf as (p & Hp & Hh); [lia|]. have E : lru_future lru = e by lia. rw E in Hh. rw Hp.
    exists p, (simplelru_Add e (Some p) l1), h. split_and!; [reflexivity|done..| |done].
    exists (simplelru_Add e (Some p) l1). split_and!; [done|by rw (proj1 (Add_size _ _ _))|by apply table_add| |simpl; lia..].
    intros _. exists p. by rw /= E.
  - pose proof (holds_new h e) as Hn. pose proof (heap_le_app h [mkCache e false [] false]) as Hle.
    exists (length h), (simplelru_Add e (Some (length h)) l1), (NewCache e h).2. split_and!; [done|by apply objects_new|done| |done].
    exists (simplelru_Add e (Some (length h)) l1). split_and!; [done|by rw (proj1 (Add_size _ _ _))| | |simpl; lia..].
    + apply table_add; [done| |done]. intros k v Hv. destruct (Hk1 k v Hv) as (q & -> & Hq). exists q. split; [done|]. eauto using holds_mono.
    + intros H0. destruct (Hf H0) as (q & Hq & Hh). exists q. split; [done|]. eauto using holds_mono.
Qed.

(** The item is that of the epoch, and so is the one made in advance. *)
Lemma Get_ok (h : heap) lru e : 0 ≤ e < maxEpoch → Forall object_ok h → lru_ok h lru →
  ∃ p fut h' lru', Get NewCache e (h, lru) = (Ret (Some p, fut), (h', lru')) ∧ heap_le h h' ∧ Forall object_ok h' ∧ lru_ok h' lru' ∧
    holds h' e p ∧ ∀ q, fut = Some q → ∃ e, 0 ≤ e < maxEpoch ∧ holds h' e q.
Proof.
  intros He Ho Hlru. pose proof Hlru as (l & Hl & _). destruct (Get_item h lru l e) as (p & l' & h' & Hle & Ho' & Hp & Hlru' & ->); [done..|].
  case_match eqn:Ef; last first.
  { exists p, None, h', (mkLRU (Some l') (lru_future lru) (lru_futureItem lru)). by split_and!. }
  bools. unfold maxEpoch in *. have E : add64 e 1 = e + 1 by unwrap. rw E.
  pose proof (holds_new h' (e + 1)) as Hn. pose proof (heap_le_app h' [mkCache (e + 1) false [] false]) as Hle'.
  exists p, (Some (length h')), (NewCache (e + 1) h').2, (mkLRU (Some l') (e + 1) (Some (length h'))).
  split_and!; [done|by transitivity h'|by apply objects_new| |eauto using holds_mono|].
  - destruct (lru_ok_mono _ _ _ Hle' Hlru') as (l2 & [= <-] & Hs & Hk & _). exists l'. split_and!; [done|done|done| | |].
    + intros _. by exists (length h').
    + simpl. lia.
    + rw /maxEpoch /=. lia.
  - intros q [= <-]. exists (e + 1). split; [rw /maxEpoch; lia|done].
Qed.

Context `{!GethLaws GE}.

(** Filling an object: it gets the content of its epoch, once. *)
Lemma generate_at_ok h e p : 0 ≤ e < maxEpoch → Forall object_ok h → holds h e p →
  ∃ h', generate_at p h = Ret h' ∧ heap_le h h' ∧ Forall object_ok h' ∧ ∃ c, h' !! p = Some c ∧ c_epoch c = e ∧ c_done c = true.
Proof.
  intros He Ho (c & Hp & Hc). rw /generate_at Hp. destruct (c_done c) eqn:Hd.
  - exists h. have -> : Cache_Generate env "" 0 false false c ∅ = (Ret c, ∅) by rw /Cache_Generate Hd.
    cbn. rw list_insert_id //. split_and!; [done|reflexivity|done|]. by exists c.
  - destruct (epoch_tables e He) as (cache & _ & Hg & _).
    have E : Cache_Generate env "" 0 false false c ∅ = (Ret (mkCache e false cache true), ∅).
    { pose proof (Cache_Generate_memory env 0 false e cache ∅ Hg) as H. rw -H /Cache_Generate Hd Hc. done. }
    rw E. cbn. exists (<[p := mkCache e false cache true]> h). split_and!; [done| | |].
    + intros q c' Hq. destruct (decide (q = p)) as [->|Hne]; [|exists c'; rw list_lookup_insert_ne; [congruence|done]].
      rw list_lookup_insert_eq; [eauto using lookup_lt_Some|]. eexists. split; [done|]. split; [cbn|]; congruence.
    + by apply Forall_insert.
    + eexists. rw list_lookup_insert_eq; [eauto using lookup_lt_Some|]. done.
Qed.

Definition pending (c : call) : Prop := match c with Returned _ _ | Finished => False | _ => True end.

(** The steps left for a call and for the goroutine it starts. *)
Definition weight_of (c : call) : nat :=
  match c with
  | Called _ => 3
  | Current _ _ (Some _) => 2
  | Current _ _ None | Future _ => 1
  | _ => 0
  end.

Definition weight (cs : list call) : nat := foldr (λ c n, weight_of c + n)%nat 0%nat cs.

Lemma weight_insert cs i c c' : cs !! i = Some c → (weight (<[i := c']> cs) + weight_of c = weight cs + weight_of c')%nat.
Proof.
  revert i. induction cs as [|x cs IH]; intros [|i] Hi; simpl in *; [done..|injection Hi as ->; lia|]. specialize (IH i Hi). lia.
Qed.

Lemma weight_app cs cs' : weight (cs ++ cs') = (weight cs + weight cs')%nat.
Proof. induction cs as [|x cs IH]; simpl; lia. Qed.

(** A call that is not finished has a step; the step cannot fail, keeps the invariant and leaves less to do. *)
Lemma advance_ok i w c : world_ok w → w_calls w !! i = Some c → pending c →
  ∃ w', advance i w = Some (Ret w') ∧ world_ok w' ∧ heap_le (w_heap w) (w_heap w') ∧ (weight (w_calls w') < weight (w_calls w))%nat.
Proof.
  intros (Ho & Hl & Hc) Hi Hp. pose proof (Forall_lookup_1 _ _ _ _ Hc Hi) as Hci. rw /advance Hi.
  destruct c as [e|e item fut|q|e p|]; simpl in Hci; [..|done|done].
  - destruct (Get_ok (w_heap w) (w_lru w) e Hci Ho Hl) as (p & fut & h' & lru' & -> & Hle & Ho' & Hl' & Hh & Hf).
    eexists. split; [done|]. cbn [w_heap w_calls w_lru]. split_and!; [|done|].
    + split_and!; [done..|]. cbn. apply Forall_insert; [|by split; [|split; [exists p|]]]. eapply Forall_impl; [exact Hc|]. intros x. by apply call_ok_mono.
    + pose proof (weight_insert (w_calls w) i (Called e) (Current e (Some p) fut) Hi). destruct fut; cbn [weight weight_of foldr] in *; lia.
  - destruct Hci as (He & (p & -> & Hh) & Hf). destruct (generate_at_ok (w_heap w) e p He Ho Hh) as (h' & -> & Hle & Ho' & Hret).
    eexists. split; [done|]. cbn [w_heap w_calls w_lru]. split_and!; [|done|].
    + split_and!; [done|by apply (lru_ok_mono (w_heap w))|]. cbn. apply Forall_app. split.
      * apply Forall_insert; [|done]. eapply Forall_impl; [exact Hc|]. intros x. by apply call_ok_mono.
      * destruct fut as [q|]; [|done]. apply Forall_singleton. destruct (Hf q) as (e' & He' & Hh'); [done|]. exists e'. eauto using holds_mono.
    + rw weight_app. pose proof (weight_insert (w_calls w) i (Current e (Some p) fut) (Returned e p) Hi). destruct fut; cbn [weight weight_of foldr] in *; lia.
  - destruct Hci as (e & He & Hh). destruct (generate_at_ok (w_heap w) e q He Ho Hh) as (h' & -> & Hle & Ho' & _).
    eexists. split; [done|]. cbn [w_heap w_calls w_lru]. split_and!; [|done|].
    + split_and!; [done|by apply (lru_ok_mono (w_heap w))|]. cbn. apply Forall_insert; [|done]. eapply Forall_impl; [exact Hc|]. intros x. by apply call_ok_mono.
    + pose proof (weight_insert (w_calls w) i (Future q) Finished Hi). cbn [weight weight_of foldr] in *; lia.
Qed.

Lemma advance_pending i w r : advance i w = Some r → ∃ c, w_calls w !! i = Some c ∧ pending c.
Proof. rw /advance. destruct (w_calls w !! i) as [[]|]; intros; simplify_eq; by eexists. Qed.

Lemma world_0_ok : world_ok world_0.
Proof.
  split_and!; [done| |done]. destruct (New_some 2) as (l & Hl & Hs & _ & Hp); [lia|]. exists l. split_and!; cbn; [done|lia| |done|done|done].
  intros k v. by rw Hp.
Qed.

Lemma cache_step_ok w w' : world_ok w → cache_step w w' → world_ok w' ∧ heap_le (w_heap w) (w_heap w').
Proof.
  intros Hw Hs. destruct Hs as [i w w' Ha|e w He].
  - destruct (advance_pending _ _ _ Ha) as (c & Hi & Hp). destruct (advance_ok i _ c Hw Hi Hp) as (w2 & Ha' & ? & ? & _).
    rw Ha in Ha'. by injection Ha' as ->.
  - destruct Hw as (Ho & Hl & Hc). split; [|reflexivity]. split_and!; [done..|]. apply Forall_app. split; [done|]. by apply Forall_singleton.
Qed.

Lemma cache_steps_ok w w' : world_ok w → rtc cache_step w w' → world_ok w' ∧ heap_le (w_heap w) (w_heap w').
Proof.
  intros Hw Hs. induction Hs as [|w w1 w2 Hs _ IH]; [split; [done|reflexivity]|]. destruct (cache_step_ok _ _ Hw Hs) as [Hw1 Hle].
  destruct (IH Hw1) as [? Hle']. split; [done|]. by transitivity (w_heap w1).
Qed.

(** C33: under every interleaving of calls of [Cache], evictions from the table and fillings in advance, a call for an epoch
    returns a cache filled with the content of that epoch, and the content never changes again. *)
Theorem Cache_transparent w w' i e p : reachable w → w_calls w !! i = Some (Returned e p) → rtc cache_step w w' →
  ∃ c, w_heap w' !! p = Some c ∧ c_epoch c = e ∧ Ethash.Generate e = Ret (c_Cache c).
Proof.
  intros Hr Hi Hs. destruct (cache_steps_ok _ _ world_0_ok Hr) as [(Ho & _ & Hc) _].
  destruct (Forall_lookup_1 _ _ _ _ Hc Hi) as (c & Hp & <- & Hd). exists c.
  destruct (cache_steps_ok w w') as [_ Hle]; [by apply (cache_steps_ok _ _ world_0_ok)|done|].
  destruct (Hle p c Hp) as (c' & Hp' & _ & Heq). rw Heq // in Hp'. split_and!; [done..|]. by apply (Forall_lookup_1 _ _ _ _ Ho Hp).
Qed.

(** The runs without new calls. *)
Inductive advances : nat → world → world → Prop :=
| adv_0 w : advances 0 w w
| adv_S n i w w1 w' : advance i w = Some (Ret w1) → advances n w1 w' → advances (S n) w w'.

(** C34: no call of [Cache] waits forever or fails: without new calls only so many steps are possible, none of them
    panics, and when no step is possible every call has returned and every goroutine has ended. *)
Theorem Cache_returns w n w' : reachable w → advances n w w' →
  (n ≤ weight (w_calls w))%nat ∧ (∀ i r, advance i w' = Some r → ∃ w'', r = Ret w'') ∧
  ((∀ i, advance i w' = None) → Forall (λ c, ¬ pending c) (w_calls w')).
Proof.
  intros Hr Ha. pose proof (proj1 (cache_steps_ok _ _ world_0_ok Hr)) as Hw. clear Hr.
  induction Ha as [w|n i w w1 w' Ha _ IH].
  - split_and!; [lia| |].
    + intros i r Hi. destruct (advance_pending _ _ _ Hi) as (c & Hc & Hp). destruct (advance_ok i w c Hw Hc Hp) as (w'' & Hi' & _).
      exists w''. congruence.
    + intros Hn. apply Forall_lookup. intros i c Hc Hp. destruct (advance_ok i w c Hw Hc Hp) as (w'' & Hi' & _). by rw Hn in Hi'.
  - destruct (advance_pending _ _ _ Ha) as (c & Hc & Hp). destruct (advance_ok i w c Hw Hc Hp) as (w'' & Hi' & Hw'' & _ & Hlt).
    have E : w'' = w1 by congruence. subst w''. destruct (IH Hw'') as (? & ? & ?). split_and!; [lia|done..].
Qed.

End shared.

(** ** Caches on disk *)

Lemma words_of_bytes_of ws : Forall is_word ws → words_of (bytes_of ws) = ws.
Proof.
  intros Hw. rw /words_of length_bytes_of. have -> : (4 * length ws / 4 = length ws)%nat by (rw Nat.mul_comm; apply Nat.div_mul).
  induction Hw as [|w ws Hw _ IH]; [done|]. cbn [length seq fmap list_fmap]. f_equal.
  - rw /le32 /bytes_of bind_cons. change (4 * 0)%nat with 0%nat. rw drop_0 take_app_length' ?length_put32 //.
    rw /put32 little_endian_to_Z_to_little_endian; [lia..|]. apply Z.mod_small. rw /is_word /two32 in Hw. lia.
  - etransitivity; [|exact IH]. rw -fmap_S_seq -list_fmap_compose. apply list_fmap_ext. intros i j _. rw /compose /le32.
    change (bytes_of (w :: ws)) with (put32 w ++ bytes_of ws). f_equal. f_equal. rw drop_app_ge ?length_put32; [lia|]. f_equal. lia.
Qed.

Lemma check_magic_ok ws : check_magic (dumpMagic ++ ws) = Ret tt.
Proof. done. Qed.

Lemma check_magic_inv buffer : check_magic buffer = Ret tt → ∃ ws, buffer = dumpMagic ++ ws.
Proof.
  rw /check_magic. change (imap _ dumpMagic) with [(0, 3135097598); (1, 4276215469)]. rw foldM_cons /mbind /gores_bind.
  destruct (index buffer 0) as [w0| |] eqn:E0; [|done..]. destruct (Z.eqb_spec w0 3135097598) as [->|]; [|done]. cbn [mret gores_ret]. rw foldM_one.
  destruct (index buffer 1) as [w1| |] eqn:E1; [|done..]. destruct (Z.eqb_spec w1 4276215469) as [->|]; [|done]. intros _.
  destruct buffer as [|x0 [|x1 tl]]; [done..|]. injection E0 as ->. injection E1 as ->. by exists tl.
Qed.

Lemma tail_magic ws : tail_from (dumpMagic ++ ws) (zlen dumpMagic) = Ret ws.
Proof. rw tail_from_ok //. rw zlen_app. pose proof (zlen_nonneg ws). pose proof (zlen_nonneg dumpMagic). lia. Qed.

(** What [memoryMap] reads back from a file that was written with the header. *)
Lemma memoryMap_written env path lock d ws : e_open env = None → e_map env (bytes_of (dumpMagic ++ ws)) = None → e_lock env = None →
  Forall is_word ws → d !! path = Some (bytes_of (dumpMagic ++ ws)) → memoryMap env path lock d = Ret ws.
Proof.
  intros Ho Hm Hl Hw Hd. have E : words_of (bytes_of (dumpMagic ++ ws)) = dumpMagic ++ ws.
  { apply words_of_bytes_of, Forall_app. split; [|done]. repeat (constructor; [split; by vm_compute|]). constructor. }
  rw /memoryMap Hd Ho /memoryMapFile Hm E. destruct lock; rw ?Hl; cbn [try_err mbind gores_bind mret gores_ret]; rw check_magic_ok; apply tail_magic.
Qed.

(** A mapped file that has the header and a tail of any content is used as it is. *)
Lemma memoryMap_content env path lock d ws : memoryMap env path lock d = Ret ws →
  ∃ data, d !! path = Some data ∧ words_of data = dumpMagic ++ ws.
Proof.
  rw /memoryMap. destruct (d !! path) as [data|]; [|done]. destruct (e_open env); [done|]. rw /memoryMapFile. destruct (e_map env data); [done|].
  cbn [try_err mbind gores_bind mret gores_ret]. destruct (check_magic (words_of data)) as [[]| |] eqn:Em; [|done..].
  apply check_magic_inv in Em as [tl E]. cbn [mbind gores_bind]. rw E. intros H. exists data. split; [done|]. rw E. apply (f_equal (app dumpMagic)).
  apply Ret_inj. rw -(tail_magic tl) -H. by destruct lock; [destruct (e_lock env)|].
Qed.

Lemma memoryMap_written_any env path lock d ws : Forall is_word ws → d !! path = Some (bytes_of (dumpMagic ++ ws)) →
  memoryMap env path lock d = Ret ws ∨ ∃ e, memoryMap env path lock d = Fail e.
Proof.
  intros Hw Hd. destruct (e_open env) as [e|] eqn:Ho; [right; exists e; by rw /memoryMap Hd Ho|].
  destruct (e_map env (bytes_of (dumpMagic ++ ws))) as [e|] eqn:Hm; [right; exists e; by rw /memoryMap Hd Ho /memoryMapFile Hm|].
  destruct (e_lock env) as [e|] eqn:Hl; [|left; by apply memoryMap_written].
  destruct lock; [right; exists e|left]; rw /memoryMap Hd Ho /memoryMapFile Hm; cbn [try_err mbind gores_bind mret gores_ret];
    (rw words_of_bytes_of; [apply Forall_app; split; [repeat (constructor; [split; by vm_compute|]); constructor|done]|]);
    rw check_magic_ok; [by rw Hl|apply tail_magic].
Qed.

Definition no_errors (env : mmap_env) : Prop :=
  e_open env = None ∧ (∀ b, b ≠ [] → e_map env b = None) ∧ e_lock env = None ∧ e_mkdir env = None ∧ e_create env = None ∧
  e_size env = None ∧ e_map_write env = None ∧ e_unmap env = None ∧ e_close env = None ∧ e_rename env = None.

Definition temp_path (env : mmap_env) (path : string) : string := (path +:+ "." +:+ pretty (e_rand env))%string.

Section make.
Context (env : mmap_env) (path : string) (size : Z) (lock : bool) (generator : Z → gores (list Z)) (ws : list Z) (d : disk).
Context (Hgen : generator (4 * (size / 4)) = Ret ws) (Hlen : 4 * zlen ws = size) (Hws : Forall is_word ws).

Lemma made_bytes : let written := bytes_of (dumpMagic ++ ws) in
  written ++ drop (length written) (zeros (zlen dumpMagic * 4 + size)) = written.
Proof using Hlen.
  cbv zeta. rw drop_ge ?app_nil_r //. rw length_bytes_of /zeros length_replicate length_app -Hlen /zlen. cbn. lia.
Qed.

(** A call failed: there were errors, and only the temporary file was touched. *)
Ltac gives_up :=
  split; [intros Hne; unfold no_errors in Hne; intuition congruence|
          intros p Hp1 Hp2; cbn; rw ?lookup_delete_ne ?lookup_insert_ne //; congruence].

(** Whatever fails, the words that are returned are those of the generator; other files are not touched. *)
Lemma memoryMapAndGenerate_spec :
  match memoryMapAndGenerate env path size lock generator d with
  | (Ret ws', d') => ws' = ws ∧ d' !! path = Some (bytes_of (dumpMagic ++ ws))
  | (Fail _, _) => ¬ no_errors env
  | (Panic _, _) => False
  end ∧
  ∀ p, p ≠ path → p ≠ temp_path env path → (memoryMapAndGenerate env path size lock generator d).2 !! p = d !! p.
Proof using Hgen Hlen Hws.
  have Hn : 4 * ((zlen dumpMagic * 4 + size) / 4 - zlen dumpMagic) = 4 * (size / 4).
  { change (zlen dumpMagic * 4) with (2 * 4). rw Z.div_add_l; [lia|]. change (zlen dumpMagic) with 2. lia. }
  rw /memoryMapAndGenerate -/(temp_path env path). rw Hn Hgen. set (tmp := temp_path env path).
  rw /or_remove /put_path /remove_path /st_get /st_lift /try_err /mbind /st_bind.
  destruct (e_mkdir env) eqn:?; [gives_up|]. destruct (e_create env) eqn:?; [gives_up|]. destruct (e_size env) eqn:?; [gives_up|].
  destruct (e_map_write env) eqn:?; [gives_up|]. destruct (e_unmap env) eqn:?; [gives_up|]. destruct (e_close env) eqn:?; [gives_up|]. destruct (e_rename env) eqn:?; [gives_up|].
  cbn [mret gores_ret st_ret]. rw made_bytes. match goal with |- context [memoryMap _ _ _ ?D] => set (d' := D) end.
  have Hd' : d' !! path = Some (bytes_of (dumpMagic ++ ws)) by rw /d' lookup_insert_eq.
  have Hoth p : p ≠ path → p ≠ tmp → d' !! p = d !! p.
  { intros. rw /d' lookup_insert_ne; [congruence|]. rw lookup_delete_ne; [congruence|]. rw !lookup_insert_ne //; congruence. }
  split; [|intros p ??; by apply Hoth].
  destruct (memoryMap_written_any env path lock d' ws Hws Hd') as [->|[e He]]; [done|]. rw He. intros (Ho & Hm & Hl & _).
  rw (memoryMap_written _ _ _ _ ws) // in He. by apply Hm.
Qed.

End make.

Section disk_caches.
Context `{GL : GethLaws} (dir : string) (epoch : Z) (Hdir : dir ≠ "") (Hepoch : 0 ≤ epoch < maxEpoch).

Definition fresh : Cache := mkCache epoch false [] false.
Definition cache_file : string := dump_path dir "cache" (seedHash (epoch_block epoch)).

(** The content of the cache of the epoch: a whole number of rows of words. *)
Lemma epoch_cache : ∃ r cache, cacheSize (epoch_block epoch) = Ret (64 * r) ∧
  generateCache (64 * r) (seedHash (epoch_block epoch)) = Ret cache ∧ Ethash.Generate epoch = Ret cache ∧ zlen cache = 16 * r ∧ Forall is_word cache.
Proof using Hepoch GL.
  destruct (epoch_rows epoch Hepoch) as (r & Hs & Hr). destruct (generateCache_rows r (seedHash (epoch_block epoch)) Hr) as (cache & Hc & ? & ?).
  exists r, cache. split_and!; [done..| |done|done]. rw /Ethash.Generate Hs. exact Hc.
Qed.

Lemma Cache_Generate_loads env limit lock d ws : memoryMap env cache_file lock d = Ret ws →
  Cache_Generate env dir limit lock false fresh d = (Ret (mkCache epoch true ws true), d).
Proof using Hepoch Hdir GL.
  intros Hm. destruct epoch_cache as (r & cache & Hs & _). rw /Cache_Generate /fresh /=. rw /mbind /st_bind /st_lift Hs bool_decide_false //.
  by rw /st_get -/cache_file Hm.
Qed.

Lemma Cache_Generate_makes env limit lock d e : memoryMap env cache_file lock d = Fail e →
  ∃ cache, Ethash.Generate epoch = Ret cache ∧ Forall is_word cache ∧ ∃ mapped d1,
    Cache_Generate env dir limit lock false fresh d = (Ret (mkCache epoch mapped cache true), remove_old dir "cache" epoch limit d1) ∧
    (∀ p, p ≠ cache_file → p ≠ temp_path env cache_file → d1 !! p = d !! p) ∧
    (no_errors env → mapped = true ∧ d1 !! cache_file = Some (bytes_of (dumpMagic ++ cache))).
Proof using Hepoch Hdir GL.
  intros Hm. destruct epoch_cache as (r & cache & Hs & Hc & Hg & Hl & Hw). exists cache. split; [done|]. split; [done|].
  rw /Cache_Generate /fresh /=. rw /mbind /st_bind /st_lift Hs bool_decide_false // /st_get -/cache_file Hm /=.
  destruct (memoryMapAndGenerate_spec env cache_file (64 * r) lock (λ n, generateCache n (seedHash (epoch_block epoch))) cache d) as [Hspec Hoth].
  { rw Z.mul_comm generateCache_words. exact Hc. }
  { lia. }
  { done. }
  rw /st_catch. destruct (memoryMapAndGenerate _ _ _ _ _ d) as [[ws|e'|p] d'] eqn:E; [| |done].
  - destruct Hspec as [-> Hd']. exists true, d'. by split_and!.
  - rw generateCache_words Hc. exists false, d'. by split_and!.
Qed.

End disk_caches.

Lemma delete_all (f : Z → string) l (d : disk) p :
  (p ∈ f <$> l → foldl (λ d ep, delete (f ep) d) d l !! p = None) ∧ (p ∉ f <$> l → foldl (λ d ep, delete (f ep) d) d l !! p = d !! p).
Proof.
  revert d. induction l as [|x l IH]; intros d; simpl; [split; [by intros ?%not_elem_of_nil|done]|].
  destruct (IH (delete (f x) d)) as [IH1 IH2]. rw !elem_of_cons. split.
  - intros [->|?]; [|by apply IH1]. destruct (decide (f x ∈ f <$> l)); [by apply IH1|]. rw IH2 // lookup_delete_eq //.
  - intros Hp. rw IH2; [tauto|]. rw lookup_delete_ne //. intros <-. tauto.
Qed.

(** [remove_old] deletes the files of the epochs that are [limit] or more behind, and no others. *)
Lemma remove_old_lookup `{Geth} dir kind epoch limit d p :
  let old := (λ ep, dump_path dir kind (seedHash (epoch_block ep))) <$> seqZ 0 (int64 (int64 epoch - limit) + 1) in
  (p ∈ old → remove_old dir kind epoch limit d !! p = None) ∧ (p ∉ old → remove_old dir kind epoch limit d !! p = d !! p).
Proof.
  cbv zeta. rw /remove_old -(elem_of_reverse p) -fmap_reverse. apply (delete_all (λ ep, dump_path dir kind (seedHash (epoch_block ep)))).
Qed.

Lemma remove_old_none `{Geth} dir kind epoch limit d : 0 ≤ epoch < maxEpoch → epoch < limit < two63 → remove_old dir kind epoch limit d = d.
Proof.
  rw /maxEpoch /two63 => He Hl. apply map_eq. intros p. apply (remove_old_lookup dir kind epoch limit d p).
  have -> : int64 (int64 epoch - limit) + 1 = epoch - limit + 1 by unwrap. rw seqZ_nil; [lia|]. apply not_elem_of_nil.
Qed.

(** Filling the cache of an epoch that is not on the disk gives its content, whatever calls of the operating
    system fail, and touches no other file when no old epoch is to be removed; when none fails, later runs, also
    of other processes, get the same content from the file. *)
Theorem Cache_Generate_disk `{GethLaws} dir epoch env limit lock d :
  dir ≠ "" → 0 ≤ epoch < maxEpoch → epoch < limit < two63 → d !! cache_file dir epoch = None →
  ∃ cache mapped d', Ethash.Generate epoch = Ret cache ∧
    Cache_Generate env dir limit lock false (fresh epoch) d = (Ret (mkCache epoch mapped cache true), d') ∧
    (∀ p, p ≠ cache_file dir epoch → p ≠ temp_path env (cache_file dir epoch) → d' !! p = d !! p) ∧
    ∀ env' limit' lock', no_errors env → no_errors env' →
      Cache_Generate env' dir limit' lock' false (fresh epoch) d' = (Ret (mkCache epoch true cache true), d').
Proof.
  intros Hdir He Hl Hd. destruct (Cache_Generate_makes dir epoch Hdir He env limit lock d (ErrMsg "no such file or directory"))
    as (cache & Hg & Hw & mapped & d1 & Hr & Hoth & Hok); [by rw /memoryMap Hd|].
  exists cache, mapped, d1. rw remove_old_none // in Hr. split_and!; [done..|]. intros env' limit' lock' Hn Hn'.
  destruct (Hok Hn) as [_ Hf]. apply Cache_Generate_loads; [done..|]. destruct Hn' as (Ho & Hm & Hlk & _). apply memoryMap_written; try done.
  by apply Hm.
Qed.

(** A file that is shorter than its header makes the load panic: the words of the header are read before the length is known. *)
Lemma short_file_panics `{GethLaws} dir epoch env limit lock d data :
  dir ≠ "" → 0 ≤ epoch < maxEpoch → d !! cache_file dir epoch = Some data → (length data < 4)%nat →
  e_open env = None → e_map env data = None →
  Cache_Generate env dir limit lock false (fresh epoch) d = (Panic OutOfRange, d).
Proof.
  intros Hdir He Hd Hlen Ho Hm. destruct (epoch_cache epoch He) as (r & cache & Hs & _).
  have Hp : memoryMap env (cache_file dir epoch) lock d = Panic OutOfRange.
  { rw /memoryMap Hd Ho /memoryMapFile Hm /words_of. have -> : (length data / 4 = 0)%nat by apply Nat.div_small. done. }
  rw /Cache_Generate /fresh /=. rw /mbind /st_bind /st_lift Hs bool_decide_false // /st_get -/(cache_file dir epoch) Hp. done.
Qed.

(** ** A table, and examples *)

Record list_lru := mkListLru { ll_size : Z; ll_items : list (Z * option nat) }.

Fixpoint assoc (k : Z) (l : list (Z * option nat)) : option (option nat) :=
  match l with [] => None | (k', v) :: l => if k =? k' then Some v else assoc k l end.

Fixpoint remove1 (k : Z) (l : list (Z * option nat)) : list (Z * option nat) :=
  match l with [] => [] | (k', v) :: l => if k =? k' then l else (k', v) :: remove1 k l end.

Lemma assoc_remove1 k k' l : k' ≠ k → assoc k' (remove1 k l) = assoc k' l.
Proof.
  intros Hne. induction l as [|[x v] l IH]; [done|]. simpl. destruct (Z.eqb_spec k x) as [<-|]; [by rw (proj2 (Z.eqb_neq _ _))|].
  simpl. by rw IH.
Qed.

Lemma length_remove1 k l v : assoc k l = Some v → S (length (remove1 k l)) = length l.
Proof. induction l as [|[x w] l IH]; [done|]. simpl. case_match; [done|]. intros ?. simpl. by rw IH. Qed.

Lemma assoc_take k n l : assoc k (take n l) = None ∨ assoc k (take n l) = assoc k l.
Proof. revert n. induction l as [|[x v] l IH]; intros [|n]; simpl; [by left..|]. case_match; [by right|apply IH]. Qed.

#[local] Instance ex_lru : SimpleLRU := {
  simplelru := list_lru;
  simplelru_New n := if 0 <? n then Some (mkListLru n []) else None;
  simplelru_Get k l := match assoc k (ll_items l) with
                       | Some v => (Some v, mkListLru (ll_size l) ((k, v) :: remove1 k (ll_items l)))
                       | None => (None, l)
                       end;
  simplelru_Add k v l := mkListLru (ll_size l) (take (Z.to_nat (ll_size l)) ((k, v) :: remove1 k (ll_items l)));
  simplelru_Peek k l := assoc k (ll_items l);
  simplelru_Len l := zlen (ll_items l);
  simplelru_size := ll_size }.

#[local] Instance ex_lru_laws : SimpleLRULaws ex_lru.
Proof.
  constructor; simpl.
  - intros n Hn. rw (proj2 (Z.ltb_lt _ _)) //. by eexists.
  - intros k l. by destruct (assoc k _).
  - intros k k' l. destruct (assoc k (ll_items l)) eqn:E; [|done]. simpl. destruct (Z.eqb_spec k' k) as [->|]; [done|]. by apply assoc_remove1.
  - intros k l. destruct (assoc k (ll_items l)) eqn:E; [|done]. simpl. split; [done|]. rw /zlen /=. by rw (length_remove1 _ _ _ E).
  - intros k v l Hs. destruct (Z.to_nat (ll_size l)) eqn:E; [lia|]. simpl. by rw Z.eqb_refl.
  - intros k k' v l Hne. destruct (assoc_take k' (Z.to_nat (ll_size l)) ((k, v) :: remove1 k (ll_items l))) as [->| ->]; [by left|right].
    simpl. rw (proj2 (Z.eqb_neq _ _)) //. by apply assoc_remove1.
  - intros k v l. split; [done|]. intros Hl. pose proof (zlen_nonneg (ll_items l)). rw /zlen length_take. lia.
Qed.

Definition ex_env : mmap_env := mkMmapEnv None (λ b, if bool_decide (b = []) then Some (ErrMsg "invalid argument") else None)
  None None None None None None None None 1.

Definition ex_called : world := mkWorld [] caches [Called 5].
Definition ex_got : world :=
  mkWorld [mkCache 5 false [] false; mkCache 6 false [] false] (mkLRU (Some (mkListLru 2 [(5, Some 0%nat)])) 6 (Some 1%nat))
    [Current 5 (Some 0%nat) (Some 1%nat)].
Definition ex_returned (cache : list Z) : world :=
  mkWorld [mkCache 5 false cache true; mkCache 6 false [] false] (w_lru ex_got) [Returned 5 0; Future 1].

Lemma ex_called_reachable : reachable ex_env ex_called.
Proof. apply rtc_once. by apply (step_call ex_env 5 world_0). Qed.

Lemma ex_advance : advance ex_env 0 ex_called = Some (Ret ex_got).
Proof. reflexivity. Qed.

Lemma ex_returned_reachable cache : Ethash.Generate 5 = Ret cache → reachable ex_env (ex_returned cache).
Proof.
  intros Hg. apply (rtc_r _ ex_got); [apply (rtc_r _ ex_called); [apply ex_called_reachable|]|]; apply (step_advance ex_env 0); [exact ex_advance|].
  rw /advance /generate_at. cbn [w_calls ex_got lookup list_lookup w_heap]. by rw (Cache_Generate_memory ex_env 0 false 5 cache ∅ Hg).
Qed.

Lemma Cache_transparent_witness : ∃ cache c, w_heap (ex_returned cache) !! 0%nat = Some c ∧ c_epoch c = 5 ∧ Ethash.Generate 5 = Ret (c_Cache c).
Proof.
  destruct (epoch_tables 5) as (cache & _ & Hg & _); [done|]. exists cache.
  eapply (Cache_transparent ex_env (ex_returned cache) (ex_returned cache) 0); [by apply ex_returned_reachable|reflexivity|reflexivity].
Defined.

Lemma Cache_returns_witness : (1 ≤ weight (w_calls ex_called))%nat ∧ (∀ i r, advance ex_env i ex_got = Some r → ∃ w'', r = Ret w'') ∧
  ((∀ i, advance ex_env i ex_got = None) → Forall (λ c, ¬ pending c) (w_calls ex_got)).
Proof.
  apply (Cache_returns ex_env ex_called 1 ex_got); [apply ex_called_reachable|]. by econstructor; [exact ex_advance|constructor].
Defined.

Lemma Cache_Generate_disk_witness : ∃ cache mapped d', Ethash.Generate 3 = Ret cache ∧
  Cache_Generate ex_env "caches" MaxInt32 false false (fresh 3) ∅ = (Ret (mkCache 3 mapped cache true), d') ∧
  (∀ p, p ≠ cache_file "caches" 3 → p ≠ temp_path ex_env (cache_file "caches" 3) → d' !! p = (∅ : disk) !! p) ∧
  ∀ env' limit' lock', no_errors ex_env → no_errors env' →
    Cache_Generate env' "caches" limit' lock' false (fresh 3) d' = (Ret (mkCache 3 true cache true), d').
Proof. by apply (Cache_Generate_disk "caches" 3 ex_env MaxInt32 false ∅). Defined.
