(* ===== verification/DataFile.v ===== *)
(** * Data files (data_file.go)

    One local file of consecutive chunks: a 4096-byte header, then the chunk
    area, then one metadata record per KV.  [DataFile] carries the header
    fields the Go struct carries and the contents of the file. *)

From S2P Require Import Prelude Bits Extern.

Definition NO_ENCODE : Z := 0.
Definition ENCODE_KECCAK_256 : Z := 1.
Definition ENCODE_ETHASH : Z := 2.
Definition ENCODE_BLOB_POSEIDON : Z := 3.
Definition ENCODE_END : Z := ENCODE_BLOB_POSEIDON.

Definition MAGIC : Z := 0xcf20bd770c22b2e1.
Definition VERSION : Z := 1.
Definition HEADER_SIZE : Z := 4096.
Definition SampleSizeBits : Z := 5.

Record DataFile := mkDataFile {
  df_file : file;
  df_chunkIdxStart : Z;
  df_chunkIdxLen : Z;
  df_encodeType : Z;
  df_maxKvSize : Z;
  df_chunkSize : Z;
  df_metaSize : Z;
  df_miner : bytes }.

Record DataFileHeader := mkDataFileHeader {
  h_magic : Z;
  h_version : Z;
  h_chunkIdxStart : Z;
  h_chunkIdxLen : Z;
  h_encodeType : Z;
  h_maxKvSize : Z;
  h_chunkSize : Z;
  h_metaSize : Z;
  h_miner : bytes;
  h_status : Z }.

Definition set_file (df : DataFile) (f : file) : DataFile :=
  mkDataFile f (df_chunkIdxStart df) (df_chunkIdxLen df) (df_encodeType df)
    (df_maxKvSize df) (df_chunkSize df) (df_metaSize df) (df_miner df).

(** ** Masks *)

(** The loop [maskData[i] = maskData[i] ^ userData[i]] for the length of the
    user data; the rest of the mask is kept. *)
Definition xor_prefix (maskData userData : bytes) : bytes :=
  xor_bytes (take (length userData) maskData) userData ++ drop (length userData) maskData.

Definition MaskDataInPlace (maskData userData : bytes) : gores bytes :=
  if zlen maskData <? zlen userData
  then Panic (Explicit "user data can not be larger than mask data")
  else Ret (xor_prefix maskData userData).

Definition UnmaskDataInPlace (userData maskData : bytes) : gores bytes :=
  if zlen maskData <? zlen userData
  then Panic (Explicit "user data can not be larger than mask data")
  else slice (xor_prefix maskData userData) 0 (zlen userData).

(** ** Index arithmetic *)

Definition ChunkIdxEnd (df : DataFile) : Z :=
  add64 (df_chunkIdxStart df) (df_chunkIdxLen df).

Definition Contains (df : DataFile) (chunkIdx : Z) : bool :=
  (df_chunkIdxStart df <=? chunkIdx) && (chunkIdx <? ChunkIdxEnd df).

Definition KvIdxStart (df : DataFile) : gores Z :=
  udiv (mul64 (df_chunkIdxStart df) (df_chunkSize df)) (df_maxKvSize df).

Definition KvIdxEnd (df : DataFile) : gores Z :=
  s ← KvIdxStart df;
  n ← udiv (mul64 (df_chunkIdxLen df) (df_chunkSize df)) (df_maxKvSize df);
  mret (add64 s n).

Definition ContainsKv (df : DataFile) (kvIdx : Z) : gores bool :=
  s ← KvIdxStart df;
  if s <=? kvIdx then e ← KvIdxEnd df; mret (kvIdx <? e) else mret false.

Definition ContainsSample (df : DataFile) (sampleIdx : Z) : gores bool :=
  c ← udiv (shl64 sampleIdx SampleSizeBits) (df_chunkSize df);
  mret (Contains df c).

Definition Miner (df : DataFile) : bytes := df_miner df.

(** ** Chunks *)

Definition chunk_offset (df : DataFile) (chunkIdx : Z) : Z :=
  int64 (HEADER_SIZE +
    int64 (int64 (sub64 chunkIdx (df_chunkIdxStart df)) * int64 (df_chunkSize df))).

Definition Read (df : DataFile) (chunkIdx len : Z) : gores bytes :=
  if negb (Contains df chunkIdx) then Fail (ErrMsg "chunk not found")
  else if int64 (df_chunkSize df) <? len then Fail (ErrMsg "read too large")
  else
    _ ← make_bytes len;
    match ReadAt (df_file df) len (chunk_offset df chunkIdx) with
    | (_, _, Some err) => Fail err
    | (md, n, None) =>
        if negb (n =? len) then Fail (ErrMsg "not full read") else mret md
    end.

Definition ReadSample `{Geth} (df : DataFile) (sampleIdx : Z) : gores bytes :=
  found ← ContainsSample df sampleIdx;
  if negb found then Fail (ErrMsg "sample not found")
  else
    let sampleSize := Z.shiftl 1 SampleSizeBits in
    let off := int64 (int64 (HEADER_SIZE + int64 (shl64 sampleIdx SampleSizeBits))
                      - int64 (mul64 (df_chunkIdxStart df) (df_chunkSize df))) in
    match ReadAt (df_file df) sampleSize off with
    | (_, _, Some err) => Fail err
    | (md, n, None) =>
        if negb (n =? sampleSize) then Fail (ErrMsg "not full read")
        else mret (BytesToHash md)
    end.

Definition Write (chunkIdx : Z) (b : bytes) : ST DataFile unit := λ df,
  if negb (Contains df chunkIdx) then (Fail (ErrMsg "chunk not found"), df)
  else if int64 (df_chunkSize df) <? zlen b then (Fail (ErrMsg "write data too large"), df)
  else
    match WriteAt (df_file df) b (chunk_offset df chunkIdx) with
    | (Some err, f) => (Fail err, set_file df f)
    | (None, f) => (Ret tt, set_file df f)
    end.

(** ** Metadata *)

Definition meta_offset (df : DataFile) (kvIdx kvIdxStart : Z) : Z :=
  int64 (add64 (add64 HEADER_SIZE (mul64 (df_chunkIdxLen df) (df_chunkSize df)))
               (mul64 (sub64 kvIdx kvIdxStart) (df_metaSize df))).

(** [Fail e] stands for [(nil, e)], [Ret (b, Some e)] for [(b, e)]: the buffer
    is returned together with the error of the read. *)
Definition ReadMeta (df : DataFile) (kvIdx : Z) : gores (bytes * option error) :=
  found ← ContainsKv df kvIdx;
  if negb found then Fail (ErrMsg "kv not found")
  else
    _ ← make_bytes (int64 (df_metaSize df));
    s ← KvIdxStart df;
    let '(b, _, err) := ReadAt (df_file df) (df_metaSize df) (meta_offset df kvIdx s) in
    mret (b, err).

Definition WriteMeta (kvIdx : Z) (b : bytes) : ST DataFile unit := λ df,
  match ContainsKv df kvIdx with
  | Panic p => (Panic p, df)
  | Fail e => (Fail e, df)
  | Ret false => (Fail (ErrMsg "kv not found"), df)
  | Ret true =>
      if int64 (df_metaSize df) <? zlen b then (Fail (ErrMsg "write meta too large"), df)
      else
        match KvIdxStart df with
        | Panic p => (Panic p, df)
        | Fail e => (Fail e, df)
        | Ret s =>
            match WriteAt (df_file df) b (meta_offset df kvIdx s) with
            | (Some err, f) => (Fail err, set_file df f)
            | (None, f) => (Ret tt, set_file df f)
            end
        end
  end.

(** ** Header *)

(** [binary.Write(buf, binary.BigEndian, uint64)] appends eight bytes. *)
Definition header_bytes (h : DataFileHeader) : bytes :=
  be_encode 8 (h_magic h) ++ be_encode 8 (h_version h) ++
  be_encode 8 (h_chunkIdxStart h) ++ be_encode 8 (h_chunkIdxLen h) ++
  be_encode 8 (h_encodeType h) ++ be_encode 8 (h_maxKvSize h) ++
  be_encode 8 (h_chunkSize h) ++ be_encode 8 (h_metaSize h) ++
  h_miner h ++ be_encode 8 (h_status h).

Definition header_of (df : DataFile) : DataFileHeader :=
  mkDataFileHeader MAGIC VERSION (df_chunkIdxStart df) (df_chunkIdxLen df)
    (df_encodeType df) (df_maxKvSize df) (df_chunkSize df) (df_metaSize df)
    (df_miner df) 0.

Definition writeHeader : ST DataFile unit := λ df,
  match WriteAt (df_file df) (header_bytes (header_of df)) 0 with
  | (Some err, f) => (Fail err, set_file df f)
  | (None, f) => (Ret tt, set_file df f)
  end.

(** [binary.Read] of a [uint64] and [buf.Read] of the 20 address bytes from
    the front of the buffer. *)
Definition read_u64 : ST bytes Z := λ buf,
  if (length buf <? 8)%nat then (Fail EOF, buf)
  else (Ret (be_decode (take 8 buf)), drop 8 buf).

Definition read_address : ST bytes bytes := λ buf,
  let got := take 20 buf in
  if (length got =? 0)%nat then (Fail EOF, buf)
  else if negb (length got =? 20)%nat
  then (Fail (ErrMsg "short read for header.miner"), drop 20 buf)
  else (Ret got, drop 20 buf).

Definition parse_header : ST bytes DataFileHeader :=
  magic ← read_u64;
  version ← read_u64;
  chunkIdxStart ← read_u64;
  chunkIdxLen ← read_u64;
  encodeType ← read_u64;
  maxKvSize ← read_u64;
  chunkSize ← read_u64;
  metaSize ← read_u64;
  miner ← read_address;
  status ← read_u64;
  mret (mkDataFileHeader magic version chunkIdxStart chunkIdxLen encodeType
          maxKvSize chunkSize metaSize miner status).

Definition readHeader (df : DataFile) : gores DataFile :=
  match ReadAt (df_file df) HEADER_SIZE 0 with
  | (_, _, Some err) => Fail err
  | (b, n, None) =>
      if negb (n =? HEADER_SIZE) then Fail (ErrMsg "not full header read")
      else
        header ← (parse_header b).1;
        if negb (h_magic header =? MAGIC) then Fail (ErrMsg "magic error")
        else if VERSION <? h_version header then Fail (ErrMsg "unsupported version")
        else if ENCODE_END <? h_encodeType header then Fail (ErrMsg "unknown mask type")
        else mret (mkDataFile (df_file df) (h_chunkIdxStart header) (h_chunkIdxLen header)
                     (h_encodeType header) (h_maxKvSize header) (h_chunkSize header)
                     (h_metaSize header) (h_miner header))
  end.

(** ** Creation, opening, closing *)

(** [os.Create] truncates; [perm] is whether the system lets it. *)
Definition os_Create (perm : bool) : gores file :=
  if perm then Ret (mkFile [] false) else Fail (ErrMsg "permission denied").

(** [fallocate] is the third-party [fallocate.Fallocate(file, offset, size)]. *)
Definition Create (fallocate : file → Z → Z → gores file) (perm : bool)
    (chunkIdxStart chunkIdxLen epoch maxKvSize encodeType : Z) (miner : bytes)
    (chunkSize : Z) : gores DataFile :=
  if maxKvSize <? chunkSize then Fail (ErrMsg "chunkSize must be smaller than maxKvSize")
  else
    m1 ← umod (mul64 chunkIdxLen chunkSize) maxKvSize;
    if negb (m1 =? 0) then Fail (ErrMsg "chunkSize * chunkIdxLen must be multiple of maxKvSize")
    else
    m2 ← umod (mul64 chunkIdxStart chunkSize) maxKvSize;
    if negb (m2 =? 0) then Fail (ErrMsg "chunkSize * chunkIdxStart must be multiple of maxKvSize")
    else if negb (isPow2n chunkSize) || negb (isPow2n maxKvSize)
    then Fail (ErrMsg "chunkSize and maxKvSize must be 2^n")
    else
    file ← os_Create perm;
    file ← fallocate file (int64 (mul64 (add64 chunkSize 32) chunkIdxLen)) HEADER_SIZE;
    let dataFile := mkDataFile file chunkIdxStart chunkIdxLen encodeType maxKvSize
                      chunkSize 32 miner in
    (* the error of writeHeader is not looked at *)
    match writeHeader dataFile with
    | (Panic p, _) => Panic p
    | (_, dataFile) => mret dataFile
    end.

(** [opened] is what [os.OpenFile] returned. *)
Definition OpenDataFile (opened : gores file) : gores DataFile :=
  file ← opened;
  readHeader (mkDataFile file 0 0 0 0 0 0 (replicate 20 0)).

Definition Close (df : DataFile) : gores unit * DataFile :=
  if f_closed (df_file df) then (Fail (ErrWrap "close data file error" ErrClosed), df)
  else (Ret tt, set_file df (mkFile (f_data (df_file df)) true)).

(** ** Well-formed data files

    What [Create] establishes and every operation keeps: positive power-of-two
    style sizes that divide each other, no 64-bit overflow in the index
    arithmetic, and a file that is open and long enough. *)

Definition data_size (df : DataFile) : Z := df_chunkIdxLen df * df_chunkSize df.
Definition kv_start (df : DataFile) : Z :=
  df_chunkIdxStart df * df_chunkSize df / df_maxKvSize df.
Definition kv_len (df : DataFile) : Z := data_size df / df_maxKvSize df.
Definition alloc_size (df : DataFile) : Z :=
  HEADER_SIZE + (df_chunkSize df + 32) * df_chunkIdxLen df.

Record df_wf (df : DataFile) : Prop := {
  wf_start : 0 ≤ df_chunkIdxStart df;
  wf_len : 0 ≤ df_chunkIdxLen df;
  wf_chunk : 0 < df_chunkSize df ≤ df_maxKvSize df;
  wf_meta : df_metaSize df = 32;
  wf_end : (df_chunkIdxStart df + df_chunkIdxLen df) * df_chunkSize df < two63;
  wf_max : df_maxKvSize df < two63;
  wf_alloc : alloc_size df < two63;
  wf_file : alloc_size df ≤ zlen (f_data (df_file df));
  wf_open : f_closed (df_file df) = false }.

#[export] Hint Resolve wf_start wf_len wf_meta wf_end wf_open : es.

(** The abstract contents of a data file: the bytes of each chunk and the
    metadata record of each KV. *)
Definition df_chunk (df : DataFile) (c : Z) : bytes :=
  take (Z.to_nat (df_chunkSize df))
    (drop (Z.to_nat (HEADER_SIZE + (c - df_chunkIdxStart df) * df_chunkSize df))
       (f_data (df_file df))).

Definition df_meta (df : DataFile) (k : Z) : bytes :=
  take 32 (drop (Z.to_nat (HEADER_SIZE + data_size df + (k - kv_start df) * 32))
             (f_data (df_file df))).

(** Same header fields: the two files differ in contents only. *)
Definition same_params (df df' : DataFile) : Prop := set_file df (df_file df') = df'.

Section wf.
Context (df : DataFile) (Hwf : df_wf df).

Lemma wf_bounds :
  0 ≤ df_chunkIdxStart df ∧ 0 ≤ df_chunkIdxLen df ∧ 0 < df_chunkSize df ∧
  0 < df_maxKvSize df < two63 ∧ df_chunkIdxStart df + df_chunkIdxLen df < two63 ∧
  df_chunkIdxStart df * df_chunkSize df < two63 ∧ df_chunkSize df < two63 ∧
  0 ≤ df_chunkIdxStart df * df_chunkSize df ∧
  0 ≤ data_size df < two63 ∧ HEADER_SIZE + data_size df + 32 * df_chunkIdxLen df < two63 ∧
  HEADER_SIZE + data_size df + 32 * df_chunkIdxLen df ≤ zlen (f_data (df_file df)).
Proof using Hwf.
  destruct Hwf. rw /alloc_size /data_size in wf_alloc0 wf_file0 *.
  split_and!; try nia.
Qed.

Lemma kv_len_le : 0 ≤ kv_len df ≤ df_chunkIdxLen df.
Proof using Hwf.
  pose proof wf_bounds. destruct Hwf. rw /kv_len. split.
  - apply Z.div_pos; lia.
  - apply Z.div_le_upper_bound; [lia|]. rw /data_size. nia.
Qed.

Lemma Contains_wf c :
  Contains df c = true ↔ df_chunkIdxStart df ≤ c < df_chunkIdxStart df + df_chunkIdxLen df.
Proof using Hwf.
  pose proof wf_bounds. rw /Contains /ChunkIdxEnd /add64 wrap64_small.
  { rw /two64 /two63 in H *. lia. }
  rw andb_true_iff Z.leb_le Z.ltb_lt //.
Qed.

Lemma ChunkIdxEnd_wf : ChunkIdxEnd df = df_chunkIdxStart df + df_chunkIdxLen df.
Proof using Hwf.
  pose proof wf_bounds. rw /ChunkIdxEnd /add64 wrap64_small //.
  rw /two64 /two63 in H *. lia.
Qed.

Lemma KvIdxStart_wf : KvIdxStart df = Ret (kv_start df).
Proof using Hwf.
  pose proof wf_bounds. rw /KvIdxStart /mul64 wrap64_small.
  { rw /two64 /two63 in H *. lia. }
  by rw udiv_nz; [lia|].
Qed.

Lemma kv_start_bounds : 0 ≤ kv_start df < two63.
Proof using Hwf.
  pose proof wf_bounds. rw /kv_start. split.
  - apply Z.div_pos; lia.
  - apply Z.div_lt_upper_bound; [lia|]. nia.
Qed.

Lemma ContainsKv_wf k :
  0 ≤ k → ContainsKv df k = Ret ((kv_start df <=? k) && (k <? kv_start df + kv_len df)).
Proof using Hwf.
  intros Hk. pose proof wf_bounds. pose proof kv_start_bounds. pose proof kv_len_le.
  rw /ContainsKv /KvIdxEnd !KvIdxStart_wf /=.
  case: Z.leb_spec => Hle //=. rw /mul64 wrap64_small.
  { rw /two64 /two63 /data_size in H *. lia. }
  rw udiv_nz; [lia|]. rw /= /add64 wrap64_small //.
  rw /kv_len /data_size /two64 /two63 in H H0 H1 *. lia.
Qed.

Lemma chunk_offset_wf c :
  df_chunkIdxStart df ≤ c < df_chunkIdxStart df + df_chunkIdxLen df →
  chunk_offset df c = HEADER_SIZE + (c - df_chunkIdxStart df) * df_chunkSize df
  ∧ 0 ≤ (c - df_chunkIdxStart df) * df_chunkSize df
  ∧ (c - df_chunkIdxStart df) * df_chunkSize df + df_chunkSize df ≤ data_size df.
Proof using Hwf.
  intros Hc. pose proof wf_bounds as HB.
  have H1 : 0 ≤ (c - df_chunkIdxStart df) * df_chunkSize df by nia.
  have H2 : (c - df_chunkIdxStart df) * df_chunkSize df + df_chunkSize df ≤ data_size df.
  { rw /data_size. nia. }
  split; [|lia]. rw /chunk_offset. rw /two63 /HEADER_SIZE in HB *. by unwrap.
Qed.

Lemma meta_offset_wf k :
  kv_start df ≤ k < kv_start df + kv_len df →
  meta_offset df k (kv_start df) = HEADER_SIZE + data_size df + (k - kv_start df) * 32
  ∧ (k - kv_start df) * 32 + 32 ≤ 32 * df_chunkIdxLen df.
Proof using Hwf.
  intros Hk. pose proof wf_bounds as HB. pose proof kv_len_le as HL.
  pose proof kv_start_bounds as HS.
  split; [|lia]. rw /meta_offset (wf_meta _ Hwf).
  rw /two63 /HEADER_SIZE /data_size in HB HS *. unwrap. lia.
Qed.

Lemma zlen_df_chunk c :
  df_chunkIdxStart df ≤ c < df_chunkIdxStart df + df_chunkIdxLen df →
  zlen (df_chunk df c) = df_chunkSize df.
Proof using Hwf.
  intros Hc. pose proof wf_bounds. destruct (chunk_offset_wf c Hc) as (_ & H1 & H2).
  rw /zlen /df_chunk length_take length_drop. rw /zlen /HEADER_SIZE in H *. lia.
Qed.

Lemma zlen_df_meta k :
  kv_start df ≤ k < kv_start df + kv_len df → zlen (df_meta df k) = 32.
Proof using Hwf.
  intros Hk. pose proof wf_bounds. destruct (meta_offset_wf k Hk) as (_ & H1).
  rw /zlen /df_meta length_take length_drop. rw /zlen /HEADER_SIZE in H *. lia.
Qed.

(** Reading a chunk, whole or a prefix of it. *)
Lemma Read_wf c n :
  df_chunkIdxStart df ≤ c < df_chunkIdxStart df + df_chunkIdxLen df →
  0 ≤ n ≤ df_chunkSize df →
  Read df c n = Ret (take (Z.to_nat n) (df_chunk df c)).
Proof using Hwf.
  intros Hc Hn. pose proof wf_bounds as HB.
  destruct (chunk_offset_wf c Hc) as (Ho & H1 & H2).
  rw /Read (proj2 (Contains_wf c) Hc) /= int64_small; [rw /two63 in HB *; lia|].
  rw (proj2 (Z.ltb_ge _ _)); [lia|]. rw /make_bytes (proj2 (Z.ltb_ge _ _)); [lia|].
  rw /= Ho ReadAt_inside; [apply Hwf|lia|rw /HEADER_SIZE; lia|lia|].
  rw Z.eqb_refl /= /df_chunk take_take. do 2 f_equal. lia.
Qed.

Lemma ReadMeta_wf k :
  kv_start df ≤ k < kv_start df + kv_len df →
  ReadMeta df k = Ret (df_meta df k, None).
Proof using Hwf.
  intros Hk. pose proof wf_bounds as HB. pose proof kv_start_bounds.
  destruct (meta_offset_wf k Hk) as (Ho & H1).
  rw /ReadMeta ContainsKv_wf; [lia|]. rw (proj2 (Z.leb_le _ _)); [lia|].
  rw (proj2 (Z.ltb_lt _ _)); [lia|]. rw /= KvIdxStart_wf (wf_meta _ Hwf) /= Ho.
  rw ReadAt_inside; [apply Hwf|lia|rw /HEADER_SIZE; lia|lia|]. done.
Qed.

Lemma ReadMeta_missing k :
  0 ≤ k → ¬ (kv_start df ≤ k < kv_start df + kv_len df) →
  ReadMeta df k = Fail (ErrMsg "kv not found").
Proof using Hwf.
  intros Hk Hn. rw /ReadMeta ContainsKv_wf //=.
  case: Z.leb_spec => ?; case: Z.ltb_spec => ? //=; lia.
Qed.
End wf.

(** ** Writes and their frame *)

Definition has_chunk (df : DataFile) (c : Z) : Prop :=
  df_chunkIdxStart df ≤ c < df_chunkIdxStart df + df_chunkIdxLen df.
Definition has_kv (df : DataFile) (k : Z) : Prop :=
  kv_start df ≤ k < kv_start df + kv_len df.

(** [df'] is a well-formed file with the parameters and the header bytes of
    [df], and the same contents outside the chunks [C] and the records [K]. *)
Record only_differ (C K : Z → Prop) (df df' : DataFile) : Prop := {
  od_wf : df_wf df';
  od_params : same_params df df';
  od_chunk c : has_chunk df c → ¬ C c → df_chunk df' c = df_chunk df c;
  od_meta k : has_kv df k → ¬ K k → df_meta df' k = df_meta df k;
  od_header : take (Z.to_nat HEADER_SIZE) (f_data (df_file df')) =
              take (Z.to_nat HEADER_SIZE) (f_data (df_file df)) }.

Lemma same_params_fields df df' :
  same_params df df' →
  df_chunkIdxStart df' = df_chunkIdxStart df ∧ df_chunkIdxLen df' = df_chunkIdxLen df ∧
  df_encodeType df' = df_encodeType df ∧ df_maxKvSize df' = df_maxKvSize df ∧
  df_chunkSize df' = df_chunkSize df ∧ df_metaSize df' = df_metaSize df ∧
  df_miner df' = df_miner df.
Proof. by rw /same_params => <-. Qed.

Lemma only_differ_refl C K df : df_wf df → only_differ C K df df.
Proof. intros. constructor; auto. by destruct df. Qed.

Lemma only_differ_has C K df df' :
  only_differ C K df df' →
  (∀ c, has_chunk df' c ↔ has_chunk df c) ∧ (∀ k, has_kv df' k ↔ has_kv df k).
Proof.
  intros [_ Hp _ _ _].
  destruct (same_params_fields _ _ Hp) as (E1 & E2 & _ & E4 & E5 & _ & _).
  rw /has_chunk /has_kv /kv_start /kv_len /data_size E1 E2 E4 E5. naive_solver.
Qed.

Lemma only_differ_trans C1 K1 C2 K2 df1 df2 df3 :
  only_differ C1 K1 df1 df2 → only_differ C2 K2 df2 df3 →
  only_differ (λ c, C1 c ∨ C2 c) (λ k, K1 k ∨ K2 k) df1 df3.
Proof.
  intros H12 H23. destruct (only_differ_has _ _ _ _ H12) as [Hc Hk].
  destruct H12 as [? P1 A1 B1 D1], H23 as [? P2 A2 B2 D2]. constructor.
  - done.
  - rw /same_params in P1 P2 *. by rw -P2 -P1.
  - intros c Hcc Hn. rw A2; [by apply Hc|tauto|]. apply A1; tauto.
  - intros k Hkk Hn. rw B2; [by apply Hk|tauto|]. apply B1; tauto.
  - by rw D2 D1.
Qed.

Lemma only_differ_weaken C K (C' K' : Z → Prop) df df' :
  (∀ c, C c → C' c) → (∀ k, K k → K' k) →
  only_differ C K df df' → only_differ C' K' df df'.
Proof. intros HC HK [????]. constructor; eauto. Qed.

Section wf_writes.
Context (df : DataFile) (Hwf : df_wf df).

Lemma set_data_wf d :
  length d = length (f_data (df_file df)) → df_wf (set_file df (mkFile d false)).
Proof using Hwf.
  intros Hd. destruct Hwf. constructor; simpl; try done. rw /zlen Hd //.
Qed.

Lemma take_split n (l : bytes) m :
  (m ≤ n)%nat → take n l = take m l ++ take (n - m) (drop m l).
Proof using.
  clear. intros. rw -{1}(take_drop m (take n l)) take_take skipn_firstn_comm.
  do 2 f_equal. lia.
Qed.

Lemma go_copy_region off (d d' b : bytes) n :
  (length b ≤ n)%nat → (off + n ≤ length d)%nat →
  take (length b) (drop off d') = b →
  (∀ p m, (off + length b ≤ p)%nat → (p + m ≤ length d)%nat →
          take m (drop p d') = take m (drop p d)) →
  take n (drop off d') = go_copy (take n (drop off d)) b.
Proof using.
  clear. intros Hb Hn Hsame Hdis. rw (take_split n (drop off d') (length b)) //.
  rw Hsame /go_copy drop_drop Hdis; [lia..|]. rw (take_ge b).
  { rw length_take length_drop. lia. }
  f_equal. rw skipn_firstn_comm drop_drop. done.
Qed.

Lemma Write_wf c b :
  has_chunk df c → zlen b ≤ df_chunkSize df →
  ∃ df', Write c b df = (Ret tt, df')
    ∧ df_chunk df' c = go_copy (df_chunk df c) b
    ∧ only_differ (λ c', c' = c) (λ _, False) df df'.
Proof using Hwf.
  intros Hc Hb. pose proof (wf_bounds df Hwf) as HB.
  destruct (chunk_offset_wf df Hwf c Hc) as (Ho & H1 & H2).
  pose proof (zlen_nonneg b) as Hb0.
  rw /Write (proj2 (Contains_wf df Hwf c) Hc) /= int64_small; [rw /two63 in HB *; lia|].
  rw (proj2 (Z.ltb_ge _ _)); [lia|]. rw Ho.
  destruct (WriteAt_inside (df_file df) b
              (HEADER_SIZE + (c - df_chunkIdxStart df) * df_chunkSize df))
    as (d & HW & Hlen & Hsame & Hdis); [apply Hwf|rw /HEADER_SIZE; lia|lia|].
  rw HW. eexists. split; [done|].
  rw /zlen /HEADER_SIZE in HB Hb H1 H2 Hsame Hdis *. split.
  { rw /df_chunk /= /HEADER_SIZE. apply go_copy_region; [lia..|done|]. intros. apply Hdis; lia. }
  constructor; simpl.
  - by apply set_data_wf.
  - done.
  - intros c' Hc' Hne. destruct (chunk_offset_wf df Hwf c' Hc') as (_ & H1' & H2').
    rw /df_chunk /= /HEADER_SIZE. apply Hdis; [|lia].
    destruct (decide (c' < c)).
    + left. have ? : (c' - df_chunkIdxStart df) * df_chunkSize df + df_chunkSize df
                    ≤ (c - df_chunkIdxStart df) * df_chunkSize df by nia. lia.
    + right. have ? : (c - df_chunkIdxStart df) * df_chunkSize df + df_chunkSize df
                    ≤ (c' - df_chunkIdxStart df) * df_chunkSize df by nia. lia.
  - intros k Hk _. destruct (meta_offset_wf df Hwf k Hk) as (_ & H3).
    rw /has_kv in Hk. rw /df_meta /= /HEADER_SIZE.
    pose proof (kv_start_bounds df Hwf). apply Hdis; [right|]; lia.
  - rw /HEADER_SIZE -{1}(drop_0 d) -{1}(drop_0 (f_data (df_file df))). apply Hdis; [left|]; lia.
Qed.

Lemma WriteMeta_wf k b :
  has_kv df k → zlen b ≤ 32 →
  ∃ df', WriteMeta k b df = (Ret tt, df')
    ∧ df_meta df' k = go_copy (df_meta df k) b
    ∧ only_differ (λ _, False) (λ k', k' = k) df df'.
Proof using Hwf.
  intros Hk Hb. pose proof (wf_bounds df Hwf) as HB. pose proof (kv_start_bounds df Hwf) as HS.
  destruct (meta_offset_wf df Hwf k Hk) as (Ho & H1). rw /has_kv in Hk.
  pose proof (zlen_nonneg b) as Hb0.
  rw /WriteMeta ContainsKv_wf //; [lia|]. rw (proj2 (Z.leb_le _ _)); [lia|].
  rw (proj2 (Z.ltb_lt _ _)) /=; [lia|]. rw (wf_meta _ Hwf) (proj2 (Z.ltb_ge _ _)); [rw int64_small; rw /two63; lia|].
  rw KvIdxStart_wf // Ho.
  destruct (WriteAt_inside (df_file df) b (HEADER_SIZE + data_size df + (k - kv_start df) * 32))
    as (d & HW & Hlen & Hsame & Hdis); [apply Hwf|rw /HEADER_SIZE; lia|lia|].
  rw HW. eexists. split; [done|].
  rw /zlen /HEADER_SIZE in HB Hb H1 Hsame Hdis *. split.
  { apply (go_copy_region (Z.to_nat (4096 + data_size df + (k - kv_start df) * 32))
             (f_data (df_file df)) d b 32%nat); [lia..|done|]. intros. apply Hdis; lia. }
  constructor; simpl.
  - by apply set_data_wf.
  - done.
  - intros c' Hc' _. destruct (chunk_offset_wf df Hwf c' Hc') as (_ & H1' & H2').
    rw /df_chunk /= /HEADER_SIZE. apply Hdis; lia.
  - intros k' Hk' Hne. destruct (meta_offset_wf df Hwf k' Hk') as (_ & H3).
    rw /has_kv in Hk'. rw /df_meta /= /HEADER_SIZE.
    change (take 32 (drop (Z.to_nat (4096 + data_size df + (k' - kv_start df) * 32)) d) =
            take 32 (drop (Z.to_nat (4096 + data_size df + (k' - kv_start df) * 32))
                       (f_data (df_file df)))).
    apply Hdis; [|lia]. destruct (decide (k' < k)); [left|right]; lia.
  - rw /HEADER_SIZE -{1}(drop_0 d) -{1}(drop_0 (f_data (df_file df))). apply Hdis; [left|]; lia.
Qed.
End wf_writes.

(** ** The header codec *)

Lemma read_u64_cons x rest :
  is_u64 x → read_u64 (be_encode 8 x ++ rest) = (Ret x, rest).
Proof.
  intros Hx. pose proof (length_be_encode 8 x ltac:(lia)) as Hl. rw /zlen in Hl.
  rw /read_u64 (proj2 (Nat.ltb_ge _ _)).
  { rw length_app. lia. }
  rw take_app_length'; [lia|]. rw drop_app_length'; [lia|].
  rw be_decode_encode //.
Qed.

Lemma read_address_cons m rest :
  length m = 20%nat → read_address (m ++ rest) = (Ret m, rest).
Proof.
  intros Hm. rw /read_address take_app_length' // drop_app_length' // Hm //.
Qed.

Definition header_wf (h : DataFileHeader) : Prop :=
  is_u64 (h_magic h) ∧ is_u64 (h_version h) ∧ is_u64 (h_chunkIdxStart h) ∧
  is_u64 (h_chunkIdxLen h) ∧ is_u64 (h_encodeType h) ∧ is_u64 (h_maxKvSize h) ∧
  is_u64 (h_chunkSize h) ∧ is_u64 (h_metaSize h) ∧ length (h_miner h) = 20%nat ∧
  is_u64 (h_status h).

Lemma parse_header_bytes h rest :
  header_wf h → parse_header (header_bytes h ++ rest) = (Ret h, rest).
Proof.
  destruct h. rw /header_wf /= => Hh. destruct_and! Hh.
  rw /parse_header /header_bytes /= -!app_assoc /mbind /st_bind.
  repeat (rw read_u64_cons //; []). rw read_address_cons // read_u64_cons //.
Qed.

Lemma length_header_bytes h : length (h_miner h) = 20%nat → length (header_bytes h) = 92%nat.
Proof.
  intros Hm. rw /header_bytes !length_app Hm.
  have E x : length (be_encode 8 x) = 8%nat.
  { pose proof (length_be_encode 8 x ltac:(lia)) as H. rw /zlen in H. lia. }
  by rw !E.
Qed.

(** [readHeader] recovers the fields from a file that starts with them. *)
Lemma readHeader_written df0 df rest :
  f_closed (df_file df) = false → header_wf (header_of df) → df_encodeType df ≤ ENCODE_END →
  HEADER_SIZE ≤ zlen (f_data (df_file df)) → df_file df0 = df_file df →
  f_data (df_file df) = header_bytes (header_of df) ++ rest →
  readHeader df0 = Ret df.
Proof.
  intros Ho Hh He Hl Hf Hd. rw /readHeader Hf ReadAt_inside //. rw Z.eqb_refl drop_0 /=.
  have Hm : length (df_miner df) = 20%nat by apply Hh.
  rw Hd take_app_ge; [rw length_header_bytes // /HEADER_SIZE; lia|].
  rw parse_header_bytes //= (proj2 (Z.ltb_ge _ _)) //. by destruct df.
Qed.

Lemma writeHeader_file df :
  f_closed (df_file df) = false → length (df_miner df) = 20%nat →
  HEADER_SIZE ≤ zlen (f_data (df_file df)) →
  ∃ rest, writeHeader df =
            (Ret tt, set_file df (mkFile (header_bytes (header_of df) ++ rest) false))
    ∧ length (header_bytes (header_of df) ++ rest) = length (f_data (df_file df)).
Proof.
  intros Ho Hm Hl. pose proof (length_header_bytes (header_of df) Hm) as Hh.
  destruct (WriteAt_inside (df_file df) (header_bytes (header_of df)) 0)
    as (d & HW & Hd & Hsame & _); [done..|rw /zlen /HEADER_SIZE in Hl *; rw Hh; lia|].
  rw drop_0 in Hsame. exists (drop (length (header_bytes (header_of df))) d).
  have -> : header_bytes (header_of df) ++ drop (length (header_bytes (header_of df))) d = d.
  { by rw -{1}Hsame take_drop. }
  by rw /writeHeader HW.
Qed.

(** What [fallocate.Fallocate(file, off, len)] promises: on success the open
    file has at least [off + len] bytes, its old bytes first. *)
Definition fallocate_ok (fallocate : file → Z → Z → gores file) : Prop :=
  ∀ f off len f', 0 ≤ off → 0 < len → f_closed f = false → fallocate f off len = Ret f' →
    f_closed f' = false ∧ off + len ≤ zlen (f_data f') ∧
    take (length (f_data f)) (f_data f') = f_data f.

(** Sizes and indices that stay within the range of [int64]. *)
Definition sizes_ok (chunkIdxStart chunkIdxLen maxKvSize chunkSize : Z) : Prop :=
  0 ≤ chunkIdxStart ∧ 0 ≤ chunkIdxLen ∧ 0 ≤ chunkSize < two63 ∧ 0 ≤ maxKvSize < two63 ∧
  (chunkIdxStart + chunkIdxLen) * chunkSize < two63 ∧
  HEADER_SIZE + (chunkSize + 32) * chunkIdxLen < two63.

Lemma Create_facts fallocate perm start len epoch maxKv enc miner chunkSize df :
  fallocate_ok fallocate → sizes_ok start len maxKv chunkSize →
  0 ≤ enc ≤ ENCODE_END → length miner = 20%nat →
  Create fallocate perm start len epoch maxKv enc miner chunkSize = Ret df →
  df_wf df ∧ OpenDataFile (Ret (df_file df)) = Ret df ∧
  df = mkDataFile (df_file df) start len enc maxKv chunkSize 32 miner ∧
  chunkSize ≤ maxKv ∧ (len * chunkSize) mod maxKv = 0 ∧ (start * chunkSize) mod maxKv = 0.
Proof.
  intros Hfa Hsz Henc Hm. rw /sizes_ok in Hsz. rw /Create.
  case: Z.ltb_spec => // Hle. rw /mul64 (wrap64_small (len * chunkSize)); [rw /two63 /two64 in Hsz *; nia|].
  have Hst : 0 ≤ start * chunkSize < two63 by nia.
  rw (wrap64_small (start * chunkSize)); [rw /two63 /two64 in Hst *; lia|].
  rw /umod. case: Z.eqb_spec => //= Hkv. case: Z.eqb_spec => //= Hm1. case: Z.eqb_spec => //= Hm2.
  destruct (isPow2n chunkSize) eqn:Hp => //=. destruct (isPow2n maxKv) => //=.
  destruct (isPow2n_log2 chunkSize) as [_ Hpos]; [rw /is_u64 /two64; rw /two63 in Hsz; lia|done|].
  destruct perm => //=. rw /add64 (wrap64_small (chunkSize + 32)); [rw /two63 /two64 in Hsz *; lia|].
  rw (wrap64_small ((chunkSize + 32) * len)); [rw /two63 /two64 /HEADER_SIZE in Hsz *; nia|].
  rw int64_small; [rw /two63 /HEADER_SIZE in Hsz *; nia|].
  destruct (fallocate _ _ _) as [f| |] eqn:Hf => //=.
  apply Hfa in Hf as (Ho & Hlen & _); [|nia|done..].
  destruct (writeHeader_file (mkDataFile f start len enc maxKv chunkSize 32 miner))
    as (rest & HW & Hl); [done|done|simpl; nia|].
  rw HW. intros [= <-].
  have Hlen' : HEADER_SIZE + (chunkSize + 32) * len ≤ zlen (header_bytes (header_of (mkDataFile f start len enc maxKv chunkSize 32 miner)) ++ rest).
  { rw /zlen Hl /=. rw /zlen in Hlen. lia. }
  split; [constructor; simpl; try done; rw ?/alloc_size /=; lia|].
  split; [|done]. rw /OpenDataFile /=. eapply readHeader_written; [done| |apply Henc|simpl in *; nia|done|done].
  rw /header_wf /is_u64 /=. rw /two63 /two64 in Hsz *. rw /ENCODE_END /ENCODE_BLOB_POSEIDON in Henc.
  split_and!; try done; try lia; nia.
Qed.

(** It succeeds when the parameters fit and the system allocates the file. *)
Lemma Create_succeeds fallocate start len epoch maxKv enc miner chunkSize :
  (∀ f off l, ∃ f', fallocate f off l = Ret f') → sizes_ok start len maxKv chunkSize →
  chunkSize ≤ maxKv → maxKv ≠ 0 → (len * chunkSize) mod maxKv = 0 → (start * chunkSize) mod maxKv = 0 →
  isPow2n chunkSize = true → isPow2n maxKv = true →
  ∃ df, Create fallocate true start len epoch maxKv enc miner chunkSize = Ret df.
Proof.
  intros Hfa Hsz Hle Hkv Hm1 Hm2 Hp1 Hp2. rw /sizes_ok in Hsz. rw /Create (proj2 (Z.ltb_ge _ _)) //.
  have Hst : 0 ≤ start * chunkSize < two63 by nia.
  rw /mul64 (wrap64_small (len * chunkSize)); [rw /two63 /two64 in Hsz *; nia|].
  rw (wrap64_small (start * chunkSize)); [rw /two63 /two64 in Hst *; lia|].
  rw /umod (proj2 (Z.eqb_neq maxKv 0)) //= Hm1 Hm2 Hp1 Hp2 /=.
  destruct (Hfa (mkFile [] false) (int64 (wrap64 (add64 chunkSize 32 * len))) HEADER_SIZE) as [f ->]. cbn [mbind gores_bind].
  destruct (writeHeader _) as [[]] eqn:E; try (by eexists). move: E. rw /writeHeader. by repeat case_match.
Qed.

(** A data file that [Create] returns is well formed, carries the
    requested parameters, and opening the file it wrote gives back the same
    data file. *)
Theorem Create_OpenDataFile fallocate perm start len epoch maxKv enc miner chunkSize df :
  fallocate_ok fallocate → sizes_ok start len maxKv chunkSize →
  0 ≤ enc ≤ ENCODE_END → length miner = 20%nat →
  Create fallocate perm start len epoch maxKv enc miner chunkSize = Ret df →
  df_wf df ∧ OpenDataFile (Ret (df_file df)) = Ret df ∧
  df = mkDataFile (df_file df) start len enc maxKv chunkSize 32 miner ∧
  chunkSize ≤ maxKv ∧ (len * chunkSize) mod maxKv = 0 ∧ (start * chunkSize) mod maxKv = 0.
Proof. apply Create_facts. Qed.

(** ** Chunks, records and samples of a well-formed file *)

(** [Write] on a well-formed data file.  A chunk index outside the file and
    data longer than a chunk are refused and change nothing; otherwise the data
    can be read back, the rest of the chunk, every other chunk, every metadata
    record and the header are as before, and the file stays well formed. *)
Theorem Write_spec df c b :
  df_wf df →
  (¬ has_chunk df c → Write c b df = (Fail (ErrMsg "chunk not found"), df)) ∧
  (has_chunk df c → df_chunkSize df < zlen b →
     Write c b df = (Fail (ErrMsg "write data too large"), df)) ∧
  (has_chunk df c → zlen b ≤ df_chunkSize df →
     ∃ df', Write c b df = (Ret tt, df') ∧ Read df' c (zlen b) = Ret b ∧
       Read df' c (df_chunkSize df) = Ret (go_copy (df_chunk df c) b) ∧
       only_differ (λ c', c' = c) (λ _, False) df df').
Proof.
  intros Hwf. pose proof (Contains_wf df Hwf c) as HC. pose proof (wf_bounds df Hwf) as HB.
  split_and!.
  - intros Hn. rw /Write. by destruct (Contains df c); [destruct Hn; apply HC|].
  - intros Hc Hl. rw /Write (proj2 HC Hc) /= int64_small; [rw /two63 in HB *; lia|].
    by rw (proj2 (Z.ltb_lt _ _)).
  - intros Hc Hl. destruct (Write_wf df Hwf c b Hc Hl) as (df' & HW & Hch & Hod).
    destruct (same_params_fields _ _ (od_params _ _ _ _ Hod)) as (_&_&_&_&Ecs&_&_).
    pose proof (proj2 (proj1 (only_differ_has _ _ _ _ Hod) c) Hc) as Hc'.
    pose proof (zlen_df_chunk df Hwf c Hc) as Hlc. rw /zlen in Hl Hlc.
    exists df'. split_and!; [done| | |done].
    + rw (Read_wf df' (od_wf _ _ _ _ Hod) c) //; [rw Ecs /zlen; lia|].
      rw Hch /go_copy /zlen Nat2Z.id take_app_le; [rw length_take; lia|].
      by rw take_take Nat.min_l ?take_ge; [lia..|].
    + rw -Ecs (Read_wf df' (od_wf _ _ _ _ Hod) c) //; [rw Ecs; lia|].
      rw Hch Ecs take_ge // length_go_copy. lia.
Qed.

(** [WriteMeta] on a well-formed data file: an unknown KV and an oversized
    record are refused and change nothing; otherwise a 32-byte record can be
    read back, every chunk, every other record and the header are as before,
    and the file stays well formed. *)
Theorem WriteMeta_spec df k b :
  df_wf df → 0 ≤ k →
  (¬ has_kv df k → WriteMeta k b df = (Fail (ErrMsg "kv not found"), df) ∧
                   ReadMeta df k = Fail (ErrMsg "kv not found")) ∧
  (has_kv df k → 32 < zlen b →
     WriteMeta k b df = (Fail (ErrMsg "write meta too large"), df)) ∧
  (has_kv df k → zlen b ≤ 32 →
     ∃ df', WriteMeta k b df = (Ret tt, df') ∧
       ReadMeta df' k = Ret (go_copy (df_meta df k) b, None) ∧
       (zlen b = 32 → ReadMeta df' k = Ret (b, None)) ∧
       only_differ (λ _, False) (λ k', k' = k) df df').
Proof.
  intros Hwf Hk. split_and!.
  - intros Hn. split; [|by apply ReadMeta_missing].
    rw /WriteMeta ContainsKv_wf //. rw /has_kv in Hn.
    case: Z.leb_spec => ?; case: Z.ltb_spec => ? //=; lia.
  - intros Hkv Hl. rw /has_kv in Hkv. rw /WriteMeta ContainsKv_wf // (wf_meta _ Hwf).
    change (int64 32) with 32. rw (proj2 (Z.leb_le _ _)); [lia|].
    by rw !(proj2 (Z.ltb_lt _ _)); [lia..|].
  - intros Hkv Hl. destruct (WriteMeta_wf df Hwf k b Hkv Hl) as (df' & HW & Hme & Hod).
    pose proof (proj2 (proj2 (only_differ_has _ _ _ _ Hod) k) Hkv) as Hk'.
    pose proof (zlen_df_meta df Hwf k Hkv) as Hlm.
    have HR : ReadMeta df' k = Ret (go_copy (df_meta df k) b, None).
    { rw (ReadMeta_wf df' (od_wf _ _ _ _ Hod) k) // Hme //. }
    exists df'. split_and!; [done..| |done]. intros Hb.
    rw HR go_copy_full //. rw /zlen in Hb Hlm. lia.
Qed.

Lemma sample_in_chunk s cs q :
  0 < cs → cs = 32 * q → 0 ≤ s →
  (s * 32) mod cs + 32 ≤ cs ∧ s * 32 = (s * 32 / cs) * cs + (s * 32) mod cs.
Proof.
  intros Hp Hq Hs. subst cs.
  rw (Z.mul_comm s 32) Z.mul_mod_distr_l; [lia..|].
  rw Z.div_mul_cancel_l; [lia..|].
  have ? := Z.mod_pos_bound s q ltac:(lia). have ? := Z.div_mod s q ltac:(lia).
  split; nia.
Qed.

Lemma shl_sample s : 0 ≤ s → s * 32 < two63 → shl64 s SampleSizeBits = s * 32.
Proof.
  intros ? Hs. rw /shl64 Z.shiftl_mul_pow2 //. change (2 ^ SampleSizeBits) with 32.
  rw wrap64_small //. rw /two63 /two64 in Hs *. lia.
Qed.

(** [ReadSample] returns the 32 bytes at the sample's place in its chunk,
    for every sample of the file, and refuses the others. *)
Theorem ReadSample_spec `{GethLaws} df s q :
  df_wf df → df_chunkSize df = 32 * q → 0 ≤ s → HEADER_SIZE + s * 32 < two63 →
  let c := s * 32 / df_chunkSize df in
  let off := Z.to_nat ((s * 32) mod df_chunkSize df) in
  (has_chunk df c → ReadSample df s = Ret (take 32 (drop off (df_chunk df c)))) ∧
  (¬ has_chunk df c → ReadSample df s = Fail (ErrMsg "sample not found")).
Proof.
  intros Hwf Hq Hs Hs63 c off. pose proof (wf_bounds df Hwf) as HB.
  destruct (sample_in_chunk s (df_chunkSize df) q) as [Hin Heq]; [lia..|].
  have HC : ContainsSample df s = Ret (Contains df c).
  { rw /ContainsSample shl_sample // ?udiv_nz //; [rw /HEADER_SIZE in Hs63|]; lia. }
  rw /ReadSample HC /=. pose proof (Contains_wf df Hwf c) as HCw. split; intros Hc.
  - rw (proj2 HCw Hc) /=. destruct (chunk_offset_wf df Hwf c Hc) as (_ & H1 & H2).
    have Hm := Z.mod_pos_bound (s * 32) (df_chunkSize df) ltac:(lia).
    rw shl_sample // /mul64; [rw /HEADER_SIZE in Hs63; lia|]. rw /two63 /HEADER_SIZE in HB Hs63 *.
    fold c in Heq. unwrap. change (Z.shiftl 1 SampleSizeBits) with 32.
    have -> : 4096 + s * 32 - df_chunkIdxStart df * df_chunkSize df =
      4096 + (c - df_chunkIdxStart df) * df_chunkSize df + (s * 32) mod df_chunkSize df by lia.
    rw ReadAt_inside; [apply Hwf|lia..|]. rw /zlen in HB.
    simpl. rw BytesToHash_pad length_take length_drop Nat.min_l; [lia..|].
    rw /df_chunk skipn_firstn_comm drop_drop take_take /HEADER_SIZE Nat.min_l; [rw /off; lia|].
    f_equal. change (replicate (32 - Z.to_nat 32) 0) with (@nil Z). rw app_nil_l.
    f_equal. f_equal. rw /off. lia.
  - by destruct (Contains df c); [destruct Hc; apply HCw|].
Qed.

(** ** A concrete data file *)

Definition toy_fallocate (f : file) (off len : Z) : gores file :=
  Ret (mkFile (f_data f ++ zeros (off + len - zlen (f_data f))) (f_closed f)).

Lemma toy_fallocate_ok : fallocate_ok toy_fallocate.
Proof.
  intros f off len f' ??? [= <-]. split_and!; [done| |by rw take_app_length].
  rw /zlen length_app /zeros length_replicate /zlen. lia.
Qed.

(** Four chunks of 64 bytes from chunk 4 on, two chunks per KV. *)
Definition ex_df : DataFile :=
  from_ret (mkDataFile (mkFile [] true) 0 0 0 0 0 0 [])
    (Create toy_fallocate true 4 4 0 128 ENCODE_BLOB_POSEIDON (replicate 20 7) 64).

Lemma ex_df_created :
  Create toy_fallocate true 4 4 0 128 ENCODE_BLOB_POSEIDON (replicate 20 7) 64 = Ret ex_df.
Proof. by vm_compute. Qed.

Lemma ex_df_wf : df_wf ex_df.
Proof. constructor; by vm_compute. Qed.

Lemma Create_OpenDataFile_witness : df_wf ex_df ∧ OpenDataFile (Ret (df_file ex_df)) = Ret ex_df.
Proof.
  destruct (Create_OpenDataFile toy_fallocate true 4 4 0 128 ENCODE_BLOB_POSEIDON
              (replicate 20 7) 64 ex_df toy_fallocate_ok) as (H1 & H2 & _).
  - by vm_compute.
  - done.
  - done.
  - exact ex_df_created.
  - by split.
Defined.

Lemma Write_spec_witness :
  ∃ df', Write 5 [1; 2; 3] ex_df = (Ret tt, df') ∧ Read df' 5 3 = Ret [1; 2; 3].
Proof.
  destruct (Write_spec ex_df 5 [1; 2; 3] ex_df_wf) as (_ & _ & H).
  destruct H as (df' & H1 & H2 & _); [by vm_compute..|]. by exists df'.
Defined.

Lemma WriteMeta_spec_witness :
  ∃ df', WriteMeta 3 (zeros 32) ex_df = (Ret tt, df') ∧ ReadMeta df' 3 = Ret (zeros 32, None).
Proof.
  destruct (WriteMeta_spec ex_df 3 (zeros 32) ex_df_wf) as (_ & _ & H); [lia|].
  destruct H as (df' & H1 & _ & H2 & _); [by vm_compute..|]. exists df'. by auto.
Defined.

Lemma ReadSample_spec_witness : ReadSample ex_df 9 = Ret (take 32 (drop 32 (df_chunk ex_df 4))).
Proof.
  destruct (ReadSample_spec ex_df 9 2 ex_df_wf) as [H _]; [by vm_compute..|].
  apply H. by vm_compute.
Defined.
