(* ===== verification/ChunkCodec.v ===== *)
(** * Encoding of chunks (encoder/encoder.go, data_shard.go, storage_manager.go)

    The masks a storage provider applies to a chunk: the encode key derived from
    the commit, the provider and the chunk index, the four encode types, and the
    comparison of commits. *)

From S2P Require Import Prelude Extern EthashSizes Ethash DataFile.

Definition HashSizeInContract : Z := 24.
Definition blobFillingMask : Z := 0x80.

(** ** encoder.Encode: the Poseidon mask *)

Definition encoder_Encode `{Geth} (hash : bytes) (size : Z) : gores bytes :=
  if negb (Z.rem size 64 =? 0) then Fail (ErrMsg "size must be a multiple of 64")
  else
    let k := be_decode hash mod constants_Q in
    (* the error of HashState is dropped: a nil state is indexed *)
    elements ← foldM (λ es i,
        match PoseidonHashState (k + i) (k + (i + 1)) with
        | Some (h0, h1) => Ret (es ++ [h0; h1])
        | None => Panic OutOfRange
        end) [] (seqZ 0 (Z.quot size 64));
    pol ← FrFFT elements;
    mret (pol ≫= FrBytes).

(** ** Encode keys *)

(** The bytes [bb] that are hashed: only the first 24 bytes of the commit count. *)
Definition encode_key_input `{Geth} (commit : bytes) (chunkIdx : Z) (miner : bytes) : bytes :=
  let c := go_copy (zeros 32) (take 24 commit) in
  c ++ BytesToHash miner ++ BigToHash (int64 chunkIdx).

Definition calcEncodeKey `{Geth} (commit : bytes) (chunkIdx : Z) (miner : bytes) : bytes :=
  Keccak256Hash (encode_key_input commit chunkIdx miner).

Definition CalcEncodeKey `{Geth} (commit : bytes) (chunkIdx : Z) (miner : bytes) : bytes :=
  calcEncodeKey commit chunkIdx miner.

(** ** Chunks *)

(** The loop of [ENCODE_KECCAK_256]: the key repeated along the chunk. *)
Fixpoint xor_cycle (encodeKey : bytes) (j : nat) (bs : bytes) : bytes :=
  match bs with
  | [] => []
  | b :: bs =>
      Z.lxor b (encodeKey !!! j) ::
      xor_cycle encodeKey (if (length encodeKey <=? j + 1)%nat then 0%nat else (j + 1)%nat) bs
  end.

Definition encodeChunk `{Geth} (chunkSize : Z) (bs : bytes) (encodeType : Z) (encodeKey : bytes)
    : gores bytes :=
  if int64 chunkSize <? zlen bs then Panic (Explicit "cannot encode chunk with size > CHUNK_SIZE")
  else if encodeType =? ENCODE_KECCAK_256 then
    Ret (xor_cycle encodeKey 0 (go_copy (zeros chunkSize) bs))
  else if encodeType =? NO_ENCODE then
    Ret (go_copy (zeros chunkSize) bs)
  else if encodeType =? ENCODE_BLOB_POSEIDON then
    mask ← catch (encoder_Encode encodeKey (int64 chunkSize));
    MaskDataInPlace (match mask with inr m => m | inl _ => [] end) bs
  else if encodeType =? ENCODE_ETHASH then
    mask ← GetMaskData 0 encodeKey (int64 chunkSize) [];
    MaskDataInPlace mask bs
  else Panic (Explicit "unsupported encode type").

Definition decodeChunk `{Geth} (chunkSize : Z) (bs : bytes) (encodeType : Z) (encodeKey : bytes)
    : gores bytes :=
  if int64 chunkSize <? zlen bs then Panic (Explicit "cannot decode chunk with size > CHUNK_SIZE")
  else if encodeType =? ENCODE_KECCAK_256 then
    Ret (xor_cycle encodeKey 0 bs)
  else if encodeType =? NO_ENCODE then
    Ret (go_copy (zeros (zlen bs)) bs)
  else if encodeType =? ENCODE_BLOB_POSEIDON then
    mask ← catch (encoder_Encode encodeKey (int64 chunkSize));
    UnmaskDataInPlace bs (match mask with inr m => m | inl _ => [] end)
  else if encodeType =? ENCODE_ETHASH then
    mask ← GetMaskData 0 encodeKey (zlen bs) [];
    UnmaskDataInPlace bs mask
  else Panic (Explicit "unsupported encode type").

Definition EncodeChunk `{Geth} := encodeChunk.
Definition DecodeChunk `{Geth} := decodeChunk.

Definition IsValidEncodeType (encodeType : Z) : bool :=
  (encodeType =? ENCODE_KECCAK_256) || (encodeType =? NO_ENCODE) || (encodeType =? ENCODE_ETHASH).

(** ** Commits *)

Definition CompareCommits (expected found : bytes) : gores unit :=
  if zlen expected <? HashSizeInContract
  then Fail (ErrCommitMismatch [] [] "invalid length of commit")
  else if zlen found <? HashSizeInContract
  then Fail (ErrCommitMismatch [] [] "invalid length of commit")
  else if decide (take 24 expected = take 24 found) then Ret tt
  else Fail (ErrCommitMismatch (take 24 expected) (take 24 found) "").

Definition EmptyBlobCommit : bytes := zeros HashSizeInContract.

(** The size of [kzg4844.Blob]. *)
Definition blob_size : Z := 131072.

Definition checkCommit `{Geth} (commit blobData : bytes) : gores unit :=
  if decide (take 24 commit = EmptyBlobCommit) then
    if forallb (λ b, b =? 0) blobData then Ret tt
    else Fail (ErrMsg "empty commit but blob is not empty")
  else
    match BlobVersionedHash (go_copy (zeros blob_size) blobData) with
    | Panic p => Panic p
    | Fail _ => Fail (ErrMsg "could not convert blob to commitment")
    | Ret versionedHash => CompareCommits commit versionedHash
    end.

(** ** Masks *)

(** The data of a chunk: the bytes and zeros up to the chunk size. *)
Definition padded (n : Z) (b : bytes) : bytes := go_copy (zeros n) b.

Lemma length_padded n b : length (padded n b) = Z.to_nat n.
Proof. by rw /padded length_go_copy /zeros length_replicate. Qed.

Lemma xor_bytes_zeros a n : (length a ≤ n)%nat → xor_bytes a (replicate n 0) = a.
Proof.
  rw /xor_bytes. revert n. induction a as [|x a IH]; intros [|n]; simpl; [done..|lia|].
  intros. by rw Z.lxor_0_r IH; [lia|].
Qed.

Lemma take_xor_bytes n a b : take n (xor_bytes a b) = xor_bytes (take n a) (take n b).
Proof.
  rw /xor_bytes. revert a b. induction n as [|n IH]; intros [|x a] [|y b]; simpl; try done.
  by rw IH.
Qed.

Lemma xor_bytes_app a b c d :
  length a = length c → xor_bytes (a ++ b) (c ++ d) = xor_bytes a c ++ xor_bytes b d.
Proof. intros. by apply zip_with_app. Qed.

Lemma xor_prefix_padded mask b :
  (length b ≤ length mask)%nat →
  xor_prefix mask b = xor_bytes mask (padded (zlen mask) b).
Proof.
  intros Hb. rw /xor_prefix /padded go_copy_zeros; [rw /zlen; lia|].
  rw -{3}(take_drop (length b) mask) xor_bytes_app; [rw length_take; lia|].
  f_equal. rw /zeros xor_bytes_zeros // length_drop /zlen. lia.
Qed.

Lemma MaskDataInPlace_ok mask b :
  (length b ≤ length mask)%nat →
  MaskDataInPlace mask b = Ret (xor_bytes mask (padded (zlen mask) b)).
Proof.
  intros Hb. rw /MaskDataInPlace (proj2 (Z.ltb_ge _ _)); [rw /zlen; lia|].
  by rw xor_prefix_padded.
Qed.

(** Unmasking [n] bytes of a masked chunk with a mask that agrees on them. *)
Lemma UnmaskDataInPlace_ok mask mask' b n :
  (length b ≤ length mask)%nat → (n ≤ length mask)%nat → (n ≤ length mask')%nat →
  take n mask' = take n mask →
  UnmaskDataInPlace (take n (xor_bytes mask (padded (zlen mask) b))) mask' =
    Ret (take n (padded (zlen mask) b)).
Proof.
  intros Hb Hn Hn' Hm. set (u := take n _).
  have Hu : length u = n.
  { rw /u length_take length_xor_bytes length_padded /zlen. lia. }
  rw /UnmaskDataInPlace (proj2 (Z.ltb_ge _ _)); [rw /zlen; lia|].
  rw slice_ok; [rw /zlen; lia|rw /zlen /xor_prefix length_app length_xor_bytes length_take length_drop; lia|].
  f_equal. rw /zlen Z.sub_0_r Nat2Z.id drop_0 /xor_prefix take_app_length'.
  { rw length_xor_bytes length_take. lia. }
  rw Hu Hm /u take_xor_bytes xor_bytes_comm (xor_bytes_comm (take n mask)).
  apply xor_bytes_involutive. rw !length_take length_padded /zlen. lia.
Qed.

Lemma take_xor_cycle key n j b : take n (xor_cycle key j b) = xor_cycle key j (take n b).
Proof.
  revert j b. induction n as [|n IH]; intros j [|x b]; simpl; try done. by rw IH.
Qed.

Lemma xor_cycle_involutive key j b : xor_cycle key j (xor_cycle key j b) = b.
Proof.
  revert j. induction b as [|x b IH]; intros j; simpl; [done|].
  by rw IH Z.lxor_assoc Z.lxor_nilpotent Z.lxor_0_r.
Qed.

Lemma length_xor_cycle key j b : length (xor_cycle key j b) = length b.
Proof. revert j. induction b as [|x b IH]; intros j; simpl; [done|]. by rw IH. Qed.

(** When the mask of a chunk exists: the Poseidon mask needs a chunk size that
    is 64 times a power of two and a key whose counters stay inside the field. *)
Definition mask_defined `{Geth} (encodeType : Z) (encodeKey : bytes) (chunkSize : Z) : Prop :=
  0 ≤ encodeType ≤ ENCODE_END ∧
  (encodeType = ENCODE_BLOB_POSEIDON →
     chunkSize = 64 * 2 ^ Z.log2 (chunkSize / 64) ∧ be_decode encodeKey mod constants_Q + chunkSize / 64 < constants_Q).

Lemma encoder_Encode_total `{GethLaws} key size :
  size = 64 * 2 ^ Z.log2 (size / 64) → be_decode key mod constants_Q + size / 64 < constants_Q →
  0 < constants_Q →
  ∃ mask, encoder_Encode key size = Ret mask ∧ zlen mask = size.
Proof.
  intros Hpow Hk HQ. have Hj := Z.log2_nonneg (size / 64). have Hp := Z.pow_pos_nonneg 2 _ eq_refl Hj.
  have Hs : 0 ≤ size by lia. have Hm : size mod 64 = 0 by rw Hpow Z.mul_comm Z.mod_mul.
  rw /encoder_Encode Z.rem_mod_nonneg // Hm /= Z.quot_div_nonneg //.
  set (k := be_decode key mod constants_Q) in *.
  have Hk0 : 0 ≤ k by apply Z.mod_pos_bound.
  have HL n : Z.of_nat n ≤ size / 64 → ∃ es,
    foldM (λ es i, match PoseidonHashState (k + i) (k + (i + 1)) with
                   | Some (h0, h1) => Ret (es ++ [h0; h1])
                   | None => Panic OutOfRange end) [] (seqZ 0 (Z.of_nat n)) = Ret es
    ∧ length es = (2 * n)%nat.
  { induction n as [|n IH]; intros Hn; [by eexists|].
    destruct IH as (es & Hes & Hl); [lia|]. rw seqZ_S foldM_app Hes /= foldM_one.
    destruct (PoseidonHashState_field (k + (0 + Z.of_nat n)) (k + (0 + Z.of_nat n + 1)))
      as [[h0 h1] ->]; [lia..|]. eexists. split; [done|]. rw length_app Hl /=. lia. }
  have Hq : 0 ≤ size / 64 by apply Z.div_pos.
  destruct (HL (Z.to_nat (size / 64))) as (es & Hes & Hl); [lia|].
  rw Z2Nat.id in Hes; [done|]. rw Hes /=.
  have Hq2 : size / 64 = 2 ^ Z.log2 (size / 64) by rw {1}Hpow Z.mul_comm Z.div_mul.
  destruct (FrFFT_pow2 es (S (Z.to_nat (Z.log2 (size / 64))))) as [pol Epol].
  { rw Hl Nat.pow_succ_r'. f_equal. apply Nat2Z.inj. rw Nat2Z.inj_pow !Z2Nat.id //. }
  rw Epol /=. eexists. split; [done|].
  rw /zlen (length_bind_rows _ _ 32).
  { apply Forall_true. intros. apply FrBytes_length. }
  rw (FrFFT_length _ _ Epol) Hl. pose proof (Z.div_mod size 64 ltac:(lia)). lia.
Qed.

Section codec.
Context `{GethLaws} (chunkSize encodeType : Z) (encodeKey : bytes).
Context (Hcs : 0 ≤ chunkSize < two63) (HQ : 0 < constants_Q).
Context (Hmask : mask_defined encodeType encodeKey chunkSize).

(** Encoding returns a whole chunk, and decoding any prefix of it returns the
    same prefix of the padded data. *)
Lemma encode_decode_chunk b :
  zlen b ≤ chunkSize →
  ∃ e, encodeChunk chunkSize b encodeType encodeKey = Ret e ∧ zlen e = chunkSize ∧
    ∀ n, 0 ≤ n ≤ chunkSize →
      decodeChunk chunkSize (take (Z.to_nat n) e) encodeType encodeKey =
        Ret (take (Z.to_nat n) (padded chunkSize b)).
Proof using H Hcs HQ Hmask.
  intros Hb. destruct Hmask as [Het Hpos]. pose proof Hcs as Hcs'.
  rw /encodeChunk /decodeChunk int64_small; [rw /two63 in Hcs' *; lia|].
  rw (proj2 (Z.ltb_ge _ _)) //.
  have Hlen (e : bytes) n : zlen e = chunkSize → 0 ≤ n ≤ chunkSize →
    (chunkSize <? zlen (take (Z.to_nat n) e)) = false ∧ zlen (take (Z.to_nat n) e) = n.
  { rw /zlen length_take => ??. split; [apply Z.ltb_ge|]; lia. }
  have Hp : zlen (padded chunkSize b) = chunkSize by rw /zlen length_padded; lia.
  case: Z.eqb_spec => [_|N1].
  { eexists. split; [done|]. split; [by rw /zlen length_xor_cycle length_padded; lia|].
    intros n Hn. rw (proj1 (Hlen _ n _ Hn)) /=; [by rw /zlen length_xor_cycle length_padded; lia|].
    by rw take_xor_cycle xor_cycle_involutive. }
  case: Z.eqb_spec => [_|N2].
  { eexists. split; [done|]. split; [done|]. intros n Hn. rw (proj1 (Hlen _ n Hp Hn)).
    rw go_copy_full // /zeros length_replicate /zlen. lia. }
  case: Z.eqb_spec => [E3|N3].
  { destruct (Hpos E3) as [Hm64 Hk]. destruct (encoder_Encode_total encodeKey chunkSize)
      as (mask & Hmk & Hml); [done..|].
    rw Hmk /= MaskDataInPlace_ok; [rw /zlen in Hml Hb; lia|]. rw Hml.
    have Hx : zlen (xor_bytes mask (padded chunkSize b)) = chunkSize.
    { rw /zlen length_xor_bytes. rw /zlen in Hml Hp. lia. }
    eexists. split; [done|]. split; [done|]. intros n Hn. rw (proj1 (Hlen _ n Hx Hn)) /=.
    rw -{1}Hml UnmaskDataInPlace_ok // ?Hml //; rw /zlen in Hml Hb; lia. }
  case: Z.eqb_spec => [_|N4]; last first.
  { rw /ENCODE_END /ENCODE_BLOB_POSEIDON /ENCODE_ETHASH /NO_ENCODE /ENCODE_KECCAK_256 in Het N1 N2 N3 N4. lia. }
  destruct (GetMaskData_stream 0 encodeKey chunkSize) as (HM & Hml & Hpre);
    [by rw /maxEpoch; lia|lia|].
  set (mask := take _ (mask_stream _ _ _)) in *. clearbody mask. rw HM /= MaskDataInPlace_ok.
  { rw /zlen in Hml Hb. lia. }
  rw Hml. have Hx : zlen (xor_bytes mask (padded chunkSize b)) = chunkSize.
  { rw /zlen length_xor_bytes. rw /zlen in Hml Hp. lia. }
  eexists. split; [done|]. split; [done|]. intros n Hn.
  destruct (Hlen _ n Hx Hn) as [-> ->]. rw Hpre // -{1}Hml /=.
  rw UnmaskDataInPlace_ok ?take_take ?Nat.min_id ?Hml ?length_take //; rw /zlen in Hml Hb; lia.
Qed.
End codec.

(** C5: for every encode type, encoding a chunk of at most [chunkSize] bytes
    returns [chunkSize] bytes, and decoding any prefix of the encoded chunk with
    the same key returns the same prefix of the data padded with zeros. *)
Theorem encodeChunk_decodeChunk `{GethLaws} chunkSize encodeType encodeKey b :
  0 ≤ chunkSize < two63 → 0 < constants_Q → mask_defined encodeType encodeKey chunkSize →
  zlen b ≤ chunkSize →
  ∃ e, EncodeChunk chunkSize b encodeType encodeKey = Ret e ∧ zlen e = chunkSize ∧
    ∀ n, 0 ≤ n ≤ chunkSize →
      DecodeChunk chunkSize (take (Z.to_nat n) e) encodeType encodeKey =
        Ret (take (Z.to_nat n) (padded chunkSize b)).
Proof. intros. by apply encode_decode_chunk. Qed.

Lemma encodeChunk_decodeChunk_witness :
  ∃ e, EncodeChunk 128 [1; 2; 3] ENCODE_BLOB_POSEIDON (zeros 32) = Ret e ∧
    DecodeChunk 128 (take 100 e) ENCODE_BLOB_POSEIDON (zeros 32) =
      Ret (take 100 (padded 128 [1; 2; 3])).
Proof.
  destruct (encodeChunk_decodeChunk 128 ENCODE_BLOB_POSEIDON (zeros 32) [1; 2; 3])
    as (e & He & _ & Hd); [by vm_compute..|].
  exists e. split; [done|]. apply (Hd 100). lia.
Defined.

Lemma commit_prefix c c' :
  length c = 32%nat → length c' = 32%nat →
  go_copy (zeros 32) (take 24 c) = go_copy (zeros 32) (take 24 c') ↔ take 24 c = take 24 c'.
Proof.
  intros Hc Hc'. split; [|by intros ->]. rw !go_copy_zeros; [rw /zlen length_take; lia..|].
  intros E%app_inj_1; [tauto|]. rw !length_take. lia.
Qed.

(** Two encode keys hash the same bytes only when the data hashes (the 24
    bytes of the commit kept in the contract), the chunk indices and the storage
    providers are all equal, and the key does not depend on the other bytes of
    the commit. *)
Theorem calcEncodeKey_input_inj `{GethLaws} commit commit' idx idx' miner miner' :
  length commit = 32%nat → length commit' = 32%nat →
  length miner = 20%nat → length miner' = 20%nat →
  0 ≤ idx < two63 → 0 ≤ idx' < two63 →
  (encode_key_input commit idx miner = encode_key_input commit' idx' miner' ↔
     take 24 commit = take 24 commit' ∧ idx = idx' ∧ miner = miner') ∧
  (take 24 commit = take 24 commit' →
     CalcEncodeKey commit idx miner = CalcEncodeKey commit' idx miner).
Proof.
  intros Hc Hc' Hm Hm' Hi Hi'. rw /two63 in Hi Hi'. split; last first.
  { intros E. by rw /CalcEncodeKey /calcEncodeKey /encode_key_input E. }
  rw /encode_key_input !int64_small ?BytesToHash_pad ?BigToHash_be; [rw ?/two63; lia..|].
  split; [|by intros (-> & -> & ->)]. intros E.
  apply app_inj_1 in E as [E1 E]; [|by rw !length_go_copy].
  apply app_inj_1 in E as [E2 E3]; [|by rw !length_app !length_replicate Hm Hm'].
  rw Hm Hm' in E2. apply app_inj_1 in E2 as [_ E2]; [|done].
  split_and!; [by apply commit_prefix| |done]. apply (be_encode_inj 32); lia || done.
Qed.

Lemma calcEncodeKey_input_inj_witness :
  encode_key_input (replicate 32 1) 5 (replicate 20 2) ≠
  encode_key_input (replicate 32 1) 6 (replicate 20 2).
Proof.
  intros E. destruct (calcEncodeKey_input_inj (replicate 32 1) (replicate 32 1) 5 6
    (replicate 20 2) (replicate 20 2)) as [H _]; [by vm_compute..|].
  apply H in E as (_ & E & _). lia.
Defined.

(** The commit check on a blob whose data the toy hash covers. *)
Lemma toy_checkCommit b :
  64 ≤ zlen b ≤ blob_size → take 24 (toy_hash (take 64 b)) ≠ EmptyBlobCommit →
  checkCommit (toy_hash (take 64 b)) b = Ret tt.
Proof.
  intros Hb Hne. rw /checkCommit decide_False; [exact Hne|].
  rw /BlobVersionedHash /toy_geth go_copy_zeros; [lia|].
  rw take_app_le; [rw /zlen in Hb; lia|]. rw /CompareCommits.
  have Hl : zlen (toy_hash (take 64 b)) = 32 by rw /toy_hash length_be_encode.
  rw Hl. change (32 <? HashSizeInContract) with false. rw decide_True //.
Qed.
