(* ===== verification/DataShard.v ===== *)
(** * Data shards (data_shard.go)

    A logical shard over several data files: routing of chunks and KVs to the
    files, the encoding of KVs into chunks, and the sanity checks. *)

From S2P Require Import Prelude Extern Ethash DataFile ChunkCodec.

Record DataShard := mkDataShard {
  ds_shardIdx : Z;
  ds_kvSize : Z;
  ds_chunksPerKv : Z;
  ds_kvEntries : Z;
  ds_dataFiles : list DataFile;
  ds_chunkSize : Z }.

Definition set_files (ds : DataShard) (l : list DataFile) : DataShard :=
  mkDataShard (ds_shardIdx ds) (ds_kvSize ds) (ds_chunksPerKv ds) (ds_kvEntries ds) l
    (ds_chunkSize ds).

Definition NewDataShard (shardIdx kvSize kvEntries chunkSize : Z) : gores DataShard :=
  m ← umod kvSize chunkSize;
  if negb (m =? 0) then Panic (Explicit "kvSize must be CHUNK_SIZE at the moment")
  else
    chunksPerKv ← udiv kvSize chunkSize;
    mret (mkDataShard shardIdx kvSize chunksPerKv kvEntries [] chunkSize).

Definition AddDataFile (df : DataFile) : ST DataShard unit := λ ds,
  match ds_dataFiles ds with
  | [] => (Ret tt, set_files ds [df])
  | df0 :: _ =>
      if negb (bool_decide (df_miner df0 = df_miner df))
      then (Fail (ErrMsg "mismatched data file SP"), ds)
      else if negb (df_encodeType df0 =? df_encodeType df)
      then (Fail (ErrMsg "mismatched data file encode type"), ds)
      else if negb (df_maxKvSize df0 =? df_maxKvSize df)
      then (Fail (ErrMsg "mismatched data file max kv size"), ds)
      else (Ret tt, set_files ds (ds_dataFiles ds ++ [df]))
  end.

Definition StartChunkIdx (ds : DataShard) : Z :=
  mul64 (mul64 (ds_shardIdx ds) (ds_chunksPerKv ds)) (ds_kvEntries ds).

(** One pass of the inner loop of [IsComplete]. *)
Definition skip_file (st : Z * bool) (df : DataFile) : Z * bool :=
  if DataFile.Contains df st.1 then (ChunkIdxEnd df, true) else st.

Fixpoint complete_loop (fuel : nat) (files : list DataFile) (chunkIdx chunkIdxEnd : Z)
    : gores bool :=
  if chunkIdx <? chunkIdxEnd then
    match fuel with
    | O => Panic OutOfFuel
    | S fuel =>
        let '(chunkIdx, found) := foldl skip_file (chunkIdx, false) files in
        if found then complete_loop fuel files chunkIdx chunkIdxEnd else Ret false
    end
  else Ret true.

(** Every pass of the outer loop leaves at least one more file behind, so the
    number of files bounds the passes. *)
Definition IsComplete (ds : DataShard) : gores bool :=
  let chunkIdxEnd :=
    mul64 (mul64 (add64 (ds_shardIdx ds) 1) (ds_chunksPerKv ds)) (ds_kvEntries ds) in
  complete_loop (S (length (ds_dataFiles ds))) (ds_dataFiles ds) (StartChunkIdx ds) chunkIdxEnd.

Definition Miner (ds : DataShard) : bytes :=
  match ds_dataFiles ds with [] => zeros 20 | df :: _ => df_miner df end.

Definition EncodeType (ds : DataShard) : Z :=
  match ds_dataFiles ds with [] => NO_ENCODE | df :: _ => df_encodeType df end.

Definition Contains (ds : DataShard) (kvIdx : Z) : bool :=
  (mul64 (ds_shardIdx ds) (ds_kvEntries ds) <=? kvIdx) &&
  (kvIdx <? mul64 (add64 (ds_shardIdx ds) 1) (ds_kvEntries ds)).

Definition ContainsSample (ds : DataShard) (sampleIdx : Z) : gores bool :=
  kvIdx ← udiv (mul64 sampleIdx 32) (ds_kvSize ds);
  mret (Contains ds kvIdx).

Definition GetStorageFile (ds : DataShard) (chunkIdx : Z) : option DataFile :=
  List.find (λ df, DataFile.Contains df chunkIdx) (ds_dataFiles ds).

(** [for _, df := range files { if p(df) { return op(df) } }; return none]. *)
Fixpoint in_file {A} (p : DataFile → gores bool) (op : DataFile → gores A) (none : error)
    (l : list DataFile) : gores A :=
  match l with
  | [] => Fail none
  | df :: l =>
      p df ≫= λ found : bool, if found then op df else in_file p op none l
  end.

(** The same where [op] writes to the file. *)
Fixpoint on_file {A} (p : DataFile → gores bool) (op : ST DataFile A) (none : error)
    (l : list DataFile) : gores A * list DataFile :=
  match l with
  | [] => (Fail none, [])
  | df :: l =>
      match p df with
      | Ret true => let '(r, df') := op df in (r, df' :: l)
      | Ret false => let '(r, l') := on_file p op none l in (r, df :: l')
      | Fail e => (Fail e, df :: l)
      | Panic e => (Panic e, df :: l)
      end
  end.

Definition chunk_missing : error := ErrMsg "chunk not found: the shard is not completed?".
Definition kv_missing : error := ErrMsg "kv not found: the shard is not completed?".

Definition readChunk (ds : DataShard) (chunkIdx readLen : Z) : gores bytes :=
  in_file (λ df, Ret (DataFile.Contains df chunkIdx)) (λ df, DataFile.Read df chunkIdx readLen)
    chunk_missing (ds_dataFiles ds).

Definition writeChunk (chunkIdx : Z) (b : bytes) : ST DataShard unit := λ ds,
  let '(r, l) := on_file (λ df, Ret (DataFile.Contains df chunkIdx)) (DataFile.Write chunkIdx b)
                   chunk_missing (ds_dataFiles ds) in
  (r, set_files ds l).

Definition WriteMeta (kvIdx : Z) (b : bytes) : ST DataShard unit := λ ds,
  let '(r, l) := on_file (λ df, ContainsKv df kvIdx) (DataFile.WriteMeta kvIdx b)
                   kv_missing (ds_dataFiles ds) in
  (r, set_files ds l).

Definition ReadMeta (ds : DataShard) (kvIdx : Z) : gores (bytes * option error) :=
  in_file (λ df, ContainsKv df kvIdx) (λ df, DataFile.ReadMeta df kvIdx)
    kv_missing (ds_dataFiles ds).

Definition ReadSample `{Geth} (ds : DataShard) (sampleIdx : Z) : gores bytes :=
  in_file (λ df, DataFile.ContainsSample df sampleIdx) (λ df, DataFile.ReadSample df sampleIdx)
    chunk_missing (ds_dataFiles ds).

(** ** Reads *)

Definition readChunkWith (ds : DataShard) (kvIdx chunkIdx : Z)
    (decoder : bytes → Z → gores bytes) : gores bytes :=
  if negb (Contains ds kvIdx) then Fail (ErrMsg "kv not found")
  else if ds_chunksPerKv ds <=? chunkIdx then Fail (ErrMsg "chunkIdx out of range")
  else
    let idx := add64 (mul64 kvIdx (ds_chunksPerKv ds)) chunkIdx in
    data ← readChunk ds idx (int64 (ds_chunkSize ds));
    decoder data idx.

Definition readWith (ds : DataShard) (kvIdx readLen : Z)
    (decoder : bytes → Z → gores bytes) : gores bytes :=
  if negb (Contains ds kvIdx) then Fail (ErrMsg "kv not found")
  else if int64 (ds_kvSize ds) <? readLen then Fail (ErrMsg "read len too large")
  else
    '(data, _) ← foldM (λ '(data, readLen) i,
        if readLen =? 0 then mret (data, readLen)
        else
          let chunkReadLen := Z.min readLen (int64 (ds_chunkSize ds)) in
          let chunkIdx := add64 (mul64 kvIdx (ds_chunksPerKv ds)) i in
          cdata ← readChunk ds chunkIdx chunkReadLen;
          cdata ← decoder cdata chunkIdx;
          mret (data ++ cdata, readLen - chunkReadLen))
      ([], readLen) (seqZ 0 (ds_chunksPerKv ds));
    mret data.

(** The decoder of [ReadChunk], [Read] and [ReadWithMeta]. *)
Definition decode_with `{Geth} (ds : DataShard) (commit cdata : bytes) (chunkIdx : Z)
    : gores bytes :=
  df0 ← index (ds_dataFiles ds) 0;
  let encodeKey := calcEncodeKey commit chunkIdx (df_miner df0) in
  decodeChunk (ds_chunkSize ds) cdata (df_encodeType df0) encodeKey.

Definition ReadChunkEncoded (ds : DataShard) (kvIdx chunkIdx : Z) : gores bytes :=
  readChunkWith ds kvIdx chunkIdx (λ cdata _, Ret cdata).

Definition ReadChunk `{Geth} (ds : DataShard) (kvIdx chunkIdx : Z) (commit : bytes)
    : gores bytes :=
  readChunkWith ds kvIdx chunkIdx (decode_with ds commit).

Definition ReadEncoded (ds : DataShard) (kvIdx readLen : Z) : gores bytes :=
  readWith ds kvIdx readLen (λ cdata _, Ret cdata).

Definition Read `{Geth} (ds : DataShard) (kvIdx readLen : Z) (commit : bytes) : gores bytes :=
  bs ← readWith ds kvIdx (int64 (ds_kvSize ds)) (decode_with ds commit);
  _ ← checkCommit commit bs;
  slice bs 0 readLen.

Definition ReadWithMeta `{Geth} (ds : DataShard) (kvIdx readLen : Z) : gores (bytes * bytes) :=
  meta ← ReadMeta ds kvIdx;
  let '(commit, err) := meta in
  match err with
  | Some e => Fail e
  | None =>
      bs ← readWith ds kvIdx (int64 (ds_kvSize ds)) (decode_with ds (BytesToHash commit));
      _ ← checkCommit (BytesToHash commit) bs;
      b ← slice bs 0 readLen;
      mret (b, commit)
  end.

(** ** Writes *)

(** One round of the loop of [WriteWith]. *)
Definition write_kv_chunk (kvIdx : Z) (cb : bytes)
    (encoder : DataShard → bytes → Z → gores bytes) (i : Z) : ST DataShard unit := λ ds,
  let chunkIdx := add64 (mul64 kvIdx (ds_chunksPerKv ds)) i in
  match (chunk ← slice cb (int64 (mul64 i (ds_chunkSize ds)))
                          (int64 (mul64 (add64 i 1) (ds_chunkSize ds)));
         encoder ds chunk chunkIdx) with
  | Ret encodedChunk => writeChunk chunkIdx encodedChunk ds
  | Fail e => (Fail e, ds)
  | Panic p => (Panic p, ds)
  end.

Definition WriteWith (kvIdx : Z) (b commit : bytes)
    (encoder : DataShard → bytes → Z → gores bytes) : ST DataShard unit := λ ds,
  if negb (Contains ds kvIdx) then (Fail (ErrMsg "kv not found"), ds)
  else if ds_kvSize ds <? zlen b then (Fail (ErrMsg "write data too large"), ds)
  else
    let cb := go_copy (zeros (ds_kvSize ds)) b in
    (_ ← st_foldM (λ _ i, write_kv_chunk kvIdx cb encoder i) tt (seqZ 0 (ds_chunksPerKv ds));
     WriteMeta kvIdx commit) ds.

Definition Write `{Geth} (kvIdx : Z) (b commit : bytes) : ST DataShard unit :=
  WriteWith kvIdx b commit (λ ds cdata chunkIdx,
    let encodeKey := calcEncodeKey commit chunkIdx (Miner ds) in
    encodeChunk (ds_chunkSize ds) cdata (EncodeType ds) encodeKey).

(** [Close] stops at the first file that does not close. *)
Fixpoint close_files (l : list DataFile) : gores unit * list DataFile :=
  match l with
  | [] => (Ret tt, [])
  | df :: l =>
      match DataFile.Close df with
      | (Ret _, df') => let '(r, l') := close_files l in (r, df' :: l')
      | (Fail e, df') => (Fail e, df' :: l)
      | (Panic p, df') => (Panic p, df' :: l)
      end
  end.

Definition Close : ST DataShard unit := λ ds,
  let '(r, l) := close_files (ds_dataFiles ds) in (r, set_files ds l).

(** ** Completeness of a shard *)

Definition covered (files : list DataFile) (c : Z) : Prop :=
  ∃ df, df ∈ files ∧ DataFile.Contains df c = true.

(** Files whose end lies beyond a chunk index: what the loop still has to pass. *)
Definition remaining (files : list DataFile) (c : Z) : nat :=
  length (filter (λ df, c < ChunkIdxEnd df) files).

Lemma Contains_bounds df c :
  DataFile.Contains df c = true ↔ df_chunkIdxStart df ≤ c < ChunkIdxEnd df.
Proof. rw /DataFile.Contains andb_true_iff Z.leb_le Z.ltb_lt //. Qed.

Lemma skip_file_spec files idx idx' found' :
  foldl skip_file (idx, false) files = (idx', found') →
  idx ≤ idx' ∧ (∀ c, idx ≤ c < idx' → covered files c) ∧
  (found' = false → idx' = idx ∧ ¬ covered files idx) ∧
  (found' = true → ∃ df, df ∈ files ∧ idx < ChunkIdxEnd df ≤ idx').
Proof.
  revert idx' found'. induction files as [|df files IH] using rev_ind; intros idx' found'.
  { simpl. intros [= <- <-]. split_and!; [lia|lia| |done].
    intros _. split; [done|]. intros (? & []%not_elem_of_nil & _). }
  rw foldl_app /=. destruct (foldl skip_file (idx, false) files) as [i f] eqn:E.
  destruct (IH i f eq_refl) as (H1 & H2 & H3 & H4). rw /skip_file /=.
  have Hmono c : covered files c → covered (files ++ [df]) c.
  { intros (d & Hd & ?). exists d. split; [|done]. apply elem_of_app. by left. }
  have Hdf : df ∈ files ++ [df] by apply elem_of_app; right; apply list_elem_of_here.
  destruct (DataFile.Contains df i) eqn:Ec; intros [= <- <-].
  - pose proof (proj1 (Contains_bounds df i) Ec) as Hb. split_and!; [lia| |done|].
    + intros c Hc. destruct (decide (c < i)); [apply Hmono, H2; lia|].
      exists df. split; [done|]. apply Contains_bounds. lia.
    + intros _. exists df. split; [done|lia].
  - split_and!; [done|auto| |].
    + intros Hf. destruct (H3 Hf) as [-> Hnc]. split; [done|].
      intros (d & [Hd| ->%list_elem_of_singleton]%elem_of_app & Hc); [|congruence].
      by apply Hnc; exists d.
    + intros Hf. destruct (H4 Hf) as (d & Hd & Hr). exists d. split; [|done].
      apply elem_of_app. by left.
Qed.

Lemma remaining_decr files idx idx' df :
  df ∈ files → idx < ChunkIdxEnd df ≤ idx' → (remaining files idx' < remaining files idx)%nat.
Proof.
  intros Hd Hr. rw /remaining.
  have Hsub (l : list DataFile) : (remaining l idx' ≤ remaining l idx)%nat.
  { rw /remaining. induction l as [|d l IH]; [done|]. rw !filter_cons. repeat case_decide; simpl; lia. }
  induction Hd as [df l|df d l Hd IH].
  - rw !filter_cons. pose proof (Hsub l) as Hs. rw /remaining in Hs. repeat case_decide; simpl; lia.
  - rw !filter_cons. repeat case_decide; simpl; lia.
Qed.

Lemma complete_loop_spec fuel files idx last :
  (remaining files idx < fuel)%nat →
  ∃ b, complete_loop fuel files idx last = Ret b ∧
       (b = true ↔ ∀ c, idx ≤ c < last → covered files c).
Proof.
  revert idx. induction fuel as [|fuel IH]; intros idx Hf; [lia|]. simpl.
  case: Z.ltb_spec => Hlt; last first.
  { exists true. split; [done|]. split; [lia|done]. }
  destruct (foldl skip_file (idx, false) files) as [idx' found] eqn:E.
  destruct (skip_file_spec files idx idx' found E) as (H1 & H2 & H3 & H4).
  destruct found.
  - destruct (H4 eq_refl) as (df & Hd & Hr).
    destruct (IH idx') as (b & Hb & Hspec).
    { pose proof (remaining_decr files idx idx' df Hd Hr). lia. }
    exists b. split; [done|]. rw Hspec. split; intros Hc c ?; [|apply Hc; lia].
    destruct (decide (c < idx')); [apply H2; lia|apply Hc; lia].
  - destruct (H3 eq_refl) as [-> Hn]. exists false. split; [done|]. split; [done|].
    intros Hc. destruct Hn. apply Hc. lia.
Qed.

(** [IsComplete] returns, and returns true exactly when every chunk of the
    shard lies in one of its data files. *)
Theorem IsComplete_spec ds :
  ∃ b, IsComplete ds = Ret b ∧
    (b = true ↔ ∀ c, StartChunkIdx ds ≤ c <
        mul64 (mul64 (add64 (ds_shardIdx ds) 1) (ds_chunksPerKv ds)) (ds_kvEntries ds) →
      covered (ds_dataFiles ds) c).
Proof.
  apply complete_loop_spec. apply Nat.lt_succ_r, length_filter.
Qed.

(** ** Well-formed shards *)

(** A data file that fits the shard: same sizes, whole KVs, same provider. *)
Record file_of (ds : DataShard) (df : DataFile) : Prop := {
  fo_wf : df_wf df;
  fo_chunkSize : df_chunkSize df = ds_chunkSize ds;
  fo_maxKvSize : df_maxKvSize df = ds_kvSize ds;
  fo_start : df_chunkIdxStart df = df_chunkIdxStart df / ds_chunksPerKv ds * ds_chunksPerKv ds;
  fo_len : df_chunkIdxLen df = df_chunkIdxLen df / ds_chunksPerKv ds * ds_chunksPerKv ds;
  fo_miner : df_miner df = Miner ds;
  fo_encode : df_encodeType df = EncodeType ds }.

Record ds_wf (ds : DataShard) : Prop := {
  dwf_chunk : 0 < ds_chunkSize ds;
  dwf_cpk : 0 < ds_chunksPerKv ds;
  dwf_kv : ds_kvSize ds = ds_chunksPerKv ds * ds_chunkSize ds;
  dwf_idx : 0 ≤ ds_shardIdx ds;
  dwf_entries : 0 < ds_kvEntries ds;
  dwf_range : (ds_shardIdx ds + 1) * ds_kvEntries ds * ds_kvSize ds < two63;
  dwf_files : Forall (file_of ds) (ds_dataFiles ds) }.

Definition in_shard (ds : DataShard) (k : Z) : Prop :=
  ds_shardIdx ds * ds_kvEntries ds ≤ k < (ds_shardIdx ds + 1) * ds_kvEntries ds.

(** The file at position [j] is the one that serves KV [k]. *)
Definition serves (files : list DataFile) (k : Z) (j : nat) (df : DataFile) : Prop :=
  files !! j = Some df ∧ has_kv df k ∧
  ∀ j' df', (j' < j)%nat → files !! j' = Some df' → ¬ has_kv df' k.

Section shard.
Context (ds : DataShard) (Hwf : ds_wf ds).

Lemma ds_bounds :
  0 < ds_kvSize ds < two63 ∧ 0 < ds_chunkSize ds < two63 ∧
  0 < ds_chunksPerKv ds < two63 ∧
  (ds_shardIdx ds + 1) * ds_kvEntries ds < two63 ∧
  0 ≤ ds_shardIdx ds * ds_kvEntries ds < two63 ∧ ds_shardIdx ds + 1 < two63.
Proof using Hwf.
  destruct Hwf as [H1 H2 H3 H4 H5 H6 _]. rw H3 in H6 *.
  have Ha : 1 ≤ (ds_shardIdx ds + 1) * ds_kvEntries ds by nia.
  have Hb : ds_chunksPerKv ds ≤ ds_chunksPerKv ds * ds_chunkSize ds by nia.
  have Hc : ds_chunkSize ds ≤ ds_chunksPerKv ds * ds_chunkSize ds by nia.
  have Hd : ds_chunksPerKv ds * ds_chunkSize ds ≤
    (ds_shardIdx ds + 1) * ds_kvEntries ds * (ds_chunksPerKv ds * ds_chunkSize ds) by nia.
  have He : (ds_shardIdx ds + 1) * ds_kvEntries ds ≤
    (ds_shardIdx ds + 1) * ds_kvEntries ds * (ds_chunksPerKv ds * ds_chunkSize ds) by nia.
  split_and!; nia.
Qed.

Lemma Contains_shard k : Contains ds k = true ↔ in_shard ds k.
Proof using Hwf.
  pose proof ds_bounds. destruct Hwf. rw /Contains /in_shard.
  rw /two63 in H. unwrap. rw andb_true_iff Z.leb_le Z.ltb_lt //.
Qed.

(** Chunk [i] of a KV of the shard, without wrap-around. *)
Lemma chunk_idx_ok k i :
  in_shard ds k → 0 ≤ i < ds_chunksPerKv ds →
  add64 (mul64 k (ds_chunksPerKv ds)) i = k * ds_chunksPerKv ds + i
  ∧ 0 ≤ k ∧ 0 ≤ k * ds_chunksPerKv ds + i < two63.
Proof using Hwf.
  intros [Hk1 Hk2] Hi. pose proof ds_bounds as HB. destruct Hwf as [H1 H2 H3 H4 H5 H6 _].
  have Hk : 0 ≤ k by nia.
  have Hb : k * ds_chunksPerKv ds + i < (ds_shardIdx ds + 1) * ds_kvEntries ds * ds_chunksPerKv ds
    by nia.
  have Hc : (ds_shardIdx ds + 1) * ds_kvEntries ds * ds_chunksPerKv ds ≤
    (ds_shardIdx ds + 1) * ds_kvEntries ds * ds_kvSize ds by rw H3; nia.
  have Hd : 0 ≤ k * ds_chunksPerKv ds by nia.
  split; [|lia]. rw /two63 in H6. unwrap. done.
Qed.

(** A file that fits the shard has a KV exactly when it has its chunks. *)
Lemma has_kv_chunk df k i :
  file_of ds df → 0 ≤ i < ds_chunksPerKv ds →
  has_chunk df (k * ds_chunksPerKv ds + i) ↔ has_kv df k.
Proof using Hwf.
  intros [Hf Hcs Hkv Hs Hl _ _] Hi. pose proof ds_bounds as HB. destruct Hwf as [H1 H2 H3 _ _ _ _].
  have Es : kv_start df = df_chunkIdxStart df / ds_chunksPerKv ds.
  { rw /kv_start Hcs Hkv H3 Z.div_mul_cancel_r; lia. }
  have El : kv_len df = df_chunkIdxLen df / ds_chunksPerKv ds.
  { rw /kv_len /data_size Hcs Hkv H3 Z.div_mul_cancel_r; lia. }
  rw /has_chunk /has_kv Es El Hs Hl. rw !Z.div_mul; [lia..|].
  set (s := df_chunkIdxStart df / _). set (l := df_chunkIdxLen df / _). clearbody s l.
  clear -Hi H2. split; nia.
Qed.

Lemma files_in df : df ∈ ds_dataFiles ds → file_of ds df.
Proof using Hwf. intros. by apply (Forall_forall (file_of ds) (ds_dataFiles ds)); [apply Hwf|]. Qed.

Lemma Contains_kv df k i :
  df ∈ ds_dataFiles ds → in_shard ds k → 0 ≤ i < ds_chunksPerKv ds →
  DataFile.Contains df (k * ds_chunksPerKv ds + i) = bool_decide (has_kv df k).
Proof using Hwf.
  intros Hd Hk Hi. apply files_in in Hd. apply eq_bool_prop_intro.
  rw bool_decide_spec Is_true_true -(has_kv_chunk df k i Hd Hi).
  apply Contains_wf, Hd.
Qed.

Lemma ContainsKv_kv df k :
  df ∈ ds_dataFiles ds → in_shard ds k → ContainsKv df k = Ret (bool_decide (has_kv df k)).
Proof using Hwf.
  intros Hd Hk. apply files_in in Hd. rw ContainsKv_wf; [apply Hd| |].
  { destruct (chunk_idx_ok k 0 Hk) as (_ & ? & _); [apply dwf_cpk in Hwf; lia|done]. }
  f_equal. rw /has_kv. case: Z.leb_spec => ?; case: Z.ltb_spec => ? /=; symmetry.
  all: first [apply bool_decide_eq_true; lia|apply bool_decide_eq_false; lia].
Qed.
End shard.

Lemma serves_lookup_lt files k j df : serves files k j df → (j < length files)%nat.
Proof. intros (H & _ & _). by apply lookup_lt_Some in H. Qed.

Lemma serves_elem files k j df : serves files k j df → df ∈ files.
Proof. intros (H & _ & _). apply list_elem_of_lookup. by exists j. Qed.

(** Routing: a search that accepts exactly the files of KV [k] runs on the file
    that serves it, and replaces that file only. *)
Lemma in_file_serves {A} p (op : DataFile → gores A) none files k j df :
  (∀ d, d ∈ files → p d = Ret (bool_decide (has_kv d k))) → serves files k j df →
  in_file p op none files = op df.
Proof.
  revert j. induction files as [|d files IH]; intros j Hp (Hj & Hkv & Hmin); [done|]. simpl.
  rw Hp /=; [apply list_elem_of_here|]. destruct j as [|j]; simpl in Hj.
  - simplify_eq. by rw bool_decide_eq_true_2.
  - rw bool_decide_eq_false_2; [exact (Hmin 0%nat d ltac:(lia) eq_refl)|].
    apply (IH j); [intros; apply Hp; by apply list_elem_of_further|].
    split_and!; [done..|]. intros j' df' ??. by apply (Hmin (S j')); [lia|].
Qed.

Lemma on_file_serves {A} p (op : ST DataFile A) none files k j df r df' :
  (∀ d, d ∈ files → p d = Ret (bool_decide (has_kv d k))) → serves files k j df →
  op df = (r, df') →
  on_file p op none files = (r, <[j := df']> files).
Proof.
  intros Hp Hs Hop. revert j Hs. induction files as [|d files IH]; intros j (Hj & Hkv & Hmin); [done|].
  simpl. rw Hp; [apply list_elem_of_here|]. destruct j as [|j]; simpl in Hj.
  - simplify_eq. by rw bool_decide_eq_true_2 // Hop.
  - rw bool_decide_eq_false_2; [exact (Hmin 0%nat d ltac:(lia) eq_refl)|].
    rw (IH _ j) //; [intros; apply Hp; by apply list_elem_of_further|].
    split_and!; [done..|]. intros j' d' ??. by apply (Hmin (S j')); [lia|].
Qed.

Lemma in_file_none {A} p (op : DataFile → gores A) none files :
  (∀ d, d ∈ files → p d = Ret false) → in_file p op none files = Fail none.
Proof.
  induction files as [|d files IH]; intros Hp; [done|]. simpl.
  rw Hp /=; [apply list_elem_of_here|]. apply IH. intros. by apply Hp, list_elem_of_further.
Qed.

(** A covered KV has a serving file. *)
Lemma serves_exists files k :
  (∃ df, df ∈ files ∧ has_kv df k) → ∃ j df, serves files k j df.
Proof.
  induction files as [|d files IH]; intros (df & Hd & Hk); [by apply not_elem_of_nil in Hd|].
  destruct (decide (has_kv d k)) as [Hdk|Hdk].
  - exists 0%nat, d. split_and!; [done..|]. intros. lia.
  - destruct IH as (j & df' & Hj & Hk' & Hmin).
    { apply elem_of_cons in Hd as [->|Hd]; [done|]. by exists df. }
    exists (S j), df'. split_and!; [done..|]. intros [|j'] d' Hlt Hl; simpl in Hl; [by simplify_eq|].
    apply (Hmin j'); [lia|done].
Qed.

(** Replacing the serving file by one with the same parameters keeps the shard
    well formed and the routing of every KV. *)
Section replace.
Context (ds : DataShard) (Hwf : ds_wf ds) (j : nat) (df df' : DataFile).
Context (Hj : ds_dataFiles ds !! j = Some df) (Hwf' : df_wf df') (Hp : same_params df df').

Definition replaced : DataShard := set_files ds (<[j := df']> (ds_dataFiles ds)).

Lemma replaced_head :
  Miner replaced = Miner ds ∧ EncodeType replaced = EncodeType ds.
Proof using Hj Hp.
  destruct (same_params_fields _ _ Hp) as (_&_&E1&_&_&_&E2).
  rw /replaced /Miner /EncodeType /=. destruct (ds_dataFiles ds) as [|d l]; [done|].
  destruct j; simpl in *; [by simplify_eq|done].
Qed.

Lemma same_params_kv k : has_kv df' k ↔ has_kv df k.
Proof using Hp.
  destruct (same_params_fields _ _ Hp) as (E1 & E2 & _ & E4 & E5 & _ & _).
  by rw /has_kv /kv_start /kv_len /data_size E1 E2 E4 E5.
Qed.

Lemma replaced_wf : ds_wf replaced.
Proof using Hj Hp Hwf Hwf'.
  destruct replaced_head as [Em Ee]. destruct Hwf as [? ? ? ? ? ? Hfiles].
  constructor; try done. rw /replaced /=. apply Forall_insert.
  - eapply Forall_impl; [exact Hfiles|]. intros d [? ? ? ? ? H6 H7].
    constructor; [done..|by rw Em|by rw Ee].
  - pose proof (Forall_lookup_1 _ _ _ _ Hfiles Hj) as [? ? ? ? ? H6 H7].
    destruct (same_params_fields _ _ Hp) as (E1 & E2 & E3 & E4 & E5 & _ & E7).
    constructor; rw ?E1 ?E2 ?E3 ?E4 ?E5 ?E7 ?Em ?Ee //.
Qed.

Lemma serves_replaced k i d :
  serves (ds_dataFiles ds) k i d →
  serves (ds_dataFiles replaced) k i (if decide (i = j) then df' else d).
Proof using Hj Hp.
  intros (Hi & Hk & Hmin). have Hlt := lookup_lt_Some _ _ _ Hj. rw /replaced /=.
  split_and!.
  - case_decide; subst; [by rw list_lookup_insert_eq|rw list_lookup_insert_ne; [congruence|done]].
  - case_decide; subst; [|done]. apply same_params_kv. by simplify_eq.
  - intros j' d' Hj' Hd'. destruct (decide (j' = j)) as [->|Hne].
    + rw list_lookup_insert_eq // in Hd'. injection Hd' as E. rw -E same_params_kv. exact (Hmin _ _ Hj' Hj).
    + rw list_lookup_insert_ne in Hd'; [congruence|]. exact (Hmin _ _ Hj' Hd').
Qed.
End replace.

(** ** KVs of a shard *)

Lemma set_files_id ds : set_files ds (ds_dataFiles ds) = ds.
Proof. by destruct ds. Qed.

(** Chunk [i] of the data of a KV. *)
Definition chunk_of (cs : Z) (data : bytes) (i : Z) : bytes :=
  take (Z.to_nat cs) (drop (Z.to_nat (i * cs)) data).

(** The chunks of KV [k] and the record of KV [k]. *)
Definition kv_chunks (ds : DataShard) (k c : Z) : Prop :=
  k * ds_chunksPerKv ds ≤ c < (k + 1) * ds_chunksPerKv ds.

Section kv.
Context (ds : DataShard) (Hwf : ds_wf ds) (k : Z) (Hk : in_shard ds k).
Context (j : nat) (df : DataFile) (Hs : serves (ds_dataFiles ds) k j df).

Lemma serving_file : file_of ds df.
Proof using Hwf Hs. exact (files_in ds Hwf df (serves_elem _ _ _ _ Hs)). Qed.

Lemma writeChunk_ok i b :
  0 ≤ i < ds_chunksPerKv ds → zlen b ≤ ds_chunkSize ds →
  ∃ df', writeChunk (k * ds_chunksPerKv ds + i) b ds = (Ret tt, replaced ds j df')
    ∧ df_chunk df' (k * ds_chunksPerKv ds + i) = go_copy (df_chunk df (k * ds_chunksPerKv ds + i)) b
    ∧ only_differ (λ c, c = k * ds_chunksPerKv ds + i) (λ _, False) df df'.
Proof using Hwf Hk Hs.
  intros Hi Hb. pose proof serving_file as Hf.
  destruct (Write_wf df (fo_wf _ _ Hf) (k * ds_chunksPerKv ds + i) b) as (df' & HW & Hc & Hod).
  { apply (has_kv_chunk ds Hwf); [done..|]. apply Hs. }
  { by rw (fo_chunkSize _ _ Hf). }
  exists df'. split; [|done]. rw /writeChunk.
  rw (on_file_serves _ _ _ _ k j df (Ret tt) df') //.
  intros d Hd. f_equal. by apply Contains_kv.
Qed.

Lemma WriteMeta_ok b :
  zlen b ≤ 32 →
  ∃ df', WriteMeta k b ds = (Ret tt, replaced ds j df')
    ∧ df_meta df' k = go_copy (df_meta df k) b
    ∧ only_differ (λ _, False) (λ k', k' = k) df df'.
Proof using Hwf Hk Hs.
  intros Hb. pose proof serving_file as Hf.
  destruct (WriteMeta_wf df (fo_wf _ _ Hf) k b) as (df' & HW & Hc & Hod); [apply Hs|done|].
  exists df'. split; [|done]. rw /WriteMeta.
  rw (on_file_serves _ _ _ _ k j df (Ret tt) df') //.
  intros d Hd. by apply (ContainsKv_kv ds).
Qed.

Lemma readChunk_ok i n :
  0 ≤ i < ds_chunksPerKv ds → 0 ≤ n ≤ ds_chunkSize ds →
  readChunk ds (k * ds_chunksPerKv ds + i) n =
    Ret (take (Z.to_nat n) (df_chunk df (k * ds_chunksPerKv ds + i))).
Proof using Hwf Hk Hs.
  intros Hi Hn. pose proof serving_file as Hf. rw /readChunk.
  rw (in_file_serves _ _ _ _ k j df) //.
  { intros d Hd. f_equal. by apply Contains_kv. }
  apply Read_wf; [apply Hf| |by rw (fo_chunkSize _ _ Hf)].
  apply (has_kv_chunk ds Hwf); [done..|]. apply Hs.
Qed.

Lemma ReadMeta_ok : ReadMeta ds k = Ret (df_meta df k, None).
Proof using Hwf Hk Hs.
  pose proof serving_file as Hf. rw /ReadMeta (in_file_serves _ _ _ _ k j df) //.
  { intros d Hd. by apply (ContainsKv_kv ds). }
  apply ReadMeta_wf; [apply Hf|apply Hs].
Qed.

(** Reading [n] bytes through a decoder that turns a prefix of the stored
    chunk [i] into the same prefix of [d i]. *)
Lemma readWith_ok dec (d : Z → bytes) n :
  (∀ i, 0 ≤ i < ds_chunksPerKv ds → zlen (d i) = ds_chunkSize ds) →
  (∀ i m, 0 ≤ i < ds_chunksPerKv ds → 0 ≤ m ≤ ds_chunkSize ds →
    dec (take (Z.to_nat m) (df_chunk df (k * ds_chunksPerKv ds + i)))
        (k * ds_chunksPerKv ds + i) = Ret (take (Z.to_nat m) (d i))) →
  0 ≤ n ≤ ds_kvSize ds →
  readWith ds k n dec = Ret (take (Z.to_nat n) (seqZ 0 (ds_chunksPerKv ds) ≫= d)).
Proof using Hwf Hk Hs.
  intros Hd Hdec Hn. pose proof (ds_bounds ds Hwf) as HB. destruct Hwf as [H1 H2 H3 _ _ _ _].
  rw /readWith (proj2 (Contains_shard ds Hwf k) Hk) /=.
  set (D := seqZ 0 (ds_chunksPerKv ds) ≫= d).
  have Hrows : Forall (λ i, length (d i) = Z.to_nat (ds_chunkSize ds)) (seqZ 0 (ds_chunksPerKv ds)).
  { apply Forall_forall. intros i Hi%elem_of_seqZ. rw -(Hd i) /zlen; lia. }
  have HD i : 0 ≤ i < ds_chunksPerKv ds →
              take (Z.to_nat (ds_chunkSize ds)) (drop (Z.to_nat (i * ds_chunkSize ds)) D) = d i.
  { intros Hi. rw -(bind_row _ d _ (Z.to_nat i) i Hrows).
    - rw lookup_seqZ_lt; [lia|]. f_equal. lia.
    - do 2 f_equal. lia. }
  have HlD : length D = Z.to_nat (ds_kvSize ds).
  { rw /D (length_bind_rows _ _ _ Hrows) length_seqZ H3. lia. }
  rw !int64_small; [rw /two63 in HB *; lia..|]. rw (proj2 (Z.ltb_ge _ _)); [lia|].
  set (cs := ds_chunkSize ds) in *.
  set (P := λ i, (take (Z.to_nat (Z.min n (i * cs))) D, n - Z.min n (i * cs))).
  have HP0 : P 0 = ([], n) by rw /P Z.mul_0_l Z.min_r ?take_0 ?Z.sub_0_r //; lia.
  rw -[X in foldM _ X _]HP0 -[X in seqZ _ X](Z2Nat.id (ds_chunksPerKv ds)); [lia|].
  rw foldM_count.
  - intros i Hi. rw /P. case: Z.eqb_spec => Hrl.
    { do 2 f_equal; [|lia]. f_equal. f_equal. nia. }
    have Hlt : i * cs < n by lia. rw (Z.min_r n (i * cs)); [lia|].
    destruct (chunk_idx_ok ds Hwf k i Hk) as [-> _]; [lia|].
    rw readChunk_ok /=; [lia..|]. rw Hdec /=; [lia..|]. do 2 f_equal; [|lia].
    rw -HD; [lia|]. rw take_take take_take_drop. f_equal.
    have -> : (i + 1) * cs = i * cs + cs by lia.
    have ? : 0 ≤ i * cs by nia. lia.
  - simpl. rw /P. do 2 f_equal. nia.
Qed.

(** What a completed write of KV [k] did to its file: chunk [i] is [e i], the
    record is [commit], everything else is as before. *)
Record kv_written (e : Z → bytes) (commit : bytes) (df' : DataFile) : Prop := {
  kw_frame : only_differ (kv_chunks ds k) (λ k', k' = k) df df';
  kw_chunk i : 0 ≤ i < ds_chunksPerKv ds → df_chunk df' (k * ds_chunksPerKv ds + i) = e i;
  kw_meta : df_meta df' k = commit }.

(** The shard after the first [i] chunks of KV [k] are written. *)
Definition written_upto (e : Z → bytes) (i : Z) (ds' : DataShard) : Prop :=
  ∃ df', ds' = replaced ds j df' ∧ only_differ (kv_chunks ds k) (λ _, False) df df' ∧
    ∀ i', 0 ≤ i' < i → df_chunk df' (k * ds_chunksPerKv ds + i') = e i'.

Lemma replaced_twice df1 df2 : replaced (replaced ds j df1) j df2 = replaced ds j df2.
Proof using. rw /replaced /set_files /=. by rw list_insert_insert_eq. Qed.

Lemma replaced_same : replaced ds j df = ds.
Proof using Hs. rw /replaced list_insert_id; [apply Hs|apply set_files_id]. Qed.
End kv.

Section writes.
Context (ds : DataShard) (Hwf : ds_wf ds) (k : Z) (Hk : in_shard ds k).
Context (j : nat) (df : DataFile) (Hs : serves (ds_dataFiles ds) k j df).

(** A shard whose serving file changed in place is still served by it. *)
Lemma replaced_serves C K df' :
  only_differ C K df df' →
  ds_wf (replaced ds j df') ∧ serves (ds_dataFiles (replaced ds j df')) k j df' ∧
  Miner (replaced ds j df') = Miner ds ∧ EncodeType (replaced ds j df') = EncodeType ds.
Proof using Hwf Hs.
  intros [H1 H2 _ _ _]. pose proof (proj1 Hs) as Hj.
  split; [by apply (replaced_wf ds Hwf j df)|].
  split; [|by apply (replaced_head ds j df)].
  pose proof (serves_replaced ds j df df' Hj H2 k j df Hs) as H. by rw decide_True in H.
Qed.

Lemma write_step e i b :
  0 ≤ i < ds_chunksPerKv ds → zlen (e i) = ds_chunkSize ds →
  written_upto ds k j df e i b →
  ∃ ds', writeChunk (k * ds_chunksPerKv ds + i) (e i) b = (Ret tt, ds') ∧
         written_upto ds k j df e (i + 1) ds'.
Proof using Hwf Hk Hs.
  intros Hi He (df1 & -> & Hod & Hold).
  destruct (replaced_serves _ _ df1 Hod) as (Hwf1 & Hs1 & _ & _).
  destruct (writeChunk_ok (replaced ds j df1) Hwf1 k Hk j df1 Hs1 i (e i)) as (df2 & HW & Hc & Hod2).
  { done. }
  { simpl. lia. }
  simpl in *. eexists. split; [exact HW|]. exists df2. split; [apply replaced_twice|]. split.
  - eapply only_differ_weaken; [| |exact (only_differ_trans _ _ _ _ _ _ _ Hod Hod2)]; simpl.
    + intros c [H| ->]; [done|]. rw /kv_chunks. lia.
    + tauto.
  - pose proof (serving_file _ Hwf1 k j df1 Hs1) as Hf1.
    have Hhas i' : 0 ≤ i' < ds_chunksPerKv ds → has_chunk df1 (k * ds_chunksPerKv ds + i').
    { intros. apply (has_kv_chunk _ Hwf1 df1 k i' Hf1); [done|apply Hs1]. }
    intros i' Hi'. destruct (decide (i' = i)) as [->|Hne].
    + rw Hc go_copy_full //. pose proof (zlen_df_chunk df1 (fo_wf _ _ Hf1) _ (Hhas i Hi)) as Hl.
      rw (fo_chunkSize _ _ Hf1) /= in Hl. rw /zlen in Hl He. lia.
    + rw (od_chunk _ _ _ _ Hod2); [apply Hhas; lia|lia|]. apply Hold. lia.
Qed.

Lemma slice_chunk d i :
  zlen d = ds_kvSize ds → 0 ≤ i < ds_chunksPerKv ds →
  slice d (int64 (mul64 i (ds_chunkSize ds))) (int64 (mul64 (add64 i 1) (ds_chunkSize ds))) =
    Ret (chunk_of (ds_chunkSize ds) d i).
Proof using Hwf.
  intros Hd Hi. pose proof (ds_bounds ds Hwf) as HB. destruct Hwf as [H1 H2 H3 _ _ _ _].
  have Ha : 0 ≤ i * ds_chunkSize ds by nia.
  have Hb : (i + 1) * ds_chunkSize ds ≤ ds_kvSize ds by rw H3; nia.
  rw /two63 in HB. unwrap. rw slice_ok; [lia..|]. rw /chunk_of. f_equal. f_equal. lia.
Qed.

Lemma WriteWith_ok b commit enc (e : Z → bytes) :
  zlen b ≤ ds_kvSize ds → zlen commit = 32 →
  (∀ ds' i, 0 ≤ i < ds_chunksPerKv ds → Miner ds' = Miner ds → EncodeType ds' = EncodeType ds →
     ds_chunkSize ds' = ds_chunkSize ds →
     enc ds' (chunk_of (ds_chunkSize ds) (padded (ds_kvSize ds) b) i)
       (k * ds_chunksPerKv ds + i) = Ret (e i) ∧ zlen (e i) = ds_chunkSize ds) →
  ∃ df', WriteWith k b commit enc ds = (Ret tt, replaced ds j df') ∧
         kv_written ds k df e commit df'.
Proof using Hwf Hk Hs.
  intros Hb Hc Henc. pose proof (ds_bounds ds Hwf) as HB.
  rw /WriteWith (proj2 (Contains_shard ds Hwf k) Hk) /= (proj2 (Z.ltb_ge _ _)); [lia|].
  rw /mbind {1}/st_bind -[X in seqZ _ X](Z2Nat.id (ds_chunksPerKv ds)); [lia|].
  match goal with |- context [st_foldM ?f tt _ ds] =>
    edestruct (λ Hf, st_foldM_count (λ i (_ : unit) ds', written_upto ds k j df e i ds')
      f 0 (Z.to_nat (ds_chunksPerKv ds)) Hf tt ds) as (u & ds1 & Hloop & df1 & E1 & Hod & Hch)
  end.
  { intros i _ b' Hi HP. pose proof HP as (df1 & E1 & Hod1 & _).
    destruct (replaced_serves _ _ df1 Hod1) as (_ & _ & Em & Ee). rw -E1 in Em Ee.
    have Eds : ds_chunksPerKv b' = ds_chunksPerKv ds ∧ ds_chunkSize b' = ds_chunkSize ds
      by rw E1.
    destruct Eds as (E2 & E3).
    destruct (Henc b' i) as [Hei Hli]; [lia|done..|].
    destruct (write_step e i b') as (ds' & HW & HP'); [lia|done..|].
    exists tt, ds'. split; [|done]. rw /write_kv_chunk E2 E3.
    rw slice_chunk; [rw /zlen length_padded; lia|lia|].
    destruct (chunk_idx_ok ds Hwf k i Hk) as [-> _]; [lia|]. rw /= Hei HW //. }
  { exists df. split; [by rw (replaced_same ds k)|]. split; [|lia].
    apply only_differ_refl. apply (serving_file ds Hwf k j df Hs). }
  rw Hloop E1. rw Z2Nat.id in Hch; [lia|].
  destruct (replaced_serves _ _ df1 Hod) as (Hwf1 & Hs1 & _ & _).
  destruct (WriteMeta_ok (replaced ds j df1) Hwf1 k Hk j df1 Hs1 commit) as (df2 & HW & Hm & Hod2);
    [lia|]. pose proof (serving_file _ Hwf1 k j df1 Hs1) as Hf1.
  exists df2. rw HW replaced_twice. split; [done|]. constructor.
  - eapply only_differ_weaken; [| |exact (only_differ_trans _ _ _ _ _ _ _ Hod Hod2)]; simpl; tauto.
  - intros i Hi. rw (od_chunk _ _ _ _ Hod2); [|tauto|by apply Hch].
    apply (has_kv_chunk _ Hwf1 df1 k i Hf1); [done|apply Hs1].
  - rw Hm go_copy_full //. pose proof (zlen_df_meta df1 (fo_wf _ _ Hf1) k (proj1 (proj2 Hs1))) as Hl.
    rw /zlen in Hl Hc. lia.
Qed.
End writes.

(** ** Reading back *)

Lemma concat_chunks_aux cs D (n : nat) :
  0 < cs → seqZ 0 (Z.of_nat n) ≫= chunk_of cs D = take (Z.to_nat (Z.of_nat n * cs)) D.
Proof.
  intros Hcs. induction n as [|n IH]; [done|].
  rw seqZ_S bind_app IH bind_cons /= app_nil_r Z.add_0_l /chunk_of take_take_drop.
  f_equal. nia.
Qed.

Lemma concat_chunks cs n D :
  0 < cs → 0 ≤ n → zlen D = n * cs → seqZ 0 n ≫= chunk_of cs D = D.
Proof.
  intros Hcs Hn HD. rw -(Z2Nat.id n) // concat_chunks_aux // take_ge //. rw /zlen in HD. lia.
Qed.

Lemma decode_with_head `{Geth} ds commit cdata idx :
  ds_dataFiles ds ≠ [] →
  decode_with ds commit cdata idx =
    decodeChunk (ds_chunkSize ds) cdata (EncodeType ds) (calcEncodeKey commit idx (Miner ds)).
Proof. rw /decode_with /index /EncodeType /Miner /=. by destruct (ds_dataFiles ds). Qed.

Lemma calcEncodeKey_prefix `{Geth} commit commit' idx miner :
  take 24 commit = take 24 commit' → calcEncodeKey commit idx miner = calcEncodeKey commit' idx miner.
Proof. rw /calcEncodeKey /encode_key_input. by intros ->. Qed.

Definition has_file (ds : DataShard) (k : Z) : Prop :=
  ∃ df, df ∈ ds_dataFiles ds ∧ has_kv df k.

Lemma ReadEncoded_ok ds k j df n :
  ds_wf ds → in_shard ds k → serves (ds_dataFiles ds) k j df → 0 ≤ n ≤ ds_kvSize ds →
  ReadEncoded ds k n =
    Ret (take (Z.to_nat n) (seqZ 0 (ds_chunksPerKv ds) ≫= λ i, df_chunk df (k * ds_chunksPerKv ds + i))).
Proof.
  intros Hwf Hk Hs Hn. pose proof (serving_file ds Hwf k j df Hs) as Hf.
  apply (readWith_ok ds Hwf k Hk j df Hs); [|done..].
  intros i Hi. rw -(fo_chunkSize _ _ Hf). apply zlen_df_chunk; [apply Hf|].
  apply (has_kv_chunk ds Hwf df k i Hf Hi), Hs.
Qed.

(** A write of KV [k] leaves what is read of every other KV as it was. *)
Lemma other_kv_unchanged ds k j df df' k' :
  ds_wf ds → in_shard ds k → serves (ds_dataFiles ds) k j df →
  only_differ (kv_chunks ds k) (λ x, x = k) df df' →
  k' ≠ k → in_shard ds k' → has_file ds k' →
  ReadMeta (replaced ds j df') k' = ReadMeta ds k' ∧
  (∀ n, 0 ≤ n ≤ ds_kvSize ds → ReadEncoded (replaced ds j df') k' n = ReadEncoded ds k' n).
Proof.
  intros Hwf Hk Hs Hod Hne Hk' Hf'. destruct (serves_exists _ _ Hf') as (j' & d & Hs').
  destruct (replaced_serves ds Hwf k j df Hs _ _ df' Hod) as (Hwf1 & _).
  pose proof (serves_replaced ds j df df' (proj1 Hs) (od_params _ _ _ _ Hod) k' j' d Hs') as Hs1.
  set (d1 := if decide (j' = j) then df' else d) in Hs1.
  pose proof (serving_file ds Hwf k' j' d Hs') as Hfd.
  have Hd : df_meta d1 k' = df_meta d k' ∧
    ∀ i, 0 ≤ i < ds_chunksPerKv ds →
      df_chunk d1 (k' * ds_chunksPerKv ds + i) = df_chunk d (k' * ds_chunksPerKv ds + i).
  { rw /d1. case_decide as Ej; [|done]. subst j'.
    have Ed : d = df by pose proof (proj1 Hs); pose proof (proj1 Hs'); congruence.
    subst d. clear d1 Hs1.
    split; [by apply (od_meta _ _ _ _ Hod); [apply Hs'|]|]. intros i Hi.
    apply (od_chunk _ _ _ _ Hod); [apply (has_kv_chunk ds Hwf df k' i Hfd Hi), Hs'|].
    rw /kv_chunks. nia. }
  split.
  - rw (ReadMeta_ok _ Hwf1 k' Hk' j' d1 Hs1) (ReadMeta_ok _ Hwf k' Hk' j' d Hs').
    by rw (proj1 Hd).
  - intros n Hn. rw (ReadEncoded_ok _ k' j' d1 n Hwf1 Hk' Hs1 Hn) (ReadEncoded_ok _ k' j' d n) //=.
    do 2 f_equal. apply bind_ext_elem. intros i Hi%elem_of_seqZ. apply Hd. lia.
Qed.

(** The masks of all chunks of a KV exist. *)
Definition kv_maskable `{Geth} (ds : DataShard) (k : Z) (commit : bytes) : Prop :=
  0 < constants_Q ∧ ∀ i, 0 ≤ i < ds_chunksPerKv ds →
    mask_defined (EncodeType ds) (calcEncodeKey commit (k * ds_chunksPerKv ds + i) (Miner ds))
      (ds_chunkSize ds).

Lemma zlen_chunk_of cs n D i :
  0 < cs → 0 ≤ i < n → zlen D = n * cs → zlen (chunk_of cs D i) = cs.
Proof.
  intros Hcs Hi HD. rw /zlen /chunk_of length_take length_drop. rw /zlen in HD.
  have ? : (i + 1) * cs ≤ n * cs by nia. lia.
Qed.

(** [Write] in terms of the serving file: every chunk holds the encoded data. *)
Lemma Write_ok `{GethLaws} ds k j df b commit :
  ds_wf ds → in_shard ds k → serves (ds_dataFiles ds) k j df →
  zlen b ≤ ds_kvSize ds → zlen commit = 32 → kv_maskable ds k commit →
  ∃ e df', Write k b commit ds = (Ret tt, replaced ds j df') ∧ kv_written ds k df e commit df' ∧
    ∀ i n, 0 ≤ i < ds_chunksPerKv ds → 0 ≤ n ≤ ds_chunkSize ds →
      decodeChunk (ds_chunkSize ds) (take (Z.to_nat n) (e i)) (EncodeType ds)
        (calcEncodeKey commit (k * ds_chunksPerKv ds + i) (Miner ds)) =
      Ret (take (Z.to_nat n) (chunk_of (ds_chunkSize ds) (padded (ds_kvSize ds) b) i)).
Proof.
  intros Hwf Hk Hs Hb Hc [HQ Hmask]. pose proof (ds_bounds ds Hwf) as HB.
  pose proof Hwf as [H1 H2 H3 _ _ _ _].
  set (D := padded (ds_kvSize ds) b).
  have HD : zlen D = ds_chunksPerKv ds * ds_chunkSize ds.
  { rw /D /zlen length_padded -H3. lia. }
  have Hch i : 0 ≤ i < ds_chunksPerKv ds → zlen (chunk_of (ds_chunkSize ds) D i) = ds_chunkSize ds.
  { intros Hi. by apply (zlen_chunk_of _ (ds_chunksPerKv ds)). }
  set (key i := calcEncodeKey commit (k * ds_chunksPerKv ds + i) (Miner ds)).
  set (e i := from_ret [] (encodeChunk (ds_chunkSize ds) (chunk_of (ds_chunkSize ds) D i)
                             (EncodeType ds) (key i))).
  have He i : 0 ≤ i < ds_chunksPerKv ds →
    encodeChunk (ds_chunkSize ds) (chunk_of (ds_chunkSize ds) D i) (EncodeType ds) (key i) = Ret (e i)
    ∧ zlen (e i) = ds_chunkSize ds ∧
    ∀ n, 0 ≤ n ≤ ds_chunkSize ds →
      decodeChunk (ds_chunkSize ds) (take (Z.to_nat n) (e i)) (EncodeType ds) (key i) =
      Ret (take (Z.to_nat n) (chunk_of (ds_chunkSize ds) D i)).
  { intros Hi. destruct (encode_decode_chunk (ds_chunkSize ds) (EncodeType ds) (key i)
      ltac:(lia) HQ (Hmask i Hi) (chunk_of (ds_chunkSize ds) D i)) as (x & Hx & Hl & Hd).
    { rw Hch; [done|lia]. }
    rw /e Hx /=. split_and!; [done..|]. intros n Hn. rw Hd // /padded go_copy_full //.
    rw /zeros length_replicate. pose proof (Hch i Hi) as Hci. rw /zlen in Hci. lia. }
  destruct (WriteWith_ok ds Hwf k Hk j df Hs b commit
    (λ ds cdata chunkIdx, encodeChunk (ds_chunkSize ds) cdata (EncodeType ds)
       (calcEncodeKey commit chunkIdx (Miner ds))) e) as (df' & HW & Hkw); [done..| |].
  { intros ds' i Hi -> -> ->. split; apply He; done. }
  exists e, df'. split_and!; [done..|]. intros i n Hi Hn. by apply He.
Qed.

(** Reading a written KV back: the data when the commit check passes, and the
    error of the check otherwise. *)
Lemma Read_written `{GethLaws} ds k j df df' e b commit commit' n :
  ds_wf ds → in_shard ds k → serves (ds_dataFiles ds) k j df →
  kv_written ds k df e commit df' → take 24 commit' = take 24 commit → 0 ≤ n ≤ ds_kvSize ds →
  (∀ i n, 0 ≤ i < ds_chunksPerKv ds → 0 ≤ n ≤ ds_chunkSize ds →
      decodeChunk (ds_chunkSize ds) (take (Z.to_nat n) (e i)) (EncodeType ds)
        (calcEncodeKey commit (k * ds_chunksPerKv ds + i) (Miner ds)) =
      Ret (take (Z.to_nat n) (chunk_of (ds_chunkSize ds) (padded (ds_kvSize ds) b) i))) →
  Read (replaced ds j df') k n commit' =
    (_ ← checkCommit commit' (padded (ds_kvSize ds) b);
     mret (take (Z.to_nat n) (padded (ds_kvSize ds) b))).
Proof.
  intros Hwf Hk Hs [Hod Hch _] E24 Hn Hdec. pose proof (ds_bounds ds Hwf) as HB.
  pose proof Hwf as [H1 H2 H3 _ _ _ _].
  destruct (replaced_serves ds Hwf k j df Hs _ _ df' Hod) as (Hwf1 & Hs1 & Em & Ee).
  set (D := padded (ds_kvSize ds) b) in *.
  have HD : zlen D = ds_chunksPerKv ds * ds_chunkSize ds by rw /D /zlen length_padded -H3; lia.
  rw /Read int64_small; [rw /= /two63 in HB *; lia|].
  rw (readWith_ok _ Hwf1 k Hk j df' Hs1 _ (chunk_of (ds_chunkSize ds) D)) /=; [| | lia|].
  - intros i Hi. by apply (zlen_chunk_of _ (ds_chunksPerKv ds)).
  - intros i m Hi Hm. rw decode_with_head.
    { rw /replaced /=. intros E. apply (f_equal length) in E. rw length_insert in E.
      pose proof (serves_lookup_lt _ _ _ _ Hs). simpl in E. lia. }
    rw Em Ee /= (calcEncodeKey_prefix commit' commit) // Hch //. by apply Hdec.
  - rw concat_chunks //; [lia|]. rw take_ge.
    { rw /zlen in HD. lia. }
    destruct (checkCommit commit' D) => //=. rw slice_ok; [lia|lia|]. rw Z.sub_0_r drop_0 //.
Qed.

Lemma has_file_replaced ds j df df' k :
  ds_dataFiles ds !! j = Some df → same_params df df' →
  has_file ds k → has_file (replaced ds j df') k.
Proof.
  intros Hj Hp Hf. destruct (serves_exists _ _ Hf) as (i & d & Hs).
  pose proof (serves_replaced ds j df df' Hj Hp k i d Hs) as Hs1.
  eexists. split; [exact (serves_elem _ _ _ _ Hs1)|apply Hs1].
Qed.

Lemma Write_shard `{GethLaws} ds k b commit :
  ds_wf ds → in_shard ds k → has_file ds k →
  zlen b ≤ ds_kvSize ds → zlen commit = 32 → kv_maskable ds k commit →
  ∃ ds', Write k b commit ds = (Ret tt, ds') ∧ ds_wf ds' ∧
    (set_files ds (ds_dataFiles ds') = ds' ∧ ∀ k', has_file ds k' → has_file ds' k') ∧
    ReadMeta ds' k = Ret (commit, None) ∧
    (∀ commit' n, take 24 commit' = take 24 commit → 0 ≤ n ≤ ds_kvSize ds →
       Read ds' k n commit' =
         (_ ← checkCommit commit' (padded (ds_kvSize ds) b);
          mret (take (Z.to_nat n) (padded (ds_kvSize ds) b)))) ∧
    (∀ k', k' ≠ k → in_shard ds k' → has_file ds k' →
       ReadMeta ds' k' = ReadMeta ds k' ∧
       ∀ n, 0 ≤ n ≤ ds_kvSize ds → ReadEncoded ds' k' n = ReadEncoded ds k' n).
Proof.
  intros Hwf Hk Hf Hb Hc Hm. destruct (serves_exists _ _ Hf) as (j & df & Hs).
  destruct (Write_ok ds k j df b commit Hwf Hk Hs Hb Hc Hm) as (e & df' & HW & Hkw & Hdec).
  destruct (replaced_serves ds Hwf k j df Hs _ _ df' (kw_frame _ _ _ _ _ _ Hkw)) as (Hwf1 & Hs1 & _).
  exists (replaced ds j df'). split_and!; [done..| | | |].
  - intros k'. by apply (has_file_replaced ds j df); [apply Hs|apply Hkw].
  - rw (ReadMeta_ok _ Hwf1 k Hk j df' Hs1). by rw (kw_meta _ _ _ _ _ _ Hkw).
  - intros commit' n E24 Hn. by apply (Read_written ds k j df df' e b commit).
  - intros k' Hne Hk' Hf'. exact (other_kv_unchanged ds k j df df' k' Hwf Hk Hs (kw_frame _ _ _ _ _ _ Hkw) Hne Hk' Hf').
Qed.

(** Writing encoded data as it is. *)
Lemma WriteEncoded_shard ds k b commit :
  ds_wf ds → in_shard ds k → has_file ds k → zlen b ≤ ds_kvSize ds → zlen commit = 32 →
  ∃ ds', WriteWith k b commit (λ _ cdata _, Ret cdata) ds = (Ret tt, ds') ∧ ds_wf ds' ∧
    (set_files ds (ds_dataFiles ds') = ds' ∧ ∀ k', has_file ds k' → has_file ds' k') ∧
    ReadMeta ds' k = Ret (commit, None) ∧
    (∀ n, 0 ≤ n ≤ ds_kvSize ds →
       ReadEncoded ds' k n = Ret (take (Z.to_nat n) (padded (ds_kvSize ds) b))) ∧
    (∀ k', k' ≠ k → in_shard ds k' → has_file ds k' →
       ReadMeta ds' k' = ReadMeta ds k' ∧
       ∀ n, 0 ≤ n ≤ ds_kvSize ds → ReadEncoded ds' k' n = ReadEncoded ds k' n).
Proof.
  intros Hwf Hk Hf Hb Hc. destruct (serves_exists _ _ Hf) as (j & df & Hs).
  pose proof Hwf as [H1 H2 H3 _ _ _ _].
  set (D := padded (ds_kvSize ds) b).
  have HD : zlen D = ds_chunksPerKv ds * ds_chunkSize ds.
  { rw /D /zlen length_padded -H3. pose proof (ds_bounds ds Hwf). lia. }
  destruct (WriteWith_ok ds Hwf k Hk j df Hs b commit (λ _ cdata _, Ret cdata)
    (chunk_of (ds_chunkSize ds) D)) as (df' & HW & Hkw); [done..| |].
  { intros ds' i Hi _ _ _. split; [done|]. by apply (zlen_chunk_of _ (ds_chunksPerKv ds)). }
  destruct (replaced_serves ds Hwf k j df Hs _ _ df' (kw_frame _ _ _ _ _ _ Hkw)) as (Hwf1 & Hs1 & _).
  exists (replaced ds j df'). split_and!; [done..| | | |].
  - intros k'. by apply (has_file_replaced ds j df); [apply Hs|apply Hkw].
  - rw (ReadMeta_ok _ Hwf1 k Hk j df' Hs1). by rw (kw_meta _ _ _ _ _ _ Hkw).
  - intros n Hn. rw (ReadEncoded_ok _ k j df' n Hwf1 Hk Hs1 Hn) /=.
    rw (bind_ext_elem _ _ (chunk_of (ds_chunkSize ds) D)).
    { intros i Hi%elem_of_seqZ. apply (kw_chunk _ _ _ _ _ _ Hkw). lia. }
    by rw concat_chunks; [lia..|].
  - intros k' Hne Hk' Hf'.
    exact (other_kv_unchanged ds k j df df' k' Hwf Hk Hs (kw_frame _ _ _ _ _ _ Hkw) Hne Hk' Hf').
Qed.

(** On a well-formed shard that has a file for KV [k], [Write] succeeds and
    keeps the shard well formed; the stored commit is the one written; [Read]
    with any commit of the same data hash returns the data padded with zeros
    when the commit check accepts it and the error of the check otherwise; and
    what is stored for every other KV of the shard is unchanged. *)
Theorem Write_Read `{GethLaws} ds k b commit :
  ds_wf ds → in_shard ds k → has_file ds k →
  zlen b ≤ ds_kvSize ds → zlen commit = 32 → kv_maskable ds k commit →
  ∃ ds', Write k b commit ds = (Ret tt, ds') ∧ ds_wf ds' ∧
    ReadMeta ds' k = Ret (commit, None) ∧
    (∀ commit' n, take 24 commit' = take 24 commit → 0 ≤ n ≤ ds_kvSize ds →
       Read ds' k n commit' =
         (_ ← checkCommit commit' (padded (ds_kvSize ds) b);
          mret (take (Z.to_nat n) (padded (ds_kvSize ds) b)))) ∧
    (∀ k', k' ≠ k → in_shard ds k' → has_file ds k' →
       ReadMeta ds' k' = ReadMeta ds k' ∧
       ∀ n, 0 ≤ n ≤ ds_kvSize ds → ReadEncoded ds' k' n = ReadEncoded ds k' n).
Proof.
  intros Hwf Hk Hf Hb Hc Hm.
  destruct (Write_shard ds k b commit Hwf Hk Hf Hb Hc Hm) as (ds' & H1 & H2 & _ & H3 & H4 & H5).
  by exists ds'.
Qed.

(** ** Two ways to write the same chunks *)

Lemma Write_same_params c b df : same_params df (DataFile.Write c b df).2.
Proof.
  rw /DataFile.Write. repeat case_match; rw /same_params //=; by destruct df.
Qed.

Lemma on_file_same_params {A} p (op : ST DataFile A) none l :
  (∀ df, same_params df (op df).2) → Forall2 same_params l (on_file p op none l).2.
Proof.
  intros Hop. have Hid df : same_params df df by rw /same_params; destruct df.
  have Hrefl (m : list DataFile) : Forall2 same_params m m.
  { induction m; constructor; auto. }
  induction l as [|df l IH]; simpl; [constructor|].
  destruct (p df) as [[|]| |]; simpl; [| |by constructor..].
  - specialize (Hop df). destruct (op df). by constructor.
  - destruct (on_file p op none l). by constructor.
Qed.

(** The part of a shard that the encoders look at. *)
Definition same_head (ds ds' : DataShard) : Prop :=
  Miner ds' = Miner ds ∧ EncodeType ds' = EncodeType ds ∧
  ds_chunkSize ds' = ds_chunkSize ds ∧ ds_chunksPerKv ds' = ds_chunksPerKv ds.

Lemma writeChunk_same_head c b ds : same_head ds (writeChunk c b ds).2.
Proof.
  rw /writeChunk. pose proof (on_file_same_params (λ df, Ret (DataFile.Contains df c))
    (DataFile.Write c b) chunk_missing (ds_dataFiles ds) (Write_same_params c b)) as HF.
  destruct (on_file _ _ _ _) as [r l] eqn:E. simpl in *. rw /same_head /Miner /EncodeType /=.
  destruct HF as [|df df' l1 l2 Hp _]; [done|].
  by destruct (same_params_fields _ _ Hp) as (_ & _ & ? & _ & _ & _ & ?).
Qed.

Lemma WriteWith_ext ds k b1 b2 commit enc1 enc2 :
  zlen b1 ≤ ds_kvSize ds → zlen b2 ≤ ds_kvSize ds →
  (∀ ds' i, 0 ≤ i < ds_chunksPerKv ds → same_head ds ds' →
     let lo := int64 (mul64 i (ds_chunkSize ds)) in
     let hi := int64 (mul64 (add64 i 1) (ds_chunkSize ds)) in
     let idx := add64 (mul64 k (ds_chunksPerKv ds)) i in
     (c ← slice (padded (ds_kvSize ds) b1) lo hi; enc1 ds' c idx) =
     (c ← slice (padded (ds_kvSize ds) b2) lo hi; enc2 ds' c idx)) →
  WriteWith k b1 commit enc1 ds = WriteWith k b2 commit enc2 ds.
Proof.
  intros H1 H2 Henc. rw /WriteWith. destruct (negb (Contains ds k)); [done|].
  rw !(proj2 (Z.ltb_ge _ _)) //. rw /mbind /st_bind.
  erewrite (st_foldM_ext (same_head ds)); [done| |done].
  intros u i ds' Hi%elem_of_seqZ Hh. pose proof Hh as (Em & Ee & Ec & Ek).
  rw /write_kv_chunk Ec Ek -(Henc ds' i ltac:(lia) Hh). split; [done|].
  destruct (slice _ _ _ ≫= _) as [e| |]; [|done..].
  destruct (writeChunk_same_head (add64 (mul64 k (ds_chunksPerKv ds)) i) e ds') as (? & ? & ? & ?).
  rw /same_head. split_and!; congruence.
Qed.

(** [AddDataFile] on a well-formed shard.  The first file is always taken;
    a later file is taken exactly when its provider, encode type and KV size
    agree with the first one, and is otherwise refused with the shard unchanged.
    A file of the shard's sizes that holds whole KVs keeps the shard well
    formed. *)
Theorem AddDataFile_spec ds df :
  ds_wf ds → df_wf df → df_chunkSize df = ds_chunkSize ds → df_maxKvSize df = ds_kvSize ds →
  df_chunkIdxStart df = df_chunkIdxStart df / ds_chunksPerKv ds * ds_chunksPerKv ds →
  df_chunkIdxLen df = df_chunkIdxLen df / ds_chunksPerKv ds * ds_chunksPerKv ds →
  (ds_dataFiles ds = [] ∨ df_miner df = Miner ds ∧ df_encodeType df = EncodeType ds →
     ∃ ds', AddDataFile df ds = (Ret tt, ds') ∧ ds_wf ds' ∧
            ds_dataFiles ds' = ds_dataFiles ds ++ [df]) ∧
  (ds_dataFiles ds ≠ [] → df_miner df ≠ Miner ds ∨ df_encodeType df ≠ EncodeType ds →
     ∃ e, AddDataFile df ds = (Fail e, ds)).
Proof.
  intros Hwf Hdf Hcs Hkv Hst Hln. rw /AddDataFile.
  pose proof Hwf as [H1 H2 H3 H4 H5 H6 H7].
  destruct (ds_dataFiles ds) as [|df0 fs] eqn:Efs.
  - split; [|done]. intros _. eexists. split; [done|]. split; [|done].
    constructor; simpl; try done. constructor; [|done]. by constructor.
  - rw /Miner /EncodeType Efs. inversion H7 as [|? ? Hf0 Hfs]; subst.
    rw (fo_maxKvSize _ _ Hf0) Hkv Z.eqb_refl /=.
    split.
    + intros [|[Em Ee]]; [done|]. rw Em Ee bool_decide_eq_true_2 // Z.eqb_refl /=.
      eexists. split; [done|]. split; [|done]. constructor; simpl; try done.
      change (df0 :: fs ++ [df]) with ((df0 :: fs) ++ [df]). apply Forall_app. split.
      * eapply Forall_impl; [exact H7|]. intros d [? ? ? ? ? E1 E2]. constructor; try done.
        -- by rw E1 /Miner Efs.
        -- by rw E2 /EncodeType Efs.
      * constructor; [|done]. by constructor.
    + intros _ [Hm|He].
      * rw bool_decide_eq_false_2 /=; [congruence|]. by eexists.
      * case_bool_decide; [|by eexists]. simpl. case: Z.eqb_spec => [?|_]; [congruence|]. by eexists.
Qed.

(** ** A concrete shard: KVs 2 and 3, two chunks each, in one data file *)

Definition ex_ds : DataShard := mkDataShard 1 128 2 2 [ex_df] 64.

Lemma ex_ds_wf : ds_wf ex_ds.
Proof.
  constructor; try by vm_compute. constructor; [|done].
  constructor; [apply ex_df_wf|by vm_compute..].
Qed.

Lemma ex_ds_file : has_file ex_ds 3.
Proof. exists ex_df. split; [apply list_elem_of_here|by vm_compute]. Qed.

Definition ex_commit : bytes := toy_hash (padded 64 [9; 8; 7]).

Lemma ex_ds_maskable : kv_maskable ex_ds 3 ex_commit.
Proof.
  split; [done|]. intros i Hi. have Ei : i = 0 ∨ i = 1 by simpl in Hi; lia.
  destruct Ei as [-> | ->]; split; by vm_compute.
Qed.

Lemma ex_check : checkCommit ex_commit (padded 128 [9; 8; 7]) = Ret tt.
Proof. apply (toy_checkCommit (padded 128 [9; 8; 7])); by vm_compute. Qed.

Lemma Write_Read_witness :
  ∃ ds', Write 3 [9; 8; 7] ex_commit ex_ds = (Ret tt, ds') ∧
    Read ds' 3 3 ex_commit = Ret [9; 8; 7].
Proof.
  have H3 : 0 ≤ 3 ≤ ds_kvSize ex_ds by vm_compute.
  destruct (Write_Read ex_ds 3 [9; 8; 7] ex_commit ex_ds_wf) as (ds' & HW & _ & _ & HR & _).
  - by vm_compute.
  - exact ex_ds_file.
  - by vm_compute.
  - by vm_compute.
  - exact ex_ds_maskable.
  - exists ds'. split; [exact HW|]. etransitivity; [exact (HR ex_commit 3 eq_refl H3)|].
    change (ds_kvSize ex_ds) with 128. rw ex_check. vm_compute. reflexivity.
Defined.

Lemma AddDataFile_spec_witness :
  ∃ ds', AddDataFile ex_df ex_ds = (Ret tt, ds') ∧ ds_wf ds'.
Proof.
  destruct (AddDataFile_spec ex_ds ex_df ex_ds_wf ex_df_wf) as [H _]; [by vm_compute..|].
  destruct H as (ds' & H1 & H2 & _); [by right|]. by exists ds'.
Defined.
