(* ===== verification/ShardManager.v ===== *)
(** * Shard manager (shard_manager.go)

    The shards of one contract by shard index, the routing of KV and chunk
    indices to shards, and the encoding of whole KVs.  A Go map is a [gmap];
    where the code ranges over a map, the order in which the runtime visits the
    keys is an argument. *)

From S2P Require Import Prelude Bits Extern Ethash DataFile ChunkCodec DataShard.

Record ShardManager := mkShardManager {
  sm_shardMap : gmap Z DataShard;
  sm_contractAddress : bytes;
  sm_kvSizeBits : Z;
  sm_kvSize : Z;
  sm_chunksPerKvBits : Z;
  sm_chunksPerKv : Z;
  sm_kvEntriesBits : Z;
  sm_kvEntries : Z;
  sm_chunkSize : Z;
  sm_chunkSizeBits : Z }.

Definition set_shards (sm : ShardManager) (m : gmap Z DataShard) : ShardManager :=
  mkShardManager m (sm_contractAddress sm) (sm_kvSizeBits sm) (sm_kvSize sm)
    (sm_chunksPerKvBits sm) (sm_chunksPerKv sm) (sm_kvEntriesBits sm) (sm_kvEntries sm)
    (sm_chunkSize sm) (sm_chunkSizeBits sm).

(** The new manager is also entered in the global [ContractToShardManager], from
    which the sync client reads the KV size of a contract (its field [c_kvSizes]). *)
Definition NewShardManager (contractAddress : bytes) (kvSize kvEntries chunkSize : Z)
    : gores ShardManager :=
  if kvSize <? chunkSize then Panic (Explicit "kvSize must > chunkSize")
  else
    kvSizeBits ← checkAndGetBits kvSize;
    chunkSizeBits ← checkAndGetBits chunkSize;
    kvEntriesBits ← checkAndGetBits kvEntries;
    chunksPerKv ← udiv kvSize chunkSize;
    mret (mkShardManager ∅ contractAddress kvSizeBits kvSize (sub64 kvSizeBits chunkSizeBits)
            chunksPerKv kvEntriesBits kvEntries chunkSize chunkSizeBits).

(** [slices.Sort] of the keys. *)
Definition ShardIds (sm : ShardManager) : list Z :=
  merge_sort Z.le (map_to_list (sm_shardMap sm)).*1.

Definition ContractAddress (sm : ShardManager) : bytes := sm_contractAddress sm.
Definition ShardMap (sm : ShardManager) : gmap Z DataShard := sm_shardMap sm.
Definition ChunkSize (sm : ShardManager) : Z := sm_chunkSize sm.
Definition ChunksPerKv (sm : ShardManager) : Z := sm_chunksPerKv sm.
Definition ChunksPerKvBits (sm : ShardManager) : Z := sm_chunksPerKvBits sm.
Definition KvEntries (sm : ShardManager) : Z := sm_kvEntries sm.
Definition KvEntriesBits (sm : ShardManager) : Z := sm_kvEntriesBits sm.
Definition MaxKvSize (sm : ShardManager) : Z := sm_kvSize sm.
Definition MaxKvSizeBits (sm : ShardManager) : Z := sm_kvSizeBits sm.

(** ** Shards and data files *)

Definition AddDataShard (shardIdx : Z) : ST ShardManager unit := λ sm,
  match sm_shardMap sm !! shardIdx with
  | None =>
      match NewDataShard shardIdx (sm_kvSize sm) (sm_kvEntries sm) (sm_chunkSize sm) with
      | Ret ds => (Ret tt, set_shards sm (<[shardIdx := ds]> (sm_shardMap sm)))
      | Fail e => (Fail e, sm)
      | Panic p => (Panic p, sm)
      end
  | Some _ => (Fail (ErrMsg "data shard already exists"), sm)
  end.

Definition file_shard (sm : ShardManager) (df : DataFile) : gores Z :=
  q ← udiv (df_chunkIdxStart df) (sm_chunksPerKv sm);
  udiv q (sm_kvEntries sm).

(** Runs an operation of shard [shardIdx] and stores the shard back. *)
Definition in_shard_map {A} (shardIdx : Z) (ds : DataShard) (op : ST DataShard A)
    : ST ShardManager A := λ sm,
  let '(r, ds') := op ds in (r, set_shards sm (<[shardIdx := ds']> (sm_shardMap sm))).

Definition AddDataFile (df : DataFile) : ST ShardManager unit := λ sm,
  match file_shard sm df with
  | Ret shardIdx =>
      match sm_shardMap sm !! shardIdx with
      | None => (Fail (ErrMsg "data shard not found"), sm)
      | Some ds => in_shard_map shardIdx ds (DataShard.AddDataFile df) sm
      end
  | Fail e => (Fail e, sm)
  | Panic p => (Panic p, sm)
  end.

Definition AddDataFileAndShard (df : DataFile) : ST ShardManager unit := λ sm,
  match file_shard sm df with
  | Ret shardIdx =>
      match sm_shardMap sm !! shardIdx with
      | None =>
          match NewDataShard shardIdx (sm_kvSize sm) (sm_kvEntries sm) (sm_chunkSize sm) with
          | Ret ds => in_shard_map shardIdx ds (DataShard.AddDataFile df) sm
          | Fail e => (Fail e, sm)
          | Panic p => (Panic p, sm)
          end
      | Some ds => in_shard_map shardIdx ds (DataShard.AddDataFile df) sm
      end
  | Fail e => (Fail e, sm)
  | Panic p => (Panic p, sm)
  end.

(** ** Reads and writes

    [Ret None] is "not managed" ([nil, false, nil]), [Ret (Some r)] is
    [(r, true, nil)] and [Fail e] is [(_, true, e)]. *)

Definition with_shard {A} (sm : ShardManager) (kvIdx : Z) (op : DataShard → gores A)
    : gores (option A) :=
  shardIdx ← udiv kvIdx (sm_kvEntries sm);
  match sm_shardMap sm !! shardIdx with
  | Some ds => r ← op ds; mret (Some r)
  | None => mret None
  end.

(** The same for writes; the boolean is the first result of the Go function. *)
Definition with_shard_st (kvIdx : Z) (op : ST DataShard unit) : ST ShardManager bool := λ sm,
  match udiv kvIdx (sm_kvEntries sm) with
  | Ret shardIdx =>
      match sm_shardMap sm !! shardIdx with
      | Some ds => (_ ← in_shard_map shardIdx ds op; mret true) sm
      | None => (Ret false, sm)
      end
  | Fail e => (Fail e, sm)
  | Panic p => (Panic p, sm)
  end.

Definition TryWrite `{Geth} (kvIdx : Z) (b commit : bytes) : ST ShardManager bool :=
  with_shard_st kvIdx (DataShard.Write kvIdx b commit).

Definition TryWriteEncoded (kvIdx : Z) (b commit : bytes) : ST ShardManager bool :=
  with_shard_st kvIdx (WriteWith kvIdx b commit (λ _ cdata _, Ret cdata)).

Definition TryRead `{Geth} (sm : ShardManager) (kvIdx readLen : Z) (commit : bytes)
    : gores (option bytes) :=
  with_shard sm kvIdx (λ ds, DataShard.Read ds kvIdx readLen commit).

Definition TryReadWithMeta `{Geth} (sm : ShardManager) (kvIdx readLen : Z)
    : gores (option (bytes * bytes)) :=
  with_shard sm kvIdx (λ ds, DataShard.ReadWithMeta ds kvIdx readLen).

(** The slice is taken before the error is looked at: [b] is nil after an error. *)
Definition TryReadEncoded (sm : ShardManager) (kvIdx readLen : Z) : gores (option bytes) :=
  with_shard sm kvIdx (λ ds,
    match ReadEncoded ds kvIdx readLen with
    | Ret b => slice b 0 readLen
    | Fail e => _ ← slice [] 0 readLen; Fail e
    | Panic p => Panic p
    end).

Definition TryReadMeta (sm : ShardManager) (kvIdx : Z) : gores (option (bytes * option error)) :=
  with_shard sm kvIdx (λ ds, DataShard.ReadMeta ds kvIdx).

Definition chunk_split (sm : ShardManager) (chunkIdx : Z) : gores (Z * Z) :=
  kvIdx ← udiv chunkIdx (sm_chunksPerKv sm);
  cIdx ← umod chunkIdx (sm_chunksPerKv sm);
  mret (kvIdx, cIdx).

Definition TryReadChunk `{Geth} (sm : ShardManager) (chunkIdx : Z) (commit : bytes)
    : gores (option bytes) :=
  '(kvIdx, cIdx) ← chunk_split sm chunkIdx;
  with_shard sm kvIdx (λ ds, ReadChunk ds kvIdx cIdx commit).

Definition TryReadChunkEncoded (sm : ShardManager) (chunkIdx : Z) : gores (option bytes) :=
  '(kvIdx, cIdx) ← chunk_split sm chunkIdx;
  with_shard sm kvIdx (λ ds, ReadChunkEncoded ds kvIdx cIdx).

Definition GetShardMiner (sm : ShardManager) (shardIdx : Z) : bytes * bool :=
  match sm_shardMap sm !! shardIdx with
  | Some ds => (DataShard.Miner ds, true)
  | None => (zeros 20, false)
  end.

Definition GetShardEncodeType (sm : ShardManager) (shardIdx : Z) : Z * bool :=
  match sm_shardMap sm !! shardIdx with
  | Some ds => (EncodeType ds, true)
  | None => (NO_ENCODE, false)
  end.

(** ** Encoding of KVs *)

Definition DecodeOrEncodeKV `{Geth} (sm : ShardManager) (kvIdx : Z) (b hash providerAddr : bytes)
    (encode : bool) (encodeType : Z) : gores (option bytes) :=
  with_shard sm kvIdx (λ ds,
    '(data, _) ← foldM (λ '(data, datalen) i,
        if datalen =? 0 then mret (data, datalen)
        else
          let chunkReadLen := Z.min datalen (int64 (sm_chunkSize sm)) in
          let chunkIdx := add64 (mul64 kvIdx (ds_chunksPerKv ds)) i in
          let encodeKey := calcEncodeKey hash chunkIdx providerAddr in
          let off := mul64 i (sm_chunkSize sm) in
          chunk ← slice b off (add64 off (wrap64 chunkReadLen));
          cdata ← (if encode then encodeChunk (sm_chunkSize sm) chunk encodeType encodeKey
                   else decodeChunk (sm_chunkSize sm) chunk encodeType encodeKey);
          mret (data ++ cdata, datalen - chunkReadLen))
      ([], zlen b) (seqZ 0 (ds_chunksPerKv ds));
    mret data).

Definition DecodeKV `{Geth} (sm : ShardManager) (kvIdx : Z) (b hash providerAddr : bytes)
    (encodeType : Z) : gores (option bytes) :=
  DecodeOrEncodeKV sm kvIdx b hash providerAddr false encodeType.

Definition EncodeKV `{Geth} (sm : ShardManager) (kvIdx : Z) (b hash providerAddr : bytes)
    (encodeType : Z) : gores (option bytes) :=
  DecodeOrEncodeKV sm kvIdx b hash providerAddr true encodeType.

Definition TryEncodeKV `{Geth} (sm : ShardManager) (kvIdx : Z) (b hash : bytes)
    : gores (option bytes) :=
  shardIdx ← udiv kvIdx (sm_kvEntries sm);
  match sm_shardMap sm !! shardIdx with
  | Some ds =>
      let cb := go_copy (zeros (ds_kvSize ds)) b in
      EncodeKV sm kvIdx cb hash (DataShard.Miner ds) (EncodeType ds)
  | None => mret None
  end.

(** ** The whole manager *)

(** [order] is the order in which the shards are visited. *)
Definition IsComplete (sm : ShardManager) (order : list Z) : gores unit :=
  foldM (λ _ i,
      match sm_shardMap sm !! i with
      | Some ds =>
          DataShard.IsComplete ds ≫= λ complete : bool,
          if complete then mret tt else Fail (ErrMsg "shard is not complete")
      | None => mret tt
      end) tt order.

Definition Close (order : list Z) : ST ShardManager unit :=
  st_foldM (λ _ i sm,
      match sm_shardMap sm !! i with
      | Some ds => in_shard_map i ds DataShard.Close sm
      | None => (Ret tt, sm)
      end) tt order.

(** ** Geometry *)

(** The sizes a shard manager takes. *)
Definition pow2 (v : Z) : Prop := ∃ n, 0 ≤ n ∧ v = 2 ^ n.

(** [NewShardManager] returns exactly when the chunk size is at most the
    KV size and all three sizes are powers of two, and panics otherwise; the
    manager it returns is empty, its bit counts are the binary logarithms of its
    sizes, and a KV is exactly [chunksPerKv] chunks. *)
Theorem NewShardManager_spec addr kvSize kvEntries chunkSize :
  is_u64 kvSize → is_u64 kvEntries → is_u64 chunkSize →
  let geometry := chunkSize ≤ kvSize ∧ pow2 kvSize ∧ pow2 chunkSize ∧ pow2 kvEntries in
  (¬ geometry ∧ ∃ p, NewShardManager addr kvSize kvEntries chunkSize = Panic p) ∨
  geometry ∧ ∃ sm, NewShardManager addr kvSize kvEntries chunkSize = Ret sm ∧
    sm_shardMap sm = ∅ ∧ sm_contractAddress sm = addr ∧
    sm_kvSize sm = kvSize ∧ sm_kvEntries sm = kvEntries ∧ sm_chunkSize sm = chunkSize ∧
    kvSize = 2 ^ sm_kvSizeBits sm ∧ kvEntries = 2 ^ sm_kvEntriesBits sm ∧
    chunkSize = 2 ^ sm_chunkSizeBits sm ∧ sm_chunksPerKv sm = 2 ^ sm_chunksPerKvBits sm ∧
    kvSize = sm_chunksPerKv sm * chunkSize ∧ 0 < chunkSize ≤ kvSize ∧
    ∀ k, 0 ≤ k → Z.shiftr k (sm_kvEntriesBits sm) = k / sm_kvEntries sm.
Proof.
  intros Hk He Hc geometry. rw /NewShardManager.
  case: Z.ltb_spec => Hle; [left; split; [intros [? _]; lia|by eexists]|].
  have HB v : is_u64 v → (¬ pow2 v ∧ ∃ p, checkAndGetBits v = Panic p) ∨
                          ∃ n, checkAndGetBits v = Ret n ∧ 0 ≤ n < 64 ∧ v = 2 ^ n.
  { intros Hv. destruct (checkAndGetBits v) as [n|e|p] eqn:E.
    - right. exists n. split; [done|]. by apply checkAndGetBits_ret.
    - exfalso. move: E. rw /checkAndGetBits. by destruct (isPow2n v).
    - left. split; [|by eexists]. intros (n & Hn & Ev).
      have Hlt : n < 64 by apply (Z.pow_lt_mono_r_iff 2); rw /is_u64 /two64 in Hv; lia.
      have E2 := proj2 (checkAndGetBits_ret v n Hv) (conj (conj Hn Hlt) Ev). congruence. }
  destruct (HB kvSize Hk) as [[Hno [p ->]]|(a & -> & Ha & Ea)]; [left; split; [by intros (?&?&?&?)|by eexists]|].
  destruct (HB chunkSize Hc) as [[Hno [p ->]]|(c & -> & Hcb & Ec)]; [left; split; [by intros (?&?&?&?)|by eexists]|].
  destruct (HB kvEntries He) as [[Hno [p ->]]|(n & -> & Hn & En)]; [left; split; [by intros (?&?&?&?)|by eexists]|]. simpl.
  have Hcpos : 0 < chunkSize by rw Ec; apply Z.pow_pos_nonneg; lia.
  have Hca : c ≤ a by apply (Z.pow_le_mono_r_iff 2); lia.
  rw udiv_nz /=; [lia|]. right.
  split; [split_and!; [done|exists a; lia|exists c; lia|exists n; lia]|]. eexists. split; [done|]. simpl.
  have E : kvSize = 2 ^ (a - c) * chunkSize by rw Ea Ec -Z.pow_add_r; [lia..|f_equal; lia].
  rw /sub64 wrap64_small; [rw /two64; lia|].
  have Ed : kvSize / chunkSize = 2 ^ (a - c) by rw {1}E Z.div_mul; lia.
  split_and!; try done; try lia. intros k Hk0. by rw Z.shiftr_div_pow2 ?En; [lia|].
Qed.

Lemma NewShardManager_spec_witness :
  ∃ sm, NewShardManager (zeros 20) 131072 262144 4096 = Ret sm ∧ sm_chunksPerKv sm = 32.
Proof.
  destruct (NewShardManager_spec (zeros 20) 131072 262144 4096) as [[_ [p H]]|(_ & sm & H & _)];
    [by vm_compute..|by vm_compute in H|].
  exists sm. split; [done|]. vm_compute in H. by injection H as <-.
Defined.

(** ** Well-formed managers *)

Record sm_wf (sm : ShardManager) : Prop := {
  smwf_entries : 0 < sm_kvEntries sm;
  smwf_shards i ds : sm_shardMap sm !! i = Some ds →
    ds_wf ds ∧ ds_shardIdx ds = i ∧ ds_kvEntries ds = sm_kvEntries sm ∧
    ds_kvSize ds = sm_kvSize sm ∧ ds_chunkSize ds = sm_chunkSize sm ∧
    ds_chunksPerKv ds = sm_chunksPerKv sm }.

(** The shard that a KV index is routed to. *)
Definition shard_of (sm : ShardManager) (k : Z) : option DataShard :=
  sm_shardMap sm !! (k / sm_kvEntries sm).

Lemma shard_of_spec sm k ds :
  sm_wf sm → shard_of sm k = Some ds → ds_wf ds ∧ in_shard ds k.
Proof.
  intros [He Hs] Hk. destruct (Hs _ _ Hk) as (Hwf & Ei & Ee & _). split; [done|].
  rw /in_shard Ei Ee. pose proof (Z.div_mod k (sm_kvEntries sm) ltac:(lia)).
  pose proof (Z.mod_pos_bound k (sm_kvEntries sm) ltac:(lia)). nia.
Qed.

Lemma with_shard_ok {A} sm k (op : DataShard → gores A) :
  sm_wf sm →
  with_shard sm k op =
    match shard_of sm k with Some ds => r ← op ds; mret (Some r) | None => mret None end.
Proof. intros [He _]. rw /with_shard udiv_nz //. lia. Qed.

Lemma with_shard_st_ok sm k op ds ds' :
  sm_wf sm → shard_of sm k = Some ds → op ds = (Ret tt, ds') →
  with_shard_st k op sm =
    (Ret true, set_shards sm (<[k / sm_kvEntries sm := ds']> (sm_shardMap sm))).
Proof.
  intros [He _] Hk Hop. rw /with_shard_st udiv_nz; [lia|]. rw /shard_of in Hk.
  by rw Hk /mbind /st_bind /in_shard_map Hop.
Qed.

Lemma with_shard_st_none sm k op :
  sm_wf sm → shard_of sm k = None → with_shard_st k op sm = (Ret false, sm).
Proof. intros [He _] Hk. rw /with_shard_st udiv_nz; [lia|]. rw /shard_of in Hk. by rw Hk. Qed.

(** Storing a shard of the same geometry back. *)
Lemma set_shard_wf sm i ds ds' :
  sm_wf sm → sm_shardMap sm !! i = Some ds → ds_wf ds' →
  ds_shardIdx ds' = ds_shardIdx ds → ds_kvEntries ds' = ds_kvEntries ds →
  ds_kvSize ds' = ds_kvSize ds → ds_chunkSize ds' = ds_chunkSize ds →
  ds_chunksPerKv ds' = ds_chunksPerKv ds →
  sm_wf (set_shards sm (<[i := ds']> (sm_shardMap sm))).
Proof.
  intros [He Hs] Hi Hwf E1 E2 E3 E4 E5. constructor; simpl; [done|]. intros i' d Hd.
  destruct (decide (i' = i)) as [->|Hne].
  - rw lookup_insert_eq in Hd. injection Hd as <-. destruct (Hs _ _ Hi) as (_ & ? & ? & ? & ? & ?).
    rw E1 E2 E3 E4 E5. done.
  - rw lookup_insert_ne in Hd; [congruence|]. by apply Hs.
Qed.

Lemma shard_of_set sm i ds' k :
  shard_of (set_shards sm (<[i := ds']> (sm_shardMap sm))) k =
    if decide (k / sm_kvEntries sm = i) then Some ds' else shard_of sm k.
Proof.
  rw /shard_of /=. case_decide as E; [by rw E lookup_insert_eq|].
  rw lookup_insert_ne; [congruence|done].
Qed.

(** A KV the node stores: its shard is managed and has a file for it. *)
Definition stored (sm : ShardManager) (k : Z) : Prop :=
  ∃ ds, shard_of sm k = Some ds ∧ has_file ds k.

(** What a write of KV [k] may do to the manager: it stays well formed, the
    commit of [k] is [commit], and every other stored KV keeps its record and
    its encoded data. *)
Record sm_written (sm : ShardManager) (k : Z) (commit : bytes) (sm' : ShardManager) : Prop := {
  sw_wf : sm_wf sm';
  sw_stored k' : stored sm k' → stored sm' k';
  sw_meta : TryReadMeta sm' k = Ret (Some (commit, None));
  sw_other k' : k' ≠ k → stored sm k' →
    TryReadMeta sm' k' = TryReadMeta sm k' ∧
    ∀ n, 0 ≤ n ≤ sm_kvSize sm → TryReadEncoded sm' k' n = TryReadEncoded sm k' n }.

(** The manager after an operation on shard [ds] that kept its geometry. *)
Lemma sm_written_intro sm k ds ds' commit :
  sm_wf sm → shard_of sm k = Some ds → ds_wf ds' →
  set_files ds (ds_dataFiles ds') = ds' →
  (∀ k', has_file ds k' → has_file ds' k') →
  DataShard.ReadMeta ds' k = Ret (commit, None) →
  (∀ k', k' ≠ k → in_shard ds k' → has_file ds k' →
     DataShard.ReadMeta ds' k' = DataShard.ReadMeta ds k' ∧
     ∀ n, 0 ≤ n ≤ ds_kvSize ds → ReadEncoded ds' k' n = ReadEncoded ds k' n) →
  sm_written sm k commit (set_shards sm (<[k / sm_kvEntries sm := ds']> (sm_shardMap sm))).
Proof.
  intros Hwf Hk Hwf' Hset Hfile Hmeta Hother.
  set (sm' := set_shards sm _).
  destruct (smwf_shards _ Hwf _ _ Hk) as (_ & Ei & Ee & Ekv & _).
  have Hwf1 : sm_wf sm'.
  { apply (set_shard_wf sm _ ds); [exact Hwf|exact Hk|exact Hwf'|by rw -Hset..]. }
  have Hk1 : shard_of sm' k = Some ds' by rw /sm' shard_of_set decide_True.
  constructor; [done| | |].
  - intros k' (d & Hd & Hf). rw /stored /sm' shard_of_set. case_decide as E.
    + exists ds'. split; [done|]. apply Hfile. rw /shard_of E in Hd. rw /shard_of in Hk. by simplify_eq.
    + by exists d.
  - by rw /TryReadMeta with_shard_ok // Hk1 Hmeta.
  - intros k' Hne (d & Hd & Hf).
    have Hk' : shard_of sm' k' = if decide (k' / sm_kvEntries sm = k / sm_kvEntries sm)
                                 then Some ds' else shard_of sm k' by rw /sm' shard_of_set.
    destruct (decide (k' / sm_kvEntries sm = k / sm_kvEntries sm)) as [E|E]; last first.
    { split; [|intros n Hn]; rw ?/TryReadMeta ?/TryReadEncoded !with_shard_ok // Hk' //. }
    have Ed : d = ds by rw /shard_of E in Hd; rw /shard_of in Hk; congruence. subst d.
    destruct (shard_of_spec sm k' ds Hwf Hd) as [_ Hin].
    destruct (Hother k' Hne Hin Hf) as [H1 H2].
    split; [|intros n Hn]; rw ?/TryReadMeta ?/TryReadEncoded !with_shard_ok // Hk' Hd.
    + by rw H1.
    + rw H2 // Ekv //.
Qed.

(** The masks of all chunks of a stored KV exist. *)
Definition sm_maskable `{Geth} (sm : ShardManager) (k : Z) (commit : bytes) : Prop :=
  ∀ ds, shard_of sm k = Some ds → kv_maskable ds k commit.

Lemma TryWrite_ok `{GethLaws} sm k b commit :
  sm_wf sm → stored sm k → zlen b ≤ sm_kvSize sm → zlen commit = 32 → sm_maskable sm k commit →
  ∃ sm', TryWrite k b commit sm = (Ret true, sm') ∧ sm_written sm k commit sm' ∧
    ∀ commit' n, take 24 commit' = take 24 commit → 0 ≤ n ≤ sm_kvSize sm →
      TryRead sm' k n commit' =
        (_ ← checkCommit commit' (padded (sm_kvSize sm) b);
         mret (Some (take (Z.to_nat n) (padded (sm_kvSize sm) b)))).
Proof.
  intros Hwf (ds & Hk & Hf) Hb Hc Hm. destruct (shard_of_spec sm k ds Hwf Hk) as [Hds Hin].
  destruct (smwf_shards _ Hwf _ _ Hk) as (_ & _ & _ & Ekv & _).
  destruct (Write_shard ds k b commit Hds Hin Hf ltac:(lia) Hc (Hm ds Hk))
    as (ds' & HW & Hwf' & [Hset Hfile] & Hmeta & HR & Hother).
  eexists. split; [exact (with_shard_st_ok sm k _ ds ds' Hwf Hk HW)|].
  pose proof (sm_written_intro sm k ds ds' commit Hwf Hk Hwf' Hset Hfile Hmeta Hother) as Hsw.
  split; [done|]. intros commit' n E Hn.
  rw /TryRead with_shard_ok; [apply Hsw|]. rw shard_of_set decide_True // HR //; [by rw Ekv|].
  rw Ekv. by destruct (checkCommit commit' _).
Qed.

Lemma TryWriteEncoded_ok sm k b commit :
  sm_wf sm → stored sm k → zlen b ≤ sm_kvSize sm → zlen commit = 32 →
  ∃ sm', TryWriteEncoded k b commit sm = (Ret true, sm') ∧ sm_written sm k commit sm' ∧
    sm_kvEntries sm' = sm_kvEntries sm ∧ sm_kvSize sm' = sm_kvSize sm ∧
    ∀ n, 0 ≤ n ≤ sm_kvSize sm →
      TryReadEncoded sm' k n = Ret (Some (take (Z.to_nat n) (padded (sm_kvSize sm) b))).
Proof.
  intros Hwf (ds & Hk & Hf) Hb Hc. destruct (shard_of_spec sm k ds Hwf Hk) as [Hds Hin].
  destruct (smwf_shards _ Hwf _ _ Hk) as (_ & _ & _ & Ekv & _).
  destruct (WriteEncoded_shard ds k b commit Hds Hin Hf ltac:(lia) Hc)
    as (ds' & HW & Hwf' & [Hset Hfile] & Hmeta & HR & Hother).
  eexists. split; [exact (with_shard_st_ok sm k _ ds ds' Hwf Hk HW)|].
  pose proof (sm_written_intro sm k ds ds' commit Hwf Hk Hwf' Hset Hfile Hmeta Hother) as Hsw.
  split_and!; [done..|]. intros n Hn.
  rw /TryReadEncoded with_shard_ok; [apply Hsw|]. rw shard_of_set decide_True // HR; [by rw Ekv|].
  rw Ekv slice_ok; [lia| |].
  { rw /zlen length_take length_padded. lia. }
  by rw /= Z.sub_0_r drop_0 take_take Nat.min_id.
Qed.

(** Writing and reading through the manager.  A KV whose shard is not
    managed is reported as such and nothing changes.  A stored KV is written,
    the manager stays well formed, the commit reads back, [TryRead] returns the
    padded data or the error of the commit check, and every other stored KV of
    every shard keeps its record and data. *)
Theorem TryWrite_TryRead `{GethLaws} sm k b commit :
  sm_wf sm →
  (shard_of sm k = None →
     TryWrite k b commit sm = (Ret false, sm) ∧ ∀ n, TryRead sm k n commit = Ret None) ∧
  (stored sm k → zlen b ≤ sm_kvSize sm → zlen commit = 32 → sm_maskable sm k commit →
   ∃ sm', TryWrite k b commit sm = (Ret true, sm') ∧ sm_written sm k commit sm' ∧
     ∀ commit' n, take 24 commit' = take 24 commit → 0 ≤ n ≤ sm_kvSize sm →
       TryRead sm' k n commit' =
         (_ ← checkCommit commit' (padded (sm_kvSize sm) b);
          mret (Some (take (Z.to_nat n) (padded (sm_kvSize sm) b))))).
Proof.
  intros Hwf. split; [|by apply TryWrite_ok]. intros Hn.
  split; [by apply with_shard_st_none|]. intros n. rw /TryRead with_shard_ok // Hn //.
Qed.

(** ** Encoding of whole KVs *)

Section encode_kv.
Context `{GethLaws} (sm : ShardManager) (Hwf : sm_wf sm) (k : Z) (ds : DataShard).
Context (Hk : shard_of sm k = Some ds) (hash addr : bytes) (et : Z) (HQ : 0 < constants_Q).
Let key i := calcEncodeKey hash (k * sm_chunksPerKv sm + i) addr.
Context (Hmask : ∀ i, 0 ≤ i < sm_chunksPerKv sm → mask_defined et (key i) (sm_chunkSize sm)).

Lemma sm_bounds :
  0 < sm_chunkSize sm < two63 ∧ 0 < sm_kvSize sm < two63 ∧ 0 < sm_chunksPerKv sm < two63 ∧
  sm_kvSize sm = sm_chunksPerKv sm * sm_chunkSize sm ∧ ds_chunksPerKv ds = sm_chunksPerKv sm.
Proof using Hwf Hk.
  destruct (smwf_shards _ Hwf _ _ Hk) as (Hds & _ & _ & <- & <- & <-).
  pose proof (ds_bounds ds Hds). pose proof (dwf_kv ds Hds). lia.
Qed.

(** The loop of [DecodeOrEncodeKV] on [n] bytes, for a chunk codec that takes a
    prefix of length [m] of chunk [i] to [out i m]. *)
Lemma kv_loop (encode : bool) (out : Z → Z → bytes) (b : bytes) n (D : bytes) :
  zlen b = n → 0 ≤ n ≤ sm_kvSize sm →
  (∀ i m, 0 ≤ i < sm_chunksPerKv sm → m = Z.min (n - i * sm_chunkSize sm) (sm_chunkSize sm) → 0 < m →
     (if encode then encodeChunk (sm_chunkSize sm) (take (Z.to_nat m) (drop (Z.to_nat (i * sm_chunkSize sm)) b)) et (key i)
      else decodeChunk (sm_chunkSize sm) (take (Z.to_nat m) (drop (Z.to_nat (i * sm_chunkSize sm)) b)) et (key i))
     = Ret (out i m)) →
  (∀ i m, 0 ≤ i < sm_chunksPerKv sm → m = Z.min (n - i * sm_chunkSize sm) (sm_chunkSize sm) → 0 < m →
     take (Z.to_nat (i * sm_chunkSize sm)) D ++ out i m =
     take (Z.to_nat ((i + 1) * sm_chunkSize sm)) D) →
  (∀ i, 0 ≤ i → n ≤ i * sm_chunkSize sm → take (Z.to_nat (i * sm_chunkSize sm)) D = D) →
  DecodeOrEncodeKV sm k b hash addr encode et = Ret (Some D).
Proof using Hwf Hk.
  intros Hb Hn Hout Happ Hend. pose proof sm_bounds as (Hc & Hkv & Hcpk & Ekv & Ecpk).
  destruct (shard_of_spec sm k ds Hwf Hk) as [Hds Hin].
  rw /DecodeOrEncodeKV with_shard_ok // Hk Ecpk.
  set (cs := sm_chunkSize sm) in *. rw int64_small; [rw /two63 in Hc *; lia|]. rw Hb.
  set (P := λ i, (take (Z.to_nat (i * cs)) D, n - Z.min n (i * cs))).
  have HP0 : P 0 = ([], n) by rw /P Z.mul_0_l Z.min_r ?take_0 ?Z.sub_0_r //; lia.
  rw -[X in foldM _ X _]HP0 -[X in seqZ _ X](Z2Nat.id (sm_chunksPerKv sm)); [lia|].
  rw foldM_count.
  - intros i Hi. rw /P. have Hi0 : 0 ≤ i * cs by nia. case: Z.eqb_spec => Hrl.
    { do 2 f_equal; [|lia]. rw !Hend; [lia..|nia|lia|lia|done]. }
    have Hlt : i * cs < n by lia. rw (Z.min_r n (i * cs)); [lia|].
    destruct (chunk_idx_ok ds Hds k i Hin) as [Eidx _]; [lia|]. rw Ecpk in Eidx. rw Eidx.
    have Hle : (i + 1) * cs ≤ sm_kvSize sm by rw Ekv; nia.
    rw /two63 in Hkv. unwrap.
    rw slice_ok; [lia|lia|].
    have -> : i * cs + Z.min (n - i * cs) cs - i * cs = Z.min (n - i * cs) cs by lia.
    change (calcEncodeKey hash (k * sm_chunksPerKv sm + i) addr) with (key i).
    rw /= Hout /=; [lia|done|lia|]. do 2 f_equal; [|lia]. apply Happ; [lia|done|lia].
  - simpl. rw /P. do 2 f_equal. apply Hend; nia.
Qed.

Lemma EncodeKV_ok b :
  zlen b = sm_kvSize sm →
  ∃ e, EncodeKV sm k b hash addr et = Ret (Some e) ∧ zlen e = sm_kvSize sm ∧
    (∀ i, 0 ≤ i < sm_chunksPerKv sm →
       encodeChunk (sm_chunkSize sm) (chunk_of (sm_chunkSize sm) b i) et (key i) =
         Ret (chunk_of (sm_chunkSize sm) e i)) ∧
    ∀ n, 0 ≤ n ≤ sm_kvSize sm →
      DecodeKV sm k (take (Z.to_nat n) e) hash addr et = Ret (Some (take (Z.to_nat n) b)).
Proof using H Hwf Hk HQ Hmask.
  intros Hb. pose proof sm_bounds as (Hc & Hkv & Hcpk & Ekv & Ecpk).
  set (cs := sm_chunkSize sm) in *.
  set (e i := from_ret [] (encodeChunk cs (chunk_of cs b i) et (key i))).
  have Hch i : 0 ≤ i < sm_chunksPerKv sm → zlen (chunk_of cs b i) = cs.
  { intros. apply (zlen_chunk_of cs (sm_chunksPerKv sm)); lia. }
  have He i : 0 ≤ i < sm_chunksPerKv sm →
    encodeChunk cs (chunk_of cs b i) et (key i) = Ret (e i) ∧ zlen (e i) = cs ∧
    ∀ n, 0 ≤ n ≤ cs → decodeChunk cs (take (Z.to_nat n) (e i)) et (key i) =
                       Ret (take (Z.to_nat n) (chunk_of cs b i)).
  { intros Hi. destruct (encode_decode_chunk cs et (key i) ltac:(lia) HQ (Hmask i Hi)
      (chunk_of cs b i)) as (x & Hx & Hl & Hd); [rw Hch; lia|].
    rw /e Hx /=. split_and!; [done..|]. intros n Hn. rw Hd // /padded go_copy_full //.
    rw /zeros length_replicate. pose proof (Hch i Hi) as Hci. rw /zlen in Hci. lia. }
  set (D := seqZ 0 (sm_chunksPerKv sm) ≫= e).
  have Hrows : Forall (λ i, length (e i) = Z.to_nat cs) (seqZ 0 (sm_chunksPerKv sm)).
  { apply Forall_forall. intros i Hi%elem_of_seqZ. destruct (He i) as (_ & Hl & _); [lia|].
    rw /zlen in Hl. lia. }
  have HlD : zlen D = sm_kvSize sm.
  { rw /zlen /D (length_bind_rows _ _ _ Hrows) length_seqZ Ekv. lia. }
  have HD i : 0 ≤ i < sm_chunksPerKv sm → chunk_of cs D i = e i.
  { intros Hi. rw /chunk_of -(bind_row _ e _ (Z.to_nat i) i Hrows).
    - rw lookup_seqZ_lt; [lia|]. f_equal. lia.
    - do 2 f_equal. lia. }
  exists D. split_and!; [|done| |].
  - apply (kv_loop true (λ i _, e i) b (sm_kvSize sm) D); [lia|lia| | |].
    + intros i m Hi -> Hm. have Hle : (i + 1) * cs ≤ sm_kvSize sm by rw Ekv; nia.
      rw Z.min_r; [lia|]. apply He. lia.
    + intros i m Hi _ _. rw -HD; [lia|]. rw /chunk_of take_take_drop. f_equal. nia.
    + intros i Hi Hle. apply take_ge. rw /zlen in HlD. lia.
  - intros i Hi. rw HD; [lia|]. by apply He.
  - intros n Hn. apply (kv_loop false (λ i m, take (Z.to_nat m) (chunk_of cs b i))
                          (take (Z.to_nat n) D) n (take (Z.to_nat n) b)); [|lia| | |].
    + rw /zlen length_take. rw /zlen in HlD. lia.
    + intros i m Hi Em Hm. have Hic : 0 ≤ i * cs by nia.
      have -> : take (Z.to_nat m) (drop (Z.to_nat (i * cs)) (take (Z.to_nat n) D)) =
                take (Z.to_nat m) (e i).
      { rw -HD // /chunk_of skipn_firstn_comm !take_take. f_equal. lia. }
      apply He; [lia|]. lia.
    + intros i m Hi Em Hm. have Hic : 0 ≤ i * cs by nia.
      rw /chunk_of take_take !take_take (Nat.min_l (Z.to_nat (i * cs))); [lia|].
      rw take_take_drop. f_equal. nia.
    + intros i Hi Hle. apply take_ge. rw length_take. lia.
Qed.
End encode_kv.

(** Encoding a whole KV of a managed shard succeeds, and decoding any
    prefix of the encoded KV gives the same prefix of the data. *)
Theorem EncodeKV_DecodeKV `{GethLaws} sm k ds hash addr et b :
  sm_wf sm → shard_of sm k = Some ds → 0 < constants_Q → zlen b = sm_kvSize sm →
  (∀ i, 0 ≤ i < sm_chunksPerKv sm →
     mask_defined et (calcEncodeKey hash (k * sm_chunksPerKv sm + i) addr) (sm_chunkSize sm)) →
  ∃ e, EncodeKV sm k b hash addr et = Ret (Some e) ∧ zlen e = sm_kvSize sm ∧
    ∀ n, 0 ≤ n ≤ sm_kvSize sm →
      DecodeKV sm k (take (Z.to_nat n) e) hash addr et = Ret (Some (take (Z.to_nat n) b)).
Proof.
  intros Hwf Hk HQ Hb Hm.
  destruct (EncodeKV_ok sm Hwf k ds Hk hash addr et HQ Hm b Hb) as (e & H1 & H2 & _ & H3).
  by exists e.
Qed.

Lemma TryEncodeKV_ok `{GethLaws} sm k ds b hash :
  sm_wf sm → shard_of sm k = Some ds → kv_maskable ds k hash →
  ∃ e, TryEncodeKV sm k b hash = Ret (Some e) ∧ zlen e = sm_kvSize sm ∧
    ∀ i, 0 ≤ i < sm_chunksPerKv sm →
      encodeChunk (sm_chunkSize sm) (chunk_of (sm_chunkSize sm) (padded (sm_kvSize sm) b) i)
        (EncodeType ds) (calcEncodeKey hash (k * sm_chunksPerKv sm + i) (DataShard.Miner ds)) =
      Ret (chunk_of (sm_chunkSize sm) e i).
Proof.
  intros Hwf Hk [HQ Hm]. destruct (smwf_shards _ Hwf _ _ Hk) as (Hds & _ & _ & Ekv & Ecs & Ecpk).
  rw Ecs Ecpk in Hm. pose proof (ds_bounds ds Hds) as HB.
  destruct (EncodeKV_ok sm Hwf k ds Hk hash (DataShard.Miner ds) (EncodeType ds) HQ Hm
              (padded (sm_kvSize sm) b)) as (e & H1 & H2 & H3 & _).
  { rw /zlen length_padded. lia. }
  exists e. split_and!; [|done..]. rw /TryEncodeKV udiv_nz; [pose proof (smwf_entries _ Hwf); lia|].
  rw /= -/(shard_of sm k) Hk Ekv. exact H1.
Qed.

(** What [TryEncodeKV] returns decodes to the data, prefix by prefix. *)
Lemma TryEncodeKV_decodes `{GethLaws} sm k ds b hash e n :
  sm_wf sm → shard_of sm k = Some ds → kv_maskable ds k hash → TryEncodeKV sm k b hash = Ret (Some e) →
  0 ≤ n ≤ sm_kvSize sm →
  DecodeKV sm k (take (Z.to_nat n) e) hash (DataShard.Miner ds) (EncodeType ds) =
    Ret (Some (take (Z.to_nat n) (padded (sm_kvSize sm) b))).
Proof.
  intros Hwf Hk [HQ Hm] He Hn. destruct (smwf_shards _ Hwf _ _ Hk) as (Hds & _ & _ & Ekv & Ecs & Ecpk).
  rw Ecs Ecpk in Hm. pose proof (ds_bounds ds Hds) as HB.
  destruct (EncodeKV_ok sm Hwf k ds Hk hash (DataShard.Miner ds) (EncodeType ds) HQ Hm
              (padded (sm_kvSize sm) b)) as (e' & H1 & _ & _ & H2).
  { rw /zlen length_padded. lia. }
  have -> : e = e'; [|by apply H2]. move: He.
  rw /TryEncodeKV udiv_nz; [pose proof (smwf_entries _ Hwf); lia|].
  rw /= -/(shard_of sm k) Hk Ekv. rw H1. congruence.
Qed.

(** The two write paths agree on the encoded KV. *)
Lemma TryWriteEncoded_TryWrite `{GethLaws} sm k ds b e hash commit :
  sm_wf sm → shard_of sm k = Some ds → zlen b ≤ sm_kvSize sm → kv_maskable ds k hash →
  take 24 commit = take 24 hash → TryEncodeKV sm k b hash = Ret (Some e) →
  TryWriteEncoded k e commit sm = TryWrite k b commit sm.
Proof.
  intros Hwf Hk Hb Hm E24 He.
  destruct (TryEncodeKV_ok sm k ds b hash Hwf Hk Hm) as (e' & He' & Hle & Hch).
  have Ee : e' = e by congruence. subst e'.
  destruct (smwf_shards _ Hwf _ _ Hk) as (Hds & _ & _ & Ekv & Ecs & Ecpk).
  destruct (shard_of_spec sm k ds Hwf Hk) as [_ Hin].
  rw /TryWriteEncoded /TryWrite /with_shard_st udiv_nz; [pose proof (smwf_entries _ Hwf); lia|].
  rw -/(shard_of sm k) Hk /mbind /st_bind /in_shard_map /DataShard.Write.
  erewrite (WriteWith_ext ds k e b); [done|lia|lia|].
  intros ds' i Hi (Em & Eet & Ec & _). simpl.
  rw !(slice_chunk ds Hds); [rw /zlen length_padded; pose proof (ds_bounds ds Hds); lia|lia| |lia|].
  { rw /zlen length_padded. pose proof (ds_bounds ds Hds). lia. }
  destruct (chunk_idx_ok ds Hds k i Hin Hi) as [-> _]. rw /= Ec Em Eet.
  rw (calcEncodeKey_prefix commit hash) // Ekv Ecs Ecpk Hch; [lia|].
  f_equal. f_equal. rw /padded go_copy_full // /zeros length_replicate. rw /zlen in Hle. lia.
Qed.

(** Writing the result of [TryEncodeKV] with [TryWriteEncoded] has exactly
    the effect of writing the raw data with [TryWrite], on every stored KV and
    for any commit with the data hash used for encoding: the blobs committed
    from peers are stored as if they had been written locally. *)
Theorem TryWriteEncoded_encoded `{GethLaws} sm k ds b hash commit :
  sm_wf sm → shard_of sm k = Some ds → zlen b ≤ sm_kvSize sm → kv_maskable ds k hash →
  take 24 commit = take 24 hash →
  ∃ e, TryEncodeKV sm k b hash = Ret (Some e) ∧ zlen e = sm_kvSize sm ∧
       TryWriteEncoded k e commit sm = TryWrite k b commit sm.
Proof.
  intros Hwf Hk Hb Hm E24.
  destruct (TryEncodeKV_ok sm k ds b hash Hwf Hk Hm) as (e & He & Hl & _).
  exists e. split_and!; [done..|]. by apply (TryWriteEncoded_TryWrite sm k ds b e hash).
Qed.

(** [TryReadEncoded] slices the result before it looks at the error: for a
    KV of a managed shard with no file for it, any positive read length makes
    the call panic where [TryReadMeta] reports the error. *)
Theorem TryReadEncoded_missing_panics sm k ds n :
  sm_wf sm → shard_of sm k = Some ds → ds_dataFiles ds = [] → 0 < n ≤ sm_kvSize sm →
  TryReadEncoded sm k n = Panic OutOfRange ∧ TryReadMeta sm k = Fail kv_missing.
Proof.
  intros Hwf Hk Hnil Hn. destruct (shard_of_spec sm k ds Hwf Hk) as [Hds Hin].
  destruct (smwf_shards _ Hwf _ _ Hk) as (_ & _ & _ & Ekv & _). pose proof (ds_bounds ds Hds) as HB.
  rw /TryReadEncoded /TryReadMeta !with_shard_ok // Hk /DataShard.ReadMeta Hnil /=.
  split; [|done]. rw /ReadEncoded /readWith (proj2 (Contains_shard ds Hds k) Hin) /=.
  rw int64_small; [rw /two63 in HB *; lia|]. rw (proj2 (Z.ltb_ge _ _)); [lia|].
  have -> : seqZ 0 (ds_chunksPerKv ds) = 0 :: seqZ 1 (Z.pred (ds_chunksPerKv ds)).
  { rw seqZ_cons; [lia|done]. }
  rw foldM_cons (proj2 (Z.eqb_neq n 0)); [lia|]. rw /readChunk Hnil /=.
  rw /slice /=. have -> : (n <=? zlen (@nil Z)) = false by apply Z.leb_gt; rw /zlen /=; lia.
  by rw andb_false_r.
Qed.

(** ** A concrete manager: shard 1 of the shard example *)

Definition ex_sm : ShardManager :=
  mkShardManager {[1 := ex_ds]} (zeros 20) 7 128 1 2 1 2 64 6.

Lemma ex_sm_wf : sm_wf ex_sm.
Proof.
  constructor; [done|]. intros i ds. rw /= lookup_singleton_Some. intros [<- <-].
  split; [apply ex_ds_wf|done].
Qed.

Lemma ex_sm_shard : shard_of ex_sm 3 = Some ex_ds.
Proof. rw /shard_of. change (3 / sm_kvEntries ex_sm) with 1. apply lookup_singleton_eq. Qed.

Lemma ex_sm_stored : stored ex_sm 3.
Proof. exists ex_ds. split; [apply ex_sm_shard|apply ex_ds_file]. Qed.

Lemma ex_sm_maskable : sm_maskable ex_sm 3 ex_commit.
Proof. intros ds. rw ex_sm_shard. intros [= <-]. apply ex_ds_maskable. Qed.

Lemma TryWrite_TryRead_witness :
  ∃ sm', TryWrite 3 [9; 8; 7] ex_commit ex_sm = (Ret true, sm') ∧
         TryReadMeta sm' 3 = Ret (Some (ex_commit, None)).
Proof.
  destruct (TryWrite_TryRead ex_sm 3 [9; 8; 7] ex_commit ex_sm_wf) as [_ H].
  destruct H as (sm' & H1 & H2 & _);
    [exact ex_sm_stored|by vm_compute|by vm_compute|exact ex_sm_maskable|].
  exists sm'. split; [exact H1|exact (sw_meta _ _ _ _ H2)].
Defined.

Lemma EncodeKV_DecodeKV_witness :
  ∃ e, EncodeKV ex_sm 3 (replicate 128 5) ex_commit (zeros 20) ENCODE_KECCAK_256 = Ret (Some e) ∧
    DecodeKV ex_sm 3 (take 70 e) ex_commit (zeros 20) ENCODE_KECCAK_256 =
      Ret (Some (replicate 70 5)).
Proof.
  have H70 : 0 ≤ 70 ≤ sm_kvSize ex_sm by vm_compute.
  destruct (EncodeKV_DecodeKV ex_sm 3 ex_ds ex_commit (zeros 20) ENCODE_KECCAK_256
              (replicate 128 5) ex_sm_wf ex_sm_shard) as (e & H1 & _ & H2).
  - by vm_compute.
  - by vm_compute.
  - intros i _. split; [by vm_compute|done].
  - exists e. split; [exact H1|]. exact (H2 70 H70).
Defined.

Lemma TryWriteEncoded_encoded_witness :
  ∃ e, TryEncodeKV ex_sm 3 [9; 8; 7] ex_commit = Ret (Some e) ∧
       TryWriteEncoded 3 e ex_commit ex_sm = TryWrite 3 [9; 8; 7] ex_commit ex_sm.
Proof.
  destruct (TryWriteEncoded_encoded ex_sm 3 ex_ds [9; 8; 7] ex_commit ex_commit
              ex_sm_wf ex_sm_shard) as (e & H1 & _ & H2);
    [by vm_compute|exact ex_ds_maskable|reflexivity|].
  exists e. split; [exact H1|exact H2].
Defined.

Definition ex_sm_empty : ShardManager :=
  mkShardManager {[1 := set_files ex_ds []]} (zeros 20) 7 128 1 2 1 2 64 6.

Lemma TryReadEncoded_missing_panics_witness :
  TryReadEncoded ex_sm_empty 3 10 = Panic OutOfRange.
Proof.
  eapply (TryReadEncoded_missing_panics ex_sm_empty 3 (set_files ex_ds []) 10).
  - constructor; [done|]. intros i ds. rw /= lookup_singleton_Some. intros [<- <-].
    split; [|done]. constructor; try by vm_compute.
  - by vm_compute.
  - reflexivity.
  - by vm_compute.
Defined.
