(* ===== verification/KvStore.v ===== *)
(** * The shards as one key-value store

    What the rest of the program relies on, over all shards and data files: a map
    from KV indices to a commit and the encoded data.  The operations of
    [ShardManager] refine the operations of that map. *)

From S2P Require Import Prelude Extern EthashSizes Ethash DataFile ChunkCodec DataShard ShardManager.

(** ** What writes keep of the shards *)

(** The parameters of the shards that the encoding of blobs depends on. *)
Definition shard_params (ds : DataShard) : Z * bytes := (EncodeType ds, Miner ds).

Record same_shape (sm sm' : ShardManager) : Prop := {
  ssh_bits : sm_kvEntriesBits sm' = sm_kvEntriesBits sm;
  ssh_entries : sm_kvEntries sm' = sm_kvEntries sm;
  ssh_size : sm_kvSize sm' = sm_kvSize sm;
  ssh_chunk : sm_chunkSize sm' = sm_chunkSize sm;
  ssh_cpk : sm_chunksPerKv sm' = sm_chunksPerKv sm;
  ssh_shards i : shard_params <$> sm_shardMap sm' !! i = shard_params <$> sm_shardMap sm !! i
}.

Lemma same_shape_refl sm : same_shape sm sm.
Proof. by constructor. Qed.

Lemma same_shape_trans a b c : same_shape a b → same_shape b c → same_shape a c.
Proof. intros [] []. constructor; congruence. Qed.

Lemma WriteMeta_same_head k c ds : same_head ds (DataShard.WriteMeta k c ds).2.
Proof.
  rw /DataShard.WriteMeta.
  have Hp df : same_params df (DataFile.WriteMeta k c df).2.
  { rw /DataFile.WriteMeta. repeat case_match; rw /same_params //=; by destruct df. }
  pose proof (on_file_same_params (λ df, ContainsKv df k) (DataFile.WriteMeta k c) kv_missing
    (ds_dataFiles ds) Hp) as HF.
  destruct (on_file _ _ _ _) as [r l] eqn:E. simpl in *. rw /same_head /Miner /EncodeType /=.
  destruct HF as [|df df' ? ? Hh]; [done|].
  by destruct (same_params_fields _ _ Hh) as (_ & _ & ? & _ & _ & _ & ?).
Qed.

Lemma same_head_trans a b c : same_head a b → same_head b c → same_head a c.
Proof. rw /same_head. intuition congruence. Qed.

Lemma WriteWith_same_head k b c enc ds : same_head ds (WriteWith k b c enc ds).2.
Proof.
  have Hrefl ds0 : same_head ds0 ds0 by rw /same_head.
  rw /WriteWith. destruct (negb _); [done|]. destruct (_ <? _); [done|].
  rw /mbind /st_bind. set cb := go_copy _ b.
  have Hfold : ∀ l ds0, same_head ds0 (st_foldM (λ _ i, write_kv_chunk k cb enc i) tt l ds0).2.
  { induction l as [|i l IH]; intros ds0; [done|]. rw st_foldM_cons /mbind /st_bind.
    have Hc : same_head ds0 (write_kv_chunk k cb enc i ds0).2.
    { rw /write_kv_chunk /mbind /st_bind /st_lift /st_get. repeat case_match; try done;
        simplify_eq; apply writeChunk_same_head. }
    destruct (write_kv_chunk k cb enc i ds0) as [[[]| |] ds1]; [|done..].
    by apply (same_head_trans ds0 ds1). }
  specialize (Hfold (seqZ 0 (ds_chunksPerKv ds)) ds). simpl.
  destruct (st_foldM _ tt _ ds) as [[[]| |] ds1]; [|done..]. simpl in *.
  apply (same_head_trans ds ds1); [done|]. apply WriteMeta_same_head.
Qed.

Lemma TryWriteEncoded_shape k b c sm : same_shape sm (TryWriteEncoded k b c sm).2.
Proof.
  rw /TryWriteEncoded /with_shard_st.
  destruct (udiv k (sm_kvEntries sm)) as [i| |]; [|apply same_shape_refl..].
  destruct (sm_shardMap sm !! i) as [ds|] eqn:Ei; [|apply same_shape_refl].
  rw /mbind /st_bind /in_shard_map.
  pose proof (WriteWith_same_head k b c (λ _ cdata _, Ret cdata) ds) as (H1 & H2 & _).
  destruct (WriteWith _ _ _ _ ds) as [r ds'] eqn:E. simpl in H1, H2.
  have Hs : same_shape sm (set_shards sm (<[i := ds']> (sm_shardMap sm))).
  { constructor; try done. intros j. simpl. destruct (decide (i = j)) as [<- |].
    - rw lookup_insert_eq Ei /=. by rw /shard_params H1 H2.
    - by rw lookup_insert_ne. }
  by destruct r.
Qed.

(** ** The abstract store *)

Inductive op :=
| OpPut (k : Z) (e commit : bytes)     (** [TryWriteEncoded] *)
| OpWrite (k : Z) (b commit : bytes)   (** [TryWrite] *)
| OpMeta (k : Z)                       (** [TryReadMeta] *)
| OpData (k n : Z).                    (** [TryReadEncoded] *)

Inductive out :=
| OutDone (r : gores bool)
| OutMeta (r : gores (option (bytes * option error)))
| OutData (r : gores (option bytes)).

Definition kvmap := gmap Z (bytes * bytes).

(** The store with [size] bytes for each KV; [managed] tells which KVs it has,
    and [enc] how raw data is encoded. *)
Definition spec_put (size k : Z) (e commit : bytes) (m : kvmap) : out * kvmap :=
  if size <? zlen e then (OutDone (Fail (ErrMsg "write data too large")), m)
  else (OutDone (Ret true), <[k := (commit, padded size e)]> m).

Definition spec_exec (size : Z) (managed : Z → bool) (enc : Z → bytes → bytes → bytes) (o : op) (m : kvmap)
    : out * kvmap :=
  match o with
  | OpPut k e commit => if managed k then spec_put size k e commit m else (OutDone (Ret false), m)
  | OpWrite k b commit =>
      if managed k then spec_put size k (enc k b commit) commit m else (OutDone (Ret false), m)
  | OpMeta k => (OutMeta (Ret ((λ x, (x.1, None)) <$> m !! k)), m)
  | OpData k n => (OutData (Ret ((λ x, take (Z.to_nat n) x.2) <$> m !! k)), m)
  end.

Section exec.
Context `{GE : Geth}.

(** The same operations on the shards. *)
Definition exec (o : op) (sm : ShardManager) : out * ShardManager :=
  match o with
  | OpPut k e commit => let '(r, sm) := TryWriteEncoded k e commit sm in (OutDone r, sm)
  | OpWrite k b commit => let '(r, sm) := TryWrite k b commit sm in (OutDone r, sm)
  | OpMeta k => (OutMeta (TryReadMeta sm k), sm)
  | OpData k n => (OutData (TryReadEncoded sm k n), sm)
  end.

Fixpoint run {S} (step : op → S → out * S) (ops : list op) (s : S) : list out * S :=
  match ops with
  | [] => ([], s)
  | o :: ops =>
      let '(x, s) := step o s in
      let '(xs, s) := run step ops s in (x :: xs, s)
  end.

Definition managed (sm : ShardManager) (k : Z) : bool := bool_decide (is_Some (shard_of sm k)).

Definition encoding (sm : ShardManager) (k : Z) (b commit : bytes) : bytes :=
  match TryEncodeKV sm k b commit with Ret (Some e) => e | _ => [] end.

(** The shards [sm], which have the shape of [sm0], hold [m]. *)
Record holds_map (sm0 : ShardManager) (m : kvmap) (sm : ShardManager) : Prop := {
  hm_wf : sm_wf sm;
  hm_shape : same_shape sm0 sm;
  hm_stored k : stored sm0 k → stored sm k;
  hm_dom k : is_Some (m !! k) → stored sm k;
  hm_at k c e : m !! k = Some (c, e) →
    TryReadMeta sm k = Ret (Some (c, None)) ∧
    ∀ n, 0 ≤ n ≤ sm_kvSize sm → TryReadEncoded sm k n = Ret (Some (take (Z.to_nat n) e))
}.

(** Reads are of KVs that were written, or that are not managed at all; writes
    have commits of 32 bytes. *)
Definition admissible (sm0 : ShardManager) (o : op) (m : kvmap) : Prop :=
  match o with
  | OpPut k e commit => (shard_of sm0 k = None ∨ stored sm0 k) ∧ zlen commit = 32
  | OpWrite k b commit => (shard_of sm0 k = None ∨ stored sm0 k ∧ sm_maskable sm0 k commit ∧
      zlen b ≤ sm_kvSize sm0) ∧ zlen commit = 32
  | OpMeta k => shard_of sm0 k = None ∧ m !! k = None ∨ is_Some (m !! k)
  | OpData k n => (shard_of sm0 k = None ∧ m !! k = None ∨ is_Some (m !! k)) ∧ 0 ≤ n ≤ sm_kvSize sm0
  end.

Fixpoint admissible_all (sm0 : ShardManager) (ops : list op) (m : kvmap) : Prop :=
  match ops with
  | [] => True
  | o :: ops => admissible sm0 o m ∧
      admissible_all sm0 ops (spec_exec (sm_kvSize sm0) (managed sm0) (encoding sm0) o m).2
  end.

Context {GL : GethLaws GE}.

(** *** Simulation *)

Lemma shape_shard sm0 sm k :
  same_shape sm0 sm → shard_params <$> shard_of sm k = shard_params <$> shard_of sm0 k.
Proof. intros HS. rw /shard_of (ssh_entries _ _ HS). apply HS. Qed.

Lemma shape_shard_Some sm0 sm k ds :
  same_shape sm0 sm → shard_of sm k = Some ds →
  ∃ ds0, shard_of sm0 k = Some ds0 ∧ EncodeType ds = EncodeType ds0 ∧ DataShard.Miner ds = DataShard.Miner ds0.
Proof.
  intros HS Hk. have E := shape_shard _ _ k HS. rw Hk in E.
  destruct (shard_of sm0 k) as [ds0|]; [|done]. injection E as E1 E2. by exists ds0.
Qed.

Lemma shape_shard_None sm0 sm k : same_shape sm0 sm → shard_of sm0 k = None → shard_of sm k = None.
Proof. intros HS Hk. have E := shape_shard _ _ k HS. rw Hk in E. by destruct (shard_of sm k). Qed.

Lemma put_simulates sm0 m sm k e c :
  holds_map sm0 m sm → stored sm0 k → zlen e ≤ sm_kvSize sm0 → zlen c = 32 →
  ∃ sm', TryWriteEncoded k e c sm = (Ret true, sm') ∧
    holds_map sm0 (<[k := (c, padded (sm_kvSize sm0) e)]> m) sm'.
Proof.
  intros [Hwf HS Hst Hdom Hat] Hk He Hc. have Hk' := Hst k Hk. have Ez := ssh_size _ _ HS.
  destruct (TryWriteEncoded_ok sm k e c Hwf Hk') as (sm' & HW & [W1 W2 W3 W4] & _ & Es & HR); [lia|done|].
  exists sm'. split; [done|]. have HS' := TryWriteEncoded_shape k e c sm. rw HW in HS'. constructor.
  - done.
  - by apply (same_shape_trans sm0 sm).
  - intros k' Hk0. by apply W2, Hst.
  - intros k'. destruct (decide (k = k')) as [<- |Hne]; [intros _; by apply W2|].
    rw lookup_insert_ne //. intros Hs. by apply W2, Hdom.
  - intros k' c' e'. destruct (decide (k = k')) as [<- |Hne].
    + rw lookup_insert_eq. intros [= <- <-]. split; [done|]. rw Es -Ez. exact HR.
    + rw lookup_insert_ne //. intros Hm. destruct (Hat k' c' e' Hm) as [H1 H2].
      destruct (W4 k') as [H3 H4]; [congruence|apply Hdom; rw Hm; by eexists|]. split; [by rw H3|].
      intros n Hn. rw Es in Hn. rw H4 // H2 //.
Qed.

Lemma put_too_large sm0 m sm k e c :
  holds_map sm0 m sm → stored sm0 k → sm_kvSize sm0 < zlen e →
  TryWriteEncoded k e c sm = (Fail (ErrMsg "write data too large"), sm).
Proof.
  intros [Hwf HS Hst _ _] Hk He. destruct (Hst k Hk) as (ds & Hds & Hf).
  destruct (shard_of_spec _ k ds Hwf Hds) as [Hdw Hin].
  destruct (smwf_shards _ Hwf _ _ Hds) as (_ & _ & _ & Ekv & _).
  rw /TryWriteEncoded /with_shard_st udiv_nz; [pose proof (smwf_entries _ Hwf); lia|].
  rw -/(shard_of sm k) Hds /mbind /st_bind /in_shard_map /WriteWith.
  rw (proj2 (Contains_shard ds Hdw k) Hin) /= (proj2 (Z.ltb_lt _ _)).
  { rw Ekv (ssh_size _ _ HS). lia. }
  f_equal. rw insert_id // /set_shards. by destruct sm.
Qed.

(** Encoding depends on the shape only. *)
Lemma encoding_shape sm0 sm k ds b c :
  sm_wf sm0 → sm_wf sm → same_shape sm0 sm → shard_of sm k = Some ds →
  TryEncodeKV sm k b c = TryEncodeKV sm0 k b c.
Proof.
  intros Hwf0 Hwf HS Hk. destruct (shape_shard_Some _ _ _ _ HS Hk) as (ds0 & Hk0 & Et & Em).
  destruct (smwf_shards _ Hwf _ _ Hk) as (_ & _ & _ & Ekv & _ & Ecpk).
  destruct (smwf_shards _ Hwf0 _ _ Hk0) as (_ & _ & _ & Ekv0 & _ & Ecpk0).
  rw /TryEncodeKV !udiv_nz; [pose proof (smwf_entries _ Hwf0); pose proof (smwf_entries _ Hwf); lia..|].
  cbn [mbind gores_bind]. rw -/(shard_of sm k) -/(shard_of sm0 k) Hk Hk0 Ekv Ekv0 Et Em (ssh_size _ _ HS).
  rw /EncodeKV /DecodeOrEncodeKV !with_shard_ok // Hk Hk0 (ssh_chunk _ _ HS).
  have -> : ds_chunksPerKv ds = ds_chunksPerKv ds0; [|done].
  rw Ecpk Ecpk0. apply HS.
Qed.

Lemma maskable_shape sm0 sm k ds c :
  sm_wf sm0 → sm_wf sm → same_shape sm0 sm → shard_of sm k = Some ds → sm_maskable sm0 k c → kv_maskable ds k c.
Proof.
  intros Hwf0 Hwf HS Hk Hm. destruct (shape_shard_Some _ _ _ _ HS Hk) as (ds0 & Hk0 & Et & Em).
  destruct (smwf_shards _ Hwf _ _ Hk) as (_ & _ & _ & _ & Ecs & Ecpk).
  destruct (smwf_shards _ Hwf0 _ _ Hk0) as (_ & _ & _ & _ & Ecs0 & Ecpk0).
  destruct (Hm ds0 Hk0) as [HQ HM]. split; [done|].
  rw Et Em Ecs Ecpk (ssh_chunk _ _ HS) (ssh_cpk _ _ HS) -Ecs0 -Ecpk0. exact HM.
Qed.

Lemma unmanaged_none sm0 m sm k :
  holds_map sm0 m sm → shard_of sm0 k = None → m !! k = None ∧
    TryReadMeta sm k = Ret None ∧ ∀ n, TryReadEncoded sm k n = Ret None.
Proof.
  intros HM Hk. have Hn := shape_shard_None _ _ _ (hm_shape _ _ _ HM) Hk. have Hwf := hm_wf _ _ _ HM. split_and!.
  - destruct (m !! k) as [x|] eqn:E; [|done]. destruct (hm_dom _ _ _ HM k) as (ds & Hds & _); [by rw E; eexists|].
    congruence.
  - by rw /TryReadMeta with_shard_ok // Hn.
  - intros n. by rw /TryReadEncoded with_shard_ok // Hn.
Qed.

Lemma exec_simulates sm0 m sm o :
  sm_wf sm0 → holds_map sm0 m sm → admissible sm0 o m →
  let '(x, m') := spec_exec (sm_kvSize sm0) (managed sm0) (encoding sm0) o m in
  ∃ sm', exec o sm = (x, sm') ∧ holds_map sm0 m' sm'.
Proof.
  intros Hwf0 HM. have Hwf := hm_wf _ _ _ HM. have HS := hm_shape _ _ _ HM.
  have Hmg k : stored sm0 k → managed sm0 k = true.
  { intros (ds & Hds & _). apply bool_decide_eq_true_2. rw Hds; by eexists. }
  have Hum k : shard_of sm0 k = None → managed sm0 k = false.
  { intros Hk. apply bool_decide_eq_false_2. rw Hk. by intros [? ?]. }
  have Hput k e c : stored sm0 k → zlen c = 32 → let '(x, m') := spec_put (sm_kvSize sm0) k e c m in
    ∃ sm', exec (OpPut k e c) sm = (x, sm') ∧ holds_map sm0 m' sm'.
  { intros Hk Hc. rw /spec_put /exec. case: Z.ltb_spec => Hz.
    - exists sm. by rw (put_too_large sm0 m).
    - destruct (put_simulates sm0 m sm k e c HM Hk Hz Hc) as (sm' & -> & ?). by exists sm'. }
  destruct o as [k e c|k b c|k|k n]; cbn [admissible spec_exec].
  - intros [[Hk|Hk] Hc]; [|rw (Hmg k Hk); by apply Hput].
    rw (Hum k Hk). exists sm. split; [|done]. rw /exec /TryWriteEncoded with_shard_st_none //.
    by apply (shape_shard_None sm0).
  - intros [[Hk|(Hk & Hm & Hb)] Hc].
    { rw (Hum k Hk). exists sm. split; [|done]. rw /exec /TryWrite with_shard_st_none //.
      by apply (shape_shard_None sm0). }
    rw (Hmg k Hk). destruct (hm_stored _ _ _ HM k Hk) as (ds & Hds & _).
    have Hkm := maskable_shape _ _ _ _ _ Hwf0 Hwf HS Hds Hm.
    destruct (TryEncodeKV_ok sm k ds b c Hwf Hds Hkm) as (e & He & _).
    have Henc : encoding sm0 k b c = e by rw /encoding -(encoding_shape sm0 sm k ds) // He.
    have HW := TryWriteEncoded_TryWrite sm k ds b e c c Hwf Hds ltac:(rw (ssh_size _ _ HS); lia) Hkm eq_refl He.
    rw Henc. have H := Hput k e c Hk Hc. rw /exec HW in H. done.
  - intros Hk. exists sm. split; [|done]. destruct Hk as [[Hk Hn]|[[c e] Hk]]; rw /exec.
    + rw Hn. by destruct (unmanaged_none _ _ _ k HM Hk) as (_ & -> & _).
    + rw Hk. by destruct (hm_at _ _ _ HM k c e Hk) as [-> _].
  - intros [Hk Hn]. exists sm. split; [|done]. destruct Hk as [[Hk Hnone]|[[c e] Hk]]; rw /exec.
    + rw Hnone. by destruct (unmanaged_none _ _ _ k HM Hk) as (_ & _ & ->).
    + rw Hk. destruct (hm_at _ _ _ HM k c e Hk) as [_ HR]. rw HR //. by rw (ssh_size _ _ HS).
Qed.

(** C4: the sharded store refines a map: for every sequence of writes and reads
    through the manager, the answers are those of a map from KV indices to
    commit and encoded data (with unmanaged KVs absent, oversized data refused
    and raw data encoded on the way in), and the shards hold that map at the end. *)
Theorem store_refines_map sm0 m sm ops :
  sm_wf sm0 → holds_map sm0 m sm → admissible_all sm0 ops m →
  let '(outs, m') := run (spec_exec (sm_kvSize sm0) (managed sm0) (encoding sm0)) ops m in
  ∃ sm', run exec ops sm = (outs, sm') ∧ holds_map sm0 m' sm'.
Proof.
  intros Hwf0. revert m sm. induction ops as [|o ops IH]; intros m sm HM; [by exists sm|].
  cbn [admissible_all run]. intros [Ho Hops].
  have HE := exec_simulates sm0 m sm o Hwf0 HM Ho.
  destruct (spec_exec _ _ _ o m) as [x m1]. destruct HE as (sm1 & -> & HM1).
  specialize (IH m1 sm1 HM1 Hops). destruct (run _ ops m1) as [xs m2]. destruct IH as (sm2 & -> & HM2).
  by exists sm2.
Qed.

End exec.

(** ** An example *)

Definition ex_ops : list op :=
  [OpPut 3 [1; 2] (zeros 32); OpMeta 3; OpWrite 3 [9; 8; 7] ex_commit; OpMeta 3; OpData 100 5].

Definition ex_outs : list out :=
  [OutDone (Ret true); OutMeta (Ret (Some (zeros 32, None))); OutDone (Ret true);
   OutMeta (Ret (Some (ex_commit, None))); OutData (Ret None)].

Lemma ex_admissible : admissible_all ex_sm ex_ops ∅.
Proof.
  cbn [admissible_all ex_ops]. split_and!.
  - split; [right; exact ex_sm_stored|reflexivity].
  - right. eexists. vm_compute. reflexivity.
  - split; [|reflexivity]. right. split; [exact ex_sm_stored|]. split; [exact ex_sm_maskable|].
    vm_compute. discriminate.
  - right. eexists. vm_compute. reflexivity.
  - split; [|split; vm_compute; discriminate]. left. split; vm_compute; reflexivity.
  - exact I.
Qed.

Lemma store_refines_map_witness : ∃ sm', run exec ex_ops ex_sm = (ex_outs, sm').
Proof.
  have HM : holds_map ex_sm ∅ ex_sm.
  { constructor; [exact ex_sm_wf|apply same_shape_refl|done|intros k; rw lookup_empty; by intros [? ?]|].
    intros k c e. by rw lookup_empty. }
  pose proof (store_refines_map ex_sm ∅ ex_sm ex_ops ex_sm_wf HM ex_admissible) as HR.
  have E : (run (spec_exec (sm_kvSize ex_sm) (managed ex_sm) (encoding ex_sm)) ex_ops ∅).1 = ex_outs.
  { vm_compute. reflexivity. }
  destruct (run (spec_exec (sm_kvSize ex_sm) (managed ex_sm) (encoding ex_sm)) ex_ops ∅) as [outs m'].
  destruct HR as (sm' & HR & _). exists sm'. cbn [fst] in E. rw -E. exact HR.
Defined.
