(* ===== verification/StorageManager.v ===== *)
(** * Storage manager (storage_manager.go)

    The layer above the shard manager: the local view of the latest finalized
    L1 block (its number, the number of KV entries, the metadata the contract
    holds), the commits of blobs from the downloader, from peers and of empty
    blobs, and the checks against the contract.  The L1 node is an oracle: the
    answer to a request may depend on when it is made, so requests are numbered
    and the state counts them. *)

From S2P Require Import Prelude Bits Extern Ethash DataFile ChunkCodec DataShard ShardManager.

Definition MetaDownloadThread : Z := 32.

(** The interface [Il1Source]; the first argument numbers the request. *)
Class Il1Source := {
  GetKvMetas : nat → list Z → Z → gores (list bytes);
  GetStorageKvEntryCount : nat → Z → gores Z }.

(** [rpc.FinalizedBlockNumber.Int64()] *)
Definition FinalizedBlockNumber : Z := -3.

Record StorageManager := mkStorageManager {
  s_DownloadThreadNum : Z;
  s_shardManager : ShardManager;
  s_localL1 : Z;
  s_kvEntryCount : Z;
  s_blobMetas : gmap Z bytes;
  s_requests : nat }.

Definition NewStorageManager (sm : ShardManager) : StorageManager :=
  mkStorageManager 0 sm 0 0 ∅ 0.

Definition set_sm (s : StorageManager) (sm : ShardManager) : StorageManager :=
  mkStorageManager (s_DownloadThreadNum s) sm (s_localL1 s) (s_kvEntryCount s)
    (s_blobMetas s) (s_requests s).
Definition set_view (s : StorageManager) (l1 count : Z) : StorageManager :=
  mkStorageManager (s_DownloadThreadNum s) (s_shardManager s) l1 count
    (s_blobMetas s) (s_requests s).
Definition set_metas (s : StorageManager) (m : gmap Z bytes) : StorageManager :=
  mkStorageManager (s_DownloadThreadNum s) (s_shardManager s) (s_localL1 s) (s_kvEntryCount s)
    m (s_requests s).

Definition next_request (s : StorageManager) : StorageManager :=
  mkStorageManager (s_DownloadThreadNum s) (s_shardManager s) (s_localL1 s) (s_kvEntryCount s)
    (s_blobMetas s) (S (s_requests s)).

Definition ask_KvMetas `{Il1Source} (kvIndices : list Z) (block : Z)
    : ST StorageManager (list bytes) := λ s,
  (GetKvMetas (s_requests s) kvIndices block, next_request s).
Definition ask_KvEntryCount `{Il1Source} (block : Z) : ST StorageManager Z := λ s,
  (GetStorageKvEntryCount (s_requests s) block, next_request s).

(** Runs an operation of the shard manager. *)
Definition on_sm {A} (op : ST ShardManager A) : ST StorageManager A := λ s,
  let '(r, sm') := op (s_shardManager s) in (r, set_sm s sm').

(** ** Commits and metadata *)

(** The first bit after the data hash says that the blob is filled. *)
Definition PrepareCommit (commit : bytes) : bytes :=
  let c := go_copy (zeros 32) (take 24 commit) in
  <[24%nat := Z.lor (c !!! 24%nat) blobFillingMask]> c.

(** [new(big.Int).SetInt64(int64(i)).FillBytes(meta[0:5])], which panics when
    the number needs more than five bytes. *)
Definition index_meta (i : Z) (hash : bytes) : gores bytes :=
  let v := Z.abs (int64 i) in
  if v <? 2 ^ 40 then Ret (be_encode 5 v ++ zeros 3 ++ go_copy (zeros 24) (take 24 hash))
  else Panic (Explicit "math/big: buffer too small to fit value").

Definition getKvMetas (s : StorageManager) (kvIndices : list Z) : gores (list bytes) :=
  foldM (λ metas i,
      match s_blobMetas s !! i with
      | Some meta => mret (metas ++ [meta])
      | None =>
          if s_kvEntryCount s <=? i then
            meta ← index_meta i [];
            mret (metas ++ [meta])
          else Fail (ErrMsg "meta not found in blobMetas")
      end) [] kvIndices.

Definition updateLocalMetas (kvIndices : list Z) (commits : list bytes)
    : ST StorageManager unit := λ s,
  match foldM (λ m '(idx, commit), meta ← index_meta idx commit; mret (<[idx := meta]> m))
          (s_blobMetas s) (zip kvIndices commits) with
  | Ret m =>
      let len := Z.of_nat (size m) in
      let m := foldl (λ m i, delete i m) m
                 (seqZ (int64 (s_kvEntryCount s)) (len - int64 (s_kvEntryCount s))) in
      (Ret tt, set_metas s m)
  | Fail e => (Fail e, s)
  | Panic p => (Panic p, s)
  end.

Definition update_view (newL1 kvEntryCount : Z) : ST StorageManager unit := λ s,
  (Ret tt, set_view s newL1 kvEntryCount).

Definition Reset `{Il1Source} (newL1 : Z) : ST StorageManager unit :=
  kvEntryCount ← ask_KvEntryCount newL1;
  update_view newL1 kvEntryCount.

(** ** Downloads

    The goroutine [t] of [DownloadFinished] handles the positions [t],
    [t + taskNum], ... of the batch.  [order] is the order in which the
    positions are handled, over all goroutines.  A write error stops the
    goroutine; it is assigned to a shadowed variable and not reported. *)
Definition write_position (taskNum : Z) (kvIndices : list Z) (blobs commits : list bytes)
    (stopped : list Z) (pos : Z) : ST ShardManager (list Z) := λ sm,
  if bool_decide (pos mod taskNum ∈ stopped) then (Ret stopped, sm)
  else
    match index kvIndices pos, index blobs pos, index commits pos with
    | Ret kvIdx, Ret blob, Ret commit =>
        match TryWriteEncoded kvIdx blob (PrepareCommit commit) sm with
        | (Ret _, sm') => (Ret stopped, sm')
        | (Fail _, sm') => (Ret (pos mod taskNum :: stopped), sm')
        | (Panic p, sm') => (Panic p, sm')
        end
    | _, _, _ => (Panic OutOfRange, sm)
    end.

(** The positions of goroutine [t]. *)
Definition insertIdxInTask (taskNum n t : Z) : list Z :=
  filter (λ i, i mod taskNum = t mod taskNum) (seqZ t (n - t)).

(** With no thread ([DownloadThreadNum <= 0]) nothing is written. *)
Definition DownloadFinished `{Il1Source} (order : list Z) (newL1 : Z) (kvIndices : list Z)
    (blobs commits : list bytes) : ST StorageManager unit := λ s,
  if negb ((length kvIndices =? length blobs)%nat && (length blobs =? length commits)%nat)
  then (Fail (ErrMsg "invalid params lens"), s)
  else if newL1 <=? s_localL1 s then (Fail (ErrMsg "new L1 is older than local L1"), s)
  else
    (_ ← on_sm (if s_DownloadThreadNum s <=? 0 then mret []
                else st_foldM (write_position (s_DownloadThreadNum s) kvIndices blobs commits)
                       [] order);
     kvEntryCount ← ask_KvEntryCount newL1;
     _ ← update_view newL1 kvEntryCount;
     updateLocalMetas kvIndices commits) s.

(** ** Commits of blobs *)

Definition commitEncodedBlob (kvIndex : Z) (encodedBlob commit contractMeta : bytes)
    : ST StorageManager unit := λ s,
  match CompareCommits (drop 8 contractMeta) commit with
  | Ret _ =>
      match ShardManager.TryReadMeta (s_shardManager s) kvIndex with
      | Panic p => (Panic p, s)
      | Ret (Some (m, None)) =>
          let contractKvIdx := be_decode (take 5 contractMeta) in
          if negb (contractKvIdx =? kvIndex)
          then (Fail (ErrMsg "kvIdx from contract and input is not matched"), s)
          else
            let localMeta := go_copy (zeros 32) m in
            if bool_decide (take 24 localMeta = take 24 commit) &&
               negb (Z.land (localMeta !!! 24%nat) blobFillingMask =? 0)
            then (Ret tt, s)
            else
              match on_sm (TryWriteEncoded kvIndex encodedBlob (PrepareCommit commit)) s with
              | (Ret true, s') => (Ret tt, s')
              | (Panic p, s') => (Panic p, s')
              | (_, s') => (Fail (ErrMsg "encodedBlob write failed"), s')
              end
      | _ => (Fail (ErrMsg "metadata read failed"), s)
      end
  | Fail e => (Fail e, s)
  | Panic p => (Panic p, s)
  end.

(** [CommitBlobs]: every blob is encoded first; then each encoded blob is
    committed on its own, and failures are logged and skipped. *)
Definition encode_all `{Geth} (sm : ShardManager) (l : list (Z * bytes * bytes))
    : gores (list (option bytes)) :=
  foldM (λ acc '(k, blob, commit),
      match TryEncodeKV sm k blob commit with
      | Ret e => mret (acc ++ [e])
      | Fail _ => mret (acc ++ [None])
      | Panic p => Panic p
      end) [] l.

Definition commit_one (inserted : list Z) (x : Z * bytes * option bytes * bytes)
    : ST StorageManager (list Z) := λ s,
  let '(k, commit, encoded, contractMeta) := x in
  match encoded with
  | None => (Ret inserted, s)
  | Some e =>
      match commitEncodedBlob k e commit contractMeta s with
      | (Ret _, s') => (Ret (inserted ++ [k]), s')
      | (Fail _, s') => (Ret inserted, s')
      | (Panic p, s') => (Panic p, s')
      end
  end.

Definition CommitBlobs `{Geth} (kvIndices : list Z) (blobs commits : list bytes)
    : ST StorageManager (list Z) := λ s,
  if negb ((length kvIndices =? length blobs)%nat && (length blobs =? length commits)%nat)
  then (Fail (ErrMsg "invalid params lens"), s)
  else
    (encoded ← st_lift (encode_all (s_shardManager s) (zip (zip kvIndices blobs) commits));
     metas ← st_lift (getKvMetas s kvIndices);
     st_foldM commit_one [] (zip (zip (zip kvIndices commits) encoded) metas)) s.

(** [CommitBlob]. *)
Definition CommitBlob `{Geth} (kvIndex : Z) (blob commit : bytes) : ST StorageManager unit := λ s,
  match TryEncodeKV (s_shardManager s) kvIndex blob commit with
  | Ret (Some encodedBlob) =>
      match getKvMetas s [kvIndex] with
      | Ret [contractMeta] => commitEncodedBlob kvIndex encodedBlob commit contractMeta s
      | Ret _ => (Fail (ErrMsg "invalid params lens"), s)
      | Fail e => (Fail e, s)
      | Panic p => (Panic p, s)
      end
  | Panic p => (Panic p, s)
  | _ => (Fail (ErrMsg "blob encode failed"), s)
  end.

(** [CommitEmptyBlobs]: the encoding loop stops at the first failure; the commit
    loop stops at an error that is not a commit mismatch. *)
Fixpoint encode_empty `{Geth} (sm : ShardManager) (l : list Z) : gores (list (Z * bytes)) :=
  match l with
  | [] => mret []
  | i :: l =>
      match TryEncodeKV sm i [] (zeros 32) with
      | Ret (Some e) => rest ← encode_empty sm l; mret ((i, e) :: rest)
      | Panic p => Panic p
      | _ => mret []
      end
  end.

Fixpoint commit_empty (l : list (Z * bytes * bytes)) (inserted next : Z)
    : ST StorageManager (Z * Z) := λ s,
  match l with
  | [] => (Ret (inserted, next), s)
  | (k, e, contractMeta) :: l =>
      match commitEncodedBlob k e (zeros 32) contractMeta s with
      | (Ret _, s') => commit_empty l (inserted + 1) (add64 next 1) s'
      | (Fail err, s') =>
          if as_commit_mismatch err then commit_empty l inserted (add64 next 1) s'
          else (Ret (inserted, next), s')
      | (Panic p, s') => (Panic p, s')
      end
  end.

(** The two counts are returned with the error of [getKvMetas] too. *)
Definition CommitEmptyBlobs `{Geth} (start limit : Z) : ST StorageManager (Z * Z * option error) :=
  λ s,
  match encode_empty (s_shardManager s) (seqZ start (limit - start + 1)) with
  | Ret encoded =>
      match getKvMetas s encoded.*1 with
      | Ret metas =>
          match commit_empty (zip encoded metas) 0 start s with
          | (Ret (inserted, next), s') => (Ret (inserted, next, None), s')
          | (Fail e, s') => (Fail e, s')
          | (Panic p, s') => (Panic p, s')
          end
      | Fail e => (Ret (0, start, Some e), s)
      | Panic p => (Panic p, s)
      end
  | Fail e => (Fail e, s)
  | Panic p => (Panic p, s)
  end.

(** ** Checks and reads *)

Definition h_filled : bytes := <[24%nat := blobFillingMask]> (zeros 32).

Definition syncCheck (s : StorageManager) (kvIdx : Z) : gores unit :=
  match ShardManager.TryReadMeta (s_shardManager s) kvIdx with
  | Panic p => Panic p
  | Ret (Some (meta, None)) =>
      let hash := go_copy (zeros 32) meta in
      if bool_decide (hash = zeros 32) || bool_decide (hash = h_filled)
      then Fail (ErrMsg "syncing or just empty blob")
      else Ret tt
  | _ => Fail (ErrMsg "meta reading failed")
  end.

(** The commit and the error are returned together. *)
Definition checkMeta `{Il1Source} (kvIdx : Z) : ST StorageManager (bytes * option error) := λ s,
  match ask_KvMetas [kvIdx] FinalizedBlockNumber s with
  | (Panic p, s) => (Panic p, s)
  | (Fail e, s) => (Ret (zeros 32, Some (ErrWrap "failed to query KV meta" e)), s)
  | (Ret [], s) => (Ret (zeros 32, Some (ErrMsg "failed to query KV meta: no meta found")), s)
  | (Ret (m :: _), s) =>
      let commit := go_copy (zeros 32) (drop 8 m) in
      match ShardManager.TryReadMeta (s_shardManager s) kvIdx with
      | Panic p => (Panic p, s)
      | Fail e => (Ret (zeros 32, Some (ErrWrap "failed to read local meta" e)), s)
      | Ret (Some (_, Some e)) => (Ret (zeros 32, Some (ErrWrap "failed to read local meta" e)), s)
      | Ret None => (Ret (zeros 32, Some (ErrMsg "local meta not found")), s)
      | Ret (Some (metaLocal, None)) =>
          match CompareCommits commit metaLocal with
          | Ret _ => (Ret (commit, None), s)
          | Fail e => (Ret (commit, Some e), s)
          | Panic p => (Panic p, s)
          end
      end
  end.

Definition CheckMeta `{Il1Source} := checkMeta.

Definition tryWrite `{Geth} (kvIdx : Z) (blob commit : bytes) : ST StorageManager unit := λ s,
  match on_sm (TryWrite kvIdx blob (PrepareCommit commit)) s with
  | (Ret true, s') => (Ret tt, s')
  | (Ret false, s') => (Fail (ErrMsg "failed to write blob: kv not exist"), s')
  | (Fail e, s') => (Fail (ErrWrap "failed to write blob" e), s')
  | (Panic p, s') => (Panic p, s')
  end.

(** [fetchBlob] is the caller's [FetchBlobFunc]. *)
Definition TryWriteWithMetaCheck `{Geth} `{Il1Source} (kvIdx : Z) (commit : bytes)
    (fetchBlob : Z → bytes → gores bytes) : ST StorageManager unit :=
  '(newCommit, _) ← checkMeta kvIdx;
  let commit := if bool_decide (newCommit = zeros 32) then commit else newCommit in
  match fetchBlob kvIdx commit with
  | Ret blob => tryWrite kvIdx blob commit
  | Fail e => st_lift (Fail (ErrWrap "fetch blob error" e))
  | Panic p => st_lift (Panic p)
  end.

Definition TryReadEncoded (s : StorageManager) (kvIdx readLen : Z) : gores (option bytes) :=
  _ ← syncCheck s kvIdx;
  ShardManager.TryReadEncoded (s_shardManager s) kvIdx readLen.

Definition TryRead `{Geth} (s : StorageManager) (kvIdx readLen : Z) (commit : bytes)
    : gores (option bytes) :=
  ShardManager.TryRead (s_shardManager s) kvIdx readLen commit.

Definition TryReadMeta (s : StorageManager) (kvIdx : Z) : gores (option (bytes * option error)) :=
  ShardManager.TryReadMeta (s_shardManager s) kvIdx.

Definition ReadSampleUnlocked `{Geth} (s : StorageManager) (shardIdx sampleIdx : Z)
    : gores bytes :=
  match sm_shardMap (s_shardManager s) !! shardIdx with
  | Some ds => DataShard.ReadSample ds sampleIdx
  | None => Fail (ErrMsg "shard not found")
  end.

Definition KvEntries (s : StorageManager) : Z := sm_kvEntries (s_shardManager s).
Definition KvEntryCount (s : StorageManager) : Z := s_kvEntryCount s.
Definition Shards (s : StorageManager) : list Z := ShardIds (s_shardManager s).

Definition DecodeKV `{Geth} (s : StorageManager) (kvIdx : Z) (b hash providerAddr : bytes)
    (encodeType : Z) : gores (option bytes) :=
  ShardManager.DecodeKV (s_shardManager s) kvIdx b hash providerAddr encodeType.

Definition Close (order : list Z) : ST StorageManager unit := on_sm (ShardManager.Close order).

(** ** Encoding of single blobs *)

Definition getEncodingParams `{Geth} (s : StorageManager) (kvIdx : Z) (blobHash : bytes)
    : Z * bytes :=
  let shardIdx := Z.shiftr kvIdx (sm_kvEntriesBits (s_shardManager s)) in
  let encodeType := (GetShardEncodeType (s_shardManager s) shardIdx).1 in
  let miner := (GetShardMiner (s_shardManager s) shardIdx).1 in
  (encodeType, CalcEncodeKey blobHash kvIdx miner).

Definition EncodeBlob `{Geth} (s : StorageManager) (blob blobHash : bytes) (kvIdx size : Z)
    : gores bytes :=
  let '(encodeType, encodeKey) := getEncodingParams s kvIdx blobHash in
  EncodeChunk size blob encodeType encodeKey.

Definition DecodeBlob `{Geth} (s : StorageManager) (blob blobHash : bytes) (kvIdx size : Z)
    : gores bytes :=
  let '(encodeType, encodeKey) := getEncodingParams s kvIdx blobHash in
  DecodeChunk size blob encodeType encodeKey.

(** ** Download of all metadata *)

(** [downloadMetaInRange] without interruption: [fuel] bounds the rounds.  The
    ten retries of a failed request follow each other. *)
Fixpoint ask_retry `{Il1Source} (retries : nat) (kvIndices : list Z) (block : Z)
    : ST StorageManager (list bytes) := λ s,
  match ask_KvMetas kvIndices block s with
  | (Fail e, s') =>
      match retries with
      | O => (Fail e, s')
      | S n => ask_retry n kvIndices block s'
      end
  | r => r
  end.

Definition store_metas (kvIndices : list Z) (metas : list bytes) : ST StorageManager unit := λ s,
  if (length kvIndices <? length metas)%nat then (Panic OutOfRange, s)
  else (Ret tt, set_metas s (foldl (λ m '(i, meta), <[i := meta]> m) (s_blobMetas s)
                                   (zip kvIndices metas))).

Fixpoint downloadMetaInRange `{Il1Source} (fuel : nat) (from to batchSize : Z)
    : ST StorageManager unit := λ s,
  if to <=? from then (Ret tt, s)
  else
    match fuel with
    | O => (Panic OutOfFuel, s)
    | S fuel =>
        let batchLimit := Z.min (Z.min (add64 from batchSize) to) (s_kvEntryCount s) in
        let kvIndices := seqZ from (batchLimit - from) in
        (metas ← ask_retry 10 kvIndices (s_localL1 s);
         _ ← store_metas kvIndices metas;
         downloadMetaInRange fuel batchLimit to batchSize) s
    end.

(** The ranges of the 32 download goroutines, or one range when there is little
    to download. *)
Definition meta_ranges (from to batchSize : Z) : list (Z * Z) :=
  if sub64 to from <? mul64 MetaDownloadThread batchSize then [(from, to)]
  else
    let rangeSize := sub64 to from / MetaDownloadThread in
    (λ taskIdx, (mul64 taskIdx rangeSize,
                 if taskIdx =? MetaDownloadThread - 1 then to
                 else mul64 (taskIdx + 1) rangeSize)) <$> seqZ 0 MetaDownloadThread.

Definition downloadMetaInParallel `{Il1Source} (fuel : nat) (from to batchSize : Z)
    : ST StorageManager unit :=
  errs ← st_foldM (λ errs '(a, b),
      r ← st_catch (downloadMetaInRange fuel a b batchSize);
      mret (errs ++ match r with inl e => [e] | inr _ => [] end)) []
    (meta_ranges from to batchSize);
  match errs with [] => mret tt | e :: _ => st_lift (Fail e) end.

Definition DownloadAllMetas `{Il1Source} (fuel : nat) (batchSize : Z) : ST StorageManager unit :=
  s ← st_get;
  let kvEntryCount := s_kvEntryCount s in
  st_foldM (λ _ sid,
      let first := mul64 (KvEntries s) sid in
      let limit := mul64 (KvEntries s) (add64 sid 1) in
      let last := Z.min limit kvEntryCount in
      if last <? first then mret tt
      else downloadMetaInParallel fuel first last batchSize) tt (Shards s).

(** ** Metadata records *)

Lemma length_PrepareCommit c : length (PrepareCommit c) = 32%nat.
Proof. rw /PrepareCommit length_insert length_go_copy //. Qed.

Lemma PrepareCommit_prefix c : length c = 32%nat → take 24 (PrepareCommit c) = take 24 c.
Proof.
  intros Hc. rw /PrepareCommit take_insert_ge // go_copy_zeros; [rw /zlen length_take; lia|].
  rw take_app_length' //. rw length_take. lia.
Qed.

(** The record says "filled": the bit after the data hash is set. *)
Definition filled_bit (m : bytes) : Prop := Z.land (m !!! 24%nat) blobFillingMask ≠ 0.

#[export] Instance filled_bit_dec m : Decision (filled_bit m).
Proof. rw /filled_bit. apply _. Defined.

Lemma PrepareCommit_filled c : filled_bit (PrepareCommit c).
Proof.
  rw /filled_bit /PrepareCommit list_lookup_total_insert_eq.
  { rw length_go_copy. vm_compute. lia. }
  rw Z.land_lor_distr_l Z.land_diag. intros E.
  have E' : Z.testbit (Z.lor (Z.land (go_copy (zeros 32) (take 24 c) !!! 24%nat) blobFillingMask)
                     blobFillingMask) 7 = false by rw E.
  rw Z.lor_spec in E'. by destruct (Z.testbit (Z.land _ _) 7).
Qed.

(** The layout of the metadata the manager keeps: a record built for an
    index and a commit decodes to that index, carries exactly the data hash of
    the commit, and so passes the two checks of [commitEncodedBlob]; the commit
    prepared for the local file keeps the data hash and sets the filled bit. *)
Theorem index_meta_spec i commit :
  0 ≤ i < 2 ^ 40 → length commit = 32%nat →
  ∃ m, index_meta i commit = Ret m ∧ length m = 32%nat ∧ be_decode (take 5 m) = i ∧
    CompareCommits (drop 8 m) commit = Ret tt ∧
    CompareCommits (drop 8 m) (PrepareCommit commit) = Ret tt ∧
    filled_bit (PrepareCommit commit).
Proof.
  intros Hi Hc. rw /index_meta int64_small; [rw /two63; lia|]. rw Z.abs_eq; [lia|].
  rw (proj2 (Z.ltb_lt _ _)); [lia|]. eexists. split; [done|].
  have Hb : length (be_encode 5 i) = 5%nat.
  { pose proof (length_be_encode 5 i ltac:(lia)) as H. rw /zlen in H. lia. }
  have Hg : go_copy (zeros 24) (take 24 commit) = take 24 commit.
  { apply go_copy_full. rw length_take Hc //. }
  have Hd : drop 8 (be_encode 5 i ++ zeros 3 ++ go_copy (zeros 24) (take 24 commit)) = take 24 commit.
  { rw app_assoc drop_app_length' // length_app Hb //. }
  rw Hd. split_and!.
  - rw Hg !length_app Hb length_take Hc //.
  - rw take_app_length' // be_decode_encode //.
  - rw /CompareCommits /zlen length_take Hc /= decide_True // take_take //.
  - rw /CompareCommits /zlen length_take Hc length_PrepareCommit /=.
    rw decide_True // take_take PrepareCommit_prefix //.
  - apply PrepareCommit_filled.
Qed.

Lemma index_meta_spec_witness :
  ∃ m, index_meta 77 (replicate 32 9) = Ret m ∧ CompareCommits (drop 8 m) (replicate 32 9) = Ret tt.
Proof.
  destruct (index_meta_spec 77 (replicate 32 9)) as (m & H1 & _ & _ & H2 & _); [lia|done|].
  by exists m.
Defined.

(** ** Commits of encoded blobs *)

Definition kv_stored (s : StorageManager) (k : Z) : Prop := stored (s_shardManager s) k.

(** The local record of KV [k] carries the data hash of [commit] and is filled. *)
Definition holds (s : StorageManager) (k : Z) (commit : bytes) : Prop :=
  ∃ m, TryReadMeta s k = Ret (Some (m, None)) ∧ take 24 m = take 24 commit ∧ filled_bit m.

(** [s'] is [s] except for what is stored of KV [k]. *)
Record only_kv (k : Z) (s s' : StorageManager) : Prop := {
  ok_wf : sm_wf (s_shardManager s');
  ok_view : s' = set_sm s (s_shardManager s');
  ok_geometry : sm_kvSize (s_shardManager s') = sm_kvSize (s_shardManager s) ∧
                sm_kvEntries (s_shardManager s') = sm_kvEntries (s_shardManager s);
  ok_stored k' : kv_stored s k' → kv_stored s' k';
  ok_other k' : k' ≠ k → kv_stored s k' →
    TryReadMeta s' k' = TryReadMeta s k' ∧
    ∀ n, 0 ≤ n ≤ sm_kvSize (s_shardManager s) →
      ShardManager.TryReadEncoded (s_shardManager s') k' n =
      ShardManager.TryReadEncoded (s_shardManager s) k' n }.

#[export] Instance holds_dec s k commit : Decision (holds s k commit).
Proof.
  rw /holds. destruct (TryReadMeta s k) as [[[m [e|]]|]| |];
    [right; by intros (? & ? & _)| |right; by intros (? & ? & _)..].
  destruct (decide (take 24 m = take 24 commit ∧ filled_bit m)) as [|Hn];
    [left; by exists m|right]. intros (? & [= <-] & ?). by apply Hn.
Defined.

Lemma Shards_elem s sid : sid ∈ Shards s ↔ sid ∈ dom (sm_shardMap (s_shardManager s)).
Proof.
  rw /Shards /ShardIds merge_sort_Permutation list_elem_of_fmap elem_of_dom. split.
  - intros ([i ds] & -> & Hi%elem_of_map_to_list). exact (mk_is_Some _ _ Hi).
  - intros [ds Hi]. exists (sid, ds). split; [done|]. by apply elem_of_map_to_list.
Qed.

Lemma set_sm_id s : set_sm s (s_shardManager s) = s.
Proof. by destruct s. Qed.

Lemma only_kv_refl k s : sm_wf (s_shardManager s) → only_kv k s s.
Proof. intros. constructor; [done|by rw set_sm_id|done..]. Qed.

(** The local record of a stored KV can be read and is 32 bytes long. *)
Lemma stored_meta s k :
  sm_wf (s_shardManager s) → kv_stored s k →
  ∃ m, TryReadMeta s k = Ret (Some (m, None)) ∧ zlen m = 32.
Proof.
  intros Hwf (ds & Hk & Hf). destruct (shard_of_spec _ k ds Hwf Hk) as [Hds Hin].
  destruct (serves_exists _ _ Hf) as (j & df & Hs).
  exists (df_meta df k). rw /TryReadMeta /ShardManager.TryReadMeta with_shard_ok // Hk.
  rw (ReadMeta_ok ds Hds k Hin j df Hs). split; [done|].
  apply zlen_df_meta; [exact (fo_wf _ _ (serving_file ds Hds k j df Hs))|apply Hs].
Qed.

Lemma on_sm_TryWriteEncoded s k e commit :
  sm_wf (s_shardManager s) → kv_stored s k → zlen e ≤ sm_kvSize (s_shardManager s) →
  length commit = 32%nat →
  ∃ s', on_sm (TryWriteEncoded k e (PrepareCommit commit)) s = (Ret true, s') ∧
    only_kv k s s' ∧ holds s' k commit ∧
    ∀ n, 0 ≤ n ≤ sm_kvSize (s_shardManager s) →
      ShardManager.TryReadEncoded (s_shardManager s') k n =
        Ret (Some (take (Z.to_nat n) (padded (sm_kvSize (s_shardManager s)) e))).
Proof.
  intros Hwf Hk He Hc.
  destruct (TryWriteEncoded_ok (s_shardManager s) k e (PrepareCommit commit) Hwf Hk He)
    as (sm' & HW & [Hwf' Hst Hm Hoth] & E1 & E2 & HR).
  { by rw /zlen length_PrepareCommit. }
  exists (set_sm s sm'). rw /on_sm HW. split_and!; [done| | |done].
  - constructor; done.
  - exists (PrepareCommit commit). split_and!; [exact Hm|by apply PrepareCommit_prefix|].
    apply PrepareCommit_filled.
Qed.

Section commit.
Context (s : StorageManager) (Hwf : sm_wf (s_shardManager s)) (k : Z) (Hk : kv_stored s k).
Context (e commit meta : bytes) (He : zlen e ≤ sm_kvSize (s_shardManager s)).
Context (Hc : length commit = 32%nat) (Hm : length meta = 32%nat).

Lemma CompareCommits_contract :
  CompareCommits (drop 8 meta) commit =
    if decide (take 24 (drop 8 meta) = take 24 commit) then Ret tt
    else Fail (ErrCommitMismatch (take 24 (drop 8 meta)) (take 24 commit) "").
Proof using Hc Hm.
  rw /CompareCommits /zlen length_drop Hm Hc /=. done.
Qed.

Lemma commit_mismatch :
  take 24 (drop 8 meta) ≠ take 24 commit →
  ∃ er, commitEncodedBlob k e commit meta s = (Fail er, s) ∧ as_commit_mismatch er = true.
Proof using Hc Hm.
  intros Hne. rw /commitEncodedBlob CompareCommits_contract decide_False //. by eexists.
Qed.

Lemma commit_wrong_index :
  take 24 (drop 8 meta) = take 24 commit → be_decode (take 5 meta) ≠ k →
  commitEncodedBlob k e commit meta s =
    (Fail (ErrMsg "kvIdx from contract and input is not matched"), s).
Proof using Hwf Hk Hc Hm.
  intros Heq Hi. rw /commitEncodedBlob CompareCommits_contract decide_True //.
  destruct (stored_meta s k Hwf Hk) as (m & HmR & _). rw /TryReadMeta in HmR. rw HmR.
  by rw (proj2 (Z.eqb_neq _ _) Hi).
Qed.

Lemma commit_ok :
  take 24 (drop 8 meta) = take 24 commit → be_decode (take 5 meta) = k →
  ∃ s', commitEncodedBlob k e commit meta s = (Ret tt, s') ∧ only_kv k s s' ∧
    holds s' k commit ∧ (holds s k commit → s' = s) ∧
    (¬ holds s k commit → ∀ n, 0 ≤ n ≤ sm_kvSize (s_shardManager s) →
       ShardManager.TryReadEncoded (s_shardManager s') k n =
         Ret (Some (take (Z.to_nat n) (padded (sm_kvSize (s_shardManager s)) e)))).
Proof using Hwf Hk He Hc Hm.
  intros Heq Hi. rw /commitEncodedBlob CompareCommits_contract decide_True //.
  destruct (stored_meta s k Hwf Hk) as (m & HmR & Hml).
  have Hgc : go_copy (zeros 32) m = m.
  { apply go_copy_full. rw /zlen in Hml. rw /zeros length_replicate. lia. }
  have Hholds : holds s k commit ↔ take 24 m = take 24 commit ∧ filled_bit m.
  { rw /holds HmR. split; [intros (? & [= <-] & ?); done|]. intros ?. by exists m. }
  pose proof HmR as HmR'. rw /TryReadMeta in HmR'. rw HmR' Hi Z.eqb_refl Hgc /=.
  have Hskip : (bool_decide (take 24 m = take 24 commit) &&
                negb (Z.land (m !!! 24%nat) blobFillingMask =? 0)) = bool_decide (holds s k commit).
  { symmetry. destruct (decide (holds s k commit)) as [Hh|Hh].
    - rw bool_decide_eq_true_2 //. apply Hholds in Hh as [-> Hf]. rw bool_decide_eq_true_2 //=.
      by rw (proj2 (Z.eqb_neq _ _) Hf).
    - rw bool_decide_eq_false_2 //. case_bool_decide as E1; [|done]. simpl.
      case: Z.eqb_spec => // E2. destruct Hh. by apply Hholds. }
  rw Hskip. clear Hskip. case_bool_decide as Hh.
  - exists s. split_and!; [done|by apply only_kv_refl|done|done|done].
  - destruct (on_sm_TryWriteEncoded s k e commit Hwf Hk He Hc) as (s' & HW & Hod & Hh' & HR).
    rw HW. by exists s'.
Qed.
End commit.

(** [commitEncodedBlob] on a stored KV.  A commit whose data hash differs
    from the contract's is refused as a mismatch, a contract record of another
    index is refused, and both leave the state alone; otherwise the commit
    succeeds, the KV then holds the commit and is marked filled, nothing else
    changes, the encoded blob is written unless the KV already held the commit,
    and committing again succeeds without any change. *)
Theorem commitEncodedBlob_spec s k e commit meta :
  sm_wf (s_shardManager s) → kv_stored s k → zlen e ≤ sm_kvSize (s_shardManager s) →
  length commit = 32%nat → length meta = 32%nat →
  (take 24 (drop 8 meta) ≠ take 24 commit →
     ∃ er, commitEncodedBlob k e commit meta s = (Fail er, s) ∧ as_commit_mismatch er = true) ∧
  (take 24 (drop 8 meta) = take 24 commit → be_decode (take 5 meta) ≠ k →
     commitEncodedBlob k e commit meta s =
       (Fail (ErrMsg "kvIdx from contract and input is not matched"), s)) ∧
  (take 24 (drop 8 meta) = take 24 commit → be_decode (take 5 meta) = k →
   ∃ s', commitEncodedBlob k e commit meta s = (Ret tt, s') ∧ only_kv k s s' ∧
     holds s' k commit ∧
     (holds s k commit → s' = s) ∧
     (¬ holds s k commit →
        ShardManager.TryReadEncoded (s_shardManager s') k (sm_kvSize (s_shardManager s)) =
          Ret (Some (padded (sm_kvSize (s_shardManager s)) e))) ∧
     commitEncodedBlob k e commit meta s' = (Ret tt, s')).
Proof.
  intros Hwf Hk He Hc Hm. split_and!; [by apply commit_mismatch|by apply commit_wrong_index|].
  intros Heq Hi. destruct (commit_ok s Hwf k Hk e commit meta He Hc Hm Heq Hi)
    as (s' & H1 & H2 & H3 & H4 & H5).
  exists s'. split_and!; [done..| |].
  - intros Hn. have Hkv : 0 ≤ sm_kvSize (s_shardManager s).
    { pose proof (zlen_nonneg e). lia. }
    rw (H5 Hn); [lia|]. by rw take_ge // length_padded.
  - pose proof (ok_geometry _ _ _ H2) as [E1 _].
    destruct (commit_ok s' (ok_wf _ _ _ H2) k (ok_stored _ _ _ H2 k Hk) e commit meta) as
      (s2 & H6 & _ & _ & H7 & _); [by rw E1|done..|]. by rw H6 (H7 H3).
Qed.

(** ** Commits of batches *)

(** The contract metadata of one index in the local view. *)
Definition contract_meta (s : StorageManager) (k : Z) : gores bytes :=
  match s_blobMetas s !! k with
  | Some meta => Ret meta
  | None => if s_kvEntryCount s <=? k then index_meta k []
            else Fail (ErrMsg "meta not found in blobMetas")
  end.

Definition metas_wf (s : StorageManager) : Prop :=
  ∀ k m, s_blobMetas s !! k = Some m → length m = 32%nat.

Lemma index_meta_length i h m : index_meta i h = Ret m → length m = 32%nat.
Proof.
  rw /index_meta. destruct (_ <? 2 ^ 40); [|done]. intros <-%Ret_inj.
  pose proof (length_be_encode 5 (Z.abs (int64 i)) ltac:(lia)) as Hb. rw /zlen in Hb.
  rw length_app length_app length_go_copy /zeros !length_replicate. lia.
Qed.

Lemma contract_meta_length s k m : metas_wf s → contract_meta s k = Ret m → length m = 32%nat.
Proof.
  intros Hm. rw /contract_meta. destruct (s_blobMetas s !! k) eqn:E.
  - intros [= <-]. exact (Hm _ _ E).
  - destruct (s_kvEntryCount s <=? k); [apply index_meta_length|done].
Qed.

Lemma getKvMetas_Forall2 s ks metas :
  getKvMetas s ks = Ret metas ↔ Forall2 (λ k m, contract_meta s k = Ret m) ks metas.
Proof.
  rw -go_map_Forall2. have -> : getKvMetas s ks = go_map (contract_meta s) ks; [|done].
  apply foldM_ext. intros acc k _. rw /contract_meta.
  destruct (s_blobMetas s !! k); [done|]. by destruct (s_kvEntryCount s <=? k).
Qed.

(** The encoding of one blob of a batch: [None] when it is skipped. *)
Definition encode_one `{Geth} (sm : ShardManager) (x : Z * bytes * bytes) : gores (option bytes) :=
  match TryEncodeKV sm x.1.1 x.1.2 x.2 with
  | Ret e => Ret e
  | Fail _ => Ret None
  | Panic p => Panic p
  end.

Lemma encode_all_Forall2 `{Geth} sm l es :
  encode_all sm l = Ret es ↔ Forall2 (λ x e, encode_one sm x = Ret e) l es.
Proof.
  rw -go_map_Forall2. have -> : encode_all sm l = go_map (encode_one sm) l; [|done].
  apply foldM_ext. intros acc [[k b] c] _. rw /encode_one /=. by destruct (TryEncodeKV sm k b c).
Qed.

(** A KV that the node does not manage, or that it stores and can mask. *)
Definition committable `{Geth} (s : StorageManager) (k : Z) (commit : bytes) : Prop :=
  shard_of (s_shardManager s) k = None ∨
  kv_stored s k ∧ sm_maskable (s_shardManager s) k commit.

Lemma encode_one_ok `{GethLaws} s k b c :
  sm_wf (s_shardManager s) → committable s k c →
  ∃ r, encode_one (s_shardManager s) (k, b, c) = Ret r ∧
    match r with
    | None => shard_of (s_shardManager s) k = None
    | Some e => kv_stored s k ∧ zlen e = sm_kvSize (s_shardManager s)
    end.
Proof.
  intros Hwf [Hn|[Hk Hm]]; rw /encode_one /=.
  - rw /TryEncodeKV udiv_nz; [pose proof (smwf_entries _ Hwf); lia|].
    rw /= -/(shard_of (s_shardManager s) k) Hn. by exists None.
  - pose proof Hk as (ds & Hds & _).
    destruct (TryEncodeKV_ok (s_shardManager s) k ds b c Hwf Hds (Hm ds Hds)) as (e & -> & Hl & _).
    by exists (Some e).
Qed.

Lemma holds_prefix s k c c' : take 24 c = take 24 c' → holds s k c → holds s k c'.
Proof. intros E (m & H1 & H2 & H3). exists m. by rw -E. Qed.

(** One element of a batch: index, commit, encoded blob, contract record. *)
Definition item_ok (s : StorageManager) (x : Z * bytes * option bytes * bytes) : Prop :=
  let '(k, c, enc, m) := x in
  length c = 32%nat ∧ length m = 32%nat ∧ contract_meta s k = Ret m ∧
  match enc with
  | None => shard_of (s_shardManager s) k = None
  | Some e => kv_stored s k ∧ zlen e = sm_kvSize (s_shardManager s)
  end.

(** The commits that are taken: the KV is managed and the contract has the data
    hash of the commit for this very index. *)
Definition accepts (x : Z * bytes * option bytes * bytes) : Prop :=
  let '(k, c, enc, m) := x in
  is_Some enc ∧ take 24 (drop 8 m) = take 24 c ∧ be_decode (take 5 m) = k.

(** [e] is the encoded blob of the first element for KV [k] that is taken. *)
Definition first_taken (pre : list (Z * bytes * option bytes * bytes)) (k : Z) (e : bytes) : Prop :=
  ∃ pre1 c m pre2, pre = pre1 ++ (k, c, Some e, m) :: pre2 ∧ accepts (k, c, Some e, m) ∧
    ∀ x, x ∈ pre1 → x.1.1.1 = k → ¬ accepts x.

Lemma first_taken_app pre k e x : first_taken pre k e → first_taken (pre ++ [x]) k e.
Proof.
  intros (pre1 & c & m & pre2 & -> & H). exists pre1, c, m, (pre2 ++ [x]). by rw -app_assoc.
Qed.

(** The first [n] bytes in the data file of KV [k]. *)
Definition kv_bytes (s : StorageManager) (k n : Z) : gores (option bytes) :=
  ShardManager.TryReadEncoded (s_shardManager s) k n.

(** The state of the commit loop after the elements [pre]: what is stored of a
    KV changes only if the KV is inserted and did not hold the contract's hash
    already; then it is the encoded blob of the first element taken for it. *)
Record committed (s : StorageManager) (pre : list (Z * bytes * option bytes * bytes))
    (inserted : list Z) (s' : StorageManager) : Prop := {
  co_wf : sm_wf (s_shardManager s');
  co_view : s' = set_sm s (s_shardManager s');
  co_size : sm_kvSize (s_shardManager s') = sm_kvSize (s_shardManager s);
  co_stored k : kv_stored s k → kv_stored s' k;
  co_elem k : k ∈ inserted ↔ ∃ x, x ∈ pre ∧ x.1.1.1 = k ∧ accepts x;
  co_sub : inserted `sublist_of` (λ x : Z * bytes * option bytes * bytes, x.1.1.1) <$> pre;
  co_holds k : k ∈ inserted → kv_stored s k ∧ ∃ m, contract_meta s k = Ret m ∧ holds s' k (drop 8 m);
  co_other k : k ∉ inserted → kv_stored s k → TryReadMeta s' k = TryReadMeta s k;
  co_kept k : kv_stored s k →
    k ∉ inserted ∨ (∃ m, contract_meta s k = Ret m ∧ holds s k (drop 8 m)) →
    ∀ n, 0 ≤ n ≤ sm_kvSize (s_shardManager s) → kv_bytes s' k n = kv_bytes s k n;
  co_data k m : k ∈ inserted → contract_meta s k = Ret m → ¬ holds s k (drop 8 m) →
    ∃ e, first_taken pre k e ∧ ∀ n, 0 ≤ n ≤ sm_kvSize (s_shardManager s) →
      kv_bytes s' k n = Ret (Some (take (Z.to_nat n) (padded (sm_kvSize (s_shardManager s)) e))) }.

Lemma committed_nil s : sm_wf (s_shardManager s) → committed s [] [] s.
Proof.
  intros Hwf. constructor; [done|by rw set_sm_id|done|done| |done| |done|done|].
  - intros k. split; [by intros []%not_elem_of_nil|]. by intros (x & []%not_elem_of_nil & _).
  - by intros k []%not_elem_of_nil.
  - by intros k m []%not_elem_of_nil.
Qed.

Lemma committed_skip s pre ins s' x :
  committed s pre ins s' → ¬ accepts x → committed s (pre ++ [x]) ins s'.
Proof.
  intros [? ? ? ? H5 H6 ? ? ? H10] Hx. constructor; try done.
  - intros k. rw H5. split; intros (y & Hy & ? & ?); exists y.
    + split; [|done]. apply elem_of_app. by left.
    + split; [|done]. apply elem_of_app in Hy as [|Hy%list_elem_of_singleton]; [done|]. by subst.
  - rw fmap_app. by apply sublist_inserts_r.
  - intros k m Hk Hm Hh. destruct (H10 k m Hk Hm Hh) as (e & He & ?).
    exists e. split; [by apply first_taken_app|done].
Qed.

(** A KV is inserted again: it holds the commit already, and nothing changes. *)
Lemma committed_again s pre ins s' k c e m :
  committed s pre ins s' → accepts (k, c, Some e, m) → k ∈ ins →
  committed s (pre ++ [(k, c, Some e, m)]) (ins ++ [k]) s'.
Proof.
  intros [C1 C2 C3 C4 C5 C6 C7 C8 C9 C10] Hacc Hin.
  have Hins k' : k' ∈ ins ++ [k] ↔ k' ∈ ins.
  { rw elem_of_app list_elem_of_singleton. split; [intros [| ->]; done|tauto]. }
  constructor; try done.
  - intros k'. rw Hins C5. split; intros (x & Hx & Ek & Ha).
    + exists x. split; [|done]. apply elem_of_app. by left.
    + apply elem_of_app in Hx as [|Hx%list_elem_of_singleton]; [by exists x|]. subst x.
      simpl in Ek. subst k'. by apply C5.
  - rw fmap_app. by apply sublist_app.
  - intros k'. rw Hins. apply C7.
  - intros k'. rw Hins. apply C8.
  - intros k'. rw Hins. apply C9.
  - intros k' m'. rw Hins. intros Hk Hm Hh. destruct (C10 k' m' Hk Hm Hh) as (e' & He & ?).
    exists e'. split; [by apply first_taken_app|done].
Qed.

Lemma holds_meta s s' k c : TryReadMeta s' k = TryReadMeta s k → holds s' k c ↔ holds s k c.
Proof. intros E. by rw /holds E. Qed.

(** What one commit does to the state of the loop. *)
Lemma committed_take s pre ins s' s2 k c e m :
  committed s pre ins s' → accepts (k, c, Some e, m) → contract_meta s k = Ret m →
  length m = 32%nat → kv_stored s k → only_kv k s' s2 → holds s2 k c →
  (holds s' k c → s2 = s') →
  (¬ holds s' k c → ∀ n, 0 ≤ n ≤ sm_kvSize (s_shardManager s') →
     kv_bytes s2 k n = Ret (Some (take (Z.to_nat n) (padded (sm_kvSize (s_shardManager s')) e)))) →
  committed s (pre ++ [(k, c, Some e, m)]) (ins ++ [k]) s2.
Proof.
  intros HC Hacc Hm Hlm Hk Hod Hh Hsame Hnew. have Ecm : take 24 c = take 24 (drop 8 m) by symmetry; apply Hacc.
  destruct (decide (k ∈ ins)) as [Hin|Hnin].
  { rw Hsame; [|by apply committed_again].
    destruct (co_holds _ _ _ _ HC k Hin) as (_ & m' & Hm' & Hh'). have E : m' = m by congruence. subst m'.
    exact (holds_prefix _ _ _ _ (eq_sym Ecm) Hh'). }
  destruct HC as [C1 C2 C3 C4 C5 C6 C7 C8 C9 C10], Hod as [O1 O2 [O3 _] O4 O5].
  have Hh' := holds_prefix _ _ _ _ Ecm Hh.
  have Hold : holds s' k c ↔ holds s k (drop 8 m).
  { rw (holds_meta s s' k c); [by apply C8|]. split; apply holds_prefix; congruence. }
  constructor.
  - done.
  - rw O2. rw {1}C2. by destruct s.
  - by rw O3.
  - intros k' Hk'. by apply O4, C4.
  - intros k'. rw elem_of_app C5 list_elem_of_singleton. split.
    + intros [(x & Hx & ? & ?)| ->].
      * exists x. split; [|done]. apply elem_of_app. by left.
      * eexists. split; [apply elem_of_app; right; apply list_elem_of_here|done].
    + intros (x & [Hx|Hx%list_elem_of_singleton]%elem_of_app & Ek & Ha).
      * left. by exists x.
      * right. by subst.
  - rw fmap_app. apply sublist_app; [done|]. done.
  - intros k' Hk'. destruct (decide (k' = k)) as [->|Hne]; [split; [done|by exists m]|].
    apply elem_of_app in Hk' as [Hk'|Hk'%list_elem_of_singleton]; [|done].
    destruct (C7 k' Hk') as (Hst & m' & Hm' & m2 & Hr & Hrest). split; [done|].
    exists m'. split; [done|]. exists m2. split; [|done].
    by rw (proj1 (O5 k' Hne (C4 k' Hst))).
  - intros k' Hn Hst. rw elem_of_app list_elem_of_singleton in Hn.
    rw (proj1 (O5 k' _ (C4 k' Hst))); [tauto|]. apply C8; tauto.
  - intros k' Hst Hor n Hn. destruct (decide (k' = k)) as [->|Hne].
    + destruct Hor as [Hn'|(m' & Hm' & Hhm)].
      { destruct Hn'. apply elem_of_app. right. apply list_elem_of_here. }
      have E : m' = m by congruence. subst m'. rw Hsame; [by apply Hold|]. apply C9; [done|by left|done].
    + rw /kv_bytes (proj2 (O5 k' Hne (C4 k' Hst))) ?C3 //. apply C9; [done| |done].
      destruct Hor as [Hn'|?]; [left|by right]. intros ?. apply Hn', elem_of_app. by left.
  - intros k' m' Hk' Hm' Hn'. destruct (decide (k' = k)) as [->|Hne].
    + have E : m' = m by congruence. subst m'. exists e. split; last first.
      { rw -C3. apply Hnew. by rw Hold. }
      exists pre, c, m, []. split_and!; [done..|]. intros x Hx Ex Ha. apply Hnin, C5. by exists x.
    + apply elem_of_app in Hk' as [Hk'|Hk'%list_elem_of_singleton]; [|done].
      destruct (C10 k' m' Hk' Hm' Hn') as (e' & He' & Hb). exists e'. split; [by apply first_taken_app|].
      intros n Hn. rw /kv_bytes (proj2 (O5 k' Hne (C4 k' (proj1 (C7 k' Hk'))))) ?C3 //. by apply Hb.
Qed.

Lemma commit_one_step s pre ins s' x :
  item_ok s x → committed s pre ins s' →
  ∃ ins' s2, commit_one ins x s' = (Ret ins', s2) ∧ committed s (pre ++ [x]) ins' s2.
Proof.
  destruct x as [[[k c] [e|]] m]; simpl; last first.
  { intros _ HC. exists ins, s'. split; [done|]. apply committed_skip; [done|].
    by intros [[? ?] _]. }
  intros (Hc & Hlm & Hm & Hk & He) HC. pose proof HC as [C1 C2 C3 C4 _ _ _ _ _ _].
  have He' : zlen e ≤ sm_kvSize (s_shardManager s') by rw C3; lia.
  destruct (decide (take 24 (drop 8 m) = take 24 c)) as [Heq|Hne]; last first.
  { destruct (commit_mismatch s' k e c m Hc Hlm Hne) as (er & HE & _). rw HE.
    exists ins, s'. split; [done|]. apply committed_skip; [done|]. by intros (_ & ? & _). }
  destruct (decide (be_decode (take 5 m) = k)) as [Hi|Hi]; last first.
  { rw (commit_wrong_index s' C1 k (C4 k Hk) e c m Hc Hlm Heq Hi).
    exists ins, s'. split; [done|]. apply committed_skip; [done|]. by intros (_ & _ & ?). }
  destruct (commit_ok s' C1 k (C4 k Hk) e c m He' Hc Hlm Heq Hi) as (s2 & HE & Hod & Hh & Hsm & Hnw).
  rw HE. exists (ins ++ [k]), s2. split; [done|]. by apply (committed_take s pre ins s').
Qed.

Lemma stored_managed s k : kv_stored s k → shard_of (s_shardManager s) k ≠ None.
Proof. intros (ds & -> & _). done. Qed.

Lemma encode_batch `{GethLaws} s ks bs cs :
  sm_wf (s_shardManager s) → length ks = length bs → Forall2 (committable s) ks cs →
  ∃ encs, Forall2 (λ x e, encode_one (s_shardManager s) x = Ret e) (zip (zip ks bs) cs) encs ∧
    Forall2 (λ k (r : option bytes),
      match r with
      | None => shard_of (s_shardManager s) k = None
      | Some e => kv_stored s k ∧ zlen e = sm_kvSize (s_shardManager s)
      end) ks encs.
Proof.
  intros Hwf Hl HF. revert bs Hl.
  induction HF as [|k c ks cs Hkc HF IH]; intros [|b bs] Hl; [by exists []|done..|].
  destruct (IH bs) as (encs & H1 & H2); [simpl in Hl; lia|].
  destruct (encode_one_ok s k b c Hwf Hkc) as (r & H3 & H4).
  exists (r :: encs). split; by constructor.
Qed.

Lemma batch_items s ks cs encs ms :
  metas_wf s → Forall (λ c, length c = 32%nat) cs →
  Forall2 (λ k (r : option bytes),
      match r with
      | None => shard_of (s_shardManager s) k = None
      | Some e => kv_stored s k ∧ zlen e = sm_kvSize (s_shardManager s)
      end) ks encs →
  Forall2 (λ k m, contract_meta s k = Ret m) ks ms →
  ∀ x, x ∈ zip (zip (zip ks cs) encs) ms → item_ok s x.
Proof.
  intros Hmw Hc He Hm [[[k c] enc] m] (i & Hx)%list_elem_of_lookup. simpl.
  apply lookup_zip_with_Some in Hx as (y & m' & [= <- <-] & Hx & Hmi).
  apply lookup_zip_with_Some in Hx as (y & enc' & [= <- <-] & Hx & Hei).
  apply lookup_zip_with_Some in Hx as (k' & c' & [= <- <-] & Hki & Hci).
  have Hmk := Forall2_lookup_lr _ _ _ _ _ _ Hm Hki Hmi. simpl in Hmk.
  split_and!.
  - exact (Forall_lookup_1 _ _ _ _ Hc Hci).
  - exact (contract_meta_length s k m Hmw Hmk).
  - exact Hmk.
  - exact (Forall2_lookup_lr _ _ _ _ _ _ He Hki Hei).
Qed.

(** The data file of KV [k] holds blob [b], encoded under [c] with the parameters
    of the KV's shard in [s]: what is read decodes to [b], prefix by prefix. *)
Definition kv_has_blob `{Geth} (s s' : StorageManager) (k : Z) (b c : bytes) : Prop :=
  ∃ ds e, shard_of (s_shardManager s) k = Some ds ∧
    ∀ n, 0 ≤ n ≤ sm_kvSize (s_shardManager s) →
      kv_bytes s' k n = Ret (Some (take (Z.to_nat n) e)) ∧
      DecodeKV s k (take (Z.to_nat n) e) c (DataShard.Miner ds) (EncodeType ds) =
        Ret (Some (take (Z.to_nat n) (padded (sm_kvSize (s_shardManager s)) b))).

(** The first element of a batch for KV [k] whose commit has the data hash [h]. *)
Definition first_blob (kvIndices : list Z) (blobs commits : list bytes) (k : Z) (h b c : bytes) : Prop :=
  ∃ i, kvIndices !! i = Some k ∧ blobs !! i = Some b ∧ commits !! i = Some c ∧ take 24 c = h ∧
    ∀ j c', (j < i)%nat → kvIndices !! j = Some k → commits !! j = Some c' → take 24 c' ≠ h.

Lemma zip4_lookup (ks : list Z) (cs : list bytes) (encs : list (option bytes)) (ms : list bytes) i x :
  zip (zip (zip ks cs) encs) ms !! i = Some x ↔
  ks !! i = Some x.1.1.1 ∧ cs !! i = Some x.1.1.2 ∧ encs !! i = Some x.1.2 ∧ ms !! i = Some x.2.
Proof.
  destruct x as [[[k c] enc] m]. simpl. split.
  - intros Hx. apply lookup_zip_with_Some in Hx as (y & m' & [= <- <-] & Hx & Hmi).
    apply lookup_zip_with_Some in Hx as (y & enc' & [= <- <-] & Hx & Hei).
    by apply lookup_zip_with_Some in Hx as (k' & c' & [= <- <-] & Hki & Hci).
  - intros (H1 & H2 & H3 & H4). apply lookup_zip_with_Some. exists (k, c, enc), m. split_and!; [done| |done].
    apply lookup_zip_with_Some. exists (k, c), enc. split_and!; [done| |done].
    apply lookup_zip_with_Some. by exists k, c.
Qed.

(** The first element taken for a KV carries the blob that its data decode to. *)
Lemma first_taken_blob `{GethLaws} s s' ks bs cs encs ms k m e :
  sm_wf (s_shardManager s) → length ks = length bs →
  Forall2 (committable s) ks cs →
  Forall2 (λ x e, encode_one (s_shardManager s) x = Ret e) (zip (zip ks bs) cs) encs →
  Forall2 (λ k (e : option bytes), is_Some e ↔ kv_stored s k) ks encs →
  Forall2 (λ k m, contract_meta s k = Ret m) ks ms →
  contract_meta s k = Ret m → first_taken (zip (zip (zip ks cs) encs) ms) k e →
  zlen e = sm_kvSize (s_shardManager s) →
  (∀ n, 0 ≤ n ≤ sm_kvSize (s_shardManager s) →
     kv_bytes s' k n = Ret (Some (take (Z.to_nat n) (padded (sm_kvSize (s_shardManager s)) e)))) →
  ∃ b c, first_blob ks bs cs k (take 24 (drop 8 m)) b c ∧ kv_has_blob s s' k b c.
Proof.
  intros Hwf Hl Hcm Henc Hst Hms Hm (pre1 & c & m' & pre2 & Epre & (_ & Hacc & Hidx) & Hfirst) Hle Hrd.
  set (i := length pre1).
  have Hx : zip (zip (zip ks cs) encs) ms !! i = Some (k, c, Some e, m') by rw Epre; apply list_lookup_middle.
  apply zip4_lookup in Hx as (Hk & Hc & He & Hm'). simpl in *.
  have E : m' = m by pose proof (Forall2_lookup_lr _ _ _ _ _ _ Hms Hk Hm'); simpl in *; congruence.
  subst m'. destruct (lookup_lt_is_Some_2 bs i) as [b Hb].
  { rw -Hl. exact (lookup_lt_Some _ _ _ Hk). }
  have Hstk : kv_stored s k by apply (Forall2_lookup_lr _ _ _ _ _ _ Hst Hk He); eexists.
  have HE : TryEncodeKV (s_shardManager s) k b c = Ret (Some e).
  { have Hz : zip (zip ks bs) cs !! i = Some (k, b, c).
    { apply lookup_zip_with_Some. exists (k, b), c. split_and!; [done| |done].
      apply lookup_zip_with_Some. by exists k, b. }
    have := Forall2_lookup_lr _ _ _ _ _ _ Henc Hz He. rw /encode_one /=.
    by destruct (TryEncodeKV _ _ _ _) as [o| |]; [intros <-%Ret_inj|..]. }
  destruct (Forall2_lookup_lr _ _ _ _ _ _ Hcm Hk Hc) as [Hn|[_ Hmask]].
  { by destruct (stored_managed s k Hstk). }
  pose proof Hstk as (ds & Hds & _). exists b, c. split.
  - exists i. split_and!; [done..|]. intros j c' Hj Hkj Hcj Eh.
    destruct (lookup_lt_is_Some_2 encs j) as [ej Hej].
    { rw -(Forall2_length _ _ _ Hst). exact (lookup_lt_Some _ _ _ Hkj). }
    have Hmj : ms !! j = Some m.
    { destruct (lookup_lt_is_Some_2 ms j) as [mj Hmj].
      { rw -(Forall2_length _ _ _ Hms). exact (lookup_lt_Some _ _ _ Hkj). }
      pose proof (Forall2_lookup_lr _ _ _ _ _ _ Hms Hkj Hmj). simpl in *. congruence. }
    apply (Hfirst (k, c', ej, m)); [|done|].
    + apply (list_elem_of_lookup_2 _ j). rw -(lookup_app_l pre1 ((k, c, Some e, m) :: pre2)) // -Epre.
      by apply zip4_lookup.
    + split_and!; [by apply (Forall2_lookup_lr _ _ _ _ _ _ Hst Hkj Hej)|done|done].
  - exists ds, e. split; [done|]. intros n Hn. split.
    + rw Hrd // /padded go_copy_full //. rw /zlen in Hle. rw /zeros length_replicate. lia.
    + exact (TryEncodeKV_decodes _ k ds b c e n Hwf Hds (Hmask ds Hds) HE Hn).
Qed.

(** C7: [CommitBlobs] with commits of 32 bytes, for KVs the node does not manage
    or stores and can mask.  It returns exactly the indices that are stored and
    for which the contract holds the data hash of the given commit, in order.
    Each of them then holds the contract's data hash and is marked filled; if it
    did not before, its data are the encoded blob of its first such element, and
    they decode to that very blob; if it did, its data stay as they are.  The
    record and the data of every other KV and the local view do not change. *)
Theorem CommitBlobs_spec `{GethLaws} s kvIndices blobs commits metas :
  sm_wf (s_shardManager s) → metas_wf s →
  length kvIndices = length blobs → length blobs = length commits →
  Forall (λ c, length c = 32%nat) commits →
  Forall2 (committable s) kvIndices commits →
  getKvMetas s kvIndices = Ret metas →
  ∃ encoded inserted s', CommitBlobs kvIndices blobs commits s = (Ret inserted, s') ∧
    Forall2 (λ x e, encode_one (s_shardManager s) x = Ret e) (zip (zip kvIndices blobs) commits) encoded ∧
    Forall2 (λ k (e : option bytes), is_Some e ↔ kv_stored s k) kvIndices encoded ∧
    committed s (zip (zip (zip kvIndices commits) encoded) metas) inserted s' ∧
    ∀ k m, k ∈ inserted → contract_meta s k = Ret m → ¬ holds s k (drop 8 m) →
      ∃ b c, first_blob kvIndices blobs commits k (take 24 (drop 8 m)) b c ∧ kv_has_blob s s' k b c.
Proof.
  intros Hwf Hmw Hl1 Hl2 Hc Hcm Hm. rw /CommitBlobs Hl1 Hl2 !Nat.eqb_refl /=.
  destruct (encode_batch s kvIndices blobs commits Hwf Hl1 Hcm) as (encs & He1 & He2).
  rw (proj2 (encode_all_Forall2 _ _ _) He1) Hm /mbind /st_bind /st_lift.
  pose proof (proj1 (getKvMetas_Forall2 _ _ _) Hm) as Hm2.
  pose proof (batch_items s kvIndices commits encs metas Hmw Hc He2 Hm2) as Hitems.
  have Hst : Forall2 (λ k (e : option bytes), is_Some e ↔ kv_stored s k) kvIndices encs.
  { eapply Forall2_impl; [exact He2|]. intros k [e|]; simpl.
    + intros [? _]. split; [done|by eexists].
    + intros Hn. split; [by intros []|]. intros Hst. by apply stored_managed in Hst. }
  destruct (st_foldM_inv (committed s) commit_one (zip (zip (zip kvIndices commits) encs) metas))
    with (b := @nil Z) (s := s) as (ins & s' & H1 & H2).
  - intros pre x ins s' Hx HC. apply commit_one_step; [by apply Hitems|done].
  - by apply committed_nil.
  - exists encs, ins, s'. split_and!; [done..|]. intros k m Hk Hmk Hn.
    destruct (co_data _ _ _ _ H2 k m Hk Hmk Hn) as (e & Hft & Hrd).
    apply (first_taken_blob s s' kvIndices blobs commits encs metas k m e); try done.
    destruct Hft as (pre1 & c & m' & pre2 & Epre & _ & _).
    destruct (Hitems (k, c, Some e, m')) as (_ & _ & _ & _ & ?); [|done].
    rw Epre. apply elem_of_app. right. apply list_elem_of_here.
Qed.

(** ** Filling of empty blobs *)

(** The elements of the fill loop: index, encoded empty blob, contract record. *)
Definition empty_item (x : Z * bytes * bytes) : Z * bytes * option bytes * bytes :=
  let '(k, e, m) := x in (k, zeros 32, Some e, m).

Lemma commit_empty_run s l pre ins s' next :
  (∀ x, x ∈ l → item_ok s (empty_item x) ∧ be_decode (take 5 x.2) = x.1.1) →
  committed s pre ins s' → 0 ≤ next → next + zlen l < two64 →
  ∃ ins' s2, commit_empty l (zlen ins) next s' = (Ret (zlen ins', next + zlen l), s2) ∧
             committed s (pre ++ (empty_item <$> l)) ins' s2.
Proof.
  revert pre ins s' next. induction l as [|[[k e] m] l IH]; intros pre ins s' next Hl HC Hn Hb.
  { exists ins, s'. rw app_nil_r. split; [|done]. simpl. do 3 f_equal. rw /zlen /=. lia. }
  destruct (Hl (k, e, m) (list_elem_of_here _ _)) as [(Hc & Hlm & Hm & Hk & He) Hi].
  have Hz : zlen ((k, e, m) :: l) = zlen l + 1 by rw /zlen /=; lia.
  pose proof (zlen_nonneg l) as Hz0.
  have Hnext : add64 next 1 = next + 1 by rw /add64 wrap64_small //; lia.
  pose proof HC as [C1 C2 C3 C4 _ _ _ _ _ _].
  have He' : zlen e ≤ sm_kvSize (s_shardManager s') by rw C3; lia.
  destruct (decide (take 24 (drop 8 m) = take 24 (zeros 32))) as [Heq|Hne].
  - destruct (commit_ok s' C1 k (C4 k Hk) e (zeros 32) m He' Hc Hlm Heq Hi) as (s2 & HE & Hod & Hh & Hsm & Hnw).
    destruct (IH (pre ++ [(k, zeros 32, Some e, m)]) (ins ++ [k]) s2 (next + 1)) as (ins' & s3 & HR & HC').
    { intros x Hx. apply Hl. by apply list_elem_of_further. }
    { by apply (committed_take s pre ins s'). }
    { lia. }
    { lia. }
    exists ins', s3. rw -app_assoc in HC'. split; [|done]. simpl. rw HE Hnext.
    rw zlen_app in HR. change (zlen [k]) with 1 in HR. rw HR Hz. do 3 f_equal. lia.
  - destruct (commit_mismatch s' k e (zeros 32) m Hc Hlm Hne) as (er & HE & Her).
    destruct (IH (pre ++ [(k, zeros 32, Some e, m)]) ins s' (next + 1)) as (ins' & s3 & HR & HC').
    { intros x Hx. apply Hl. by apply list_elem_of_further. }
    { apply committed_skip; [done|]. by intros (_ & ? & _). }
    { lia. }
    { lia. }
    exists ins', s3. rw -app_assoc in HC'. split; [|done]. simpl. rw HE Her Hnext HR Hz.
    do 3 f_equal. lia.
Qed.

Lemma encode_empty_ok `{GethLaws} s ks :
  sm_wf (s_shardManager s) →
  (∀ k, k ∈ ks → kv_stored s k ∧ sm_maskable (s_shardManager s) k (zeros 32)) →
  ∃ es, encode_empty (s_shardManager s) ks = Ret (zip ks es) ∧ length es = length ks ∧
        Forall (λ e, zlen e = sm_kvSize (s_shardManager s)) es.
Proof.
  intros Hwf. induction ks as [|k ks IH]; intros Hk; [by exists []|].
  destruct (Hk k (list_elem_of_here _ _)) as [(ds & Hds & _) Hm].
  destruct IH as (es & H1 & H2 & H3); [intros; by apply Hk, list_elem_of_further|].
  destruct (TryEncodeKV_ok (s_shardManager s) k ds [] (zeros 32) Hwf Hds (Hm ds Hds))
    as (e & He & Hl & _).
  exists (e :: es). rw /= He H1 /=. split_and!; [done|by rw H2|by constructor].
Qed.

(** [CommitEmptyBlobs] over a range of stored KVs whose contract records
    are known: it returns without error, the next index is the one after the
    range, the count is the number of indices filled, and the filled indices are
    exactly those whose data hash in the contract is empty; each of them is then
    marked filled with the empty commit, and no other record changes. *)
Theorem CommitEmptyBlobs_spec `{GethLaws} s start limit metas :
  sm_wf (s_shardManager s) → metas_wf s → 0 ≤ start ≤ limit + 1 → limit + 1 < two64 →
  (∀ k, start ≤ k ≤ limit → kv_stored s k ∧ sm_maskable (s_shardManager s) k (zeros 32)) →
  getKvMetas s (seqZ start (limit - start + 1)) = Ret metas →
  (∀ k m, start ≤ k ≤ limit → contract_meta s k = Ret m → be_decode (take 5 m) = k) →
  ∃ inserted s', CommitEmptyBlobs start limit s = (Ret (zlen inserted, limit + 1, None), s') ∧
    inserted `sublist_of` seqZ start (limit - start + 1) ∧
    (∀ k, k ∈ inserted ↔ start ≤ k ≤ limit ∧
       ∃ m, contract_meta s k = Ret m ∧ take 24 (drop 8 m) = take 24 (zeros 32)) ∧
    (∀ k, k ∈ inserted → holds s' k (zeros 32)) ∧
    (∀ k, k ∉ inserted → kv_stored s k → TryReadMeta s' k = TryReadMeta s k).
Proof.
  intros Hwf Hmw Hsl Hlim Hst Hm Hidx. set (ks := seqZ start (limit - start + 1)) in *.
  have Hks k : k ∈ ks ↔ start ≤ k ≤ limit by rw elem_of_seqZ; lia.
  have Hlk : zlen ks = limit - start + 1 by rw /zlen length_seqZ; lia.
  destruct (encode_empty_ok s ks Hwf) as (es & He & Hle & Hes).
  { intros k Hk%Hks. by apply Hst. }
  have Hfst : (zip ks es).*1 = ks by apply fst_zip; lia.
  pose proof (proj1 (getKvMetas_Forall2 _ _ _) Hm) as Hm2.
  have Hlm := Forall2_length _ _ _ Hm2.
  set (l := zip (zip ks es) metas).
  have Hll : length l = length ks by rw !length_zip_with; lia.
  have Hkeys : (λ x, x.1.1) <$> l = ks.
  { rw (list_fmap_compose fst fst) fst_zip ?Hfst //. rw length_zip_with. lia. }
  have Hitem k e m : (k, e, m) ∈ l →
    k ∈ ks ∧ contract_meta s k = Ret m ∧ zlen e = sm_kvSize (s_shardManager s).
  { intros (i & Hx)%list_elem_of_lookup.
    apply lookup_zip_with_Some in Hx as (y & m' & [= <- <-] & Hx & Hmi).
    apply lookup_zip_with_Some in Hx as (k' & e' & [= <- <-] & Hki & Hei).
    split_and!; [by apply list_elem_of_lookup; exists i|exact (Forall2_lookup_lr _ _ _ _ _ _ Hm2 Hki Hmi)|].
    exact (Forall_lookup_1 _ _ _ _ Hes Hei). }
  destruct (commit_empty_run s l [] [] s start) as (ins & s' & HR & HC).
  { intros [[k e] m] (Hk & Hmk & Hek)%Hitem. simpl. split; [|by apply Hidx; [apply Hks|]].
    split_and!; [done|exact (contract_meta_length s k m Hmw Hmk)|done|apply Hst; by apply Hks|done]. }
  { by apply committed_nil. }
  { lia. }
  { rw /zlen Hll -/(zlen ks) Hlk. lia. }
  destruct HC as [_ _ _ _ C5 C6 C7 C8 _ _]. rw app_nil_l in C5 C6.
  exists ins, s'. split_and!.
  - rw /CommitEmptyBlobs He Hfst Hm -/l. change 0 with (zlen (@nil Z)). rw HR.
    rw /zlen Hll -/(zlen ks) Hlk. do 4 f_equal. lia.
  - have <- : (λ x : Z * bytes * option bytes * bytes, x.1.1.1) <$> (empty_item <$> l) = ks; [|done].
    rw -Hkeys -list_fmap_compose. apply list_fmap_ext. by intros i [[]].
  - intros k. rw C5. split.
    + intros (y & Hy & Ek & Ha). apply list_elem_of_fmap in Hy as ([[k' e] m] & -> & Hx).
      simpl in Ek. subst k'. destruct (Hitem k e m Hx) as (Hk & Hmk & _).
      split; [by apply Hks|]. exists m. split; [done|]. apply Ha.
    + intros (Hk & m & Hmk & Heq). have Hk' : k ∈ (λ x : Z * bytes * bytes, x.1.1) <$> l.
      { rw Hkeys. by apply Hks. }
      apply list_elem_of_fmap in Hk' as ([[k' e] m'] & -> & Hx). simpl in *.
      destruct (Hitem k' e m' Hx) as (_ & Hmk' & _). have Em : m = m' by congruence. subst m'.
      exists (empty_item (k', e, m)). split; [by apply list_elem_of_fmap_2|]. split; [done|].
      split_and!; [by eexists|exact Heq|by apply Hidx].
  - intros k Hk. destruct (C7 k Hk) as (_ & m & Hmk & Hh). apply (holds_prefix s' k (drop 8 m)); [|done].
    apply C5 in Hk as (y & Hy & Ek & Ha). apply list_elem_of_fmap in Hy as ([[k' e] m'] & -> & Hx).
    simpl in Ek. subst k'. destruct (Hitem k e m' Hx) as (_ & Hmk' & _).
    have -> : m = m' by congruence. apply Ha.
  - exact C8.
Qed.

(** ** Finalized blobs *)

(** KV [k] stores the encoded blob [b] with the prepared commit of [c]. *)
Definition blob_at (sm : ShardManager) (k : Z) (b c : bytes) : Prop :=
  ShardManager.TryReadMeta sm k = Ret (Some (PrepareCommit c, None)) ∧
  ∀ n, 0 ≤ n ≤ sm_kvSize sm →
    ShardManager.TryReadEncoded sm k n = Ret (Some (take (Z.to_nat n) (padded (sm_kvSize sm) b))).

(** The manager after the positions [pre] of a batch are written. *)
Record batch_written (sm : ShardManager) (ks : list Z) (bs cs : list bytes) (pre : list Z)
    (sm' : ShardManager) : Prop := {
  bw_wf : sm_wf sm';
  bw_size : sm_kvSize sm' = sm_kvSize sm;
  bw_stored k : stored sm k → stored sm' k;
  bw_done p k b c : p ∈ pre → index ks p = Ret k → index bs p = Ret b → index cs p = Ret c →
    blob_at sm' k b c;
  bw_other k : k ∉ ks → stored sm k →
    ShardManager.TryReadMeta sm' k = ShardManager.TryReadMeta sm k ∧
    ∀ n, 0 ≤ n ≤ sm_kvSize sm →
      ShardManager.TryReadEncoded sm' k n = ShardManager.TryReadEncoded sm k n }.

Lemma index_inv {A} (l : list A) i x : index l i = Ret x → 0 ≤ i ∧ l !! Z.to_nat i = Some x.
Proof. rw /index. case: Z.leb_spec => // Hi. destruct (l !! Z.to_nat i) => // [= ->]. done. Qed.

Lemma index_NoDup {A} (l : list A) i i' x :
  NoDup l → index l i = Ret x → index l i' = Ret x → i = i'.
Proof.
  intros Hnd [Hi H1]%index_inv [Hi' H2]%index_inv.
  have := NoDup_lookup _ _ _ _ Hnd H1 H2. lia.
Qed.

Section batch.
Context (sm : ShardManager) (T : Z) (ks : list Z) (bs cs : list bytes).
Context (Hnd : NoDup ks) (Hlb : length ks = length bs) (Hlc : length bs = length cs).
Context (Hst : ∀ k, k ∈ ks → stored sm k).
Context (Hbs : Forall (λ b, zlen b ≤ sm_kvSize sm) bs) (Hcs : Forall (λ c, length c = 32%nat) cs).

Lemma write_position_step pre p sm' :
  0 ≤ p < zlen ks → batch_written sm ks bs cs pre sm' →
  ∃ sm2, write_position T ks bs cs [] p sm' = (Ret [], sm2) ∧
         batch_written sm ks bs cs (pre ++ [p]) sm2.
Proof using Hnd Hlb Hlc Hst Hbs Hcs.
  intros Hp HB. destruct (index_in ks p Hp) as [k Hk].
  destruct (index_in bs p) as [b Hb]; [rw /zlen -Hlb; rw /zlen in Hp; lia|].
  destruct (index_in cs p) as [c Hc]; [rw /zlen -Hlc -Hlb; rw /zlen in Hp; lia|].
  have Hkin : k ∈ ks by apply list_elem_of_lookup; exists (Z.to_nat p); apply index_inv.
  have Hb' : zlen b ≤ sm_kvSize sm by apply (Forall_lookup_1 _ _ _ _ Hbs (proj2 (index_inv _ _ _ Hb))).
  have Hc' : length c = 32%nat by apply (Forall_lookup_1 _ _ _ _ Hcs (proj2 (index_inv _ _ _ Hc))).
  pose proof HB as [B1 B2 B3 B4 B5].
  destruct (TryWriteEncoded_ok sm' k b (PrepareCommit c) B1 (B3 k (Hst k Hkin)))
    as (sm2 & HW & [W1 W2 W3 W4] & E1 & E2 & HR); [by rw B2|by rw /zlen length_PrepareCommit|].
  exists sm2. rw /write_position bool_decide_eq_false_2; [apply not_elem_of_nil|].
  rw Hk Hb Hc HW. split; [done|]. constructor.
  - done.
  - congruence.
  - intros k' Hk'. by apply W2, B3.
  - intros p' k' b' c' Hp' Hk' Hb2 Hc2. destruct (decide (p' = p)) as [->|Hne].
    + have [-> [-> ->]] : k' = k ∧ b' = b ∧ c' = c by split_and!; congruence.
      split; [done|]. rw E2. exact HR.
    + apply elem_of_app in Hp' as [Hp'|Hp'%list_elem_of_singleton]; [|done].
      have Hkk : k' ≠ k by intros ->; apply Hne; exact (index_NoDup ks p' p k Hnd Hk' Hk).
      have Hk'in : k' ∈ ks by apply list_elem_of_lookup; exists (Z.to_nat p'); apply index_inv.
      destruct (B4 p' k' b' c' Hp' Hk' Hb2 Hc2) as [D1 D2].
      destruct (W4 k' Hkk (B3 k' (Hst k' Hk'in))) as [F1 F2].
      split; [by rw F1|]. intros n Hn. rw E2 in Hn *. rw F2 //. by apply D2.
  - intros k' Hn' Hs'. have Hkk : k' ≠ k by intros ->.
    destruct (W4 k' Hkk (B3 k' Hs')) as [F1 F2], (B5 k' Hn' Hs') as [G1 G2].
    split; [by rw F1|]. intros n Hn. rw F2; [by rw B2|]. by apply G2.
Qed.

Lemma write_batch order :
  sm_wf sm → order ≡ₚ seqZ 0 (zlen ks) →
  ∃ sm', st_foldM (write_position T ks bs cs) [] order sm = (Ret [], sm') ∧
         batch_written sm ks bs cs order sm'.
Proof using Hnd Hlb Hlc Hst Hbs Hcs.
  intros Hwf Hord.
  destruct (st_foldM_inv (λ pre st sm', st = [] ∧ batch_written sm ks bs cs pre sm')
    (write_position T ks bs cs) order) with (b := @nil Z) (s := sm) as (st & sm' & H1 & -> & H2).
  - intros pre p st sm' Hp [-> HB].
    rw Hord elem_of_seqZ in Hp. destruct (write_position_step pre p sm') as (sm2 & HW & HB2); [lia|done|].
    by exists [], sm2.
  - split; [done|]. constructor; [done..|by intros ???? ?%not_elem_of_nil|done].
  - by exists sm'.
Qed.
End batch.

Definition put_meta (m : gmap Z bytes) (x : Z * bytes) : gores (gmap Z bytes) :=
  meta ← index_meta x.1 x.2; mret (<[x.1 := meta]> m).

Lemma index_meta_ret i c : 0 ≤ i < 2 ^ 40 → ∃ m, index_meta i c = Ret m.
Proof.
  intros Hi. rw /index_meta int64_small; [rw /two63; lia|]. rw Z.abs_eq; [lia|].
  rw (proj2 (Z.ltb_lt _ _)); [lia|]. by eexists.
Qed.

Lemma put_metas m ks cs :
  NoDup ks → length ks = length cs → (∀ k, k ∈ ks → 0 ≤ k < 2 ^ 40) →
  ∃ m', foldM put_meta m (zip ks cs) = Ret m' ∧
    (∀ k c, (k, c) ∈ zip ks cs → ∃ meta, index_meta k c = Ret meta ∧ m' !! k = Some meta) ∧
    (∀ k, k ∉ ks → m' !! k = m !! k).
Proof.
  revert m cs. induction ks as [|k ks IH]; intros m [|c cs] Hnd Hl Hk; [|done..|].
  { exists m. split; [done|]. split; [by intros ?? ?%not_elem_of_nil|done]. }
  apply NoDup_cons in Hnd as [Hnk Hnd].
  destruct (index_meta_ret k c) as [meta Hmeta]; [apply Hk; apply list_elem_of_here|].
  destruct (IH (<[k := meta]> m) cs Hnd) as (m' & H1 & H2 & H3); [simpl in Hl; lia| |].
  { intros. apply Hk. by apply list_elem_of_further. }
  exists m'. split_and!.
  - rw /= foldM_cons. have -> : put_meta m (k, c) = Ret (<[k := meta]> m) by rw /put_meta Hmeta. exact H1.
  - intros k' c' [[= -> ->]|Hin]%elem_of_cons; [|by apply H2].
    exists meta. split; [done|]. by rw H3 // lookup_insert_eq.
  - intros k' Hn. apply not_elem_of_cons in Hn as [Hne Hn]. rw H3 // lookup_insert_ne //. congruence.
Qed.

Lemma delete_all_lookup (m : gmap Z bytes) l k :
  foldl (λ m i, delete i m) m l !! k = if decide (k ∈ l) then None else m !! k.
Proof.
  revert m. induction l as [|i l IH]; intros m.
  { by case_decide as Hd; [apply not_elem_of_nil in Hd|]. }
  change (foldl (λ m i, delete i m) (delete i m) l !! k = if decide (k ∈ i :: l) then None else m !! k).
  rw IH. destruct (decide (k ∈ l)) as [Hk|Hk].
  { by case_decide as Hd; [|destruct Hd; apply list_elem_of_further]. }
  case_decide as Hd; rw elem_of_cons in Hd.
  - have -> : k = i by tauto. apply lookup_delete_eq.
  - apply lookup_delete_ne. intros ->. tauto.
Qed.

Lemma updateLocalMetas_ok s ks cs :
  NoDup ks → length ks = length cs → (∀ k, k ∈ ks → 0 ≤ k < 2 ^ 40) →
  0 ≤ s_kvEntryCount s < two63 →
  ∃ m', updateLocalMetas ks cs s = (Ret tt, set_metas s m') ∧
    (∀ k c, (k, c) ∈ zip ks cs → k < s_kvEntryCount s →
       ∃ meta, index_meta k c = Ret meta ∧ m' !! k = Some meta) ∧
    (∀ k, k ∉ ks → k < s_kvEntryCount s → m' !! k = s_blobMetas s !! k).
Proof.
  intros Hnd Hl Hk Hcnt. destruct (put_metas (s_blobMetas s) ks cs Hnd Hl Hk) as (m' & H1 & H2 & H3).
  rw /updateLocalMetas.
  have -> : foldM (λ m '(idx, commit), meta ← index_meta idx commit; mret (<[idx:=meta]> m))
              (s_blobMetas s) (zip ks cs) = Ret m'.
  { rw -H1. apply foldM_ext. by intros m [k c] _. }
  rw int64_small; [rw /two63 in Hcnt *; lia|].
  eexists. split; [done|]. split.
  - intros k c Hin Hlt. destruct (H2 k c Hin) as (meta & Hmeta & Hlk). exists meta. split; [done|].
    rw delete_all_lookup decide_False // elem_of_seqZ. lia.
  - intros k Hn Hlt. rw delete_all_lookup decide_False ?elem_of_seqZ; [lia|]. by apply H3.
Qed.

Lemma DownloadFinished_ok `{Il1Source} s order newL1 ks bs cs count :
  sm_wf (s_shardManager s) → 0 < s_DownloadThreadNum s →
  NoDup ks → length ks = length bs → length bs = length cs →
  (∀ k, k ∈ ks → kv_stored s k ∧ 0 ≤ k < 2 ^ 40) →
  Forall (λ b, zlen b ≤ sm_kvSize (s_shardManager s)) bs →
  Forall (λ c, length c = 32%nat) cs →
  order ≡ₚ seqZ 0 (zlen ks) →
  GetStorageKvEntryCount (s_requests s) newL1 = Ret count → 0 ≤ count < two63 →
  s_localL1 s < newL1 →
  ∃ s', DownloadFinished order newL1 ks bs cs s = (Ret tt, s') ∧
    s_localL1 s' = newL1 ∧ s_kvEntryCount s' = count ∧
    batch_written (s_shardManager s) ks bs cs (seqZ 0 (zlen ks)) (s_shardManager s') ∧
    (∀ k c, (k, c) ∈ zip ks cs → k < count →
       ∃ meta, index_meta k c = Ret meta ∧ contract_meta s' k = Ret meta) ∧
    (∀ k, k ∉ ks → k < count → s_blobMetas s' !! k = s_blobMetas s !! k).
Proof.
  intros Hwf HT Hnd Hlb Hlc Hks Hbs Hcs Hord Hcount Hc0 Hl1.
  rw /DownloadFinished Hlb Hlc !Nat.eqb_refl /=.
  rw (proj2 (Z.leb_gt _ _) Hl1) (proj2 (Z.leb_gt _ _) HT).
  destruct (write_batch (s_shardManager s) (s_DownloadThreadNum s) ks bs cs Hnd Hlb Hlc
    (λ k Hk, proj1 (Hks k Hk)) Hbs Hcs order Hwf Hord) as (sm' & HW & HB).
  set (s1 := set_view (next_request (set_sm s sm')) newL1 count).
  destruct (updateLocalMetas_ok s1 ks cs Hnd) as (m' & HU & HM1 & HM2);
    [by rw Hlb|intros; by apply Hks|done|].
  rw /mbind /st_bind /on_sm HW /ask_KvEntryCount /= Hcount /update_view -/s1 HU.
  eexists. split; [done|]. split_and!; [done..| | |].
  - destruct HB as [B1 B2 B3 B4 B5]. constructor; try done.
    intros p k b c Hp. apply B4. by rw Hord.
  - intros k c Hin Hlt. destruct (HM1 k c Hin Hlt) as (meta & Hmeta & Hlk).
    exists meta. split; [done|]. rw /contract_meta /= Hlk //.
  - intros k Hn Hlt. by apply HM2.
Qed.

(** C6: [DownloadFinished] on a batch of distinct stored KVs.  Mismatched
    lengths and a block that is not newer are refused without any change.
    Otherwise, whatever the interleaving of the writer goroutines, every blob is
    stored under its prepared commit, other KVs keep their records, the view
    moves to the new block and its entry count, and the metadata of every KV of
    the batch below the entry count is the record built from its commit. *)
Theorem DownloadFinished_spec `{Il1Source} s order newL1 ks bs cs count :
  sm_wf (s_shardManager s) → 0 < s_DownloadThreadNum s →
  NoDup ks → length ks = length bs → length bs = length cs →
  (∀ k, k ∈ ks → kv_stored s k ∧ 0 ≤ k < 2 ^ 40) →
  Forall (λ b, zlen b ≤ sm_kvSize (s_shardManager s)) bs →
  Forall (λ c, length c = 32%nat) cs →
  order ≡ₚ seqZ 0 (zlen ks) →
  GetStorageKvEntryCount (s_requests s) newL1 = Ret count → 0 ≤ count < two63 →
  (newL1 ≤ s_localL1 s →
     DownloadFinished order newL1 ks bs cs s = (Fail (ErrMsg "new L1 is older than local L1"), s)) ∧
  (s_localL1 s < newL1 →
   ∃ s', DownloadFinished order newL1 ks bs cs s = (Ret tt, s') ∧
     s_localL1 s' = newL1 ∧ s_kvEntryCount s' = count ∧
     batch_written (s_shardManager s) ks bs cs (seqZ 0 (zlen ks)) (s_shardManager s') ∧
     (∀ k c, (k, c) ∈ zip ks cs → k < count →
        ∃ meta, index_meta k c = Ret meta ∧ contract_meta s' k = Ret meta) ∧
     (∀ k, k ∉ ks → k < count → s_blobMetas s' !! k = s_blobMetas s !! k)).
Proof.
  intros Hwf HT Hnd Hlb Hlc Hks Hbs Hcs Hord Hcount Hc0. split; intros Hl1.
  - by rw /DownloadFinished Hlb Hlc !Nat.eqb_refl /= (proj2 (Z.leb_le _ _) Hl1).
  - exact (DownloadFinished_ok s order newL1 ks bs cs count Hwf HT Hnd Hlb Hlc Hks Hbs Hcs Hord Hcount
      Hc0 Hl1).
Qed.

(** A write error of a finalized blob is lost: when the blob of a stored KV
    is too large to be written, [DownloadFinished] still reports success, moves
    the view to the new block and records the new metadata, while the KV keeps
    its old record. *)
Theorem DownloadFinished_loses_error `{Il1Source} s newL1 k b c count :
  sm_wf (s_shardManager s) → 0 < s_DownloadThreadNum s → kv_stored s k → 0 ≤ k < 2 ^ 40 →
  sm_kvSize (s_shardManager s) < zlen b → s_localL1 s < newL1 →
  GetStorageKvEntryCount (s_requests s) newL1 = Ret count → k < count < two63 →
  ∃ s' e sm', TryWriteEncoded k b (PrepareCommit c) (s_shardManager s) = (Fail e, sm') ∧
    DownloadFinished [0] newL1 [k] [b] [c] s = (Ret tt, s') ∧ s_localL1 s' = newL1 ∧
    (∃ meta, index_meta k c = Ret meta ∧ contract_meta s' k = Ret meta) ∧
    TryReadMeta s' k = TryReadMeta s k.
Proof.
  intros Hwf HT Hk Hk40 Hb Hl1 Hcount Hc. pose proof Hk as (ds & Hds & Hf).
  destruct (shard_of_spec _ k ds Hwf Hds) as [Hdw Hin].
  destruct (smwf_shards _ Hwf _ _ Hds) as (_ & _ & _ & Ekv & _).
  set (sm' := set_shards (s_shardManager s)
                (<[k / sm_kvEntries (s_shardManager s) := ds]> (sm_shardMap (s_shardManager s)))).
  have HW : TryWriteEncoded k b (PrepareCommit c) (s_shardManager s) =
            (Fail (ErrMsg "write data too large"), sm').
  { rw /TryWriteEncoded /with_shard_st udiv_nz; [pose proof (smwf_entries _ Hwf); lia|].
    rw -/(shard_of (s_shardManager s) k) Hds /mbind /st_bind /in_shard_map /WriteWith.
    rw (proj2 (Contains_shard ds Hdw k) Hin) /= (proj2 (Z.ltb_lt _ _)) //. by rw Ekv. }
  have Hsm : sm' = s_shardManager s.
  { rw /sm' insert_id // /set_shards. by destruct (s_shardManager s). }
  destruct (updateLocalMetas_ok (set_view (next_request (set_sm s sm')) newL1 count) [k] [c])
    as (m' & HU & HM1 & _); [apply NoDup_singleton|done| |simpl; lia|].
  { intros k' ->%list_elem_of_singleton. done. }
  eexists _, _, _. split; [exact HW|]. rw /DownloadFinished /= (proj2 (Z.leb_gt _ _) Hl1).
  rw (proj2 (Z.leb_gt _ _) HT) /mbind /st_bind /on_sm.
  have -> : st_foldM (write_position (s_DownloadThreadNum s) [k] [b] [c]) [] [0] (s_shardManager s)
            = (Ret [0], sm').
  { rw /st_foldM /mbind /st_bind /write_position bool_decide_eq_false_2; [apply not_elem_of_nil|].
    rw Z.mod_0_l; [lia|]. by rw /index /= HW. }
  rw /ask_KvEntryCount /= Hcount /update_view HU. split_and!; [done..| |].
  - destruct (HM1 k c) as (meta & Hmeta & Hlk); [apply list_elem_of_here|simpl; lia|].
    exists meta. split; [done|]. rw /contract_meta /= Hlk //.
  - by rw /TryReadMeta /= Hsm.
Qed.

(** ** Writes checked against the contract *)

(** The record of the contract is what [checkMeta] returns for a stored KV. *)
Lemma checkMeta_contract `{Il1Source} s k m rest :
  sm_wf (s_shardManager s) → kv_stored s k →
  GetKvMetas (s_requests s) [k] FinalizedBlockNumber = Ret (m :: rest) →
  ∃ err, checkMeta k s = (Ret (go_copy (zeros 32) (drop 8 m), err), next_request s).
Proof.
  intros Hwf Hk Hask. destruct (stored_meta s k Hwf Hk) as (lm & Hlm & _).
  rw /checkMeta /ask_KvMetas Hask. rw /TryReadMeta in Hlm. rw /= Hlm.
  destruct (CompareCommits _ lm) as [[]|e|p] eqn:E; [by eexists..|].
  exfalso. move: E. rw /CompareCommits. repeat case_match; done.
Qed.

(** [TryWriteWithMetaCheck] on a stored KV uses the data hash of the
    contract whenever it is not empty, whatever commit the caller passed: the
    blob it fetches for that hash is written, the KV then holds the hash, reads
    back subject to the commit check, and no other KV changes. *)
Theorem TryWriteWithMetaCheck_contract `{GethLaws} `{Il1Source} s k commit fetchBlob m rest blob :
  sm_wf (s_shardManager s) → kv_stored s k → length m = 32%nat →
  GetKvMetas (s_requests s) [k] FinalizedBlockNumber = Ret (m :: rest) →
  let hash := go_copy (zeros 32) (drop 8 m) in
  hash ≠ zeros 32 → fetchBlob k hash = Ret blob →
  zlen blob ≤ sm_kvSize (s_shardManager s) → sm_maskable (s_shardManager s) k hash →
  ∃ s', TryWriteWithMetaCheck k commit fetchBlob s = (Ret tt, s') ∧ holds s' k hash ∧
    sm_written (s_shardManager s) k (PrepareCommit hash) (s_shardManager s') ∧
    ∀ n, 0 ≤ n ≤ sm_kvSize (s_shardManager s) →
      TryRead s' k n hash =
        (_ ← checkCommit hash (padded (sm_kvSize (s_shardManager s)) blob);
         mret (Some (take (Z.to_nat n) (padded (sm_kvSize (s_shardManager s)) blob)))).
Proof.
  intros Hwf Hk Hm Hask hash Hne Hfetch Hb Hmask.
  have Hh : length hash = 32%nat by rw /hash length_go_copy.
  destruct (TryWrite_ok (s_shardManager s) k blob (PrepareCommit hash) Hwf Hk Hb)
    as (sm' & HW & Hsw & HR); [by rw /zlen length_PrepareCommit| |].
  { intros ds Hds. destruct (Hmask ds Hds) as [HQ Hmk]. split; [done|]. intros i Hi.
    rw (calcEncodeKey_prefix _ hash) ?PrepareCommit_prefix //. by apply Hmk. }
  set (s1 := next_request s).
  destruct (checkMeta_contract s k m rest Hwf Hk Hask) as [err Hchk].
  exists (set_sm s1 sm'). rw /TryWriteWithMetaCheck /mbind /st_bind Hchk.
  rw bool_decide_eq_false_2 // Hfetch /tryWrite /on_sm HW. split_and!; [done| |done|].
  - exists (PrepareCommit hash). split_and!; [apply Hsw|by apply PrepareCommit_prefix|].
    apply PrepareCommit_filled.
  - intros n Hn. apply HR; [|done]. by rw PrepareCommit_prefix.
Qed.

(** ** Download of the metadata of the local shards *)

Section metas.
Context `{Il1Source} (truth : Z → Z → bytes).

(** The L1 node answers requests for metadata with the contract's records at the
    requested block, or fails; it does not fail more than ten times in a row. *)
Definition l1_faithful : Prop :=
  ∀ req ks block, (∃ e, GetKvMetas req ks block = Fail e) ∨
                  GetKvMetas req ks block = Ret (truth block <$> ks).
Definition l1_patient : Prop :=
  ∀ req ks block, ∃ d r, (d ≤ 10)%nat ∧ GetKvMetas (req + d) ks block = Ret r.

Context (Hfaith : l1_faithful) (Hpat : l1_patient).

(** The state after [n] more requests. *)
Definition later (n : nat) (s : StorageManager) : StorageManager :=
  Nat.iter n next_request s.

Lemma later_requests n s : s_requests (later n s) = (s_requests s + n)%nat.
Proof using. induction n as [|n IH]; [simpl; lia|]. simpl. rw IH. lia. Qed.

Lemma later_same n s :
  s_shardManager (later n s) = s_shardManager s ∧ s_localL1 (later n s) = s_localL1 s ∧
  s_kvEntryCount (later n s) = s_kvEntryCount s ∧ s_blobMetas (later n s) = s_blobMetas s.
Proof using. induction n as [|n (H1 & H2 & H3 & H4)]; [done|]. by simpl. Qed.

Lemma later_S n s : later n (next_request s) = later (S n) s.
Proof using. rw /later. by rw Nat.iter_succ_r. Qed.

Lemma ask_retry_ok r ks block s :
  (∃ d x, (d ≤ r)%nat ∧ GetKvMetas (s_requests s + d) ks block = Ret x) →
  ∃ n, ask_retry r ks block s = (Ret (truth block <$> ks), later n s).
Proof using Hfaith.
  revert s. induction r as [|r IH]; intros s (d & x & Hd & Hx).
  - have Ed : d = 0%nat by lia. subst d. rw Nat.add_0_r in Hx. exists 1%nat. rw /= /ask_KvMetas.
    destruct (Hfaith (s_requests s) ks block) as [[e He]|He]; [congruence|]. by rw He.
  - destruct (Hfaith (s_requests s) ks block) as [[e He]|He]; rw /= /ask_KvMetas He.
    + destruct d as [|d].
      { rw Nat.add_0_r in Hx. congruence. }
      destruct (IH (next_request s)) as [n Hn].
      { exists d, x. split; [lia|]. simpl. by rw Nat.add_succ_r in Hx. }
      exists (S n). by rw Hn later_S.
    + by exists 1%nat.
Qed.

#[local] Arguments ask_retry : simpl never.

Definition meta_true (s : StorageManager) (i : Z) : Prop :=
  s_blobMetas s !! i = Some (truth (s_localL1 s) i).

(** [s'] has the view of [s], and its metadata differ only by true records. *)
Record metas_grow (s s' : StorageManager) : Prop := {
  mg_sm : s_shardManager s' = s_shardManager s;
  mg_l1 : s_localL1 s' = s_localL1 s;
  mg_count : s_kvEntryCount s' = s_kvEntryCount s;
  mg_true i : meta_true s i → meta_true s' i }.

Lemma metas_grow_refl s : metas_grow s s.
Proof using. by constructor. Qed.

Lemma metas_grow_trans s1 s2 s3 : metas_grow s1 s2 → metas_grow s2 s3 → metas_grow s1 s3.
Proof using. intros [? ? ? H4] [? ? ? H8]. constructor; [congruence..|]. auto. Qed.

Lemma insert_metas_lookup (g : Z → bytes) l m i :
  foldl (λ m '(i, meta), <[i := meta]> m) m (zip l (g <$> l)) !! i =
    if decide (i ∈ l) then Some (g i) else (m : gmap Z bytes) !! i.
Proof using.
  revert m. induction l as [|k l IH]; intros m.
  { by case_decide as Hd; [apply not_elem_of_nil in Hd|]. }
  change (foldl (λ m '(i, meta), <[i := meta]> m) (<[k := g k]> m) (zip l (g <$> l)) !! i =
          if decide (i ∈ k :: l) then Some (g i) else m !! i).
  rw IH. destruct (decide (i ∈ l)) as [Hi|Hi].
  { by case_decide as Hd; [|destruct Hd; apply list_elem_of_further]. }
  case_decide as Hd; rw elem_of_cons in Hd.
  - have -> : i = k by tauto. apply lookup_insert_eq.
  - apply lookup_insert_ne. intros ->. tauto.
Qed.

Lemma round_ok s from lim :
  ∃ n s', (metas ← ask_retry 10 (seqZ from (lim - from)) (s_localL1 s);
           store_metas (seqZ from (lim - from)) metas) s = (Ret tt, s') ∧
    s_requests s' = (s_requests s + n)%nat ∧ metas_grow s s' ∧
    ∀ i, from ≤ i < lim → meta_true s' i.
Proof using Hfaith Hpat.
  destruct (ask_retry_ok 10 (seqZ from (lim - from)) (s_localL1 s) s (Hpat _ _ _)) as [n Hn].
  destruct (later_same n s) as (L1 & L2 & L3 & L4).
  exists n. rw /mbind /st_bind Hn /store_metas length_fmap Nat.ltb_irrefl. eexists. split; [done|].
  split; [simpl; apply later_requests|]. split.
  - constructor; [done..|]. intros i. rw /meta_true /= L2 L4 insert_metas_lookup.
    by case_decide.
  - intros i Hi. rw /meta_true /= L2 insert_metas_lookup. case_decide as Hd; [done|].
    rw elem_of_seqZ in Hd. lia.
Qed.

(** The loop below the entry count: it returns and every record of the range is
    the contract's. *)
Lemma downloadMetaInRange_ok fuel from to batch s :
  0 ≤ from → to ≤ s_kvEntryCount s → 0 < batch → to + batch < two64 →
  (Z.to_nat (to - from) ≤ fuel)%nat →
  ∃ s', downloadMetaInRange fuel from to batch s = (Ret tt, s') ∧ metas_grow s s' ∧
        ∀ i, from ≤ i < to → meta_true s' i.
Proof using Hfaith Hpat.
  revert from s. induction fuel as [|fuel IH]; intros from s Hf Hto Hb Hov Hfuel; simpl.
  { rw (proj2 (Z.leb_le to from)); [lia|]. exists s. split; [done|].
    split; [apply metas_grow_refl|lia]. }
  case: Z.leb_spec => Hlt.
  { exists s. split; [done|]. split; [apply metas_grow_refl|lia]. }
  have Ha : add64 from batch = from + batch by rw /add64 wrap64_small; lia.
  rw Ha. set (lim := Z.min (Z.min (from + batch) to) (s_kvEntryCount s)).
  destruct (round_ok s from lim) as (n & s1 & HR & _ & Hg & Htrue).
  destruct (IH lim s1) as (s2 & H2 & Hg2 & Htrue2); [lia|rw (mg_count _ _ Hg); lia|done|done|lia|].
  exists s2. split_and!.
  - rw /mbind /st_bind in HR *. destruct (ask_retry _ _ _ _) as [[ms|e|p] s0]; [|done..].
    rw HR. exact H2.
  - exact (metas_grow_trans _ _ _ Hg Hg2).
  - intros i Hi. destruct (decide (i < lim)) as [Hl|Hl]; [|apply Htrue2; lia].
    apply Hg2, Htrue. lia.
Qed.

(** The parallel ranges cover the whole range and stay below its end. *)
Lemma meta_ranges_cover from to batch :
  0 ≤ from ≤ to → to < two64 → 0 < batch → 32 * batch < two64 →
  (∀ a b, (a, b) ∈ meta_ranges from to batch → 0 ≤ a ∧ b ≤ to) ∧
  (∀ i, from ≤ i < to → ∃ a b, (a, b) ∈ meta_ranges from to batch ∧ a ≤ i < b).
Proof using.
  intros Hft Ht Hb Hb64. rw /meta_ranges /sub64 /mul64 /MetaDownloadThread.
  rw (wrap64_small (to - from)); [lia|]. rw (wrap64_small (32 * batch)); [lia|].
  case: Z.ltb_spec => Hlt.
  { split.
    - intros a b [= -> ->]%list_elem_of_singleton. lia.
    - intros i Hi. exists from, to. split; [by apply list_elem_of_singleton|lia]. }
  set (sz := (to - from) / 32).
  have Hsz : 0 ≤ sz ∧ 32 * sz ≤ to - from.
  { pose proof (Z.div_mod (to - from) 32 ltac:(lia)). pose proof (Z.mod_pos_bound (to - from) 32 ltac:(lia)).
    rw /sz. split; [apply Z.div_pos|]; lia. }
  have Hw t : 0 ≤ t ≤ 32 → wrap64 (t * sz) = t * sz by intros; apply wrap64_small; nia.
  split.
  - intros a b (t & [= -> ->] & Ht32%elem_of_seqZ)%list_elem_of_fmap.
    rw !Hw; [lia..|]. case: Z.eqb_spec => ?; nia.
  - intros i Hi. have Hdiv : 0 < sz.
    { apply Z.div_str_pos. lia. }
    set (t := Z.min (i / sz) 31).
    have Hq : i / sz * sz ≤ i < (i / sz + 1) * sz.
    { pose proof (Z.div_mod i sz ltac:(lia)). pose proof (Z.mod_pos_bound i sz ltac:(lia)). nia. }
    have Hq0 : 0 ≤ i / sz by apply Z.div_pos; lia.
    eexists _, _. split.
    { apply list_elem_of_fmap. exists t. split; [done|]. apply elem_of_seqZ. lia. }
    rw !Hw; [lia..|]. case: Z.eqb_spec => Ht31; [split; [nia|lia]|].
    have Et : t = i / sz by lia. rw Et. lia.
Qed.

Lemma downloadMetaInParallel_ok fuel from to batch s :
  0 ≤ from ≤ to → to ≤ s_kvEntryCount s → 0 < batch → to + 32 * batch < two64 →
  (Z.to_nat to ≤ fuel)%nat →
  ∃ s', downloadMetaInParallel fuel from to batch s = (Ret tt, s') ∧ metas_grow s s' ∧
        ∀ i, from ≤ i < to → meta_true s' i.
Proof using Hfaith Hpat.
  intros Hft Hto Hb Hov Hfuel.
  destruct (meta_ranges_cover from to batch) as [Hin Hcov]; [lia..|].
  rw /downloadMetaInParallel.
  destruct (st_foldM_inv (λ pre (errs : list error) s', errs = [] ∧ metas_grow s s' ∧
      ∀ a b, (a, b) ∈ pre → ∀ i, a ≤ i < b → meta_true s' i)
    (λ errs '(a, b), r ← st_catch (downloadMetaInRange fuel a b batch);
       mret (errs ++ match r with inl e => [e] | inr _ => [] end))
    (meta_ranges from to batch)) with (b := @nil error) (s := s) as (errs & s' & H1 & -> & H2 & H3).
  - intros pre [a b] errs s1 Hab (-> & Hg & Htr). destruct (Hin a b Hab) as [Ha Hbt].
    destruct (downloadMetaInRange_ok fuel a b batch s1) as (s2 & HR & Hg2 & Htr2);
      [lia|rw (mg_count _ _ Hg); lia|lia|lia|lia|].
    exists [], s2. rw /mbind /st_bind /st_catch HR. split; [done|]. split; [done|].
    split; [exact (metas_grow_trans _ _ _ Hg Hg2)|].
    intros a' b' [Hx|[= -> ->]%list_elem_of_singleton]%elem_of_app i Hi; [|by apply Htr2].
    apply Hg2. by apply (Htr a' b').
  - split; [done|]. split; [apply metas_grow_refl|]. by intros ?? ?%not_elem_of_nil.
  - rw /mbind {1}/st_bind H1. exists s'. split; [done|]. split; [done|].
    intros i Hi. destruct (Hcov i Hi) as (a & b & Hab & Hi'). by apply (H3 a b).
Qed.
End metas.

#[global] Arguments ask_retry : simpl never.

(** C18: [DownloadAllMetas], with an L1 node that answers with the contract's
    records and fails at most ten times in a row, returns; afterwards the local
    metadata of every KV of a managed shard below the entry count is the
    contract's record at the local block, whatever the batch size. *)
Theorem DownloadAllMetas_spec `{Il1Source} truth fuel batch s :
  l1_faithful truth → l1_patient → sm_wf (s_shardManager s) →
  0 < batch → two63 + 32 * batch < two64 → 0 ≤ s_kvEntryCount s →
  (Z.to_nat (s_kvEntryCount s) ≤ fuel)%nat →
  ∃ s', DownloadAllMetas fuel batch s = (Ret tt, s') ∧ metas_grow truth s s' ∧
    ∀ k ds, 0 ≤ k < s_kvEntryCount s → shard_of (s_shardManager s) k = Some ds →
      s_blobMetas s' !! k = Some (truth (s_localL1 s) k).
Proof.
  intros Hfaith Hpat Hwf Hb Hov Hc0 Hfuel. rw /DownloadAllMetas /mbind {1}/st_bind /st_get.
  have Hsid i : i ∈ Shards s ↔ ∃ ds, sm_shardMap (s_shardManager s) !! i = Some ds.
  { rw /Shards /ShardIds merge_sort_Permutation list_elem_of_fmap. split.
    - intros ([i' ds] & -> & Hin%elem_of_map_to_list). by exists ds.
    - intros [ds Hds]. exists (i, ds). split; [done|]. by apply elem_of_map_to_list. }
  have Hrange i : i ∈ Shards s → 0 ≤ i ∧ mul64 (KvEntries s) i = KvEntries s * i ∧
    mul64 (KvEntries s) (add64 i 1) = KvEntries s * (i + 1) ∧ KvEntries s * (i + 1) < two63 ∧
    0 ≤ KvEntries s * i.
  { intros [ds Hds]%Hsid. destruct (smwf_shards _ Hwf _ _ Hds) as (Hdw & Ei & Ee & _).
    pose proof (ds_bounds ds Hdw) as HB. pose proof (dwf_idx ds Hdw) as Hi0.
    rw Ei Ee in HB Hi0. rw /KvEntries. rw /two63 in HB. have ? := smwf_entries _ Hwf.
    have Ea : add64 i 1 = i + 1 by rw /add64 wrap64_small //; rw /two64; lia.
    rw Ea /mul64 !wrap64_small; [rw /two64; lia..|]. rw /two63. lia. }
  destruct (st_foldM_inv (λ pre (_ : unit) s', metas_grow truth s s' ∧
      ∀ i k, i ∈ pre → KvEntries s * i ≤ k < KvEntries s * (i + 1) → k < s_kvEntryCount s →
        meta_true truth s' k)
    (λ _ sid,
      let first := mul64 (KvEntries s) sid in
      let limit := mul64 (KvEntries s) (add64 sid 1) in
      let last := Z.min limit (s_kvEntryCount s) in
      if last <? first then mret tt
      else downloadMetaInParallel fuel first last batch) (Shards s))
    with (b := tt) (s := s) as ([] & s' & H1 & H2 & H3).
  - intros pre i [] s1 Hi [Hg Htr]. destruct (Hrange i Hi) as (Hi0 & E1 & E2 & Hlim & Hfst).
    rw /= E1 E2. case: Z.ltb_spec => Hlt.
    + exists tt, s1. split; [done|]. split; [done|].
      intros i' k [Hx| ->%list_elem_of_singleton]%elem_of_app Hk Hkc; [by apply (Htr i')|lia].
    + destruct (downloadMetaInParallel_ok truth Hfaith Hpat fuel (KvEntries s * i)
        (Z.min (KvEntries s * (i + 1)) (s_kvEntryCount s)) batch s1) as (s2 & HR & Hg2 & Htr2);
        [lia|rw (mg_count _ _ _ Hg); lia|lia|lia|lia|].
      exists tt, s2. split; [done|]. split; [exact (metas_grow_trans _ _ _ _ Hg Hg2)|].
      intros i' k [Hx| ->%list_elem_of_singleton]%elem_of_app Hk Hkc.
      * apply Hg2. by apply (Htr i').
      * apply Htr2. lia.
  - split; [apply metas_grow_refl|]. by intros ?? ?%not_elem_of_nil.
  - exists s'. split; [done|]. split; [done|]. intros k ds Hk Hds.
    rw -(mg_l1 _ _ _ H2). apply (H3 (k / sm_kvEntries (s_shardManager s))).
    + apply Hsid. by exists ds.
    + rw /KvEntries. have He := smwf_entries _ Hwf.
      pose proof (Z.div_mod k (sm_kvEntries (s_shardManager s)) ltac:(lia)).
      pose proof (Z.mod_pos_bound k (sm_kvEntries (s_shardManager s)) ltac:(lia)). lia.
    + lia.
Qed.

(** When the number of KV entries drops below the end of the range while
    the download runs, [downloadMetaInRange] makes no progress: no number of
    rounds is enough for it to return. *)
Theorem downloadMetaInRange_stuck `{Il1Source} truth fuel from to batch s :
  l1_faithful truth → l1_patient →
  0 ≤ from < to → 0 < batch → to + batch < two64 → 0 ≤ s_kvEntryCount s < to →
  (downloadMetaInRange fuel from to batch s).1 = Panic OutOfFuel.
Proof.
  intros Hfaith Hpat. revert from s. induction fuel as [|fuel IH]; intros from s Hf Hb Hov Hc; simpl.
  { by rw (proj2 (Z.leb_gt to from)); [lia|]. }
  rw (proj2 (Z.leb_gt to from)); [lia|].
  have Ha : add64 from batch = from + batch by rw /add64 wrap64_small; lia.
  rw Ha. set (lim := Z.min (Z.min (from + batch) to) (s_kvEntryCount s)).
  destruct (round_ok truth Hfaith Hpat s from lim) as (n & s1 & HR & _ & Hg & _).
  rw /mbind /st_bind in HR *. destruct (ask_retry _ _ _ _) as [[ms|e|p] s0]; [|done..].
  rw HR. apply IH; [lia|done|done|rw (mg_count _ _ _ Hg); lia].
Qed.

(** ** Encoding of single blobs *)

(** Where a KV is a single chunk, [EncodeBlob] of a managed KV gives the
    bytes that [TryEncodeKV] gives for storage, and [DecodeBlob] inverts it. *)
Theorem EncodeBlob_TryEncodeKV `{GethLaws} s k ds b hash :
  sm_wf (s_shardManager s) → 0 ≤ k → shard_of (s_shardManager s) k = Some ds →
  sm_kvEntries (s_shardManager s) = 2 ^ sm_kvEntriesBits (s_shardManager s) →
  0 ≤ sm_kvEntriesBits (s_shardManager s) →
  sm_chunksPerKv (s_shardManager s) = 1 → zlen b = sm_kvSize (s_shardManager s) →
  kv_maskable ds k hash →
  ∃ e, EncodeBlob s b hash k (sm_kvSize (s_shardManager s)) = Ret e ∧
       TryEncodeKV (s_shardManager s) k b hash = Ret (Some e) ∧
       DecodeBlob s e hash k (sm_kvSize (s_shardManager s)) = Ret b.
Proof.
  intros Hwf Hk Hds Hbits Hb0 H1 Hb Hm.
  destruct (TryEncodeKV_ok (s_shardManager s) k ds b hash Hwf Hds Hm) as (e & He & Hle & Hch).
  destruct (sm_bounds (s_shardManager s) Hwf k ds Hds) as (Hcs & Hkv & _ & Ekv & _).
  rw H1 Z.mul_1_l in Ekv. rw H1 in Hch. specialize (Hch 0 ltac:(lia)). rw -Ekv in Hch Hcs.
  have Hfull (d : bytes) : zlen d = sm_kvSize (s_shardManager s) →
                           chunk_of (sm_kvSize (s_shardManager s)) d 0 = d.
  { intros Hd. rw /chunk_of Z.mul_0_l drop_0 take_ge //. rw /zlen in Hd. lia. }
  have Hp : padded (sm_kvSize (s_shardManager s)) b = b.
  { rw /padded go_copy_full // /zeros length_replicate. rw /zlen in Hb. lia. }
  rw !Hfull in Hch; [by rw Hp|done|]. rw Hp Z.mul_1_r Z.add_0_r in Hch.
  exists e. rw /EncodeBlob /DecodeBlob /getEncodingParams /GetShardEncodeType /GetShardMiner.
  have -> : Z.shiftr k (sm_kvEntriesBits (s_shardManager s)) = k / sm_kvEntries (s_shardManager s).
  { by rw Z.shiftr_div_pow2 // Hbits. }
  rw -/(shard_of (s_shardManager s) k) Hds. split_and!; [exact Hch|done|].
  destruct Hm as [HQ Hm]. destruct (smwf_shards _ Hwf _ _ Hds) as (_ & _ & _ & _ & Ec & Ek).
  specialize (Hm 0). rw Ek H1 Ec -Ekv Z.mul_1_r Z.add_0_r in Hm. specialize (Hm ltac:(lia)).
  destruct (encode_decode_chunk (sm_kvSize (s_shardManager s)) (EncodeType ds)
    (calcEncodeKey hash k (DataShard.Miner ds)) ltac:(lia) HQ Hm b) as (e' & He' & _ & Hd); [lia|].
  have Ee : e' = e by rw Hch in He'; congruence. subst e'.
  have Hd' := Hd (sm_kvSize (s_shardManager s)) ltac:(lia). rw !take_ge in Hd'.
  - rw /zlen in Hle. lia.
  - rw Hp. rw /zlen in Hb. lia.
  - by rw Hp in Hd'.
Qed.

(** ** A concrete state: KVs 2 and 3 are stored, the contract has four entries *)

Definition ex_meta : bytes := from_ret [] (index_meta 3 ex_commit).
Definition ex_meta_empty : bytes := from_ret [] (index_meta 2 (zeros 32)).

Definition ex_s : StorageManager :=
  mkStorageManager 1 ex_sm 5 4 (<[2 := ex_meta_empty]> {[3 := ex_meta]}) 0.

Lemma ex_s_metas k m : s_blobMetas ex_s !! k = Some m → k = 2 ∧ m = ex_meta_empty ∨ k = 3 ∧ m = ex_meta.
Proof.
  rw /= lookup_insert_Some lookup_singleton_Some. intros [[<- <-]|[_ [<- <-]]]; [by left|by right].
Qed.

Lemma ex_s_metas_wf : metas_wf ex_s.
Proof. intros k m [[-> ->]|[-> ->]]%ex_s_metas; by vm_compute. Qed.

Lemma ex_stored k : k = 2 ∨ k = 3 → kv_stored ex_s k.
Proof.
  intros Hk. exists ex_ds. split.
  - rw /shard_of. have -> : k / sm_kvEntries (s_shardManager ex_s) = 1 by destruct Hk as [-> | ->].
    apply lookup_singleton_eq.
  - exists ex_df. split; [apply list_elem_of_here|]. destruct Hk as [-> | ->]; by vm_compute.
Qed.

Lemma ex_maskable k : k = 2 ∨ k = 3 → sm_maskable ex_sm k (zeros 32).
Proof.
  intros Hk ds Hds. have Eds : ds = ex_ds.
  { move: Hds. rw /shard_of. have -> : k / sm_kvEntries ex_sm = 1 by destruct Hk as [-> | ->].
    rw lookup_singleton_eq. congruence. }
  subst ds. split; [done|]. intros i Hi. have Ei : i = 0 ∨ i = 1 by simpl in Hi; lia.
  destruct Hk as [-> | ->], Ei as [-> | ->]; split; by vm_compute.
Qed.

#[local] Instance ex_l1 : Il1Source := {
  GetKvMetas _ ks _ := Ret ((λ k, if k =? 3 then ex_meta else ex_meta_empty) <$> ks);
  GetStorageKvEntryCount _ _ := Ret 4 }.

Lemma commitEncodedBlob_spec_witness :
  ∃ s', commitEncodedBlob 3 (zeros 128) ex_commit ex_meta ex_s = (Ret tt, s') ∧
        holds s' 3 ex_commit.
Proof.
  destruct (commitEncodedBlob_spec ex_s 3 (zeros 128) ex_commit ex_meta ex_sm_wf) as (_ & _ & H);
    [by apply ex_stored; right|by vm_compute..|].
  destruct H as (s' & H1 & _ & H2 & _); [by vm_compute..|].
  exists s'. split; [exact H1|exact H2].
Defined.

Lemma CommitBlobs_spec_witness :
  ∃ inserted s' c, CommitBlobs [3] [[9; 8; 7]] [ex_commit] ex_s = (Ret inserted, s') ∧ 3 ∈ inserted ∧
    kv_has_blob ex_s s' 3 [9; 8; 7] c.
Proof.
  destruct (CommitBlobs_spec ex_s [3] [[9; 8; 7]] [ex_commit] [ex_meta] ex_sm_wf ex_s_metas_wf)
    as (encs & ins & s' & H1 & _ & H2 & H3 & H4).
  - reflexivity.
  - reflexivity.
  - constructor; [by vm_compute|done].
  - constructor; [|done]. right. split; [by apply ex_stored; right|exact ex_sm_maskable].
  - by vm_compute.
  - have Hin : 3 ∈ ins.
    { apply (co_elem _ _ _ _ H3).
      destruct (Forall2_cons_inv_l _ _ _ _ H2) as (e & encs' & [_ He] & _ & Eq).
      destruct (He (ex_stored 3 (or_intror eq_refl))) as [x Ex].
      exists (3, ex_commit, e, ex_meta). rw Eq. split; [apply list_elem_of_here|]. split; [reflexivity|].
      split; [by exists x|]. split; vm_compute; reflexivity. }
    destruct (H4 3 ex_meta Hin) as (b & c & (i & _ & Hb & _) & Hhas).
    { by vm_compute. }
    { intros Hh. have Hf : bool_decide (holds ex_s 3 (drop 8 ex_meta)) = false by vm_compute.
      exact (bool_decide_eq_false_1 _ Hf Hh). }
    exists ins, s', c. split; [exact H1|]. split; [exact Hin|].
    have -> : [9; 8; 7] = b; [|exact Hhas]. destruct i as [|i]; [by injection Hb|]. simpl in Hb. by rw lookup_nil in Hb.
Defined.

Lemma CommitEmptyBlobs_spec_witness :
  ∃ ins s', CommitEmptyBlobs 2 3 ex_s = (Ret (zlen ins, 4, None), s') ∧ 2 ∈ ins ∧ holds s' 2 (zeros 32).
Proof.
  have Hm3 : contract_meta ex_s 3 = Ret ex_meta by vm_compute.
  have Hm2 : contract_meta ex_s 2 = Ret ex_meta_empty by vm_compute.
  destruct (CommitEmptyBlobs_spec ex_s 2 3 [ex_meta_empty; ex_meta] ex_sm_wf ex_s_metas_wf)
    as (ins & s' & H1 & _ & H2 & H3 & _).
  - lia.
  - by vm_compute.
  - intros k Hk. have Hk' : k = 2 ∨ k = 3 by lia. split; [by apply ex_stored|by apply ex_maskable].
  - by vm_compute.
  - intros k m Hk. have [-> | ->] : k = 2 ∨ k = 3 by lia.
    + rw Hm2. intros <-%Ret_inj. by vm_compute.
    + rw Hm3. intros <-%Ret_inj. by vm_compute.
  - have H2in : 2 ∈ ins.
    { apply H2. split; [lia|]. exists ex_meta_empty. split; [exact Hm2|]. vm_compute. reflexivity. }
    exists ins, s'. split; [exact H1|]. split; [exact H2in|exact (H3 2 H2in)].
Defined.

Lemma DownloadFinished_spec_witness :
  ∃ s', DownloadFinished [1; 0] 9 [2; 3] [zeros 128; zeros 100] [zeros 32; ex_commit] ex_s = (Ret tt, s') ∧
        s_localL1 s' = 9.
Proof.
  destruct (DownloadFinished_spec ex_s [1; 0] 9 [2; 3] [zeros 128; zeros 100] [zeros 32; ex_commit] 4 ex_sm_wf)
    as [_ H].
  - by vm_compute.
  - by apply (bool_decide_unpack _); vm_compute.
  - reflexivity.
  - reflexivity.
  - intros k Hk. have Hk' : k = 2 ∨ k = 3.
    { apply elem_of_cons in Hk as [->|Hk%list_elem_of_singleton]; [by left|by right]. }
    split; [by apply ex_stored|lia].
  - repeat constructor; by vm_compute.
  - repeat constructor; by vm_compute.
  - by apply (bool_decide_unpack _); vm_compute.
  - reflexivity.
  - by vm_compute.
  - destruct H as (s' & H1 & H2 & _); [by vm_compute|]. exists s'. split; [exact H1|exact H2].
Defined.

Lemma DownloadFinished_loses_error_witness :
  ∃ s', DownloadFinished [0] 9 [3] [zeros 129] [ex_commit] ex_s = (Ret tt, s') ∧
        s_localL1 s' = 9 ∧ TryReadMeta s' 3 = TryReadMeta ex_s 3.
Proof.
  destruct (DownloadFinished_loses_error ex_s 9 3 (zeros 129) ex_commit 4 ex_sm_wf)
    as (s' & e & sm' & _ & H1 & H2 & _ & H3).
  - by vm_compute.
  - by apply ex_stored; right.
  - lia.
  - by vm_compute.
  - by vm_compute.
  - reflexivity.
  - by vm_compute.
  - exists s'. split; [exact H1|]. split; [exact H2|exact H3].
Defined.

Lemma TryWriteWithMetaCheck_contract_witness :
  ∃ s', TryWriteWithMetaCheck 3 (zeros 32) (λ _ _, Ret [9; 8; 7]) ex_s = (Ret tt, s') ∧
        holds s' 3 ex_commit.
Proof.
  have E24 : take 24 (go_copy (zeros 32) (drop 8 ex_meta)) = take 24 ex_commit by vm_compute.
  destruct (TryWriteWithMetaCheck_contract ex_s 3 (zeros 32) (λ _ _, Ret [9; 8; 7]) ex_meta []
              [9; 8; 7] ex_sm_wf) as (s' & H1 & H2 & _).
  - by apply ex_stored; right.
  - by vm_compute.
  - reflexivity.
  - by vm_compute.
  - reflexivity.
  - by vm_compute.
  - intros ds Hds. destruct (ex_sm_maskable ds Hds) as [HQ Hm]. split; [exact HQ|].
    intros i Hi. rw (calcEncodeKey_prefix _ ex_commit); [exact E24|]. by apply Hm.
  - exists s'. split; [exact H1|]. exact (holds_prefix s' 3 _ _ E24 H2).
Defined.

Definition ex_truth (_ k : Z) : bytes := if k =? 3 then ex_meta else ex_meta_empty.

Lemma ex_l1_faithful : l1_faithful ex_truth.
Proof. intros req ks block. by right. Qed.

Lemma ex_l1_patient : l1_patient.
Proof. intros req ks block. exists 0%nat. eexists. split; [lia|]. reflexivity. Qed.

Lemma DownloadAllMetas_spec_witness :
  ∃ s', DownloadAllMetas 4 100 ex_s = (Ret tt, s') ∧ s_blobMetas s' !! 3 = Some ex_meta.
Proof.
  have H34 : 0 ≤ 3 < s_kvEntryCount ex_s by vm_compute.
  destruct (DownloadAllMetas_spec ex_truth 4 100 ex_s ex_l1_faithful ex_l1_patient ex_sm_wf)
    as (s' & H1 & _ & H2).
  - lia.
  - by vm_compute.
  - by vm_compute.
  - vm_compute. lia.
  - exists s'. split; [exact H1|]. exact (H2 3 ex_ds H34 ex_sm_shard).
Defined.

Lemma downloadMetaInRange_stuck_witness :
  (downloadMetaInRange 50 0 8 2 ex_s).1 = Panic OutOfFuel.
Proof.
  apply (downloadMetaInRange_stuck ex_truth 50 0 8 2 ex_s ex_l1_faithful ex_l1_patient);
    by vm_compute.
Defined.

(** One chunk per KV. *)
Definition ex_df1 : DataFile :=
  from_ret ex_df (Create toy_fallocate true 0 2 0 64 ENCODE_BLOB_POSEIDON (replicate 20 7) 64).
Definition ex_ds1 : DataShard := mkDataShard 0 64 1 2 [ex_df1] 64.
Definition ex_s1 : StorageManager :=
  mkStorageManager 1 (mkShardManager {[0 := ex_ds1]} (zeros 20) 6 64 0 1 1 2 64 6) 5 4 ∅ 0.

Lemma ex_df1_wf : df_wf ex_df1.
Proof. constructor; by vm_compute. Qed.

Lemma EncodeBlob_TryEncodeKV_witness :
  ∃ e, EncodeBlob ex_s1 (replicate 64 3) ex_commit 1 64 = Ret e ∧
       DecodeBlob ex_s1 e ex_commit 1 64 = Ret (replicate 64 3).
Proof.
  destruct (EncodeBlob_TryEncodeKV ex_s1 1 ex_ds1 (replicate 64 3) ex_commit) as (e & H1 & _ & H2).
  - constructor; [done|]. intros i ds. rw /= lookup_singleton_Some. intros [<- <-].
    split; [|done]. constructor; try by vm_compute. constructor; [|done].
    constructor; [apply ex_df1_wf|by vm_compute..].
  - lia.
  - by vm_compute.
  - by vm_compute.
  - by vm_compute.
  - reflexivity.
  - by vm_compute.
  - split; [done|]. intros i Hi. have -> : i = 0 by (simpl in Hi; lia). split; by vm_compute.
  - exists e. split; [exact H1|exact H2].
Defined.
