(* ===== verification/SyncTask.v ===== *)
(** * Sync tasks (ethstorage/p2p/protocol/task.go, types.go, and the task part
    of syncclient.go)

    The bookkeeping of a shard's sync: sub tasks for ranges of KVs, the set of
    KVs to heal, and the ranges to fill with empty blobs.  The source links
    tasks and sub tasks by pointers that outlive their place in the task's
    list (a request in flight keeps its sub task); sub tasks therefore live in
    a store and are named by their address, and a task is named by its place in
    the client's list, which never shrinks. *)

From S2P Require Import Prelude.

Definition minSubTaskSize : Z := 16.
Definition defaultMinPeersPerShard : Z := 5.
Definition maxRequestSize : Z := 8 * 1024 * 1024.
Definition requestTimeoutInMillisecond : Z := 1000.

Record SyncState := mkSyncState {
  PeerCount : Z; BlobsSynced : Z; BlobsToSync : Z; SyncProgress : Z; SyncedSeconds : Z;
  EmptyFilled : Z; EmptyToFill : Z; FillEmptyProgress : Z; FillEmptySeconds : Z
}.

Definition zero_state : SyncState := mkSyncState 0 0 0 0 0 0 0 0 0.

Record subTask := mkSubTask {
  st_task : nat; st_next : Z; st_First : Z; st_Last : Z; st_isRunning : bool; st_done : bool
}.

Record subEmptyTask := mkSubEmptyTask {
  se_task : nat; se_First : Z; se_Last : Z; se_isRunning : bool; se_done : bool
}.

(** [t_heal] is [healTask.Indexes]; [t_SubTasks] and [t_SubEmptyTasks] hold addresses. *)
Record task := mkTask {
  t_Contract : bytes; t_ShardId : Z; t_SubTasks : list Z; t_nextIdx : Z;
  t_heal : gmap Z Z; t_SubEmptyTasks : list Z; t_statelessPeers : gset Z;
  t_state : SyncState; t_done : bool
}.

(** ** The heal task *)

Definition heal_remove (h : gmap Z Z) (list : list Z) : gmap Z Z :=
  foldl (λ h idx, delete idx h) h list.

Definition heal_count (h : gmap Z Z) : Z := Z.of_nat (size h).

Definition heal_insert (h : gmap Z Z) (list : list Z) : gmap Z Z :=
  foldl (λ h idx, <[idx := 0]> h) h list.

(** [t] is the current time in milliseconds. *)
Definition heal_refresh (t : Z) (h : gmap Z Z) (list : list Z) : gmap Z Z :=
  foldl (λ h idx, <[idx := t]> h) h list.

Definition hasIndexInRange (h : gmap Z Z) (first next : Z) : bool * Z :=
  foldl (λ '(found, min) idx,
      if (idx <? next) && (first <=? idx)
      then (true, if idx <? min then idx else min)
      else (found, min)) (false, next) (map_to_list h).*1.

(** [l] is the map in the order of the iteration, [now] the current time. *)
Fixpoint getBlobIndexesForRequest (now batch : Z) (l : list (Z * Z)) (indexes : list Z) : list Z :=
  match l with
  | [] => indexes
  | (idx, tm) :: l =>
      let indexes := if requestTimeoutInMillisecond <? now - tm then indexes ++ [idx] else indexes in
      if batch <=? zlen indexes then indexes else getBlobIndexesForRequest now batch l indexes
  end.

Lemma heal_remove_dom h l : dom (heal_remove h l) = dom h ∖ list_to_set l.
Proof.
  revert h. induction l as [|j l IH]; intros h; simpl; [set_solver|].
  rw IH dom_delete_L. set_solver.
Qed.

Lemma heal_insert_dom h l : dom (heal_insert h l) = dom h ∪ list_to_set l.
Proof.
  revert h. induction l as [|j l IH]; intros h; simpl; [set_solver|].
  rw IH dom_insert_L. set_solver.
Qed.

Lemma heal_refresh_dom t h l : (∀ i, i ∈ l → is_Some (h !! i)) → dom (heal_refresh t h l) = dom h.
Proof.
  revert h. induction l as [|j l IH]; intros h Hl; simpl; [done|]. rw IH.
  - intros i Hi. destruct (decide (i = j)) as [-> |].
    + rw lookup_insert_eq. by eexists.
    + rw lookup_insert_ne; [congruence|]. by apply Hl, list_elem_of_further.
  - rw dom_insert_L. destruct (Hl j (list_elem_of_here _ _)) as [x Hx].
    apply elem_of_dom_2 in Hx. set_solver.
Qed.

(** The least queued index of a range, or its end. *)
Lemma hasIndexInRange_spec h first next found min :
  hasIndexInRange h first next = (found, min) →
  (found = true ↔ ∃ i, i ∈ dom h ∧ first ≤ i < next) ∧
  min ≤ next ∧ (first ≤ next → first ≤ min) ∧ (found = false → min = next) ∧
  (∀ i, i ∈ dom h → first ≤ i < next → min ≤ i).
Proof.
  rw /hasIndexInRange.
  have Hdom i : i ∈ dom h ↔ i ∈ (map_to_list h).*1.
  { rw elem_of_dom list_elem_of_fmap. split.
    - intros [x Hx]. exists (i, x). split; [done|]. by apply elem_of_map_to_list.
    - intros ([j x] & -> & Hx). apply elem_of_map_to_list in Hx. exact (mk_is_Some _ _ Hx). }
  revert Hdom. generalize (dom h) as D, (map_to_list h).*1 as l. intros D l Hdom.
  setoid_rewrite Hdom. clear D Hdom.
  set P := λ (l : list Z) (r : bool * Z),
    (r.1 = true ↔ ∃ i, i ∈ l ∧ first ≤ i < next) ∧ r.2 ≤ next ∧ (first ≤ next → first ≤ r.2) ∧
    (r.1 = false → r.2 = next) ∧ (∀ i, i ∈ l → first ≤ i < next → r.2 ≤ i).
  have Hgen : ∀ k pre r, P pre r → P (pre ++ k)
    (foldl (λ '(found, min) idx, if (idx <? next) && (first <=? idx)
       then (true, if idx <? min then idx else min) else (found, min)) r k).
  { induction k as [|j k IH]; intros pre [e m] HP; simpl; [by rw app_nil_r|].
    replace (pre ++ j :: k) with ((pre ++ [j]) ++ k) by (by rw -app_assoc).
    apply IH. destruct HP as (H1 & H2 & H3 & H4 & H5); simpl in *.
    destruct ((j <? next) && (first <=? j)) eqn:E; bools.
    - split_and!; simpl.
      + split; [|done]. intros _. exists j. set_solver by lia.
      + case: Z.ltb_spec; lia.
      + case: Z.ltb_spec; lia.
      + done.
      + intros i. rw elem_of_app list_elem_of_singleton. intros [Hi | ->] ?.
        * specialize (H5 i Hi). case: Z.ltb_spec; lia.
        * case: Z.ltb_spec; lia.
    - have Hj : ¬ (first ≤ j < next) by (destruct E; bools; lia).
      split_and!; simpl; [|done..|].
      + rw H1. split; intros (i & Hi & ?); exists i; (split; [|done]); [by apply elem_of_app; left|].
        apply elem_of_app in Hi as [?|Hi]; [done|]. apply list_elem_of_singleton in Hi. lia.
      + intros i. rw elem_of_app list_elem_of_singleton. intros [Hi | ->] ?; [by apply H5|lia]. }
  intros HE. specialize (Hgen l [] (false, next)). rw HE in Hgen.
  destruct Hgen as (H1 & H2 & H3 & H4 & H5); [|done].
  split_and!; simpl; [|lia|lia|done|].
  - split; [done|]. by intros (i & ?%not_elem_of_nil & _).
  - by intros i ?%not_elem_of_nil.
Qed.

(** ** New tasks *)

Record SyncerParams := mkSyncerParams {
  MaxPeers : Z; InitRequestSize : Z; SyncConcurrency : Z; FillEmptyConcurrency : Z;
  MetaDownloadBatchSize : Z
}.

(** The loops that cut [[first, limit)] into ranges of [size]. *)
Fixpoint cut (fuel : nat) (first limit size : Z) : gores (list (Z * Z)) :=
  if first <? limit then
    match fuel with
    | O => Panic OutOfFuel
    | S fuel =>
        let last := Z.min (add64 first size) limit in
        rest ← cut fuel last limit size; mret ((first, last) :: rest)
    end
  else mret [].

Definition cut_fuel (first limit size : Z) : nat := S (Z.to_nat ((limit - first) / size)).

(** The size of the ranges: [n] of them, but none smaller than [minSubTaskSize]. *)
Definition cut_size (first limit n : Z) : gores Z :=
  q ← udiv (sub64 (add64 (sub64 limit first) n) 1) n; mret (Z.max q minSubTaskSize).

(** [ti] is the place the task will have in the client's list, [a] and [e] the
    first free addresses of the two stores. *)
Definition createTask (params : SyncerParams) (maxFillEmptyTaskTreads : Z) (contract : bytes)
    (kvEntries : Z) (ti : nat) (a e sid lastKvIndex : Z)
    : gores (task * list subTask * list subEmptyTask) :=
  let first := mul64 kvEntries sid in
  let limit := mul64 kvEntries (add64 sid 1) in
  let '(firstEmpty, limitForEmpty, limit) :=
    if lastKvIndex <=? first then (first, limit, first)
    else if lastKvIndex <=? limit then (lastKvIndex, limit, lastKvIndex)
    else (0, 0, limit) in
  maxTaskSize ← cut_size first limit (SyncConcurrency params);
  ranges ← cut (cut_fuel first limit maxTaskSize) first limit maxTaskSize;
  emptyRanges ← (if 0 <? limitForEmpty then
    maxEmptyTaskSize ← cut_size firstEmpty limitForEmpty maxFillEmptyTaskTreads;
    cut (cut_fuel firstEmpty limitForEmpty maxEmptyTaskSize) firstEmpty limitForEmpty maxEmptyTaskSize
    else mret []);
  mret (mkTask contract sid (seqZ a (zlen ranges)) 0 ∅ (seqZ e (zlen emptyRanges)) ∅
          (mkSyncState 0 0 0 0 0 0 (if 0 <? limitForEmpty then sub64 limitForEmpty firstEmpty else 0) 0 0)
          false,
        (λ '(f, l), mkSubTask ti f f l false false) <$> ranges,
        (λ '(f, l), mkSubEmptyTask ti f l false false) <$> emptyRanges).

(** Consecutive non-empty ranges from [first] to [limit]. *)
Fixpoint tiles (first limit : Z) (l : list (Z * Z)) : Prop :=
  match l with
  | [] => first = limit
  | (a, b) :: l => a = first ∧ a < b ∧ tiles b limit l
  end.

Lemma tiles_cover first limit l :
  tiles first limit l → ∀ k, first ≤ k < limit → ∃ r, r ∈ l ∧ r.1 ≤ k < r.2.
Proof.
  revert first. induction l as [|[a b] l IH]; intros first; simpl; [intros ->; lia|].
  intros (-> & Hab & Ht) k Hk. destruct (decide (k < b)) as [|].
  - exists (first, b). split; [apply list_elem_of_here|simpl; lia].
  - destruct (IH b Ht k) as (r & Hr & ?); [lia|]. exists r. split; [by apply list_elem_of_further|done].
Qed.

Lemma tiles_bounds first limit l :
  tiles first limit l → first ≤ limit ∧ ∀ r, r ∈ l → first ≤ r.1 < r.2 ∧ r.2 ≤ limit.
Proof.
  revert first. induction l as [|[a b] l IH]; intros first; simpl.
  { intros ->. split; [lia|]. by intros r ?%not_elem_of_nil. }
  intros (-> & Hab & Ht). destruct (IH b Ht) as [Hb Hl]. split; [lia|].
  intros r [-> |Hr]%elem_of_cons; [simpl; lia|]. destruct (Hl r Hr). lia.
Qed.

(** The same for a list of records that carry the ranges. *)
Lemma tiles_in {A} (range : A → Z * Z) k first limit (l : list A) :
  tiles first limit (range <$> l) →
  first ≤ k < limit ↔ ∃ x, x ∈ l ∧ (range x).1 ≤ k < (range x).2.
Proof.
  intros Ht. split.
  - intros Hk. destruct (tiles_cover _ _ _ Ht k Hk) as (r & (x & -> & Hx)%list_elem_of_fmap & ?).
    by exists x.
  - intros (x & Hx & ?). destruct (tiles_bounds _ _ _ Ht) as [_ Hb].
    destruct (Hb (range x)); [apply list_elem_of_fmap; by exists x|lia].
Qed.

Lemma tiles_disjoint {A} (range : A → Z * Z) k first limit (l : list A) :
  tiles first limit (range <$> l) → ∀ i j x y, l !! i = Some x → l !! j = Some y →
  (range x).1 ≤ k < (range x).2 → (range y).1 ≤ k < (range y).2 → i = j.
Proof.
  revert first. induction l as [|z l IH]; intros first Ht [|i] [|j] x y; try done; simpl in *;
    destruct (range z) as [a b] eqn:Ez; destruct Ht as (-> & Hab & Ht).
  - intros [= <-] Hy. rw Ez. destruct (tiles_bounds _ _ _ Ht) as [_ H].
    destruct (H (range y)); [|simpl; lia].
    apply list_elem_of_fmap. exists y. split; [done|]. exact (list_elem_of_lookup_2 _ _ _ Hy).
  - intros Hx [= <-]. rw Ez. destruct (tiles_bounds _ _ _ Ht) as [_ H].
    destruct (H (range x)); [|simpl; lia].
    apply list_elem_of_fmap. exists x. split; [done|]. exact (list_elem_of_lookup_2 _ _ _ Hx).
  - intros Hx Hy H1 H2. f_equal. exact (IH b Ht i j x y Hx Hy H1 H2).
Qed.

Lemma cut_tiles fuel first limit size :
  0 < size → 0 ≤ first ≤ limit → limit + size < two64 →
  (limit - first + size - 1) / size ≤ Z.of_nat fuel →
  ∃ l, cut fuel first limit size = Ret l ∧ tiles first limit l ∧
       zlen l ≤ (limit - first + size - 1) / size.
Proof.
  intros Hs.
  have Hstep f : f ≤ limit → (limit - f + size - 1) / size =
    if f <? limit
    then (limit - Z.min (f + size) limit + size - 1) / size + 1 else 0.
  { intros Hf. case: Z.ltb_spec => Hlt; [|apply Z.div_small; lia].
    destruct (Z.le_gt_cases (f + size) limit).
    - rw Z.min_l // -Z.div_add; [lia|]. f_equal. lia.
    - rw Z.min_r; [lia|]. rw Z.sub_diag (Z.div_small (0 + size - 1)); [lia|].
      symmetry. apply (Z.div_unique _ _ _ (limit - f - 1)); lia. }
  revert first. induction fuel as [|fuel IH]; intros first Hf Hb Hfuel;
    rw (Hstep first (proj2 Hf)) in Hfuel *.
  { revert Hfuel. simpl. case: Z.ltb_spec => ? ?.
    - pose proof (Z.div_pos (limit - Z.min (first + size) limit + size - 1) size). lia.
    - exists []. split_and!; [done|simpl; lia|done]. }
  revert Hfuel. simpl. case: Z.ltb_spec => Hlt Hfuel; last first.
  { exists []. split_and!; [done|simpl; lia|done]. }
  rw /add64 wrap64_small; [lia|].
  destruct (IH (Z.min (first + size) limit)) as (l & H1 & H2 & H3); [lia|done|lia|].
  rw H1 /=. eexists. split; [done|]. simpl. split; [split_and!; [done|lia|done]|].
  rw /zlen /=. rw /zlen in H3. lia.
Qed.

(** The number of KVs of a range, cut into at most [n] ranges. *)
Lemma cut_into first limit n :
  0 < n < two63 → 0 ≤ first ≤ limit → limit < two63 →
  ∃ size l, cut_size first limit n = Ret size ∧
    cut (cut_fuel first limit size) first limit size = Ret l ∧
    tiles first limit l ∧ zlen l ≤ n.
Proof.
  intros Hn Hf Hb. rw /cut_size. unfold two63 in *.
  have -> : sub64 (add64 (sub64 limit first) n) 1 = limit - first + n - 1.
  { rw /sub64 /add64 (wrap64_small (limit - first)); [unfold two64; lia|].
    rw (wrap64_small (_ + n)); [unfold two64; lia|]. rw wrap64_small //. unfold two64; lia. }
  rw udiv_nz; [lia|]. simpl. set q := (limit - first + n - 1) / n.
  have Hq : limit - first ≤ q * n.
  { pose proof (Z.mul_succ_div_gt (limit - first + n - 1) n). rw /q. lia. }
  have Hq2 : q ≤ limit - first + n - 1 by apply Z.div_le_upper_bound; nia.
  have Hq1 : q < two63.
  { apply Z.div_lt_upper_bound; [lia|]. unfold two63. nia. }
  set size := Z.max q minSubTaskSize. unfold two63 in *.
  have Hs : 0 < size ∧ size < 9223372036854775808 by rw /size /minSubTaskSize; lia.
  destruct (cut_tiles (cut_fuel first limit size) first limit size) as (l & H1 & H2 & H3);
    [lia|lia|unfold two64; lia| |].
  { rw /cut_fuel Nat2Z.inj_succ Z2Nat.id; [apply Z.div_pos; lia|].
    apply Z.lt_succ_r, Z.div_lt_upper_bound; [lia|].
    pose proof (Z.mul_succ_div_gt (limit - first) size). nia. }
  exists size, l. split_and!; [done|done|done|]. etrans; [exact H3|].
  apply Z.lt_succ_r, Z.div_lt_upper_bound; [lia|].
  have ? : q * n ≤ size * n by apply Z.mul_le_mono_nonneg_r; lia. nia.
Qed.

Definition sub_range (st : subTask) : Z * Z := (st_First st, st_Last st).
Definition empty_range (se : subEmptyTask) : Z * Z := (se_First se, se_Last se).

(** The end of the KVs of a shard that hold data, when there are [lastKvIndex] KVs. *)
Definition data_end (kvEntries sid lastKvIndex : Z) : Z :=
  Z.max (kvEntries * sid) (Z.min (kvEntries * (sid + 1)) lastKvIndex).

Lemma createTask_tiles params treads contract kvEntries ti a e sid lastKvIndex :
  0 < SyncConcurrency params < two63 → 0 < treads < two63 →
  0 < kvEntries → 0 ≤ sid → kvEntries * (sid + 1) < two63 → 0 ≤ lastKvIndex →
  ∃ t subs empties,
    createTask params treads contract kvEntries ti a e sid lastKvIndex = Ret (t, subs, empties) ∧
    tiles (kvEntries * sid) (data_end kvEntries sid lastKvIndex) (sub_range <$> subs) ∧
    tiles (data_end kvEntries sid lastKvIndex) (kvEntries * (sid + 1)) (empty_range <$> empties) ∧
    zlen subs ≤ SyncConcurrency params ∧ zlen empties ≤ treads ∧
    Forall (λ st, st_task st = ti ∧ st_next st = st_First st ∧ st_done st = false ∧
                  st_isRunning st = false) subs ∧
    Forall (λ se, se_task se = ti ∧ se_done se = false ∧ se_isRunning se = false) empties ∧
    t_SubTasks t = seqZ a (zlen subs) ∧ t_SubEmptyTasks t = seqZ e (zlen empties) ∧
    t_heal t = ∅ ∧ t_done t = false ∧ t_nextIdx t = 0 ∧ t_ShardId t = sid ∧ t_Contract t = contract ∧
    t_statelessPeers t = ∅ ∧ PeerCount (t_state t) = 0.
Proof.
  intros Hc Ht Hk Hs Hb Hl. rw /createTask.
  have Hm : kvEntries * (sid + 1) = kvEntries * sid + kvEntries by lia.
  have H0 : 0 ≤ kvEntries * sid by lia.
  have Hsid : sid < two63 by unfold two63 in *; nia.
  have -> : mul64 kvEntries sid = kvEntries * sid
    by rw /mul64 wrap64_small //; unfold two63, two64 in *; lia.
  have -> : mul64 kvEntries (add64 sid 1) = kvEntries * (sid + 1)
    by rw /mul64 /add64 !wrap64_small //; unfold two63, two64 in *; lia.
  set (first := kvEntries * sid) in *. set (limit := kvEntries * (sid + 1)) in *.
  set mid := data_end kvEntries sid lastKvIndex.
  have Hmid : mid = Z.max first (Z.min limit lastKvIndex) by done.
  have Hcase : ∃ fe le, (if lastKvIndex <=? first then (first, limit, first)
    else if lastKvIndex <=? limit then (lastKvIndex, limit, lastKvIndex) else (0, 0, limit))
    = (fe, le, mid) ∧ (fe = mid ∧ le = limit ∨ fe = 0 ∧ le = 0 ∧ mid = limit).
  { case: Z.leb_spec => H1; [|case: Z.leb_spec => H2].
    - eexists _, _. split; [|by left]. do 2 f_equal; lia.
    - exists mid, limit. split; [|by left]. f_equal; [f_equal|]; lia.
    - exists 0, 0. split; [|right; split_and!; lia]. f_equal. lia. }
  destruct Hcase as (fe & le & -> & Hfe).
  destruct (cut_into first mid (SyncConcurrency params)) as (size & l & -> & E1 & T1 & L1); [lia..|].
  cbn [mbind gores_bind]. rw E1. cbn [mbind gores_bind].
  have He : ∃ le' : list (Z * Z), (if 0 <? le then
      maxEmptyTaskSize ← cut_size fe le treads;
      cut (cut_fuel fe le maxEmptyTaskSize) fe le maxEmptyTaskSize else mret []) = Ret le' ∧
      tiles mid limit le' ∧ zlen le' ≤ treads.
  { destruct Hfe as [[-> ->]|(-> & -> & Hml)].
    - rw (proj2 (Z.ltb_lt _ _)); [lia|].
      destruct (cut_into mid limit treads) as (size' & l' & -> & E2 & T2 & L2); [lia..|].
      cbn [mbind gores_bind]. rw E2. by exists l'.
    - exists []. split_and!; [done|done|]. rw /zlen /=. lia. }
  destruct He as (l' & He & T2 & L2). cbn [mbind gores_bind] in He. rw He. clear He. cbn [mbind gores_bind].
  eexists _, _, _. split; [done|].
  have R1 : sub_range <$> ((λ '(f, l), mkSubTask ti f f l false false) <$> l) = l.
  { rw -list_fmap_compose -{2}(list_fmap_id l). apply list_fmap_ext. by intros ? []. }
  have R2 : empty_range <$> ((λ '(f, l), mkSubEmptyTask ti f l false false) <$> l') = l'.
  { rw -list_fmap_compose -{2}(list_fmap_id l'). apply list_fmap_ext. by intros ? []. }
  rw R1 R2 /zlen !length_fmap. rw /zlen in L1 L2.
  split_and!; try done.
  - apply Forall_fmap, Forall_true. by intros [].
  - apply Forall_fmap, Forall_true. by intros [].
Qed.

(** C21: a new task always comes about (the loops that cut the shard end, and no
    product or sum wraps), and its sub tasks divide the shard: every KV below the
    contract's count lies in a sub task and every other KV in a range to fill with
    empty blobs, in one range only, and no range leaves the shard.  There are no
    more ranges than the configured number of each kind. *)
Theorem createTask_spec params treads contract kvEntries ti a e sid lastKvIndex :
  0 < SyncConcurrency params < two63 → 0 < treads < two63 →
  0 < kvEntries → 0 ≤ sid → kvEntries * (sid + 1) < two63 → 0 ≤ lastKvIndex →
  ∃ t subs empties,
    createTask params treads contract kvEntries ti a e sid lastKvIndex = Ret (t, subs, empties) ∧
    zlen (t_SubTasks t) = zlen subs ∧ zlen (t_SubEmptyTasks t) = zlen empties ∧
    zlen subs ≤ SyncConcurrency params ∧ zlen empties ≤ treads ∧
    ∀ k, let in_sub st := st_First st ≤ k < st_Last st in
         let in_empty se := se_First se ≤ k < se_Last se in
      ((∃ st, st ∈ subs ∧ in_sub st) ↔
         kvEntries * sid ≤ k < kvEntries * (sid + 1) ∧ k < lastKvIndex) ∧
      ((∃ se, se ∈ empties ∧ in_empty se) ↔
         kvEntries * sid ≤ k < kvEntries * (sid + 1) ∧ lastKvIndex ≤ k) ∧
      (∀ i j st st', subs !! i = Some st → subs !! j = Some st' → in_sub st → in_sub st' → i = j) ∧
      (∀ i j se se', empties !! i = Some se → empties !! j = Some se' →
         in_empty se → in_empty se' → i = j).
Proof.
  intros Hc Ht Hk Hs Hb Hl.
  destruct (createTask_tiles params treads contract kvEntries ti a e sid lastKvIndex Hc Ht Hk Hs Hb Hl)
    as (t & subs & empties & E & T1 & T2 & L1 & L2 & _ & _ & S1 & S2 & _).
  exists t, subs, empties. split; [done|]. rw S1 S2 /zlen !length_seqZ !Nat2Z.id.
  split_and!; [done..|]. intros k. simpl.
  destruct (tiles_bounds _ _ _ T1) as [B1 _]. destruct (tiles_bounds _ _ _ T2) as [B2 _].
  rw -(tiles_in sub_range k _ _ _ T1) -(tiles_in empty_range k _ _ _ T2). rw /data_end in B1 B2 *.
  split_and!.
  - lia.
  - lia.
  - intros i j st st' Hi Hj. exact (tiles_disjoint sub_range k _ _ _ T1 i j st st' Hi Hj).
  - intros i j se se' Hi Hj. exact (tiles_disjoint empty_range k _ _ _ T2 i j se se' Hi Hj).
Qed.

Lemma createTask_spec_witness : ∃ t subs empties,
  createTask (mkSyncerParams 4 1 2 1 1) 1 [] 64 0 0 0 0 40 = Ret (t, subs, empties) ∧
  sub_range <$> subs = [(0, 20); (20, 40)] ∧ empty_range <$> empties = [(40, 64)] ∧
  ∃ st, st ∈ subs ∧ st_First st ≤ 39 < st_Last st.
Proof.
  destruct (createTask_spec (mkSyncerParams 4 1 2 1 1) 1 [] 64 0 0 0 0 40)
    as (t & subs & empties & E & _ & _ & _ & _ & Hk); [by vm_compute..|].
  exists t, subs, empties. split; [exact E|]. have E' := E. vm_compute in E'. injection E' as _ <- <-.
  split; [done|]. split; [done|]. destruct (Hk 39) as [H _]. by apply H.
Defined.
