(* ===== verification/SyncClient.v ===== *)
(** * Sync client (ethstorage/p2p/protocol/syncclient.go)

    The client keeps the sync tasks of the node's shards, hands their ranges to
    idle peers, checks and commits what the peers answer, and fills the rest of
    the shards with empty blobs.  Every definition is one critical section or
    one handler of the source; the goroutines that carry them are the steps of
    SyncRun.v.  Metrics and logging have no counterpart. *)

From S2P Require Import Prelude Extern ChunkCodec SyncTask.

(** ** What the client uses of the storage manager: the interface
    [protocol.StorageManager] *)

Class SyncStorage (S : Type) := {
  mgr_KvEntries : S → Z;
  mgr_ContractAddress : S → bytes;
  mgr_Shards : S → list Z;
  mgr_MaxKvSize : S → Z;
  mgr_KvEntryCount : S → Z;
  mgr_DecodeKV : S → Z → bytes → bytes → bytes → Z → gores (option bytes);
  mgr_CommitBlobs : list Z → list bytes → list bytes → ST S (list Z);
  (** the number of blobs committed, the next index, and the error *)
  mgr_CommitEmptyBlobs : Z → Z → ST S (Z * Z * option error) }.

(** ** Data *)

Record BlobPayload := mkBlobPayload {
  MinerAddress : bytes; BlobIndex : Z; BlobCommit : bytes; EncodeType : Z; EncodedBlob : bytes
}.

Record blobsByRangeRequest := mkRangeRequest {
  rr_peer : Z; rr_id : Z; rr_contract : bytes; rr_shardId : Z; rr_origin : Z; rr_limit : Z;
  rr_subTask : Z
}.

Record blobsByListRequest := mkListRequest {
  lr_peer : Z; lr_id : Z; lr_contract : bytes; lr_shardId : Z; lr_indexes : list Z; lr_task : nat
}.

(** The answer to either request. *)
Record BlobsPacket := mkBlobsPacket {
  pk_ID : Z; pk_Contract : bytes; pk_ShardId : Z; pk_Blobs : list BlobPayload
}.

(** A registered peer; [p_shards] are the shards of each contract it serves. *)
Record Peer := mkPeer { p_id : Z; p_shards : gmap bytes (list Z) }.

Inductive EthStorageSyncDone :=
| AllShardDone
| SingleShardDone (ShardId : Z).

(** The fields of a task that are written to the database. *)
Record savedTask := mkSavedTask {
  sv_Contract : bytes; sv_ShardId : Z;
  sv_SubTasks : list (Z * Z); sv_SubEmptyTasks : list (Z * Z)
}.

(** [SyncProgress], with the totals that older versions wrote. *)
Record savedProgress := mkSavedProgress {
  sp_Tasks : list savedTask; sp_BlobsSynced : Z; sp_EmptyBlobsFilled : Z; sp_TotalSecondsUsed : Z
}.

(** [c_subs] and [c_empties] are the stores of the sub tasks, [c_kvSizes] the
    KV sizes of [ethstorage.ContractToShardManager], [c_treads] the variable
    [maxFillEmptyTaskTreads], [c_mux] the announcements sent ([None] without an
    event feed) and the [c_db] fields the two database records. *)
Record SyncClient (S : Type) := mkSyncClient {
  c_tasks : list task;
  c_subs : gmap Z subTask;
  c_empties : gmap Z subEmptyTask;
  c_closingPeers : bool;
  c_syncDone : bool;
  c_peers : gmap Z Peer;
  c_idlerPeers : gset Z;
  c_running : Z;
  c_mux : option (list EthStorageSyncDone);
  c_dbTasks : option savedProgress;
  c_dbStates : option (gmap Z SyncState);
  c_maxPeers : Z;
  c_minPeersPerShard : Z;
  c_params : SyncerParams;
  c_treads : Z;
  c_kvSizes : gmap bytes Z;
  c_storage : S
}.
Arguments mkSyncClient {S}.
Arguments c_tasks {S}. Arguments c_subs {S}. Arguments c_empties {S}.
Arguments c_closingPeers {S}. Arguments c_syncDone {S}. Arguments c_peers {S}.
Arguments c_idlerPeers {S}. Arguments c_running {S}. Arguments c_mux {S}.
Arguments c_dbTasks {S}. Arguments c_dbStates {S}. Arguments c_maxPeers {S}.
Arguments c_minPeersPerShard {S}. Arguments c_params {S}. Arguments c_treads {S}.
Arguments c_kvSizes {S}. Arguments c_storage {S}.

Section client.
Context {S : Type} `{SyncStorage S}.
Implicit Types c : SyncClient S.

(** *** Field updates *)

Definition set_work c tasks subs empties : SyncClient S :=
  mkSyncClient tasks subs empties (c_closingPeers c) (c_syncDone c) (c_peers c) (c_idlerPeers c)
    (c_running c) (c_mux c) (c_dbTasks c) (c_dbStates c) (c_maxPeers c) (c_minPeersPerShard c)
    (c_params c) (c_treads c) (c_kvSizes c) (c_storage c).

Definition set_tasks c tasks : SyncClient S := set_work c tasks (c_subs c) (c_empties c).
Definition set_subs c subs : SyncClient S := set_work c (c_tasks c) subs (c_empties c).
Definition set_empties c empties : SyncClient S := set_work c (c_tasks c) (c_subs c) empties.

Definition set_peers c peers idlers : SyncClient S :=
  mkSyncClient (c_tasks c) (c_subs c) (c_empties c) (c_closingPeers c) (c_syncDone c) peers idlers
    (c_running c) (c_mux c) (c_dbTasks c) (c_dbStates c) (c_maxPeers c) (c_minPeersPerShard c)
    (c_params c) (c_treads c) (c_kvSizes c) (c_storage c).

Definition set_flags c closing done running mux : SyncClient S :=
  mkSyncClient (c_tasks c) (c_subs c) (c_empties c) closing done (c_peers c) (c_idlerPeers c)
    running mux (c_dbTasks c) (c_dbStates c) (c_maxPeers c) (c_minPeersPerShard c)
    (c_params c) (c_treads c) (c_kvSizes c) (c_storage c).

Definition set_db c tasks states : SyncClient S :=
  mkSyncClient (c_tasks c) (c_subs c) (c_empties c) (c_closingPeers c) (c_syncDone c) (c_peers c)
    (c_idlerPeers c) (c_running c) (c_mux c) tasks states (c_maxPeers c) (c_minPeersPerShard c)
    (c_params c) (c_treads c) (c_kvSizes c) (c_storage c).

Definition set_storage c s : SyncClient S :=
  mkSyncClient (c_tasks c) (c_subs c) (c_empties c) (c_closingPeers c) (c_syncDone c) (c_peers c)
    (c_idlerPeers c) (c_running c) (c_mux c) (c_dbTasks c) (c_dbStates c) (c_maxPeers c)
    (c_minPeersPerShard c) (c_params c) (c_treads c) (c_kvSizes c) s.

Definition set_running c n : SyncClient S :=
  set_flags c (c_closingPeers c) (c_syncDone c) n (c_mux c).

Definition send c (e : EthStorageSyncDone) : SyncClient S :=
  set_flags c (c_closingPeers c) (c_syncDone c) (c_running c) ((λ l, l ++ [e]) <$> c_mux c).

Definition on_task c (ti : nat) (f : task → task) : SyncClient S :=
  set_tasks c (alter f ti (c_tasks c)).

Definition set_state (t : task) (st : SyncState) : task :=
  mkTask (t_Contract t) (t_ShardId t) (t_SubTasks t) (t_nextIdx t) (t_heal t) (t_SubEmptyTasks t)
    (t_statelessPeers t) st (t_done t).
Definition set_heal (t : task) (h : gmap Z Z) : task :=
  mkTask (t_Contract t) (t_ShardId t) (t_SubTasks t) (t_nextIdx t) h (t_SubEmptyTasks t)
    (t_statelessPeers t) (t_state t) (t_done t).
Definition set_nextIdx (t : task) (n : Z) : task :=
  mkTask (t_Contract t) (t_ShardId t) (t_SubTasks t) n (t_heal t) (t_SubEmptyTasks t)
    (t_statelessPeers t) (t_state t) (t_done t).
Definition set_stateless (t : task) (ps : gset Z) : task :=
  mkTask (t_Contract t) (t_ShardId t) (t_SubTasks t) (t_nextIdx t) (t_heal t) (t_SubEmptyTasks t)
    ps (t_state t) (t_done t).

Definition add_BlobsSynced (n : Z) (st : SyncState) : SyncState :=
  mkSyncState (PeerCount st) (add64 (BlobsSynced st) n) (BlobsToSync st) (SyncProgress st)
    (SyncedSeconds st) (EmptyFilled st) (EmptyToFill st) (FillEmptyProgress st) (FillEmptySeconds st).
Definition add_EmptyFilled (n : Z) (st : SyncState) : SyncState :=
  mkSyncState (PeerCount st) (BlobsSynced st) (BlobsToSync st) (SyncProgress st)
    (SyncedSeconds st) (add64 (EmptyFilled st) n) (EmptyToFill st) (FillEmptyProgress st)
    (FillEmptySeconds st).
Definition add_PeerCount (n : Z) (st : SyncState) : SyncState :=
  mkSyncState (int64 (PeerCount st + n)) (BlobsSynced st) (BlobsToSync st) (SyncProgress st)
    (SyncedSeconds st) (EmptyFilled st) (EmptyToFill st) (FillEmptyProgress st) (FillEmptySeconds st).

Definition set_isRunning (b : bool) (st : subTask) : subTask :=
  mkSubTask (st_task st) (st_next st) (st_First st) (st_Last st) b (st_done st).

(** [p.tasks[i]] and the dereference of a sub task. *)
Definition task_at c (ti : nat) : gores task :=
  match c_tasks c !! ti with Some t => Ret t | None => Panic OutOfRange end.
Definition sub_at c (a : Z) : gores subTask :=
  match c_subs c !! a with Some st => Ret st | None => Panic NilPointer end.
Definition empty_at c (a : Z) : gores subEmptyTask :=
  match c_empties c !! a with Some se => Ret se | None => Panic NilPointer end.

Definition setSyncDone c : SyncClient S :=
  send (set_flags c (c_closingPeers c) true (c_running c) (c_mux c)) AllShardDone.

(** ** Removal of finished sub tasks *)

(** The loop of [cleanTasks] over a task's sub tasks: [kept] are the addresses
    before the loop index, [todo] those from it on. *)
Fixpoint clean_subs (heal : gmap Z Z) (nextIdx : Z) (kept todo : list Z) (store : gmap Z subTask)
    : gores (list Z * Z * gmap Z subTask) :=
  match todo with
  | [] => mret (kept, nextIdx, store)
  | a :: todo =>
      match store !! a with
      | None => Panic NilPointer
      | Some st =>
          let '(found, first) := hasIndexInRange heal (st_First st) (st_next st) in
          let store := <[a := mkSubTask (st_task st) (st_next st) first (st_Last st)
                                (st_isRunning st) (st_done st)]> store in
          if st_done st && negb found
          then clean_subs heal (if zlen kept <? nextIdx then nextIdx - 1 else nextIdx) kept todo store
          else clean_subs heal nextIdx (kept ++ [a]) todo store
      end
  end.

Fixpoint clean_empties (store : gmap Z subEmptyTask) (l : list Z) : gores (list Z) :=
  match l with
  | [] => mret []
  | a :: l =>
      match store !! a with
      | None => Panic NilPointer
      | Some se => rest ← clean_empties store l; mret (if se_done se then rest else a :: rest)
      end
  end.

Definition clean_task (allDone : bool) (ti : nat) : ST (SyncClient S) bool := λ c,
  match
    (t ← task_at c ti;
     r ← clean_subs (t_heal t) (t_nextIdx t) [] (t_SubTasks t) (c_subs c);
     empties ← clean_empties (c_empties c) (t_SubEmptyTasks t);
     mret (t, r, empties))
  with
  | Ret (t, (subs, nextIdx, store), empties) =>
      let finished := bool_decide (subs = []) && bool_decide (empties = []) in
      let t' := mkTask (t_Contract t) (t_ShardId t) subs nextIdx (t_heal t) empties
                  (t_statelessPeers t) (t_state t) (t_done t || finished) in
      let c' := set_work c (<[ti := t']> (c_tasks c)) store (c_empties c) in
      (Ret (allDone && finished),
       if finished && negb (t_done t) then send c' (SingleShardDone (t_ShardId t)) else c')
  | Fail e => (Fail e, c)
  | Panic p => (Panic p, c)
  end.

Definition cleanTasks : ST (SyncClient S) unit := λ c,
  match st_foldM clean_task true (seq 0 (length (c_tasks c))) c with
  | (Ret allDone, c') => (Ret tt, if allDone : bool then setSyncDone c' else c')
  | (Fail e, c') => (Fail e, c')
  | (Panic p, c') => (Panic p, c')
  end.

(** ** Peers *)

Definition getMinPeersPerShard (maxPeers shardCount : Z) : gores Z :=
  if shardCount =? 0 then Panic DivideByZero
  else mret (Z.max (Z.quot (maxPeers + shardCount - 1) shardCount) defaultMinPeersPerShard).

Definition IsShardExist (p : Peer) (contract : bytes) (shardId : Z) : bool :=
  match p_shards p !! contract with
  | Some ids => bool_decide (shardId ∈ ids)
  | None => false
  end.

(** The (contract, shard) pairs a peer announces. *)
Definition announced (m : gmap bytes (list Z)) : list (bytes * Z) :=
  '(contract, shards) ← map_to_list m; pair contract <$> shards.

Definition serves (t : task) (x : bytes * Z) : bool :=
  bool_decide (t_Contract t = x.1) && (t_ShardId t =? x.2).

Definition needThisPeer c (contractShards : option (gmap bytes (list Z))) : bool :=
  match contractShards with
  | None => false
  | Some m =>
      existsb (λ x, existsb (λ t, serves t x &&
          ((Z.of_nat (size (c_peers c)) <? c_maxPeers c) ||
           (PeerCount (t_state t) <? c_minPeersPerShard c))) (c_tasks c)) (announced m)
  end.

Definition count_peer (n : Z) (m : gmap bytes (list Z)) (tasks : list task) : list task :=
  foldl (λ ts x, (λ t, if serves t x then set_state t (add_PeerCount n (t_state t)) else t) <$> ts)
    tasks (announced m).

Definition addPeerToTask c (m : gmap bytes (list Z)) : SyncClient S :=
  set_tasks c (count_peer 1 m (c_tasks c)).
Definition removePeerFromTask c (m : gmap bytes (list Z)) : SyncClient S :=
  set_tasks c (count_peer (-1) m (c_tasks c)).

Definition AddPeer (id : Z) (shards : option (gmap bytes (list Z))) c : bool * SyncClient S :=
  match c_peers c !! id with
  | Some _ => (true, c)
  | None =>
      if c_closingPeers c then (false, c)
      else if negb (needThisPeer c shards) then (false, c)
      else
        let m := default ∅ shards in
        (true, addPeerToTask (set_peers c (<[id := mkPeer id m]> (c_peers c))
                                ({[id]} ∪ c_idlerPeers c)) m)
  end.

Definition RemovePeer (id : Z) c : bool * SyncClient S :=
  match c_peers c !! id with
  | None => (false, c)
  | Some pr =>
      let c := removePeerFromTask (set_peers c (delete id (c_peers c)) (c_idlerPeers c)) (p_shards pr) in
      let c := set_peers c (c_peers c) (c_idlerPeers c ∖ {[id]}) in
      (true, set_tasks c ((λ t, set_stateless t (t_statelessPeers t ∖ {[id]})) <$> c_tasks c))
  end.

(** [prio] lists the peers by decreasing capacity of their trackers. *)
Definition getIdlePeerForTask (prio : list Z) (t : task) c : option Peer :=
  (list_find (λ id, id ∈ c_idlerPeers c ∧ ¬ id ∈ t_statelessPeers t ∧
                    Is_true (match c_peers c !! id with
                             | Some p => IsShardExist p (t_Contract t) (t_ShardId t)
                             | None => false
                             end)) prio) ≫= (λ x, c_peers c !! x.2).

(** The answer to a request of peer [id] has come in. *)
Definition peer_idle (id : Z) c : SyncClient S :=
  match c_peers c !! id with
  | Some _ => set_peers c (c_peers c) ({[id]} ∪ c_idlerPeers c)
  | None => c
  end.

Definition mark_stateless (id : Z) (ti : nat) c : SyncClient S :=
  match c_peers c !! id with
  | Some _ => on_task c ti (λ t, set_stateless t ({[id]} ∪ t_statelessPeers t))
  | None => c
  end.

(** ** Assignment of work *)

Definition lookup_kvSize c (contract : bytes) : gores Z :=
  match c_kvSizes c !! contract with Some n => mret n | None => Panic NilPointer end.

(** One turn of the inner loop of [assignBlobRangeTasks]: [None] when no peer is
    idle.  [rnd] is the random request id. *)
Definition assign_sub (ti : nat) (maxRange subTaskCount : Z) (prio : list Z) (rnd : Z)
    : ST (SyncClient S) (option (list blobsByRangeRequest)) :=
  c ← st_get;
  t ← st_lift (task_at c ti);
  match getIdlePeerForTask prio t c with
  | None => mret None
  | Some pr =>
      nextIdx ← st_lift (umod (t_nextIdx t) subTaskCount);
      a ← st_lift (index (t_SubTasks t) nextIdx);
      st ← st_lift (sub_at c a);
      let c := on_task c ti (λ t, set_nextIdx t (nextIdx + 1)) in
      if st_done st || st_isRunning st then _ ← st_put c; mret (Some [])
      else
        let last := Z.min (add64 (st_next st) maxRange) (st_Last st) in
        _ ← st_put (set_subs (set_peers c (c_peers c) (c_idlerPeers c ∖ {[p_id pr]}))
                      (<[a := set_isRunning true st]> (c_subs c)));
        mret (Some [mkRangeRequest (p_id pr) rnd (t_Contract t) (t_ShardId t) (st_next st)
                      (sub64 last 1) a])
  end.

Fixpoint assign_subs (ti : nat) (maxRange subTaskCount : Z) (prio : nat → list Z) (rnd : nat → Z)
    (idxs : list nat) : ST (SyncClient S) (list blobsByRangeRequest) :=
  match idxs with
  | [] => mret []
  | idx :: idxs =>
      r ← assign_sub ti maxRange subTaskCount (prio idx) (rnd idx);
      match r with
      | None => mret []
      | Some reqs =>
          rest ← assign_subs ti maxRange subTaskCount prio rnd idxs; mret (reqs ++ rest)
      end
  end.

(** [prio ti idx] and [rnd ti idx] are the peers by capacity and the random
    number at turn [idx] for task [ti]; the result are the requests sent. *)
Definition assignBlobRangeTasks (prio : nat → nat → list Z) (rnd : nat → nat → Z)
    : ST (SyncClient S) (list blobsByRangeRequest) := λ c,
  if bool_decide (c_idlerPeers c = ∅) then (Ret [], c)
  else
    st_foldM (λ reqs ti,
      c ← st_get;
      t ← st_lift (task_at c ti);
      kvSize ← st_lift (lookup_kvSize c (t_Contract t));
      q ← st_lift (udiv maxRequestSize kvSize);
      let n := length (t_SubTasks t) in
      new ← assign_subs ti (mul64 q 2) (Z.of_nat n) (prio ti) (rnd ti) (seq 0 n);
      mret (reqs ++ new)) [] (seq 0 (length (c_tasks c))) c.

(** One turn of the loop of [assignBlobHealTasks] once a peer is idle; [order]
    is the order in which the heal indexes are visited, [now] the time in
    milliseconds. *)
Definition assign_heal (ti : nat) (t : task) (batch : Z) (prio : list Z) (order : list (Z * Z))
    (now rnd : Z) : ST (SyncClient S) (list blobsByListRequest) :=
  c ← st_get;
  let indexes := getBlobIndexesForRequest now batch order [] in
  if bool_decide (indexes = []) then mret []
  else
    match getIdlePeerForTask prio t c with
    | None => mret []
    | Some pr =>
        _ ← st_put (on_task (set_peers c (c_peers c) (c_idlerPeers c ∖ {[p_id pr]})) ti
                      (λ t, set_heal t (heal_refresh now (t_heal t) indexes)));
        mret [mkListRequest (p_id pr) rnd (t_Contract t) (t_ShardId t) indexes ti]
    end.

Fixpoint assign_heals (prio : nat → list Z) (order : nat → list (Z * Z)) (now : Z) (rnd : nat → Z)
    (tis : list nat) : ST (SyncClient S) (list blobsByListRequest) :=
  match tis with
  | [] => mret []
  | ti :: tis =>
      c ← st_get;
      t ← st_lift (task_at c ti);
      kvSize ← st_lift (lookup_kvSize c (t_Contract t));
      q ← st_lift (udiv maxRequestSize kvSize);
      if bool_decide (c_idlerPeers c = ∅) then mret []
      else
        new ← assign_heal ti t (mul64 q 2) (prio ti) (order ti) now (rnd ti);
        rest ← assign_heals prio order now rnd tis; mret (new ++ rest)
  end.

Definition assignBlobHealTasks (prio : nat → list Z) (order : nat → list (Z * Z)) (now : Z)
    (rnd : nat → Z) : ST (SyncClient S) (list blobsByListRequest) := λ c,
  if bool_decide (c_idlerPeers c = ∅) then (Ret [], c)
  else assign_heals prio order now rnd (seq 0 (length (c_tasks c))) c.

(** The loop over all empty sub tasks: it starts a goroutine that fills
    [[start, limit]] for each entry of the result. *)
Fixpoint assign_fill (l : list Z) : ST (SyncClient S) (list (Z * Z * Z)) :=
  match l with
  | [] => mret []
  | a :: l =>
      c ← st_get;
      if c_closingPeers c then mret []
      else if c_treads c <=? c_running c then mret []
      else
        se ← st_lift (empty_at c a);
        if se_isRunning se || se_done se then assign_fill l
        else
          let start := se_First se in
          let last := if add64 start minSubTaskSize <? se_Last se then add64 start minSubTaskSize
                      else se_Last se in
          _ ← st_put (set_running (set_empties c
                 (<[a := mkSubEmptyTask (se_task se) (se_First se) (se_Last se) true (se_done se)]>
                    (c_empties c))) (c_running c + 1));
          rest ← assign_fill l; mret ((a, start, sub64 last 1) :: rest)
  end.

Definition assignFillEmptyBlobTasks : ST (SyncClient S) (list (Z * Z * Z)) := λ c,
  assign_fill (c_tasks c ≫= t_SubEmptyTasks) c.

(** ** Answers of peers *)

(** [KZGProver.GetRoot] (prover/kzg_prover.go). *)
Definition GetRoot `{Geth} (data : bytes) : gores bytes :=
  if bool_decide (data = []) then mret (zeros 32)
  else if negb (zlen data =? blob_size) then Fail (ErrMsg "invalid blob size")
  else
    match BlobVersionedHash data with
    | Ret versionedHash => mret (BytesToHash versionedHash)
    | Fail _ => Fail (ErrMsg "could not convert blob to commitment")
    | Panic p => Panic p
    end.

Definition decodeKV (s : S) (payload : BlobPayload) : gores (bytes * bool) :=
  match mgr_DecodeKV s (BlobIndex payload) (EncodedBlob payload) (BlobCommit payload)
          (MinerAddress payload) (EncodeType payload) with
  | Ret (Some decodedBlob) => mret (decodedBlob, true)
  | Panic p => Panic p
  | _ => mret ([], false)
  end.

Definition checkBlobCommit `{Geth} (decodedBlob : bytes) (payload : BlobPayload) : gores bool :=
  match GetRoot decodedBlob with
  | Ret root => mret (bool_decide (take 24 root = take 24 (BlobCommit payload)))
  | Fail _ => mret false
  | Panic p => Panic p
  end.

(** The payloads of an answer that decode and match their commit. *)
Definition onResult_check `{Geth} (s : S) (blobs : list BlobPayload)
    : gores (list (Z * bytes * bytes)) :=
  foldM (λ acc payload,
      '(decodedBlob, success) ← decodeKV s payload;
      if negb success then mret acc
      else
        ok ← checkBlobCommit decodedBlob payload;
        if negb ok then mret acc
        else mret (acc ++ [(BlobIndex payload, decodedBlob, BlobCommit payload)])) [] blobs.

Definition onResult `{Geth} (blobs : list BlobPayload) : ST S (list Z) :=
  s ← st_get;
  l ← st_lift (onResult_check s blobs);
  mgr_CommitBlobs l.*1.*1 l.*1.*2 l.*2.

(** The indexes between [next] and the last inserted one that were not inserted. *)
Definition missing_indexes (next last : Z) (inserted : list Z) : gores (list Z) :=
  '(_, missing) ← foldM (λ '(i, missing) n,
      x ← index inserted i;
      if x =? n then mret (i + 1, missing)
      else if n <? x then mret (i, missing ++ [n])
      else mret (i, missing)) (0, []) (seqZ next (last - next + 1));
  mret missing.

(** The part of [OnBlobsByRange] after [onResult]. *)
Definition range_record (req : blobsByRangeRequest) (inserted : list Z)
    : ST (SyncClient S) unit := λ c,
  match sub_at c (rr_subTask req) with
  | Ret st =>
      if bool_decide (inserted = []) then (Ret tt, mark_stateless (rr_peer req) (st_task st) c)
      else
        let inserted := merge_sort Z.le inserted in
        let last := List.last inserted 0 in
        match missing_indexes (st_next st) last inserted with
        | Ret missing =>
            let c := on_task c (st_task st) (λ t,
              set_heal (set_state t (add_BlobsSynced (zlen inserted) (t_state t)))
                (heal_insert (t_heal t) missing)) in
            (Ret tt, set_subs c (<[rr_subTask req :=
               mkSubTask (st_task st) (add64 last 1) (st_First st) (st_Last st) (st_isRunning st)
                 (st_done st || (last =? sub64 (st_Last st) 1))]> (c_subs c)))
        | Fail e => (Fail e, c)
        | Panic p => (Panic p, c)
        end
  | Fail e => (Fail e, c)
  | Panic p => (Panic p, c)
  end.

Definition blobs_in (first last : Z) (blobs : list BlobPayload) : list BlobPayload :=
  filter (λ b, first ≤ BlobIndex b ∧ BlobIndex b ≤ last) blobs.

Definition on_storage {A} (op : ST S A) : ST (SyncClient S) A := λ c,
  let '(r, s) := op (c_storage c) in (r, set_storage c s).

Definition OnBlobsByRange `{Geth} (req : blobsByRangeRequest) (Blobs : list BlobPayload)
    : ST (SyncClient S) unit :=
  let blobsInRange := blobs_in (rr_origin req) (rr_limit req) Blobs in
  if bool_decide (blobsInRange = []) then
    λ c, match sub_at c (rr_subTask req) with
         | Ret st => (Ret tt, mark_stateless (rr_peer req) (st_task st) c)
         | Fail e => (Fail e, c)
         | Panic p => (Panic p, c)
         end
  else
    r ← st_catch (on_storage (onResult blobsInRange));
    match r with
    | inl _ => mret tt
    | inr inserted => range_record req inserted
    end.

(** The part of [OnBlobsByList] after [onResult]. *)
Definition list_record (req : blobsByListRequest) (inserted : list Z) c : SyncClient S :=
  let c := on_task c (lr_task req)
             (λ t, set_state t (add_BlobsSynced (zlen inserted) (t_state t))) in
  let c := if bool_decide (inserted = []) then mark_stateless (lr_peer req) (lr_task req) c else c in
  on_task c (lr_task req) (λ t, set_heal t (heal_remove (t_heal t) inserted)).

Definition list_bounds (s : S) (shardId : Z) : Z * Z :=
  (mul64 (mgr_KvEntries s) shardId, sub64 (mul64 (mgr_KvEntries s) (add64 shardId 1)) 1).

Definition OnBlobsByList `{Geth} (req : blobsByListRequest) (Blobs : list BlobPayload)
    : ST (SyncClient S) unit :=
  c ← st_get;
  let '(startIdx, endIdx) := list_bounds (c_storage c) (lr_shardId req) in
  let blobsInRange := blobs_in startIdx endIdx Blobs in
  if bool_decide (blobsInRange = []) then
    st_put (mark_stateless (lr_peer req) (lr_task req) c)
  else
    r ← st_catch (on_storage (onResult blobsInRange));
    match r with
    | inl _ => mret tt
    | inr inserted => c ← st_get; st_put (list_record req inserted c)
    end.

(** A blob for a given commit from the first peer that has it; [order] is the
    order in which the peers are visited and [ask] their answers. *)
Fixpoint fetch_from `{Geth} (s : S) (ask : Z → gores (list BlobPayload)) (kvIndex : Z)
    (commit : bytes) (order : list Z) : gores bytes :=
  match order with
  | [] => Fail (ErrMsg "fail to fetch blob from peers")
  | p :: order =>
      match ask p with
      | Panic pn => Panic pn
      | Fail _ => fetch_from s ask kvIndex commit order
      | Ret blobs =>
          let fits (val : BlobPayload) : bool :=
            (BlobIndex val =? kvIndex) &&
            match CompareCommits commit (BlobCommit val) with Ret _ => true | _ => false end in
          match last (filter (λ val, Is_true (fits val)) blobs) with
          | None => fetch_from s ask kvIndex commit order
          | Some payload =>
              '(decodedBlob, success) ← decodeKV s payload;
              if negb success then fetch_from s ask kvIndex commit order
              else
                ok ← checkBlobCommit decodedBlob payload;
                if negb ok then fetch_from s ask kvIndex commit order else mret decodedBlob
          end
      end
  end.

Definition FetchBlob `{Geth} c (ask : Z → gores (list BlobPayload)) (order : list Z)
    (kvIndex : Z) (commit : bytes) : gores bytes :=
  if bool_decide (c_peers c = ∅) then Fail (ErrMsg "no peer can be used to send requests")
  else fetch_from (c_storage c) ask kvIndex commit order.

(** ** Empty blobs *)

(** [FillFileWithEmptyBlob] once the number of KV entries has been read. *)
Definition fill_with (kvEntryCnt start limit : Z) : ST S (Z * option error) :=
  if limit <? kvEntryCnt then mret (add64 limit 1, None)
  else
    '(_, next, err) ← mgr_CommitEmptyBlobs (if start <? kvEntryCnt then kvEntryCnt else start) limit;
    mret (next, err).

Definition FillFileWithEmptyBlob (start limit : Z) : ST S (Z * option error) :=
  s ← st_get; fill_with (mgr_KvEntryCount s) start limit.

(** The end of a filling goroutine that started at [start] and got to [next]. *)
Definition fill_finish (a start next : Z) : ST (SyncClient S) unit :=
  c ← st_get;
  se ← st_lift (empty_at c a);
  let c := on_task c (se_task se)
             (λ t, set_state t (add_EmptyFilled (sub64 next start) (t_state t))) in
  st_put (set_running (set_empties c
    (<[a := mkSubEmptyTask (se_task se) next (se_Last se) false
              (se_done se || (se_Last se <=? next))]> (c_empties c))) (c_running c - 1)).

(** ** The saved state *)

Definition save_task c (t : task) : gores savedTask :=
  subs ← go_map (λ a, st ← sub_at c a; mret (sub_range st)) (t_SubTasks t);
  empties ← go_map (λ a, se ← empty_at c a; mret (empty_range se)) (t_SubEmptyTasks t);
  mret (mkSavedTask (t_Contract t) (t_ShardId t) subs empties).

(** [putTasks] and [putStates]: whether the database takes the two records;
    a failure is only logged. *)
Definition saveSyncStatus (putTasks putStates : bool) : ST (SyncClient S) unit :=
  c ← st_get;
  saved ← st_lift (go_map (save_task c) (c_tasks c));
  let states : gmap Z SyncState :=
    foldl (λ m t, <[t_ShardId t := t_state t]> m) ∅ (c_tasks c) in
  st_put (set_db c (if putTasks then Some (mkSavedProgress saved 0 0 0) else c_dbTasks c)
            (if putStates then Some states else c_dbStates c)).

(** The state a reloaded task starts with. *)
Definition reload_state (progress : savedProgress) (states : option (gmap Z SyncState)) (sid : Z)
    : SyncState :=
  match states ≫= lookup sid with
  | Some st => mkSyncState 0 (BlobsSynced st) (BlobsToSync st) (SyncProgress st) (SyncedSeconds st)
                 (EmptyFilled st) (EmptyToFill st) (FillEmptyProgress st) (FillEmptySeconds st)
  | None => mkSyncState 0 (sp_BlobsSynced progress) 0 0 (sp_TotalSecondsUsed progress)
              (sp_EmptyBlobsFilled progress) 0 0 (sp_TotalSecondsUsed progress)
  end.

(** A saved task becomes a task again: only the ranges survive. *)
Definition reload_task (ti : nat) (a e : Z) (sv : savedTask) (state : SyncState)
    : task * list subTask * list subEmptyTask :=
  (mkTask (sv_Contract sv) (sv_ShardId sv) (seqZ a (zlen (sv_SubTasks sv))) 0 ∅
     (seqZ e (zlen (sv_SubEmptyTasks sv))) ∅ state false,
   (λ '(f, l), mkSubTask ti f f l false false) <$> sv_SubTasks sv,
   (λ '(f, l), mkSubEmptyTask ti f l false false) <$> sv_SubEmptyTasks sv).

(** The tasks to set up for a shard: its saved ones, or else a new one. *)
Definition plan_shard (contract : bytes) (progress : savedProgress) (sid : Z)
    : list (Z * option savedTask) :=
  match filter (λ sv, sv_Contract sv = contract ∧ sv_ShardId sv = sid) (sp_Tasks progress) with
  | [] => [(sid, None)]
  | l => (λ sv, (sid, Some sv)) <$> l
  end.

Definition store_at {A} (a : Z) (l : list A) (m : gmap Z A) : gmap Z A :=
  m ∪ map_seqZ a l.

(** Appends a task and its sub tasks, which take the next free addresses; the
    addresses in use are those below the sizes of the stores. *)
Definition install (progress : savedProgress) (lastKvIndex : Z) (c : SyncClient S)
    (x : Z * option savedTask) : gores (SyncClient S) :=
  let ti := length (c_tasks c) in
  let a := Z.of_nat (size (c_subs c)) in
  let e := Z.of_nat (size (c_empties c)) in
  '(t, subs, empties) ←
    match x.2 with
    | Some sv => mret (reload_task ti a e sv (reload_state progress (c_dbStates c) x.1))
    | None => createTask (c_params c) (c_treads c) (mgr_ContractAddress (c_storage c))
                (mgr_KvEntries (c_storage c)) ti a e x.1 lastKvIndex
    end;
  mret (set_work c (c_tasks c ++ [t]) (store_at a subs (c_subs c)) (store_at e empties (c_empties c))).

Definition by_shard (x y : Z * option savedTask) : Prop := x.1 ≤ y.1.
#[local] Instance by_shard_dec x y : Decision (by_shard x y) := Z_le_dec x.1 y.1.

(** Sorting the tasks by shard is done before the tasks get their places. *)
Definition loadSyncStatus : ST (SyncClient S) unit := λ c,
  let progress := default (mkSavedProgress [] 0 0 0) (c_dbTasks c) in
  let plans := merge_sort by_shard
    (mgr_Shards (c_storage c) ≫= plan_shard (mgr_ContractAddress (c_storage c)) progress) in
  match foldM (install progress (mgr_KvEntryCount (c_storage c))) c plans with
  | Ret c' => (Ret tt, c')
  | Fail e => (Fail e, c)
  | Panic p => (Panic p, c)
  end.

(** ** Reports *)

Definition reportSyncState (duration : Z) : ST (SyncClient S) unit := λ c,
  match go_map (λ t,
      subs ← go_map (sub_at c) (t_SubTasks t);
      let blobsToSync := add64 (foldl (λ n st, add64 n (sub64 (st_Last st) (st_next st))) 0 subs)
                           (heal_count (t_heal t)) in
      let st := t_state t in
      let total := add64 (BlobsSynced st) blobsToSync in
      mret (set_state t (mkSyncState (PeerCount st) (BlobsSynced st) blobsToSync
        (if negb (total =? 0) then mul64 (BlobsSynced st) 10000 / total else 10000)
        (if negb (blobsToSync =? 0) then add64 (SyncedSeconds st) duration else SyncedSeconds st)
        (EmptyFilled st) (EmptyToFill st) (FillEmptyProgress st) (FillEmptySeconds st))))
    (c_tasks c) with
  | Ret ts => (Ret tt, set_tasks c ts)
  | Fail e => (Fail e, c)
  | Panic p => (Panic p, c)
  end.

Definition reportFillEmptyState (duration : Z) : ST (SyncClient S) unit := λ c,
  match go_map (λ t,
      let st := t_state t in
      if (EmptyFilled st =? 0) && bool_decide (t_SubEmptyTasks t = [])
      then mret (set_state t (mkSyncState (PeerCount st) (BlobsSynced st) (BlobsToSync st)
             (SyncProgress st) (SyncedSeconds st) (EmptyFilled st) (EmptyToFill st) 10000
             (FillEmptySeconds st)))
      else
        empties ← go_map (empty_at c) (t_SubEmptyTasks t);
        let emptyToFill := foldl (λ n se, add64 n (sub64 (se_Last se) (se_First se))) 0 empties in
        let total := add64 (EmptyFilled st) emptyToFill in
        mret (set_state t (mkSyncState (PeerCount st) (BlobsSynced st) (BlobsToSync st)
          (SyncProgress st) (SyncedSeconds st) (EmptyFilled st) emptyToFill
          (if negb (total =? 0) then mul64 (EmptyFilled st) 10000 / total else FillEmptyProgress st)
          (if negb (emptyToFill =? 0) then add64 (FillEmptySeconds st) duration
           else FillEmptySeconds st))))
    (c_tasks c) with
  | Ret ts => (Ret tt, set_tasks c ts)
  | Fail e => (Fail e, c)
  | Panic p => (Panic p, c)
  end.

(** [duration] is the time since the last report in seconds. *)
Definition report (force : bool) (duration : Z) : ST (SyncClient S) unit :=
  if negb force && (duration <? 8) then mret tt
  else _ ← reportSyncState duration; reportFillEmptyState duration.

(** The client once [Close] has stopped its goroutines. *)
Definition Close (duration : Z) (putTasks putStates : bool) : ST (SyncClient S) unit :=
  c ← st_get;
  _ ← st_put (set_flags c true (c_syncDone c) (c_running c) (c_mux c));
  _ ← cleanTasks;
  _ ← report true duration;
  saveSyncStatus putTasks putStates.

(** ** Start *)

(** [numCPU] is [runtime.NumCPU()] and [treads] the value of
    [maxFillEmptyTaskTreads] before the call. *)
Definition NewSyncClient (params : SyncerParams) (numCPU treads : Z)
    (mux : option (list EthStorageSyncDone)) (dbTasks : option savedProgress)
    (dbStates : option (gmap Z SyncState)) (kvSizes : gmap bytes Z) (s : S)
    : gores (SyncClient S) :=
  let treads := if 0 <? FillEmptyConcurrency params then FillEmptyConcurrency params
                else if 2 <? numCPU then numCPU - 2 else treads in
  _ ← udiv (InitRequestSize params) (mgr_MaxKvSize s);
  minPeersPerShard ← getMinPeersPerShard (MaxPeers params) (zlen (mgr_Shards s));
  mret (mkSyncClient [] ∅ ∅ false false ∅ ∅ 0 mux dbTasks dbStates (MaxPeers params) minPeersPerShard
          params treads kvSizes s).

Definition Start : ST (SyncClient S) unit :=
  _ ← loadSyncStatus;
  c ← st_get;
  st_put (set_flags c false (c_syncDone c) (c_running c) (c_mux c)).

(** ** Requests by hand *)

(** [order] is the order in which the peers are visited, [ask] what a peer
    answers; only the first one is asked. *)
Definition RequestL2Range `{Geth} (ask : Z → gores (list BlobPayload)) (order : list Z) (start : Z)
    : ST (SyncClient S) Z :=
  match order with
  | [] => st_lift (Fail (ErrMsg "no peer can be used to send requests"))
  | pr :: _ =>
      c ← st_get;
      _ ← st_lift (udiv start (mgr_KvEntries (c_storage c)));
      blobs ← st_lift (ask pr);
      inserted ← on_storage (onResult blobs);
      mret (zlen inserted)
  end.

(** The result is the id of the request. *)
Definition RequestL2List `{Geth} (ask : Z → gores (list BlobPayload)) (order : list Z) (id : Z)
    (indexes : list Z) : ST (SyncClient S) Z :=
  match indexes with
  | [] => mret 0
  | i :: _ =>
      match order with
      | [] => st_lift (Fail (ErrMsg "no peer can be used to send requests"))
      | pr :: _ =>
          c ← st_get;
          _ ← st_lift (udiv i (mgr_KvEntries (c_storage c)));
          blobs ← st_lift (ask pr);
          _ ← on_storage (onResult blobs);
          mret id
      end
  end.

Definition Peers c : list Z := (map_to_list (c_peers c)).*1.

End client.

(** ** Answers that are not what was asked for *)

Lemma CompareCommits_take a b : CompareCommits a b = Ret tt → take 24 a = take 24 b.
Proof. rw /CompareCommits. destruct (_ <? _); [done|]. destruct (_ <? _); [done|]. by case_decide. Qed.

Lemma fetch_from_sound `{Geth} {S : Type} `{SyncStorage S} (s : S) ask k commit order blob :
  fetch_from s ask k commit order = Ret blob →
  ∃ root, GetRoot blob = Ret root ∧ take 24 root = take 24 commit.
Proof.
  induction order as [|p order IH]; cbn [fetch_from]; [done|].
  destruct (ask p) as [blobs| |]; [|exact IH|done].
  destruct (last _) as [payload|] eqn:El; [|exact IH].
  destruct (decodeKV s payload) as [[decoded success]| |]; cbn [mbind gores_bind]; [|done..].
  destruct success; cbn [negb]; [|exact IH]. rw /checkBlobCommit.
  destruct (GetRoot decoded) as [root| |] eqn:Er; cbn [mbind gores_bind]; [|exact IH|done].
  case_bool_decide as Hroot; cbn [negb]; [|exact IH]. intros [= <-]. exists root. split; [done|].
  rw Hroot. apply last_Some_elem_of, list_elem_of_filter in El as [Hfit _].
  apply Is_true_true, andb_true_iff in Hfit as [_ Hfit].
  destruct (CompareCommits commit (BlobCommit payload)) as [[]| |] eqn:Ec; [|done..].
  by apply CompareCommits_take in Ec.
Qed.

(** C19: whatever the peers answer, a blob that [FetchBlob] returns has the asked
    commit: its versioned hash agrees with it in the 24 bytes the contract keeps. *)
Theorem FetchBlob_sound `{Geth} {S : Type} `{SyncStorage S} (c : SyncClient S) ask order k commit blob :
  FetchBlob c ask order k commit = Ret blob →
  ∃ root, GetRoot blob = Ret root ∧ take 24 root = take 24 commit.
Proof. rw /FetchBlob. case_bool_decide; [done|]. apply fetch_from_sound. Qed.

(** A peer that answers a range request with one blob twice makes the client
    forget a KV: when the storage takes [n], [n] and [n + 2], the sub task goes on
    behind [n + 2] while [n + 1] is neither stored nor queued for healing. *)
Theorem OnBlobsByRange_duplicate_skips `{Geth} {S : Type} `{SyncStorage S} req blobs (c c1 : SyncClient S) st t n :
  0 ≤ n → n + 3 < two64 →
  blobs_in (rr_origin req) (rr_limit req) blobs ≠ [] →
  on_storage (onResult (blobs_in (rr_origin req) (rr_limit req) blobs)) c = (Ret [n; n; n + 2], c1) →
  c_subs c !! rr_subTask req = Some st → c_tasks c !! st_task st = Some t →
  st_next st = n → n + 1 ∉ dom (t_heal t) →
  ∃ c' st' t', OnBlobsByRange req blobs c = (Ret tt, c') ∧
    c_subs c' !! rr_subTask req = Some st' ∧ st_next st' = n + 3 ∧
    c_tasks c' !! st_task st' = Some t' ∧ n + 1 ∉ dom (t_heal t').
Proof.
  intros Hn Hb Hne Hins Hst Ht Hnext Hheal. rw /OnBlobsByRange bool_decide_eq_false_2 //.
  rw /mbind /st_bind /st_catch Hins.
  have Ec : c_subs c1 = c_subs c ∧ c_tasks c1 = c_tasks c.
  { move: Hins. rw /on_storage. destruct (onResult _ _) as [r s]. by intros [= _ <-]. }
  destruct Ec as [E1 E2]. rw /range_record /sub_at E1 Hst. cbn [bool_decide].
  have Hs : merge_sort Z.le [n; n; n + 2] = [n; n; n + 2].
  { apply (StronglySorted_unique Z.le); [apply StronglySorted_merge_sort; apply _| |
      by rw merge_sort_Permutation].
    repeat constructor; lia. }
  rw bool_decide_eq_false_2 // Hs. cbn [List.last]. rw Hnext.
  have -> : missing_indexes n (n + 2) [n; n; n + 2] = Ret [].
  { rw /missing_indexes. have -> : n + 2 - n + 1 = 3 by lia.
    have -> : seqZ n 3 = [n; n + 1; n + 2].
    { rw /seqZ. change (seq 0 (Z.to_nat 3)) with [0; 1; 2]%nat. simpl.
      by rw (Z.add_comm 1 n) (Z.add_comm 2 n). }
    have I0 : index [n; n; n + 2] 0 = Ret n by done.
    have I1 : index [n; n; n + 2] (0 + 1) = Ret n by done.
    rw foldM_cons I0. cbn [mbind gores_bind]. rw Z.eqb_refl. cbn [mret gores_ret mbind gores_bind].
    rw foldM_cons I1. cbn [mbind gores_bind].
    rw (proj2 (Z.eqb_neq n (n + 1))); [lia|]. rw (proj2 (Z.ltb_ge (n + 1) n)); [lia|].
    cbn [mret gores_ret mbind gores_bind].
    rw foldM_cons I1. cbn [mbind gores_bind].
    by rw (proj2 (Z.eqb_neq n (n + 2))); [lia|]; rw (proj2 (Z.ltb_ge (n + 2) n)); [lia|]. }
  eexists _, _, _. split; [done|]. simpl. rw lookup_insert_eq. split; [done|]. simpl.
  split; [rw /add64 wrap64_small //; lia|].
  rw list_lookup_alter_eq E2 Ht. split; [done|]. done.
Qed.

(** A storage that takes every blob. *)
#[local] Instance toy_storage : SyncStorage unit := {|
  mgr_KvEntries _ := 64;
  mgr_ContractAddress _ := zeros 20;
  mgr_Shards _ := [0];
  mgr_MaxKvSize _ := 128;
  mgr_KvEntryCount _ := 64;
  mgr_DecodeKV _ _ b _ _ _ := Ret (Some b);
  mgr_CommitBlobs ks _ _ s := (Ret ks, s);
  mgr_CommitEmptyBlobs start limit s := (Ret (0, limit + 1, None), s) |}.

Definition toy_client : SyncClient unit :=
  mkSyncClient [mkTask (zeros 20) 0 [0] 0 ∅ [] ∅ zero_state false] {[0 := mkSubTask 0 5 0 64 true false]}
    ∅ false false {[1 := mkPeer 1 ∅; 2 := mkPeer 2 ∅]} ∅ 0 None None None 4 1
    (mkSyncerParams 4 1 1 1 1) 1 ∅ tt.

(** A whole blob; peer 1 sends one with another commit, peer 2 the one asked for. *)
Definition toy_blob : bytes := replicate (Z.to_nat blob_size) 7.
Definition toy_commit : bytes := toy_hash (take 64 toy_blob).
Definition toy_answers (p : Z) : gores (list BlobPayload) :=
  Ret [mkBlobPayload (zeros 20) 3 (if p =? 1 then zeros 32 else toy_commit) 0 toy_blob].

Lemma FetchBlob_sound_witness :
  FetchBlob toy_client toy_answers [1; 2] 3 toy_commit = Ret toy_blob ∧
  ∃ root, GetRoot toy_blob = Ret root ∧ take 24 root = take 24 toy_commit.
Proof.
  have E : FetchBlob toy_client toy_answers [1; 2] 3 toy_commit = Ret toy_blob.
  { have H : match FetchBlob toy_client toy_answers [1; 2] 3 toy_commit with
             | Ret e => bool_decide (e = toy_blob) | _ => false end = true by vm_compute.
    destruct (FetchBlob _ _ _ _ _) as [e| |]; [|done..]. by apply bool_decide_eq_true_1 in H as ->. }
  split; [exact E|]. exact (FetchBlob_sound _ _ _ _ _ _ E).
Defined.

Lemma OnBlobsByRange_duplicate_skips_witness :
  let blob i := mkBlobPayload (zeros 20) i (zeros 32) 0 [] in
  let req := mkRangeRequest 1 9 (zeros 20) 0 5 20 0 in
  ∃ c' st' t', OnBlobsByRange req [blob 5; blob 5; blob 7] toy_client = (Ret tt, c') ∧
    c_subs c' !! 0 = Some st' ∧ st_next st' = 8 ∧
    c_tasks c' !! st_task st' = Some t' ∧ 6 ∉ dom (t_heal t').
Proof.
  intros blob req.
  apply (OnBlobsByRange_duplicate_skips req [blob 5; blob 5; blob 7] toy_client toy_client
    (mkSubTask 0 5 0 64 true false) (mkTask (zeros 20) 0 [0] 0 ∅ [] ∅ zero_state false) 5); try done.
Defined.
