(* ===== verification/SyncRun.v ===== *)
(** * Runs of the sync client

    The goroutines of syncclient.go as a step relation: every critical section
    and every storage operation is one step, so that requests, answers, the main
    loop, peers that come and go, saves, restarts and the storage manager's other
    users interleave in every order.  The invariant is that no KV of a shard is
    ever forgotten: it is filled, queued for healing, or in the open part of a
    sub task -- unless a peer names a KV twice in one answer, which makes the
    client forget the KVs of that request.  Hence what the client has filled when
    it announces that the sync is done.

    The client is proved against [SyncStorageLaws], what the storage manager
    promises; SyncStorageManager.v discharges it. *)

From S2P Require Import Prelude Extern ChunkCodec SyncTask SyncClient.

Section laws.
Context {S : Type} `{SyncStorage S}.

(** The storage changes only so that filled KVs stay filled. *)
Record evolves_with (ok : S → Prop) (filled : S → Z → Prop) (s s' : S) : Prop := {
  ev_ok : ok s';
  ev_KvEntries : mgr_KvEntries s' = mgr_KvEntries s;
  ev_Contract : mgr_ContractAddress s' = mgr_ContractAddress s;
  ev_Shards : mgr_Shards s' = mgr_Shards s;
  ev_filled k : filled s k → filled s' k
}.
End laws.

(** [mgr_ok] is the storage's invariant, [mgr_filled s k] says that KV [k] holds
    its data, and [mgr_data s k] that the local view of the contract has data for
    KV [k]. *)
Class SyncStorageLaws (S : Type) `{SyncStorage S} := {
  mgr_ok : S → Prop;
  mgr_filled : S → Z → Prop;
  mgr_data : S → Z → Prop;
  mgr_geometry s : mgr_ok s → 0 < mgr_KvEntries s ∧
    ∀ sid, sid ∈ mgr_Shards s → 0 ≤ sid ∧ mgr_KvEntries s * (sid + 1) < two63;
  mgr_count s : mgr_ok s → 0 ≤ mgr_KvEntryCount s;
  mgr_data_count s k : 0 ≤ k < mgr_KvEntryCount s → mgr_data s k;
  CommitBlobs_law s ks bs cs r s' :
    mgr_ok s → Forall (λ c, length c = 32%nat) cs →
    mgr_CommitBlobs ks bs cs s = (r, s') →
    evolves_with mgr_ok mgr_filled s s' ∧
    ∀ ins, r = Ret ins → ins `sublist_of` ks ∧ ∀ k, k ∈ ins → mgr_filled s' k;
  CommitEmptyBlobs_law s start limit r s' :
    mgr_ok s → 0 ≤ start ≤ limit + 1 → limit + 1 < two63 →
    mgr_CommitEmptyBlobs start limit s = (r, s') →
    evolves_with mgr_ok mgr_filled s s' ∧
    ∀ ins next err, r = Ret (ins, next, err) →
      start ≤ next ≤ limit + 1 ∧ ∀ k, start ≤ k < next → mgr_filled s' k ∨ mgr_data s k }.

(** What a goroutine has still to do. *)
Inductive goroutine :=
| RangeSent (req : blobsByRangeRequest)
| RangeGot (req : blobsByRangeRequest) (blobs : list BlobPayload)
| RangeIn (req : blobsByRangeRequest) (inserted : list Z)
| RangeEnd (a : Z)
| ListSent (req : blobsByListRequest)
| ListGot (req : blobsByListRequest) (blobs : list BlobPayload)
| ListIn (req : blobsByListRequest) (inserted : list Z)
| FillStart (a start limit : Z)
| FillRead (a start limit kvEntryCnt : Z)
| FillDone (a start next : Z)
| Finished.

Section run.
Context {S : Type} `{SyncStorageLaws S} `{Geth}.

(** A run: the client, its goroutines, and the trace of the goroutines' steps, each
    with the storage it started from and what the goroutine had still to do after
    it (kept for the statements only). *)
Definition trace : Type := list (S * goroutine).
Record run := mkRun { y_client : SyncClient S; y_gs : list goroutine; y_seen : trace }.

Definition evolves : S → S → Prop := evolves_with mgr_ok mgr_filled.

(** [BlobCommit] is a [common.Hash], an array of 32 bytes. *)
Definition hash_commits (blobs : list BlobPayload) : Prop :=
  Forall (λ b, length (BlobCommit b) = 32%nat) blobs.

(** The client of a new process: only the database, the parameters and the
    storage survive. *)
Definition fresh_client (c : SyncClient S) : SyncClient S :=
  mkSyncClient [] ∅ ∅ false false ∅ ∅ 0 (c_mux c) (c_dbTasks c) (c_dbStates c) (c_maxPeers c)
    (c_minPeersPerShard c) (c_params c) (c_treads c) (c_kvSizes c) (c_storage c).

(** Goroutine number [i] of a client goes from [g] to [g'], and the client with it. *)
Inductive gstep : SyncClient S → goroutine → SyncClient S → goroutine → Prop :=
| g_range_fail c req :
    gstep c (RangeSent req) (peer_idle (rr_peer req) c) (RangeEnd (rr_subTask req))
| g_range_got c req pk :
    pk_ID pk = rr_id req → pk_Contract pk = rr_contract req → pk_ShardId pk = rr_shardId req →
    hash_commits (pk_Blobs pk) →
    gstep c (RangeSent req) (peer_idle (rr_peer req) c) (RangeGot req (pk_Blobs pk))
| g_range_reject c req blobs st :
    blobs_in (rr_origin req) (rr_limit req) blobs = [] → sub_at c (rr_subTask req) = Ret st →
    gstep c (RangeGot req blobs) (mark_stateless (rr_peer req) (st_task st) c)
      (RangeEnd (rr_subTask req))
| g_range_store c req blobs c' ins :
    blobs_in (rr_origin req) (rr_limit req) blobs ≠ [] →
    on_storage (onResult (blobs_in (rr_origin req) (rr_limit req) blobs)) c = (Ret ins, c') →
    gstep c (RangeGot req blobs) c' (RangeIn req ins)
| g_range_error c req blobs c' e :
    blobs_in (rr_origin req) (rr_limit req) blobs ≠ [] →
    on_storage (onResult (blobs_in (rr_origin req) (rr_limit req) blobs)) c = (Fail e, c') →
    gstep c (RangeGot req blobs) c' (RangeEnd (rr_subTask req))
| g_range_record c req ins c' :
    range_record req ins c = (Ret tt, c') →
    gstep c (RangeIn req ins) c' (RangeEnd (rr_subTask req))
| g_range_end c a st :
    sub_at c a = Ret st →
    gstep c (RangeEnd a) (set_subs c (<[a := set_isRunning false st]> (c_subs c))) Finished
| g_list_fail c req :
    gstep c (ListSent req) (peer_idle (lr_peer req) c) Finished
| g_list_got c req pk :
    pk_ID pk = lr_id req → pk_Contract pk = lr_contract req → pk_ShardId pk = lr_shardId req →
    hash_commits (pk_Blobs pk) →
    gstep c (ListSent req) (peer_idle (lr_peer req) c) (ListGot req (pk_Blobs pk))
| g_list_reject c req blobs b :
    b = list_bounds (c_storage c) (lr_shardId req) → blobs_in b.1 b.2 blobs = [] →
    gstep c (ListGot req blobs) (mark_stateless (lr_peer req) (lr_task req) c) Finished
| g_list_store c req blobs b c' ins :
    b = list_bounds (c_storage c) (lr_shardId req) → blobs_in b.1 b.2 blobs ≠ [] →
    on_storage (onResult (blobs_in b.1 b.2 blobs)) c = (Ret ins, c') →
    gstep c (ListGot req blobs) c' (ListIn req ins)
| g_list_error c req blobs b c' e :
    b = list_bounds (c_storage c) (lr_shardId req) → blobs_in b.1 b.2 blobs ≠ [] →
    on_storage (onResult (blobs_in b.1 b.2 blobs)) c = (Fail e, c') →
    gstep c (ListGot req blobs) c' Finished
| g_list_record c req ins :
    gstep c (ListIn req ins) (list_record req ins c) Finished
| g_fill_read c a start limit :
    gstep c (FillStart a start limit) c (FillRead a start limit (mgr_KvEntryCount (c_storage c)))
| g_fill_commit c a start limit cnt next err c' :
    on_storage (fill_with cnt start limit) c = (Ret (next, err), c') →
    gstep c (FillRead a start limit cnt) c' (FillDone a start next)
| g_fill_finish c a start next c' :
    fill_finish a start next c = (Ret tt, c') →
    gstep c (FillDone a start next) c' Finished.

(** The critical sections of the other goroutines: the client after them and the
    goroutines they start. *)
Inductive cstep : SyncClient S → SyncClient S → list goroutine → Prop :=
| c_clean c c' : cleanTasks c = (Ret tt, c') → cstep c c' []
| c_assign_range prio rnd c reqs c' :
    assignBlobRangeTasks prio rnd c = (Ret reqs, c') → cstep c c' (RangeSent <$> reqs)
| c_assign_heal prio order now rnd c reqs c' :
    (∀ ti t, c_tasks c !! ti = Some t → order ti ≡ₚ map_to_list (t_heal t)) →
    assignBlobHealTasks prio order now rnd c = (Ret reqs, c') → cstep c c' (ListSent <$> reqs)
| c_assign_fill c fills c' :
    assignFillEmptyBlobTasks c = (Ret fills, c') →
    cstep c c' ((λ '(a, start, limit), FillStart a start limit) <$> fills)
| c_add_peer c id shards : cstep c (AddPeer id shards c).2 []
| c_remove_peer c id : cstep c (RemovePeer id c).2 []
| c_report force duration c c' : report force duration c = (Ret tt, c') → cstep c c' []
| c_save p1 p2 c c' : saveSyncStatus p1 p2 c = (Ret tt, c') → cstep c c' []
| c_closing c : cstep c (set_flags c true (c_syncDone c) (c_running c) (c_mux c)) []
| c_storage_evolves c s' : evolves (c_storage c) s' → cstep c (set_storage c s') [].

(** A restart drops the goroutines and loads the saved tasks; [floor] is a number
    of KVs that the contract's count never goes below. *)
Inductive step (floor : Z) : run → run → Prop :=
| step_gor c gs seen i g c' g' :
    gs !! i = Some g → gstep c g c' g' →
    step floor (mkRun c gs seen) (mkRun c' (<[i := g']> gs) (seen ++ [(c_storage c, g')]))
| step_client c gs seen c' new :
    cstep c c' new → step floor (mkRun c gs seen) (mkRun c' (gs ++ new) seen)
| step_restart c gs seen c' :
    floor ≤ mgr_KvEntryCount (c_storage c) →
    loadSyncStatus (fresh_client c) = (Ret tt, c') →
    step floor (mkRun c gs seen) (mkRun c' [] seen).

Definition sub_of (g : goroutine) : option Z :=
  match g with
  | RangeSent req | RangeGot req _ | RangeIn req _ => Some (rr_subTask req)
  | RangeEnd a => Some a
  | _ => None
  end.

Definition empty_of (g : goroutine) : option Z :=
  match g with
  | FillStart a _ _ | FillRead a _ _ _ | FillDone a _ _ => Some a
  | _ => None
  end.

(** ** The invariant *)

Record sub_wf (st : subTask) : Prop := {
  sw_order : 0 ≤ st_First st ≤ st_next st ∧ st_next st ≤ st_Last st < two63;
  sw_first : st_First st < st_Last st;
  sw_done : if st_done st then st_next st = st_Last st else st_next st < st_Last st
}.

Record empty_wf (se : subEmptyTask) : Prop := {
  ew_order : 0 ≤ se_First se ≤ se_Last se ∧ 0 < se_Last se < two63;
  ew_done : se_done se = true → se_First se = se_Last se
}.

Section invariant.
Context (floor : Z).

(** A goroutine that fills empty KVs looked at the storage when the contract had
    data for KV [k]. *)
Definition seen_data (seen : trace) (k : Z) : Prop :=
  ∃ s g, (s, g) ∈ seen ∧ is_Some (empty_of g) ∧ mgr_data s k.

(** A peer named a KV twice in its answer to a range request for KV [k]. *)
Definition repeated (seen : trace) (k : Z) : Prop :=
  ∃ s req blobs, (s, RangeGot req blobs) ∈ seen ∧ rr_origin req ≤ k ≤ rr_limit req ∧
    ¬ NoDup (BlobIndex <$> blobs_in (rr_origin req) (rr_limit req) blobs).

Definition settled (stg : S) (seen : trace) (k : Z) : Prop := mgr_filled stg k ∨ repeated seen k.

(** The answer to [req] names no KV twice, or it is in the trace. *)
Definition no_repeats (seen : trace) (req : blobsByRangeRequest) (ks : list Z) : Prop :=
  NoDup ks ∨ ∀ k, rr_origin req ≤ k ≤ rr_limit req → repeated seen k.

(** KV [k] is filled, or it is still part of the work of task [t]. *)
Definition covered (stg : S) (seen : trace) (subs : gmap Z subTask) (empties : gmap Z subEmptyTask)
    (t : task) (k : Z) : Prop :=
  settled stg seen k ∨ k ∈ dom (t_heal t) ∨
  (∃ a st, a ∈ t_SubTasks t ∧ subs !! a = Some st ∧ st_next st ≤ k < st_Last st) ∨
  floor ≤ k ∧ (seen_data seen k ∨
    ∃ a se, a ∈ t_SubEmptyTasks t ∧ empties !! a = Some se ∧ se_First se ≤ k < se_Last se).

Record task_ok (stg : S) (seen : trace) (subs : gmap Z subTask) (empties : gmap Z subEmptyTask)
    (ti : nat) (t : task) : Prop := {
  tk_contract : t_Contract t = mgr_ContractAddress stg;
  tk_nodup : NoDup (t_SubTasks t);
  tk_subs a : a ∈ t_SubTasks t → ∃ st, subs !! a = Some st ∧ st_task st = ti ∧ sub_wf st;
  tk_heal i : i ∈ dom (t_heal t) →
    ∃ a st, a ∈ t_SubTasks t ∧ subs !! a = Some st ∧ st_First st ≤ i < st_next st;
  tk_empties a : a ∈ t_SubEmptyTasks t →
    ∃ se, empties !! a = Some se ∧ se_task se = ti ∧ empty_wf se;
  tk_cover k : mgr_KvEntries stg * t_ShardId t ≤ k < mgr_KvEntries stg * (t_ShardId t + 1) →
    covered stg seen subs empties t k
}.

(** The sub task of a request in flight. *)
Definition range_live (tasks : list task) (subs : gmap Z subTask) (req : blobsByRangeRequest) : Prop :=
  ∃ st t, subs !! rr_subTask req = Some st ∧ st_isRunning st = true ∧ st_done st = false ∧
    st_next st = rr_origin req ∧ rr_origin req ≤ rr_limit req < st_Last st ∧
    tasks !! st_task st = Some t ∧ rr_subTask req ∈ t_SubTasks t.

Definition fill_live (tasks : list task) (empties : gmap Z subEmptyTask) (a start limit : Z) : Prop :=
  ∃ se t, empties !! a = Some se ∧ se_isRunning se = true ∧ se_done se = false ∧
    se_First se = start ∧ start ≤ limit + 1 ∧ 0 ≤ limit < se_Last se ∧
    tasks !! se_task se = Some t ∧ a ∈ t_SubEmptyTasks t.

Definition gor_ok (stg : S) (seen : trace) (tasks : list task) (subs : gmap Z subTask)
    (empties : gmap Z subEmptyTask) (g : goroutine) : Prop :=
  match g with
  | RangeSent req => range_live tasks subs req
  | RangeGot req blobs => range_live tasks subs req ∧ hash_commits blobs ∧
      no_repeats seen req (BlobIndex <$> blobs_in (rr_origin req) (rr_limit req) blobs)
  | RangeIn req ins =>
      range_live tasks subs req ∧ no_repeats seen req ins ∧
      ∀ k, k ∈ ins → rr_origin req ≤ k ≤ rr_limit req ∧ mgr_filled stg k
  | RangeEnd a => ∃ st, subs !! a = Some st ∧ st_isRunning st = true
  | ListSent _ => True
  | ListGot _ blobs => hash_commits blobs
  | ListIn _ ins => ∀ k, k ∈ ins → mgr_filled stg k
  | FillStart a start limit => fill_live tasks empties a start limit
  | FillRead a start limit cnt =>
      fill_live tasks empties a start limit ∧ ∀ k, 0 ≤ k < cnt → seen_data seen k
  | FillDone a start next =>
      ∃ limit, fill_live tasks empties a start limit ∧ start ≤ next ≤ limit + 1 ∧
        ∀ k, start ≤ k < next → mgr_filled stg k ∨ seen_data seen k
  | Finished => True
  end.

(** No two goroutines work on the same sub task. *)
Definition exclusive (on : goroutine → option Z) (gs : list goroutine) : Prop :=
  ∀ i j g h a, gs !! i = Some g → gs !! j = Some h → on g = Some a → on h = Some a → i = j.

(** A saved task still covers its shard. *)
Record saved_ok (stg : S) (seen : trace) (sv : savedTask) : Prop := {
  so_subs r : r ∈ sv_SubTasks sv → 0 ≤ r.1 < r.2 ∧ r.2 < two63;
  so_empties r : r ∈ sv_SubEmptyTasks sv → 0 ≤ r.1 ≤ r.2 ∧ 0 < r.2 < two63;
  so_cover k : mgr_KvEntries stg * sv_ShardId sv ≤ k < mgr_KvEntries stg * (sv_ShardId sv + 1) →
    settled stg seen k ∨ (∃ r, r ∈ sv_SubTasks sv ∧ r.1 ≤ k < r.2) ∨
    floor ≤ k ∧ (seen_data seen k ∨ ∃ r, r ∈ sv_SubEmptyTasks sv ∧ r.1 ≤ k < r.2)
}.

(** What the end of the sync promises. *)
Definition shard_filled (stg : S) (seen : trace) (sid : Z) : Prop :=
  ∀ k, mgr_KvEntries stg * sid ≤ k < mgr_KvEntries stg * (sid + 1) →
    settled stg seen k ∨ floor ≤ k ∧ seen_data seen k.

Record config_ok (c : SyncClient S) : Prop := {
  co_conc : 0 < SyncConcurrency (c_params c) < two63;
  co_treads : 0 < c_treads c < two63;
  co_sizes contract n : c_kvSizes c !! contract = Some n → 0 < n ≤ maxRequestSize
}.

Record run_ok (c : SyncClient S) (gs : list goroutine) (seen : trace) : Prop := {
  ro_ok : mgr_ok (c_storage c);
  ro_config : config_ok c;
  ro_tasks ti t : c_tasks c !! ti = Some t →
    task_ok (c_storage c) seen (c_subs c) (c_empties c) ti t;
  ro_shards sid : sid ∈ mgr_Shards (c_storage c) →
    ∃ ti t, c_tasks c !! ti = Some t ∧ t_ShardId t = sid;
  ro_gs i g : gs !! i = Some g →
    gor_ok (c_storage c) seen (c_tasks c) (c_subs c) (c_empties c) g;
  ro_subs : exclusive sub_of gs;
  ro_empties : exclusive empty_of gs;
  ro_db p sv : c_dbTasks c = Some p → sv ∈ sp_Tasks p →
    sv_Contract sv = mgr_ContractAddress (c_storage c) → saved_ok (c_storage c) seen sv;
  ro_done : c_syncDone c = true →
    ∀ sid, sid ∈ mgr_Shards (c_storage c) → shard_filled (c_storage c) seen sid
}.

End invariant.

End run.
