(* ===== verification/SyncSafety.v ===== *)
(** * No KV is forgotten: the invariant of SyncRun.v is kept by every step *)

From S2P Require Import Prelude Extern ChunkCodec SyncTask SyncClient SyncRun.

Section safety.
Context {S : Type} {SS : SyncStorage S} {SL : SyncStorageLaws S} {GE : Geth} (floor : Z).
Implicit Types c : SyncClient S.

#[local] Abbreviation trace := (SyncRun.trace (S := S)).
#[local] Abbreviation covered := (SyncRun.covered floor).
#[local] Abbreviation task_ok := (SyncRun.task_ok floor).
#[local] Abbreviation saved_ok := (SyncRun.saved_ok floor).
#[local] Abbreviation run_ok := (SyncRun.run_ok floor).

Lemma evolves_refl (s : S) : mgr_ok s → evolves s s.
Proof. by constructor. Qed.

Lemma evolves_trans (s1 s2 s3 : S) : evolves s1 s2 → evolves s2 s3 → evolves s1 s3.
Proof.
  intros [? ? ? ? Hf] [? ? ? ? Hf']. constructor; try congruence. intros k Hk. by apply Hf', Hf.
Qed.

Lemma seen_data_mono (seen seen' : trace) k : seen ⊆ seen' → seen_data seen k → seen_data seen' k.
Proof. intros Hs (s & g & Hs' & Hd). exists s, g. split; [by apply Hs|done]. Qed.

Lemma repeated_mono (seen seen' : trace) k : seen ⊆ seen' → repeated seen k → repeated seen' k.
Proof. intros Hs (s & req & blobs & Hs' & Hd). exists s, req, blobs. split; [by apply Hs|done]. Qed.

Lemma settled_mono (stg stg' : S) (seen seen' : trace) k :
  evolves stg stg' → seen ⊆ seen' → settled stg seen k → settled stg' seen' k.
Proof.
  intros [_ _ _ _ Hf] Hs [H|H]; [left; by apply Hf|right; by apply (repeated_mono seen)].
Qed.

Lemma no_repeats_mono (seen seen' : trace) req ks :
  seen ⊆ seen' → no_repeats seen req ks → no_repeats seen' req ks.
Proof. intros Hs [H|H]; [by left|right]. intros k Hk. by apply (repeated_mono seen), H. Qed.

Lemma no_repeats_sublist (seen : trace) req ks ks' :
  ks' `sublist_of` ks → no_repeats seen req ks → no_repeats seen req ks'.
Proof. intros Hs [H|H]; [left; exact (sublist_NoDup _ _ H Hs)|by right]. Qed.

(** The answer just received. *)
Lemma no_repeats_got (seen : trace) (s : S) req blobs :
  no_repeats (seen ++ [(s, RangeGot req blobs)]) req
    (BlobIndex <$> blobs_in (rr_origin req) (rr_limit req) blobs).
Proof.
  destruct (decide (NoDup (BlobIndex <$> blobs_in (rr_origin req) (rr_limit req) blobs))) as [H|H];
    [by left|right]. intros k Hk. exists s, req, blobs. split; [|done].
  apply elem_of_app. right. apply list_elem_of_here.
Qed.

(** ** Changes that leave the work of the tasks alone *)

Record same_task (t t' : task) : Prop := {
  sa_contract : t_Contract t' = t_Contract t;
  sa_shard : t_ShardId t' = t_ShardId t;
  sa_subs : t_SubTasks t' = t_SubTasks t;
  sa_empties : t_SubEmptyTasks t' = t_SubEmptyTasks t;
  sa_heal : dom (t_heal t') = dom (t_heal t)
}.

Record same_sub (st st' : subTask) : Prop := {
  sb_task : st_task st' = st_task st;
  sb_next : st_next st' = st_next st;
  sb_First : st_First st' = st_First st;
  sb_Last : st_Last st' = st_Last st;
  sb_done : st_done st' = st_done st
}.

Record same_empty (se se' : subEmptyTask) : Prop := {
  sy_task : se_task se' = se_task se;
  sy_First : se_First se' = se_First se;
  sy_Last : se_Last se' = se_Last se;
  sy_done : se_done se' = se_done se
}.

Definition same_store {A} (R : A → A → Prop) (m m' : gmap Z A) : Prop :=
  ∀ a, option_Forall2 R (m !! a) (m' !! a).

Lemma same_task_refl t : same_task t t.
Proof. done. Qed.
Lemma same_sub_refl st : same_sub st st.
Proof. done. Qed.
Lemma same_empty_refl se : same_empty se se.
Proof. done. Qed.

Lemma same_sub_trans a b d : same_sub a b → same_sub b d → same_sub a d.
Proof. intros [] []. constructor; congruence. Qed.

(** The same up to the running flag is as well formed. *)
Lemma same_sub_wf st st' : same_sub st st' → sub_wf st → sub_wf st'.
Proof. intros [E1 E2 E3 E4 E5] []. constructor; by rw ?E2 ?E3 ?E4 ?E5. Qed.
Lemma same_empty_wf se se' : same_empty se se' → empty_wf se → empty_wf se'.
Proof. intros [E1 E2 E3 E4] []. constructor; by rw ?E2 ?E3 ?E4. Qed.
Lemma same_empty_trans a b d : same_empty a b → same_empty b d → same_empty a d.
Proof. intros [] []. constructor; congruence. Qed.

Lemma same_store_refl {A} (R : A → A → Prop) m : (∀ x, R x x) → same_store R m m.
Proof. intros HR a. destruct (m !! a); by constructor. Qed.

Lemma same_store_trans {A} (R : A → A → Prop) m1 m2 m3 :
  (∀ x y z, R x y → R y z → R x z) →
  same_store R m1 m2 → same_store R m2 m3 → same_store R m1 m3.
Proof.
  intros HR H1 H2 a. specialize (H1 a). specialize (H2 a).
  inversion H1 as [x y Hxy E1 E2|E1 E2]; rw -E2 in H2; inversion H2; constructor; eauto.
Qed.

Lemma same_store_insert {A} (R : A → A → Prop) m a x y :
  (∀ z, R z z) → m !! a = Some x → R x y → same_store R m (<[a := y]> m).
Proof.
  intros HR Hx Hxy b. destruct (decide (a = b)) as [<- |].
  - rw Hx lookup_insert_eq. by constructor.
  - rw lookup_insert_ne //. by destruct (m !! b); constructor.
Qed.

Lemma same_store_some {A} (R : A → A → Prop) m m' a x :
  same_store R m m' → m !! a = Some x → ∃ y, m' !! a = Some y ∧ R x y.
Proof. intros Hs Hx. specialize (Hs a). rw Hx in Hs. inversion Hs; eauto. Qed.

Lemma same_store_some' {A} (R : A → A → Prop) m m' a y :
  same_store R m m' → m' !! a = Some y → ∃ x, m !! a = Some x ∧ R x y.
Proof. intros Hs Hy. specialize (Hs a). rw Hy in Hs. inversion Hs; eauto. Qed.

Lemma task_ok_sim stg stg' seen seen' subs subs' empties empties' ti t t' :
  evolves stg stg' → seen ⊆ seen' → same_task t t' →
  same_store same_sub subs subs' → same_store same_empty empties empties' →
  task_ok stg seen subs empties ti t → task_ok stg' seen' subs' empties' ti t'.
Proof.
  intros Hev Hseen [E1 E2 E3 E4 E5] Hs He [H1 H2 H3 H4 H5 H6]. pose proof Hev as [_ Ek Ec _ _].
  constructor; rw ?E1 ?E2 ?E3 ?E4 ?E5 ?Ec ?Ek //.
  - intros a Ha. destruct (H3 a Ha) as (st & Hst & Ht & Hw).
    destruct (same_store_some _ _ _ _ _ Hs Hst) as (st' & Hst' & Es).
    exists st'. split; [done|]. split; [by rw (sb_task _ _ Es)|exact (same_sub_wf _ _ Es Hw)].
  - intros i Hi. destruct (H4 i Hi) as (a & st & Ha & Hst & Hr).
    destruct (same_store_some _ _ _ _ _ Hs Hst) as (st' & Hst' & [_ N F L _]).
    exists a, st'. split_and!; [done|done| |]; rw ?N ?F ?L; lia.
  - intros a Ha. destruct (H5 a Ha) as (se & Hse & Ht & Hw).
    destruct (same_store_some _ _ _ _ _ He Hse) as (se' & Hse' & Es).
    exists se'. split; [done|]. split; [by rw (sy_task _ _ Es)|exact (same_empty_wf _ _ Es Hw)].
  - intros k Hk. destruct (H6 k Hk) as [Hf'|[Hh|[(a & st & Ha & Hst & Hr)|[Hfl Hx]]]].
    + left. exact (settled_mono _ _ _ _ _ Hev Hseen Hf').
    + right. left. by rw E5.
    + destruct (same_store_some _ _ _ _ _ Hs Hst) as (st' & Hst' & [_ N F L _]).
      do 2 right. left. exists a, st'. rw E3. split_and!; [done|done| |]; rw ?N ?F ?L; lia.
    + do 3 right. split; [done|]. destruct Hx as [Hd|(a & se & Ha & Hse & Hr)].
      * left. by apply (seen_data_mono seen).
      * right. destruct (same_store_some _ _ _ _ _ He Hse) as (se' & Hse' & [_ F L _]).
        exists a, se'. rw E4. split_and!; [done|done| |]; rw ?F ?L; lia.
Qed.

Lemma Forall2_same_lookup (l l' : list task) i t :
  Forall2 same_task l l' → l !! i = Some t → ∃ t', l' !! i = Some t' ∧ same_task t t'.
Proof. intros HF Hi. destruct (Forall2_lookup_l _ _ _ _ _ HF Hi) as (t' & ? & ?). eauto. Qed.

Lemma Forall2_same_lookup' (l l' : list task) i t' :
  Forall2 same_task l l' → l' !! i = Some t' → ∃ t, l !! i = Some t ∧ same_task t t'.
Proof. intros HF Hi. destruct (Forall2_lookup_r _ _ _ _ _ HF Hi) as (t & ? & ?). eauto. Qed.

Definition keeps_running (subs : gmap Z subTask) (empties : gmap Z subEmptyTask) (g : goroutine)
    : Prop :=
  (∀ a st, sub_of g = Some a → subs !! a = Some st → st_isRunning st = true) ∧
  (∀ a se, empty_of g = Some a → empties !! a = Some se → se_isRunning se = true).

Lemma range_live_sim tasks tasks' subs subs' req :
  Forall2 same_task tasks tasks' → same_store same_sub subs subs' →
  (∀ st, subs' !! rr_subTask req = Some st → st_isRunning st = true) →
  range_live tasks subs req → range_live tasks' subs' req.
Proof.
  intros Ht Hs Hr (st & t & H1 & H2 & H3 & H4 & H5 & H6 & H7).
  destruct (same_store_some _ _ _ _ _ Hs H1) as (st' & E1 & [T N F L D]).
  destruct (Forall2_same_lookup _ _ _ _ Ht H6) as (t' & E2 & ET).
  exists st', t'. rw T N L D. split_and!; try done; try lia; [by apply Hr|].
  by rw (sa_subs _ _ ET).
Qed.

Lemma fill_live_sim tasks tasks' empties empties' a start limit :
  Forall2 same_task tasks tasks' → same_store same_empty empties empties' →
  (∀ se, empties' !! a = Some se → se_isRunning se = true) →
  fill_live tasks empties a start limit → fill_live tasks' empties' a start limit.
Proof.
  intros Ht Hs Hr (se & t & H1 & H2 & H3 & H4 & H5 & H6 & H7 & H8).
  destruct (same_store_some _ _ _ _ _ Hs H1) as (se' & E1 & [T F L D]).
  destruct (Forall2_same_lookup _ _ _ _ Ht H7) as (t' & E2 & ET).
  exists se', t'. rw T F L D. split_and!; try done; try lia; [by apply Hr|].
  by rw (sa_empties _ _ ET).
Qed.

Lemma gor_ok_sim stg stg' seen seen' tasks tasks' subs subs' empties empties' g :
  evolves stg stg' → seen ⊆ seen' → Forall2 same_task tasks tasks' →
  same_store same_sub subs subs' → same_store same_empty empties empties' →
  keeps_running subs' empties' g →
  gor_ok stg seen tasks subs empties g → gor_ok stg' seen' tasks' subs' empties' g.
Proof.
  intros [_ _ _ _ Hf] Hseen Ht Hs He [K1 K2].
  have Hsd := seen_data_mono seen seen' _ Hseen.
  have HR req : (∀ st, subs' !! rr_subTask req = Some st → st_isRunning st = true) →
    range_live tasks subs req → range_live tasks' subs' req by apply range_live_sim.
  have HF a start limit : (∀ se, empties' !! a = Some se → se_isRunning se = true) →
    fill_live tasks empties a start limit → fill_live tasks' empties' a start limit
    by apply fill_live_sim.
  destruct g; simpl in *; try done.
  - apply HR. intros st. by apply K1.
  - intros (Hl & ? & ?). split_and!; [|done|by apply (no_repeats_mono seen)].
    apply HR; [|done]. intros st. by apply K1.
  - intros (Hl & ? & Hi). split_and!; [|by apply (no_repeats_mono seen)|].
    + apply HR; [|done]. intros st. by apply K1.
    + intros k Hk. destruct (Hi k Hk). split; [done|]. by apply Hf.
  - intros (st & Hst & _). destruct (same_store_some _ _ _ _ _ Hs Hst) as (st' & Hst' & _).
    exists st'. split; [done|]. by apply (K1 a).
  - intros Hi k Hk. by apply Hf, Hi.
  - apply HF. intros se. by apply K2.
  - intros [Hl Hc]. split; [|intros k Hk; by apply Hsd, Hc]. apply HF; [|done]. intros se. by apply K2.
  - intros (limit & Hl & Hn & Hk). exists limit. split_and!; [|lia..|].
    + apply HF; [|done]. intros se. by apply K2.
    + intros k Hk'. destruct (Hk k Hk'); [left; by apply Hf|right; by apply Hsd].
Qed.

Lemma saved_ok_mono stg stg' seen seen' sv :
  evolves stg stg' → seen ⊆ seen' → saved_ok stg seen sv → saved_ok stg' seen' sv.
Proof.
  intros Hev Hseen [H1 H2 H3]. constructor; [done..|]. rw (ev_KvEntries _ _ _ _ Hev). intros k Hk.
  destruct (H3 k Hk) as [Hf|[?|[? [?|?]]]]; [left; exact (settled_mono _ _ _ _ _ Hev Hseen Hf)|by right; left|..];
    do 2 right; (split; [done|]); [left; by apply (seen_data_mono seen)|by right].
Qed.

Lemma shard_filled_mono stg stg' seen seen' sid :
  evolves stg stg' → seen ⊆ seen' → shard_filled floor stg seen sid → shard_filled floor stg' seen' sid.
Proof.
  intros Hev Hseen Hs k. rw (ev_KvEntries _ _ _ _ Hev). intros Hk.
  destruct (Hs k Hk) as [Hf|[? ?]]; [left; exact (settled_mono _ _ _ _ _ Hev Hseen Hf)|].
  right. split; [done|]. by apply (seen_data_mono seen).
Qed.

(** The fields that no critical section but the load changes. *)
Record same_config c c' : Prop := {
  sc_params : c_params c' = c_params c;
  sc_treads : c_treads c' = c_treads c;
  sc_sizes : c_kvSizes c' = c_kvSizes c
}.

Lemma config_ok_same c c' : same_config c c' → config_ok c → config_ok c'.
Proof. intros [E1 E2 E3] []. constructor; by rw ?E1 ?E2 ?E3. Qed.

(** A step that leaves the work alone keeps the invariant. *)
Lemma run_ok_sim c c' gs seen seen' :
  run_ok c gs seen → evolves (c_storage c) (c_storage c') → seen ⊆ seen' → same_config c c' →
  Forall2 same_task (c_tasks c) (c_tasks c') →
  same_store same_sub (c_subs c) (c_subs c') → same_store same_empty (c_empties c) (c_empties c') →
  (∀ i g, gs !! i = Some g → keeps_running (c_subs c') (c_empties c') g) →
  c_dbTasks c' = c_dbTasks c → c_syncDone c' = c_syncDone c →
  run_ok c' gs seen'.
Proof.
  intros [R1 R2 R3 R4 R5 R6 R7 R8 R9] Hev Hseen Hcf Ht Hs He Hk Hdb Hdn.
  pose proof Hev as [Hok Ek Ec Es Hf]. constructor; try done.
  - by apply (config_ok_same c).
  - intros ti t' Ht'. destruct (Forall2_same_lookup' _ _ _ _ Ht Ht') as (t & Hti & Hst).
    exact (task_ok_sim _ _ _ _ _ _ _ _ _ _ _ Hev Hseen Hst Hs He (R3 ti t Hti)).
  - rw Es. intros sid Hsid. destruct (R4 sid Hsid) as (ti & t & Hti & Hid).
    destruct (Forall2_same_lookup _ _ _ _ Ht Hti) as (t' & Hti' & Hst).
    exists ti, t'. split; [done|]. by rw (sa_shard _ _ Hst).
  - intros i g Hi. exact (gor_ok_sim _ _ _ _ _ _ _ _ _ _ g Hev Hseen Ht Hs He (Hk i g Hi) (R5 i g Hi)).
  - rw Hdb Ec. intros p sv Hp Hsv Hc. exact (saved_ok_mono _ _ _ _ _ Hev Hseen (R8 p sv Hp Hsv Hc)).
  - rw Hdn Es. intros Hd sid Hsid. exact (shard_filled_mono _ _ _ _ _ Hev Hseen (R9 Hd sid Hsid)).
Qed.

Lemma exclusive_insert (on : goroutine → option Z) gs i g g' :
  exclusive on gs → gs !! i = Some g → (on g' = on g ∨ on g' = None) →
  exclusive on (<[i := g']> gs).
Proof.
  intros He Hi Hon.
  have Hback j h a : <[i := g']> gs !! j = Some h → on h = Some a →
    ∃ h0, gs !! j = Some h0 ∧ on h0 = Some a.
  { destruct (decide (i = j)) as [<- |].
    - rw list_lookup_insert_eq; [exact (lookup_lt_Some _ _ _ Hi)|]. intros [= <-] Ha. exists g.
      split; [done|]. destruct Hon as [E|E]; rw E // in Ha.
    - rw list_lookup_insert_ne //. eauto. }
  intros j1 j2 h1 h2 a H1 H2 A1 A2.
  destruct (Hback j1 h1 a H1 A1) as (? & ? & ?). destruct (Hback j2 h2 a H2 A2) as (? & ? & ?).
  exact (He j1 j2 _ _ a ltac:(eassumption) ltac:(eassumption) ltac:(eassumption) ltac:(eassumption)).
Qed.

(** A goroutine of the list goes on. *)
Lemma run_ok_goroutine c gs seen i g g' :
  run_ok c gs seen → gs !! i = Some g →
  (sub_of g' = sub_of g ∨ sub_of g' = None) → (empty_of g' = empty_of g ∨ empty_of g' = None) →
  gor_ok (c_storage c) seen (c_tasks c) (c_subs c) (c_empties c) g' →
  run_ok c (<[i := g']> gs) seen.
Proof.
  intros [R1 R2 R3 R4 R5 R6 R7 R8 R9] Hi Hsub Hemp Hg'. constructor; try done.
  - intros j h. destruct (decide (i = j)) as [<- |].
    + rw list_lookup_insert_eq; [exact (lookup_lt_Some _ _ _ Hi)|]. by intros [= <-].
    + rw list_lookup_insert_ne //. apply R5.
  - exact (exclusive_insert sub_of gs i g g' R6 Hi Hsub).
  - exact (exclusive_insert empty_of gs i g g' R7 Hi Hemp).
Qed.

Lemma exclusive_app (on : goroutine → option Z) gs g :
  exclusive on gs → (∀ h a, h ∈ gs → on g = Some a → on h ≠ Some a) → exclusive on (gs ++ [g]).
Proof.
  intros He Hn i j h1 h2 a [H1|[L1 H1]]%lookup_app_Some [H2|[L2 H2]]%lookup_app_Some A1 A2.
  - by apply (He i j h1 h2 a).
  - apply list_lookup_singleton_Some in H2 as [_ <-]. exfalso.
    exact (Hn h1 a (list_elem_of_lookup_2 _ _ _ H1) A2 A1).
  - apply list_lookup_singleton_Some in H1 as [_ <-]. exfalso.
    exact (Hn h2 a (list_elem_of_lookup_2 _ _ _ H2) A1 A2).
  - apply list_lookup_singleton_Some in H1 as [? _], H2 as [? _]. lia.
Qed.

Lemma gor_ok_running stg seen tasks subs empties g :
  gor_ok stg seen tasks subs empties g → keeps_running subs empties g.
Proof.
  have HR req a st : range_live tasks subs req → Some (rr_subTask req) = Some a →
    subs !! a = Some st → st_isRunning st = true.
  { intros (st' & t & H1 & H2 & _) [= <-] H3. congruence. }
  have HF a start limit b se : fill_live tasks empties a start limit → Some a = Some b →
    empties !! b = Some se → se_isRunning se = true.
  { intros (se' & t & H1 & H2 & _) [= <-] H3. congruence. }
  destruct g; simpl; intros Hg; split; simpl; try done; intros b x; try naive_solver.
Qed.

(** A new goroutine on a sub task that no other goroutine works on. *)
Lemma run_ok_spawn c gs seen g :
  run_ok c gs seen →
  gor_ok (c_storage c) seen (c_tasks c) (c_subs c) (c_empties c) g →
  (∀ h a, h ∈ gs → sub_of g = Some a → sub_of h ≠ Some a) →
  (∀ h a, h ∈ gs → empty_of g = Some a → empty_of h ≠ Some a) →
  run_ok c (gs ++ [g]) seen.
Proof.
  intros [R1 R2 R3 R4 R5 R6 R7 R8 R9] Hg N1 N2. constructor; try done.
  - intros i h [Hi|[_ Hi]]%lookup_app_Some; [by apply (R5 i)|].
    apply list_lookup_singleton_Some in Hi as [_ <-]. done.
  - exact (exclusive_app sub_of gs g R6 N1).
  - exact (exclusive_app empty_of gs g R7 N2).
Qed.

(** ** Critical sections that leave the sub tasks alone *)

Lemma alter_same f i l : (∀ t, same_task t (f t)) → Forall2 same_task l (alter f i l).
Proof.
  intros Hf. apply Forall2_same_length_lookup. split; [by rw length_alter|].
  intros j x y Hx Hy. destruct (decide (i = j)) as [<- |].
  - rw list_lookup_alter_eq Hx in Hy. injection Hy as <-. apply Hf.
  - rw list_lookup_alter_ne // Hx in Hy. injection Hy as <-. apply same_task_refl.
Qed.

Lemma fmap_same f l : (∀ t, same_task t (f t)) → Forall2 same_task l (f <$> l).
Proof. intros Hf. apply Forall2_fmap_r, Forall_Forall2_diag, Forall_true. done. Qed.

Lemma same_tasks_refl l : Forall2 same_task l l.
Proof. apply Forall_Forall2_diag, Forall_true. intros t. apply same_task_refl. Qed.

Lemma same_tasks_trans l1 l2 l3 :
  Forall2 same_task l1 l2 → Forall2 same_task l2 l3 → Forall2 same_task l1 l3.
Proof.
  intros HF. revert l3. induction HF as [|x y l1 l2 [] _ IH]; intros l3 H3.
  { by apply Forall2_nil_inv_l in H3 as ->. }
  apply Forall2_cons_inv_l in H3 as (z & l3' & [] & H3 & ->). constructor; [|by apply IH].
  constructor; congruence.
Qed.

(** The client with the same stores, storage, database and flags. *)
Record quiet c c' : Prop := {
  qt_storage : c_storage c' = c_storage c;
  qt_subs : c_subs c' = c_subs c;
  qt_empties : c_empties c' = c_empties c;
  qt_db : c_dbTasks c' = c_dbTasks c;
  qt_done : c_syncDone c' = c_syncDone c;
  qt_config : same_config c c';
  qt_tasks : Forall2 same_task (c_tasks c) (c_tasks c')
}.

Lemma quiet_refl c : quiet c c.
Proof. constructor; try done. apply same_tasks_refl. Qed.

Lemma quiet_trans c1 c2 c3 : quiet c1 c2 → quiet c2 c3 → quiet c1 c3.
Proof.
  intros [? ? ? ? ? [] ?] [? ? ? ? ? [] ?]. constructor; try congruence.
  - constructor; congruence.
  - eapply same_tasks_trans; eassumption.
Qed.

Lemma run_ok_quiet c c' gs seen : run_ok c gs seen → quiet c c' → run_ok c' gs seen.
Proof.
  intros Hr [E1 E2 E3 E4 E5 E6 E7]. apply (run_ok_sim c _ _ seen); try done.
  - rw E1. apply evolves_refl, Hr.
  - rw E2. apply same_store_refl, same_sub_refl.
  - rw E3. apply same_store_refl, same_empty_refl.
  - intros i g Hi. rw E2 E3. by eapply gor_ok_running, (ro_gs _ _ _ _ Hr i).
Qed.

Lemma quiet_peers c ps ids : quiet c (set_peers c ps ids).
Proof. constructor; try done. apply same_tasks_refl. Qed.

Lemma quiet_tasks c ts : Forall2 same_task (c_tasks c) ts → quiet c (set_tasks c ts).
Proof. by constructor. Qed.

Lemma quiet_on_task c ti f : (∀ t, same_task t (f t)) → quiet c (on_task c ti f).
Proof. intros. by apply quiet_tasks, alter_same. Qed.

Lemma quiet_peer_idle id c : quiet c (peer_idle id c).
Proof. rw /peer_idle. destruct (c_peers c !! id); [apply quiet_peers|apply quiet_refl]. Qed.

Lemma quiet_stateless id ti c : quiet c (mark_stateless id ti c).
Proof.
  rw /mark_stateless. destruct (c_peers c !! id); [|apply quiet_refl]. by apply quiet_on_task.
Qed.

Lemma count_peer_same n m l : Forall2 same_task l (count_peer n m l).
Proof.
  rw /count_peer. revert l. induction (announced m) as [|x xs IH]; intros l; simpl.
  { apply same_tasks_refl. }
  eapply same_tasks_trans; [|apply IH]. apply fmap_same. intros t. by destruct (serves t x).
Qed.

Lemma quiet_AddPeer id shards c : quiet c (AddPeer id shards c).2.
Proof.
  rw /AddPeer. destruct (c_peers c !! id); [apply quiet_refl|].
  destruct (c_closingPeers c); [apply quiet_refl|].
  destruct (needThisPeer c shards); simpl; [|apply quiet_refl].
  eapply quiet_trans; [apply quiet_peers|]. apply quiet_tasks, count_peer_same.
Qed.

Lemma quiet_RemovePeer id c : quiet c (RemovePeer id c).2.
Proof.
  rw /RemovePeer. destruct (c_peers c !! id) as [pr|]; simpl; [|apply quiet_refl].
  eapply quiet_trans; [apply quiet_peers|]. eapply quiet_trans; [apply quiet_tasks, count_peer_same|].
  eapply quiet_trans; [apply quiet_peers|]. by apply quiet_tasks, fmap_same.
Qed.

Lemma go_map_same (f : task → gores task) l l' :
  (∀ t t', f t = Ret t' → same_task t t') → go_map f l = Ret l' → Forall2 same_task l l'.
Proof. intros Hf HF%go_map_Forall2. eapply Forall2_impl; [exact HF|]. intros. by apply Hf. Qed.

Lemma set_state_same t st : same_task t (set_state t st).
Proof. done. Qed.

Lemma quiet_report force duration c c' : report force duration c = (Ret tt, c') → quiet c c'.
Proof.
  rw /report. destruct (negb force && (duration <? 8)); [intros [= <-]; apply quiet_refl|].
  rw /mbind /st_bind. destruct (reportSyncState duration c) as [r1 c1] eqn:E1.
  destruct r1 as [[]| |]; [|done..]. intros E2. apply (quiet_trans c c1 c').
  - move: E1. rw /reportSyncState. case E: (go_map _ _) => [ts| |]; [|done..].
    intros [= <-]. apply quiet_tasks. refine (go_map_same _ _ _ _ E). intros t t'.
    rw /mbind /gores_bind. destruct (go_map (sub_at c) (t_SubTasks t)); [|done..].
    intros <-%Ret_inj. apply set_state_same.
  - move: E2. rw /reportFillEmptyState. case E: (go_map _ _) => [ts| |]; [|done..].
    intros [= <-]. apply quiet_tasks. refine (go_map_same _ _ _ _ E). intros t t'.
    destruct ((EmptyFilled (t_state t) =? 0) && bool_decide (t_SubEmptyTasks t = []));
      [intros <-%Ret_inj; apply set_state_same|].
    rw /mbind /gores_bind. destruct (go_map (empty_at c1) (t_SubEmptyTasks t)); [|done..].
    intros <-%Ret_inj. apply set_state_same.
Qed.

Lemma run_ok_evolves c s' gs seen :
  run_ok c gs seen → evolves (c_storage c) s' → run_ok (set_storage c s') gs seen.
Proof.
  intros Hr Hev. apply (run_ok_sim c _ _ seen); try done.
  - apply same_tasks_refl.
  - apply same_store_refl, same_sub_refl.
  - apply same_store_refl, same_empty_refl.
  - intros i g Hi. by eapply gor_ok_running, (ro_gs _ _ _ _ Hr i).
Qed.

Lemma run_ok_seen c gs seen s : run_ok c gs seen → run_ok c gs (seen ++ [s]).
Proof.
  intros Hr. apply (run_ok_sim c _ _ seen); try done.
  - apply evolves_refl, Hr.
  - set_solver.
  - apply same_tasks_refl.
  - apply same_store_refl, same_sub_refl.
  - apply same_store_refl, same_empty_refl.
  - intros i g Hi. by eapply gor_ok_running, (ro_gs _ _ _ _ Hr i).
Qed.

(** ** Assignment of work *)

Lemma sub_at_Ret c a st : sub_at c a = Ret st ↔ c_subs c !! a = Some st.
Proof. rw /sub_at. destruct (c_subs c !! a); split; congruence. Qed.
Lemma empty_at_Ret c a se : empty_at c a = Ret se ↔ c_empties c !! a = Some se.
Proof. rw /empty_at. destruct (c_empties c !! a); split; congruence. Qed.
Lemma task_at_Ret c ti t : task_at c ti = Ret t ↔ c_tasks c !! ti = Some t.
Proof. rw /task_at. destruct (c_tasks c !! ti); split; congruence. Qed.

Lemma index_elem {A} (l : list A) i x : index l i = Ret x → x ∈ l.
Proof.
  rw /index. destruct (0 <=? i); [|done]. destruct (l !! Z.to_nat i) eqn:E; [|done].
  intros [= <-]. exact (list_elem_of_lookup_2 _ _ _ E).
Qed.

(** A sub task that is not running has no goroutine. *)
Lemma idle_sub c gs seen a st h :
  run_ok c gs seen → c_subs c !! a = Some st → st_isRunning st = false → h ∈ gs → sub_of h ≠ Some a.
Proof.
  intros Hr Ha Hn (i & Hi)%list_elem_of_lookup Hs.
  destruct (gor_ok_running _ _ _ _ _ _ (ro_gs _ _ _ _ Hr i h Hi)) as [Hk _].
  specialize (Hk a st Hs Ha). congruence.
Qed.

Lemma idle_empty c gs seen a se h :
  run_ok c gs seen → c_empties c !! a = Some se → se_isRunning se = false → h ∈ gs →
  empty_of h ≠ Some a.
Proof.
  intros Hr Ha Hn (i & Hi)%list_elem_of_lookup Hs.
  destruct (gor_ok_running _ _ _ _ _ _ (ro_gs _ _ _ _ Hr i h Hi)) as [_ Hk].
  specialize (Hk a se Hs Ha). congruence.
Qed.

(** The flag of a sub task is raised. *)
Lemma run_ok_sub_running c gs seen a st :
  run_ok c gs seen → c_subs c !! a = Some st →
  run_ok (set_subs c (<[a := set_isRunning true st]> (c_subs c))) gs seen.
Proof.
  intros Hr Ha. apply (run_ok_sim c _ _ seen); try done.
  - apply evolves_refl, Hr.
  - apply same_tasks_refl.
  - by apply (same_store_insert _ _ _ st); [apply same_sub_refl| |].
  - apply same_store_refl, same_empty_refl.
  - intros i g Hi. destruct (gor_ok_running _ _ _ _ _ _ (ro_gs _ _ _ _ Hr i g Hi)) as [K1 K2].
    split; [|done]. intros b st' Hb. simpl. destruct (decide (a = b)) as [<- |].
    + rw lookup_insert_eq. by intros [= <-].
    + rw lookup_insert_ne //. by apply K1.
Qed.

Lemma run_ok_empty_running c gs seen a se :
  run_ok c gs seen → c_empties c !! a = Some se →
  run_ok (set_empties c (<[a := mkSubEmptyTask (se_task se) (se_First se) (se_Last se) true
                                   (se_done se)]> (c_empties c))) gs seen.
Proof.
  intros Hr Ha. apply (run_ok_sim c _ _ seen); try done.
  - apply evolves_refl, Hr.
  - apply same_tasks_refl.
  - apply same_store_refl, same_sub_refl.
  - by apply (same_store_insert _ _ _ se); [apply same_empty_refl| |].
  - intros i g Hi. destruct (gor_ok_running _ _ _ _ _ _ (ro_gs _ _ _ _ Hr i g Hi)) as [K1 K2].
    split; [done|]. intros b se' Hb. simpl. destruct (decide (a = b)) as [<- |].
    + rw lookup_insert_eq. by intros [= <-].
    + rw lookup_insert_ne //. by apply K2.
Qed.

Lemma assign_sub_ok ti maxRange n prio rnd c r c' gs seen :
  run_ok c gs seen → 0 < maxRange < two63 →
  assign_sub ti maxRange n prio rnd c = (Ret r, c') →
  run_ok c' (gs ++ (RangeSent <$> default [] r)) seen ∧ same_config c c' ∧ length (c_tasks c') = length (c_tasks c).
Proof.
  intros Hr Hm. rw /assign_sub /mbind /st_bind /st_get /st_lift /st_put /mret /st_ret.
  destruct (task_at c ti) as [t| |] eqn:Et; [|done..].
  destruct (getIdlePeerForTask prio t c) as [pr|]; last first.
  { intros [= <- <-]. rw app_nil_r. done. }
  destruct (umod (t_nextIdx t) n) as [ni| |]; [|done..].
  destruct (index (t_SubTasks t) ni) as [a| |] eqn:Ea; [|done..].
  destruct (sub_at c a) as [st| |] eqn:Est; [|done..].
  apply task_at_Ret in Et. apply sub_at_Ret in Est. apply index_elem in Ea.
  set c1 := on_task c ti _.
  have Hq : quiet c c1 by apply quiet_on_task.
  have Hr1 := run_ok_quiet _ _ _ _ Hr Hq.
  have Hlen : length (c_tasks c1) = length (c_tasks c) by apply length_alter.
  destruct (st_done st || st_isRunning st) eqn:Ed.
  { intros [= <- <-]. rw app_nil_r. split_and!; [done|apply Hq|done]. }
  apply orb_false_iff in Ed as [Ed1 Ed2]. intros [= <- <-].
  set c2 := set_peers c1 _ _.
  have Hr2 : run_ok c2 gs seen by (apply (run_ok_quiet c1); [done|apply quiet_peers]).
  have Hst2 : c_subs c2 !! a = Some st by done.
  have Hr3 := run_ok_sub_running c2 gs seen a st Hr2 Hst2.
  split_and!; [|done|done]. apply run_ok_spawn; [exact Hr3| | |done].
  - destruct (ro_tasks _ _ _ _ Hr ti t Et) as [_ _ Hsub _ _ _].
    destruct (Hsub a Ea) as (st' & Hst' & Hti & Hw). have ? : st' = st by congruence. subst st'.
    destruct Hw as [Hw1 Hw2 Hw3]. rw Ed1 in Hw3.
    have E1 : add64 (st_next st) maxRange = st_next st + maxRange.
    { rw /add64 wrap64_small //. unfold two63, two64 in *. lia. }
    exists (set_isRunning true st), (set_nextIdx t (ni + 1)). simpl. rw E1.
    have E2 : sub64 (Z.min (st_next st + maxRange) (st_Last st)) 1 =
              Z.min (st_next st + maxRange) (st_Last st) - 1.
    { rw /sub64 wrap64_small //. unfold two63, two64 in *. lia. }
    rw E2. split_and!; try done; try lia.
    + by rw lookup_insert_eq.
    + by rw Hti list_lookup_alter_eq Et.
  - intros h b Hh [= <-]. exact (idle_sub c gs seen a st h Hr Est Ed2 Hh).
Qed.

Lemma same_config_refl c : same_config c c.
Proof. done. Qed.
Lemma same_config_trans c1 c2 c3 : same_config c1 c2 → same_config c2 c3 → same_config c1 c3.
Proof. intros [] []. constructor; congruence. Qed.

Lemma assign_subs_ok ti maxRange n prio rnd idxs c reqs c' gs seen :
  run_ok c gs seen → 0 < maxRange < two63 →
  assign_subs ti maxRange n prio rnd idxs c = (Ret reqs, c') →
  run_ok c' (gs ++ (RangeSent <$> reqs)) seen.
Proof.
  intros Hr Hm. revert c gs reqs Hr. induction idxs as [|idx idxs IH]; intros c gs reqs Hr; simpl.
  { intros [= <- <-]. by rw app_nil_r. }
  rw /mbind /st_bind.
  destruct (assign_sub ti maxRange n (prio idx) (rnd idx) c) as [[r| |] c1] eqn:E1; [|done..].
  destruct (assign_sub_ok _ _ _ _ _ _ _ _ _ _ Hr Hm E1) as (Hr1 & _ & _).
  destruct r as [new|]; simpl in Hr1; last first.
  { intros [= <- <-]. done. }
  destruct (assign_subs ti maxRange n prio rnd idxs c1) as [[rest| |] c2] eqn:E2; [|done..].
  intros [= <- <-]. rw fmap_app app_assoc. exact (IH c1 _ rest Hr1 E2).
Qed.

Lemma request_span kvSize :
  0 < kvSize ≤ maxRequestSize → 0 < mul64 (maxRequestSize / kvSize) 2 < two63.
Proof.
  intros Hk. have H1 : 1 ≤ maxRequestSize / kvSize by apply Z.div_le_lower_bound; lia.
  have H2 : maxRequestSize / kvSize ≤ maxRequestSize.
  { apply Z.div_le_upper_bound; [lia|]. unfold maxRequestSize in *. nia. }
  rw /mul64 wrap64_small; unfold maxRequestSize, two64, two63 in *; lia.
Qed.

Lemma lookup_kvSize_ok c gs seen contract kvSize q :
  run_ok c gs seen → lookup_kvSize c contract = Ret kvSize → udiv maxRequestSize kvSize = Ret q →
  0 < mul64 q 2 < two63.
Proof.
  intros Hr. rw /lookup_kvSize. destruct (c_kvSizes c !! contract) as [n|] eqn:E; [|done].
  intros <-%Ret_inj. pose proof (co_sizes _ (ro_config _ _ _ _ Hr) _ _ E) as Hn.
  rw udiv_nz; [lia|]. intros <-%Ret_inj. by apply request_span.
Qed.

Lemma assignBlobRangeTasks_ok prio rnd c reqs c' gs seen :
  run_ok c gs seen → assignBlobRangeTasks prio rnd c = (Ret reqs, c') →
  run_ok c' (gs ++ (RangeSent <$> reqs)) seen.
Proof.
  intros Hr. rw /assignBlobRangeTasks. case_bool_decide.
  { intros [= <- <-]. by rw app_nil_r. }
  set f := λ (reqs : list blobsByRangeRequest) (ti : nat), _.
  have Hgen : ∀ l acc c gs, run_ok c (gs ++ (RangeSent <$> acc)) seen → ∀ reqs c',
    st_foldM f acc l c = (Ret reqs, c') → run_ok c' (gs ++ (RangeSent <$> reqs)) seen.
  { clear. induction l as [|ti l IH]; intros acc c gs Hr reqs c'.
    { intros [= <- <-]. done. }
    rw st_foldM_cons {1}/mbind /st_bind. destruct (f acc ti c) as [[acc'| |] c1] eqn:E; [|done..].
    apply IH. move: E. rw /f /mbind /st_bind /st_get /st_lift.
    destruct (task_at c ti) as [t| |]; [|done..].
    destruct (lookup_kvSize c (t_Contract t)) as [kvSize| |] eqn:Ek; [|done..].
    destruct (udiv maxRequestSize kvSize) as [q| |] eqn:Eq; [|done..].
    pose proof (lookup_kvSize_ok _ _ _ _ _ _ Hr Ek Eq) as Hm.
    destruct (assign_subs _ _ _ _ _ _ c) as [[new| |] c2] eqn:Ea; [|done..].
    intros [= <- <-]. rw fmap_app app_assoc. exact (assign_subs_ok _ _ _ _ _ _ _ _ _ _ _ Hr Hm Ea). }
  apply (Hgen _ [] c gs). by rw app_nil_r.
Qed.

Lemma getBlobIndexes_elem now batch l indexes i :
  i ∈ getBlobIndexesForRequest now batch l indexes → i ∈ indexes ∨ i ∈ l.*1.
Proof.
  revert indexes. induction l as [|[idx tm] l IH]; intros indexes; simpl; [by left|].
  set ix := if requestTimeoutInMillisecond <? now - tm then indexes ++ [idx] else indexes.
  have Hix : i ∈ ix → i ∈ indexes ∨ i ∈ idx :: l.*1.
  { rw /ix. destruct (requestTimeoutInMillisecond <? now - tm); set_solver. }
  destruct (batch <=? zlen ix); [exact Hix|]. intros [?|?]%IH; [by apply Hix|]. set_solver.
Qed.

Lemma assign_heal_ok ti t batch prio order now rnd c new c' gs seen :
  run_ok c gs seen → c_tasks c !! ti = Some t → (∀ i, i ∈ order.*1 → i ∈ dom (t_heal t)) →
  assign_heal ti t batch prio order now rnd c = (Ret new, c') →
  run_ok c' (gs ++ (ListSent <$> new)) seen ∧ Forall2 same_task (c_tasks c) (c_tasks c').
Proof.
  intros Hr Et Ho. rw /assign_heal /mbind /st_bind /st_get /st_put /mret /st_ret.
  set indexes := getBlobIndexesForRequest _ _ _ _. case_bool_decide.
  { intros [= <- <-]. rw app_nil_r. split; [done|apply same_tasks_refl]. }
  destruct (getIdlePeerForTask prio t c) as [pr|]; last first.
  { intros [= <- <-]. rw app_nil_r. split; [done|apply same_tasks_refl]. }
  intros [= <- <-]. set c1 := on_task _ _ _.
  have Hdom : ∀ i, i ∈ indexes → is_Some (t_heal t !! i).
  { intros i [Hi|Hi]%getBlobIndexes_elem; [by apply not_elem_of_nil in Hi|].
    apply elem_of_dom, (Ho i Hi). }
  have Hsame : Forall2 same_task (c_tasks c) (c_tasks c1).
  { apply Forall2_same_length_lookup. split; [by rw length_alter|]. simpl.
    intros j x y Hx Hy. destruct (decide (ti = j)) as [<- |].
    - rw list_lookup_alter_eq Hx in Hy. injection Hy as <-. constructor; try done. simpl.
      apply heal_refresh_dom. have -> : x = t by congruence. done.
    - rw list_lookup_alter_ne // Hx in Hy. injection Hy as <-. apply same_task_refl. }
  split; [|done]. apply run_ok_spawn; [|done..]. by apply (run_ok_quiet c).
Qed.

Lemma assign_heals_ok prio order now rnd tis c reqs c' gs seen :
  run_ok c gs seen →
  (∀ ti t, c_tasks c !! ti = Some t → ∀ i, i ∈ (order ti).*1 → i ∈ dom (t_heal t)) →
  assign_heals prio order now rnd tis c = (Ret reqs, c') →
  run_ok c' (gs ++ (ListSent <$> reqs)) seen.
Proof.
  revert c gs reqs. induction tis as [|ti tis IH]; intros c gs reqs Hr Ho; simpl.
  { intros [= <- <-]. by rw app_nil_r. }
  rw /mbind /st_bind /st_get /st_lift. destruct (task_at c ti) as [t| |] eqn:Et; [|done..].
  apply task_at_Ret in Et.
  destruct (lookup_kvSize c (t_Contract t)) as [kvSize| |]; [|done..].
  destruct (udiv maxRequestSize kvSize) as [q| |]; [|done..].
  case_bool_decide; [intros [= <- <-]; by rw app_nil_r|].
  destruct (assign_heal _ _ _ _ _ _ _ c) as [[new| |] c1] eqn:E1; [|done..].
  destruct (assign_heal_ok _ _ _ _ _ _ _ _ _ _ _ _ Hr Et (Ho ti t Et) E1) as [Hr1 Hs].
  destruct (assign_heals prio order now rnd tis c1) as [[rest| |] c2] eqn:E2; [|done..].
  intros [= <- <-]. rw fmap_app app_assoc. apply (IH c1 _ rest Hr1); [|done].
  intros tj t' Hj i Hi. destruct (Forall2_same_lookup' _ _ _ _ Hs Hj) as (t0 & Hj0 & E).
  rw (sa_heal _ _ E). by apply (Ho tj).
Qed.

Lemma assignBlobHealTasks_ok prio order now rnd c reqs c' gs seen :
  run_ok c gs seen →
  (∀ ti t, c_tasks c !! ti = Some t → order ti ≡ₚ map_to_list (t_heal t)) →
  assignBlobHealTasks prio order now rnd c = (Ret reqs, c') →
  run_ok c' (gs ++ (ListSent <$> reqs)) seen.
Proof.
  intros Hr Ho. rw /assignBlobHealTasks. case_bool_decide.
  { intros [= <- <-]. by rw app_nil_r. }
  apply assign_heals_ok; [done|]. intros ti t Ht i. rw (Ho ti t Ht) list_elem_of_fmap.
  intros ([j x] & -> & Hx%elem_of_map_to_list). exact (elem_of_dom_2 _ _ _ Hx).
Qed.

Lemma assign_fill_ok l c fills c' gs seen :
  run_ok c gs seen →
  (∀ a, a ∈ l → ∃ ti t, c_tasks c !! ti = Some t ∧ a ∈ t_SubEmptyTasks t) →
  assign_fill l c = (Ret fills, c') →
  run_ok c' (gs ++ ((λ '(a, start, limit), FillStart a start limit) <$> fills)) seen.
Proof.
  revert c gs fills. induction l as [|a l IH]; intros c gs fills Hr Hl; simpl.
  { intros [= <- <-]. by rw app_nil_r. }
  rw /mbind /st_bind /st_get /st_lift /st_put.
  destruct (c_closingPeers c); [intros [= <- <-]; by rw app_nil_r|].
  destruct (c_treads c <=? c_running c); [intros [= <- <-]; by rw app_nil_r|].
  destruct (empty_at c a) as [se| |] eqn:Ese; [|done..]. apply empty_at_Ret in Ese.
  have Hl' a' : a' ∈ l → ∃ ti t, c_tasks c !! ti = Some t ∧ a' ∈ t_SubEmptyTasks t.
  { intros. by apply Hl, list_elem_of_further. }
  destruct (se_isRunning se || se_done se) eqn:Ed; [by apply IH|].
  apply orb_false_iff in Ed as [Ed1 Ed2].
  set c1 := set_running _ _. destruct (assign_fill l c1) as [[rest| |] c2] eqn:E2; [|done..].
  intros [= <- <-]. rw fmap_cons (cons_middle _ gs) app_assoc. apply (IH c1); [|done|done].
  destruct (Hl a (list_elem_of_here _ _)) as (ti & t & Ht & Ha).
  destruct (tk_empties _ _ _ _ _ _ _ (ro_tasks _ _ _ _ Hr ti t Ht) a Ha) as (se' & Hse' & Hti & [Hw _]).
  have ? : se' = se by congruence. subst se'.
  apply run_ok_spawn.
  - apply (run_ok_quiet (set_empties c (<[a := mkSubEmptyTask (se_task se) (se_First se)
      (se_Last se) true (se_done se)]> (c_empties c)))); [by apply run_ok_empty_running|].
    constructor; try done. apply same_tasks_refl.
  - have E1 : add64 (se_First se) minSubTaskSize = se_First se + 16.
    { rw /add64 wrap64_small //. unfold minSubTaskSize, two63, two64 in *. lia. }
    eexists _, t. simpl. rw lookup_insert_eq. split; [done|]. simpl. rw E1 Hti.
    set last := if _ <? _ then _ else _.
    have Hlast : se_First se ≤ last ≤ se_Last se ∧ 0 < last.
    { rw /last. case: Z.ltb_spec; lia. }
    have -> : sub64 last 1 = last - 1 by rw /sub64 wrap64_small //; unfold two63, two64 in *; lia.
    split_and!; try done; lia.
  - done.
  - intros h b Hh [= <-]. exact (idle_empty c gs seen a se h Hr Ese Ed1 Hh).
Qed.

Lemma assignFillEmptyBlobTasks_ok c fills c' gs seen :
  run_ok c gs seen → assignFillEmptyBlobTasks c = (Ret fills, c') →
  run_ok c' (gs ++ ((λ '(a, start, limit), FillStart a start limit) <$> fills)) seen.
Proof.
  intros Hr. apply assign_fill_ok; [done|]. intros a (t & Ha & Ht)%list_elem_of_bind.
  apply list_elem_of_lookup in Ht as (ti & Ht). eauto.
Qed.

(** The deferred end of a range request. *)
Lemma range_end_ok c gs seen i a st :
  run_ok c gs seen → gs !! i = Some (RangeEnd a) → c_subs c !! a = Some st →
  run_ok (set_subs c (<[a := set_isRunning false st]> (c_subs c))) (<[i := Finished]> gs) seen.
Proof.
  intros Hr Hi Ha.
  have Hr1 : run_ok c (<[i := Finished]> gs) seen.
  { apply (run_ok_goroutine _ _ _ _ _ _ Hr Hi); [by right|by right|done]. }
  apply (run_ok_sim c _ _ seen); try done.
  - apply evolves_refl, Hr.
  - apply same_tasks_refl.
  - by apply (same_store_insert _ _ _ st); [apply same_sub_refl| |].
  - apply same_store_refl, same_empty_refl.
  - intros j g Hj. destruct (gor_ok_running _ _ _ _ _ _ (ro_gs _ _ _ _ Hr1 j g Hj)) as [K1 K2].
    split; [|done]. intros b st' Hb. simpl. destruct (decide (a = b)) as [<- |].
    + exfalso. destruct (decide (i = j)) as [<- |Hij].
      * rw list_lookup_insert_eq in Hj; [exact (lookup_lt_Some _ _ _ Hi)|]. by injection Hj as <-.
      * rw list_lookup_insert_ne // in Hj.
        by apply Hij, (ro_subs _ _ _ _ Hr i j (RangeEnd a) g a).
    + rw lookup_insert_ne //. by apply K1.
Qed.

(** ** Answers *)

Lemma sublist_elem {A} (l k : list A) x : l `sublist_of` k → x ∈ l → x ∈ k.
Proof. intros Hs Hx. exact (elem_of_submseteq _ _ _ Hx (sublist_submseteq _ _ Hs)). Qed.

Lemma sublist_map {A B} (f : A → B) l k : l `sublist_of` k → f <$> l `sublist_of` f <$> k.
Proof. induction 1; simpl; by constructor. Qed.

Lemma sublist_Forall {A} (P : A → Prop) l k : l `sublist_of` k → Forall P k → Forall P l.
Proof. rw !Forall_forall. intros Hs Hk x Hx. by apply Hk, (sublist_elem l). Qed.

Lemma onResult_check_sub (s : S) blobs l :
  onResult_check s blobs = Ret l →
  l.*1.*1 `sublist_of` (BlobIndex <$> blobs) ∧ l.*2 `sublist_of` (BlobCommit <$> blobs).
Proof.
  rw /onResult_check. set f := λ (acc : list (Z * bytes * bytes)) (payload : BlobPayload), _.
  have Hgen : ∀ blobs acc l, foldM f acc blobs = Ret l →
    ∃ l', l = acc ++ l' ∧ l'.*1.*1 `sublist_of` (BlobIndex <$> blobs) ∧
          l'.*2 `sublist_of` (BlobCommit <$> blobs).
  { clear. induction blobs as [|b blobs IH]; intros acc l.
    { intros <-%Ret_inj. exists []. rw app_nil_r. split_and!; constructor. }
    rw foldM_cons {1}/mbind {1}/gores_bind. destruct (f acc b) as [acc'| |] eqn:E; [|done..].
    intros (l' & -> & Hs1 & Hs2)%IH. move: E. rw /f.
    destruct (decodeKV s b) as [[d [|]]| |]; simpl; [|..|done|done].
    - destruct (checkBlobCommit d b) as [[|]| |]; simpl; [..|done|done]; intros <-%Ret_inj.
      + exists ((BlobIndex b, d, BlobCommit b) :: l'). rw -app_assoc. split_and!; [done|..];
          by apply sublist_skip.
      + exists l'. split_and!; [done|..]; by apply sublist_cons.
    - intros <-%Ret_inj. exists l'. split_and!; [done|..]; by apply sublist_cons. }
  intros (l' & -> & ? & ?)%Hgen. done.
Qed.

Lemma on_storage_result c blobs r c' :
  mgr_ok (c_storage c) → Forall (λ b, length (BlobCommit b) = 32%nat) blobs →
  on_storage (onResult blobs) c = (r, c') →
  ∃ s', c' = set_storage c s' ∧ evolves (c_storage c) s' ∧
    ∀ ins, r = Ret ins → ins `sublist_of` (BlobIndex <$> blobs) ∧ ∀ k, k ∈ ins → mgr_filled s' k.
Proof.
  intros Hok Hb. rw /on_storage /onResult /mbind /st_bind /st_get /st_lift.
  destruct (onResult_check (c_storage c) blobs) as [l|e|p] eqn:El.
  - destruct (onResult_check_sub _ _ _ El) as [Hs1 Hs2].
    destruct (mgr_CommitBlobs _ _ _ (c_storage c)) as [r' s'] eqn:Ec. intros [= <- <-].
    have H32 : Forall (λ d, length d = 32%nat) l.*2.
    { eapply sublist_Forall; [exact Hs2|]. by apply Forall_fmap. }
    destruct (CommitBlobs_law _ _ _ _ _ _ Hok H32 Ec) as [Hev Hins].
    exists s'. split_and!; [done|done|]. intros ins Hr. destruct (Hins ins Hr) as [Hi1 Hi2].
    split; [|done]. exact (transitivity Hi1 Hs1).
  - intros [= <- <-]. exists (c_storage c). split_and!; [by destruct c|by apply evolves_refl|done].
  - intros [= <- <-]. exists (c_storage c). split_and!; [by destruct c|by apply evolves_refl|done].
Qed.

Lemma blobs_in_hashes first last blobs :
  hash_commits blobs → hash_commits (blobs_in first last blobs) ∧
  ∀ k, k ∈ BlobIndex <$> blobs_in first last blobs → first ≤ k ≤ last.
Proof.
  intros Hc. have Hs : blobs_in first last blobs `sublist_of` blobs by apply sublist_filter. split.
  - exact (sublist_Forall _ _ _ Hs Hc).
  - intros k (b & -> & Hb)%list_elem_of_fmap. apply list_elem_of_filter in Hb as [? _]. lia.
Qed.

(** The loop over the indexes from [n] on: [pre] are the inserted ones before
    [n], [suf] the others. *)
Lemma missing_loop inserted m n pre suf missing :
  inserted = pre ++ suf → StronglySorted Z.lt suf → (∀ x, x ∈ suf → n ≤ x) → suf ≠ [] →
  Z.of_nat m = List.last suf 0 - n + 1 →
  ∃ i new, foldM (λ '(i, missing) n,
      x ← index inserted i;
      if x =? n then mret (i + 1, missing)
      else if n <? x then mret (i, missing ++ [n])
      else mret (i, missing)) (zlen pre, missing) (seqZ n (Z.of_nat m)) = Ret (i, missing ++ new) ∧
    ∀ k, k ∈ new ↔ n ≤ k ≤ List.last suf 0 ∧ k ∉ suf.
Proof.
  revert n pre suf missing. induction m as [|m IH]; intros n pre suf missing Hins Hs Hge Hne Hm.
  { destruct (exists_last Hne) as (l & x & ->). rw last_last in Hm *.
    have ? : n ≤ x by (apply Hge; set_solver). lia. }
  destruct suf as [|x suf]; [done|]. rw seqZ_cons; [lia|].
  have -> : Z.pred (Z.of_nat (Datatypes.S m)) = Z.of_nat m by lia.
  have Hx : index inserted (zlen pre) = Ret x.
  { rw /index (proj2 (Z.leb_le _ _)); [apply zlen_nonneg|]. rw Hins /zlen Nat2Z.id.
    by rw list_lookup_middle. }
  rw foldM_cons Hx {1}/mbind {1}/gores_bind {1}/mbind {1}/gores_bind.
  have Hnx : n ≤ x by (apply Hge; set_solver).
  apply StronglySorted_inv in Hs as [Hs Hall]. rw Forall_forall in Hall.
  case: Z.eqb_spec => [Exn|Hxn].
  - subst x. destruct suf as [|y suf].
    { change (List.last [n] 0) with n in Hm |- *. have -> : m = 0%nat by lia. exists (zlen pre + 1), []. rw app_nil_r. split; [done|].
      intros k. rw elem_of_nil list_elem_of_singleton. lia. }
    have E : zlen (pre ++ [n]) = zlen pre + 1 by rw zlen_app.
    destruct (IH (Z.succ n) (pre ++ [n]) (y :: suf) missing) as (i & new & Hf & Hk); [|done| |done| |].
    + by rw Hins -app_assoc.
    + intros z Hz. specialize (Hall z Hz). lia.
    + have El : List.last (n :: y :: suf) 0 = List.last (y :: suf) 0 by done. lia.
    + exists i, new. rw E in Hf. split; [exact Hf|]. intros k. rw Hk.
      change (List.last (n :: y :: suf) 0) with (List.last (y :: suf) 0). set_unfold. split.
      * intros [? ?]. split; [lia|]. intros [?|?]; [lia|done].
      * intros [? Hn]. split; [|by intros ?; apply Hn; right].
        have ? : k ≠ n by (intros ->; apply Hn; by left). lia.
  - rw (proj2 (Z.ltb_lt _ _)); [lia|].
    destruct (IH (Z.succ n) pre (x :: suf) (missing ++ [n])) as (i & new & Hf & Hk); [done| | |done| |].
    + constructor; [done|]. by apply Forall_forall.
    + intros z [-> |Hz]%elem_of_cons; [lia|]. specialize (Hall z Hz). lia.
    + lia.
    + exists i, (n :: new). rw -app_assoc in Hf. split; [exact Hf|]. intros k. rw elem_of_cons Hk. split.
      * intros [-> |[? ?]]; [|split; [lia|done]]. split; [lia|].
        intros [?|Hz]%elem_of_cons; [lia|]. specialize (Hall _ Hz). lia.
      * intros [? ?]. destruct (decide (k = n)); [by left|]. right. split; [lia|done].
Qed.

Lemma sorted_last l x : StronglySorted Z.le l → x ∈ l → x ≤ List.last l 0.
Proof.
  intros Hs. revert x. induction Hs as [|y l Hs IH Hall]; intros x; [by intros ?%not_elem_of_nil|].
  rw Forall_forall in Hall. destruct l as [|z l]; [intros ?%list_elem_of_singleton; simpl; lia|].
  change (List.last (y :: z :: l) 0) with (List.last (z :: l) 0).
  intros [-> |Hx]%elem_of_cons; [|by apply IH]. etrans; [apply (Hall z); set_solver|]. apply IH. set_solver.
Qed.

Lemma sorted_strict l : StronglySorted Z.le l → NoDup l → StronglySorted Z.lt l.
Proof.
  intros Hs. induction Hs as [|y l Hs IH Hall]; [constructor|]. intros [Hy Hn]%NoDup_cons.
  constructor; [by apply IH|]. rw !Forall_forall in Hall *. intros x Hx. specialize (Hall x Hx).
  have ? : x ≠ y by congruence. lia.
Qed.

(** With repetitions too, the loop stays in the list and in the range. *)
Lemma missing_loop_range inserted m n i missing :
  StronglySorted Z.le inserted → is_Some (inserted !! i) → Z.of_nat m = List.last inserted 0 - n + 1 →
  ∃ j new, foldM (λ '(i, missing) n,
      x ← index inserted i;
      if x =? n then mret (i + 1, missing)
      else if n <? x then mret (i, missing ++ [n])
      else mret (i, missing)) (Z.of_nat i, missing) (seqZ n (Z.of_nat m)) = Ret (j, missing ++ new) ∧
    ∀ k, k ∈ new → n ≤ k < n + Z.of_nat m.
Proof.
  intros Hs. revert n i missing. induction m as [|m IH]; intros n i missing [x Hx] Hm.
  { exists (Z.of_nat i), []. rw app_nil_r. split; [done|]. by intros k []%not_elem_of_nil. }
  rw seqZ_cons; [lia|]. have -> : Z.pred (Z.of_nat (Datatypes.S m)) = Z.of_nat m by lia.
  have Ei : index inserted (Z.of_nat i) = Ret x by rw /index (proj2 (Z.leb_le _ _)); [lia|]; rw Nat2Z.id Hx.
  rw foldM_cons Ei {1}/mbind {1}/gores_bind {1}/mbind {1}/gores_bind.
  case: Z.eqb_spec => [Exn|Hxn].
  - subst x. destruct (decide (m = 0%nat)) as [-> |Hm0].
    { exists (Z.of_nat i + 1), []. rw app_nil_r. split; [done|]. by intros k []%not_elem_of_nil. }
    have Hi : is_Some (inserted !! Datatypes.S i).
    { apply lookup_lt_is_Some. pose proof (lookup_lt_Some _ _ _ Hx) as Hlt.
      destruct (decide (Datatypes.S i = length inserted)) as [E|]; [|lia].
      destruct (exists_last (l := inserted)) as (l & y & El); [by intros ->|].
      rw El last_last in Hm. rw El length_app /= in E. rw El lookup_app_r in Hx; [lia|].
      have E0 : (i - length l = 0)%nat by lia. rw E0 in Hx. simplify_eq/=. lia. }
    destruct (IH (Z.succ n) (Datatypes.S i) missing Hi) as (j & new & Hf & Hk); [lia|].
    exists j, new. have Es : Z.of_nat i + 1 = Z.of_nat (Datatypes.S i) by lia. rw Es.
    split; [exact Hf|]. intros k Hk'. specialize (Hk k Hk'). lia.
  - case: Z.ltb_spec => ?.
    + destruct (IH (Z.succ n) i (missing ++ [n])) as (j & new & Hf & Hk); [by exists x|lia|].
      exists j, (n :: new). rw -app_assoc in Hf. split; [exact Hf|].
      intros k [-> |Hk']%elem_of_cons; [lia|]. specialize (Hk k Hk'). lia.
    + destruct (IH (Z.succ n) i missing) as (j & new & Hf & Hk); [by exists x|lia|].
      exists j, new. split; [exact Hf|]. intros k Hk'. specialize (Hk k Hk'). lia.
Qed.

(** The missing indexes lie in the range; without repetitions, they are those not
    inserted. *)
Lemma missing_indexes_spec next ins :
  ins ≠ [] → (∀ k, k ∈ ins → next ≤ k) →
  let sorted := merge_sort Z.le ins in
  let last := List.last sorted 0 in
  last ∈ ins ∧ (∀ k, k ∈ ins → k ≤ last) ∧
  ∃ missing, missing_indexes next last sorted = Ret missing ∧
    (∀ k, k ∈ missing → next ≤ k ≤ last) ∧
    (NoDup ins → ∀ k, k ∈ missing ↔ next ≤ k ≤ last ∧ k ∉ ins).
Proof.
  intros Hne Hge sorted last.
  have Hp : sorted ≡ₚ ins by apply merge_sort_Permutation.
  have Hel k : k ∈ sorted ↔ k ∈ ins by rw Hp.
  have Hss : StronglySorted Z.le sorted by apply StronglySorted_merge_sort; apply _.
  have Hne' : sorted ≠ [].
  { intros E. apply Permutation_length in Hp. rw E in Hp. by destruct ins. }
  have Hlast : last ∈ sorted.
  { rw /last. destruct (exists_last Hne') as (l & x & E). rw E last_last. set_solver. }
  split_and!; [by apply Hel|intros k Hk; apply sorted_last; [done|by apply Hel]|].
  rw /missing_indexes.
  have Hge' : next ≤ last by apply Hge, Hel.
  destruct (missing_loop_range sorted (Z.to_nat (last - next + 1)) next 0 [] Hss)
    as (j & new & Hf & Hr).
  { apply lookup_lt_is_Some. destruct sorted; [done|]. simpl. lia. }
  { rw -/last. lia. }
  rw Z2Nat.id in Hf; [lia|]. change (Z.of_nat 0) with 0 in Hf. rw Hf. exists new. split; [done|].
  split; [intros k Hk; specialize (Hr k Hk); lia|]. intros Hn k.
  destruct (missing_loop sorted (Z.to_nat (last - next + 1)) next [] sorted [])
    as (i & new' & Hf' & Hk); [done| | |done| |].
  - apply sorted_strict; [done|]. by rw Hp.
  - intros x Hx. by apply Hge, Hel.
  - rw -/last. lia.
  - rw Z2Nat.id in Hf'; [lia|]. change (zlen []) with 0 in Hf'.
    have E : new = new' by rw Hf in Hf'; simplify_eq/=. rw E Hk Hel. done.
Qed.

(** ** Changes to the work of one task *)

Lemma task_ok_frame stg seen subs subs' empties empties' ti t :
  (∀ a, a ∈ t_SubTasks t → subs' !! a = subs !! a) →
  (∀ a, a ∈ t_SubEmptyTasks t → empties' !! a = empties !! a) →
  task_ok stg seen subs empties ti t → task_ok stg seen subs' empties' ti t.
Proof.
  intros Hs He [H1 H2 H3 H4 H5 H6]. constructor; try done.
  - intros a Ha. rw Hs //. by apply H3.
  - intros i Hi. destruct (H4 i Hi) as (a & st & Ha & Hst & Hr). exists a, st. by rw Hs.
  - intros a Ha. rw He //. by apply H5.
  - intros k Hk. destruct (H6 k Hk) as [?|[?|[(a & st & Ha & Hst & Hr)|[Hfl [?|(a & se & Ha & Hse & Hr)]]]]].
    + by left.
    + by right; left.
    + do 2 right. left. exists a, st. by rw Hs.
    + do 3 right. split; [done|by left].
    + do 3 right. split; [done|]. right. exists a, se. by rw He.
Qed.

(** A goroutine does not notice changes to other sub tasks, nor that the start
    of its sub task moves, as long as its sub task stays in the list. *)
Lemma gor_ok_frame stg seen tasks tasks' subs subs' empties empties' g :
  (∀ a st, sub_of g = Some a → subs !! a = Some st →
     ∃ f, subs' !! a = Some (mkSubTask (st_task st) (st_next st) f (st_Last st)
                               (st_isRunning st) (st_done st))) →
  (∀ a, empty_of g = Some a → empties' !! a = empties !! a) →
  (∀ a st t, sub_of g = Some a → subs !! a = Some st → st_done st = false →
     tasks !! st_task st = Some t → a ∈ t_SubTasks t →
     ∃ t', tasks' !! st_task st = Some t' ∧ a ∈ t_SubTasks t') →
  (∀ a se t, empty_of g = Some a → empties !! a = Some se → se_done se = false →
     tasks !! se_task se = Some t → a ∈ t_SubEmptyTasks t →
     ∃ t', tasks' !! se_task se = Some t' ∧ a ∈ t_SubEmptyTasks t') →
  gor_ok stg seen tasks subs empties g → gor_ok stg seen tasks' subs' empties' g.
Proof.
  intros Hs He Ht Hte.
  have HR req : sub_of g = Some (rr_subTask req) → range_live tasks subs req →
    range_live tasks' subs' req.
  { intros Hg (st & t & H1 & H2 & H3 & H4 & H5 & H6 & H7).
    destruct (Hs _ st Hg H1) as (f & Hf). destruct (Ht _ st t Hg H1 H3 H6 H7) as (t' & T1 & T2).
    eexists _, t'. split; [exact Hf|]. simpl. split_and!; try done; lia. }
  have HF a start limit : empty_of g = Some a → fill_live tasks empties a start limit →
    fill_live tasks' empties' a start limit.
  { intros Hg (se & t & H1 & H2 & H3 & H4 & H5 & H6 & H7 & H8).
    destruct (Hte _ se t Hg H1 H3 H7 H8) as (t' & T1 & T2).
    exists se, t'. rw He //. }
  destruct g; simpl in *; naive_solver.
Qed.

Lemma exclusive_other (on : goroutine → option Z) gs i j g h a :
  exclusive on gs → gs !! i = Some g → gs !! j = Some h → i ≠ j → on g = Some a → on h ≠ Some a.
Proof. intros He Hi Hj Hij Hg Hh. by apply Hij, (He i j g h a). Qed.

(** A task takes the missing indexes, and its sub task [a] moves past [last]. *)
Lemma task_ok_advance stg seen subs empties ti t a st last missing t' st' :
  task_ok stg seen subs empties ti t → subs !! a = Some st → a ∈ t_SubTasks t →
  st_next st ≤ last < st_Last st →
  (∀ k, k ∈ missing → st_next st ≤ k ≤ last) →
  (∀ k, st_next st ≤ k ≤ last → settled stg seen k ∨ k ∈ missing) →
  t_Contract t' = t_Contract t → t_ShardId t' = t_ShardId t → t_SubTasks t' = t_SubTasks t →
  t_SubEmptyTasks t' = t_SubEmptyTasks t → dom (t_heal t') = dom (t_heal t) ∪ list_to_set missing →
  st' = mkSubTask (st_task st) (last + 1) (st_First st) (st_Last st) (st_isRunning st)
          (last =? st_Last st - 1) →
  task_ok stg seen (<[a := st']> subs) empties ti t'.
Proof.
  intros [H1 H2 H3 H4 H5 H6] Ha Hat Hl Hm Hmk E1 E2 E3 E4 E5 Est'.
  have Hlook b : (<[a := st']> subs) !! b = if decide (b = a) then Some st' else subs !! b.
  { destruct (decide (b = a)) as [-> |]; [by rw lookup_insert_eq|].
    by rw lookup_insert_ne; [congruence|]. }
  destruct (H3 a Hat) as (st0 & Hst0 & Hti & [W1 W2 W3]). have ? : st0 = st by congruence. subst st0.
  constructor; rw ?E1 ?E2 ?E3 ?E4 //.
  - intros b Hb. rw Hlook. case_decide as Hba; [|by apply H3]. eexists. split; [done|]. rw Est'.
    split; [done|]. constructor; simpl; [lia|done|]. case: Z.eqb_spec; lia.
  - intros i. rw E5. intros [Hi|Hi]%elem_of_union.
    + destruct (H4 i Hi) as (b & sb & Hb & Hsb & Hr). exists b. rw Hlook. case_decide as Hba.
      * subst b. have ? : sb = st by congruence. subst sb. exists st'. rw Est' /=. split_and!; [done..|lia|lia].
      * exists sb. done.
    + apply elem_of_list_to_set, Hm in Hi. exists a, st'. rw lookup_insert_eq Est' /=. split_and!; [done..|lia|lia].
  - intros k Hk. destruct (H6 k Hk) as [?|[?|[(b & sb & Hb & Hsb & Hr)|[Hfl Hx]]]].
    + by left.
    + right. left. rw E5. set_solver.
    + destruct (decide (b = a)) as [-> |Hba].
      * have ? : sb = st by congruence. subst sb. destruct (decide (k ≤ last)) as [Hkl|Hkl].
        -- destruct (Hmk k) as [|Hkm]; [lia|by left|]. right. left. rw E5. set_solver.
        -- do 2 right. left. exists a, st'. rw E3 lookup_insert_eq Est' /=. split_and!; [done..|lia|lia].
      * do 2 right. left. exists b, sb. rw E3 lookup_insert_ne; [congruence|done].
    + do 3 right. split; [done|]. by rw E4.
Qed.

(** A change to the sub task [a] of task [ti] and to that task, made by the
    goroutine [i] that works on [a]. *)
Lemma run_ok_work c gs seen i g ti t t' a st st' c' g' :
  run_ok c gs seen → gs !! i = Some g → sub_of g = Some a →
  c_tasks c !! ti = Some t → a ∈ t_SubTasks t → c_subs c !! a = Some st →
  c' = set_work c (<[ti := t']> (c_tasks c)) (<[a := st']> (c_subs c)) (c_empties c) →
  task_ok (c_storage c) seen (<[a := st']> (c_subs c)) (c_empties c) ti t' →
  t_ShardId t' = t_ShardId t → t_SubTasks t' = t_SubTasks t → t_SubEmptyTasks t' = t_SubEmptyTasks t →
  g' = RangeEnd a → st_isRunning st' = true →
  run_ok c' (<[i := g']> gs) seen.
Proof.
  intros Hr Hi Hg Hti Ha Hst -> Hok Eid Esub Eem -> Hrun.
  pose proof Hr as [R1 R2 R3 R4 R5 R6 R7 R8 R9].
  have Hlt := lookup_lt_Some _ _ _ Hti.
  destruct (tk_subs _ _ _ _ _ _ _ (R3 ti t Hti) a Ha) as (st0 & Hst0 & Hta & _).
  have Hother tj u : c_tasks c !! tj = Some u → tj ≠ ti → a ∉ t_SubTasks u.
  { intros Hu Hj Hau. destruct (tk_subs _ _ _ _ _ _ _ (R3 tj u Hu) a Hau) as (st1 & ? & ? & _).
    congruence. }
  constructor; try done; simpl.
  - by apply (config_ok_same c).
  - intros tj u. destruct (decide (ti = tj)) as [<- |Hne].
    + rw list_lookup_insert_eq //. by intros [= <-].
    + rw list_lookup_insert_ne // => Hu. apply (task_ok_frame _ _ (c_subs c) _ (c_empties c)); [|done|by apply R3].
      intros b Hb. rw lookup_insert_ne //. intros <-. exact (Hother tj u Hu (not_eq_sym Hne) Hb).
  - intros sid Hsid. destruct (R4 sid Hsid) as (tj & u & Hu & Hid).
    destruct (decide (ti = tj)) as [<- |Hne].
    + exists ti, t'. rw list_lookup_insert_eq //. split; [done|]. congruence.
    + exists tj, u. by rw list_lookup_insert_ne.
  - intros j h. destruct (decide (i = j)) as [<- |Hij].
    + rw list_lookup_insert_eq; [exact (lookup_lt_Some _ _ _ Hi)|]. intros [= <-]. simpl.
      exists st'. by rw lookup_insert_eq.
    + rw list_lookup_insert_ne // => Hj. pose proof (exclusive_other _ _ _ _ _ _ _ R6 Hi Hj Hij Hg) as Hha.
      have Htask tk u : c_tasks c !! tk = Some u → ∃ u', <[ti := t']> (c_tasks c) !! tk = Some u' ∧
        t_SubTasks u' = t_SubTasks u ∧ t_SubEmptyTasks u' = t_SubEmptyTasks u.
      { intros Hu. destruct (decide (ti = tk)) as [<- |].
        - exists t'. rw list_lookup_insert_eq //. have -> : u = t by congruence. done.
        - exists u. by rw list_lookup_insert_ne. }
      apply (gor_ok_frame _ _ (c_tasks c) _ (c_subs c) _ (c_empties c)); [| done | | |by apply (R5 j)].
      * intros b sb Hb Hsb. exists (st_First sb). rw lookup_insert_ne; [congruence|]. rw Hsb. by destruct sb.
      * intros b sb u _ _ _ Hu Hbu. destruct (Htask _ u Hu) as (u' & ? & E & _). exists u'. by rw E.
      * intros b sb u _ _ _ Hu Hbu. destruct (Htask _ u Hu) as (u' & ? & _ & E). exists u'. by rw E.
  - apply (exclusive_insert sub_of gs i g); [done|done|by left].
  - apply (exclusive_insert empty_of gs i g); [done|done|by right].
Qed.

Lemma alter_insert_lookup (l : list task) i t f : l !! i = Some t → alter f i l = <[i := f t]> l.
Proof.
  intros Hi. apply list_eq => j. destruct (decide (i = j)) as [<- |].
  - rw list_lookup_alter_eq Hi list_lookup_insert_eq //. exact (lookup_lt_Some _ _ _ Hi).
  - by rw list_lookup_alter_ne // list_lookup_insert_ne.
Qed.

Lemma range_record_ok c gs seen i req ins c' :
  run_ok c gs seen → gs !! i = Some (RangeIn req ins) → range_record req ins c = (Ret tt, c') →
  run_ok c' (<[i := RangeEnd (rr_subTask req)]> gs) seen.
Proof.
  intros Hr Hi. destruct (ro_gs _ _ _ _ Hr i _ Hi) as (Hlive & Hnd & Hins).
  pose proof Hlive as (st & t & L1 & L2 & L3 & L4 & L5 & L6 & L7).
  rw /range_record (proj2 (sub_at_Ret c _ st) L1). case_bool_decide as He.
  { intros [= <-]. apply (run_ok_quiet c); [|apply quiet_stateless].
    apply (run_ok_goroutine _ _ _ _ _ _ Hr Hi); [by left|by left|]. by exists st. }
  destruct (missing_indexes_spec (st_next st) ins He) as (Hlast & Hmax & missing & Hm & Hmr & Hmk).
  { intros k Hk. destruct (Hins k Hk). lia. }
  set sorted := merge_sort Z.le ins in Hlast Hmax Hm Hmr Hmk *.
  set last := List.last sorted 0 in Hlast Hmax Hm Hmr Hmk *.
  rw Hm. intros [= <-]. destruct (Hins last Hlast) as [Hlr _].
  pose proof (ro_tasks _ _ _ _ Hr _ t L6) as Hok.
  destruct (tk_subs _ _ _ _ _ _ _ Hok _ L7) as (st0 & Hst0 & Hti & [W1 W2 W3]).
  have ? : st0 = st by congruence. subst st0.
  have E1 : add64 last 1 = last + 1 by rw /add64 wrap64_small //; unfold two63, two64 in *; lia.
  have E2 : sub64 (st_Last st) 1 = st_Last st - 1 by rw /sub64 wrap64_small //; unfold two63, two64 in *; lia.
  rw E1 E2 L3 orb_false_l /on_task /set_tasks (alter_insert_lookup _ _ t _ L6).
  eapply (run_ok_work c gs seen i _ (st_task st) t _ _ st); [done|exact Hi|done|done|done|done|done|..];
    try done.
  apply (task_ok_advance _ _ _ _ _ t _ st last missing); try done.
  - lia.
  - intros k Hk. destruct (decide (k ∈ ins)) as [Hki|Hki]; [left; left; by apply Hins|].
    destruct Hnd as [Hnd|Hrep]; [right; by apply Hmk|]. left. right. apply Hrep. lia.
  - simpl. by rw heal_insert_dom.
Qed.

(** Changes to tasks that keep their lists of sub tasks. *)
Lemma run_ok_tasks c gs seen ts :
  run_ok c gs seen →
  Forall2 (λ t t', t_ShardId t' = t_ShardId t ∧ t_SubTasks t' = t_SubTasks t ∧
                   t_SubEmptyTasks t' = t_SubEmptyTasks t) (c_tasks c) ts →
  (∀ ti t t', c_tasks c !! ti = Some t → ts !! ti = Some t' →
     task_ok (c_storage c) seen (c_subs c) (c_empties c) ti t') →
  run_ok (set_tasks c ts) gs seen.
Proof.
  intros [R1 R2 R3 R4 R5 R6 R7 R8 R9] HF Hok.
  have Htask tk u : c_tasks c !! tk = Some u → ∃ u', ts !! tk = Some u' ∧
    t_ShardId u' = t_ShardId u ∧ t_SubTasks u' = t_SubTasks u ∧ t_SubEmptyTasks u' = t_SubEmptyTasks u.
  { intros Hu. destruct (Forall2_lookup_l _ _ _ _ _ HF Hu) as (u' & ? & ?). eauto. }
  constructor; try done; simpl.
  - by apply (config_ok_same c).
  - intros ti t' Ht'. destruct (Forall2_lookup_r _ _ _ _ _ HF Ht') as (t & Ht & _). by apply (Hok ti t).
  - intros sid Hsid. destruct (R4 sid Hsid) as (ti & t & Ht & <-).
    destruct (Htask ti t Ht) as (t' & ? & ? & _). eauto.
  - intros i g Hi. apply (gor_ok_frame _ _ (c_tasks c) _ (c_subs c) _ (c_empties c)); [|done| | |by apply (R5 i)].
    + intros a st _ Hst. exists (st_First st). rw Hst. by destruct st.
    + intros a st t _ _ _ Ht Ha. destruct (Htask _ t Ht) as (t' & ? & _ & E & _). exists t'. by rw E.
    + intros a st t _ _ _ Ht Ha. destruct (Htask _ t Ht) as (t' & ? & _ & _ & E). exists t'. by rw E.
Qed.

Lemma list_record_ok c gs seen i req ins :
  run_ok c gs seen → gs !! i = Some (ListIn req ins) →
  run_ok (list_record req ins c) (<[i := Finished]> gs) seen.
Proof.
  intros Hr Hi. pose proof (ro_gs _ _ _ _ Hr i _ Hi) as Hins. simpl in Hins.
  apply (run_ok_goroutine _ _ _ i (ListIn req ins) Finished); [|done|by left|by left|done].
  rw /list_record. set c1 := on_task c _ _. set c2 := if bool_decide _ then _ else _.
  have Hq1 : quiet c c1 by apply quiet_on_task.
  have Hq : quiet c c2.
  { rw /c2. case_bool_decide; [|done]. apply (quiet_trans _ c1); [done|apply quiet_stateless]. }
  have Hr2 := run_ok_quiet _ _ _ _ Hr Hq. pose proof (qt_storage _ _ Hq) as Est.
  apply run_ok_tasks; [done| |].
  - apply Forall2_same_length_lookup. split; [by rw length_alter|]. intros j x y Hx Hy.
    destruct (decide (lr_task req = j)) as [<- |].
    + rw list_lookup_alter_eq Hx in Hy. by injection Hy as <-.
    + rw list_lookup_alter_ne // Hx in Hy. by injection Hy as <-.
  - intros ti t t' Ht Ht'. pose proof (ro_tasks _ _ _ _ Hr2 ti t Ht) as Hok.
    destruct (decide (lr_task req = ti)) as [<- |]; last first.
    { rw list_lookup_alter_ne // Ht in Ht'. by injection Ht' as <-. }
    rw list_lookup_alter_eq Ht in Ht'. injection Ht' as <-. destruct Hok as [H1 H2 H3 H4 H5 H6].
    constructor; try done; simpl.
    + intros k. rw heal_remove_dom. intros [? _]%elem_of_difference. by apply H4.
    + intros k Hk. destruct (decide (k ∈ ins)) as [Hki|Hki]; [left; left; rw Est; by apply Hins|].
      destruct (H6 k Hk) as [?|[?|[?|?]]]; [by left| |by right; right; left|by right; right; right].
      right. left. simpl. rw heal_remove_dom. set_solver.
Qed.

Lemma fill_read_ok c gs seen i a start limit :
  run_ok c gs seen → gs !! i = Some (FillStart a start limit) →
  run_ok c (<[i := FillRead a start limit (mgr_KvEntryCount (c_storage c))]> gs)
    (seen ++ [(c_storage c, FillRead a start limit (mgr_KvEntryCount (c_storage c)))]).
Proof.
  intros Hr Hi. pose proof (ro_gs _ _ _ _ Hr i _ Hi) as Hl.
  apply (run_ok_goroutine _ _ _ i (FillStart a start limit));
    [by apply run_ok_seen|done|by left|by left|]. simpl. split; [done|].
  intros k Hk. eexists (c_storage c), _. split; [apply elem_of_app; right; apply list_elem_of_here|].
  split; [done|]. by apply mgr_data_count.
Qed.

Lemma fill_commit_ok c gs seen i a start limit cnt next err c' :
  run_ok c gs seen → gs !! i = Some (FillRead a start limit cnt) →
  on_storage (fill_with cnt start limit) c = (Ret (next, err), c') →
  run_ok c' (<[i := FillDone a start next]> gs) (seen ++ [(c_storage c, FillDone a start next)]).
Proof.
  intros Hr Hi. destruct (ro_gs _ _ _ _ Hr i _ Hi) as [Hl Hcnt].
  pose proof Hl as (se & t & L1 & L2 & L3 & L4 & L5 & L6 & L7 & L8).
  destruct (tk_empties _ _ _ _ _ _ _ (ro_tasks _ _ _ _ Hr _ t L7) a L8) as (se' & Hse' & _ & [W1 W2]).
  have ? : se' = se by congruence. subst se'.
  have Hgo s' : evolves (c_storage c) s' → start ≤ next ≤ limit + 1 →
    (∀ k, start ≤ k < next → mgr_filled s' k ∨ seen_data (seen ++ [(c_storage c, FillDone a start next)]) k) →
    run_ok (set_storage c s') (<[i := FillDone a start next]> gs) (seen ++ [(c_storage c, FillDone a start next)]).
  { intros Hev Hn Hk. apply (run_ok_goroutine _ _ _ i (FillRead a start limit cnt));
      [|done|by left|by left|by exists limit]. by apply run_ok_evolves, Hev; apply run_ok_seen. }
  have Hold k : seen_data seen k → seen_data (seen ++ [(c_storage c, FillDone a start next)]) k.
  { apply seen_data_mono. set_solver. }
  rw /on_storage /fill_with. case: Z.ltb_spec => Hlc.
  - intros E. have [En ->] : next = limit + 1 ∧ c' = set_storage c (c_storage c).
    { injection E as <- _ <-. split; [|done]. rw /add64 wrap64_small //. unfold two63, two64 in *. lia. }
    apply Hgo; [apply evolves_refl, Hr|lia|]. intros k Hk. right. apply Hold, Hcnt. lia.
  - rw /mbind /st_bind. set start' := if start <? cnt then cnt else start.
    destruct (mgr_CommitEmptyBlobs start' limit (c_storage c)) as [r s'] eqn:E.
    have Hst' : start ≤ start' ≤ limit + 1 ∧ ∀ k, start ≤ k < start' → k < cnt.
    { rw /start'. case: Z.ltb_spec => ?; (split; [lia|]); lia. }
    destruct (CommitEmptyBlobs_law _ start' limit r s' (ro_ok _ _ _ _ Hr)) as [Hev Hn];
      [lia|unfold two63 in *; lia|done|].
    destruct r as [[[n1 n2] e]| |]; [|done..]. simpl. intros [= -> -> <-].
    destruct (Hn _ _ _ eq_refl) as [Hb Hk]. apply Hgo; [done|lia|].
    intros k Hk'. destruct (decide (k < start')).
    + right. apply Hold, Hcnt. split; [lia|]. apply Hst'. lia.
    + destruct (Hk k) as [|Hd]; [lia|by left|]. right. eexists (c_storage c), _.
      split; [apply elem_of_app; right; apply list_elem_of_here|done].
Qed.

(** An empty sub task [a] of [t] moves to [next]. *)
Lemma task_ok_filled stg seen subs empties ti t t' a se next se' :
  task_ok stg seen subs empties ti t → empties !! a = Some se → a ∈ t_SubEmptyTasks t →
  se_First se ≤ next ≤ se_Last se → se_done se = false →
  (∀ k, se_First se ≤ k < next → settled stg seen k ∨ seen_data seen k) →
  same_task t t' →
  se' = mkSubEmptyTask (se_task se) next (se_Last se) false (se_Last se <=? next) →
  task_ok stg seen subs (<[a := se']> empties) ti t'.
Proof.
  intros [H1 H2 H3 H4 H5 H6] Ha Hat Hn Hd Hk [E1 E2 E3 E4 E5] Ese'.
  destruct (H5 a Hat) as (se0 & Hse0 & Hti & [W1 W2]). have ? : se0 = se by congruence. subst se0.
  constructor; rw ?E1 ?E2 ?E3 ?E4 ?E5 //.
  - intros b Hb. destruct (decide (a = b)) as [<- |]; [|rw lookup_insert_ne //; by apply H5].
    rw lookup_insert_eq. eexists. split; [done|]. rw Ese'. split; [done|].
    constructor; simpl; [lia|]. intros ?%Z.leb_le. lia.
  - intros k Hkr. destruct (H6 k Hkr) as [?|[?|[?|[Hfl [?|(b & sb & Hb & Hsb & Hr)]]]]].
    + by left.
    + right. left. by rw E5.
    + do 2 right. left. by rw E3.
    + do 3 right. split; [done|by left].
    + destruct (decide (a = b)) as [<- |Hba].
      * have ? : sb = se by congruence. subst sb. destruct (decide (k < next)).
        -- destruct (Hk k) as [|]; [lia|by left|]. do 3 right. split; [done|by left].
        -- do 3 right. split; [done|]. right. exists a, se'. rw E4 lookup_insert_eq Ese' /=.
           split_and!; [done..|lia|lia].
      * do 3 right. split; [done|]. right. exists b, sb. by rw E4 lookup_insert_ne.
Qed.

Lemma fill_finish_ok c gs seen i a start next c' :
  run_ok c gs seen → gs !! i = Some (FillDone a start next) →
  fill_finish a start next c = (Ret tt, c') →
  run_ok c' (<[i := Finished]> gs) seen.
Proof.
  intros Hr Hi. destruct (ro_gs _ _ _ _ Hr i _ Hi) as (limit & Hl & Hn & Hk).
  pose proof Hl as (se & t & L1 & L2 & L3 & L4 & L5 & L6 & L7 & L8).
  rw /fill_finish /mbind /st_bind /st_get /st_lift /st_put (proj2 (empty_at_Ret c a se) L1).
  intros [= <-]. rw L3 orb_false_l. set se' := mkSubEmptyTask _ _ _ _ _.
  pose proof Hr as [R1 R2 R3 R4 R5 R6 R7 R8 R9].
  set t' := set_state t (add_EmptyFilled (sub64 next start) (t_state t)).
  rw /on_task (alter_insert_lookup _ _ t _ L7) -/t'.
  have Hlt := lookup_lt_Some _ _ _ L7.
  have HF : Forall2 same_task (c_tasks c) (<[se_task se := t']> (c_tasks c)).
  { rw -(alter_insert_lookup _ _ t (λ _, t') L7). apply Forall2_same_length_lookup.
    split; [by rw length_alter|]. intros j x y Hx Hy. destruct (decide (se_task se = j)) as [<- |].
    - rw list_lookup_alter_eq Hx in Hy. injection Hy as <-. by have -> : x = t by congruence.
    - rw list_lookup_alter_ne // Hx in Hy. injection Hy as <-. done. }
  constructor; try done; simpl.
  - by apply (config_ok_same c).
  - intros tj u. destruct (decide (se_task se = tj)) as [<- |Hne].
    + rw list_lookup_insert_eq //. intros [= <-].
      apply (task_ok_filled _ _ _ (c_empties c) _ t _ _ se next); try done; [by apply R3|lia|].
      rw L4. intros k Hk'. destruct (Hk k Hk'); [by left; left|by right].
    + rw list_lookup_insert_ne // => Hu. apply (task_ok_frame _ _ (c_subs c) _ (c_empties c)); [done| |by apply R3].
      intros b Hb. rw lookup_insert_ne //. intros <-.
      destruct (tk_empties _ _ _ _ _ _ _ (R3 tj u Hu) a Hb) as (se1 & ? & ? & _). congruence.
  - intros sid Hsid. destruct (R4 sid Hsid) as (tj & u & Hu & Hid).
    destruct (Forall2_same_lookup _ _ _ _ HF Hu) as (u' & Hu' & E). exists tj, u'.
    by rw (sa_shard _ _ E).
  - intros j h. destruct (decide (i = j)) as [<- |Hij].
    + rw list_lookup_insert_eq; [exact (lookup_lt_Some _ _ _ Hi)|]. by intros [= <-].
    + rw list_lookup_insert_ne // => Hj.
      pose proof (exclusive_other _ _ _ _ _ _ _ R7 Hi Hj Hij eq_refl) as Hha.
      apply (gor_ok_frame _ _ (c_tasks c) _ (c_subs c) _ (c_empties c)); [| | | |by apply (R5 j)].
      * intros b sb Hb Hsb. exists (st_First sb). rw Hsb. by destruct sb.
      * intros b Hb. rw lookup_insert_ne //. congruence.
      * intros b sb u _ _ _ Hu Hbu. destruct (Forall2_same_lookup _ _ _ _ HF Hu) as (u' & ? & E).
        exists u'. by rw (sa_subs _ _ E).
      * intros b sb u _ _ _ Hu Hbu. destruct (Forall2_same_lookup _ _ _ _ HF Hu) as (u' & ? & E).
        exists u'. by rw (sa_empties _ _ E).
  - apply (exclusive_insert sub_of gs i (FillDone a start next)); [done|done|by left].
  - apply (exclusive_insert empty_of gs i (FillDone a start next)); [done|done|by right].
Qed.

(** ** Removal of finished sub tasks *)

(** [st] after its start has moved up to the first KV still to heal. *)
Record cleaned (heal : gmap Z Z) (st st' : subTask) : Prop := {
  cl_eq : st' = mkSubTask (st_task st) (st_next st) (st_First st') (st_Last st)
                  (st_isRunning st) (st_done st);
  cl_heal i : i ∈ dom heal → st_First st ≤ i < st_next st → st_First st' ≤ i
}.

(** [l] of the sub tasks [todo] are kept; those dropped were done and have
    nothing to heal. *)
Record clean_post (heal : gmap Z Z) (todo : list Z) (store : gmap Z subTask) (l : list Z)
    (store' : gmap Z subTask) : Prop := {
  cp_sub : l `sublist_of` todo;
  cp_other b : b ∉ todo → store' !! b = store !! b;
  cp_todo a st : a ∈ todo → store !! a = Some st →
    ∃ st', store' !! a = Some st' ∧ cleaned heal st st' ∧ (a ∈ l → sub_wf st') ∧
      (a ∉ l → st_done st = true ∧ ∀ i, i ∈ dom heal → ¬ st_First st ≤ i < st_next st)
}.

Lemma clean_post_cons heal a todo store l store' st st' l0 :
  a ∉ todo → store !! a = Some st → cleaned heal st st' →
  (l0 = [a] ∧ sub_wf st' ∨
   l0 = [] ∧ st_done st = true ∧ ∀ i, i ∈ dom heal → ¬ st_First st ≤ i < st_next st) →
  clean_post heal todo (<[a := st']> store) l store' →
  clean_post heal (a :: todo) store (l0 ++ l) store'.
Proof.
  intros Ha Hsa Hcl Hl0 [Hl Ho Hin]. constructor.
  - destruct Hl0 as [[-> _]|[-> _]]; [by apply sublist_skip|by apply sublist_cons].
  - intros b [Hba Hb]%not_elem_of_cons. rw Ho // lookup_insert_ne //. congruence.
  - intros b sb [-> |Hb]%elem_of_cons Hsb.
    + have ? : sb = st by congruence. subst sb. exists st'. rw Ho // lookup_insert_eq.
      split_and!; [done|done| |].
      * intros [Hx|Hx]%elem_of_app; [|by apply (sublist_elem _ todo) in Hx].
        destruct Hl0 as [[_ ?]|[-> _]]; [done|by apply not_elem_of_nil in Hx].
      * destruct Hl0 as [[-> _]|[_ [? ?]]]; [|done]. intros []. set_solver.
    + have Hab : a ≠ b by (intros ->; done).
      destruct (Hin b sb Hb) as (sb' & ? & ? & Hw1 & Hw2); [by rw lookup_insert_ne|].
      have Hbl : b ∈ l0 ++ l ↔ b ∈ l.
      { destruct Hl0 as [[-> _]|[-> _]]; [|done]. simpl. rw elem_of_cons. naive_solver. }
      exists sb'. by rw Hbl.
Qed.

Lemma clean_subs_spec heal nextIdx kept todo store :
  NoDup todo → (∀ a, a ∈ todo → ∃ st, store !! a = Some st ∧ sub_wf st) →
  ∃ l n store', clean_subs heal nextIdx kept todo store = Ret (kept ++ l, n, store') ∧
    clean_post heal todo store l store'.
Proof.
  revert nextIdx kept store. induction todo as [|a todo IH]; intros nextIdx kept store Hnd Hst; simpl.
  { exists [], nextIdx, store. rw app_nil_r. split; [done|]. constructor; [done..|].
    by intros ? ? ?%not_elem_of_nil. }
  apply NoDup_cons in Hnd as [Ha Hnd].
  destruct (Hst a (list_elem_of_here _ _)) as (st & Hsa & [W1 W2 W3]). rw Hsa.
  destruct (hasIndexInRange heal (st_First st) (st_next st)) as [found first] eqn:Ef.
  destruct (hasIndexInRange_spec _ _ _ _ _ Ef) as (F1 & F2 & F3 & F4 & F5).
  set st' := mkSubTask _ _ _ _ _ _.
  have Hcl : cleaned heal st st' by constructor.
  have Hpre : ∀ b, b ∈ todo → ∃ sb, (<[a := st']> store) !! b = Some sb ∧ sub_wf sb.
  { intros b Hb. rw lookup_insert_ne; [by intros ->|]. by apply Hst, list_elem_of_further. }
  destruct (st_done st && negb found) eqn:Ed.
  - apply andb_true_iff in Ed as [Ed1 Ed2%negb_true_iff].
    destruct (IH (if zlen kept <? nextIdx then nextIdx - 1 else nextIdx) kept _ Hnd Hpre)
      as (l & n & store' & -> & HP). exists l, n, store'. split; [done|].
    apply (clean_post_cons heal a todo store l store' st st' []); [done..| |done].
    right. split_and!; [done|done|]. intros i Hi Hr. rw Ed2 in F1.
    have ? : false = true by apply F1; eauto. done.
  - destruct (IH nextIdx (kept ++ [a]) _ Hnd Hpre) as (l & n & store' & -> & HP).
    exists (a :: l), n, store'. rw -app_assoc. split; [done|].
    apply (clean_post_cons heal a todo store l store' st st' [a]); [done..| |done].
    left. split; [done|]. constructor; rw /st' /=; [lia| |done].
    destruct found; [destruct (proj1 F1 eq_refl) as (i & Hi & Hr); specialize (F5 i Hi Hr); lia|].
    rw andb_true_r in Ed. rw Ed in W3. rw F4 //.
Qed.

Lemma clean_empties_spec store l :
  (∀ a, a ∈ l → ∃ se, store !! a = Some se) →
  ∃ l', clean_empties store l = Ret l' ∧ ∀ a, a ∈ l' ↔ a ∈ l ∧ ∀ se, store !! a = Some se → se_done se = false.
Proof.
  induction l as [|a l IH]; intros Hl; simpl.
  { exists []. split; [done|]. intros a. rw !elem_of_nil. naive_solver. }
  destruct (Hl a (list_elem_of_here _ _)) as (se & Hse). rw Hse.
  destruct IH as (l' & -> & Hl'); [intros; by apply Hl, list_elem_of_further|]. simpl.
  eexists. split; [done|]. intros b. destruct (se_done se) eqn:Ed.
  - rw Hl' elem_of_cons. split; [naive_solver|]. intros [[-> |?] Hb]; [|done].
    specialize (Hb se Hse). congruence.
  - rw !elem_of_cons Hl'. split; [|naive_solver]. intros [-> |[? ?]]; [|naive_solver].
    split; [by left|]. intros se' ?. congruence.
Qed.

(** A task after the removal. *)
Lemma task_ok_cleaned stg seen subs subs' empties ti t t' l :
  task_ok stg seen subs empties ti t → clean_post (t_heal t) (t_SubTasks t) subs l subs' →
  (∀ a, a ∈ t_SubEmptyTasks t' ↔ a ∈ t_SubEmptyTasks t ∧
     ∀ se, empties !! a = Some se → se_done se = false) →
  t_Contract t' = t_Contract t → t_ShardId t' = t_ShardId t → t_SubTasks t' = l →
  t_heal t' = t_heal t →
  task_ok stg seen subs' empties ti t'.
Proof.
  intros [H1 H2 H3 H4 H5 H6] [Hl _ Hc] He E1 E2 E3 E4.
  have Hin a : a ∈ l → a ∈ t_SubTasks t by apply sublist_elem.
  constructor; rw ?E1 ?E2 ?E3 ?E4 //.
  - exact (sublist_NoDup _ _ H2 Hl).
  - intros a Ha. destruct (H3 a (Hin a Ha)) as (st & Hst & Hti & _).
    destruct (Hc a st (Hin a Ha) Hst) as (st' & Hst' & [Ec _] & Hw & _). exists st'.
    split_and!; [done|by rw Ec|by apply Hw].
  - intros i Hi. destruct (H4 i Hi) as (a & st & Ha & Hst & Hr).
    destruct (Hc a st Ha Hst) as (st' & Hst' & [Ec Hh] & _ & Hrm).
    destruct (decide (a ∈ l)) as [Hal|Hal]; [|by destruct (Hrm Hal) as [_ ?%(λ f, f i Hi)]].
    exists a, st'. specialize (Hh i Hi Hr). split_and!; [done|done|done|]. rw Ec /=. lia.
  - intros a [Ha _]%He. by apply H5.
  - intros k Hk. destruct (H6 k Hk) as [?|[?|[(a & st & Ha & Hst & Hr)|[Hfl [?|(a & se & Ha & Hse & Hr)]]]]].
    + by left.
    + right. left. by rw E4.
    + do 2 right. left. destruct (Hc a st Ha Hst) as (st' & Hst' & [Ec Hh] & _ & Hrm).
      destruct (decide (a ∈ l)) as [Hal|Hal].
      * exists a, st'. rw E3. split_and!; [done|done|rw Ec /=; lia|rw Ec /=; lia].
      * destruct (Hrm Hal) as [Hd _]. destruct (H3 a Ha) as (st0 & ? & _ & [_ _ W3]).
        have ? : st0 = st by congruence. subst st0. rw Hd in W3. lia.
    + do 3 right. split; [done|by left].
    + do 3 right. split; [done|]. right. destruct (H5 a Ha) as (se0 & ? & _ & [W1 W2]).
      have ? : se0 = se by congruence. subst se0. exists a, se. split_and!; [|done|lia|lia].
      apply He. split; [done|]. intros se1 Hse1. have ? : se1 = se by congruence. subst se1.
      destruct (se_done se); [|done]. specialize (W2 eq_refl). lia.
Qed.

Definition finished_task (t : task) : Prop := t_SubTasks t = [] ∧ t_SubEmptyTasks t = [].

Lemma run_ok_cleaned c gs seen ti t t' l subs' :
  run_ok c gs seen → c_tasks c !! ti = Some t →
  clean_post (t_heal t) (t_SubTasks t) (c_subs c) l subs' →
  (∀ a, a ∈ t_SubEmptyTasks t' ↔ a ∈ t_SubEmptyTasks t ∧
     ∀ se, c_empties c !! a = Some se → se_done se = false) →
  t_Contract t' = t_Contract t → t_ShardId t' = t_ShardId t → t_SubTasks t' = l →
  t_heal t' = t_heal t →
  run_ok (set_work c (<[ti := t']> (c_tasks c)) subs' (c_empties c)) gs seen.
Proof.
  intros Hr Hti Hcp He E1 E2 E3 E4. pose proof Hr as [R1 R2 R3 R4 R5 R6 R7 R8 R9].
  pose proof Hcp as [Hl Ho Hc]. have Hlt := lookup_lt_Some _ _ _ Hti.
  have Hown a : a ∈ t_SubTasks t → ∃ st, c_subs c !! a = Some st ∧ st_task st = ti.
  { intros Ha. destruct (tk_subs _ _ _ _ _ _ _ (R3 ti t Hti) a Ha) as (st & ? & ? & _). eauto. }
  constructor; try done; simpl.
  - by apply (config_ok_same c).
  - intros tj u. destruct (decide (ti = tj)) as [<- |Hne].
    + rw list_lookup_insert_eq //. intros [= <-]. by apply (task_ok_cleaned _ _ (c_subs c) _ _ _ t _ l); [apply R3|..].
    + rw list_lookup_insert_ne // => Hu. apply (task_ok_frame _ _ (c_subs c) _ (c_empties c)); [|done|by apply R3].
      intros b Hb. apply Ho. intros (st & ? & ?)%Hown.
      destruct (tk_subs _ _ _ _ _ _ _ (R3 tj u Hu) b Hb) as (st1 & ? & ? & _). congruence.
  - intros sid Hsid. destruct (R4 sid Hsid) as (tj & u & Hu & Hid). destruct (decide (ti = tj)) as [<- |].
    + exists ti, t'. rw list_lookup_insert_eq //. split; [done|]. congruence.
    + exists tj, u. by rw list_lookup_insert_ne.
  - intros i g Hi. apply (gor_ok_frame _ _ (c_tasks c) _ (c_subs c) _ (c_empties c)); [|done| | |by apply (R5 i)].
    + intros a st _ Hst. destruct (decide (a ∈ t_SubTasks t)) as [Ha|Ha].
      * destruct (Hc a st Ha Hst) as (st' & Hst' & [Ec _] & _). exists (st_First st'). by rw -Ec.
      * exists (st_First st). rw Ho // Hst. by destruct st.
    + intros a st u _ Hst Hd Hu Ha. destruct (decide (ti = st_task st)) as [Hts|].
      * rw -Hts in Hu *. rw list_lookup_insert_eq //. exists t'. split; [done|].
        have ? : u = t by congruence. subst u. rw E3. destruct (decide (a ∈ l)) as [|Hal]; [done|].
        destruct (Hc a st Ha Hst) as (_ & _ & _ & _ & Hrm). destruct (Hrm Hal). congruence.
      * exists u. by rw list_lookup_insert_ne.
    + intros a se u _ Hse Hd Hu Ha. destruct (decide (ti = se_task se)) as [Hts|].
      * rw -Hts in Hu *. rw list_lookup_insert_eq //. exists t'. split; [done|].
        have ? : u = t by congruence. subst u. apply He. split; [done|]. intros se' ?. congruence.
      * exists u. by rw list_lookup_insert_ne.
Qed.

Lemma clean_task_ok c gs seen ti t b :
  run_ok c gs seen → c_tasks c !! ti = Some t →
  ∃ fin c' t', clean_task b ti c = (Ret (b && fin), c') ∧ run_ok c' gs seen ∧
    c_tasks c' = <[ti := t']> (c_tasks c) ∧ (fin = true → finished_task t') ∧ c_storage c' = c_storage c.
Proof.
  intros Hr Hti. pose proof (ro_tasks _ _ _ _ Hr ti t Hti) as [H1 H2 H3 H4 H5 H6].
  rw /clean_task (proj2 (task_at_Ret c ti t) Hti) /mbind /gores_bind.
  destruct (clean_subs_spec (t_heal t) (t_nextIdx t) [] (t_SubTasks t) (c_subs c))
    as (l & n & subs' & -> & Hcp); [done|intros a Ha; destruct (H3 a Ha) as (st & ? & _ & ?); eauto|].
  destruct (clean_empties_spec (c_empties c) (t_SubEmptyTasks t)) as (l' & -> & Hl').
  { intros a Ha. destruct (H5 a Ha) as (se & ? & _). eauto. }
  simpl. set fin := bool_decide (l = []) && bool_decide (l' = []). set t' := mkTask _ _ _ _ _ _ _ _ _.
  set c1 := set_work c _ _ _.
  have Hr1 : run_ok c1 gs seen.
  { exact (run_ok_cleaned c gs seen ti t t' l subs' Hr Hti Hcp Hl' eq_refl eq_refl eq_refl eq_refl). }
  have Hfin : fin = true → finished_task t'.
  { intros [?%bool_decide_eq_true ?%bool_decide_eq_true]%andb_true_iff. done. }
  exists fin. destruct (fin && negb (t_done t)); [|by exists c1, t'].
  exists (send c1 (SingleShardDone (t_ShardId t))), t'. split_and!; try done.
  apply (run_ok_quiet c1); [done|]. constructor; try done. apply same_tasks_refl.
Qed.

Lemma finished_filled stg seen subs empties ti t :
  task_ok stg seen subs empties ti t → finished_task t → shard_filled floor stg seen (t_ShardId t).
Proof.
  intros [_ _ _ H4 _ H6] [E1 E2] k Hk. rw /covered E1 E2 in H4 H6.
  destruct (H6 k Hk) as [?|[Hh|[(a & st & []%not_elem_of_nil & _)|[? [?|(a & se & []%not_elem_of_nil & _)]]]]].
  - by left.
  - destruct (H4 k Hh) as (a & st & []%not_elem_of_nil & _).
  - by right.
Qed.

Lemma cleanTasks_ok c gs seen :
  run_ok c gs seen → ∃ c', cleanTasks c = (Ret tt, c') ∧ run_ok c' gs seen.
Proof.
  intros Hr. rw /cleanTasks.
  set P := λ (pre : list nat) (b : bool) (c' : SyncClient S),
    run_ok c' gs seen ∧ length (c_tasks c') = length (c_tasks c) ∧
    (b = true → ∀ ti t, ti ∈ pre → c_tasks c' !! ti = Some t → finished_task t).
  destruct (st_foldM_inv P clean_task (seq 0 (length (c_tasks c)))) with (b := true) (s := c)
    as (b & c' & E & Hr' & Hlen & Hfin).
  - intros pre ti b c1 Hti (Hr1 & Hlen & Hf). apply elem_of_seq in Hti.
    destruct (lookup_lt_is_Some_2 (c_tasks c1) ti) as (t & Ht); [lia|].
    destruct (clean_task_ok c1 gs seen ti t b Hr1 Ht) as (fin & c2 & t' & E & Hr2 & Ets & Hfin & _).
    exists (b && fin), c2. split; [done|]. split_and!; [done|by rw Ets length_insert|].
    intros [-> ->]%andb_true_iff tj u Hj. rw Ets. destruct (decide (ti = tj)) as [<- |Hne].
    + rw list_lookup_insert_eq; [lia|]. intros [= <-]. by apply Hfin.
    + rw list_lookup_insert_ne //. apply Hf; [done|]. set_solver.
  - split_and!; [done|done|]. by intros _ ti t []%not_elem_of_nil.
  - rw E. destruct b; [|by exists c'].
    exists (setSyncDone c'). split; [done|]. specialize (Hfin eq_refl).
    destruct Hr' as [R1 R2 R3 R4 R5 R6 R7 R8 R9]. constructor; try done.
    + by apply (config_ok_same c').
    + intros _ sid Hsid. destruct (R4 sid Hsid) as (ti & t & Ht & <-).
      apply (finished_filled _ _ _ _ _ _ (R3 ti t Ht)). apply (Hfin ti t); [|done].
      apply elem_of_seq. pose proof (lookup_lt_Some _ _ _ Ht). lia.
Qed.

(** ** The saved state *)

Lemma go_map_elems {A B C} (get : A → gores B) (f : B → C) l rs :
  go_map (λ a, x ← get a; mret (f x)) l = Ret rs →
  (∀ a x, a ∈ l → get a = Ret x → f x ∈ rs) ∧
  (∀ r, r ∈ rs → ∃ a x, a ∈ l ∧ get a = Ret x ∧ r = f x).
Proof.
  intros HF%go_map_Forall2. split.
  - intros a x (i & Hi)%list_elem_of_lookup Ha.
    destruct (Forall2_lookup_l _ _ _ _ _ HF Hi) as (r & Hri & Er). rw Ha in Er. apply Ret_inj in Er as <-.
    exact (list_elem_of_lookup_2 _ _ _ Hri).
  - intros r (i & Hi)%list_elem_of_lookup. destruct (Forall2_lookup_r _ _ _ _ _ HF Hi) as (a & Hai & Er).
    destruct (get a) as [x| |] eqn:Ex; [|done..]. apply Ret_inj in Er as <-.
    exists a, x. split; [exact (list_elem_of_lookup_2 _ _ _ Hai)|done].
Qed.

Lemma save_task_ok c gs seen ti t sv :
  run_ok c gs seen → c_tasks c !! ti = Some t → save_task c t = Ret sv → saved_ok (c_storage c) seen sv.
Proof.
  intros Hr Hti. pose proof (ro_tasks _ _ _ _ Hr ti t Hti) as [H1 H2 H3 H4 H5 H6].
  rw /save_task {1}/mbind {1}/gores_bind.
  case Es: (go_map _ _) => [subs| |]; [|done..]. rw {1}/mbind {1}/gores_bind.
  case Ee: (go_map _ _) => [empties| |]; [|done..].
  intros <-%Ret_inj. apply go_map_elems in Es as [Hs Hs'], Ee as [He He'].
  setoid_rewrite sub_at_Ret in Hs. setoid_rewrite sub_at_Ret in Hs'.
  setoid_rewrite empty_at_Ret in He. setoid_rewrite empty_at_Ret in He'.
  have Hwf a st : a ∈ t_SubTasks t → c_subs c !! a = Some st → sub_wf st.
  { intros Ha Hst. destruct (H3 a Ha) as (st' & ? & _ & ?). by have -> : st = st' by congruence. }
  have Hwe a se : a ∈ t_SubEmptyTasks t → c_empties c !! a = Some se → empty_wf se.
  { intros Ha Hse. destruct (H5 a Ha) as (se' & ? & _ & ?). by have -> : se = se' by congruence. }
  constructor; simpl.
  - intros r (a & st & Ha & Hst & ->)%Hs'. destruct (Hwf a st Ha Hst) as [W1 W2 _]. simpl. lia.
  - intros r (a & se & Ha & Hse & ->)%He'. destruct (Hwe a se Ha Hse) as [W1 _]. simpl. lia.
  - intros k Hk. destruct (H6 k Hk) as [?|[Hh|[(a & st & Ha & Hst & Hr')|[? [?|(a & se & Ha & Hse & Hr')]]]]].
    + by left.
    + destruct (H4 k Hh) as (a & st & Ha & Hst & Hr'). right. left. exists (sub_range st).
      destruct (Hwf a st Ha Hst) as [W1 _ _]. split; [by apply (Hs a)|]. simpl. lia.
    + right. left. exists (sub_range st). destruct (Hwf a st Ha Hst) as [W1 _ _].
      split; [by apply (Hs a)|]. simpl. lia.
    + do 2 right. split; [done|by left].
    + do 2 right. split; [done|]. right. exists (empty_range se). split; [by apply (He a)|done].
Qed.

Lemma saveSyncStatus_ok p1 p2 c c' gs seen :
  run_ok c gs seen → saveSyncStatus p1 p2 c = (Ret tt, c') → run_ok c' gs seen.
Proof.
  intros Hr. rw /saveSyncStatus /mbind /st_bind /st_get /st_lift /st_put.
  destruct (go_map (save_task c) (c_tasks c)) as [saved| |] eqn:Es; [|done..]. intros [= <-].
  apply go_map_Forall2 in Es. pose proof Hr as [R1 R2 R3 R4 R5 R6 R7 R8 R9]. constructor; try done; simpl.
  - by apply (config_ok_same c).
  - destruct p1; [|done]. intros p sv [= <-] (i & Hi)%list_elem_of_lookup _. simpl in Hi.
    destruct (Forall2_lookup_r _ _ _ _ _ Es Hi) as (t & Ht & Esv).
    exact (save_task_ok c gs seen i t sv Hr Ht Esv).
Qed.

(** ** Start and restart *)

Lemma size_map_seqZ {A} a (l : list A) : size (map_seqZ a l : gmap Z A) = length l.
Proof.
  revert a. induction l as [|x l IH]; intros a; simpl; [apply map_size_empty|].
  rw map_size_insert_None; [|by rw IH]. apply lookup_map_seqZ_None. lia.
Qed.

Lemma store_at_app {A} (L l : list A) :
  store_at (Z.of_nat (size (map_seqZ 0 L : gmap Z A))) l (map_seqZ 0 L) = map_seqZ 0 (L ++ l).
Proof. rw /store_at size_map_seqZ map_seqZ_app Z.add_0_l. done. Qed.

Lemma lookup_store {A} (L l : list A) a x :
  a ∈ seqZ (Z.of_nat (length L)) (zlen l) → (map_seqZ 0 (L ++ l) : gmap Z A) !! a = Some x → x ∈ l.
Proof.
  intros Ha%elem_of_seqZ. rw lookup_map_seqZ_0; [lia|]. rw lookup_app_r; [lia|].
  apply list_elem_of_lookup_2.
Qed.

Lemma lookup_store_ex {A} (L l : list A) a :
  a ∈ seqZ (Z.of_nat (length L)) (zlen l) → ∃ x, (map_seqZ 0 (L ++ l) : gmap Z A) !! a = Some x.
Proof.
  intros Ha%elem_of_seqZ. rw /zlen in Ha. apply lookup_map_seqZ_is_Some. rw length_app. lia.
Qed.

Lemma lookup_store_elem {A} (L l : list A) x :
  x ∈ l → ∃ a, a ∈ seqZ (Z.of_nat (length L)) (zlen l) ∧ (map_seqZ 0 (L ++ l) : gmap Z A) !! a = Some x.
Proof.
  intros (i & Hi)%list_elem_of_lookup. exists (Z.of_nat (length L) + Z.of_nat i).
  pose proof (lookup_lt_Some _ _ _ Hi). split; [apply elem_of_seqZ; rw /zlen; lia|].
  rw lookup_map_seqZ_0; [lia|]. rw lookup_app_r; [lia|]. rw -Hi. f_equal. lia.
Qed.

Lemma lookup_store_old {A} (L l : list A) a x :
  (map_seqZ 0 L : gmap Z A) !! a = Some x → (map_seqZ 0 (L ++ l) : gmap Z A) !! a = Some x.
Proof.
  intros [? Ha]%lookup_map_seqZ_Some. apply lookup_map_seqZ_Some. split; [done|].
  by apply lookup_app_l_Some.
Qed.

(** Sub tasks that have not started. *)
Definition new_sub (ti : nat) (st : subTask) : Prop :=
  st_task st = ti ∧ st_next st = st_First st ∧ st_done st = false ∧
  0 ≤ st_First st < st_Last st ∧ st_Last st < two63.
Definition new_empty (ti : nat) (se : subEmptyTask) : Prop :=
  se_task se = ti ∧ se_done se = false ∧ 0 ≤ se_First se ≤ se_Last se ∧ 0 < se_Last se < two63.

Lemma task_ok_new stg seen ti t LS LE subs empties :
  t_Contract t = mgr_ContractAddress stg →
  t_SubTasks t = seqZ (Z.of_nat (length LS)) (zlen subs) →
  t_SubEmptyTasks t = seqZ (Z.of_nat (length LE)) (zlen empties) → t_heal t = ∅ →
  Forall (new_sub ti) subs → Forall (new_empty ti) empties →
  (∀ k, mgr_KvEntries stg * t_ShardId t ≤ k < mgr_KvEntries stg * (t_ShardId t + 1) →
     settled stg seen k ∨ (∃ r, r ∈ sub_range <$> subs ∧ r.1 ≤ k < r.2) ∨
     floor ≤ k ∧ (seen_data seen k ∨ ∃ r, r ∈ empty_range <$> empties ∧ r.1 ≤ k < r.2)) →
  task_ok stg seen (map_seqZ 0 (LS ++ subs)) (map_seqZ 0 (LE ++ empties)) ti t.
Proof.
  intros E1 E2 E3 E4 Hs He Hk. rw !Forall_forall in Hs He. constructor; rw ?E2 ?E3 ?E4 //.
  - apply NoDup_seqZ.
  - intros a Ha. destruct (lookup_store_ex LS subs a Ha) as (st & Hst).
    destruct (Hs st (lookup_store _ _ _ _ Ha Hst)) as (? & ? & Hd & ? & ?).
    exists st. split_and!; [done|done|]. constructor; [lia|lia|]. rw Hd. lia.
  - intros a Ha. destruct (lookup_store_ex LE empties a Ha) as (se & Hse).
    destruct (He se (lookup_store _ _ _ _ Ha Hse)) as (? & Hd & ? & ?).
    exists se. split_and!; [done|done|]. constructor; [lia|]. rw Hd. done.
  - intros k Hk'. destruct (Hk k Hk') as [?|[(r & Hr & Hkr)|[Hfl [?|(r & Hr & Hkr)]]]].
    + by left.
    + apply list_elem_of_fmap in Hr as (st & -> & Hst).
      destruct (lookup_store_elem LS subs st Hst) as (a & Ha & Hl).
      do 2 right. left. exists a, st. rw E2. split_and!; [done|done| |apply Hkr].
      destruct (Hs st Hst) as (_ & -> & _). apply Hkr.
    + do 3 right. split; [done|by left].
    + apply list_elem_of_fmap in Hr as (se & -> & Hse).
      destruct (lookup_store_elem LE empties se Hse) as (a & Ha & Hl).
      do 3 right. split; [done|]. right. exists a, se. by rw E3.
Qed.

(** A client while its tasks are being set up. *)
Record loading (c0 c : SyncClient S) (seen : trace) (LS : list subTask) (LE : list subEmptyTask)
    : Prop := {
  ld_subs : c_subs c = map_seqZ 0 LS;
  ld_empties : c_empties c = map_seqZ 0 LE;
  ld_rest : c = set_work c0 (c_tasks c) (c_subs c) (c_empties c);
  ld_tasks ti t : c_tasks c !! ti = Some t →
    task_ok (c_storage c0) seen (c_subs c) (c_empties c) ti t
}.

Lemma loading_app c0 c seen LS LE t subs empties :
  loading c0 c seen LS LE →
  task_ok (c_storage c0) seen (map_seqZ 0 (LS ++ subs)) (map_seqZ 0 (LE ++ empties))
    (length (c_tasks c)) t →
  loading c0 (set_work c (c_tasks c ++ [t])
                (store_at (Z.of_nat (size (c_subs c))) subs (c_subs c))
                (store_at (Z.of_nat (size (c_empties c))) empties (c_empties c)))
    seen (LS ++ subs) (LE ++ empties).
Proof.
  intros [E1 E2 E3 H4] Ht. rw E1 E2 !store_at_app. constructor; simpl; [done|done|by rw E3|].
  intros ti u [Hu|[Hlen Hu]]%lookup_app_Some.
  - pose proof (H4 ti u Hu) as Hok. rw E1 E2 in Hok.
    apply (task_ok_frame _ _ (map_seqZ 0 LS) _ (map_seqZ 0 LE)); [| |done].
    + intros a Ha. destruct (tk_subs _ _ _ _ _ _ _ Hok a Ha) as (st & Hst & _).
      rw Hst. by apply lookup_store_old.
    + intros a Ha. destruct (tk_empties _ _ _ _ _ _ _ Hok a Ha) as (se & Hse & _).
      rw Hse. by apply lookup_store_old.
  - apply list_lookup_singleton_Some in Hu as [Hi <-]. by have -> : ti = length (c_tasks c) by lia.
Qed.

(** What a plan of the load may name. *)
Definition plan_ok (stg : S) (seen : trace) (x : Z * option savedTask) : Prop :=
  x.1 ∈ mgr_Shards stg ∧
  ∀ sv, x.2 = Some sv → sv_ShardId sv = x.1 ∧ sv_Contract sv = mgr_ContractAddress stg ∧
                        saved_ok stg seen sv.

Lemma reload_new_sub ti l :
  (∀ r, r ∈ l → 0 ≤ r.1 < r.2 ∧ r.2 < two63) →
  Forall (new_sub ti) ((λ '(f, l), mkSubTask ti f f l false false) <$> l).
Proof.
  intros Hl. apply Forall_fmap, Forall_forall. intros [f e] Hr. destruct (Hl _ Hr). simpl in *.
  split_and!; simpl; try done; lia.
Qed.

Lemma reload_new_empty ti l :
  (∀ r, r ∈ l → 0 ≤ r.1 ≤ r.2 ∧ 0 < r.2 < two63) →
  Forall (new_empty ti) ((λ '(f, l), mkSubEmptyTask ti f l false false) <$> l).
Proof.
  intros Hl. apply Forall_fmap, Forall_forall. intros [f e] Hr. destruct (Hl _ Hr). simpl in *.
  split_and!; simpl; try done; lia.
Qed.

Lemma install_ok progress lastKvIndex c0 c seen LS LE x :
  mgr_ok (c_storage c0) → config_ok c0 → floor ≤ lastKvIndex → 0 ≤ lastKvIndex →
  plan_ok (c_storage c0) seen x → loading c0 c seen LS LE →
  ∃ c' t LS' LE', install progress lastKvIndex c x = Ret c' ∧ loading c0 c' seen LS' LE' ∧
    c_tasks c' = c_tasks c ++ [t] ∧ t_ShardId t = x.1.
Proof.
  intros Hok [C1 C2 _] Hfl Hlast [Hsid Hsv] Hld. pose proof Hld as [E1 E2 E3 _].
  destruct (mgr_geometry _ Hok) as [HkvE Hgeo]. destruct (Hgeo _ Hsid) as [Hs0 Hs1].
  have [Es Ep] : c_storage c = c_storage c0 ∧ c_params c = c_params c0 by rw E3.
  have Et : c_treads c = c_treads c0 by rw E3.
  rw /install Es Ep Et.
  have HszS : Z.of_nat (size (c_subs c)) = Z.of_nat (length LS) by rw E1 size_map_seqZ.
  have HszE : Z.of_nat (size (c_empties c)) = Z.of_nat (length LE) by rw E2 size_map_seqZ.
  destruct x as [sid [sv|]]; simpl in Hsid, Hs0, Hs1 |- *.
  - destruct (Hsv sv eq_refl) as (Hid & Hco & [S1 S2 S3]). simpl in Hid.
    eexists _, _, _, _. split; [done|]. split; [|split; [done|exact Hid]].
    eapply loading_app; [exact Hld|]. apply task_ok_new; simpl; try done.
    + by rw HszS /zlen !length_fmap.
    + by rw HszE /zlen !length_fmap.
    + by apply reload_new_sub.
    + by apply reload_new_empty.
    + have R1 : sub_range <$> ((λ '(f, l), mkSubTask (length (c_tasks c)) f f l false false) <$>
        sv_SubTasks sv) = sv_SubTasks sv.
      { rw -list_fmap_compose -{2}(list_fmap_id (sv_SubTasks sv)). apply list_fmap_ext. by intros ? []. }
      have R2 : empty_range <$> ((λ '(f, l), mkSubEmptyTask (length (c_tasks c)) f l false false) <$>
        sv_SubEmptyTasks sv) = sv_SubEmptyTasks sv.
      { rw -list_fmap_compose -{2}(list_fmap_id (sv_SubEmptyTasks sv)). apply list_fmap_ext. by intros ? []. }
      rw R1 R2. exact S3.
  - destruct (createTask_tiles (c_params c0) (c_treads c0) (mgr_ContractAddress (c_storage c0))
      (mgr_KvEntries (c_storage c0)) (length (c_tasks c)) (Z.of_nat (size (c_subs c)))
      (Z.of_nat (size (c_empties c))) sid lastKvIndex C1 C2 HkvE Hs0 Hs1 Hlast)
      as (t & subs & empties & -> & T1 & T2 & _ & _ & F1 & F2 & A1 & A2 & A3 & _ & _ & A4 & A5 & _).
    simpl. eexists _, t, _, _. split; [done|]. split; [|split; [done|exact A4]].
    pose proof (tiles_bounds _ _ _ T1) as [B1 B1']. pose proof (tiles_bounds _ _ _ T2) as [B2 B2'].
    have H0 : 0 ≤ mgr_KvEntries (c_storage c0) * sid by lia.
    eapply loading_app; [exact Hld|]. apply task_ok_new; try done.
    + by rw A1 HszS.
    + by rw A2 HszE.
    + rw Forall_forall in F1. apply Forall_forall. intros st Hst. destruct (F1 st Hst) as (? & ? & ? & _).
      destruct (B1' (sub_range st)) as [? ?]; [by apply list_elem_of_fmap_2|]. simpl in *.
      split_and!; try done; lia.
    + rw Forall_forall in F2. apply Forall_forall. intros se Hse. destruct (F2 se Hse) as (? & ? & _).
      destruct (B2' (empty_range se)) as [? ?]; [by apply list_elem_of_fmap_2|]. simpl in *.
      split_and!; try done; lia.
    + rw A4. intros k Hk. right.
      destruct (decide (k < data_end (mgr_KvEntries (c_storage c0)) sid lastKvIndex)) as [Hd|Hd].
      * left. apply (tiles_cover _ _ _ T1). lia.
      * right. split; [rw /data_end in Hd; lia|]. right. apply (tiles_cover _ _ _ T2). lia.
Qed.

Lemma load_plans progress lastKvIndex c0 seen plans :
  mgr_ok (c_storage c0) → config_ok c0 → floor ≤ lastKvIndex → 0 ≤ lastKvIndex →
  Forall (plan_ok (c_storage c0) seen) plans → ∀ c LS LE, loading c0 c seen LS LE →
  ∃ c' LS' LE' new, foldM (install progress lastKvIndex) c plans = Ret c' ∧
    loading c0 c' seen LS' LE' ∧ c_tasks c' = c_tasks c ++ new ∧ t_ShardId <$> new = plans.*1.
Proof.
  intros Hok Hcf Hfl Hlast HF. induction HF as [|x plans Hx HF IH]; intros c LS LE Hld.
  { exists c, LS, LE, []. rw app_nil_r. done. }
  destruct (install_ok progress lastKvIndex c0 c seen LS LE x Hok Hcf Hfl Hlast Hx Hld)
    as (c1 & t & LS1 & LE1 & E1 & Hld1 & Et & Hid).
  destruct (IH c1 LS1 LE1 Hld1) as (c2 & LS2 & LE2 & new & E2 & Hld2 & Et2 & Hids).
  exists c2, LS2, LE2, (t :: new). rw foldM_cons E1 /= E2. split_and!; [done|done| |].
  - by rw Et2 Et -app_assoc.
  - simpl. f_equal; [exact Hid|exact Hids].
Qed.

(** The client after a start: loading returns, and the invariant holds. *)
Lemma loadSyncStatus_ok c0 seen :
  c0 = fresh_client c0 → mgr_ok (c_storage c0) → config_ok c0 →
  floor ≤ mgr_KvEntryCount (c_storage c0) →
  (∀ p sv, c_dbTasks c0 = Some p → sv ∈ sp_Tasks p →
     sv_Contract sv = mgr_ContractAddress (c_storage c0) → saved_ok (c_storage c0) seen sv) →
  ∃ c, loadSyncStatus c0 = (Ret tt, c) ∧ run_ok c [] seen.
Proof.
  intros Hfresh Hok Hcf Hfl Hdb. rw /loadSyncStatus.
  set progress := default _ _. set plans := merge_sort by_shard _.
  have Hp x : x ∈ plans ↔ ∃ sid, x ∈ plan_shard (mgr_ContractAddress (c_storage c0)) progress sid ∧
                                sid ∈ mgr_Shards (c_storage c0).
  { rw /plans merge_sort_Permutation list_elem_of_bind. done. }
  destruct (load_plans progress (mgr_KvEntryCount (c_storage c0)) c0 seen plans Hok Hcf Hfl
    (mgr_count _ Hok)) with (c := c0) (LS := @nil subTask) (LE := @nil subEmptyTask)
    as (c & LS & LE & new & -> & [L1 L2 L3 L4] & Et & Hids).
  - apply Forall_forall. intros x (sid & Hx & Hsid)%Hp. move: Hx. rw /plan_shard.
    destruct (filter _ _) as [|sv0 l] eqn:Efil.
    { intros ->%list_elem_of_singleton. done. }
    intros (sv & -> & Hsv)%list_elem_of_fmap. split; [done|]. intros ? [= <-].
    have Hin : sv ∈ filter (λ sv, sv_Contract sv = mgr_ContractAddress (c_storage c0) ∧
                                 sv_ShardId sv = sid) (sp_Tasks progress) by rw Efil.
    apply list_elem_of_filter in Hin as [[Hc Hid] Hin]. split_and!; [done|done|].
    move: Hin. rw /progress. destruct (c_dbTasks c0) as [p|] eqn:Ep; [|by intros ?%not_elem_of_nil].
    intros Hin. by apply (Hdb p).
  - constructor; by rw Hfresh.
  - have Et0 : c_tasks c0 = [] by rw Hfresh. rw Et0 app_nil_l in Et.
    exists c. split; [done|].
    have Est : c_storage c = c_storage c0 by rw L3.
    constructor; rw ?Est; try done.
    + apply (config_ok_same c0); [|done]. rw L3. done.
    + intros sid Hsid. have Hin : sid ∈ plans.*1.
      { rw list_elem_of_fmap.
        destruct (plan_shard (mgr_ContractAddress (c_storage c0)) progress sid) as [|x l] eqn:Epl.
        { move: Epl. rw /plan_shard. by destruct (filter _ _). }
        exists x. split; [|apply Hp; exists sid; split; [rw Epl; apply list_elem_of_here|done]].
        move: Epl. rw /plan_shard. destruct (filter _ _) as [|sv0 l0]; by intros [= <- _]. }
      rw -Hids in Hin. apply list_elem_of_fmap in Hin as (t & -> & (ti & Hti)%list_elem_of_lookup).
      exists ti, t. by rw Et.
    + have -> : c_dbTasks c = c_dbTasks c0 by rw L3. exact Hdb.
    + have -> : c_syncDone c = c_syncDone c0 by rw L3. by rw Hfresh.
Qed.

(** ** All steps *)

Lemma range_store_ok c gs seen i req blobs r c' g' :
  run_ok c gs seen → gs !! i = Some (RangeGot req blobs) →
  on_storage (onResult (blobs_in (rr_origin req) (rr_limit req) blobs)) c = (r, c') →
  (g' = RangeEnd (rr_subTask req) ∨ ∃ ins, r = Ret ins ∧ g' = RangeIn req ins) →
  run_ok c' (<[i := g']> gs) seen.
Proof.
  intros Hr Hi E Hg'. destruct (ro_gs _ _ _ _ Hr i _ Hi) as (Hlive & Hfair & Hnd).
  destruct (blobs_in_hashes (rr_origin req) (rr_limit req) blobs Hfair) as [H32 Hin].
  destruct (on_storage_result c _ r c' (ro_ok _ _ _ _ Hr) H32 E) as (s' & -> & Hev & Hins).
  have Hr1 := run_ok_evolves c s' gs seen Hr Hev.
  apply (run_ok_goroutine _ _ _ i (RangeGot req blobs)); [done|done|..].
  - destruct Hg' as [-> |(ins & _ & ->)]; by left.
  - destruct Hg' as [-> |(ins & _ & ->)]; by left.
  - destruct Hg' as [-> |(ins & -> & ->)]; simpl.
    + destruct Hlive as (st & t & ? & ? & _). by exists st.
    + destruct (Hins ins eq_refl) as [Hsub Hf]. split_and!; [done|exact (no_repeats_sublist _ _ _ _ Hsub Hnd)|].
      intros k Hk. split; [|by apply Hf]. apply Hin. exact (sublist_elem _ _ _ Hsub Hk).
Qed.

Lemma list_store_ok c gs seen i req blobs first last r c' g' :
  run_ok c gs seen → gs !! i = Some (ListGot req blobs) →
  on_storage (onResult (blobs_in first last blobs)) c = (r, c') →
  (g' = Finished ∨ ∃ ins, r = Ret ins ∧ g' = ListIn req ins) →
  run_ok c' (<[i := g']> gs) seen.
Proof.
  intros Hr Hi E Hg'. pose proof (ro_gs _ _ _ _ Hr i _ Hi) as Hfair.
  destruct (blobs_in_hashes first last blobs Hfair) as [H32 Hin].
  destruct (on_storage_result c _ r c' (ro_ok _ _ _ _ Hr) H32 E) as (s' & -> & Hev & Hins).
  have Hr1 := run_ok_evolves c s' gs seen Hr Hev.
  apply (run_ok_goroutine _ _ _ i (ListGot req blobs)); [done|done|..].
  - right. by destruct Hg' as [-> |(ins & _ & ->)].
  - right. by destruct Hg' as [-> |(ins & _ & ->)].
  - destruct Hg' as [-> |(ins & -> & ->)]; [done|]. exact (proj2 (Hins ins eq_refl)).
Qed.

(** A goroutine whose critical section leaves the work alone. *)
Lemma quiet_goroutine c c' gs seen i g g' :
  run_ok c gs seen → quiet c c' → gs !! i = Some g →
  (sub_of g' = sub_of g ∨ sub_of g' = None) → (empty_of g' = empty_of g ∨ empty_of g' = None) →
  gor_ok (c_storage c) seen (c_tasks c) (c_subs c) (c_empties c) g' →
  run_ok c' (<[i := g']> gs) seen.
Proof.
  intros Hr Hq Hi Hs He Hg. apply (run_ok_quiet c); [|done].
  exact (run_ok_goroutine _ _ _ _ _ _ Hr Hi Hs He Hg).
Qed.

Lemma gstep_ok c gs seen i g c' g' :
  run_ok c gs seen → gs !! i = Some g → gstep c g c' g' →
  run_ok c' (<[i := g']> gs) (seen ++ [(c_storage c, g')]).
Proof.
  intros Hr Hi Hstep.
  have Hend req : range_live (c_tasks c) (c_subs c) req →
    ∃ st, c_subs c !! rr_subTask req = Some st ∧ st_isRunning st = true.
  { intros (st & t & ? & ? & _). eauto. }
  destruct Hstep as
    [c req|c req pk _ _ _ Hf|c req blobs st _ _|c req blobs c' ins _ E|c req blobs c' e _ E
    |c req ins c' E|c a st E|c req|c req pk _ _ _ Hf|c req blobs b _ _|c req blobs b c' ins _ _ E
    |c req blobs b c' e _ _ E|c req ins|c a start limit|c a start limit cnt next err c' E
    |c a start next c' E]; pose proof (ro_gs _ _ _ _ Hr i _ Hi) as Hg.
  - apply run_ok_seen, (quiet_goroutine c _ _ _ _ _ _ Hr (quiet_peer_idle _ _) Hi);
      [by left|by left|by apply Hend].
  - apply (quiet_goroutine c _ _ _ _ _ _ (run_ok_seen _ _ _ _ Hr) (quiet_peer_idle _ _) Hi);
      [by left|by left|split_and!; [done..|apply no_repeats_got]].
  - apply run_ok_seen, (quiet_goroutine c _ _ _ _ _ _ Hr (quiet_stateless _ _ _) Hi);
      [by left|by left|by apply Hend, Hg].
  - apply run_ok_seen, (range_store_ok c gs seen i req blobs _ c' _ Hr Hi E). right. eauto.
  - apply run_ok_seen, (range_store_ok c gs seen i req blobs _ c' _ Hr Hi E). by left.
  - apply run_ok_seen. exact (range_record_ok c gs seen i req ins c' Hr Hi E).
  - apply run_ok_seen. apply sub_at_Ret in E. exact (range_end_ok c gs seen i a st Hr Hi E).
  - apply run_ok_seen, (quiet_goroutine c _ _ _ _ _ _ Hr (quiet_peer_idle _ _) Hi);
      [by left|by left|done].
  - apply run_ok_seen, (quiet_goroutine c _ _ _ _ _ _ Hr (quiet_peer_idle _ _) Hi);
      [by left|by left|done].
  - apply run_ok_seen, (quiet_goroutine c _ _ _ _ _ _ Hr (quiet_stateless _ _ _) Hi);
      [by left|by left|done].
  - apply run_ok_seen, (list_store_ok c gs seen i req blobs _ _ _ c' _ Hr Hi E). right. eauto.
  - apply run_ok_seen, (list_store_ok c gs seen i req blobs _ _ _ c' _ Hr Hi E). by left.
  - apply run_ok_seen. exact (list_record_ok c gs seen i req ins Hr Hi).
  - exact (fill_read_ok c gs seen i a start limit Hr Hi).
  - exact (fill_commit_ok c gs seen i a start limit cnt next err c' Hr Hi E).
  - apply run_ok_seen. exact (fill_finish_ok c gs seen i a start next c' Hr Hi E).
Qed.

Lemma cstep_ok c gs seen c' new :
  run_ok c gs seen → cstep c c' new → run_ok c' (gs ++ new) seen.
Proof.
  intros Hr Hstep.
  destruct Hstep as [c c' E|prio rnd c reqs c' E|prio order now rnd c reqs c' Ho E|c fills c' E
    |c id shards|c id|force duration c c' E|p1 p2 c c' E|c|c s' Hev]; rw ?app_nil_r.
  - destruct (cleanTasks_ok c gs seen Hr) as (c2 & E2 & ?). by have -> : c' = c2 by congruence.
  - exact (assignBlobRangeTasks_ok _ _ _ _ _ _ _ Hr E).
  - exact (assignBlobHealTasks_ok _ _ _ _ _ _ _ _ _ Hr Ho E).
  - exact (assignFillEmptyBlobTasks_ok _ _ _ _ _ Hr E).
  - exact (run_ok_quiet _ _ _ _ Hr (quiet_AddPeer _ _ _)).
  - exact (run_ok_quiet _ _ _ _ Hr (quiet_RemovePeer _ _)).
  - exact (run_ok_quiet _ _ _ _ Hr (quiet_report _ _ _ _ E)).
  - exact (saveSyncStatus_ok _ _ _ _ _ _ Hr E).
  - apply (run_ok_quiet c); [done|]. constructor; try done. apply same_tasks_refl.
  - exact (run_ok_evolves _ _ _ _ Hr Hev).
Qed.

Lemma step_ok y y' :
  step floor y y' → run_ok (y_client y) (y_gs y) (y_seen y) → run_ok (y_client y') (y_gs y') (y_seen y').
Proof.
  intros [c gs seen i g c' g' Hi Hg|c gs seen c' new Hc|c gs seen c' Hfl Hload] Hr; simpl in *.
  - exact (gstep_ok _ _ _ _ _ _ _ Hr Hi Hg).
  - exact (cstep_ok _ _ _ _ _ Hr Hc).
  - destruct (loadSyncStatus_ok (fresh_client c) seen) as (c2 & E & ?); try done.
    + apply Hr.
    + apply (config_ok_same c); [done|apply Hr].
    + exact (ro_db _ _ _ _ Hr).
    + by have -> : c' = c2 by congruence.
Qed.

Lemma run_inv c0 c y :
  c0 = fresh_client c0 → mgr_ok (c_storage c0) → config_ok c0 →
  floor ≤ mgr_KvEntryCount (c_storage c0) → c_dbTasks c0 = None →
  loadSyncStatus c0 = (Ret tt, c) → rtc (step floor) (mkRun c [] []) y →
  run_ok (y_client y) (y_gs y) (y_seen y).
Proof.
  intros Hf Hok Hcf Hfl Hdb Hload Hrun.
  destruct (loadSyncStatus_ok c0 [] Hf Hok Hcf Hfl) as (c2 & E & Hr); [by rw Hdb|].
  have Ec : c = c2 by congruence. subst c2.
  clear E Hload. revert Hr.
  change (run_ok c [] []) with
    (run_ok (y_client (mkRun c [] [])) (y_gs (mkRun c [] [])) (y_seen (mkRun c [] []))).
  induction Hrun as [|x y z Hxy _ IH]; [done|]. intros Hr. by apply IH, (step_ok x).
Qed.

End safety.
