(* ===== verification/SyncStorageManager.v ===== *)
(** * The storage manager keeps its promises to the sync client

    The instance of the interface of SyncClient.v by the storage manager of
    StorageManager.v, the laws of SyncRun.v for it, and the end-to-end
    statements about the sync of a node. *)

From S2P Require Import Prelude Extern Bits DataFile ChunkCodec DataShard ShardManager StorageManager.
From S2P Require Import SyncTask SyncClient SyncRun SyncSafety.

#[export] Instance storage_sync `{Geth} : SyncStorage StorageManager := {
  mgr_KvEntries := StorageManager.KvEntries;
  mgr_ContractAddress s := sm_contractAddress (s_shardManager s);
  mgr_Shards := StorageManager.Shards;
  mgr_MaxKvSize s := sm_kvSize (s_shardManager s);
  mgr_KvEntryCount := StorageManager.KvEntryCount;
  mgr_DecodeKV := StorageManager.DecodeKV;
  mgr_CommitBlobs := CommitBlobs;
  mgr_CommitEmptyBlobs := CommitEmptyBlobs }.

(** ** The frame of a commit *)

(** The parts of the manager that no write changes. *)
Record same_shards (s s' : StorageManager) : Prop := {
  ss_view : s' = set_sm s (s_shardManager s');
  ss_dom : dom (sm_shardMap (s_shardManager s')) = dom (sm_shardMap (s_shardManager s));
  ss_contract : sm_contractAddress (s_shardManager s') = sm_contractAddress (s_shardManager s);
  ss_entries : sm_kvEntries (s_shardManager s') = sm_kvEntries (s_shardManager s)
}.

Lemma same_shards_refl s : same_shards s s.
Proof. constructor; try done. by rw set_sm_id. Qed.

Lemma same_shards_trans s1 s2 s3 : same_shards s1 s2 → same_shards s2 s3 → same_shards s1 s3.
Proof.
  intros [V1 D1 C1 E1] [V2 D2 C2 E2]. constructor; try congruence. rw V2 V1. done.
Qed.

Lemma write_same_shards k e c s r s' :
  on_sm (TryWriteEncoded k e c) s = (r, s') → same_shards s s'.
Proof.
  rw /on_sm /TryWriteEncoded /with_shard_st.
  destruct (udiv k (sm_kvEntries (s_shardManager s))) as [i| |];
    [|intros [= <- <-]; rw set_sm_id; apply same_shards_refl..].
  destruct (sm_shardMap (s_shardManager s) !! i) as [ds|] eqn:Ei;
    [|intros [= <- <-]; rw set_sm_id; apply same_shards_refl].
  rw /mbind /st_bind /in_shard_map. destruct (WriteWith _ _ _ _ ds) as [r1 ds'].
  have Hs : same_shards s (set_sm s (set_shards (s_shardManager s)
    (<[i := ds']> (sm_shardMap (s_shardManager s))))).
  { constructor; try done. simpl. rw dom_insert_L. apply elem_of_dom_2 in Ei. set_solver. }
  by destruct r1; intros [= <- <-].
Qed.

Lemma commit_same_shards k e c m s r s' :
  commitEncodedBlob k e c m s = (r, s') → same_shards s s'.
Proof.
  rw /commitEncodedBlob. destruct (CompareCommits (drop 8 m) c);
    [|intros [= <- <-]; apply same_shards_refl..].
  destruct (ShardManager.TryReadMeta _ k) as [[[lm [er|]]|]| |];
    try (intros [= <- <-]; apply same_shards_refl).
  destruct (negb _); [intros [= <- <-]; apply same_shards_refl|].
  destruct (_ && _); [intros [= <- <-]; apply same_shards_refl|].
  destruct (on_sm _ s) as [r1 s1] eqn:E. apply write_same_shards in E.
  by destruct r1 as [[|]| |]; intros [= <- <-].
Qed.

(** ** The promises *)

Section laws.
Context `{GE : Geth}.

(** The storage of a node whose shards are complete. *)
Record storage_ok (s : StorageManager) : Prop := {
  ok_sm : sm_wf (s_shardManager s);
  ok_metas : metas_wf s;
  ok_complete k : k / KvEntries s ∈ dom (sm_shardMap (s_shardManager s)) → kv_stored s k;
  ok_ids sid : sid ∈ dom (sm_shardMap (s_shardManager s)) →
    0 ≤ sid ∧ KvEntries s * (sid + 1) < two63;
  ok_count : 0 ≤ KvEntryCount s
}.

(** The record of KV [k] in the data files says that it is filled. *)
Definition kv_filled (s : StorageManager) (k : Z) : Prop :=
  ∃ m, TryReadMeta s k = Ret (Some (m, None)) ∧ filled_bit m.

(** The local view of the contract has data for KV [k]. *)
Definition kv_data (s : StorageManager) (k : Z) : Prop :=
  k < KvEntryCount s ∨ ∃ m, contract_meta s k = Ret m ∧ take 24 (drop 8 m) ≠ take 24 (zeros 32).

Lemma holds_filled s k c : holds s k c → kv_filled s k.
Proof. intros (m & ? & _ & ?). by exists m. Qed.

Lemma Shards_same s s' : same_shards s s' → Shards s' = Shards s.
Proof.
  intros Hs. apply (StronglySorted_unique Z.le).
  - apply StronglySorted_merge_sort; apply _.
  - apply StronglySorted_merge_sort; apply _.
  - apply NoDup_Permutation.
    + rw /Shards /ShardIds merge_sort_Permutation. apply NoDup_fst_map_to_list.
    + rw /Shards /ShardIds merge_sort_Permutation. apply NoDup_fst_map_to_list.
    + intros sid. by rw !Shards_elem (ss_dom _ _ Hs).
Qed.

Definition storage_evolves : StorageManager → StorageManager → Prop :=
  evolves_with storage_ok kv_filled.

Lemma storage_evolves_refl s : storage_ok s → storage_evolves s s.
Proof. by constructor. Qed.

Lemma storage_evolves_trans s1 s2 s3 :
  storage_evolves s1 s2 → storage_evolves s2 s3 → storage_evolves s1 s3.
Proof.
  intros [? ? ? ? Hf] [? ? ? ? Hf']. constructor; try congruence. intros k Hk. by apply Hf', Hf.
Qed.

(** A commit of one KV that leaves the others alone. *)
Lemma only_kv_evolves k s s' :
  storage_ok s → only_kv k s s' → same_shards s s' → kv_filled s' k → storage_evolves s s'.
Proof.
  intros [O1 O2 O3 O4 O5] [K1 K2 K3 K4 K5] Hs Hk. pose proof Hs as [_ D C E].
  have EE : KvEntries s' = KvEntries s by exact E.
  constructor; try done.
  - constructor; rw ?EE ?D //.
    + rw K2. exact O2.
    + intros j Hj. by apply K4, O3.
    + rw K2. exact O5.
  - exact (Shards_same s s' Hs).
  - intros j Hj. destruct (decide (j = k)) as [-> |Hne]; [done|].
    destruct Hj as (m & Hm & Hf). exists m. split; [|done].
    destruct (decide (j / KvEntries s ∈ dom (sm_shardMap (s_shardManager s)))) as [Hd|Hd].
    + destruct (K5 j Hne (O3 j Hd)) as [-> _]. done.
    + exfalso. apply Hd. rw /TryReadMeta /ShardManager.TryReadMeta with_shard_ok // in Hm.
      rw /shard_of in Hm. apply elem_of_dom. rw /KvEntries. by destruct (_ !! _).
Qed.

Lemma write_too_large k e c s :
  sm_wf (s_shardManager s) → sm_kvSize (s_shardManager s) < zlen e →
  ∀ r s', on_sm (TryWriteEncoded k e c) s = (r, s') → s' = s ∧ r ≠ Ret true.
Proof.
  intros Hwf He r s'. rw /on_sm /TryWriteEncoded /with_shard_st.
  destruct (udiv k (sm_kvEntries (s_shardManager s))) as [i| |];
    [|intros [= <- <-]; by rw set_sm_id..].
  destruct (sm_shardMap (s_shardManager s) !! i) as [ds|] eqn:Ei; [|intros [= <- <-]; by rw set_sm_id].
  destruct (smwf_shards _ Hwf _ _ Ei) as (_ & _ & _ & Ekv & _).
  have Hid : set_shards (s_shardManager s) (<[i := ds]> (sm_shardMap (s_shardManager s))) = s_shardManager s.
  { rw insert_id //. by destruct (s_shardManager s). }
  rw /mbind /st_bind /in_shard_map /WriteWith Ekv (proj2 (Z.ltb_lt _ _) He).
  destruct (negb (Contains ds k)); intros [= <- <-]; by rw Hid set_sm_id.
Qed.

Lemma commit_law s k e c m r s' :
  storage_ok s → length c = 32%nat → length m = 32%nat →
  commitEncodedBlob k e c m s = (r, s') →
  storage_evolves s s' ∧ (r = Ret tt → kv_filled s' k) ∧
  (∀ er, r = Fail er → as_commit_mismatch er = true → take 24 (drop 8 m) ≠ take 24 c).
Proof.
  intros Hok Hc Hm Hcm. pose proof Hok as [O1 O2 O3 O4 O5].
  pose proof (commit_same_shards _ _ _ _ _ _ _ Hcm) as Hss. move: Hcm. rw /commitEncodedBlob.
  rw (CompareCommits_contract c m Hc Hm). case_decide as Heq; last first.
  { intros [= <- <-]. split; [by apply storage_evolves_refl|done]. }
  have Hsame r0 : (∀ er, r0 = Fail er → as_commit_mismatch er = false) → r0 ≠ Ret tt → (r0, s) = (r, s') →
    storage_evolves s s' ∧ (r = Ret tt → kv_filled s' k) ∧
    (∀ er, r = Fail er → as_commit_mismatch er = true → take 24 (drop 8 m) ≠ take 24 c).
  { intros He Hr [= <- <-]. split; [by apply storage_evolves_refl|]. split; [done|].
    intros er Her ?. by rw He in H. }
  destruct (ShardManager.TryReadMeta (s_shardManager s) k) as [[[lm [er|]]|]| |] eqn:Hlm;
    try (apply Hsame; naive_solver).
  destruct (negb (be_decode (take 5 m) =? k)) eqn:Ei; [apply Hsame; naive_solver|].
  have Hst : kv_stored s k.
  { apply O3, elem_of_dom. rw /ShardManager.TryReadMeta with_shard_ok // /shard_of in Hlm.
    rw /KvEntries. by destruct (_ !! _). }
  have Hlen : length lm = 32%nat.
  { destruct (stored_meta s k O1 Hst) as (m' & Hm' & Hz). rw /TryReadMeta Hlm in Hm'.
    injection Hm' as <-. rw /zlen in Hz. lia. }
  have Hgc : go_copy (zeros 32) lm = lm by apply go_copy_full; rw Hlen.
  rw Hgc. destruct (_ && _) eqn:Eh.
  { intros [= <- <-]. split; [by apply storage_evolves_refl|]. split; [|done]. intros _.
    exists lm. split; [exact Hlm|]. apply andb_true_iff in Eh as [_ Eh%negb_true_iff%Z.eqb_neq]. done. }
  destruct (on_sm (TryWriteEncoded k e (PrepareCommit c)) s) as [r1 s1] eqn:Ew.
  destruct (Z.le_gt_cases (zlen e) (sm_kvSize (s_shardManager s))) as [He|He].
  - destruct (on_sm_TryWriteEncoded s k e c O1 Hst He Hc) as (s2 & Ew2 & Hod & Hh & _).
    rw Ew in Ew2. injection Ew2 as -> ->. intros [= <- <-].
    apply holds_filled in Hh. split; [by apply (only_kv_evolves k)|done].
  - destruct (write_too_large k e (PrepareCommit c) s O1 He r1 s1 Ew) as [-> Hr1].
    destruct r1 as [[|]| |]; [done|apply Hsame; naive_solver..].
Qed.

Lemma getKvMetas_lengths s ks metas :
  metas_wf s → getKvMetas s ks = Ret metas →
  Forall2 (λ k m, contract_meta s k = Ret m ∧ length m = 32%nat) ks metas.
Proof.
  intros Hm HF%getKvMetas_Forall2. eapply Forall2_impl; [exact HF|]. intros k m Hkm.
  split; [done|]. exact (contract_meta_length s k m Hm Hkm).
Qed.

(** The loop of [CommitBlobs] over elements with records of the right size. *)
Lemma commit_loop_law s l ins0 r s' :
  storage_ok s → (∀ k, k ∈ ins0 → kv_filled s k) →
  Forall (λ '(k, c, enc, m), length c = 32%nat ∧ length m = 32%nat)
    (l : list (Z * bytes * option bytes * bytes)) →
  st_foldM commit_one ins0 l s = (r, s') →
  storage_evolves s s' ∧
  ∀ ins, r = Ret ins → (∃ new, ins = ins0 ++ new ∧ new `sublist_of` (λ x, x.1.1.1) <$> l) ∧
    ∀ k, k ∈ ins → kv_filled s' k.
Proof.
  revert s ins0. induction l as [|[[[k c] enc] m] l IH]; intros s ins0 Hok Hi HF.
  { intros [= <- <-]. split; [by apply storage_evolves_refl|]. intros ins [= <-]. split.
    - exists []. by rw app_nil_r.
    - exact Hi. }
  apply Forall_cons in HF as [[Hc Hm] HF]. rw st_foldM_cons /mbind /st_bind.
  rw /commit_one. destruct enc as [e|]; last first.
  { intros E. destruct (IH s ins0 Hok Hi HF E) as [Hev Hr]. split; [done|]. intros ins Hins.
    destruct (Hr ins Hins) as [(new & -> & Hsub) Hf]. split; [|done]. exists new. split; [done|].
    by apply sublist_cons. }
  destruct (commitEncodedBlob k e c m s) as [r1 s1] eqn:Ec.
  destruct (commit_law s k e c m r1 s1 Hok Hc Hm Ec) as (Hev1 & Hf1 & _).
  have Hi1 j : j ∈ ins0 → kv_filled s1 j by intros; apply Hev1, (Hi j).
  destruct r1 as [[]|er|p].
  - intros E. destruct (IH s1 (ins0 ++ [k]) (ev_ok _ _ _ _ Hev1)) with (2 := HF) (3 := E) as [Hev Hr].
    { intros j [Hj|Hj%list_elem_of_singleton]%elem_of_app; [by apply Hi1|]. subst j. by apply Hf1. }
    split; [by apply (storage_evolves_trans s s1)|]. intros ins Hins.
    destruct (Hr ins Hins) as [(new & -> & Hsub) Hf]. split; [|done]. exists (k :: new).
    rw -app_assoc. split; [done|]. by apply sublist_skip.
  - intros E. destruct (IH s1 ins0 (ev_ok _ _ _ _ Hev1)) with (2 := HF) (3 := E) as [Hev Hr].
    { done. }
    split; [by apply (storage_evolves_trans s s1)|]. intros ins Hins.
    destruct (Hr ins Hins) as [(new & -> & Hsub) Hf]. split; [|done]. exists new. split; [done|].
    by apply sublist_cons.
  - intros [= <- <-]. done.
Qed.

Lemma storage_CommitBlobs_law s ks bs cs r s' :
  storage_ok s → Forall (λ c, length c = 32%nat) cs → CommitBlobs ks bs cs s = (r, s') →
  storage_evolves s s' ∧ ∀ ins, r = Ret ins → ins `sublist_of` ks ∧ ∀ k, k ∈ ins → kv_filled s' k.
Proof.
  intros Hok Hc. have Hrefl := storage_evolves_refl s Hok. rw /CommitBlobs.
  destruct (negb _) eqn:El; [by intros [= <- <-]|].
  apply negb_false_iff, andb_true_iff in El as [L1%Nat.eqb_eq L2%Nat.eqb_eq].
  rw /mbind /st_bind /st_lift.
  destruct (encode_all _ _) as [encs| |] eqn:Ee; [|by intros [= <- <-]..].
  destruct (getKvMetas s ks) as [metas| |] eqn:Em; [|by intros [= <- <-]..].
  apply (getKvMetas_lengths s ks metas (ok_metas _ Hok)) in Em.
  set l := zip _ _. intros E.
  destruct (commit_loop_law s l [] r s' Hok) with (3 := E) as [Hev Hr].
  - by intros k []%not_elem_of_nil.
  - apply Forall_forall. intros [[[k c] enc] m] (i & Hx)%list_elem_of_lookup.
    apply lookup_zip_with_Some in Hx as (y & m' & [= <- <-] & Hx & Hmi).
    apply lookup_zip_with_Some in Hx as (y & enc' & [= <- <-] & Hx & _).
    apply lookup_zip_with_Some in Hx as (k' & c' & [= <- <-] & Hki & Hci). split.
    + exact (Forall_lookup_1 _ _ _ _ Hc Hci).
    + exact (proj2 (Forall2_lookup_lr _ _ _ _ _ _ Em Hki Hmi)).
  - split; [done|]. intros ins Hins. destruct (Hr ins Hins) as [(new & -> & Hsub) Hf].
    split; [|done]. simpl in *. etrans; [exact Hsub|]. rw /l.
    apply encode_all_Forall2, Forall2_length in Ee. apply Forall2_length in Em.
    rw !length_zip_with in Ee.
    have -> : (λ x : Z * bytes * option bytes * bytes, x.1.1.1) <$>
      zip (zip (zip ks cs) encs) metas = (zip (zip (zip ks cs) encs) metas).*1.*1.*1
      by rw -!list_fmap_compose.
    rw fst_zip; [rw !length_zip_with; lia|]. rw fst_zip; [rw length_zip_with; lia|]. by rw fst_zip; [rw L1 L2|].
Qed.

(** The encoded empty blobs are those of the first KVs of the range. *)
Lemma encode_empty_prefix sm ks l :
  encode_empty sm ks = Ret l → l.*1 `prefix_of` ks.
Proof.
  revert l. induction ks as [|k ks IH]; intros l; simpl.
  { intros <-%Ret_inj. apply prefix_nil. }
  destruct (TryEncodeKV sm k [] (zeros 32)) as [[e|]| |];
    try (intros <-%Ret_inj; apply prefix_nil); [|done].
  rw /mbind /gores_bind. destruct (encode_empty sm ks) as [rest| |] eqn:E; [|done..].
  intros <-%Ret_inj. simpl. apply prefix_cons. by apply IH.
Qed.

Lemma commit_empty_law s0 l s n next r s' :
  storage_ok s → 0 ≤ next → next + zlen l < two63 →
  Forall (λ '(k, e, m), contract_meta s0 k = Ret m ∧ length m = 32%nat)
    (l : list (Z * bytes * bytes)) →
  l.*1.*1 = seqZ next (zlen l) →
  commit_empty l n next s = (r, s') →
  storage_evolves s s' ∧ ∀ ins nx, r = Ret (ins, nx) →
    next ≤ nx ≤ next + zlen l ∧ ∀ k, next ≤ k < nx → kv_filled s' k ∨ kv_data s0 k.
Proof.
  revert s n next. induction l as [|[[k e] m] l IH]; intros s n next Hok Hn Hb HF Hks; simpl.
  { intros [= <- <-]. split; [by apply storage_evolves_refl|]. intros ins nx [= <- <-].
    rw /zlen /=. split; [lia|]. intros k ?. lia. }
  apply Forall_cons in HF as [[Hcm Hm] HF].
  have Hz : zlen ((k, e, m) :: l) = zlen l + 1 by rw /zlen /=; lia.
  pose proof (zlen_nonneg l) as Hz0. rw Hz in Hb Hks. rw seqZ_cons in Hks; [lia|].
  simpl in Hks. injection Hks as -> Hks. have Ep : Z.pred (zlen l + 1) = zlen l by lia. rw Ep in Hks.
  have Hnext : add64 next 1 = Z.succ next.
  { rw /add64 wrap64_small; [unfold two63, two64 in *; lia|]. lia. }
  rw Hnext. destruct (commitEncodedBlob next e (zeros 32) m s) as [r1 s1] eqn:Ec.
  destruct (commit_law s next e (zeros 32) m r1 s1 Hok (eq_refl _) Hm Ec) as (Hev1 & Hf1 & Hd1).
  have Hgo : (kv_filled s1 next ∨ kv_data s0 next) → ∀ n', commit_empty l n' (Z.succ next) s1 = (r, s') →
    storage_evolves s s' ∧ ∀ ins nx, r = Ret (ins, nx) →
      next ≤ nx ≤ next + zlen ((next, e, m) :: l) ∧ ∀ k, next ≤ k < nx → kv_filled s' k ∨ kv_data s0 k.
  { intros Hfd n' E. destruct (IH s1 n' (Z.succ next) (ev_ok _ _ _ _ Hev1)) with (4 := Hks) (5 := E)
      as [Hev Hr]; [lia|lia|done|].
    split; [by apply (storage_evolves_trans s s1)|]. intros ins nx Hins.
    destruct (Hr ins nx Hins) as [Hb1 Hk1]. split; [lia|]. intros j Hj.
    destruct (decide (j = next)) as [-> |]; [|apply Hk1; lia].
    destruct Hfd as [?|?]; [left; by apply Hev|by right]. }
  destruct r1 as [[]|er|p].
  - apply Hgo. left. by apply Hf1.
  - destruct (as_commit_mismatch er) eqn:Ea.
    + apply Hgo. right. right. exists m. split; [done|]. by apply (Hd1 er).
    + intros [= <- <-]. split; [done|]. intros ins nx [= <- <-]. split; [lia|]. intros j ?. lia.
  - intros [= <- <-]. done.
Qed.

Lemma storage_CommitEmptyBlobs_law s start limit r s' :
  storage_ok s → 0 ≤ start ≤ limit + 1 → limit + 1 < two63 →
  CommitEmptyBlobs start limit s = (r, s') →
  storage_evolves s s' ∧ ∀ ins next err, r = Ret (ins, next, err) →
    start ≤ next ≤ limit + 1 ∧ ∀ k, start ≤ k < next → kv_filled s' k ∨ kv_data s k.
Proof.
  intros Hok Hs Hl. have Hrefl := storage_evolves_refl s Hok. rw /CommitEmptyBlobs.
  destruct (encode_empty _ _) as [encs| |] eqn:Ee; [|by intros [= <- <-]..].
  destruct (getKvMetas s encs.*1) as [metas|e|] eqn:Em; [| |by intros [= <- <-]]; last first.
  { intros [= <- <-]. split; [done|]. intros ins next err [= <- <- <-]. split; [lia|]. intros k ?. lia. }
  apply (getKvMetas_lengths s _ metas (ok_metas _ Hok)) in Em.
  have Hlen := Forall2_length _ _ _ Em. rw length_fmap in Hlen.
  apply encode_empty_prefix in Ee. have Hpl := prefix_length _ _ Ee.
  rw length_fmap length_seqZ in Hpl.
  have Hks : encs.*1 = seqZ start (zlen encs).
  { destruct Ee as [k Ek]. apply list_eq_same_length with (length encs);
      [by rw length_seqZ /zlen Nat2Z.id|by rw length_fmap|]. intros i x y Hi Hx Hy.
    have Hx' : seqZ start (limit - start + 1) !! i = Some x by rw Ek; apply lookup_app_l_Some.
    apply lookup_seqZ in Hx', Hy. lia. }
  have Hz : zlen (zip encs metas) = zlen encs by rw /zlen length_zip_with; lia.
  destruct (commit_empty (zip encs metas) 0 start s) as [r1 s1] eqn:Ec.
  destruct (commit_empty_law s (zip encs metas) s 0 start r1 s1 Hok) with (5 := Ec) as [Hev Hr].
  - lia.
  - rw Hz /zlen. lia.
  - apply Forall_forall. intros [[k e] m] (i & Hx)%list_elem_of_lookup.
    apply lookup_zip_with_Some in Hx as ([k' e'] & m' & [= <- <- <-] & Hx & Hmi).
    apply (Forall2_lookup_lr _ _ _ i _ _ Em); [|done]. by rw list_lookup_fmap Hx.
  - rw Hz fst_zip //. lia.
  - destruct r1 as [[ins nx]|er|p]; intros [= <- <-]; (split; [done|]); [|done..].
    intros ins' nx' err [= <- <- <-]. destruct (Hr ins nx eq_refl) as [Hb Hk].
    split; [|done]. rw Hz /zlen in Hb. lia.
Qed.

Lemma storage_geometry s :
  storage_ok s → 0 < mgr_KvEntries s ∧
  ∀ sid, sid ∈ mgr_Shards s → 0 ≤ sid ∧ mgr_KvEntries s * (sid + 1) < two63.
Proof.
  intros Hok. split; [exact (smwf_entries _ (ok_sm _ Hok))|].
  intros sid Hsid. by apply (ok_ids _ Hok), Shards_elem.
Qed.

Lemma storage_data_count s k : 0 ≤ k < mgr_KvEntryCount s → kv_data s k.
Proof. intros Hk. left. apply Hk. Qed.

#[export] Instance storage_sync_laws : SyncStorageLaws StorageManager := {
  mgr_ok := storage_ok;
  mgr_filled := kv_filled;
  mgr_data := kv_data;
  mgr_geometry := storage_geometry;
  mgr_count := ok_count;
  mgr_data_count := storage_data_count;
  CommitBlobs_law := storage_CommitBlobs_law;
  CommitEmptyBlobs_law := storage_CommitEmptyBlobs_law }.

(** ** The other users of the storage *)

Lemma view_evolves s s' :
  storage_ok s → s_shardManager s' = s_shardManager s → metas_wf s' → 0 ≤ KvEntryCount s' →
  storage_evolves s s'.
Proof.
  intros [O1 O2 O3 O4 O5] E Hm Hc.
  have Ek : KvEntries s' = KvEntries s by rw /KvEntries E.
  constructor; try done.
  - constructor; rw ?Ek ?E //. intros k Hk. rw /kv_stored E. by apply O3.
  - by rw /mgr_ContractAddress /= E.
  - by rw /mgr_Shards /= /Shards E.
  - intros k (m & H1 & H2). exists m. by rw /TryReadMeta E.
Qed.

Lemma write_evolves s k e c r s' :
  storage_ok s → length c = 32%nat → on_sm (TryWriteEncoded k e (PrepareCommit c)) s = (r, s') →
  storage_evolves s s'.
Proof.
  intros Hok Hc E. pose proof Hok as [O1 O2 O3 O4 O5].
  destruct (decide (k / KvEntries s ∈ dom (sm_shardMap (s_shardManager s)))) as [Hd|Hd].
  - destruct (Z.le_gt_cases (zlen e) (sm_kvSize (s_shardManager s))) as [He|He].
    + destruct (on_sm_TryWriteEncoded s k e c O1 (O3 k Hd) He Hc) as (s2 & E2 & Hod & Hh & _).
      have ? : s2 = s' by congruence. subst s2. apply (only_kv_evolves k); try done.
      * exact (write_same_shards _ _ _ _ _ _ E).
      * exact (holds_filled _ _ _ Hh).
    + destruct (write_too_large k e (PrepareCommit c) s O1 He r s' E) as [-> _].
      by apply storage_evolves_refl.
  - move: E. rw /on_sm /TryWriteEncoded with_shard_st_none //.
    { by apply not_elem_of_dom in Hd. }
    intros [= <- <-]. rw set_sm_id. by apply storage_evolves_refl.
Qed.

Lemma write_positions_evolve T ks bs cs order s st r sm' :
  storage_ok s → Forall (λ c, length c = 32%nat) cs →
  st_foldM (write_position T ks bs cs) st order (s_shardManager s) = (r, sm') →
  storage_evolves s (set_sm s sm').
Proof.
  revert s st. induction order as [|p order IH]; intros s st Hok Hc.
  { intros [= <- <-]. rw set_sm_id. by apply storage_evolves_refl. }
  rw st_foldM_cons /mbind /st_bind.
  destruct (write_position T ks bs cs st p (s_shardManager s)) as [r1 sm1] eqn:E.
  have Hev1 : storage_evolves s (set_sm s sm1).
  { move: E. rw /write_position. case_bool_decide.
    { intros [= <- <-]. rw set_sm_id. by apply storage_evolves_refl. }
    destruct (index ks p) as [k| |], (index bs p) as [b| |]; case Ec: (@index bytes cs p) => [c| |];
      try (intros [= <- <-]; rw set_sm_id; by apply storage_evolves_refl).
    destruct (TryWriteEncoded k b (PrepareCommit c) (s_shardManager s)) as [r2 sm2] eqn:Ew.
    have Hev2 : storage_evolves s (set_sm s sm2).
    { apply (write_evolves s k b c r2); [done| |by rw /on_sm Ew].
      rw Forall_forall in Hc. apply Hc. exact (index_elem _ _ _ Ec). }
    by destruct r2; intros [= <- <-]. }
  destruct r1 as [st1| |]; [|by intros [= <- <-]..]. intros E2.
  apply (storage_evolves_trans s (set_sm s sm1)); [done|].
  exact (IH (set_sm s sm1) st1 (ev_ok _ _ _ _ Hev1) Hc E2).
Qed.

Lemma put_metas_length m l m' :
  (∀ k x, m !! k = Some x → length x = 32%nat) → foldM put_meta m l = Ret m' →
  ∀ k x, m' !! k = Some x → length x = 32%nat.
Proof.
  revert m. induction l as [|[i c] l IH]; intros m Hm; [by intros <-%Ret_inj|].
  rw foldM_cons. have -> : put_meta m (i, c) = (meta ← index_meta i c; mret (<[i := meta]> m)) by done.
  destruct (index_meta i c) as [meta| |] eqn:E; [|done..]. cbn [mbind gores_bind mret gores_ret].
  apply IH. intros k x. destruct (decide (i = k)) as [<- |].
  - rw lookup_insert_eq. intros [= <-]. exact (index_meta_length _ _ _ E).
  - rw lookup_insert_ne //. apply Hm.
Qed.

(** A finalized batch, whatever its outcome, leaves every filled KV filled. *)
Lemma DownloadFinished_evolves `{Il1Source} order newL1 ks bs cs s r s' :
  (∀ req block n, GetStorageKvEntryCount req block = Ret n → 0 ≤ n) →
  storage_ok s → Forall (λ c, length c = 32%nat) cs →
  DownloadFinished order newL1 ks bs cs s = (r, s') → storage_evolves s s'.
Proof.
  intros Hcnt Hok Hc. have Hrefl := storage_evolves_refl s Hok. rw /DownloadFinished.
  destruct (negb _); [by intros [= <- <-]|]. destruct (newL1 <=? s_localL1 s); [by intros [= <- <-]|].
  rw {1}/mbind /st_bind. destruct (on_sm _ s) as [r1 s1] eqn:E1.
  have Hev1 : storage_evolves s s1.
  { move: E1. rw /on_sm. destruct (s_DownloadThreadNum s <=? 0).
    { intros [= <- <-]. by rw set_sm_id. }
    destruct (st_foldM _ _ _ _) as [r2 sm2] eqn:Ef. intros [= <- <-].
    exact (write_positions_evolve _ _ _ _ _ _ _ _ _ Hok Hc Ef). }
  destruct r1 as [x| |]; [|by intros [= <- <-]..]. rw {1}/mbind /st_bind /ask_KvEntryCount.
  have Hev2 : storage_evolves s1 (next_request s1).
  { destruct (ev_ok _ _ _ _ Hev1). by apply view_evolves. }
  destruct (GetStorageKvEntryCount (s_requests s1) newL1) as [n| |] eqn:En;
    [|intros [= <- <-]; by apply (storage_evolves_trans s s1)..].
  rw /update_view. set s3 := set_view (next_request s1) newL1 n.
  have Hev3 : storage_evolves s s3.
  { apply (storage_evolves_trans s s1); [done|]. apply view_evolves; try done.
    - apply (ev_ok _ _ _ _ Hev1).
    - apply (ok_metas _ (ev_ok _ _ _ _ Hev1)).
    - exact (Hcnt _ _ _ En). }
  rw /mbind /updateLocalMetas.
  case Ef: (foldM _ _ _) => [m| |]; [|by intros [= <- <-]..]. intros [= <- <-].
  apply (storage_evolves_trans s s3); [done|]. apply view_evolves; try done.
  - apply (ev_ok _ _ _ _ Hev3).
  - intros k y. simpl. rw delete_all_lookup. case_decide; [done|]. apply (put_metas_length (s_blobMetas s3) (zip ks cs)).
    + apply (ok_metas _ (ev_ok _ _ _ _ Hev3)).
    + rw -Ef. apply foldM_ext. by intros ? [] _.
  - apply (ok_count _ (ev_ok _ _ _ _ Hev3)).
Qed.

End laws.

(** C1: when the client announces that the sync is done, every KV of every shard
    of the node is filled in the data files, with two exceptions.  A KV at or above
    [floor], a number of KVs the contract's count never goes below, may be left to
    the downloader: a filling goroutine saw that the contract had data for it by
    then.  And a KV may be forgotten when a peer named some KV twice in its answer
    to a range request for it.  So below [floor], with answers that repeat no KV,
    every KV is filled.  This holds after every run of the client on the storage
    manager: every order of requests, answers, critical sections of the main loop,
    saves, restarts and writes of other goroutines, from a first start on. *)
Theorem sync_done_filled `{Geth} (floor : Z) (c0 c : SyncClient StorageManager) (y : run) :
  c0 = fresh_client c0 → storage_ok (c_storage c0) → config_ok c0 →
  floor ≤ KvEntryCount (c_storage c0) → c_dbTasks c0 = None →
  loadSyncStatus c0 = (Ret tt, c) → rtc (step floor) (mkRun c [] []) y →
  c_syncDone (y_client y) = true →
  ∀ sid k, sid ∈ Shards (c_storage (y_client y)) →
    KvEntries (c_storage (y_client y)) * sid ≤ k < KvEntries (c_storage (y_client y)) * (sid + 1) →
    kv_filled (c_storage (y_client y)) k ∨
    (floor ≤ k ∧ ∃ s g, (s, g) ∈ y_seen y ∧ is_Some (empty_of g) ∧ kv_data s k) ∨
    ∃ s req blobs, (s, RangeGot req blobs) ∈ y_seen y ∧ rr_origin req ≤ k ≤ rr_limit req ∧
      ¬ NoDup (BlobIndex <$> blobs_in (rr_origin req) (rr_limit req) blobs).
Proof.
  intros Hf Hok Hcf Hfl Hdb Hload Hrun Hdone sid k Hsid Hk.
  have [[?|?]|?] : settled (c_storage (y_client y)) (y_seen y) k ∨ floor ≤ k ∧ seen_data (y_seen y) k.
  { exact (ro_done _ _ _ _ (run_inv floor c0 c y Hf Hok Hcf Hfl Hdb Hload Hrun) Hdone sid Hsid k Hk). }
  - by left.
  - by right; right.
  - by right; left.
Qed.

(** *** A node with one shard and no data in the contract for it *)

Definition ex_empty : StorageManager := mkStorageManager 1 ex_sm 5 2 ∅ 0.

Lemma ex_empty_ok : storage_ok ex_empty.
Proof.
  have Hdom sid : sid ∈ dom (sm_shardMap ex_sm) → sid = 1.
  { rw /ex_sm /= dom_singleton_L. set_solver. }
  constructor; simpl.
  - exact ex_sm_wf.
  - intros k m. by rw /= lookup_empty.
  - intros k Hk%Hdom. apply (ex_stored k). have H2 : k / 2 = 1 by exact Hk.
    have := Z.div_mod k 2 ltac:(lia). have := Z.mod_pos_bound k 2 ltac:(lia). lia.
  - intros sid ->%Hdom. by vm_compute.
  - by vm_compute.
Qed.

(** *** A node with one shard of two KVs of the size of a blob

    The contract has a blob for KV 0, which a peer holds, and none for KV 1. *)

Definition far_blob : bytes := replicate (Z.to_nat blob_size) 7.
Definition far_commit : bytes := toy_hash (take 64 far_blob).
Definition new_df : DataFile :=
  mkDataFile (mkFile (zeros (4096 + 2 * blob_size + 64)) false) 0 2 NO_ENCODE blob_size blob_size 32 (zeros 20).
Definition new_ds : DataShard := mkDataShard 0 blob_size 1 2 [new_df] blob_size.
Definition new_node : StorageManager :=
  mkStorageManager 1 (mkShardManager {[0 := new_ds]} (zeros 20) 17 blob_size 0 1 1 2 blob_size 17) 5 1
    {[0 := from_ret [] (index_meta 0 far_commit)]} 0.

Lemma new_ds_wf : ds_wf new_ds.
Proof.
  constructor; [done..|]. apply Forall_singleton. constructor; [|done..]. constructor; by vm_compute.
Qed.

Lemma new_node_ok : storage_ok new_node.
Proof.
  have Hdom sid : sid ∈ dom (sm_shardMap (s_shardManager new_node)) → sid = 0.
  { rw /= dom_singleton_L. set_solver. }
  constructor.
  - constructor; [done|]. intros i ds. rw /= lookup_singleton_Some. intros [<- <-].
    split; [apply new_ds_wf|done].
  - intros k m. rw /= lookup_singleton_Some. intros [_ <-]. by vm_compute.
  - intros k Hk%Hdom. have Hk2 : k / 2 = 0 by exact Hk.
    have Hk01 : k = 0 ∨ k = 1 by have := Z.div_mod k 2 ltac:(lia); have := Z.mod_pos_bound k 2 ltac:(lia); lia.
    exists new_ds. split; [rw /shard_of Hk2 //|]. exists new_df. split; [apply list_elem_of_here|].
    destruct Hk01 as [-> | ->]; by vm_compute.
  - intros sid ->%Hdom. by vm_compute.
  - by vm_compute.
Qed.

Definition new_client : SyncClient StorageManager :=
  mkSyncClient [] ∅ ∅ false false ∅ ∅ 0 None None None 4 1 (mkSyncerParams 4 1 1 1 1) 1
    {[zeros 20 := blob_size]} new_node.

Lemma new_client_config : config_ok new_client.
Proof.
  constructor.
  - by vm_compute.
  - by vm_compute.
  - intros contract n. rw /new_client. cbn [c_kvSizes]. rw lookup_singleton_Some. intros [_ <-]. by vm_compute.
Qed.

(** The run: a peer comes, KV 0 is asked for, answered, stored and recorded; KV 1
    is filled as empty; the tasks are cleaned up. *)
Definition far_req : blobsByRangeRequest := mkRangeRequest 7 9 (zeros 20) 0 0 0 0.
Definition far_answer : BlobsPacket :=
  mkBlobsPacket 9 (zeros 20) 0 [mkBlobPayload (zeros 20) 0 far_commit NO_ENCODE far_blob].

Definition run_loaded := (loadSyncStatus new_client).2.
Definition run_joined := (AddPeer 7 (Some {[zeros 20 := [0]]}) run_loaded).2.
Definition run_asked := (assignBlobRangeTasks (λ _ _, [7]) (λ _ _, 9) run_joined).2.
Definition run_filling := (assignFillEmptyBlobTasks run_asked).2.
Definition run_got := peer_idle 7 run_filling.
Definition run_stored :=
  (on_storage (onResult (blobs_in (rr_origin far_req) (rr_limit far_req) (pk_Blobs far_answer))) run_got).2.
Definition run_recorded := (range_record far_req [0] run_stored).2.
Definition run_sub : subTask := mkSubTask 0 1 0 1 true true.
Definition run_ended := set_subs run_recorded (<[0 := set_isRunning false run_sub]> (c_subs run_recorded)).
Definition run_count : Z := mgr_KvEntryCount (c_storage run_ended).
Definition run_filled := (on_storage (fill_with run_count 1 1) run_ended).2.
Definition run_counted := (fill_finish 0 1 2 run_filled).2.
Definition run_cleaned := (cleanTasks run_counted).2.

Definition run_trace : trace :=
  [(c_storage run_filling, RangeGot far_req (pk_Blobs far_answer));
   (c_storage run_got, RangeIn far_req [0]);
   (c_storage run_stored, RangeEnd 0);
   (c_storage run_recorded, Finished);
   (c_storage run_ended, FillRead 0 1 1 run_count);
   (c_storage run_ended, FillDone 0 1 2);
   (c_storage run_filled, Finished)].

(** Only the result of a step is computed, not the state after it. *)
Lemma result_pair {A B} (x : A * B) (r : A) (s : B) : x.1 = r → x.2 = s → x = (r, s).
Proof. intros <- <-. by destruct x. Qed.

Lemma run_clean_step : cstep run_counted run_cleaned [].
Proof. apply c_clean, result_pair; [by vm_compute|reflexivity]. Qed.

Lemma run_steps : rtc (step 1) (mkRun run_loaded [] []) (mkRun run_cleaned [Finished; Finished] run_trace).
Proof.
  eapply rtc_l; [eapply (step_client 1 run_loaded [] [] run_joined), c_add_peer|].
  eapply rtc_l.
  { eapply (step_client 1 run_joined _ _ run_asked), (c_assign_range (λ _ _, [7]) (λ _ _, 9) _ [far_req]).
    apply result_pair; [by vm_compute|reflexivity]. }
  eapply rtc_l.
  { eapply (step_client 1 run_asked _ _ run_filling), (c_assign_fill _ [(0, 1, 1)]).
    apply result_pair; [by vm_compute|reflexivity]. }
  eapply rtc_l.
  { eapply (step_gor 1 run_filling _ _ 0 _ run_got); [done|].
    apply (g_range_got run_filling far_req far_answer); try done. apply Forall_singleton. by vm_compute. }
  eapply rtc_l.
  { eapply (step_gor 1 run_got _ _ 0 _ run_stored); [done|].
    apply (g_range_store run_got far_req (pk_Blobs far_answer) _ [0]); [done|].
    apply result_pair; [by vm_compute|reflexivity]. }
  eapply rtc_l.
  { eapply (step_gor 1 run_stored _ _ 0 _ run_recorded); [done|].
    apply (g_range_record run_stored far_req [0]). apply result_pair; [by vm_compute|reflexivity]. }
  eapply rtc_l.
  { eapply (step_gor 1 run_recorded _ _ 0 _ run_ended); [done|].
    apply (g_range_end run_recorded 0 run_sub). by vm_compute. }
  eapply rtc_l; [eapply (step_gor 1 run_ended _ _ 1); [done|apply (g_fill_read run_ended)]|].
  eapply rtc_l.
  { eapply (step_gor 1 run_ended _ _ 1 _ run_filled); [done|].
    apply (g_fill_commit run_ended 0 1 1 run_count 2 None). apply result_pair; [by vm_compute|reflexivity]. }
  eapply rtc_l.
  { eapply (step_gor 1 run_filled _ _ 1 _ run_counted); [done|].
    apply (g_fill_finish run_filled 0 1 2). apply result_pair; [by vm_compute|reflexivity]. }
  eapply rtc_l; [|apply rtc_refl].
  exact (step_client 1 run_counted [Finished; Finished] run_trace run_cleaned [] run_clean_step).
Qed.

(** The one answer of the run repeats no KV. *)
Lemma run_no_repeats s req blobs :
  (s, RangeGot req blobs) ∈ run_trace →
  NoDup (BlobIndex <$> blobs_in (rr_origin req) (rr_limit req) blobs).
Proof.
  intros (i & Hi)%list_elem_of_lookup.
  apply (f_equal (option_map snd)) in Hi. destruct i as [|i].
  { injection Hi as <- <-. apply NoDup_singleton. }
  by do 7 (destruct i as [|i]; [done|]).
Qed.

(** After the run KV 0 is filled with the peer's blob. *)
Lemma sync_done_filled_witness :
  c_syncDone run_cleaned = true ∧ kv_filled (c_storage run_cleaned) 0.
Proof.
  have Hdone : c_syncDone run_cleaned = true by vm_compute.
  split; [exact Hdone|].
  destruct (sync_done_filled 1 new_client run_loaded (mkRun run_cleaned [Finished; Finished] run_trace)
    eq_refl new_node_ok) with (5 := run_steps) (6 := Hdone) (sid := 0) (k := 0) as [Hf|[[Hf _]|Hr]].
  - exact new_client_config.
  - by vm_compute.
  - reflexivity.
  - apply result_pair; [by vm_compute|reflexivity].
  - have -> : Shards (c_storage (y_client (mkRun run_cleaned [Finished; Finished] run_trace))) = [0] by vm_compute.
    apply list_elem_of_here.
  - have -> : KvEntries (c_storage (y_client (mkRun run_cleaned [Finished; Finished] run_trace))) = 2 by vm_compute.
    lia.
  - exact Hf.
  - lia.
  - destruct Hr as (s & req & blobs & Hs & _ & Hn). by destruct Hn; apply (run_no_repeats s).
Defined.
