(* ===== verification/SyncWire.v ===== *)
(** * Messages of the sync protocol (ethstorage/p2p/protocol/utils.go, peer.go)

    A message is a return code followed by a snappy stream that holds the size
    and the bytes of an RLP value.  Snappy and RLP are libraries: parameters of
    the model, with what their documentation promises as laws.  Deadlines have no
    counterpart; a stream that fails is a stream that ends early. *)

From S2P Require Import Prelude.

(** [github.com/golang/snappy]: the framing format, and the bytes a reader gets
    from a stream before it ends or is found corrupt. *)
Class Snappy := {
  snappy_write : bytes → bytes;
  snappy_read : bytes → bytes }.

Class SnappyLaws (SN : Snappy) : Prop := {
  snappy_read_write b : snappy_read (snappy_write b) = b }.

(** [rlp.EncodeToBytes] and [rlp.DecodeBytes] at a type. *)
Class RLP (A : Type) := {
  EncodeToBytes : A → gores bytes;
  DecodeBytes : bytes → gores A }.

Class RLPLaws (A : Type) `{RLP A} : Prop := {
  DecodeBytes_EncodeToBytes x : ∃ b, EncodeToBytes x = Ret b ∧ DecodeBytes b = Ret x }.

Definition returnCodeSuccess : Z := 0.
Definition returnCodeReadError : Z := 1.
Definition returnCodeInvalidRequest : Z := 2.
Definition returnCodeServerError : Z := 3.
Definition streamError : Z := 254.
Definition clientError : Z := 255.
Definition maxGossipSize : Z := 10 * 2 ^ 20.

Record Msg := mkMsg { ReturnCode : Z; Payload : bytes }.

Section wire.
Context `{SN : Snappy}.

(** [room] is what the stream takes before it fails ([None]: everything); the
    result is what went out, with the error. *)
Definition WriteMsg (room : option Z) (msg : Msg) : bytes * option error :=
  let out := ReturnCode msg :: snappy_write (be_encode 4 (wrap32 (zlen (Payload msg))) ++ Payload msg) in
  match room with
  | None => (out, None)
  | Some n => if zlen out <=? n then (out, None)
              else (take (Z.to_nat n) out, Some (ErrMsg "stream closed"))
  end.

(** [io.ReadFull(r, buf)] for [n] bytes: the bytes and the rest of the stream. *)
Definition ReadFull (n : Z) (r : bytes) : gores (bytes * bytes) :=
  if zlen r <? n then Fail EOF
  else Ret (take (Z.to_nat n) r, drop (Z.to_nat n) r).

(** The return code, and the payload or the error. *)
Definition ReadMsg (closeRead : option error) (stream : bytes) : Z * gores bytes :=
  match ReadFull 1 stream with
  | Ret (code :: _, stream) =>
      if negb (code =? 0) then (code, Fail (ErrMsg "peer failed to serve request"))
      else
        let r := take (Z.to_nat maxGossipSize) (snappy_read stream) in
        (code,
         '(sizeBytes, r) ← ReadFull 4 r;
         let read := ReadFull (be_decode sizeBytes) r in
         match closeRead with
         | Some _ => Fail (ErrMsg "failed to close reading side")
         | None => '(payload, _) ← read; mret payload
         end)
  | _ => (clientError, Fail (ErrWrap "failed to read result part of response" EOF))
  end.

(** [net] carries what the client sends to the peer and gives its answer. *)
Definition SendRPC {Q R : Type} `{RLP Q} `{RLP R} (room : option Z) (closeRead : option error)
    (net : bytes → bytes) (req : Q) : Z * gores R :=
  match EncodeToBytes req with
  | Ret data =>
      match WriteMsg room (mkMsg 0 data) with
      | (out, None) =>
          let '(returnCode, msg) := ReadMsg closeRead (net out) in
          (returnCode, msg ← msg; DecodeBytes msg)
      | (_, Some err) => (clientError, Fail err)
      end
  | Fail e => (clientError, Fail e)
  | Panic p => (clientError, Panic p)
  end.

Context `{!SnappyLaws SN}.

Lemma ReadFull_app n a r : zlen a = n → ReadFull n (a ++ r) = Ret (a, r).
Proof.
  intros <-. rw /ReadFull /zlen length_app Nat2Z.id.
  case: Z.ltb_spec; [lia|]. intros _. by rw take_app_length drop_app_length.
Qed.

(** Reading a sized value through a limit of [m] bytes. *)
Lemma ReadFull_sized m data :
  4 ≤ m → zlen data < 2 ^ 32 →
  ('(sizeBytes, r) ← ReadFull 4 (take (Z.to_nat m) (be_encode 4 (zlen data) ++ data));
   '(payload, _) ← ReadFull (be_decode sizeBytes) r; mret payload)
  = if zlen data + 4 <=? m then Ret data else Fail EOF.
Proof using.
  intros Hm Hl. have H4 : zlen (be_encode 4 (zlen data)) = 4 by apply length_be_encode.
  rw take_app_ge. { rw /zlen in H4 *. lia. }
  rw ReadFull_app //. cbn [mbind gores_bind].
  rw be_decode_encode //. { rw /zlen in Hl *. lia. }
  rw /ReadFull. case: Z.leb_spec => Hc.
  - rw take_ge. { rw /zlen in H4 Hc *. lia. }
    case: Z.ltb_spec; [lia|]. intros _. cbn [mbind gores_bind].
    rw /zlen Nat2Z.id take_ge //.
  - case: Z.ltb_spec; [done|]. intros Hge. exfalso. move: Hge.
    rw /zlen length_take. rw /zlen in H4 Hc. lia.
Qed.

(** What is read from a message that was written whole. *)
Lemma ReadMsg_whole msg :
  0 ≤ ReturnCode msg → zlen (Payload msg) < 2 ^ 32 →
  ReadMsg None (WriteMsg None msg).1 =
    (ReturnCode msg,
     if ReturnCode msg =? 0
     then if zlen (Payload msg) + 4 <=? maxGossipSize then Ret (Payload msg) else Fail EOF
     else Fail (ErrMsg "peer failed to serve request")).
Proof using SN SnappyLaws0.
  intros Hc Hl. destruct msg as [code data]. cbn [WriteMsg ReturnCode Payload fst] in *. rw /ReadMsg.
  change (code :: ?s) with ([code] ++ s). rw ReadFull_app //.
  destruct (code =? 0); [cbn [negb]|done]. f_equal. rw snappy_read_write.
  have -> : wrap32 (zlen data) = zlen data by apply Z.mod_small; rw /zlen /two32 in Hl *; lia.
  by rw -(ReadFull_sized maxGossipSize).
Qed.

End wire.

(** A message that was written whole is read back: the payload when the
    return code is success, an error with the code otherwise.  A message that
    exceeds the size limit of the reader is refused. *)
Theorem ReadMsg_WriteMsg `{SN : Snappy} `{!SnappyLaws SN} (msg : Msg) :
  0 ≤ ReturnCode msg → zlen (Payload msg) < 2 ^ 32 →
  (WriteMsg None msg).2 = None ∧
  (ReturnCode msg = 0 → zlen (Payload msg) + 4 ≤ maxGossipSize →
     ReadMsg None (WriteMsg None msg).1 = (0, Ret (Payload msg))) ∧
  (ReturnCode msg = 0 → maxGossipSize < zlen (Payload msg) + 4 →
     ∃ e, ReadMsg None (WriteMsg None msg).1 = (0, Fail e)) ∧
  (ReturnCode msg ≠ 0 → ∃ e, ReadMsg None (WriteMsg None msg).1 = (ReturnCode msg, Fail e)).
Proof.
  intros Hc Hl. split; [done|]. rw ReadMsg_whole //. split_and!.
  - intros -> H. by rw (proj2 (Z.leb_le _ _) H).
  - intros -> H. rw (proj2 (Z.leb_gt _ _) H). by eexists.
  - intros E. rw (proj2 (Z.eqb_neq _ _) E). by eexists.
Qed.

(** A toy framing: the bytes between two marks. *)
#[export] Instance toy_snappy : Snappy := {
  snappy_write b := 255 :: b;
  snappy_read b := drop 1 b }.

#[export] Instance toy_snappy_laws : SnappyLaws toy_snappy.
Proof. by constructor. Qed.

Lemma ReadMsg_WriteMsg_witness : ReadMsg None (WriteMsg None (mkMsg 0 [7; 8; 9])).1 = (0, Ret [7; 8; 9]).
Proof.
  destruct (ReadMsg_WriteMsg (mkMsg 0 [7; 8; 9])) as (_ & H & _); [done..|]. by apply H.
Defined.

(** Toy RLP: any injective code will do. *)
Definition toy_rlp (A : Type) `{Countable A} : RLP A := {|
  EncodeToBytes x := Ret [Zpos (encode x)];
  DecodeBytes b := match b with
                   | [Zpos n] => match decode n with Some x => Ret x | None => Fail EOF end
                   | _ => Fail EOF
                   end |}.

Lemma toy_rlp_laws (A : Type) `{Countable A} : @RLPLaws A (toy_rlp A).
Proof. constructor. intros x. eexists. split; [done|]. simpl. by rw decode_encode. Qed.
