(* ===== verification/SyncServer.v ===== *)
(** * Sync server (ethstorage/p2p/protocol/syncserver.go)

    What a node answers to the requests of its peers.  The rate limiters are
    libraries: whether a request passes them is an argument of the handlers.
    The database record of the served blobs is its JSON value: the map, or
    [None] when there is none or it does not decode. *)

From S2P Require Import Prelude Extern Bits DataFile ChunkCodec DataShard ShardManager StorageManager.
From S2P Require Import SyncTask SyncClient SyncWire.

(** What the server uses of the storage manager: [StorageManagerReader]. *)
Class SyncReader (S : Type) := {
  rd_KvEntries : S → Z;
  rd_MaxKvSize : S → Z;
  rd_Shards : S → list Z;
  rd_GetShardMiner : S → Z → bytes * bool;
  rd_GetShardEncodeType : S → Z → Z * bool;
  rd_TryReadEncoded : S → Z → Z → gores (option bytes);
  rd_TryReadMeta : S → Z → gores (option (bytes * option error)) }.

#[export] Instance storage_reader : SyncReader StorageManager := {
  rd_KvEntries := StorageManager.KvEntries;
  rd_MaxKvSize s := sm_kvSize (s_shardManager s);
  rd_Shards := StorageManager.Shards;
  rd_GetShardMiner s := GetShardMiner (s_shardManager s);
  rd_GetShardEncodeType s := GetShardEncodeType (s_shardManager s);
  rd_TryReadEncoded := StorageManager.TryReadEncoded;
  rd_TryReadMeta := StorageManager.TryReadMeta }.

Record GetBlobsByRangePacket := mkGetRange {
  gr_ID : Z; gr_Contract : bytes; gr_ShardId : Z; gr_Origin : Z; gr_Limit : Z; gr_Bytes : Z
}.

Record GetBlobsByListPacket := mkGetList {
  gl_ID : Z; gl_Contract : bytes; gl_ShardId : Z; gl_BlobList : list Z; gl_Bytes : Z
}.

Record SyncServer (S : Type) := mkSyncServer {
  srv_providedBlobs : gmap Z Z;
  srv_db : option (gmap Z Z);
  srv_storage : S
}.
Arguments mkSyncServer {S}. Arguments srv_providedBlobs {S}.
Arguments srv_db {S}. Arguments srv_storage {S}.

Section server.
Context `{GE : Geth} {S : Type} {SR : SyncReader S}.

Definition BlobByIndex (s : S) (idx : Z) : gores BlobPayload :=
  shardIdx ← udiv idx (rd_KvEntries s);
  blob ← rd_TryReadEncoded s idx (rd_MaxKvSize s);
  match blob with
  | None => Fail (ErrMsg "not found")
  | Some blob =>
      meta ← rd_TryReadMeta s idx;
      let '(commit, err) := default ([], None) meta in
      match err with
      | Some e => Fail e
      | None => mret (mkBlobPayload (rd_GetShardMiner s shardIdx).1 idx (BytesToHash commit)
                        (rd_GetShardEncodeType s shardIdx).1 blob)
      end
  end.

(** [uint64(math.Min(maxRequestSize, float64(bytes)))]: below [maxRequestSize]
    the conversions are exact. *)
Definition max_bytes (bytes : Z) : Z := Z.min maxRequestSize bytes.

(** The loop over a range: [fuel] turns at most. *)
Fixpoint range_loop (fuel : nat) (s : S) (id limit maxbytes readBytes : Z) (acc : list BlobPayload)
    : gores (list BlobPayload) :=
  if id <=? limit then
    match fuel with
    | O => Panic OutOfFuel
    | Datatypes.S fuel =>
        match BlobByIndex s id with
        | Panic p => Panic p
        | Fail _ => range_loop fuel s (add64 id 1) limit maxbytes readBytes acc
        | Ret payload =>
            let acc := acc ++ [payload] in
            let readBytes := add64 readBytes (zlen (EncodedBlob payload)) in
            if maxbytes <=? readBytes then mret acc
            else range_loop fuel s (add64 id 1) limit maxbytes readBytes acc
        end
    end
  else mret acc.

Fixpoint list_loop (s : S) (ids : list Z) (maxbytes readBytes : Z) (acc : list BlobPayload)
    : gores (list BlobPayload) :=
  match ids with
  | [] => mret acc
  | idx :: ids =>
      match BlobByIndex s idx with
      | Panic p => Panic p
      | Fail _ => list_loop s ids maxbytes readBytes acc
      | Ret payload =>
          let acc := acc ++ [payload] in
          let readBytes := add64 readBytes (zlen (EncodedBlob payload)) in
          if maxbytes <=? readBytes then mret acc
          else list_loop s ids maxbytes readBytes acc
      end
  end.

Definition count_provided (shardId n : Z) (srv : SyncServer S) : SyncServer S :=
  mkSyncServer (<[shardId := add64 (default 0 (srv_providedBlobs srv !! shardId)) n]>
                  (srv_providedBlobs srv)) (srv_db srv) (srv_storage srv).

Context {SN : Snappy} {RGR : RLP GetBlobsByRangePacket} {RGL : RLP GetBlobsByListPacket}
  {RB : RLP BlobsPacket}.

(** The return code, the answer and the error, which is only logged. *)
Definition handleGetBlobsByRangeRequest (fuel : nat) (limit : gores unit) (closeRead : option error)
    (stream : bytes) : ST (SyncServer S) (Z * bytes) := λ srv,
  match limit with
  | Panic p => (Panic p, srv)
  | Fail _ => (Ret (returnCodeServerError, []), srv)
  | Ret _ =>
      match (ReadMsg closeRead stream).2 with
      | Panic p => (Panic p, srv)
      | Fail _ => (Ret (returnCodeReadError, []), srv)
      | Ret msg =>
          match DecodeBytes (A := GetBlobsByRangePacket) msg with
          | Panic p => (Panic p, srv)
          | Fail _ => (Ret (returnCodeInvalidRequest, []), srv)
          | Ret req =>
              match range_loop fuel (srv_storage srv) (gr_Origin req) (gr_Limit req)
                      (max_bytes (gr_Bytes req)) 0 [] with
              | Panic p => (Panic p, srv)
              | Fail e => (Fail e, srv)
              | Ret blobs =>
                  let srv := count_provided (gr_ShardId req) (zlen blobs) srv in
                  match EncodeToBytes (mkBlobsPacket (gr_ID req) (gr_Contract req) (gr_ShardId req) blobs)
                  with
                  | Panic p => (Panic p, srv)
                  | Fail _ => (Ret (returnCodeServerError, []), srv)
                  | Ret data => (Ret (returnCodeSuccess, data), srv)
                  end
              end
          end
      end
  end.

Definition handleGetBlobsByListRequest (limit : gores unit) (closeRead : option error)
    (stream : bytes) : ST (SyncServer S) (Z * bytes) := λ srv,
  match limit with
  | Panic p => (Panic p, srv)
  | Fail _ => (Ret (returnCodeServerError, []), srv)
  | Ret _ =>
      match (ReadMsg closeRead stream).2 with
      | Panic p => (Panic p, srv)
      | Fail _ => (Ret (returnCodeReadError, []), srv)
      | Ret msg =>
          match DecodeBytes (A := GetBlobsByListPacket) msg with
          | Panic p => (Panic p, srv)
          | Fail _ => (Ret (returnCodeInvalidRequest, []), srv)
          | Ret req =>
              match list_loop (srv_storage srv) (gl_BlobList req) (max_bytes (gl_Bytes req)) 0 [] with
              | Panic p => (Panic p, srv)
              | Fail e => (Fail e, srv)
              | Ret blobs =>
                  let srv := count_provided (gl_ShardId req) (zlen blobs) srv in
                  match EncodeToBytes (mkBlobsPacket (gl_ID req) (gl_Contract req) (gl_ShardId req) blobs)
                  with
                  | Panic p => (Panic p, srv)
                  | Fail _ => (Ret (returnCodeServerError, []), srv)
                  | Ret data => (Ret (returnCodeSuccess, data), srv)
                  end
              end
          end
      end
  end.

(** The stream handlers: what goes back on the stream. *)
Definition HandleGetBlobsByRangeRequest (fuel : nat) (limit : gores unit) (closeRead : option error)
    (room : option Z) (stream : bytes) : ST (SyncServer S) bytes :=
  '(returnCode, data) ← handleGetBlobsByRangeRequest fuel limit closeRead stream;
  mret (WriteMsg room (mkMsg returnCode data)).1.

Definition HandleGetBlobsByListRequest (limit : gores unit) (closeRead : option error)
    (room : option Z) (stream : bytes) : ST (SyncServer S) bytes :=
  '(returnCode, data) ← handleGetBlobsByListRequest limit closeRead stream;
  mret (WriteMsg room (mkMsg returnCode data)).1.

(** The limiters of the peers are kept for the 1000 peers seen last, the latest
    first ([simplelru.LRU]). *)
Definition lru_touch (peerId : Z) (known : list Z) : list Z :=
  take 1000 (peerId :: filter (λ p, p ≠ peerId) known).

(** The global limiter, then that of the peer, which a new peer gets and does not
    wait for; [global] and [peer] are whether the limiters let the request
    through in time. *)
Definition limitPeer (global : gores unit) (peer : Z → gores unit) (peerId : Z) (known : list Z)
    : gores unit * list Z :=
  match global with
  | Ret _ =>
      (if bool_decide (peerId ∈ known) then
         match peer peerId with
         | Ret _ => Ret tt
         | Fail e => Fail (ErrWrap "timed out waiting for global sync rate limit" e)
         | Panic p => Panic p
         end
       else Ret tt, lru_touch peerId known)
  | Fail e => (Fail (ErrWrap "timed out waiting for global sync rate limit" e), known)
  | Panic p => (Panic p, known)
  end.

Definition NewSyncServer (db : option (gmap Z Z)) (s : S) : SyncServer S :=
  let providedBlobs := foldl (λ m shardId,
      match db ≫= lookup shardId with
      | Some blobs => <[shardId := blobs]> m
      | None => <[shardId := 0]> m
      end) ∅ (rd_Shards s) in
  mkSyncServer providedBlobs db s.

(** [put]: whether the database takes the record. *)
Definition saveProvidedBlobs (put : bool) (srv : SyncServer S) : SyncServer S :=
  if put then mkSyncServer (srv_providedBlobs srv) (Some (srv_providedBlobs srv)) (srv_storage srv)
  else srv.

Definition server_Close (put : bool) (srv : SyncServer S) : SyncServer S := saveProvidedBlobs put srv.

(** ** The requests of a client ([peer.go]) *)

(** [bytes] is the size the peer's tracker asks for; [newStream] whether a stream
    to the peer can be opened, and [net] the peer at its other end. *)
Definition RequestBlobsByRange (newStream : option error) (room : option Z) (closeRead : option error)
    (net : bytes → bytes) (id : Z) (contract : bytes) (shardId origin limit bytes : Z)
    : Z * gores BlobsPacket :=
  match newStream with
  | Some err => (streamError, Fail err)
  | None => SendRPC room closeRead net (mkGetRange id contract shardId origin limit bytes)
  end.

Definition RequestBlobsByList (newStream : option error) (room : option Z) (closeRead : option error)
    (net : bytes → bytes) (id : Z) (contract : bytes) (shardId : Z) (kvList : list Z) (bytes : Z)
    : Z * gores BlobsPacket :=
  match newStream with
  | Some err => (streamError, Fail err)
  | None => SendRPC room closeRead net (mkGetList id contract shardId kvList bytes)
  end.

(** ** What is served *)

(** The payloads of the KVs of [ids] that can be read, in order. *)
Definition readable (s : S) (ids : list Z) : list BlobPayload :=
  omap (λ i, match BlobByIndex s i with Ret p => Some p | _ => None end) ids.

(** The payloads up to the first one with which the sum of the sizes reaches
    [maxbytes]. *)
Fixpoint take_bytes (maxbytes readBytes : Z) (l : list BlobPayload) : list BlobPayload :=
  match l with
  | [] => []
  | p :: l =>
      p :: (if maxbytes <=? readBytes + zlen (EncodedBlob p) then []
            else take_bytes maxbytes (readBytes + zlen (EncodedBlob p)) l)
  end.

Definition blob_bytes (l : list BlobPayload) : Z := foldr (λ p n, zlen (EncodedBlob p) + n) 0 l.

Definition no_panic (s : S) (i : Z) : Prop := ∀ p, BlobByIndex s i ≠ Panic p.

Lemma take_bytes_prefix m r l : take_bytes m r l `prefix_of` l.
Proof using.
  revert r. induction l as [|p l IH]; intros r; simpl; [done|]. apply prefix_cons.
  case: Z.leb_spec => _; [apply prefix_nil|apply IH].
Qed.

(** The answer exceeds the limit by less than one blob. *)
Lemma take_bytes_bound m r l n :
  0 ≤ n → r < m → Forall (λ p, zlen (EncodedBlob p) ≤ n) l →
  r + blob_bytes (take_bytes m r l) < m + n ∨ take_bytes m r l = [].
Proof using.
  intros Hn. revert r. induction l as [|p l IH]; intros r Hr; simpl; [by right|].
  intros [Hp Hl]%Forall_cons. left. case: Z.leb_spec => Hc; simpl; [lia|].
  destruct (IH (r + zlen (EncodedBlob p)) Hc Hl) as [?| ->]; simpl; lia.
Qed.

(** Nothing is left out unless the limit is reached. *)
Lemma take_bytes_all m r l :
  r < m → take_bytes m r l = l ∨ m ≤ r + blob_bytes (take_bytes m r l).
Proof using.
  revert r. induction l as [|p l IH]; intros r Hr; simpl; [by left|].
  case: Z.leb_spec => Hc; simpl; [right; lia|].
  destruct (IH (r + zlen (EncodedBlob p)) Hc) as [-> |?]; [by left|right; lia].
Qed.

Lemma list_loop_take s ids m r acc n :
  0 ≤ r < m → m + n < two64 → Forall (no_panic s) ids →
  Forall (λ p, zlen (EncodedBlob p) ≤ n) (readable s ids) →
  list_loop s ids m r acc = Ret (acc ++ take_bytes m r (readable s ids)).
Proof using.
  revert r acc. induction ids as [|i ids IH]; intros r acc Hr Hm; simpl.
  { intros _ _. by rw app_nil_r. }
  intros [Hi Hids]%Forall_cons. specialize (Hi : no_panic s i).
  destruct (BlobByIndex s i) as [p|e|p] eqn:E; [|apply IH; try done; lia|by destruct (Hi p)].
  intros [Hp Hl]%Forall_cons. have H0 : 0 ≤ zlen (EncodedBlob p) by rw /zlen; lia.
  have -> : add64 r (zlen (EncodedBlob p)) = r + zlen (EncodedBlob p)
    by rw /add64 wrap64_small //; lia.
  simpl. case: Z.leb_spec => Hc; [done|]. rw IH //; [lia|]. by rw -app_assoc.
Qed.

Lemma range_loop_list s fuel : ∀ id limit m r acc,
  0 ≤ id → limit + 1 < two64 → limit - id < Z.of_nat fuel →
  range_loop fuel s id limit m r acc = list_loop s (seqZ id (limit - id + 1)) m r acc.
Proof using.
  induction fuel as [|fuel IH]; intros id limit m r acc Hid Hl Hf; simpl.
  { case: Z.leb_spec => ?; [lia|]. by rw seqZ_nil; [lia|]. }
  case: Z.leb_spec => Hc; [|by rw seqZ_nil; [lia|]].
  rw seqZ_cons; [lia|]. simpl.
  have -> : add64 id 1 = Z.succ id by rw /add64 wrap64_small //; lia.
  have -> : Z.pred (limit - id + 1) = limit - Z.succ id + 1 by lia.
  destruct (BlobByIndex s id); [|apply IH; lia|done]. case: Z.leb_spec => ?; [done|apply IH; lia].
Qed.

End server.

(** The range loop does not end at the largest index: it wraps around. *)
Lemma range_loop_wraps `{Geth} {S : Type} `{SyncReader S} (s : S) fuel : ∀ id m r,
  is_u64 id → (∀ k, is_u64 k → ∃ e, BlobByIndex s k = Fail e) →
  range_loop fuel s id (two64 - 1) m r [] = Panic OutOfFuel.
Proof.
  induction fuel as [|fuel IH]; intros id m r Hid Hfail; simpl.
  - rw (proj2 (Z.leb_le _ _)) //. rw /is_u64 in Hid. lia.
  - rw (proj2 (Z.leb_le _ _)); [rw /is_u64 in Hid; lia|]. destruct (Hfail id Hid) as [e ->].
    apply IH; [|done]. rw /is_u64 /add64 /wrap64. apply Z.mod_pos_bound. done.
Qed.

(** A request whose last index is the largest one never ends on a node that
    can read no blob (a node whose KVs are all empty or unmanaged): after it the
    counter wraps around and the range starts again. *)
Theorem range_request_endless `{GE : Geth} `{SN : Snappy} `{!SnappyLaws SN}
    `{RLPLaws GetBlobsByRangePacket} `{RLP BlobsPacket}
    fuel (srv : SyncServer StorageManager) id contract sid origin size d :
  is_u64 origin → (∀ k, is_u64 k → ∃ e, BlobByIndex (srv_storage srv) k = Fail e) →
  EncodeToBytes (mkGetRange id contract sid origin (two64 - 1) size) = Ret d →
  zlen d + 4 ≤ maxGossipSize →
  (HandleGetBlobsByRangeRequest fuel (Ret tt) None None (WriteMsg None (mkMsg 0 d)).1 srv).1
    = Panic OutOfFuel.
Proof.
  intros Ho Hfail Ed Hd.
  destruct (DecodeBytes_EncodeToBytes (mkGetRange id contract sid origin (two64 - 1) size)) as (d' & E' & Dd).
  have E : d' = d by congruence. subst d'. have HM : maxGossipSize = 10485760 by done.
  rw /HandleGetBlobsByRangeRequest /handleGetBlobsByRangeRequest /mbind /st_bind ReadMsg_whole //;
    [simpl; lia|]. cbn [ReturnCode Payload Z.eqb snd]. rw (proj2 (Z.leb_le _ _) Hd) Dd.
  cbn [gr_Origin gr_Limit gr_Bytes]. by rw range_loop_wraps.
Qed.

(** *** A node without shards *)

#[export] Instance range_eq_dec : EqDecision GetBlobsByRangePacket.
Proof. solve_decision. Defined.
#[export] Instance range_countable : Countable GetBlobsByRangePacket.
Proof.
  refine (inj_countable' (λ r, (gr_ID r, gr_Contract r, gr_ShardId r, gr_Origin r, gr_Limit r, gr_Bytes r))
    (λ '(a, b, c, d, e, f), mkGetRange a b c d e f) _). by intros [].
Defined.
#[export] Instance payload_eq_dec : EqDecision BlobPayload.
Proof. solve_decision. Defined.
#[export] Instance payload_countable : Countable BlobPayload.
Proof.
  refine (inj_countable' (λ p, (MinerAddress p, BlobIndex p, BlobCommit p, EncodeType p, EncodedBlob p))
    (λ '(a, b, c, d, e), mkBlobPayload a b c d e) _). by intros [].
Defined.
#[export] Instance packet_eq_dec : EqDecision BlobsPacket.
Proof. solve_decision. Defined.
#[export] Instance packet_countable : Countable BlobsPacket.
Proof.
  refine (inj_countable' (λ p, (pk_ID p, pk_Contract p, pk_ShardId p, pk_Blobs p))
    (λ '(a, b, c, d), mkBlobsPacket a b c d) _). by intros [].
Defined.

#[export] Instance range_rlp : RLP GetBlobsByRangePacket := toy_rlp _.
#[export] Instance packet_rlp : RLP BlobsPacket := toy_rlp _.
#[export] Instance range_rlp_laws : RLPLaws GetBlobsByRangePacket := toy_rlp_laws _.
#[export] Instance packet_rlp_laws : RLPLaws BlobsPacket := toy_rlp_laws _.

Definition ex_bare : StorageManager :=
  mkStorageManager 1 (mkShardManager ∅ (zeros 20) 7 128 1 2 1 2 64 6) 5 2 ∅ 0.

Lemma range_request_endless_witness :
  (HandleGetBlobsByRangeRequest 1000 (Ret tt) None None
     (WriteMsg None (mkMsg 0 (from_ret [] (EncodeToBytes (mkGetRange 1 [] 0 5 (two64 - 1) 500))))).1
     (mkSyncServer ∅ None ex_bare)).1 = Panic OutOfFuel.
Proof.
  apply (range_request_endless 1000 (mkSyncServer ∅ None ex_bare) 1 [] 0 5 500).
  - done.
  - intros k _. eexists. rw /BlobByIndex /= /StorageManager.TryReadEncoded /syncCheck.
    rw /ShardManager.TryReadMeta /ShardManager.TryReadEncoded /with_shard /=. done.
  - done.
  - done.
Defined.
