(* ===== verification/SyncServe.v ===== *)
(** * From one node's storage to another's

    The sync server on the storage manager, the messages between two nodes, and
    the sync client's treatment of what it is sent: an answer of an es-node is
    what the client expects, a stored blob that is served passes the checks of
    the client, and no peer can make the client accept another blob. *)

From S2P Require Import Prelude Extern Bits DataFile ChunkCodec DataShard ShardManager StorageManager.
From S2P Require Import SyncTask SyncClient SyncRun SyncSafety SyncStorageManager SyncWire SyncServer Ethash.

(** ** Reads of a stored KV *)

Lemma stored_encoded s k :
  sm_wf (s_shardManager s) → kv_stored s k →
  ∃ b, ShardManager.TryReadEncoded (s_shardManager s) k (sm_kvSize (s_shardManager s)) = Ret (Some b) ∧
       zlen b = sm_kvSize (s_shardManager s).
Proof.
  intros Hwf (ds & Hk & Hf). destruct (shard_of_spec _ k ds Hwf Hk) as [Hds Hin].
  destruct (serves_exists _ _ Hf) as (j & df & Hs).
  pose proof (serving_file ds Hds k j df Hs) as Hfo. pose proof (ds_bounds ds Hds) as HB.
  destruct (smwf_shards _ Hwf _ _ Hk) as (_ & _ & _ & <- & _).
  rw /ShardManager.TryReadEncoded with_shard_ok // Hk (ReadEncoded_ok ds k j df) //; [lia|].
  set D := seqZ 0 (ds_chunksPerKv ds) ≫= _.
  have Hrows : Forall (λ i, length (df_chunk df (k * ds_chunksPerKv ds + i)) = Z.to_nat (ds_chunkSize ds))
                 (seqZ 0 (ds_chunksPerKv ds)).
  { apply Forall_forall. intros i Hi%elem_of_seqZ.
    have Hl : zlen (df_chunk df (k * ds_chunksPerKv ds + i)) = ds_chunkSize ds.
    { rw -(fo_chunkSize _ _ Hfo). apply zlen_df_chunk; [apply Hfo|].
      apply (has_kv_chunk ds Hds df k i Hfo); [lia|apply Hs]. }
    rw /zlen in Hl. lia. }
  have HlD : length D = Z.to_nat (ds_kvSize ds).
  { rw /D (length_bind_rows _ _ _ Hrows) length_seqZ. pose proof (dwf_kv ds Hds). lia. }
  exists D. rw take_ge; [lia|]. rw slice_ok; [lia|rw /zlen; lia|].
  rw Z.sub_0_r drop_0 take_ge; [lia|]. split; [done|]. rw /zlen HlD. lia.
Qed.

Section serve.
Context `{GE : Geth}.

(** On a node whose shards are complete no request panics, and a payload carries
    the index it was asked for, a 32-byte commit and a whole KV. *)
Lemma BlobByIndex_cases `{!GethLaws GE} s k :
  storage_ok s →
  (∃ e, BlobByIndex s k = Fail e) ∨
  ∃ p, BlobByIndex s k = Ret p ∧ BlobIndex p = k ∧ length (BlobCommit p) = 32%nat ∧
       zlen (EncodedBlob p) = sm_kvSize (s_shardManager s).
Proof using.
  intros Hok. pose proof (ok_sm _ Hok) as Hwf. rw /BlobByIndex /= /StorageManager.KvEntries.
  rw udiv_nz; [pose proof (smwf_entries _ Hwf); lia|]. cbn [mbind gores_bind].
  rw /StorageManager.TryReadEncoded /syncCheck.
  destruct (shard_of (s_shardManager s) k) as [ds|] eqn:Ek; last first.
  { left. rw /ShardManager.TryReadMeta /ShardManager.TryReadEncoded !with_shard_ok // Ek /=. by eexists. }
  have Hst : kv_stored s k.
  { apply (ok_complete _ Hok). rw /shard_of in Ek. by apply elem_of_dom_2 in Ek. }
  destruct (stored_meta s k Hwf Hst) as (m & Em & Hm).
  destruct (stored_encoded s k Hwf Hst) as (b & Eb & Hb).
  rw /TryReadMeta in Em. rw /StorageManager.TryReadMeta Em. cbn [mbind gores_bind].
  destruct (_ || _); [left; by eexists|]. cbn [mbind gores_bind]. rw Eb. cbn [mbind gores_bind default].
  right. eexists. split; [done|]. split_and!; [done| |done].
  simpl. rw BytesToHash_pad; [rw /zlen in Hm; lia|]. rw length_app length_replicate. rw /zlen in Hm. lia.
Qed.

Lemma storage_no_panic `{!GethLaws GE} s k : storage_ok s → no_panic s k.
Proof using.
  intros Hok p. destruct (BlobByIndex_cases s k Hok) as [[e ->]|(q & -> & _)]; done.
Qed.

(** The payloads of a range of KVs. *)
Lemma readable_elem `{!GethLaws GE} s ids p :
  storage_ok s → p ∈ readable s ids →
  BlobByIndex s (BlobIndex p) = Ret p ∧ BlobIndex p ∈ ids ∧ length (BlobCommit p) = 32%nat ∧
  zlen (EncodedBlob p) = sm_kvSize (s_shardManager s).
Proof using.
  intros Hok. rw /readable list_elem_of_omap. intros (i & Hi & Hp).
  destruct (BlobByIndex_cases s i Hok) as [[e E]|(q & E & <- & Hc & Hb)]; rw E in Hp; [done|].
  by injection Hp as <-.
Qed.

Lemma readable_indexes `{!GethLaws GE} s ids :
  storage_ok s → BlobIndex <$> readable s ids `sublist_of` ids.
Proof using.
  intros Hok. induction ids as [|i ids IH]; simpl; [done|].
  destruct (BlobByIndex_cases s i Hok) as [[e ->]|(q & -> & <- & _)]; simpl;
    [by apply sublist_cons|by apply sublist_skip].
Qed.

(** The answer to a request for a range. *)
Definition served (s : StorageManager) (origin limit bytes : Z) : list BlobPayload :=
  take_bytes (max_bytes bytes) 0 (readable s (seqZ origin (limit - origin + 1))).

(** Blobs that name no KV twice, with hashes as commits. *)
Definition fair_blobs (blobs : list BlobPayload) : Prop :=
  NoDup (BlobIndex <$> blobs) ∧ hash_commits blobs.

Lemma served_fair `{!GethLaws GE} s origin limit bytes :
  storage_ok s → fair_blobs (served s origin limit bytes).
Proof using.
  intros Hok. pose proof (take_bytes_prefix (max_bytes bytes) 0
    (readable s (seqZ origin (limit - origin + 1)))) as Hp.
  split.
  - eapply sublist_NoDup; [apply (NoDup_seqZ origin (limit - origin + 1))|].
    transitivity (BlobIndex <$> readable s (seqZ origin (limit - origin + 1)));
      [|by apply readable_indexes].
    destruct Hp as [l ->]. rw fmap_app. apply sublist_inserts_r. done.
  - apply Forall_forall. intros p Hin. eapply elem_of_prefix in Hin; [|exact Hp].
    by apply (readable_elem s) in Hin as (_ & _ & ? & _).
Qed.

Lemma served_loop `{!GethLaws GE} fuel s origin limit bytes :
  storage_ok s → 0 ≤ origin → limit + 1 < two64 → limit - origin < Z.of_nat fuel → 0 < bytes →
  0 ≤ sm_kvSize (s_shardManager s) < two63 →
  range_loop fuel s origin limit (max_bytes bytes) 0 [] = Ret (served s origin limit bytes).
Proof using.
  intros Hok Ho Hl Hf Hb Hkv. rw range_loop_list //.
  rw (list_loop_take _ _ _ _ _ (sm_kvSize (s_shardManager s))) //.
  - rw /max_bytes /maxRequestSize. lia.
  - rw /max_bytes /maxRequestSize. rw /two63 /two64 in Hkv *. lia.
  - apply Forall_forall. intros k _. by apply storage_no_panic.
  - apply Forall_forall. intros p Hp. apply (readable_elem s) in Hp as (_ & _ & _ & Hp); [lia|done].
Qed.

End serve.

(** What the server with state [srv] answers to the bytes of a request. *)
Definition answer_range `{Geth} `{Snappy} `{RLP GetBlobsByRangePacket} `{RLP BlobsPacket}
    (fuel : nat) (srv : SyncServer StorageManager) (request : bytes) : bytes :=
  from_ret [] (HandleGetBlobsByRangeRequest fuel (Ret tt) None None request srv).1.

(** A request for a range of KVs that reaches a node whose shards are complete
    is answered, and the client gets the packet the sync client expects: with the
    fields of the request, blobs of the range only, in ascending order and each
    once, each with the contents of the server's files; the answer exceeds the
    requested size by less than one blob, and a readable KV is left out only when
    that size was reached.  The server counts what it gave away. *)
Theorem RequestBlobsByRange_served `{GE : Geth} `{!GethLaws GE} `{SN : Snappy} `{!SnappyLaws SN}
    `{RLPLaws GetBlobsByRangePacket} `{RLPLaws BlobsPacket}
    fuel (srv : SyncServer StorageManager) id contract sid origin limit size :
  let s := srv_storage srv in
  let blobs := served s origin limit size in
  let request := mkGetRange id contract sid origin limit size in
  let packet := mkBlobsPacket id contract sid blobs in
  storage_ok s → 0 ≤ origin → limit + 1 < two64 → limit - origin < Z.of_nat fuel → 0 < size →
  0 ≤ sm_kvSize (s_shardManager s) < two63 →
  (∀ d, EncodeToBytes request = Ret d → zlen d + 4 ≤ maxGossipSize) →
  (∀ d, EncodeToBytes packet = Ret d → zlen d + 4 ≤ maxGossipSize) →
  RequestBlobsByRange None None None (answer_range fuel srv) id contract sid origin limit size
    = (returnCodeSuccess, Ret packet) ∧
  (∃ d, EncodeToBytes request = Ret d ∧
     (HandleGetBlobsByRangeRequest fuel (Ret tt) None None (WriteMsg None (mkMsg 0 d)).1 srv).2
       = count_provided sid (zlen blobs) srv) ∧
  fair_blobs blobs ∧
  (∀ p, p ∈ blobs → origin ≤ BlobIndex p ≤ limit ∧ BlobByIndex s (BlobIndex p) = Ret p) ∧
  (blob_bytes blobs < max_bytes size + sm_kvSize (s_shardManager s)) ∧
  (max_bytes size ≤ blob_bytes blobs ∨
   ∀ k p, origin ≤ k ≤ limit → BlobByIndex s k = Ret p → p ∈ blobs).
Proof.
  intros s blobs request packet Hok Ho Hl Hf Hs Hkv Hd1 Hd2.
  destruct (DecodeBytes_EncodeToBytes request) as (d & Ed & Dd).
  destruct (DecodeBytes_EncodeToBytes packet) as (e & Ee & De).
  specialize (Hd1 d Ed). specialize (Hd2 e Ee).
  have HM : maxGossipSize = 10485760 by done.
  have HR : ReadMsg None (WriteMsg None (mkMsg 0 d)).1 = (0, Ret d).
  { rw ReadMsg_whole //; [simpl; lia|]. cbn [ReturnCode Payload Z.eqb]. by rw (proj2 (Z.leb_le _ _) Hd1). }
  have HH : HandleGetBlobsByRangeRequest fuel (Ret tt) None None (WriteMsg None (mkMsg 0 d)).1 srv =
    (Ret (WriteMsg None (mkMsg returnCodeSuccess e)).1, count_provided sid (zlen blobs) srv).
  { rw /HandleGetBlobsByRangeRequest /handleGetBlobsByRangeRequest /mbind /st_bind HR. cbn [snd].
    rw Dd. cbn [request gr_Origin gr_Limit gr_Bytes gr_ShardId gr_ID gr_Contract].
    by rw (served_loop fuel s origin limit size) // -/blobs -/packet Ee. }
  have Hin p : p ∈ blobs → p ∈ readable s (seqZ origin (limit - origin + 1)).
  { intros Hp. exact (elem_of_prefix _ _ _ Hp (take_bytes_prefix _ _ _)). }
  split_and!.
  - rw /RequestBlobsByRange /SendRPC Ed. cbn [WriteMsg].
    change (0 :: _) with (WriteMsg None (mkMsg 0 d)).1.
    rw /answer_range HH. cbn [from_ret fst].
    rw ReadMsg_whole //; [simpl; lia|]. cbn [ReturnCode Payload Z.eqb returnCodeSuccess].
    rw (proj2 (Z.leb_le _ _) Hd2). cbn [mbind gores_bind]. by rw De.
  - exists d. by rw HH.
  - by apply served_fair.
  - intros p Hp. apply Hin, (readable_elem s) in Hp as (? & Hi%elem_of_seqZ & _); [|done].
    split; [lia|done].
  - have Hall : Forall (λ p, zlen (EncodedBlob p) ≤ sm_kvSize (s_shardManager s))
                  (readable s (seqZ origin (limit - origin + 1))).
    { apply Forall_forall. intros p Hp. apply (readable_elem s) in Hp as (_ & _ & _ & Hp); [lia|done]. }
    have Hm : 0 < max_bytes size by rw /max_bytes /maxRequestSize; lia.
    rw /blobs /served. destruct (take_bytes_bound (max_bytes size) 0 _ _ (proj1 Hkv) Hm Hall) as [Hb| ->];
      [by rw Z.add_0_l in Hb|simpl; lia].
  - have Hm : 0 < max_bytes size by rw /max_bytes /maxRequestSize; lia.
    destruct (take_bytes_all (max_bytes size) 0 (readable s (seqZ origin (limit - origin + 1))) Hm)
      as [E|E]; [right|left; by rw Z.add_0_l in E].
    intros k p Hk Hp. rw /blobs /served E /readable list_elem_of_omap. exists k.
    rw Hp. split; [apply elem_of_seqZ; lia|done].
Qed.

(** ** Blobs between nodes *)

(** Decoding depends on the geometry of the KVs and on the data hash only. *)
Lemma DecodeOrEncodeKV_ext `{Geth} sm sm' k ds ds' b h h' addr encode et :
  sm_wf sm → sm_wf sm' → shard_of sm k = Some ds → shard_of sm' k = Some ds' →
  sm_chunkSize sm = sm_chunkSize sm' → sm_chunksPerKv sm = sm_chunksPerKv sm' →
  take 24 h = take 24 h' →
  DecodeOrEncodeKV sm k b h addr encode et = DecodeOrEncodeKV sm' k b h' addr encode et.
Proof.
  intros Hwf Hwf' Hk Hk' Ec Ek Eh. rw /DecodeOrEncodeKV !with_shard_ok // Hk Hk'.
  destruct (smwf_shards _ Hwf _ _ Hk) as (_ & _ & _ & _ & _ & ->).
  destruct (smwf_shards _ Hwf' _ _ Hk') as (_ & _ & _ & _ & _ & ->). rw Ec Ek.
  match goal with |- (?X ≫= ?F) ≫= ?G = (?Y ≫= _) ≫= _ =>
    enough (HE : X = Y) by exact (f_equal (λ x, (x ≫= F) ≫= G) HE) end.
  apply foldM_ext. intros [data datalen] i _. by rw (calcEncodeKey_prefix h h').
Qed.

(** KV [k] of the node holds blob [b] with commit [c]. *)
Definition holds_blob `{Geth} (s : StorageManager) (k : Z) (b c : bytes) : Prop :=
  holds s k c ∧ ∃ e, TryEncodeKV (s_shardManager s) k b c = Ret (Some e) ∧
    ShardManager.TryReadEncoded (s_shardManager s) k (sm_kvSize (s_shardManager s)) = Ret (Some e).

(** C20: a blob that one node holds reaches another: the server's payload for the
    KV passes the decoding and the commit check of a sync client on a node with
    the same KV geometry, which then commits exactly this blob for the KV. *)
Theorem served_blob_accepted `{GE : Geth} `{!GethLaws GE} (s t : StorageManager) k b c root ds dt :
  storage_ok s → sm_wf (s_shardManager t) →
  shard_of (s_shardManager s) k = Some ds → shard_of (s_shardManager t) k = Some dt →
  sm_kvSize (s_shardManager s) = blob_size →
  sm_chunkSize (s_shardManager s) = sm_chunkSize (s_shardManager t) →
  sm_chunksPerKv (s_shardManager s) = sm_chunksPerKv (s_shardManager t) →
  zlen b = blob_size → holds_blob s k b c → kv_maskable ds k c →
  length c = 32%nat → take 24 c ≠ zeros 24 →
  GetRoot b = Ret root → take 24 root = take 24 c →
  ∃ p, BlobByIndex s k = Ret p ∧ decodeKV t p = Ret (b, true) ∧ checkBlobCommit b p = Ret true ∧
    take 24 (BlobCommit p) = take 24 c ∧ onResult_check t [p] = Ret [(k, b, BlobCommit p)].
Proof.
  intros Hok Hwt Hk Hkt Ekv Ecs Ecpk Hb [(m & Em & E24 & _) (e & Ee & He)] Hmask Hc Hnz Hroot Er.
  pose proof (ok_sm _ Hok) as Hws.
  have Hst : kv_stored s k.
  { apply (ok_complete _ Hok). rw /shard_of in Hk. by apply elem_of_dom_2 in Hk. }
  destruct (stored_meta s k Hws Hst) as (m' & Em' & Hm). have E : m' = m by congruence. subst m'.
  have Hh : go_copy (zeros 32) m = m.
  { rw go_copy_full // /zeros length_replicate. rw /zlen in Hm. lia. }
  have Hhash : BytesToHash m = m.
  { rw BytesToHash_pad; [rw /zlen in Hm; lia|]. by have -> : (32 - length m = 0)%nat by rw /zlen in Hm; lia. }
  set p := mkBlobPayload (DataShard.Miner ds) k m (DataShard.EncodeType ds) e.
  have Ep : BlobByIndex s k = Ret p.
  { rw /BlobByIndex /= /StorageManager.KvEntries udiv_nz; [pose proof (smwf_entries _ Hws); lia|].
    cbn [mbind gores_bind]. rw /StorageManager.TryReadEncoded /syncCheck.
    rw /TryReadMeta in Em. rw /StorageManager.TryReadMeta Em. cbn [mbind gores_bind]. rw Hh.
    rw !bool_decide_eq_false_2; [intros ->; by rw -E24 in Hnz|intros ->; by rw -E24 in Hnz|].
    cbn [orb mbind gores_bind]. rw He. cbn [mbind gores_bind default fst].
    cbn [id]. rw /GetShardMiner /GetShardEncodeType -/(shard_of (s_shardManager s) k) Hk Hhash. done. }
  destruct Hmask as [HQ Hmask].
  destruct (smwf_shards _ Hws _ _ Hk) as (Hds & _ & _ & Ekv' & Ecs' & Ecpk'). rw Ecs' Ecpk' in Hmask.
  destruct (EncodeKV_ok (s_shardManager s) Hws k ds Hk c (DataShard.Miner ds) (DataShard.EncodeType ds)
    HQ Hmask b) as (e' & He' & Hle & _ & Hdec); [lia|].
  have Epad : padded (sm_kvSize (s_shardManager s)) b = b.
  { rw /padded go_copy_full // /zeros length_replicate. rw /zlen in Hb. rw Ekv. lia. }
  have E : e' = e.
  { move: Ee. rw /TryEncodeKV udiv_nz; [pose proof (smwf_entries _ Hws); lia|].
    rw /= -/(shard_of (s_shardManager s) k) Hk Ekv' -/(padded (sm_kvSize (s_shardManager s)) b) Epad He'.
    congruence. }
  subst e'. specialize (Hdec (sm_kvSize (s_shardManager s))). rw !take_ge in Hdec; [rw /zlen in Hle; lia|rw /zlen in Hb; lia|].
  have Ed : decodeKV t p = Ret (b, true).
  { rw /decodeKV /= /StorageManager.DecodeKV /ShardManager.DecodeKV.
    rw -(DecodeOrEncodeKV_ext (s_shardManager s) (s_shardManager t) k ds dt e c m) //.
    rw /ShardManager.DecodeKV in Hdec. rw Hdec //. rw Ekv. done. }
  have Ek : checkBlobCommit b p = Ret true.
  { rw /checkBlobCommit Hroot. by rw bool_decide_eq_true_2; [rw Er E24|]. }
  exists p. split_and!; [done..|].
  rw /onResult_check foldM_cons Ed. cbn [mbind gores_bind negb]. rw Ek. done.
Qed.

(** *** Two small nodes, and a node with whole blobs *)

Definition ex_srv : SyncServer StorageManager := mkSyncServer ∅ None ex_empty.

Lemma RequestBlobsByRange_served_witness :
  RequestBlobsByRange None None None (answer_range 10 ex_srv) 77 (zeros 20) 1 2 3 500
    = (returnCodeSuccess, Ret (mkBlobsPacket 77 (zeros 20) 1 (served ex_empty 2 3 500))).
Proof.
  destruct (RequestBlobsByRange_served 10 ex_srv 77 (zeros 20) 1 2 3 500) as [H _];
    [exact ex_empty_ok|done..|by intros d [= <-]|by intros d [= <-]|exact H].
Defined.

(** One KV of the size of a blob in one chunk, not encoded. *)
Definition big_blob : bytes := replicate (Z.to_nat blob_size) 7.
Definition big_commit : bytes := toy_hash (take 64 big_blob).
Definition big_df : DataFile :=
  mkDataFile (mkFile (zeros 4096 ++ big_blob ++ PrepareCommit big_commit) false) 0 1 NO_ENCODE
    blob_size blob_size 32 (zeros 20).
Definition big_ds : DataShard := mkDataShard 0 blob_size 1 1 [big_df] blob_size.
Definition big_s : StorageManager :=
  mkStorageManager 1 (mkShardManager {[0 := big_ds]} (zeros 20) 17 blob_size 0 1 0 1 blob_size 17) 5 1 ∅ 0.

Lemma big_ds_wf : ds_wf big_ds.
Proof.
  constructor; [done..|]. apply Forall_singleton. constructor; [|done..]. constructor; by vm_compute.
Qed.

Lemma big_s_ok : storage_ok big_s.
Proof.
  have Hdom sid : sid ∈ dom (sm_shardMap (s_shardManager big_s)) → sid = 0.
  { rw /= dom_singleton_L. set_solver. }
  constructor.
  - constructor; [done|]. intros i ds. rw /= lookup_singleton_Some. intros [<- <-].
    split; [apply big_ds_wf|done].
  - intros k m. by rw /= lookup_empty.
  - intros k Hk%Hdom. have E : k = 0 by rw /StorageManager.KvEntries /= Z.div_1_r in Hk. subst k.
    exists big_ds. split; [done|]. exists big_df. split; [apply list_elem_of_here|by vm_compute].
  - intros sid ->%Hdom. by vm_compute.
  - by vm_compute.
Qed.

(** Comparing large values by computation. *)
Lemma found_eq (r : gores (option bytes)) b :
  match r with Ret (Some e) => bool_decide (e = b) | _ => false end = true → r = Ret (Some b).
Proof. destruct r as [[e|]| |]; [|done..]. by intros ->%bool_decide_eq_true_1. Qed.

Lemma big_s_holds : holds_blob big_s 0 big_blob big_commit.
Proof.
  split.
  - exists (PrepareCommit big_commit). split; [|by vm_compute].
    have H : match TryReadMeta big_s 0 with
             | Ret (Some (m, None)) => bool_decide (m = PrepareCommit big_commit)
             | _ => false end = true by vm_compute.
    destruct (TryReadMeta big_s 0) as [[[m [e|]]|]| |]; [done| |done..].
    by apply bool_decide_eq_true_1 in H as ->.
  - exists big_blob. split; apply found_eq; by vm_compute.
Qed.

Lemma served_blob_accepted_witness : ∃ p,
  BlobByIndex big_s 0 = Ret p ∧ decodeKV big_s p = Ret (big_blob, true) ∧
  checkBlobCommit big_blob p = Ret true.
Proof.
  destruct (served_blob_accepted big_s big_s 0 big_blob big_commit big_commit big_ds big_ds big_s_ok
    (ok_sm _ big_s_ok)) as (p & H1 & H2 & H3 & _); [done..| |exact big_s_holds| |by vm_compute|by vm_compute| |done|].
  - by rw /zlen /big_blob length_replicate.
  - split; [done|]. intros i Hi. split; [done|by intros [=]].
  - by vm_compute.
  - exists p. exact (conj H1 (conj H2 H3)).
Defined.
