(* ===== verification/Tracker.v ===== *)
(** * Trackers of the throughput of peers (ethstorage/p2p/protocol/tracker.go)

    A tracker keeps a running average of the bytes per second that a peer delivers, as a floating-point number.  The size
    of the next request to the peer is computed from it (peer.go), and the sync client asks the fastest idle peer first
    (syncclient.go).  Whatever the peers do and whatever the clock shows, the average is a number that is not negative and
    the size of a request stays in its bounds.

    The multiplications and additions are rounded one by one, as on machines without a fused operation. *)

From stdpp Require Import sorting.
From Stdlib Require Import SpecFloat.
From S2P Require Import Prelude GoFloat SyncTask SyncClient SyncServer.

Open Scope Z_scope.

(** The constants as the compiler rounds them. *)
Definition measurementImpact : float64 := S754_finite false 7205759403792794 (-56).
Definition one_minus_impact : float64 := S754_finite false 8106479329266893 (-53).
Definition capacityOverestimation : float64 := S754_finite false 4548635623644201 (-52).
Definition rttEstimateFactor : float64 := S754_finite false 7205759403792794 (-53).
Definition p2pReadWriteTimeout : Z := 10 * 10 ^ 9.

(** [Duration.Seconds]. *)
Definition Seconds (d : Z) : float64 := fadd (of_Z (Z.quot d (10 ^ 9))) (fdiv (of_Z (Z.rem d (10 ^ 9))) (of_Z (10 ^ 9))).

Definition targetRTT : float64 := fmul (Seconds p2pReadWriteTimeout) rttEstimateFactor.

Record Tracker := mkTracker { capacity : float64 }.

Definition NewTracker (cap : float64) : Tracker := mkTracker cap.

Definition roundCapacity (cap : float64) : float64 := Min (of_Z maxRequestSize) (Ceil cap).

Definition Capacity (t : Tracker) (rtt : float64) : float64 :=
  let throughput := fmul (capacity t) rtt in
  roundCapacity (fadd (of_Z 1) (fmul capacityOverestimation throughput)).

Definition Update (elapsed items : Z) (t : Tracker) : Tracker :=
  let elapsed := if elapsed <=? 0 then 1 else elapsed in
  let measured := fdiv (of_Z items) (fdiv (of_Z elapsed) (of_Z (10 ^ 9))) in
  mkTracker (fadd (fmul one_minus_impact (capacity t)) (fmul measurementImpact measured)).

(** The fields of a peer that decide the size of its requests. *)
Record peer_sizes := mkSizes { minRequestSize : float64; tracker : Tracker }.

Definition NewPeer (initRequestSize minSize : Z) : peer_sizes :=
  mkSizes (of_Z minSize) (NewTracker (fdiv (of_Z initRequestSize) targetRTT)).

Definition getRequestSize (machine : float64 → Z) (p : peer_sizes) : Z :=
  to_uint64 machine (Max (Capacity (tracker p) targetRTT) (minRequestSize p)).

(** The peer after some answers and timeouts: what they delivered and how long they took. *)
Definition updated (us : list (Z * Z)) (p : peer_sizes) : peer_sizes :=
  mkSizes (minRequestSize p) (foldl (λ t u, Update u.1 u.2 t) (tracker p) us).

(** ** The constants *)

Lemma targetRTT_value : targetRTT = of_Z 8.
Proof. by vm_compute. Qed.

Lemma impact_sum : fadd measurementImpact one_minus_impact = of_Z 1.
Proof. by vm_compute. Qed.

(** ** Bounds *)

Lemma of_Z_pos n : 0 < n < two64 → ∃ m e, of_Z n = S754_finite false m e ∧ 0 ≤ Z.log2 (Z.pos m) + e.
Proof.
  intros Hn. pose proof (of_Z_finite n ltac:(lia)) as Hf. pose proof (of_Z_ge n 0 ltac:(lia) ltac:(cbn; lia)) as Hg.
  destruct (of_Z n) as [[]|[]| |[] m e]; try done. by exists m, e.
Qed.

Lemma Update_nonneg elapsed items t : elapsed < two64 → 0 ≤ items < two64 → nonneg (capacity t) → nonneg (capacity (Update elapsed items t)).
Proof.
  intros He Hi Ht. rw /Update. cbn [capacity]. set (d := if elapsed <=? 0 then 1 else elapsed).
  have Hd : 0 < d < two64 by subst d; destruct (Z.leb_spec elapsed 0); rw /two64 in He *; lia.
  have Hg : ge_pow (fdiv (of_Z d) (of_Z (10 ^ 9))) (-40).
  { destruct (of_Z_pos d Hd) as (m & e & -> & Hm). have -> : of_Z (10 ^ 9) = S754_finite false 8388608000000000 (-23) by vm_compute.
    apply fdiv_ge; [done|]. change (Z.log2 8388608000000000) with 52. lia. }
  apply fadd_nonneg; apply fmul_nonneg_r; try done. eapply fdiv_nonneg; [by apply of_Z_finite|exact Hg].
Qed.

Lemma NewPeer_nonneg init min : 0 ≤ init < two64 → nonneg (capacity (tracker (NewPeer init min))).
Proof. intros Hi. cbn. rw targetRTT_value. apply (fdiv_nonneg _ _ 3); [by apply of_Z_finite|by vm_compute]. Qed.

Lemma Capacity_exact t : nonneg (capacity t) → ∃ n, 1 ≤ n ≤ maxRequestSize ∧ exact (Capacity t targetRTT) n.
Proof.
  intros Ht. rw /Capacity /roundCapacity. have HM : exact (of_Z maxRequestSize) maxRequestSize by apply of_Z_exact.
  have Hc : ge_pow (fadd (of_Z 1) (fmul capacityOverestimation (fmul (capacity t) targetRTT))) 0.
  { apply fadd_ge; [done|by vm_compute|]. apply fmul_nonneg_r; [done|]. apply fmul_nonneg_l; [done|]. by rw targetRTT_value. }
  destruct (Ceil_ge _ Hc) as [(n & Hn & Hx)|Hx].
  - exists (Z.min maxRequestSize n). split; [rw /maxRequestSize; lia|]. by apply Min_exact.
  - exists maxRequestSize. split; [by rw /maxRequestSize|]. rw (Min_ge _ _ maxRequestSize 24) //.
Qed.

(** C32: whatever a peer delivers, however long it takes and however often it times out, the size of the next request is at least
    1 and the size of a KV, and at most the maximum or the size of a KV: the conversion from the floating-point estimate
    is always defined. *)
Theorem request_size_bounds machine init min us : 0 ≤ init < two64 → 0 ≤ min < 2 ^ 53 →
  Forall (λ u, u.1 < two63 ∧ 0 ≤ u.2 < two63) us →
  ∃ n, 1 ≤ n ≤ maxRequestSize ∧ getRequestSize machine (updated us (NewPeer init min)) = Z.max n min.
Proof.
  intros Hi Hmin Hus. have Hn : nonneg (capacity (tracker (updated us (NewPeer init min)))).
  { cbn [updated tracker]. induction us as [|u us IH] using rev_ind; [by apply NewPeer_nonneg|].
    apply Forall_app in Hus as [Hus Hu]. rw Forall_singleton in Hu. rw foldl_snoc.
    apply Update_nonneg; [rw /two63 /two64 in Hu *; lia..|by apply IH]. }
  destruct (Capacity_exact _ Hn) as (n & Hn1 & Hx). exists n. split; [done|]. rw /getRequestSize.
  apply to_uint64_exact; [|rw /two64 /maxRequestSize in Hn1 *; lia]. apply Max_exact; [done|]. by apply of_Z_exact.
Qed.

(** The server's [uint64(math.Min(maxRequestSize, float64(req.Bytes)))] is the minimum of the integers, for every request. *)
Theorem max_bytes_float machine bytes : 0 ≤ bytes < two64 →
  to_uint64 machine (Min (of_Z maxRequestSize) (of_Z bytes)) = max_bytes bytes.
Proof.
  intros Hb. have HM : exact (of_Z maxRequestSize) maxRequestSize by apply of_Z_exact. rw /max_bytes.
  destruct (decide (bytes < 2 ^ 53)) as [H|H].
  - apply to_uint64_exact; [|rw /two64 /maxRequestSize in Hb *; lia]. apply Min_exact; [done|]. apply of_Z_exact; lia.
  - rw (Min_ge _ _ maxRequestSize 53) //; [apply of_Z_ge; lia|]. rw Z.min_l; [rw /maxRequestSize; lia|]. apply to_uint64_exact; [done|rw /maxRequestSize /two64; lia].
Qed.

(** A timeout counts as an empty delivery: the average falls by a tenth, and not to 0 as the comment of [Update] says. *)
Lemma timeout_keeps_most : capacity (Update 0 0 (NewTracker (of_Z 10))) = of_Z 9.
Proof. by vm_compute. Qed.

(** ** The fastest idle peer *)

#[local] Ltac case_compare := match goal with |- context [?a ?= ?b] => destruct (Z.compare_spec a b) end.

(** [sort.Reverse] of [capacitySort.Less]: the capacities do not increase. *)
Definition not_slower (caps : Z → float64) (a b : Z) : Prop := fltb (caps a) (caps b) = false.

Lemma compare_scaled_at e m1 e1 m2 e2 : e ≤ Z.min e1 e2 →
  compare_scaled m1 e1 m2 e2 = (m1 * 2 ^ (e1 - e) ?= m2 * 2 ^ (e2 - e)).
Proof.
  intros He. rw /compare_scaled. set (e0 := Z.min _ _). have Hp : 0 < 2 ^ (e0 - e) by apply Z.pow_pos_nonneg; lia.
  rw (Zmult_compare_compat_r _ _ (2 ^ (e0 - e))); [lia|]. rw -!Z.mul_assoc -!Z.pow_add_r; try lia. do 3 f_equal; lia.
Qed.

Lemma fltb_nonneg x y : nonneg x → nonneg y → fltb x y =
  match x, y with
  | S754_infinity _, _ => false
  | _, S754_infinity _ => true
  | _, _ => match compare_scaled (mantissa x).1 (mantissa x).2 (mantissa y).1 (mantissa y).2 with Lt => true | _ => false end
  end.
Proof. intros [Hx1 Hx2] [Hy1 Hy2]. by destruct x as [[]|[]| |[]], y as [[]|[]| |[]]. Qed.

Lemma not_slower_trans x y z : nonneg x → nonneg y → nonneg z → fltb x y = false → fltb y z = false → fltb x z = false.
Proof.
  intros Hx Hy Hz. rw !fltb_nonneg //. set (e := Z.min (mantissa x).2 (Z.min (mantissa y).2 (mantissa z).2)).
  rw !(compare_scaled_at e); try lia. destruct x, y, z; try done; cbn [mantissa fst snd]; repeat case_compare; try done; lia.
Qed.

Lemma not_slower_total x y : nonneg x → nonneg y → fltb x y = false ∨ fltb y x = false.
Proof.
  intros Hx Hy. rw !fltb_nonneg //. set (e := Z.min (mantissa x).2 (mantissa y).2).
  rw !(compare_scaled_at e); try lia. destruct x, y; try (by left); try (by right); cbn [mantissa fst snd];
    repeat case_compare; try (by left); try (by right); lia.
Qed.

Section fastest.
Context {S : Type}.

(** The peers that [getIdlePeerForTask] looks at: idle, not known to lack the data, and with the shard of the task. *)
Definition eligible (t : task) (c : SyncClient S) (id : Z) : Prop :=
  id ∈ c_idlerPeers c ∧ ¬ id ∈ t_statelessPeers t ∧ ∃ p, c_peers c !! id = Some p ∧ IsShardExist p (t_Contract t) (t_ShardId t) = true.

Lemma StronglySorted_lookup {A} (R : A → A → Prop) (l : list A) (i j : nat) x y :
  StronglySorted R l → l !! i = Some x → l !! j = Some y → (i < j)%nat → R x y.
Proof.
  intros Hs. revert i j. induction Hs as [|z l Hs IH Hz]; intros i j Hx Hy Hij; [by rw lookup_nil in Hx|].
  destruct j as [|j]; [lia|]. destruct i as [|i]; cbn in Hx, Hy; [injection Hx as ->; exact (Forall_lookup_1 _ _ _ _ Hz Hy)|].
  apply (IH i j); [done..|lia].
Qed.

(** The choice of [getIdlePeerForTask]: with the idle peers ordered by falling capacity it returns one that no other is
    faster than, and fails only when there is none. *)
Theorem getIdlePeerForTask_fastest (caps : Z → float64) prio t (c : SyncClient S) :
  (∀ id, nonneg (caps id)) → prio ≡ₚ elements (c_idlerPeers c) → StronglySorted (not_slower caps) prio →
  match getIdlePeerForTask prio t c with
  | Some p => ∃ id, eligible t c id ∧ c_peers c !! id = Some p ∧ ∀ id', eligible t c id' → not_slower caps id id'
  | None => ∀ id, ¬ eligible t c id
  end.
Proof.
  intros Hcaps Hp Hs. have Hin id : id ∈ prio ↔ id ∈ c_idlerPeers c by rw Hp elem_of_elements.
  have He id : eligible t c id ↔ id ∈ c_idlerPeers c ∧ ¬ id ∈ t_statelessPeers t ∧
      Is_true (match c_peers c !! id with Some p => IsShardExist p (t_Contract t) (t_ShardId t) | None => false end).
  { rw /eligible. destruct (c_peers c !! id) as [p|]; [|naive_solver]. rw Is_true_true. naive_solver. }
  rw /getIdlePeerForTask. destruct (list_find _ prio) as [[i id]|] eqn:E; cbn [mbind option_bind snd].
  - apply list_find_Some in E as (Hi & Hid & Hfirst). apply He in Hid as Hel. destruct Hel as (_ & _ & p & Hl & _). rw Hl.
    exists id. split; [by apply He|]. split; [done|]. intros id' He'.
    have Hid' : id' ∈ prio by apply Hin, He'. apply list_elem_of_lookup_1 in Hid' as [j Hj].
    destruct (lt_eq_lt_dec i j) as [[Hij|<-]|Hij].
    + by apply (StronglySorted_lookup _ _ _ _ _ _ Hs Hi Hj).
    + rw Hi in Hj. injection Hj as <-. rw /not_slower. by destruct (not_slower_total (caps id) (caps id)).
    + by destruct (Hfirst j id' Hj Hij); apply He.
  - apply list_find_None in E. intros id Hid. rw Forall_forall in E. destruct (E id); [by apply Hin, Hid|by apply He].

Qed.
End fastest.

(** There is always such an order. *)
Lemma order_exists (caps : Z → float64) (ids : list Z) : (∀ id, nonneg (caps id)) →
  ∃ prio, prio ≡ₚ ids ∧ StronglySorted (not_slower caps) prio.
Proof.
  intros Hc. have HT : Transitive (not_slower caps) by intros x y z; apply not_slower_trans.
  have HTo : Total (not_slower caps) by intros x y; apply not_slower_total.
  have Hdec : RelDecision (not_slower caps) by intros x y; rw /not_slower; apply _.
  exists (merge_sort (not_slower caps) ids). split; [apply merge_sort_Permutation|]. apply Sorted_StronglySorted; [done|]. by apply Sorted_merge_sort.
Qed.

(** Two deliveries of eight blobs in two seconds and a timeout. *)
Lemma request_size_bounds_witness : ∃ n, 1 ≤ n ≤ maxRequestSize ∧
  getRequestSize (λ _, 0) (updated [(2 * 10 ^ 9, 8 * 131072); (2 * 10 ^ 9, 8 * 131072); (0, 0)] (NewPeer 131072 131072)) = Z.max n 131072.
Proof. apply request_size_bounds; [done|done|]. repeat constructor; done. Defined.
