(* ===== verification/BlobSources.v ===== *)
(** * Sources of blobs (ethstorage/eth/beacon_client.go, da_client.go, and
    ethstorage/blobs/blob.go)

    The beacon node and the DA server answer over HTTP; what they answer is an
    argument, with the number of the request, and may be anything.  The clients
    file a blob under the versioned hash they compute from its bytes, so a blob
    found under a hash has that hash. *)

From S2P Require Import Prelude Extern ChunkCodec.

(** ** Hexadecimal strings

    [hex.DecodeString] on the ASCII codes of a string. *)

Definition fromHexChar (c : Z) : option Z :=
  if (48 <=? c) && (c <=? 57) then Some (c - 48)
  else if (97 <=? c) && (c <=? 102) then Some (c - 97 + 10)
  else if (65 <=? c) && (c <=? 70) then Some (c - 65 + 10)
  else None.

Fixpoint DecodeString (s : list Z) : gores bytes :=
  match s with
  | [] => mret []
  | [_] => Fail (ErrMsg "encoding/hex: odd length hex string")
  | a :: b :: s =>
      match fromHexChar a, fromHexChar b with
      | Some x, Some y => rest ← DecodeString s; mret (x * 16 + y :: rest)
      | _, _ => Fail (ErrMsg "encoding/hex: invalid byte")
      end
  end.

Definition toHexChar (x : Z) : Z := if x <? 10 then 48 + x else 87 + x.

(** [hex.EncodeToString]. *)
Definition EncodeToString (b : bytes) : list Z :=
  b ≫= λ x, [toHexChar (x / 16); toHexChar (x mod 16)].

Lemma fromHexChar_to x : 0 ≤ x < 16 → fromHexChar (toHexChar x) = Some x.
Proof.
  intros Hx. rw /toHexChar /fromHexChar. case: Z.ltb_spec => H.
  - rw (proj2 (Z.leb_le _ _)) //=; [lia|]. rw (proj2 (Z.leb_le _ _)); [lia|]. f_equal. lia.
  - rw (proj2 (Z.leb_gt (87 + x) 57)); [lia|]. rw andb_false_r.
    rw (proj2 (Z.leb_le 97 _)); [lia|]. rw (proj2 (Z.leb_le _ 102)); [lia|]. simpl. f_equal. lia.
Qed.

Lemma DecodeString_EncodeToString b : is_bytes b → DecodeString (EncodeToString b) = Ret b.
Proof.
  induction 1 as [|x b Hx _ IH]; [done|]. simpl in Hx.
  change (EncodeToString (x :: b)) with (toHexChar (x / 16) :: toHexChar (x mod 16) :: EncodeToString b).
  cbn [DecodeString]. have Hd := Z.div_mod x 16 ltac:(lia). have Hm := Z.mod_pos_bound x 16 ltac:(lia).
  rw !fromHexChar_to; [lia|lia|]. rw IH. simpl. do 2 f_equal. lia.
Qed.

(** ** Clients *)

Record Blob := mkBlob { VersionedHash : bytes; Data : bytes }.

Record BeaconBlobs := mkBeaconBlobs { bs_Data : list (list Z); bs_Message : list Z; bs_Code : Z }.

(** The answers of the two servers: [BeaconGet req slot hashes] and
    [DAGet req hash]; an error stands for a failed request or a body that does
    not decode. *)
Class BlobServers := {
  BeaconGet : nat → Z → list bytes → gores BeaconBlobs;
  DAGet : nat → bytes → gores bytes }.

Record BeaconClient := mkBeaconClient { genesisSlotTime : Z; slotTime : Z }.

Section clients.
Context `{Geth} `{BlobServers}.

(** The blob is copied to an array of the size of a blob. *)
Definition BlobToVersionedHash (blobBytes : bytes) : gores bytes :=
  BlobVersionedHash (go_copy (zeros blob_size) blobBytes).

Definition Timestamp2Slot (c : BeaconClient) (time : Z) : gores Z :=
  udiv (sub64 time (genesisSlotTime c)) (slotTime c).

Definition file_blob (res : gmap bytes Blob) (beaconBlob : list Z) : gores (gmap bytes Blob) :=
  hex ← slice beaconBlob 2 (zlen beaconBlob);
  asciiBytes ← DecodeString hex;
  hash ← BlobToVersionedHash asciiBytes;
  mret (<[hash := mkBlob hash asciiBytes]> res).

Definition BeaconClient_DownloadBlobs (c : BeaconClient) (req : nat) (timestamp : Z)
    (hashes : list bytes) : gores (gmap bytes Blob) :=
  slot ← Timestamp2Slot c timestamp;
  blobsResp ← BeaconGet req slot hashes;
  if bool_decide (bs_Data blobsResp = []) then Fail (ErrMsg "no blobs found")
  else foldM file_blob ∅ (bs_Data blobsResp).

Definition DownloadBlob (req : nat) (hash : bytes) : gores Blob :=
  data ← DAGet req hash;
  h ← BlobToVersionedHash data;
  if bool_decide (h = hash) then mret (mkBlob hash data) else Fail (ErrMsg "invalid blob").

Definition DAClient_DownloadBlobs (req : nat) (hashes : list bytes) : gores (gmap bytes Blob) :=
  foldM (λ res hash, blob ← DownloadBlob req hash; mret (<[hash := blob]> res)) ∅ hashes.

(** A blob is filed under its versioned hash. *)
Definition filed (res : gmap bytes Blob) : Prop :=
  ∀ h b, res !! h = Some b → VersionedHash b = h ∧ BlobToVersionedHash (Data b) = Ret h.

Lemma filed_insert res h d :
  filed res → BlobToVersionedHash d = Ret h → filed (<[h := mkBlob h d]> res).
Proof.
  intros Hf Hd h' b. destruct (decide (h = h')) as [<- |].
  - rw lookup_insert_eq. by intros [= <-].
  - rw lookup_insert_ne //. apply Hf.
Qed.

Lemma file_blob_filed m s m' : filed m → file_blob m s = Ret m' → filed m'.
Proof.
  intros Hm. rw /file_blob. destruct (slice s 2 (zlen s)) as [hex| |]; [|done..]. simpl.
  destruct (DecodeString hex) as [d| |]; [|done..]. simpl.
  destruct (BlobToVersionedHash d) as [h| |] eqn:E; [|done..]. intros [= <-]. by apply filed_insert.
Qed.

(** A property of the accumulator that every round keeps holds at the end. *)
Lemma foldM_inv {A B} (P : B → Prop) (f : B → A → gores B) l : ∀ b b',
  (∀ b a b', P b → f b a = Ret b' → P b') → P b → foldM f b l = Ret b' → P b'.
Proof.
  induction l as [|a l IH]; intros b b' Hf Hb; [by intros [= <-]|]. rw foldM_cons.
  destruct (f b a) as [b1| |] eqn:E; [|done..]. simpl. apply IH; [done|]. by apply (Hf b a).
Qed.

Lemma filed_empty : filed ∅.
Proof. intros h b. by rw lookup_empty. Qed.

Lemma BeaconClient_filed c req ts hashes res :
  BeaconClient_DownloadBlobs c req ts hashes = Ret res → filed res.
Proof.
  rw /BeaconClient_DownloadBlobs. destruct (Timestamp2Slot c ts) as [slot| |]; [|done..]. simpl.
  destruct (BeaconGet req slot hashes) as [resp| |]; [|done..]. simpl. case_bool_decide; [done|].
  apply foldM_inv, filed_empty. exact file_blob_filed.
Qed.

Lemma DAClient_filed req hashes res : DAClient_DownloadBlobs req hashes = Ret res → filed res.
Proof.
  apply foldM_inv, filed_empty. intros m h m' Hm. rw /DownloadBlob.
  destruct (DAGet req h) as [d| |]; [|done..]. simpl.
  destruct (BlobToVersionedHash d) as [h'| |] eqn:E; [|done..]. simpl.
  case_bool_decide; [|done]. intros [= <-]. subst h'. by apply filed_insert.
Qed.

End clients.
