(* ===== verification/BlobCache.v ===== *)
(** * Caches of blobs that are not finalized (ethstorage/downloader)

    The interface [BlobCache] of downloader.go, the memory cache of
    blob_mem_cache.go and the disk cache of blob_disk_cache.go.  The disk cache
    keeps its data in a billy database, a library: a parameter with the laws of
    its documentation. *)

From S2P Require Import Prelude Extern DataFile ChunkCodec.

(** A blob of a block; [b_data = None] is a nil slice and [b_dataId] the key in
    the billy database. *)
Record blob := mkCBlob {
  b_kvIndex : Z; b_kvSize : Z; b_hash : bytes; b_data : option bytes; b_dataId : Z
}.

Record blockBlobs := mkBlockBlobs {
  bb_timestamp : Z; bb_number : Z; bb_blobs : list blob
}.

(** [b.kvIndex.Uint64()]. *)
Definition kv_u64 (b : blob) : Z := wrap64 (b_kvIndex b).

(** The blobs of [order], the order in which a map of blocks is visited. *)
Definition in_order (m : gmap Z blockBlobs) (order : list Z) : list blob :=
  n ← order; match m !! n with Some bb => bb_blobs bb | None => [] end.

Lemma in_order_elem m order b : b ∈ in_order m order → ∃ n bb, m !! n = Some bb ∧ b ∈ bb_blobs bb.
Proof.
  intros (n & Hb & _)%list_elem_of_bind. destruct (m !! n) as [bb|] eqn:E; [|by apply not_elem_of_nil in Hb].
  by exists n, bb.
Qed.

Definition same_hash (a b : bytes) : bool := bool_decide (take 24 a = take 24 b).

Lemma same_hash_true a b : Is_true (same_hash a b) → take 24 a = take 24 b.
Proof. apply bool_decide_unpack. Qed.

(** ** The interface *)

Class BlobCache (C : Type) := {
  SetBlockBlobs : blockBlobs → ST C unit;
  Blobs : C → Z → option (list blob);
  GetKeyValueByIndex : C → list Z → Z → bytes → option bytes;
  GetSampleData : C → list Z → Z → Z → gores (option bytes);
  Cleanup : Z → C → C }.

Definition has_data (b : blob) : Prop := is_Some (b_data b).
#[export] Instance has_data_dec b : Decision (has_data b).
Proof. rw /has_data. apply _. Defined.

Definition plain (b : blob) : blob := mkCBlob (b_kvIndex b) (b_kvSize b) (b_hash b) (b_data b) 0.

(** The blobs of a block as the cache gives them, without their keys. *)
Definition cached `{BlobCache C} (c : C) (n : Z) : option (list blob) :=
  option_map (map plain) (Blobs c n).

(** What the downloader and the readers rely on; [cache_ok] is the invariant of
    the cache.  A cache may leave out blobs without data. *)
Class BlobCacheLaws (C : Type) `{BlobCache C} := {
  cache_ok : C → Prop;
  SetBlockBlobs_law bb c r c' :
    cache_ok c → Blobs c (bb_number bb) = None → SetBlockBlobs bb c = (r, c') →
    cache_ok c' ∧
    match r with
    | Ret _ => ∃ keep, (keep = bb_blobs bb ∨ keep = filter has_data (bb_blobs bb)) ∧
        ∀ n, cached c' n = if decide (n = bb_number bb) then Some (map plain keep) else cached c n
    | Fail _ => ∀ n, cached c' n = cached c n
    | Panic _ => False
    end;
  Cleanup_law finalized c :
    cache_ok c → cache_ok (Cleanup finalized c) ∧
    ∀ n, cached (Cleanup finalized c) n = if decide (n ≤ finalized) then None else cached c n;
  GetKeyValueByIndex_law c order idx hash d :
    cache_ok c → GetKeyValueByIndex c order idx hash = Some d →
    ∃ n l b, cached c n = Some l ∧ b ∈ l ∧ kv_u64 b = idx ∧ take 24 (b_hash b) = take 24 hash ∧
      b_data b = Some d }.

Lemma filter_has_data l : Forall has_data l → filter has_data l = l.
Proof. induction 1 as [|b l Hb _ IH]; [done|]. by rw filter_cons decide_True // IH. Qed.

Lemma SetBlockBlobs_full `{BlobCacheLaws C} bb (c : C) r c' :
  cache_ok c → Forall has_data (bb_blobs bb) → Blobs c (bb_number bb) = None →
  SetBlockBlobs bb c = (r, c') →
  cache_ok c' ∧ (∀ p, r ≠ Panic p) ∧ ∀ n, cached c' n =
    match r with
    | Ret _ => if decide (n = bb_number bb) then Some (map plain (bb_blobs bb)) else cached c n
    | _ => cached c n
    end.
Proof.
  intros Hok Hd Hn [Hok' HL]%SetBlockBlobs_law; [|done..]. split; [done|].
  destruct r as [u|e|p]; [|by split|done]. split; [done|].
  destruct HL as (keep & Hk & HL). have Ek : keep = bb_blobs bb.
  { destruct Hk as [-> | ->]; [done|by apply filter_has_data]. }
  intros n. by rw HL Ek.
Qed.

(** ** The memory cache *)

Definition BlobMemCache := gmap Z blockBlobs.

Definition NewBlobMemCache : BlobMemCache := ∅.

Definition mem_SetBlockBlobs (block : blockBlobs) : ST BlobMemCache unit := λ c,
  (Ret tt, <[bb_number block := block]> c).

Definition mem_Blobs (c : BlobMemCache) (number : Z) : option (list blob) :=
  bb_blobs <$> c !! number.

Definition mem_GetKeyValueByIndex (c : BlobMemCache) (order : list Z) (idx : Z) (hash : bytes)
    : option bytes :=
  match list_find (λ b, kv_u64 b = idx ∧ Is_true (same_hash (b_hash b) hash)) (in_order c order) with
  | Some (_, b) => b_data b
  | None => None
  end.

Definition SampleSizeBits : Z := 5.

Definition mem_GetSampleData (c : BlobMemCache) (order : list Z) (idx sampleIdxInKv : Z)
    : gores (option bytes) :=
  match list_find (λ b, kv_u64 b = idx) (in_order c order) with
  | Some (_, b) =>
      let sampleSize := Z.shiftl 1 SampleSizeBits in
      let sampleIdxByte := shl64 sampleIdxInKv SampleSizeBits in
      sample ← slice (default [] (b_data b)) sampleIdxByte (add64 sampleIdxByte sampleSize);
      mret (Some sample)
  | None => mret None
  end.

Definition mem_Cleanup (finalized : Z) (c : BlobMemCache) : BlobMemCache :=
  filter (λ '(_, block), ¬ bb_number block ≤ finalized) c.

#[export] Instance mem_cache : BlobCache BlobMemCache := {
  SetBlockBlobs := mem_SetBlockBlobs;
  Blobs := mem_Blobs;
  GetKeyValueByIndex := mem_GetKeyValueByIndex;
  GetSampleData := mem_GetSampleData;
  Cleanup := mem_Cleanup }.

Definition mem_ok (c : BlobMemCache) : Prop := ∀ n bb, c !! n = Some bb → bb_number bb = n.

#[export] Instance mem_cache_laws : BlobCacheLaws BlobMemCache.
Proof.
  refine {| cache_ok := mem_ok |}.
  - intros bb c r c' Hok _ [= <- <-]. split; [|exists (bb_blobs bb); split; [by left|]].
    + intros n b. destruct (decide (bb_number bb = n)) as [<- |].
      * rw lookup_insert_eq. by intros [= <-].
      * rw lookup_insert_ne //. apply Hok.
    + intros n. rw /cached /= /mem_Blobs. case_decide as E.
      * subst n. by rw lookup_insert_eq.
      * by rw lookup_insert_ne; [congruence|].
  - intros finalized c Hok. split.
    + intros n bb. rw /= /mem_Cleanup map_lookup_filter_Some. intros [? _]. by apply Hok.
    + intros n. rw /cached /= /mem_Blobs /mem_Cleanup. case_decide as E.
      * have -> : filter (λ '(_, block), ¬ bb_number block ≤ finalized) c !! n = None; [|done].
        apply map_lookup_filter_None. right. intros bb Hbb. rw (Hok _ _ Hbb). naive_solver.
      * destruct (c !! n) as [bb|] eqn:En; simpl.
        -- have -> : filter (λ '(_, block), ¬ bb_number block ≤ finalized) c !! n = Some bb; [|done].
           apply map_lookup_filter_Some. split; [done|]. by rw (Hok _ _ En).
        -- have -> : filter (λ '(_, block), ¬ bb_number block ≤ finalized) c !! n = None; [|done].
           apply map_lookup_filter_None. by left.
  - intros c order idx hash d _. rw /= /mem_GetKeyValueByIndex.
    destruct (list_find _ _) as [[i b]|] eqn:E; [|done]. intros Hd.
    apply list_find_Some in E as (Hi & [Hk Hh] & _).
    apply list_elem_of_lookup_2, in_order_elem in Hi as (n & bb & Hn & Hb).
    exists n, (map plain (bb_blobs bb)), (plain b). rw /cached /= /mem_Blobs Hn.
    split_and!; [done|by apply list_elem_of_fmap_2|done|by apply same_hash_true|done].
Defined.

(** ** The disk cache *)

(** [billy.Database]: [Put] gives the key of the stored data, [GetSample] a part
    of it. *)
Class Billy (B : Type) := {
  billy_Put : bytes → ST B Z;
  billy_Get : B → Z → gores bytes;
  billy_Delete : Z → ST B unit;
  billy_GetSample : B → Z → Z → Z → gores bytes }.

(** "Put stores the data to the underlying database, and returns the key needed
    for later accessing the data"; a key of live data is not given again. *)
Class BillyLaws (B : Type) `{Billy B} := {
  live : B → gmap Z bytes;
  billy_Get_live s k d : live s !! k = Some d → billy_Get s k = Ret d;
  billy_Put_live d s r s' : billy_Put d s = (r, s') →
    match r with
    | Ret k => live s !! k = None ∧ live s' = <[k := d]> (live s)
    | Fail _ => live s' = live s
    | Panic _ => False
    end;
  billy_Delete_live k s r s' : billy_Delete k s = (r, s') →
    match r with
    | Ret _ => live s' = delete k (live s)
    | Fail _ => live s' = live s
    | Panic _ => False
    end;
  billy_GetSample_live s k d off n :
    live s !! k = Some d → 0 ≤ off → 0 ≤ n → off + n ≤ zlen d →
    billy_GetSample s k off n = Ret (take (Z.to_nat n) (drop (Z.to_nat off) d)) }.

Record BlobDiskCache (B : Type) := mkDiskCache {
  dc_store : B;
  dc_blockLookup : gmap Z blockBlobs;
  dc_kvIndexLookup : gmap Z Z
}.
Arguments mkDiskCache {B}. Arguments dc_store {B}.
Arguments dc_blockLookup {B}. Arguments dc_kvIndexLookup {B}.

Section disk.
Context {B : Type} {BI : Billy B}.
Implicit Types c : BlobDiskCache B.

Definition set_store c (s : B) : BlobDiskCache B :=
  mkDiskCache s (dc_blockLookup c) (dc_kvIndexLookup c).

Definition NewBlobDiskCache (s : B) : BlobDiskCache B := mkDiskCache s ∅ ∅.

(** A failed deletion is only logged. *)
Definition disk_delete (blobs : list blob) c : BlobDiskCache B :=
  foldl (λ c b, set_store c (billy_Delete (b_dataId b) (dc_store c)).2) c blobs.

Fixpoint disk_put (blobs : list blob) : ST (BlobDiskCache B) (list blob) := λ c,
  match blobs with
  | [] => (Ret [], c)
  | b :: blobs =>
      match b_data b with
      | None => disk_put blobs c
      | Some data =>
          match billy_Put data (dc_store c) with
          | (Ret id, s) =>
              match disk_put blobs (mkDiskCache s (dc_blockLookup c)
                      (<[kv_u64 b := id]> (dc_kvIndexLookup c))) with
              | (Ret blbs, c) =>
                  (Ret (mkCBlob (b_kvIndex b) (b_kvSize b) (b_hash b) None id :: blbs), c)
              | (Fail e, c) => (Fail e, c)
              | (Panic p, c) => (Panic p, c)
              end
          | (Fail e, s) => (Fail e, set_store c s)
          | (Panic p, s) => (Panic p, set_store c s)
          end
      end
  end.

Definition disk_SetBlockBlobs (block : blockBlobs) : ST (BlobDiskCache B) unit := λ c,
  let c := match dc_blockLookup c !! bb_number block with
           | Some blockOld => disk_delete (bb_blobs blockOld) c
           | None => c
           end in
  match disk_put (bb_blobs block) c with
  | (Ret blbs, c) =>
      (Ret tt, mkDiskCache (dc_store c)
         (<[bb_number block := mkBlockBlobs (bb_timestamp block) (bb_number block) blbs]>
            (dc_blockLookup c)) (dc_kvIndexLookup c))
  | (Fail e, c) => (Fail e, c)
  | (Panic p, c) => (Panic p, c)
  end.

(** [None] is nil, also when a blob cannot be read. *)
Definition disk_Blobs c (number : Z) : option (list blob) :=
  match dc_blockLookup c !! number with
  | None => None
  | Some bb =>
      foldr (λ blb res,
          match billy_Get (dc_store c) (b_dataId blb), res with
          | Ret data, Some res =>
              Some (mkCBlob (b_kvIndex blb) (b_kvSize blb) (b_hash blb) (Some data) 0 :: res)
          | _, _ => None
          end) (Some []) (bb_blobs bb)
  end.

Definition disk_GetKeyValueByIndex c (order : list Z) (idx : Z) (hash : bytes) : option bytes :=
  match list_find (λ b, kv_u64 b = idx ∧ Is_true (same_hash (b_hash b) hash))
          (in_order (dc_blockLookup c) order) with
  | Some (_, b) => match billy_Get (dc_store c) (b_dataId b) with Ret d => Some d | _ => None end
  | None => None
  end.

Definition disk_GetSampleData c (order : list Z) (idx sampleIdx : Z) : gores (option bytes) :=
  match dc_kvIndexLookup c !! idx with
  | None => mret None
  | Some id =>
      let off := shl64 sampleIdx SampleSizeBits in
      match billy_GetSample (dc_store c) id off (Z.shiftl 1 SampleSizeBits) with
      | Ret data => mret (Some data)
      | Fail _ => mret None
      | Panic p => Panic p
      end
  end.

Definition clean_block c (block : blockBlobs) : BlobDiskCache B :=
  foldl (λ c b, mkDiskCache (billy_Delete (b_dataId b) (dc_store c)).2 (dc_blockLookup c)
                  (delete (kv_u64 b) (dc_kvIndexLookup c))) c (bb_blobs block).

Definition disk_Cleanup (finalized : Z) c : BlobDiskCache B :=
  foldl (λ c '(number, block),
      if number <=? finalized
      then clean_block (mkDiskCache (dc_store c) (delete number (dc_blockLookup c))
                          (dc_kvIndexLookup c)) block
      else c) c (map_to_list (dc_blockLookup c)).

#[export] Instance disk_cache : BlobCache (BlobDiskCache B) := {
  SetBlockBlobs := disk_SetBlockBlobs;
  Blobs := disk_Blobs;
  GetKeyValueByIndex := disk_GetKeyValueByIndex;
  GetSampleData := disk_GetSampleData;
  Cleanup := disk_Cleanup }.

(** *** The disk cache keeps the promises of the interface *)

Context {BL : BillyLaws B}.

(** A blob of the lookup table with its data. *)
Definition resolve (m : gmap Z bytes) (b : blob) : blob :=
  mkCBlob (b_kvIndex b) (b_kvSize b) (b_hash b) (m !! b_dataId b) 0.

(** Every blob of the table has its data in the database, and no two blocks
    share a key. *)
Record disk_ok c : Prop := {
  do_live n bb b : dc_blockLookup c !! n = Some bb → b ∈ bb_blobs bb →
    is_Some (live (dc_store c) !! b_dataId b);
  do_apart n n' bb bb' b b' :
    dc_blockLookup c !! n = Some bb → dc_blockLookup c !! n' = Some bb' → n ≠ n' →
    b ∈ bb_blobs bb → b' ∈ bb_blobs bb' → b_dataId b ≠ b_dataId b'
}.

Lemma disk_Blobs_ok c n :
  disk_ok c →
  disk_Blobs c n =
    option_map (λ bb, map (resolve (live (dc_store c))) (bb_blobs bb)) (dc_blockLookup c !! n).
Proof using BL.
  intros Hok. rw /disk_Blobs. destruct (dc_blockLookup c !! n) as [bb|] eqn:En; [|done]. simpl.
  have : ∀ b, b ∈ bb_blobs bb → is_Some (live (dc_store c) !! b_dataId b) := λ b, do_live c Hok n bb b En.
  induction (bb_blobs bb) as [|b l IH]; intros Hl; [done|]. simpl.
  destruct (Hl b (list_elem_of_here _ _)) as [d Hd].
  rw (billy_Get_live _ _ _ Hd) IH; [intros; by apply Hl, list_elem_of_further|].
  by rw /resolve Hd.
Qed.

Lemma cached_disk c n :
  disk_ok c →
  cached c n =
    option_map (λ bb, map (resolve (live (dc_store c))) (bb_blobs bb)) (dc_blockLookup c !! n).
Proof using BL.
  intros Hok. rw /cached /= disk_Blobs_ok //. destruct (dc_blockLookup c !! n) as [bb|]; [|done].
  simpl. f_equal. rw map_map. by apply map_ext.
Qed.

Lemma disk_put_spec blobs : ∀ c r c',
  disk_put blobs c = (r, c') →
  dc_blockLookup c' = dc_blockLookup c ∧
  (∀ k d, live (dc_store c) !! k = Some d → live (dc_store c') !! k = Some d) ∧
  match r with
  | Ret blbs => map (resolve (live (dc_store c'))) blbs = map plain (filter has_data blobs) ∧
                ∀ b, b ∈ blbs → live (dc_store c) !! b_dataId b = None
  | Fail _ => True
  | Panic _ => False
  end.
Proof using BL.
  induction blobs as [|b blobs IH]; intros c r c'; simpl.
  { intros [= <- <-]. split_and!; [done..|]. by intros b ?%not_elem_of_nil. }
  destruct (b_data b) as [d|] eqn:Hb; last first.
  { rw filter_cons decide_False; [rw /has_data Hb; by intros [? ?]|]. apply IH. }
  rw filter_cons decide_True; [by exists d|].
  destruct (billy_Put d (dc_store c)) as [[k|e|p] s] eqn:Ep; apply billy_Put_live in Ep; [| |done].
  - destruct Ep as [Hk Hs].
    set c1 := mkDiskCache s (dc_blockLookup c) (<[kv_u64 b := k]> (dc_kvIndexLookup c)).
    destruct (disk_put blobs c1) as [r2 c2] eqn:E2.
    destruct (IH c1 r2 c2 E2) as (H1 & H2 & H3).
    have Hmono k' d' : live (dc_store c) !! k' = Some d' → live (dc_store c2) !! k' = Some d'.
    { intros Hk'. apply H2. rw /= Hs lookup_insert_ne //. intros ->. congruence. }
    destruct r2 as [blbs|e|p]; intros [= <- <-]; (split; [done|split; [done|]]); [|done..].
    destruct H3 as [H3 H4]. split.
    + rw /= H3. f_equal. rw /resolve /plain /= Hb. f_equal. apply H2. by rw /= Hs lookup_insert_eq.
    + intros b' [-> |Hb']%elem_of_cons; [done|]. specialize (H4 b' Hb').
      rw /= Hs in H4. by apply lookup_insert_None in H4 as [? _].
  - intros [= <- <-]. split_and!; [done| |done]. by rw /= Ep.
Qed.

Lemma clean_block_spec block : ∀ c,
  dc_blockLookup (clean_block c block) = dc_blockLookup c ∧
  ∀ k, (∀ b, b ∈ bb_blobs block → b_dataId b ≠ k) →
    live (dc_store (clean_block c block)) !! k = live (dc_store c) !! k.
Proof using BL.
  rw /clean_block. induction (bb_blobs block) as [|b l IH]; intros c; simpl; [done|].
  destruct (IH (mkDiskCache (billy_Delete (b_dataId b) (dc_store c)).2 (dc_blockLookup c)
    (delete (kv_u64 b) (dc_kvIndexLookup c)))) as [H1 H2]. split; [done|].
  intros k Hk. rw H2; [intros b' ?; by apply Hk, list_elem_of_further|]. simpl.
  destruct (billy_Delete (b_dataId b) (dc_store c)) as [r s] eqn:E.
  apply billy_Delete_live in E. simpl. destruct r; [|by rw E|done].
  rw E lookup_delete_ne //. apply Hk, list_elem_of_here.
Qed.

Lemma clean_fold finalized l : ∀ c,
  let c' := foldl (λ c '(number, block),
      if number <=? finalized
      then clean_block (mkDiskCache (dc_store c) (delete number (dc_blockLookup c))
                          (dc_kvIndexLookup c)) block
      else c) c l in
  (∀ n, dc_blockLookup c' !! n =
     if decide (n ≤ finalized ∧ n ∈ l.*1) then None else dc_blockLookup c !! n) ∧
  ∀ k, (∀ n bb b, (n, bb) ∈ l → n ≤ finalized → b ∈ bb_blobs bb → b_dataId b ≠ k) →
    live (dc_store c') !! k = live (dc_store c) !! k.
Proof using BL.
  induction l as [|[n0 bb0] l IH]; intros c; simpl.
  { split; [|done]. intros n. rw decide_False //. by intros [_ ?%not_elem_of_nil]. }
  case: Z.leb_spec => Hn0.
  - destruct (IH (clean_block (mkDiskCache (dc_store c) (delete n0 (dc_blockLookup c))
      (dc_kvIndexLookup c)) bb0)) as [H1 H2].
    destruct (clean_block_spec bb0 (mkDiskCache (dc_store c) (delete n0 (dc_blockLookup c))
      (dc_kvIndexLookup c))) as [H3 H4]. split.
    + intros n. rw H1 H3 /=. destruct (decide (n = n0)) as [-> |Hne].
      * rw lookup_delete_eq (decide_True (P := n0 ≤ finalized ∧ n0 ∈ n0 :: l.*1)) //.
        { split; [done|apply list_elem_of_here]. }
        by case_decide.
      * rw lookup_delete_ne; [congruence|]. apply decide_ext.
        rw elem_of_cons. naive_solver.
    + intros k Hk. rw H2; [intros n bb b ?; apply Hk; by apply list_elem_of_further|].
      apply H4. intros b Hb. apply (Hk n0 bb0); [apply list_elem_of_here|done..].
  - destruct (IH c) as [H1 H2]. split.
    + intros n. rw H1. apply decide_ext.
      rw elem_of_cons. split; [naive_solver|]. intros [? [-> |?]]; [lia|done].
    + intros k Hk. apply H2. intros n bb b ?. apply Hk. by apply list_elem_of_further.
Qed.

Lemma disk_SetBlockBlobs_law bb c r c' :
  disk_ok c → Blobs c (bb_number bb) = None → SetBlockBlobs bb c = (r, c') →
  disk_ok c' ∧
  match r with
  | Ret _ => ∃ keep, (keep = bb_blobs bb ∨ keep = filter has_data (bb_blobs bb)) ∧
      ∀ n, cached c' n = if decide (n = bb_number bb) then Some (map plain keep) else cached c n
  | Fail _ => ∀ n, cached c' n = cached c n
  | Panic _ => False
  end.
Proof using BL.
  intros Hok Hnone. rw /= /disk_SetBlockBlobs.
  have Hn : dc_blockLookup c !! bb_number bb = None.
  { move: Hnone. rw /= disk_Blobs_ok //. by destruct (dc_blockLookup c !! bb_number bb). }
  rw Hn. destruct (disk_put (bb_blobs bb) c) as [r1 c1] eqn:Ep.
  destruct (disk_put_spec _ _ _ _ Ep) as (H1 & H2 & H3).
  have Hres n bb' : dc_blockLookup c !! n = Some bb' →
    map (resolve (live (dc_store c1))) (bb_blobs bb') = map (resolve (live (dc_store c))) (bb_blobs bb').
  { intros Hlk. apply map_ext_in. intros b Hb%list_elem_of_In.
    destruct (do_live c Hok n bb' b Hlk Hb) as [d Hbd]. by rw /resolve Hbd (H2 _ _ Hbd). }
  have Hok1 : disk_ok c1.
  { constructor; rw H1.
    - intros n bb' b Hlk Hb. destruct (do_live c Hok n bb' b Hlk Hb) as [d Hbd]. by rw (H2 _ _ Hbd).
    - apply Hok. }
  have Hsame n : cached c1 n = cached c n.
  { rw !cached_disk // H1. destruct (dc_blockLookup c !! n) as [bb'|] eqn:En; [|done].
    simpl. by rw (Hres n bb'). }
  destruct r1 as [blbs|e|p]; intros [= <- <-]; [|by split|done].
  destruct H3 as [H3 H4].
  have Hlive b : b ∈ blbs → is_Some (live (dc_store c1) !! b_dataId b).
  { intros Hb. have Hin : resolve (live (dc_store c1)) b ∈ map plain (filter has_data (bb_blobs bb)).
    { rw -H3. apply list_elem_of_In, in_map. by apply list_elem_of_In. }
    apply list_elem_of_fmap in Hin as (b0 & E0 & Hb0).
    apply list_elem_of_filter in Hb0 as [[d Hd0] _]. exists d. rw -Hd0. by injection E0. }
  have Hok2 : disk_ok (mkDiskCache (dc_store c1)
    (<[bb_number bb := mkBlockBlobs (bb_timestamp bb) (bb_number bb) blbs]> (dc_blockLookup c1))
    (dc_kvIndexLookup c1)).
  { have Hnew n bb' b b' : dc_blockLookup c1 !! n = Some bb' → b ∈ bb_blobs bb' → b' ∈ blbs →
      b_dataId b ≠ b_dataId b'.
    { rw H1. intros Hlk Hb Hb' E. destruct (do_live c Hok n bb' b Hlk Hb) as [d Hbd].
      specialize (H4 b' Hb'). congruence. }
    constructor; simpl.
    - intros n bb' b. destruct (decide (n = bb_number bb)) as [-> |].
      + rw lookup_insert_eq. intros [= <-]. apply Hlive.
      + rw lookup_insert_ne; [congruence|]. apply Hok1.
    - intros n n' bb1 bb2 b b'. destruct (decide (n = bb_number bb)) as [-> |],
        (decide (n' = bb_number bb)) as [-> |]; [done| | |].
      + rw lookup_insert_eq lookup_insert_ne; [congruence|].
        intros [= <-] Hl' _ Hb Hb'. exact (not_eq_sym (Hnew n' bb2 b' b Hl' Hb' Hb)).
      + rw lookup_insert_eq lookup_insert_ne; [congruence|].
        intros Hl [= <-] _ Hb Hb'. exact (Hnew n bb1 b b' Hl Hb Hb').
      + rw !lookup_insert_ne; [congruence..|]. apply Hok1. }
  split; [done|]. exists (filter has_data (bb_blobs bb)). split; [by right|].
  intros n. rw cached_disk //. simpl. case_decide as E.
  + subst n. by rw lookup_insert_eq /= H3.
  + rw lookup_insert_ne; [congruence|]. by rw -Hsame cached_disk.
Qed.

Lemma disk_Cleanup_law finalized c :
  disk_ok c → disk_ok (Cleanup finalized c) ∧
  ∀ n, cached (Cleanup finalized c) n = if decide (n ≤ finalized) then None else cached c n.
Proof using BL.
  intros Hok.
  destruct (clean_fold finalized (map_to_list (dc_blockLookup c)) c) as [H1 H2].
  change (foldl _ c _) with (disk_Cleanup finalized c) in H1, H2.
  have Hlk n : dc_blockLookup (disk_Cleanup finalized c) !! n =
    if decide (n ≤ finalized) then None else dc_blockLookup c !! n.
  { rw H1. case_decide as E1; case_decide as E2; try done; [naive_solver|].
    destruct (dc_blockLookup c !! n) as [bb|] eqn:En; [|done]. exfalso. apply E1. split; [done|].
    apply list_elem_of_fmap. exists (n, bb). split; [done|]. by apply elem_of_map_to_list. }
  have Hlive n bb b : finalized < n → dc_blockLookup c !! n = Some bb → b ∈ bb_blobs bb →
    live (dc_store (disk_Cleanup finalized c)) !! b_dataId b = live (dc_store c) !! b_dataId b.
  { intros Hn Hbb Hb. apply H2. intros n' bb' b' Hn'%elem_of_map_to_list Hle Hb'.
    apply (do_apart c Hok n' n bb' bb); [done..|lia|done|done]. }
  have Hok' : disk_ok (disk_Cleanup finalized c).
  { constructor.
    - intros n bb b. rw Hlk. case_decide as E; [done|]. intros Hbb Hb.
      rw (Hlive n bb b); [lia|done..|]. exact (do_live c Hok n bb b Hbb Hb).
    - intros n n' bb bb' b b'. rw !Hlk. case_decide; [done|]. case_decide; [done|]. apply Hok. }
  split; [done|]. intros n. rw !cached_disk // Hlk. case_decide as E; [done|].
  destruct (dc_blockLookup c !! n) as [bb|] eqn:En; [|done]. simpl. f_equal.
  apply map_ext_in. intros b Hb%list_elem_of_In. rw /resolve (Hlive n bb b) //. lia.
Qed.

Lemma disk_GetKeyValueByIndex_law c order idx hash d :
  disk_ok c → GetKeyValueByIndex c order idx hash = Some d →
  ∃ n l b, cached c n = Some l ∧ b ∈ l ∧ kv_u64 b = idx ∧ take 24 (b_hash b) = take 24 hash ∧
    b_data b = Some d.
Proof using BL.
  intros Hok. rw /= /disk_GetKeyValueByIndex.
  destruct (list_find _ _) as [[i b]|] eqn:E; [|done].
  apply list_find_Some in E as (Hi & [Hk Hh] & _).
  apply list_elem_of_lookup_2, in_order_elem in Hi as (n & bb & Hn & Hb).
  destruct (do_live c Hok n bb b Hn Hb) as [d' Hd']. rw (billy_Get_live _ _ _ Hd'). intros [= <-].
  exists n, (map (resolve (live (dc_store c))) (bb_blobs bb)), (resolve (live (dc_store c)) b).
  rw cached_disk // Hn. split_and!; [done|by apply list_elem_of_fmap_2|done|by apply same_hash_true|done].
Qed.

#[export] Instance disk_cache_laws : BlobCacheLaws (BlobDiskCache B) := {|
  cache_ok := disk_ok;
  SetBlockBlobs_law := disk_SetBlockBlobs_law;
  Cleanup_law := disk_Cleanup_law;
  GetKeyValueByIndex_law := disk_GetKeyValueByIndex_law |}.

End disk.

(** ** Samples of the disk cache *)

Lemma clean_block_kv {B} `{Billy B} (bb : blockBlobs) : ∀ (c : BlobDiskCache B) k,
  dc_kvIndexLookup (clean_block c bb) !! k =
    if decide (k ∈ map kv_u64 (bb_blobs bb)) then None else dc_kvIndexLookup c !! k.
Proof.
  rw /clean_block. induction (bb_blobs bb) as [|b l IH]; intros c k.
  { case_decide as Hk; [by apply not_elem_of_nil in Hk|done]. }
  cbn [foldl map].
  rw IH /=. destruct (decide (k = kv_u64 b)) as [-> |Hne].
  - rw lookup_delete_eq (decide_True (P := kv_u64 b ∈ kv_u64 b :: _)); [apply list_elem_of_here|].
    by case_decide.
  - rw lookup_delete_ne; [congruence|]. apply decide_ext. rw elem_of_cons. naive_solver.
Qed.

Lemma clean_fold_kv {B} `{Billy B} finalized l : ∀ (c : BlobDiskCache B) k,
  dc_kvIndexLookup (foldl (λ c '(number, block),
      if number <=? finalized
      then clean_block (mkDiskCache (dc_store c) (delete number (dc_blockLookup c))
                          (dc_kvIndexLookup c)) block
      else c) c l) !! k = None ∨
  dc_kvIndexLookup (foldl (λ c '(number, block),
      if number <=? finalized
      then clean_block (mkDiskCache (dc_store c) (delete number (dc_blockLookup c))
                          (dc_kvIndexLookup c)) block
      else c) c l) !! k = dc_kvIndexLookup c !! k ∧
  ∀ n bb, (n, bb) ∈ l → n ≤ finalized → k ∉ map kv_u64 (bb_blobs bb).
Proof.
  induction l as [|[n0 bb0] l IH]; intros c k; simpl.
  { right. split; [done|]. by intros n bb ?%not_elem_of_nil. }
  case: Z.leb_spec => Hn0.
  - destruct (IH (clean_block (mkDiskCache (dc_store c) (delete n0 (dc_blockLookup c))
      (dc_kvIndexLookup c)) bb0) k) as [?|[E Hl]]; [by left|].
    rw E clean_block_kv /=. case_decide as Hk; [by left|]. right. split; [done|].
    intros n bb [[= -> ->]|Hin]%elem_of_cons; [done|by apply Hl].
  - destruct (IH c k) as [?|[E Hl]]; [by left|]. right. split; [done|].
    intros n bb [[= -> ->]|Hin]%elem_of_cons; [lia|by apply Hl].
Qed.

(** The clean-up after a finalized block forgets the samples of a KV that is
    still in the cache: when a KV has a blob in a finalized block and a newer one
    in a later block, the later block's blob stays cached, but the lookup by KV
    index is gone and [GetSampleData] finds nothing. *)
Theorem Cleanup_forgets_samples {B} `{BillyLaws B} (c : BlobDiskCache B) n n' bb b b' finalized order i :
  disk_ok c → dc_blockLookup c !! n = Some bb → b ∈ bb_blobs bb → n ≤ finalized < n' →
  (∃ l, cached c n' = Some l ∧ b' ∈ l) → kv_u64 b' = kv_u64 b →
  (∃ l, cached (Cleanup finalized c) n' = Some l ∧ b' ∈ l) ∧
  GetSampleData (Cleanup finalized c) order (kv_u64 b') i = Ret None.
Proof.
  intros Hok Hbb Hb Hn Hl E. split.
  - destruct (disk_Cleanup_law finalized c Hok) as [_ Hc]. destruct Hl as (l & Hl & Hb').
    exists l. rw Hc. case_decide; [lia|done].
  - rw /= /disk_GetSampleData /disk_Cleanup.
    destruct (clean_fold_kv finalized (map_to_list (dc_blockLookup c)) c (kv_u64 b')) as [-> |[_ Hno]];
      [done|].
    exfalso. apply (Hno n bb); [by apply elem_of_map_to_list|lia|]. rw E. apply list_elem_of_fmap.
    by exists b.
Qed.

(** *** A billy database in memory *)

Definition toy_free (m : gmap Z bytes) : Z := foldr (λ x n, Z.max (x.1 + 1) n) 0 (map_to_list m).

Lemma toy_free_fresh m : m !! toy_free m = None.
Proof.
  destruct (m !! toy_free m) as [d|] eqn:E; [|done]. apply elem_of_map_to_list in E.
  have Hlt : ∀ (l : list (Z * bytes)) k d, (k, d) ∈ l → k < foldr (λ x n, Z.max (x.1 + 1) n) 0 l.
  { clear. induction l as [|y l IH]; intros k d; [by intros ?%not_elem_of_nil|].
    intros [<- |Hin]%elem_of_cons; simpl; [lia|]. specialize (IH k d Hin). lia. }
  specialize (Hlt _ _ _ E). rw /toy_free in Hlt. lia.
Qed.

#[export] Instance toy_billy : Billy (gmap Z bytes) := {
  billy_Put d m := (Ret (toy_free m), <[toy_free m := d]> m);
  billy_Get m k := match m !! k with Some d => Ret d | None => Fail (ErrMsg "not found") end;
  billy_Delete k m := (Ret tt, delete k m);
  billy_GetSample m k off n :=
    match m !! k with
    | Some d => if off + n <=? zlen d then Ret (take (Z.to_nat n) (drop (Z.to_nat off) d))
                else Fail (ErrMsg "sample out of range")
    | None => Fail (ErrMsg "not found")
    end }.

#[export] Instance toy_billy_laws : BillyLaws (gmap Z bytes).
Proof.
  refine {| live := λ m, m |}.
  - intros m k d Hk. by rw /= Hk.
  - intros d m r m' [= <- <-]. split; [|done]. apply toy_free_fresh.
  - by intros k m r m' [= <- <-].
  - intros m k d off n Hk _ _ Hle. rw /= Hk. by rw (proj2 (Z.leb_le _ _) Hle).
Defined.

(** Block 10 and block 11 both put KV 5. *)
Definition ex_block (n x : Z) : blockBlobs :=
  mkBlockBlobs 0 n [mkCBlob 5 128 (zeros 32) (Some (replicate 128 x)) 0].

Definition ex_disk : BlobDiskCache (gmap Z bytes) :=
  (SetBlockBlobs (ex_block 11 2) (SetBlockBlobs (ex_block 10 1) (NewBlobDiskCache ∅)).2).2.

Lemma ex_disk_ok : disk_ok ex_disk.
Proof.
  have H0 : disk_ok (NewBlobDiskCache (∅ : gmap Z bytes)).
  { constructor; intros ? *; by rw lookup_empty. }
  destruct (disk_SetBlockBlobs_law (ex_block 10 1) (NewBlobDiskCache ∅) (Ret tt)
    (SetBlockBlobs (ex_block 10 1) (NewBlobDiskCache ∅)).2 H0) as [H1 _]; [done|done|].
  by destruct (disk_SetBlockBlobs_law (ex_block 11 2) _ (Ret tt) ex_disk H1).
Qed.

Lemma Cleanup_forgets_samples_witness :
  GetSampleData ex_disk [] 5 0 = Ret (Some (replicate 32 2)) ∧
  (∃ l, cached (Cleanup 10 ex_disk) 11 = Some l ∧ mkCBlob 5 128 (zeros 32) (Some (replicate 128 2)) 0 ∈ l) ∧
  GetSampleData (Cleanup 10 ex_disk) [] 5 0 = Ret None.
Proof.
  split; [by vm_compute|].
  apply (Cleanup_forgets_samples ex_disk 10 11
    (mkBlockBlobs 0 10 [mkCBlob 5 128 (zeros 32) None (toy_free ∅)])
    (mkCBlob 5 128 (zeros 32) None (toy_free ∅))
    (mkCBlob 5 128 (zeros 32) (Some (replicate 128 2)) 0) 10 [] 0 ex_disk_ok).
  - by vm_compute.
  - apply list_elem_of_here.
  - done.
  - eexists. split; [by vm_compute|]. apply list_elem_of_here.
  - done.
Defined.
