(* ===== verification/Downloader.v ===== *)
(** * Downloader (ethstorage/downloader/downloader.go)

    The downloader follows the L1 chain: blobs of new blocks go to the cache,
    blobs of finalized blocks to the storage manager, from the cache when they
    are there.  The L1 node, the blob servers, the key-value database and the
    mail server are oracles; requests to them are numbered.  A fatal log
    ([lg.Crit]) ends the process and is a panic here. *)

From S2P Require Import Prelude Extern Bits DataFile ChunkCodec DataShard ShardManager StorageManager.
From S2P Require Import BlobSources BlobCache.

Definition downloadBatchSize : Z := 64.

(** An event log of the storage contract. *)
Record Log := mkLog { lg_BlockNumber : Z; lg_Topics : list bytes }.

(** What the downloader asks for: logs of a range of blocks, the number and the
    time of a block, whether the database takes a record and whether a mail could
    be sent. *)
Class L1Node := {
  FilterLogsByBlockRange : nat → Z → Z → gores (list Log);
  HeaderByNumber : nat → Z → gores (Z * Z);
  db_Put : nat → gores unit;
  SendEmail : nat → bool }.

(** [d_last] and [d_blobs] are the two database records; the tokens of the two
    request channels are [d_dlLatestReq] and [d_dlFinalizedReq]. *)
Record Downloader (C : Type) := mkDownloader {
  d_cache : C;
  d_sm : StorageManager;
  d_l1Beacon : option BeaconClient;
  d_daClient : bool;
  d_last : option bytes;
  d_blobs : option bytes;
  d_lastDownloadBlock : Z;
  d_lastCacheBlock : Z;
  d_finalizedHead : Z;
  d_latestHead : Z;
  d_dumpDir : bool;
  d_minDuration : Z;
  d_downloadedBlobs : Z;
  d_emailConfig : bool;
  d_dlLatestReq : bool;
  d_dlFinalizedReq : bool;
  d_requests : nat
}.
Arguments mkDownloader {C}.
Arguments d_cache {C}. Arguments d_sm {C}. Arguments d_l1Beacon {C}. Arguments d_daClient {C}.
Arguments d_last {C}. Arguments d_blobs {C}. Arguments d_lastDownloadBlock {C}.
Arguments d_lastCacheBlock {C}. Arguments d_finalizedHead {C}. Arguments d_latestHead {C}.
Arguments d_dumpDir {C}. Arguments d_minDuration {C}. Arguments d_downloadedBlobs {C}.
Arguments d_emailConfig {C}. Arguments d_dlLatestReq {C}. Arguments d_dlFinalizedReq {C}.
Arguments d_requests {C}.

Section downloader.
Context {C : Type} {CA : BlobCache C} `{GE : Geth} `{L1 : Il1Source} `{LN : L1Node} `{BS : BlobServers}.
Implicit Types d : Downloader C.

(** *** Field updates *)

Definition set_cache d (c : C) : Downloader C :=
  mkDownloader c (d_sm d) (d_l1Beacon d) (d_daClient d) (d_last d) (d_blobs d)
    (d_lastDownloadBlock d) (d_lastCacheBlock d) (d_finalizedHead d) (d_latestHead d) (d_dumpDir d)
    (d_minDuration d) (d_downloadedBlobs d) (d_emailConfig d) (d_dlLatestReq d) (d_dlFinalizedReq d)
    (d_requests d).
Definition set_manager d (s : StorageManager) : Downloader C :=
  mkDownloader (d_cache d) s (d_l1Beacon d) (d_daClient d) (d_last d) (d_blobs d)
    (d_lastDownloadBlock d) (d_lastCacheBlock d) (d_finalizedHead d) (d_latestHead d) (d_dumpDir d)
    (d_minDuration d) (d_downloadedBlobs d) (d_emailConfig d) (d_dlLatestReq d) (d_dlFinalizedReq d)
    (d_requests d).
Definition set_records d (last blobs : option bytes) : Downloader C :=
  mkDownloader (d_cache d) (d_sm d) (d_l1Beacon d) (d_daClient d) last blobs
    (d_lastDownloadBlock d) (d_lastCacheBlock d) (d_finalizedHead d) (d_latestHead d) (d_dumpDir d)
    (d_minDuration d) (d_downloadedBlobs d) (d_emailConfig d) (d_dlLatestReq d) (d_dlFinalizedReq d)
    (d_requests d).
Definition set_blocks d (lastDownload lastCache : Z) : Downloader C :=
  mkDownloader (d_cache d) (d_sm d) (d_l1Beacon d) (d_daClient d) (d_last d) (d_blobs d)
    lastDownload lastCache (d_finalizedHead d) (d_latestHead d) (d_dumpDir d)
    (d_minDuration d) (d_downloadedBlobs d) (d_emailConfig d) (d_dlLatestReq d) (d_dlFinalizedReq d)
    (d_requests d).
Definition set_heads d (finalized latest : Z) (reqLatest reqFinalized : bool) : Downloader C :=
  mkDownloader (d_cache d) (d_sm d) (d_l1Beacon d) (d_daClient d) (d_last d) (d_blobs d)
    (d_lastDownloadBlock d) (d_lastCacheBlock d) finalized latest (d_dumpDir d)
    (d_minDuration d) (d_downloadedBlobs d) (d_emailConfig d) reqLatest reqFinalized (d_requests d).
Definition set_count d (n : Z) : Downloader C :=
  mkDownloader (d_cache d) (d_sm d) (d_l1Beacon d) (d_daClient d) (d_last d) (d_blobs d)
    (d_lastDownloadBlock d) (d_lastCacheBlock d) (d_finalizedHead d) (d_latestHead d) (d_dumpDir d)
    (d_minDuration d) n (d_emailConfig d) (d_dlLatestReq d) (d_dlFinalizedReq d) (d_requests d).
Definition bump d : Downloader C :=
  mkDownloader (d_cache d) (d_sm d) (d_l1Beacon d) (d_daClient d) (d_last d) (d_blobs d)
    (d_lastDownloadBlock d) (d_lastCacheBlock d) (d_finalizedHead d) (d_latestHead d) (d_dumpDir d)
    (d_minDuration d) (d_downloadedBlobs d) (d_emailConfig d) (d_dlLatestReq d) (d_dlFinalizedReq d)
    (Datatypes.S (d_requests d)).

(** A numbered request. *)
Definition ask {A} (f : nat → gores A) : ST (Downloader C) A := λ d, (f (d_requests d), bump d).

Definition on_manager {A} (op : ST StorageManager A) : ST (Downloader C) A := λ d,
  let '(r, s) := op (d_sm d) in (r, set_manager d s).

(** [binary.LittleEndian]. *)
Definition PutUint64 (x : Z) : bytes := Z_to_little_endian 8 8 x.
Definition Uint64 (b : bytes) : gores Z :=
  if zlen b <? 8 then Panic OutOfRange else Ret (little_endian_to_Z 8 (take 8 b)).

(** ** Set-up *)

Definition NewDownloader (cache : C) (sm : StorageManager) (l1Beacon : option BeaconClient)
    (daClient : bool) (last blobs : option bytes) (minDuration downloadStart threadNum : Z)
    (dump email : bool) : Downloader C :=
  mkDownloader cache
    (mkStorageManager threadNum (s_shardManager sm) (s_localL1 sm) (s_kvEntryCount sm)
       (s_blobMetas sm) (s_requests sm))
    l1Beacon daClient last blobs downloadStart 0 0 0 dump minDuration 0 email false false 0.

Definition start_block : ST (Downloader C) Z := λ d,
  let finalized : ST (Downloader C) Z :=
    '(number, _) ← ask (λ req, HeaderByNumber req FinalizedBlockNumber); mret (int64 number) in
  if d_lastDownloadBlock d =? 0 then
    match d_last d with
    | None => finalized d
    | Some bs => (n ← Uint64 bs; mret (int64 n), d)
    end
  else if d_lastDownloadBlock d <? 0 then
    if d_lastDownloadBlock d =? FinalizedBlockNumber then finalized d
    else (Fail (ErrMsg "please use a positive number or latest finalized block (-3) as the download start point"), d)
  else (Ret (d_lastDownloadBlock d), d).

Definition Start : ST (Downloader C) unit :=
  last ← start_block;
  d ← st_get;
  let d := set_blocks d last (d_lastCacheBlock d) in
  let d := match d_blobs d with
           | Some bs => if zlen bs =? 8 then set_count d (little_endian_to_Z 8 bs) else d
           | None => d
           end in
  _ ← st_put d;
  on_manager (Reset (d_lastDownloadBlock d)).

Definition OnL1Finalized (finalized : Z) d : Downloader C :=
  set_heads d (int64 finalized) (d_latestHead d) (d_dlLatestReq d) true.

Definition OnNewL1Head (number : Z) d : Downloader C :=
  set_heads d (d_finalizedHead d) (int64 number) true (d_dlFinalizedReq d).

Definition GetState d : Z := d_downloadedBlobs d.

(** ** Blobs of blocks *)

(** One event: a new block when its number differs from the last one, and the
    blob appended to the last block. *)
Definition add_event (acc : list blockBlobs * Z) (event : Log)
    : ST (Downloader C) (list blockBlobs * Z) :=
  let '(blocks, lastBlockNumber) := acc in
  '(blocks, lastBlockNumber) ←
    (if negb (lastBlockNumber =? lg_BlockNumber event) then
       '(_, time) ← ask (λ req, HeaderByNumber req (int64 (lg_BlockNumber event)));
       mret (blocks ++ [mkBlockBlobs time (lg_BlockNumber event) []], lg_BlockNumber event)
     else mret (blocks, lastBlockNumber));
  block ← st_lift (index blocks (zlen blocks - 1));
  t3 ← st_lift (index (lg_Topics event) 3);
  t1 ← st_lift (index (lg_Topics event) 1);
  t2 ← st_lift (index (lg_Topics event) 2);
  let b := mkCBlob (be_decode t1) (be_decode t2) (go_copy (zeros 32) t3) None 0 in
  mret (<[(length blocks - 1)%nat :=
          mkBlockBlobs (bb_timestamp block) (bb_number block) (bb_blobs block ++ [b])]> blocks,
        lastBlockNumber).

Definition eventsToBlocks (events : list Log) : ST (Downloader C) (list blockBlobs) :=
  '(blocks, _) ← st_foldM add_event ([], 0) events; mret blocks.

Definition downloadBlobs (elBlock : blockBlobs) : ST (Downloader C) (gmap bytes Blob) := λ d,
  let hashes := map b_hash (bb_blobs elBlock) in
  match d_l1Beacon d with
  | Some c => ask (λ req, BeaconClient_DownloadBlobs c req (bb_timestamp elBlock) hashes) d
  | None =>
      if d_daClient d then ask (λ req, DAClient_DownloadBlobs req hashes) d
      else (Fail (ErrMsg "no beacon client or DA client is available"), d)
  end.

Fixpoint downloadBlobsWithRetry (elBlock : blockBlobs) (attempts : nat)
    : ST (Downloader C) (gmap bytes Blob) := λ d,
  match downloadBlobs elBlock d with
  | (Fail e, d') =>
      match attempts with
      | Datatypes.S (Datatypes.S _ as attempts) => downloadBlobsWithRetry elBlock attempts d'
      | _ => (Fail e, d')
      end
  | r => r
  end.

(** Returns when a mail was sent, and ends the process otherwise. *)
Definition notifyBlobMissing : ST (Downloader C) unit := λ d,
  if d_emailConfig d && SendEmail (d_requests d) then (Ret tt, bump d)
  else (Panic (Explicit "Downloader Failed to Locate Blob in CL"), d).

(** A blob of a block: [None] when it is skipped. *)
Definition fill_blob (clBlobs : gmap bytes Blob) (elBlob : blob) : ST (Downloader C) (option blob) := λ d,
  let shard := Z.shiftr (kv_u64 elBlob) (sm_kvEntriesBits (s_shardManager (d_sm d))) in
  if negb (bool_decide (shard ∈ Shards (d_sm d))) then (Ret None, d)
  else
    match clBlobs !! b_hash elBlob with
    | None => (_ ← notifyBlobMissing; mret None) d
    | Some clBlob =>
        match EncodeBlob (d_sm d) (Data clBlob) (b_hash elBlob) (kv_u64 elBlob)
                (sm_kvSize (s_shardManager (d_sm d))) with
        | Ret data => (Ret (Some (mkCBlob (b_kvIndex elBlob) (b_kvSize elBlob) (b_hash elBlob)
                                   (Some data) (b_dataId elBlob))), d)
        | Fail e => (Fail e, d)
        | Panic p => (Panic p, d)
        end
    end.

(** The blobs to return, and the block with the data of its blobs filled in. *)
Definition fill_block (clBlobs : gmap bytes Blob) (elBlock : blockBlobs)
    : ST (Downloader C) (list blob * blockBlobs) :=
  '(blobs, filled) ← st_foldM (λ '(blobs, filled) b,
      r ← fill_blob clBlobs b;
      mret (match r with
            | Some b' => (blobs ++ [b'], filled ++ [b'])
            | None => (blobs, filled ++ [b])
            end)) ([], []) (bb_blobs elBlock);
  mret (blobs, mkBlockBlobs (bb_timestamp elBlock) (bb_number elBlock) filled).

Definition on_cache {A} (op : ST C A) : ST (Downloader C) A := λ d,
  let '(r, c) := op (d_cache d) in (r, set_cache d c).

Definition download_block (toCache : bool) (blobs : list blob) (elBlock : blockBlobs)
    : ST (Downloader C) (list blob) :=
  d ← st_get;
  match Blobs (d_cache d) (bb_number elBlock) with
  | Some res => mret (blobs ++ res)
  | None =>
      r ← st_catch (downloadBlobsWithRetry elBlock 3);
      let clBlobs := match r with inl _ => ∅ | inr m => m end in
      '(new, filled) ← fill_block clBlobs elBlock;
      _ ← (if toCache then on_cache (SetBlockBlobs filled) else mret tt);
      mret (blobs ++ new)
  end.

Definition downloadRange (start fin : Z) (toCache : bool) : ST (Downloader C) (list blob) :=
  let fin := if fin <? start then start else fin in
  events ← ask (λ req, FilterLogsByBlockRange req start fin);
  elBlocks ← eventsToBlocks events;
  st_foldM (download_block toCache) [] elBlocks.

(** ** New blocks *)

Fixpoint cache_loop (fuel : nat) (start fin : Z) : ST (Downloader C) unit := λ d,
  if start <? fin then
    match fuel with
    | O => (Panic OutOfFuel, d)
    | Datatypes.S fuel =>
        let rangeEnd := Z.min (int64 (start + downloadBatchSize)) fin in
        match downloadRange (int64 (start + 1)) rangeEnd true d with
        | (Ret _, d) => cache_loop fuel rangeEnd fin (set_blocks d (d_lastDownloadBlock d) rangeEnd)
        | (Fail _, d) => (Ret tt, d)
        | (Panic p, d) => (Panic p, d)
        end
    end
  else (Ret tt, d).

Definition downloadToCache (fuel : nat) : ST (Downloader C) unit := λ d,
  if d_finalizedHead d =? 0 then (Ret tt, d)
  else
    let start := if d_lastCacheBlock d =? 0 then d_finalizedHead d else d_lastCacheBlock d in
    cache_loop fuel start (d_latestHead d) d.

(** ** Finalized blocks *)

(** The place of a KV in the list so far. *)
Definition place (kvIndices : list Z) (k : Z) : option nat := fst <$> list_find (λ x, x = k) kvIndices.

(** The later blob of a KV replaces the earlier one in its place. *)
Definition add_blob (acc : list Z * list bytes * list bytes) (b : blob)
    : list Z * list bytes * list bytes :=
  let '(kvIndices, dataBlobs, metas) := acc in
  let data := default [] (b_data b) in
  match place kvIndices (kv_u64 b) with
  | Some i =>
      (kvIndices, <[i := data]> dataBlobs,
       <[i := go_copy (default [] (metas !! i)) (take 24 (b_hash b))]> metas)
  | None =>
      (kvIndices ++ [kv_u64 b], dataBlobs ++ [data], metas ++ [go_copy (zeros 32) (take 24 (b_hash b))])
  end.

Definition dumpBlobsIfNeeded (blobs : list blob) : ST (Downloader C) unit := λ d,
  if d_dumpDir d then (foldM (λ _ b, _ ← slice (default [] (b_data b)) 0 5; mret tt) tt blobs, d)
  else (Ret tt, d).

(** What follows a successful [downloadRange] up to block [fin]: [false] when the
    loop is left.  [order] is the order of the writes in [DownloadFinished]. *)
Definition finish_range (order : list Z → list Z) (fin : Z) (blobs : list blob)
    : ST (Downloader C) bool :=
  let '(kvIndices, dataBlobs, metas) := foldl add_blob ([], [], []) blobs in
  r ← st_catch (on_manager (DownloadFinished (order kvIndices) fin kvIndices dataBlobs metas));
  match r with
  | inl _ => mret false
  | inr _ =>
      d ← st_get;
      let d := if bool_decide (blobs = []) then d
               else set_count d (add64 (d_downloadedBlobs d) (zlen blobs)) in
      _ ← st_put d;
      r1 ← st_catch (ask db_Put);
      match r1 with
      | inl _ => mret false
      | inr _ =>
          d ← st_get;
          _ ← st_put (set_records d (Some (PutUint64 (wrap64 fin))) (d_blobs d));
          r2 ← st_catch (ask db_Put);
          match r2 with
          | inl _ => mret false
          | inr _ =>
              d ← st_get;
              _ ← st_put (set_records d (d_last d) (Some (PutUint64 (d_downloadedBlobs d))));
              _ ← dumpBlobsIfNeeded blobs;
              d ← st_get;
              _ ← st_put (set_blocks d fin (d_lastCacheBlock d));
              mret true
          end
      end
  end.

(** The loop: [false] when it is left before the head is reached. *)
Fixpoint download_loop (fuel : nat) (order : list Z → list Z) (trackHead : Z)
    : ST (Downloader C) bool := λ d,
  if d_lastDownloadBlock d <? trackHead then
    match fuel with
    | O => (Panic OutOfFuel, d)
    | Datatypes.S fuel =>
        let start := int64 (d_lastDownloadBlock d + 1) in
        let fin := Z.min (int64 (d_lastDownloadBlock d + downloadBatchSize)) trackHead in
        match downloadRange start fin false d with
        | (Panic p, d) => (Panic p, d)
        | (Fail _, d) => download_loop fuel order trackHead d
        | (Ret blobs, d) =>
            match finish_range order fin blobs d with
            | (Ret true, d) => download_loop fuel order trackHead d
            | r => r
            end
        end
    end
  else (Ret true, d).

Definition download (fuel : nat) (order : list Z → list Z) : ST (Downloader C) unit := λ d,
  let trackHead := d_finalizedHead d in
  if (0 <? d_lastDownloadBlock d) &&
     (int64 (d_minDuration d) <? int64 (trackHead - d_lastDownloadBlock d))
  then (Ret tt, d)
  else
    match download_loop fuel order trackHead d with
    | (Ret true, d) => (Ret tt, set_cache d (Cleanup (wrap64 trackHead) (d_cache d)))
    | (Ret false, d) => (Ret tt, d)
    | (Fail e, d) => (Fail e, d)
    | (Panic p, d) => (Panic p, d)
    end.

(** A turn of [eventLoop]: one of the waiting requests is served. *)
Inductive event_step (fuel : nat) : Downloader C → Downloader C → Prop :=
| step_finalized order d d' :
    d_dlFinalizedReq d = true →
    download fuel order (set_heads d (d_finalizedHead d) (d_latestHead d) (d_dlLatestReq d) false)
      = (Ret tt, d') →
    event_step fuel d d'
| step_latest d d' :
    d_dlLatestReq d = true →
    downloadToCache fuel (set_heads d (d_finalizedHead d) (d_latestHead d) false (d_dlFinalizedReq d))
      = (Ret tt, d') →
    event_step fuel d d'.

End downloader.
