(* ===== verification/DownloaderFacts.v ===== *)
(** * What the downloader achieves

    With an L1 node that reports the finalized chain and servers that have its
    blobs, one run of [download] stores the latest blob of every KV of the
    finalized blocks, whether the blobs come from the cache or not; [downloadToCache]
    fills the cache with exactly the blobs that are later stored. *)

From S2P Require Import Prelude Extern Bits DataFile ChunkCodec DataShard ShardManager StorageManager.
From S2P Require Import KvStore BlobSources BlobCache Downloader.

(** ** What finalized blocks keep of the shards *)

Lemma write_position_shape T ks bs cs st p sm : same_shape sm (write_position T ks bs cs st p sm).2.
Proof.
  rw /write_position. case_bool_decide; [apply same_shape_refl|].
  destruct (index ks p) as [k| |], (index bs p) as [b| |]; try apply same_shape_refl.
  case Ec: (@index bytes cs p) => [c| |]; try apply same_shape_refl.
  pose proof (TryWriteEncoded_shape k b (PrepareCommit c) sm) as Hs.
  by destruct (TryWriteEncoded k b (PrepareCommit c) sm) as [[| |] sm'].
Qed.

Lemma write_positions_shape T ks bs cs order : ∀ st sm,
  same_shape sm (st_foldM (write_position T ks bs cs) st order sm).2.
Proof.
  induction order as [|p order IH]; intros st sm; [apply same_shape_refl|].
  rw st_foldM_cons /mbind /st_bind. pose proof (write_position_shape T ks bs cs st p sm) as Hs.
  destruct (write_position T ks bs cs st p sm) as [[st1| |] sm1]; [|done..].
  by apply (same_shape_trans sm sm1).
Qed.

Lemma DownloadFinished_shape `{Il1Source} order newL1 ks bs cs s r s' :
  DownloadFinished order newL1 ks bs cs s = (r, s') →
  same_shape (s_shardManager s) (s_shardManager s') ∧ s_DownloadThreadNum s' = s_DownloadThreadNum s.
Proof.
  have Hr : same_shape (s_shardManager s) (s_shardManager s) := same_shape_refl _.
  rw /DownloadFinished. destruct (negb _); [by intros [= <- <-]|].
  destruct (newL1 <=? s_localL1 s); [by intros [= <- <-]|].
  rw {1}/mbind /st_bind. destruct (on_sm _ s) as [r1 s1] eqn:E1.
  have H1 : same_shape (s_shardManager s) (s_shardManager s1) ∧
            s_DownloadThreadNum s1 = s_DownloadThreadNum s.
  { move: E1. rw /on_sm. destruct (s_DownloadThreadNum s <=? 0); [by intros [= <- <-]|].
    pose proof (write_positions_shape (s_DownloadThreadNum s) ks bs cs order [] (s_shardManager s)) as Hw.
    destruct (st_foldM _ _ _ _) as [r2 sm2]. by intros [= <- <-]. }
  destruct r1 as [x| |]; [|by intros [= <- <-]..]. rw {1}/mbind /st_bind /ask_KvEntryCount.
  destruct (GetStorageKvEntryCount (s_requests s1) newL1); [|by intros [= <- <-]..].
  rw /mbind /update_view /updateLocalMetas.
  case Ef: (foldM _ _ _) => [m| |]; by intros [= <- <-].
Qed.

(** Encodings depend on the shape only. *)
Lemma EncodeBlob_shape `{Geth} s s' b h k n :
  same_shape (s_shardManager s) (s_shardManager s') → EncodeBlob s' b h k n = EncodeBlob s b h k n.
Proof.
  intros [Hb _ _ _ _ Hs]. rw /EncodeBlob /getEncodingParams /GetShardEncodeType /GetShardMiner Hb.
  specialize (Hs (Z.shiftr k (sm_kvEntriesBits (s_shardManager s)))).
  destruct (sm_shardMap (s_shardManager s') !! _) as [ds'|], (sm_shardMap (s_shardManager s) !! _) as [ds|];
    simpl in Hs; [|discriminate Hs..|reflexivity]. injection Hs as -> ->. reflexivity.
Qed.

Lemma Shards_shape s s' i :
  same_shape (s_shardManager s) (s_shardManager s') → i ∈ Shards s' ↔ i ∈ Shards s.
Proof.
  intros [_ _ _ _ _ Hs]. rw !Shards_elem !elem_of_dom. specialize (Hs i).
  rw -(fmap_is_Some shard_params (sm_shardMap (s_shardManager s') !! i)) Hs fmap_is_Some //.
Qed.

(** ** The batch of a range *)

(** The last blob of KV [k]. *)
Definition latest (k : Z) (blobs : list blob) : option blob := last (filter (λ b, kv_u64 b = k) blobs).

Lemma latest_app k l b : latest k (l ++ [b]) = if decide (kv_u64 b = k) then Some b else latest k l.
Proof.
  rw /latest filter_app filter_cons filter_nil. case_decide; [by rw last_snoc|by rw app_nil_r].
Qed.

Lemma latest_None k l : latest k l = None ↔ k ∉ map kv_u64 l.
Proof.
  rw /latest last_None. split.
  - intros Hf (b & -> & Hb)%list_elem_of_fmap. apply (not_elem_of_nil b).
    rw -Hf. by apply list_elem_of_filter.
  - intros Hk. destruct (filter _ l) as [|b l'] eqn:E; [done|]. exfalso. apply Hk.
    have Hb : b ∈ filter (λ b, kv_u64 b = k) l by rw E; apply list_elem_of_here.
    apply list_elem_of_filter in Hb as [<- Hb]. apply list_elem_of_fmap. by exists b.
Qed.

Lemma latest_app_l k l l' :
  latest k (l ++ l') = match latest k l' with Some b => Some b | None => latest k l end.
Proof. rw /latest filter_app last_app. by destruct (last (filter _ l')). Qed.

Lemma latest_elem k l b : latest k l = Some b → b ∈ l ∧ kv_u64 b = k.
Proof. intros H%last_Some_elem_of. by apply list_elem_of_filter in H as [? ?]. Qed.

(** The metadata record of a blob. *)
Definition blob_meta (b : blob) : bytes := go_copy (zeros 32) (take 24 (b_hash b)).

Record batch_of (blobs : list blob) (ks : list Z) (ds ms : list bytes) : Prop := {
  bo_ds : length ks = length ds;
  bo_ms : length ds = length ms;
  bo_nodup : NoDup ks;
  bo_ks k : k ∈ ks ↔ k ∈ map kv_u64 blobs;
  bo_at i k : ks !! i = Some k → ∃ b, latest k blobs = Some b ∧
    ds !! i = Some (default [] (b_data b)) ∧ ms !! i = Some (blob_meta b)
}.

Lemma place_Some ks k i : place ks k = Some i → ks !! i = Some k.
Proof.
  rw /place. destruct (list_find _ ks) as [[j x]|] eqn:E; [|done]. intros [= <-].
  apply list_find_Some in E as (? & -> & _). done.
Qed.

Lemma place_None ks k : place ks k = None → k ∉ ks.
Proof.
  rw /place. destruct (list_find _ ks) as [[j x]|] eqn:E; [done|]. intros _ Hk.
  apply list_find_None in E. rw Forall_forall in E. by apply (E k Hk).
Qed.

Lemma blob_meta_over b b' :
  length (b_hash b) = 32%nat → length (b_hash b') = 32%nat →
  go_copy (blob_meta b) (take 24 (b_hash b')) = blob_meta b'.
Proof.
  intros Hb Hb'. rw /blob_meta /go_copy !length_app !length_take !length_drop Hb Hb' /zeros
    !length_replicate. simpl. rw !take_take /=. f_equal.
  by rw drop_app_length'; [rw !length_take Hb|].
Qed.

Lemma add_blob_batch blobs :
  Forall (λ b, length (b_hash b) = 32%nat) blobs →
  let '(ks, ds, ms) := foldl add_blob ([], [], []) blobs in batch_of blobs ks ds ms.
Proof.
  induction blobs as [|b l IH] using rev_ind; intros Hh.
  { constructor; try done; constructor. }
  apply Forall_app in Hh as [Hl Hb]. apply Forall_cons in Hb as [Hb _]. specialize (IH Hl).
  rw foldl_app. destruct (foldl add_blob ([], [], []) l) as [[ks ds] ms] eqn:E.
  cbn [foldl]. rw /add_blob. destruct IH as [I1 I2 I3 I4 I5].
  destruct (place ks (kv_u64 b)) as [i|] eqn:Ep.
  - apply place_Some in Ep. constructor.
    + by rw length_insert.
    + by rw !length_insert.
    + done.
    + intros k. rw I4 map_app elem_of_app /= list_elem_of_singleton. split; [by left|].
      intros [?| ->]; [done|]. apply I4. exact (list_elem_of_lookup_2 _ _ _ Ep).
    + intros j k Hj. rw latest_app. destruct (I5 j k Hj) as (b0 & L0 & D0 & M0).
      case_decide as Ek.
      * subst k. have Eij : j = i := NoDup_lookup ks j i _ I3 Hj Ep. subst j.
        exists b. have Hi : (i < length ds)%nat by rw -I1; exact (lookup_lt_Some _ _ _ Ep).
        rw !list_lookup_insert_eq //; [by rw -I2|]. rw M0 /=. split_and!; [done..|].
        f_equal. apply blob_meta_over; [|done]. apply latest_elem in L0 as [L0 _].
        rw Forall_forall in Hl. by apply Hl.
      * exists b0. have Hne : i ≠ j by intros <-; congruence.
        by rw !list_lookup_insert_ne.
  - apply place_None in Ep. constructor.
    + rw !length_app /=. lia.
    + rw !length_app /=. lia.
    + apply NoDup_app. split_and!; [done| |apply NoDup_singleton].
      by intros x Hx ->%list_elem_of_singleton.
    + intros k. by rw map_app !elem_of_app I4.
    + intros j k. rw latest_app. intros [Hj|[Hge Hj]]%lookup_app_Some.
      * destruct (I5 j k Hj) as (b0 & L0 & D0 & M0). case_decide as Ek.
        { subst k. by apply list_elem_of_lookup_2 in Hj. }
        exists b0. split_and!; [done| |]; by apply lookup_app_l_Some.
      * apply list_lookup_singleton_Some in Hj as [Ej <-]. rw decide_True //. exists b.
        split_and!; [done| |].
        -- rw lookup_app_r; [by rw -I1|]. by rw -I1 Ej.
        -- rw lookup_app_r; [by rw -I2 -I1|]. by rw -I2 -I1 Ej.
Qed.

(** ** Requests *)

Section chain.
Context {C : Type} {CA : BlobCache C} {CL : BlobCacheLaws C} `{GE : Geth} `{L1 : Il1Source} `{LN : L1Node} `{BS : BlobServers}.
Implicit Types d : Downloader C.

(** [d'] is [d] after some requests. *)
Definition later d d' : Prop := ∃ m, d' = Nat.iter m bump d.

Lemma later_refl d : later d d.
Proof. by exists 0%nat. Qed.

Lemma later_trans d1 d2 d3 : later d1 d2 → later d2 d3 → later d1 d3.
Proof.
  intros [m ->] [n ->]. exists (n + m)%nat. by rw Nat.iter_add.
Qed.

Lemma later_bump d : later d (bump d).
Proof. by exists 1%nat. Qed.

Lemma later_fields d d' :
  later d d' → d_cache d' = d_cache d ∧ d_sm d' = d_sm d ∧ d_l1Beacon d' = d_l1Beacon d ∧
    d_daClient d' = d_daClient d ∧ d_lastDownloadBlock d' = d_lastDownloadBlock d ∧
    d_dumpDir d' = d_dumpDir d ∧ d_lastCacheBlock d' = d_lastCacheBlock d.
Proof. intros [m ->]. induction m as [|m IH]; [done|]. simpl. by destruct IH as (? & ? & ? & ? & ? & ? & ?). Qed.

(** ** The chain

    [chain n] are the logs of block [n] and [btime n] its time; [blob_data h] the
    blob with versioned hash [h]; [head] the last block spoken of. *)
Context (chain : Z → list Log) (btime : Z → Z) (blob_data : bytes → bytes) (head : Z).

Definition topic (ev : Log) (i : nat) : bytes := default [] (lg_Topics ev !! i).

Definition el_blob (ev : Log) : blob :=
  mkCBlob (be_decode (topic ev 1)) (be_decode (topic ev 2)) (go_copy (zeros 32) (topic ev 3)) None 0.

Definition logs_between (a b : Z) : list Log := seqZ a (b - a + 1) ≫= chain.

(** The node reports the chain. *)
Record honest_node : Prop := {
  hn_logs req a b : 0 < a ≤ b → b ≤ head → FilterLogsByBlockRange req a b = Ret (logs_between a b);
  hn_header req n : 0 < n ≤ head → HeaderByNumber req n = Ret (n, btime n);
  hn_number n ev : ev ∈ chain n → lg_BlockNumber ev = n;
  hn_topics n ev : ev ∈ chain n → (4 ≤ length (lg_Topics ev))%nat;
  hn_head : head + downloadBatchSize < two63
}.

Definition el_block (n : Z) : blockBlobs := mkBlockBlobs (btime n) n (map el_blob (chain n)).

(** The blocks of a range that have events. *)
Definition el_blocks (l : list Z) : list blockBlobs :=
  n ← l; if decide (chain n = []) then [] else [el_block n].

Lemma topic_index ev (i : nat) :
  (4 ≤ length (lg_Topics ev))%nat → (i < 4)%nat → index (lg_Topics ev) (Z.of_nat i) = Ret (topic ev i).
Proof.
  intros Hl Hi. destruct (lookup_lt_is_Some_2 (lg_Topics ev) i) as [x Hx]; [lia|].
  by rw /index /topic (proj2 (Z.leb_le 0 _)); [lia|]; rw Nat2Z.id Hx.
Qed.

(** An event of the block that is being collected. *)
Lemma add_event_same blocks t n bs ev d :
  lg_BlockNumber ev = n → (4 ≤ length (lg_Topics ev))%nat →
  add_event (blocks ++ [mkBlockBlobs t n bs], n) ev d =
    (Ret (blocks ++ [mkBlockBlobs t n (bs ++ [el_blob ev])], n), d).
Proof using.
  intros <- Hl. rw /add_event Z.eqb_refl. cbn [negb].
  rw /mbind /st_bind /mret /st_ret /st_lift.
  have Hidx : index (blocks ++ [mkBlockBlobs t (lg_BlockNumber ev) bs])
                (zlen (blocks ++ [mkBlockBlobs t (lg_BlockNumber ev) bs]) - 1) =
              Ret (mkBlockBlobs t (lg_BlockNumber ev) bs).
  { rw /index /zlen length_app /= (proj2 (Z.leb_le _ _)); [lia|].
    have -> : Z.to_nat (Z.of_nat (length blocks + 1) - 1) = length blocks by lia.
    by rw list_lookup_middle. }
  rw Hidx (topic_index ev 3 Hl) ?(topic_index ev 1 Hl) ?(topic_index ev 2 Hl); [lia..|].
  rw length_app /=. have -> : (length blocks + 1 - 1 = length blocks + 0)%nat by lia.
  by rw insert_app_r.
Qed.

Lemma add_events_same blocks t n evs d : ∀ bs,
  (∀ ev, ev ∈ evs → lg_BlockNumber ev = n ∧ (4 ≤ length (lg_Topics ev))%nat) →
  st_foldM add_event (blocks ++ [mkBlockBlobs t n bs], n) evs d =
    (Ret (blocks ++ [mkBlockBlobs t n (bs ++ map el_blob evs)], n), d).
Proof using.
  induction evs as [|ev evs IH]; intros bs Hev; [by rw app_nil_r|].
  destruct (Hev ev (list_elem_of_here _ _)) as [Hn Hl].
  rw st_foldM_cons /mbind /st_bind add_event_same // IH.
  { intros. by apply Hev, list_elem_of_further. }
  by rw -app_assoc.
Qed.

(** The first event of a block. *)
Lemma add_event_new blocks n last ev d :
  honest_node → ev ∈ chain n → 0 < n ≤ head → n ≠ last →
  add_event (blocks, last) ev d =
    (Ret (blocks ++ [mkBlockBlobs (btime n) n [el_blob ev]], n), bump d).
Proof using.
  intros HN Hev Hn Hne. pose proof (hn_head HN) as Hh.
  have En := hn_number HN n ev Hev. have Hl := hn_topics HN n ev Hev.
  transitivity (add_event (blocks ++ [mkBlockBlobs (btime n) n []], n) ev (bump d));
    [|by rw add_event_same].
  rw /add_event En Z.eqb_refl (proj2 (Z.eqb_neq last n) (not_eq_sym Hne)). cbn [negb].
  by rw /mbind /st_bind /ask int64_small; [rw /downloadBatchSize /two63 in Hh *; lia|]; rw (hn_header HN).
Qed.

Lemma add_blocks (HN : honest_node) l : ∀ blocks last d,
  NoDup l → (∀ n, n ∈ l → 0 < n ≤ head ∧ n ≠ last) →
  ∃ last' d', later d d' ∧
    st_foldM add_event (blocks, last) (l ≫= chain) d = (Ret (blocks ++ el_blocks l, last'), d').
Proof using.
  induction l as [|n l IH]; intros blocks last d Hnd Hl.
  { exists last, d. rw app_nil_r. split; [apply later_refl|done]. }
  apply NoDup_cons in Hnd as [Hn Hnd]. destruct (Hl n (list_elem_of_here _ _)) as [Hr Hne].
  have Hl' n' : n' ∈ l → 0 < n' ≤ head ∧ n' ≠ last by intros; apply Hl, list_elem_of_further.
  rw bind_cons /el_blocks bind_cons -/(el_blocks l). case_decide as Ec.
  { rw Ec. by apply IH. }
  destruct (chain n) as [|ev evs] eqn:E; [done|].
  destruct (IH (blocks ++ [el_block n]) n (bump d) Hnd) as (last' & d' & Hlt & HF).
  { intros n' Hn'. split; [by apply Hl'|]. by intros ->. }
  exists last', d'. split; [by apply (later_trans d (bump d)); [apply later_bump|]|].
  rw -app_comm_cons st_foldM_cons /mbind /st_bind (add_event_new _ n) //.
  { rw E. apply list_elem_of_here. }
  rw st_foldM_app /mbind /st_bind add_events_same.
  { intros ev' Hev'. have He : ev' ∈ chain n by rw E; apply list_elem_of_further.
    split; [exact (hn_number HN n ev' He)|exact (hn_topics HN n ev' He)]. }
  have -> : mkBlockBlobs (btime n) n ([el_blob ev] ++ map el_blob evs) = el_block n
    by rw /el_block E.
  by rw HF -app_assoc.
Qed.

Lemma eventsToBlocks_ok (HN : honest_node) a b d :
  0 < a ≤ b → b ≤ head →
  ∃ d', later d d' ∧ eventsToBlocks (logs_between a b) d = (Ret (el_blocks (seqZ a (b - a + 1))), d').
Proof using.
  intros Hab Hb. destruct (add_blocks HN (seqZ a (b - a + 1)) [] 0 d (NoDup_seqZ _ _)) as (n & d' & Hl & HF).
  { intros n [? ?]%elem_of_seqZ. lia. }
  exists d'. split; [done|]. by rw /eventsToBlocks /mbind /st_bind HF.
Qed.

(** ** The blobs of a block *)

(** The configured server has the blobs of the chain. *)
Definition honest_source d : Prop := ∀ n d',
  0 < n ≤ head → d_l1Beacon d' = d_l1Beacon d → d_daClient d' = d_daClient d →
  ∃ m, downloadBlobs (el_block n) d' = (Ret m, bump d') ∧
    ∀ ev, ev ∈ chain n → ∃ b, m !! b_hash (el_blob ev) = Some b ∧ Data b = blob_data (b_hash (el_blob ev)).

Definition managed (s : StorageManager) (ev : Log) : Prop :=
  Z.shiftr (kv_u64 (el_blob ev)) (sm_kvEntriesBits (s_shardManager s)) ∈ Shards s.

#[local] Instance managed_dec s ev : Decision (managed s ev).
Proof. rw /managed. apply _. Defined.

Definition encoded (s : StorageManager) (ev : Log) : gores bytes :=
  EncodeBlob s (blob_data (b_hash (el_blob ev))) (b_hash (el_blob ev)) (kv_u64 (el_blob ev))
    (sm_kvSize (s_shardManager s)).

(** What an event puts into the storage: nothing when its shard is not managed. *)
Definition expected_blob (s : StorageManager) (ev : Log) : option blob :=
  if decide (managed s ev) then
    match encoded s ev with
    | Ret data => Some (mkCBlob (b_kvIndex (el_blob ev)) (b_kvSize (el_blob ev)) (b_hash (el_blob ev))
                          (Some data) 0)
    | _ => None
    end
  else None.

Definition expected (s : StorageManager) (n : Z) : list blob := omap (expected_blob s) (chain n).

Definition fillable (s : StorageManager) : Prop := ∀ n ev,
  0 < n ≤ head → ev ∈ chain n → managed s ev →
  ∃ data, encoded s ev = Ret data ∧ zlen data = sm_kvSize (s_shardManager s).

Lemma fill_events m evs d : ∀ bs fs,
  (∀ ev, ev ∈ evs → ∃ b, m !! b_hash (el_blob ev) = Some b ∧ Data b = blob_data (b_hash (el_blob ev))) →
  (∀ ev, ev ∈ evs → managed (d_sm d) ev → ∃ data, encoded (d_sm d) ev = Ret data) →
  st_foldM (λ '(blobs, filled) b,
      r ← fill_blob m b;
      mret (match r with
            | Some b' => (blobs ++ [b'], filled ++ [b'])
            | None => (blobs, filled ++ [b])
            end)) (bs, fs) (map el_blob evs) d =
  (Ret (bs ++ omap (expected_blob (d_sm d)) evs,
        fs ++ map (λ ev, default (el_blob ev) (expected_blob (d_sm d) ev)) evs), d).
Proof using.
  set body := λ '(blobs, filled) (b : blob), _.
  induction evs as [|ev evs IH]; intros bs fs Hm He; [by rw !app_nil_r|].
  have HF : fill_blob m (el_blob ev) d = (Ret (expected_blob (d_sm d) ev), d).
  { rw /fill_blob /expected_blob. case_decide as Hg.
    - rw (bool_decide_eq_true_2 _ Hg). cbn [negb].
      destruct (Hm ev (list_elem_of_here _ _)) as (b & -> & Hd).
      destruct (He ev (list_elem_of_here _ _) Hg) as [data Hdata]. rw /encoded in Hdata *.
      by rw Hd Hdata.
    - by rw (bool_decide_eq_false_2 _ Hg). }
  have HB : body (bs, fs) (el_blob ev) d =
    (Ret match expected_blob (d_sm d) ev with
         | Some b' => (bs ++ [b'], fs ++ [b'])
         | None => (bs, fs ++ [el_blob ev])
         end, d) by rw /body /mbind /st_bind HF.
  cbn [map]. rw st_foldM_cons /mbind /st_bind HB.
  have Hm' ev' : ev' ∈ evs → _ := λ Hev, Hm ev' (list_elem_of_further _ _ _ Hev).
  have He' ev' : ev' ∈ evs → _ := λ Hev, He ev' (list_elem_of_further _ _ _ Hev).
  cbn [omap list_omap]. destruct (expected_blob (d_sm d) ev) as [b'|] eqn:E; rw (IH _ _ Hm' He');
    by rw -?app_assoc.
Qed.

Lemma fetch_block n d :
  honest_source d → fillable (d_sm d) → 0 < n ≤ head →
  ∃ m, downloadBlobsWithRetry (el_block n) 3 d = (Ret m, bump d) ∧
    fill_block m (el_block n) (bump d) =
      (Ret (expected (d_sm d) n,
            mkBlockBlobs (btime n) n
              (map (λ ev, default (el_blob ev) (expected_blob (d_sm d) ev)) (chain n))), bump d).
Proof using.
  intros HS HF Hn. destruct (HS n d Hn eq_refl eq_refl) as (m & Hd & Hm). exists m. split.
  { by rw /downloadBlobsWithRetry Hd. }
  rw /fill_block /mbind /st_bind /=.
  have He ev : ev ∈ chain n → managed (d_sm (bump d)) ev → ∃ data, encoded (d_sm (bump d)) ev = Ret data.
  { intros Hev Hg. destruct (HF n ev Hn Hev Hg) as (data & ? & _). by exists data. }
  pose proof (fill_events m (chain n) (bump d) [] [] Hm He) as E. rw /mbind /st_bind in E. by rw E.
Qed.

(** The cache holds what the chain has, if anything. *)
Definition coherent (s : StorageManager) (c : C) : Prop := ∀ n,
  0 < n ≤ head → cached c n = None ∨ cached c n = Some (expected s n).

Lemma expected_plain s n : map plain (expected s n) = expected s n.
Proof using.
  rw /expected. induction (chain n) as [|ev l IH]; [done|]. cbn [omap list_omap].
  rw /expected_blob in IH *. case_decide; [|done]. destruct (encoded s ev); [|done..]. cbn [map]. by rw IH.
Qed.

Lemma cached_Blobs c n l : cached c n = Some l → ∃ res, Blobs c n = Some res ∧ map plain res = l.
Proof using. rw /cached. destruct (Blobs c n) as [res|]; [|done]. intros [= <-]. by exists res. Qed.

Lemma cached_None c n : cached c n = None → Blobs c n = None.
Proof using. rw /cached. by destruct (Blobs c n). Qed.

Lemma download_block_ok blobs n d :
  honest_source d → fillable (d_sm d) → coherent (d_sm d) (d_cache d) → 0 < n ≤ head →
  ∃ res d', later d d' ∧ download_block false blobs (el_block n) d = (Ret (blobs ++ res), d') ∧
    map plain res = expected (d_sm d) n.
Proof using.
  intros HS HF HC Hn. rw /download_block /mbind /st_bind /st_get. cbn [bb_number el_block].
  destruct (HC n Hn) as [Ec|Ec].
  - rw (cached_None _ _ Ec). destruct (fetch_block n d HS HF Hn) as (m & H1 & H2).
    rw /st_catch H1 H2. exists (expected (d_sm d) n), (bump d).
    split_and!; [apply later_bump|done|apply expected_plain].
  - apply cached_Blobs in Ec as (res & -> & Hres). exists res, d. split_and!; [apply later_refl|done..].
Qed.

(** What a download to the cache may change: the cache gains blocks. *)
Record grown (s : StorageManager) (c c' : C) : Prop := {
  gr_ok : cache_ok c';
  gr_coherent : coherent s c';
  gr_keep n l : cached c n = Some l → cached c' n = Some l
}.

Lemma grown_refl s c : cache_ok c → coherent s c → grown s c c.
Proof using. by constructor. Qed.

Lemma grown_trans s c1 c2 c3 : grown s c1 c2 → grown s c2 c3 → grown s c1 c3.
Proof using. intros [_ _ H1] [H2 H3 H4]. constructor; [done..|]. intros n l Hn. by apply H4, H1. Qed.

Lemma filled_managed s n :
  fillable s → 0 < n ≤ head → (∀ ev, ev ∈ chain n → managed s ev) →
  map (λ ev, default (el_blob ev) (expected_blob s ev)) (chain n) = expected s n ∧
  Forall has_data (expected s n).
Proof using.
  intros HF Hn HM. rw /expected. have HF' ev : ev ∈ chain n → ∃ data, expected_blob s ev = Some
    (mkCBlob (b_kvIndex (el_blob ev)) (b_kvSize (el_blob ev)) (b_hash (el_blob ev)) (Some data) 0).
  { intros Hev. destruct (HF n ev Hn Hev (HM ev Hev)) as (data & He & _). exists data.
    by rw /expected_blob (decide_True _ _ (HM ev Hev)) He. }
  clear HF HM. induction (chain n) as [|ev l IH]; [done|].
  destruct (HF' ev (list_elem_of_here _ _)) as [data E].
  destruct IH as [IH1 IH2]; [intros; by apply HF', list_elem_of_further|].
  cbn [omap list_omap map]. rw E IH1. split; [done|]. constructor; [by eexists|done].
Qed.

Lemma download_block_cached blobs n d :
  honest_source d → fillable (d_sm d) → cache_ok (d_cache d) → coherent (d_sm d) (d_cache d) →
  0 < n ≤ head → (∀ ev, ev ∈ chain n → managed (d_sm d) ev) →
  ∃ r d' c, download_block true blobs (el_block n) d = (r, d') ∧ later (set_cache d c) d' ∧
    grown (d_sm d) (d_cache d) c ∧ (∀ p, r ≠ Panic p) ∧
    ∀ res, r = Ret res → cached c n = Some (expected (d_sm d) n) ∧
      map plain res = map plain blobs ++ expected (d_sm d) n.
Proof using CL.
  intros HS HF Hok HC Hn HM. rw /download_block /mbind /st_bind /st_get. cbn [bb_number el_block].
  destruct (HC n Hn) as [Ec|Ec].
  - rw (cached_None _ _ Ec). destruct (fetch_block n d HS HF Hn) as (m & H1 & H2).
    rw /st_catch H1 H2. destruct (filled_managed _ n HF Hn HM) as [-> Hd].
    rw /on_cache. destruct (SetBlockBlobs _ (d_cache (bump d))) as [r c] eqn:ES.
    destruct (SetBlockBlobs_full (mkBlockBlobs (btime n) n (expected (d_sm d) n)) (d_cache d) r c
      Hok Hd (cached_None _ _ Ec) ES) as (Hok' & Hnp & Hc).
    cbn [bb_number bb_blobs] in Hc. rw expected_plain in Hc.
    have Hl : later (set_cache d c) (set_cache (bump d) c) by exists 1%nat.
    have HG : grown (d_sm d) (d_cache d) c.
    { constructor; [done| |].
      - intros n' Hn'. rw Hc. destruct r; [|by apply HC..]. case_decide; [subst; by right|by apply HC].
      - intros n' l Hl'. rw Hc. destruct r; [|done..]. case_decide; [|done]. subst. congruence. }
    destruct r as [[]|e|p]; [| |by destruct (Hnp p)]; eexists _, _, c; (split; [reflexivity|]); split_and!; try done.
    intros res [= <-]. rw Hc decide_True // map_app expected_plain //.
  - apply cached_Blobs in Ec as (res & E & Hres). rw E. eexists _, d, (d_cache d).
    split; [done|]. split_and!; [exists 0%nat; by destruct d|by apply grown_refl|done|].
    intros res' [= <-]. by rw /cached E /= Hres map_app Hres.
Qed.

(** ** Ranges of blocks *)

Lemma honest_source_same d d' :
  d_l1Beacon d' = d_l1Beacon d → d_daClient d' = d_daClient d → honest_source d → honest_source d'.
Proof using. intros E1 E2 HS n d2 Hn. rw E1 E2. by apply HS. Qed.

Lemma el_blocks_cons n l :
  el_blocks (n :: l) = if decide (chain n = []) then el_blocks l else el_block n :: el_blocks l.
Proof using. rw /el_blocks bind_cons. by case_decide. Qed.

Lemma expected_nil s n : chain n = [] → expected s n = [].
Proof using. by rw /expected => ->. Qed.

Lemma download_blocks_ok l : ∀ blobs d,
  honest_source d → fillable (d_sm d) → coherent (d_sm d) (d_cache d) →
  (∀ n, n ∈ l → 0 < n ≤ head) →
  ∃ res d', later d d' ∧ st_foldM (download_block false) blobs (el_blocks l) d = (Ret (blobs ++ res), d') ∧
    map plain res = l ≫= expected (d_sm d).
Proof using.
  induction l as [|n l IH]; intros blobs d HS HF HC Hl.
  { exists [], d. rw app_nil_r. split_and!; [apply later_refl|done..]. }
  have Hn := Hl n (list_elem_of_here _ _).
  have Hl' n' : n' ∈ l → 0 < n' ≤ head by intros; apply Hl, list_elem_of_further.
  rw el_blocks_cons bind_cons. case_decide as Ec.
  { rw (expected_nil _ _ Ec). by apply IH. }
  destruct (download_block_ok blobs n d HS HF HC Hn) as (res1 & d1 & Hl1 & E1 & P1).
  destruct (later_fields _ _ Hl1) as (Ecache & Esm & Ebc & Eda & _).
  destruct (IH (blobs ++ res1) d1) as (res2 & d2 & Hl2 & E2 & P2).
  { by apply (honest_source_same d). }
  { by rw Esm. }
  { by rw Esm Ecache. }
  { done. }
  exists (res1 ++ res2), d2. split_and!.
  - by apply (later_trans d d1).
  - by rw st_foldM_cons /mbind /st_bind E1 E2 app_assoc.
  - by rw map_app P1 P2 Esm.
Qed.

Lemma downloadRange_ok (HN : honest_node) start fin d :
  honest_source d → fillable (d_sm d) → coherent (d_sm d) (d_cache d) → 0 < start ≤ fin → fin ≤ head →
  ∃ res d', later d d' ∧ downloadRange start fin false d = (Ret res, d') ∧
    map plain res = seqZ start (fin - start + 1) ≫= expected (d_sm d).
Proof using.
  intros HS HF HC Hs Hf. rw /downloadRange (proj2 (Z.ltb_ge _ _)); [lia|].
  rw /mbind /st_bind /ask (hn_logs HN) //.
  destruct (eventsToBlocks_ok HN start fin (bump d) Hs Hf) as (d1 & Hl1 & E1). rw E1.
  have Hl := later_trans _ _ _ (later_bump d) Hl1.
  destruct (later_fields _ _ Hl) as (Ecache & Esm & Ebc & Eda & _).
  destruct (download_blocks_ok (seqZ start (fin - start + 1)) [] d1) as (res & d2 & Hl2 & E2 & P2).
  { by apply (honest_source_same d). }
  { by rw Esm. }
  { by rw Esm Ecache. }
  { intros n [? ?]%elem_of_seqZ. lia. }
  exists res, d2. rw E2 P2 Esm. split_and!; [by apply (later_trans d d1)|done..].
Qed.

Lemma later_set_cache d d' c : later d d' → later (set_cache d c) (set_cache d' c).
Proof using.
  intros [m ->]. exists m. induction m as [|m IH]; [done|]. simpl. by rw -IH.
Qed.

Lemma set_cache_twice d c c' : set_cache (set_cache d c) c' = set_cache d c'.
Proof using. by destruct d. Qed.

Lemma later_cache d c d1 d2 c' :
  later (set_cache d c) d1 → later (set_cache d1 c') d2 → later (set_cache d c') d2.
Proof using.
  intros H1%(later_set_cache _ _ c'). rw set_cache_twice in H1. by apply later_trans.
Qed.

Lemma download_blocks_cached l : ∀ blobs d,
  honest_source d → fillable (d_sm d) → cache_ok (d_cache d) → coherent (d_sm d) (d_cache d) →
  (∀ n, n ∈ l → 0 < n ≤ head ∧ ∀ ev, ev ∈ chain n → managed (d_sm d) ev) →
  ∃ r d' c, st_foldM (download_block true) blobs (el_blocks l) d = (r, d') ∧ later (set_cache d c) d' ∧
    grown (d_sm d) (d_cache d) c ∧ (∀ p, r ≠ Panic p) ∧
    ∀ res, r = Ret res → ∀ n, n ∈ l → chain n ≠ [] → cached c n = Some (expected (d_sm d) n).
Proof using CL.
  induction l as [|n l IH]; intros blobs d HS HF Hok HC Hl.
  { exists (Ret blobs), d, (d_cache d). split; [done|]. split; [exists 0%nat; by destruct d|].
    split_and!; [by apply grown_refl|done|]. by intros res _ n ?%not_elem_of_nil. }
  destruct (Hl n (list_elem_of_here _ _)) as [Hn HM].
  have Hl' n' : n' ∈ l → _ := λ H, Hl n' (list_elem_of_further _ _ _ H).
  rw el_blocks_cons. case_decide as Ec.
  { destruct (IH blobs d HS HF Hok HC Hl') as (r & d' & c & E & Hd & HG & HP & HR).
    exists r, d', c. split_and!; [done..|]. intros res Er n' [-> |?]%elem_of_cons; [done|].
    by apply (HR res). }
  destruct (download_block_cached blobs n d HS HF Hok HC Hn HM) as (r1 & d1 & c1 & E1 & L1' & G1 & P1 & R1).
  rw st_foldM_cons /mbind /st_bind E1.
  destruct r1 as [blobs1|e|p]; [|exists (Fail e), d1, c1|exists (Panic p), d1, c1]; [|done..].
  destruct (later_fields _ _ L1') as (Ecache & Esm & Ebc & Eda & _). simpl in Ecache, Esm, Ebc, Eda.
  destruct (IH blobs1 d1) as (r & d' & c & E & Hd & HG & HP & HR).
  { by apply (honest_source_same d). }
  { by rw Esm. }
  { rw Ecache. apply G1. }
  { rw Esm Ecache. apply G1. }
  { by rw Esm. }
  rw Esm Ecache in HG HR. exists r, d', c. split_and!; [done|by apply (later_cache d c1 d1)| | |].
  { by apply (grown_trans _ _ c1). }
  { done. }
  intros res Er n' [-> |?]%elem_of_cons Hne; [|by apply (HR res)].
  apply (gr_keep _ _ _ HG). by apply (R1 blobs1).
Qed.

Lemma downloadRange_cached (HN : honest_node) start fin d :
  honest_source d → fillable (d_sm d) → cache_ok (d_cache d) → coherent (d_sm d) (d_cache d) →
  0 < start ≤ fin → fin ≤ head →
  (∀ n ev, start ≤ n ≤ fin → ev ∈ chain n → managed (d_sm d) ev) →
  ∃ r d' c, downloadRange start fin true d = (r, d') ∧ later (set_cache d c) d' ∧
    grown (d_sm d) (d_cache d) c ∧ (∀ p, r ≠ Panic p) ∧
    ∀ res, r = Ret res → ∀ n, start ≤ n ≤ fin → chain n ≠ [] → cached c n = Some (expected (d_sm d) n).
Proof using CL.
  intros HS HF Hok HC Hs Hf HM. rw /downloadRange (proj2 (Z.ltb_ge _ _)); [lia|].
  rw /mbind /st_bind /ask (hn_logs HN) //.
  destruct (eventsToBlocks_ok HN start fin (bump d) Hs Hf) as (d1 & Hl1 & E1). rw E1.
  have Hl := later_trans _ _ _ (later_bump d) Hl1.
  destruct (later_fields _ _ Hl) as (Ecache & Esm & Ebc & Eda & _).
  destruct (download_blocks_cached (seqZ start (fin - start + 1)) [] d1) as (r & d2 & c & E2 & L2 & G2 & P2 & R2).
  { by apply (honest_source_same d). }
  { by rw Esm. }
  { by rw Ecache. }
  { by rw Esm Ecache. }
  { intros n [? ?]%elem_of_seqZ. split; [lia|]. rw Esm. intros ev. apply HM. lia. }
  rw Esm Ecache in G2 R2. exists r, d2, c. rw E2. split_and!; [done| |done|done|].
  - apply (later_trans _ (set_cache d1 c)); [|done]. by apply later_set_cache.
  - intros res Er n Hn. apply (R2 res Er). apply elem_of_seqZ. lia.
Qed.

(** ** New blocks go to the cache *)

Lemma cache_loop_ok (HN : honest_node) fin fuel : ∀ start d,
  honest_source d → fillable (d_sm d) → cache_ok (d_cache d) → coherent (d_sm d) (d_cache d) →
  0 ≤ start → fin ≤ head → (∀ n ev, start < n ≤ fin → ev ∈ chain n → managed (d_sm d) ev) →
  d_lastCacheBlock d ≤ start → (Z.to_nat (fin - start) ≤ fuel)%nat →
  ∃ d', cache_loop fuel start fin d = (Ret tt, d') ∧ grown (d_sm d) (d_cache d) (d_cache d') ∧
    d_sm d' = d_sm d ∧ d_lastDownloadBlock d' = d_lastDownloadBlock d ∧
    ∀ n, start < n ≤ d_lastCacheBlock d' → chain n ≠ [] →
      cached (d_cache d') n = Some (expected (d_sm d) n).
Proof using CL.
  pose proof (hn_head HN) as Hh. rw /downloadBatchSize in Hh.
  induction fuel as [|fuel IH]; intros start d HS HF Hok HC H0 Hfin HM Hlast Hfuel; cbn [cache_loop].
  - rw (proj2 (Z.ltb_ge _ _)); [lia|]. exists d. split_and!; [done|by apply grown_refl|done..|]. lia.
  - case: Z.ltb_spec => Hlt; last first.
    { exists d. split_and!; [done|by apply grown_refl|done..|]. lia. }
    rw !int64_small; [rw /downloadBatchSize /two63 in Hh *; lia..|].
    set e := Z.min (start + downloadBatchSize) fin.
    have He : start + 1 ≤ e ≤ fin by rw /e /downloadBatchSize; lia.
    destruct (downloadRange_cached HN (start + 1) e d HS HF Hok HC) as (r & d1 & c & E & L & G & P & R);
      [lia|lia|intros n ev ?; apply HM; lia|].
    rw E. destruct (later_fields _ _ L) as (Ecache & Esm & Ebc & Eda & Eld & _ & Elc).
    simpl in Ecache, Esm, Ebc, Eda, Eld, Elc.
    destruct r as [res|err|p]; [| |by destruct (P p)].
    + destruct (IH e (set_blocks d1 (d_lastDownloadBlock d1) e)) as (d' & E' & G' & S' & D' & R').
      { by apply (honest_source_same d). }
      { by rw /= Esm. }
      { rw /= Ecache. apply G. }
      { rw /= Esm Ecache. apply G. }
      { lia. }
      { done. }
      { rw /= Esm. intros n ev ?. apply HM. lia. }
      { simpl; lia. }
      { lia. }
      rw /= Esm Ecache in G' S' D' R'. exists d'. split_and!; [done| |done|by rw D'|].
      { by apply (grown_trans _ _ c). }
      intros n Hn Hne. destruct (decide (n ≤ e)); [|apply R'; [lia|done]].
      apply (gr_keep _ _ _ G'), (R res); [done|lia|done].
    + exists d1. rw Ecache. split_and!; [done..|]. lia.
Qed.

(** With an L1 node that reports the chain and a server that has its blobs,
    [downloadToCache] returns and leaves the cache coherent with the chain: cached
    blocks stay, every block it passed that has events is cached with exactly the
    blobs a direct download of the block would store, and neither the storage nor
    the download position moves. *)
Theorem downloadToCache_spec fuel d :
  honest_node → honest_source d → fillable (d_sm d) → cache_ok (d_cache d) →
  coherent (d_sm d) (d_cache d) →
  0 < d_finalizedHead d → 0 ≤ d_lastCacheBlock d → d_latestHead d ≤ head →
  let start := if d_lastCacheBlock d =? 0 then d_finalizedHead d else d_lastCacheBlock d in
  (∀ n ev, start < n ≤ d_latestHead d → ev ∈ chain n → managed (d_sm d) ev) →
  (Z.to_nat (d_latestHead d - start) ≤ fuel)%nat →
  ∃ d', downloadToCache fuel d = (Ret tt, d') ∧ grown (d_sm d) (d_cache d) (d_cache d') ∧
    d_sm d' = d_sm d ∧ d_lastDownloadBlock d' = d_lastDownloadBlock d ∧
    ∀ n, start < n ≤ d_lastCacheBlock d' → chain n ≠ [] →
      cached (d_cache d') n = Some (expected (d_sm d) n).
Proof using CL.
  intros HN HS HF Hok HC H0 H1 H2 start HM Hfuel.
  rw /downloadToCache (proj2 (Z.eqb_neq _ _)); [lia|]. rw -/start.
  apply cache_loop_ok; try done; rw /start; case: Z.eqb_spec; lia.
Qed.

(** ** Finalized blocks go to the storage *)

(** The manager after [blobs] were stored in this order: every KV has its latest
    blob under the commit of that blob, other KVs keep their records. *)
Record stored_blobs (sm : ShardManager) (blobs : list blob) (sm' : ShardManager) : Prop := {
  sb_wf : sm_wf sm';
  sb_shape : same_shape sm sm';
  sb_stored k : stored sm k → stored sm' k;
  sb_latest k b : latest k blobs = Some b → blob_at sm' k (default [] (b_data b)) (blob_meta b);
  sb_other k : latest k blobs = None → stored sm k →
    ShardManager.TryReadMeta sm' k = ShardManager.TryReadMeta sm k ∧
    ∀ n, 0 ≤ n ≤ sm_kvSize sm → ShardManager.TryReadEncoded sm' k n = ShardManager.TryReadEncoded sm k n
}.

Lemma stored_blobs_nil sm : sm_wf sm → stored_blobs sm [] sm.
Proof using. intros. constructor; try done; apply same_shape_refl. Qed.

Lemma stored_blobs_app sm l sm1 l' sm2 :
  (∀ b, b ∈ l → stored sm (kv_u64 b)) →
  stored_blobs sm l sm1 → stored_blobs sm1 l' sm2 → stored_blobs sm (l ++ l') sm2.
Proof using.
  intros Hst [W1 S1 T1 L1' O1] [W2 S2 T2 L2 O2].
  have Z1 := ssh_size _ _ S1. have Z2 := ssh_size _ _ S2. constructor.
  - done.
  - by apply (same_shape_trans _ sm1).
  - auto.
  - intros k b. rw latest_app_l. destruct (latest k l') as [b'|] eqn:E; [intros [= <-]; by apply L2|].
    intros Hb. destruct (L1' k b Hb) as [B1 B2].
    destruct (O2 k E) as [O3 O4].
    { apply T1. destruct (latest_elem _ _ _ Hb) as [Hin <-]. by apply Hst. }
    split; [by rw O3|]. intros n Hn. rw Z2 in Hn *. by rw O4 // B2.
  - intros k. rw latest_app_l. destruct (latest k l') as [b'|] eqn:E; [done|]. intros Hk Hs.
    destruct (O1 k Hk Hs) as [O3 O4]. destruct (O2 k E (T1 k Hs)) as [O5 O6].
    split; [by rw O5|]. intros n Hn. rw O6 ?Z1 //. by apply O4.
Qed.

(** *** A batch *)

Lemma add_blob_plain acc b : add_blob acc (plain b) = add_blob acc b.
Proof using. by destruct acc as [[ks ds] ms]. Qed.

Lemma add_blobs_plain blobs acc : foldl add_blob acc (map plain blobs) = foldl add_blob acc blobs.
Proof using. revert acc. induction blobs as [|b l IH]; intros acc; [done|]. simpl. by rw add_blob_plain IH. Qed.

Lemma expected_elem s l b :
  b ∈ l ≫= expected s → ∃ n ev data, n ∈ l ∧ ev ∈ chain n ∧ managed s ev ∧ encoded s ev = Ret data ∧
    b = mkCBlob (b_kvIndex (el_blob ev)) (b_kvSize (el_blob ev)) (b_hash (el_blob ev)) (Some data) 0.
Proof using.
  intros (n & Hb & Hn)%list_elem_of_bind. apply list_elem_of_omap in Hb as (ev & Hev & Hb).
  rw /expected_blob in Hb. case_decide as Hg; [|done]. destruct (encoded s ev) as [data| |] eqn:E; [|done..].
  injection Hb as <-. by exists n, ev, data.
Qed.

Lemma managed_shape s s' ev :
  same_shape (s_shardManager s) (s_shardManager s') → managed s' ev ↔ managed s ev.
Proof using. intros HS. rw /managed (ssh_bits _ _ HS). by apply Shards_shape. Qed.

Lemma encoded_shape s s' ev :
  same_shape (s_shardManager s) (s_shardManager s') → encoded s' ev = encoded s ev.
Proof using. intros HS. rw /encoded (ssh_size _ _ HS). by apply EncodeBlob_shape. Qed.

Lemma expected_shape s s' n :
  same_shape (s_shardManager s) (s_shardManager s') → expected s' n = expected s n.
Proof using.
  intros HS. rw /expected. induction (chain n) as [|ev l IH]; [done|]. cbn [omap list_omap]. rw IH.
  have -> : expected_blob s' ev = expected_blob s ev; [|done].
  rw /expected_blob (encoded_shape _ _ _ HS). apply decide_ext. by apply managed_shape.
Qed.

(** *** The state between two batches *)

(** Answers of the contract and of the database. *)
Record honest_rest : Prop := {
  hr_count req n : 0 < n ≤ head → ∃ count, GetStorageKvEntryCount req n = Ret count ∧ 0 ≤ count < two63;
  hr_db req : db_Put req = Ret tt
}.

Record ready d : Prop := {
  rd_wf : sm_wf (s_shardManager (d_sm d));
  rd_threads : 0 < s_DownloadThreadNum (d_sm d);
  rd_source : honest_source d;
  rd_fillable : fillable (d_sm d);
  rd_coherent : coherent (d_sm d) (d_cache d);
  rd_stored n ev : 0 < n ≤ head → ev ∈ chain n → managed (d_sm d) ev →
    kv_stored (d_sm d) (kv_u64 (el_blob ev)) ∧ kv_u64 (el_blob ev) < 2 ^ 40;
  rd_view : s_localL1 (d_sm d) ≤ d_lastDownloadBlock d;
  rd_last : 0 ≤ d_lastDownloadBlock d;
  rd_dump : d_dumpDir d = false
}.

Lemma ready_next d d' :
  ready d → same_shape (s_shardManager (d_sm d)) (s_shardManager (d_sm d')) →
  sm_wf (s_shardManager (d_sm d')) →
  (∀ k, kv_stored (d_sm d) k → kv_stored (d_sm d') k) →
  s_DownloadThreadNum (d_sm d') = s_DownloadThreadNum (d_sm d) →
  d_l1Beacon d' = d_l1Beacon d → d_daClient d' = d_daClient d → d_cache d' = d_cache d →
  d_dumpDir d' = d_dumpDir d → s_localL1 (d_sm d') ≤ d_lastDownloadBlock d' → 0 ≤ d_lastDownloadBlock d' →
  ready d'.
Proof using.
  intros [] HS Hwf Hst HT E1 E2 E3 E4 E5 E6. constructor; try done.
  - by rw HT.
  - by apply (honest_source_same d).
  - intros n ev Hn Hev. rw (managed_shape _ _ _ HS) (encoded_shape _ _ _ HS) (ssh_size _ _ HS). exact (rd_fillable0 n ev Hn Hev).
  - intros n Hn. rw (expected_shape _ _ _ HS) E3. exact (rd_coherent0 n Hn).
  - intros n ev Hn Hev. rw (managed_shape _ _ _ HS). intros Hg.
    destruct (rd_stored0 n ev Hn Hev Hg). auto.
  - by rw E4.
Qed.

Section batch.
Context (order : list Z → list Z) (Horder : ∀ ks, order ks ≡ₚ seqZ 0 (zlen ks)).
Context (HN : honest_node) (HR : honest_rest).

(** The blobs of the blocks after [a] up to [b]. *)
Definition chain_blobs (s : StorageManager) (a b : Z) : list blob := seqZ (a + 1) (b - a) ≫= expected s.

Lemma chain_blobs_elem d a b x :
  ready d → 0 ≤ a → b ≤ head → x ∈ chain_blobs (d_sm d) a b →
  kv_stored (d_sm d) (kv_u64 x) ∧ 0 ≤ kv_u64 x < 2 ^ 40 ∧ length (b_hash x) = 32%nat ∧
  zlen (default [] (b_data x)) = sm_kvSize (s_shardManager (d_sm d)).
Proof using.
  intros Hd Ha Hb (n & ev & data & Hn & Hev & Hg & He & ->)%expected_elem. apply elem_of_seqZ in Hn.
  have Hn' : 0 < n ≤ head by lia. destruct (rd_stored d Hd n ev Hn' Hev Hg) as [H1 H2].
  destruct (rd_fillable d Hd n ev Hn' Hev Hg) as (data' & He' & Hl). have -> : data = data' by congruence.
  split_and!; [done| |done| |done].
  - apply wrap64_range.
  - rw length_go_copy /zeros length_replicate //.
Qed.

Lemma store_batch d fin blobs ks ds ms :
  ready d → d_lastDownloadBlock d < fin ≤ head →
  map plain blobs = chain_blobs (d_sm d) (d_lastDownloadBlock d) fin →
  foldl add_blob ([], [], []) blobs = (ks, ds, ms) →
  ∃ s', DownloadFinished (order ks) fin ks ds ms (d_sm d) = (Ret tt, s') ∧
    s_localL1 s' = fin ∧ s_DownloadThreadNum s' = s_DownloadThreadNum (d_sm d) ∧
    stored_blobs (s_shardManager (d_sm d)) (map plain blobs) (s_shardManager s').
Proof using Horder HR.
  intros Hd Hfin Hb. rw -add_blobs_plain Hb => Ef. set l := chain_blobs _ _ _ in Hb Ef *.
  have Hel x (Hx : x ∈ l) := chain_blobs_elem d _ _ x Hd (rd_last d Hd) (proj2 Hfin) Hx.
  have HB : batch_of l ks ds ms.
  { pose proof (add_blob_batch l) as HB. rw Ef in HB. apply HB, Forall_forall. intros x Hx.
    by destruct (Hel x Hx) as (_ & _ & ? & _). }
  destruct HB as [B1 B2 B3 B4 B5].
  have Hfrom i k : ks !! i = Some k → ∃ x, x ∈ l ∧ latest k l = Some x ∧
    ds !! i = Some (default [] (b_data x)) ∧ ms !! i = Some (blob_meta x) ∧ kv_u64 x = k.
  { intros Hi. destruct (B5 i k Hi) as (x & L & D & M). destruct (latest_elem _ _ _ L).
    by exists x. }
  have Hpos A (m : list A) i y : length ks = length m → m !! i = Some y → ∃ k, ks !! i = Some k.
  { intros El Hy. apply lookup_lt_is_Some_2. rw El. exact (lookup_lt_Some _ _ _ Hy). }
  destruct (hr_count HR (s_requests (d_sm d)) fin) as (count & Hc & Hc0); [pose proof (rd_last d Hd); lia|].
  destruct (DownloadFinished_ok (d_sm d) (order ks) fin ks ds ms count (rd_wf d Hd) (rd_threads d Hd) B3 B1 B2)
    as (s' & E & E1 & _ & EW & _).
  { intros k Hk. apply list_elem_of_lookup in Hk as [i Hi]. destruct (Hfrom i k Hi) as (x & Hx & _ & _ & _ & <-).
    by destruct (Hel x Hx) as (? & ? & _). }
  { apply Forall_lookup_2. intros i y Hy. destruct (Hpos _ ds i y B1 Hy) as [k Hk].
    destruct (Hfrom i k Hk) as (x & Hx & _ & Hy' & _). have [= ->] := eq_trans (eq_sym Hy) Hy'.
    destruct (Hel x Hx) as (_ & _ & _ & Hz). lia. }
  { apply Forall_lookup_2. intros i y Hy. destruct (Hpos _ ms i y ltac:(by rw B1) Hy) as [k Hk].
    destruct (Hfrom i k Hk) as (x & Hx & _ & _ & Hy' & _). have [= ->] := eq_trans (eq_sym Hy) Hy'.
    by rw /blob_meta length_go_copy /zeros length_replicate. }
  { apply Horder. }
  { done. }
  { done. }
  { pose proof (rd_view d Hd). lia. }
  destruct (DownloadFinished_shape _ _ _ _ _ _ _ _ E) as [HS HT].
  exists s'. split_and!; [done..|]. destruct EW as [W1 W2 W3 W4 W5]. constructor; try done.
  - intros k x Hx. have Hk : k ∈ ks.
    { apply B4, list_elem_of_fmap. destruct (latest_elem _ _ _ Hx) as [? <-]. by exists x. }
    apply list_elem_of_lookup in Hk as [i Hi]. destruct (Hfrom i k Hi) as (x' & _ & Hx' & Hdi & Hmi & _).
    have Ex : x' = x by congruence. subst x'.
    have Hidx A (m : list A) y : m !! i = Some y → index m (Z.of_nat i) = Ret y.
    { intros Hy. by rw /index (proj2 (Z.leb_le _ _)); [lia|]; rw Nat2Z.id Hy. }
    apply (W4 (Z.of_nat i)); [|by apply Hidx..].
    apply elem_of_seqZ. apply lookup_lt_Some in Hi. rw /zlen. lia.
  - intros k Hk. apply W5. rw B4. by apply latest_None.
Qed.

Lemma finish_range_ok d fin blobs :
  ready d → d_lastDownloadBlock d < fin ≤ head →
  map plain blobs = chain_blobs (d_sm d) (d_lastDownloadBlock d) fin →
  ∃ d', finish_range order fin blobs d = (Ret true, d') ∧ ready d' ∧
    d_lastDownloadBlock d' = fin ∧ d_last d' = Some (PutUint64 fin) ∧ d_cache d' = d_cache d ∧
    s_localL1 (d_sm d') = fin ∧
    stored_blobs (s_shardManager (d_sm d)) (map plain blobs) (s_shardManager (d_sm d')).
Proof using Horder HR HN.
  intros Hd Hfin Hb. rw /finish_range.
  destruct (foldl add_blob ([], [], []) blobs) as [[ks ds] ms] eqn:Ef.
  destruct (store_batch d fin blobs ks ds ms Hd Hfin Hb Ef) as (s' & E & E1 & E2 & HSB).
  rw {1}/mbind /st_bind /st_catch /on_manager E.
  rw {1}/mbind /st_get. rw {1}/mbind /st_put. rw {1}/mbind /st_bind /ask (hr_db HR).
  rw {1}/mbind /st_bind. rw {1}/mbind /st_bind. rw {1}/mbind /st_bind. rw (hr_db HR).
  rw {1}/mbind /st_bind. rw {1}/mbind /st_bind. rw {1}/mbind /st_bind /dumpBlobsIfNeeded.
  have Hw : wrap64 fin = fin.
  { pose proof (hn_head HN). pose proof (rd_last d Hd). apply wrap64_small.
    rw /downloadBatchSize /two63 /two64 in H *. lia. }
  case_bool_decide; simpl; rw (rd_dump d Hd) /mbind /st_bind /mret /st_ret Hw;
    (eexists; split; [reflexivity|]); simpl;
    (split; [|done]); apply (ready_next d); try done; try apply HSB; simpl; pose proof (rd_last d Hd); lia.
Qed.

Lemma chain_blobs_split s a b c :
  a ≤ b ≤ c → chain_blobs s a c = chain_blobs s a b ++ chain_blobs s b c.
Proof using.
  intros Hab. rw /chain_blobs -bind_app. f_equal.
  have -> : c - a = (b - a) + (c - b) by lia. rw seqZ_app; [lia..|]. do 2 f_equal. lia.
Qed.

Lemma chain_blobs_shape s s' a b :
  same_shape (s_shardManager s) (s_shardManager s') → chain_blobs s' a b = chain_blobs s a b.
Proof using.
  intros HS. rw /chain_blobs. induction (seqZ _ _) as [|n l IH]; [done|].
  by rw !bind_cons IH (expected_shape _ _ _ HS).
Qed.

Lemma ready_later d d' : later d d' → ready d → ready d'.
Proof using.
  intros (Ecache & Esm & Ebc & Eda & Eld & Edump & _)%later_fields Hd. pose proof Hd as [].
  apply (ready_next d); rw ?Esm ?Eld //; apply same_shape_refl.
Qed.

Lemma download_loop_ok fuel : ∀ d,
  ready d → d_lastDownloadBlock d ≤ head → (Z.to_nat (head - d_lastDownloadBlock d) ≤ fuel)%nat →
  ∃ d', download_loop fuel order head d = (Ret true, d') ∧ ready d' ∧ d_lastDownloadBlock d' = head ∧
    d_cache d' = d_cache d ∧
    (d_lastDownloadBlock d < head → s_localL1 (d_sm d') = head ∧ d_last d' = Some (PutUint64 head)) ∧
    stored_blobs (s_shardManager (d_sm d)) (chain_blobs (d_sm d) (d_lastDownloadBlock d) head)
      (s_shardManager (d_sm d')).
Proof using Horder HR HN.
  pose proof (hn_head HN) as Hh.
  have Hdone d : ready d → d_lastDownloadBlock d = head → stored_blobs (s_shardManager (d_sm d))
    (chain_blobs (d_sm d) (d_lastDownloadBlock d) head) (s_shardManager (d_sm d)).
  { intros Hd ->. rw /chain_blobs Z.sub_diag /=. apply stored_blobs_nil, Hd. }
  induction fuel as [|fuel IH]; intros d Hd Hle Hfuel; cbn [download_loop].
  - rw (proj2 (Z.ltb_ge _ _)); [lia|]. exists d. have E : d_lastDownloadBlock d = head by lia.
    split_and!; [done..|lia|by apply Hdone].
  - case: Z.ltb_spec => Hlt; last first.
    { exists d. have E : d_lastDownloadBlock d = head by lia. split_and!; [done..|lia|by apply Hdone]. }
    have H0 := rd_last d Hd.
    rw !int64_small; [rw /downloadBatchSize /two63 in Hh *; lia..|].
    set last := d_lastDownloadBlock d in Hlt Hle Hfuel H0 *.
    set e := Z.min (last + downloadBatchSize) head.
    have He : last + 1 ≤ e ≤ head by rw /e /downloadBatchSize; lia.
    destruct (downloadRange_ok HN (last + 1) e d (rd_source d Hd) (rd_fillable d Hd) (rd_coherent d Hd))
      as (res & d1 & L1' & E1 & P1); [lia..|]. rw E1.
    destruct (later_fields _ _ L1') as (Ecache & Esm & _ & _ & Eld & _).
    have Hd1 := ready_later _ _ L1' Hd.
    have P1' : map plain res = chain_blobs (d_sm d1) (d_lastDownloadBlock d1) e.
    { rw P1 Esm Eld /chain_blobs -/last. do 2 f_equal. lia. }
    destruct (finish_range_ok d1 e res Hd1) as (d2 & E2 & Hd2 & Elast & Erec & Ec2 & El2 & SB);
      [rw Eld -/last; lia|done|]. rw E2.
    destruct (IH d2 Hd2) as (d3 & E3 & Hd3 & El3 & Ec3 & Ev3 & SB3); [lia..|].
    exists d3. split_and!; [done..|by rw Ec3 Ec2| |].
    + intros _. destruct (decide (e < head)) as [Hlt'|Hge]; [by apply Ev3; rw Elast|].
      have Ee : e = head by lia. have Hf : (d_lastDownloadBlock d2 <? head) = false by apply Z.ltb_ge; lia.
      have [= <-] : (@Ret bool true, d2) = (Ret true, d3) by rw -E3; destruct fuel; cbn [download_loop]; rw Hf.
      by rw El2 Erec Ee.
    + rw (chain_blobs_split _ last e head); [lia|]. rw P1' Esm Eld in SB.
      apply (stored_blobs_app _ _ (s_shardManager (d_sm d2))); [|done|].
      * intros b Hb. by destruct (chain_blobs_elem d last e b Hd H0 ltac:(lia) Hb).
      * by rw Elast (chain_blobs_shape (d_sm d)) in SB3; [apply SB|].
Qed.

(** C3: one run of [download] over the finalized blocks.  When the last download
    is more than the retention time ago nothing happens.  Otherwise, with an L1
    node that reports the chain, a server that has its blobs and a cache that
    agrees with the chain, the run ends at the finalized head with that block on
    record, every KV of the finalized blocks stores the encoded blob of its last
    event under the commit of that event, every other KV keeps its record, and the
    cache has dropped the finalized blocks and nothing else.  As many rounds as
    there are blocks are enough. *)
Theorem download_spec fuel d :
  ready d → cache_ok (d_cache d) → d_finalizedHead d = head → d_lastDownloadBlock d ≤ head →
  0 ≤ d_minDuration d < two63 → (Z.to_nat (head - d_lastDownloadBlock d) ≤ fuel)%nat →
  (0 < d_lastDownloadBlock d ∧ d_minDuration d < head - d_lastDownloadBlock d →
     download fuel order d = (Ret tt, d)) ∧
  (d_lastDownloadBlock d = 0 ∨ head - d_lastDownloadBlock d ≤ d_minDuration d →
     ∃ d', download fuel order d = (Ret tt, d') ∧ ready d' ∧ d_lastDownloadBlock d' = head ∧
       (d_lastDownloadBlock d < head →
          s_localL1 (d_sm d') = head ∧ d_last d' = Some (PutUint64 head)) ∧
       stored_blobs (s_shardManager (d_sm d)) (chain_blobs (d_sm d) (d_lastDownloadBlock d) head)
         (s_shardManager (d_sm d')) ∧
       ∀ n, cached (d_cache d') n = if decide (n ≤ head) then None else cached (d_cache d) n).
Proof using Horder HR HN CL.
  intros Hd Hok Efin Hle Hmin Hfuel. have Hh := hn_head HN. have H0 := rd_last d Hd.
  have I1 : int64 (d_minDuration d) = d_minDuration d by apply int64_small; rw /two63 in Hmin *; lia.
  have I2 : int64 (head - d_lastDownloadBlock d) = head - d_lastDownloadBlock d
    by apply int64_small; rw /downloadBatchSize /two63 in Hh *; lia.
  rw /download Efin I1 I2. split.
  { intros [H1 H2]. by rw (proj2 (Z.ltb_lt _ _) H1) (proj2 (Z.ltb_lt _ _) H2). }
  intros Hcase. have -> : (0 <? d_lastDownloadBlock d) && (d_minDuration d <? head - d_lastDownloadBlock d) = false.
  { apply andb_false_iff. rw !Z.ltb_ge. lia. }
  destruct (download_loop_ok fuel d Hd Hle Hfuel) as (d1 & -> & Hd1 & El & Ec & Ev & SB).
  rw wrap64_small; [rw /downloadBatchSize /two63 /two64 in Hh *; lia|].
  have Hok1 : cache_ok (d_cache d1) by rw Ec.
  destruct (Cleanup_law head (d_cache d1) Hok1) as [_ Hc].
  eexists. split; [reflexivity|]. split_and!; try done.
  - pose proof Hd1 as []. constructor; try done.
    intros n Hn. rw /= Hc. case_decide; [by left|lia].
  - intros n. by rw /= Hc Ec.
Qed.

End batch.

(** Blocks are looked up in the cache by number only.  When every block of
    the range that has events is in the cache, [downloadRange] returns the cached
    blobs, whatever the events of the finalized blocks say: blobs cached from a
    block that was reorganized away are returned, and then stored, in place of
    those of the finalized block of the same number. *)
Theorem downloadRange_trusts_cache (old : Z → list blob) start fin toCache d :
  honest_node → 0 < start ≤ fin → fin ≤ head →
  (∀ n, start ≤ n ≤ fin → chain n ≠ [] → Blobs (d_cache d) n = Some (old n)) →
  ∃ d', later d d' ∧ downloadRange start fin toCache d =
    (Ret (seqZ start (fin - start + 1) ≫= λ n, if decide (chain n = []) then [] else old n), d').
Proof using.
  intros HN Hs Hf Hold. rw /downloadRange (proj2 (Z.ltb_ge _ _)); [lia|].
  rw /mbind /st_bind /ask (hn_logs HN) //.
  destruct (eventsToBlocks_ok HN start fin (bump d) Hs Hf) as (d1 & Hl1 & ->).
  have Hl := later_trans _ _ _ (later_bump d) Hl1. exists d1. split; [done|].
  destruct (later_fields _ _ Hl) as (Ecache & _).
  have Hgen : ∀ l blobs, (∀ n, n ∈ l → start ≤ n ≤ fin) →
    st_foldM (download_block toCache) blobs (el_blocks l) d1 =
      (Ret (blobs ++ (l ≫= λ n, if decide (chain n = []) then [] else old n)), d1).
  { induction l as [|n l IH]; intros blobs Hn; [by rw app_nil_r|].
    have Hn' n' : n' ∈ l → _ := λ H, Hn n' (list_elem_of_further _ _ _ H).
    rw el_blocks_cons bind_cons. case_decide as Ec; [by apply IH|].
    have HB : download_block toCache blobs (el_block n) d1 = (Ret (blobs ++ old n), d1).
    { rw /download_block /mbind /st_bind /st_get. cbn [bb_number el_block].
      by rw Ecache (Hold n (Hn n (list_elem_of_here _ _)) Ec). }
    rw st_foldM_cons /mbind /st_bind HB IH //.
    by rw app_assoc. }
  apply (Hgen _ []). intros n [? ?]%elem_of_seqZ. lia.
Qed.

End chain.

(** A range whose logs cannot be read is asked for again at once, without
    end: as long as the node refuses, [download] does not return, whatever the
    number of rounds, although the failed range is meant to wait for the next
    task. *)
Theorem download_spins {C} `{BlobCache C} `{Geth} `{Il1Source} `{L1Node} `{BlobServers}
    order (d : Downloader C) :
  (∀ req a b, ∃ e, FilterLogsByBlockRange req a b = Fail e) →
  d_lastDownloadBlock d < d_finalizedHead d →
  d_lastDownloadBlock d = 0 ∨
    int64 (d_finalizedHead d - d_lastDownloadBlock d) ≤ int64 (d_minDuration d) →
  ∀ fuel, ∃ d', later d d' ∧ download fuel order d = (Panic OutOfFuel, d').
Proof.
  intros HF Hlt Hcase fuel. rw /download.
  have -> : (0 <? d_lastDownloadBlock d) &&
    (int64 (d_minDuration d) <? int64 (d_finalizedHead d - d_lastDownloadBlock d)) = false.
  { apply andb_false_iff. rw !Z.ltb_ge. lia. }
  enough (∀ d0 : Downloader C, d_lastDownloadBlock d0 = d_lastDownloadBlock d →
    ∃ d', later d0 d' ∧ download_loop fuel order (d_finalizedHead d) d0 = (Panic OutOfFuel, d')) as HL.
  { destruct (HL d eq_refl) as (d' & ? & ->). by exists d'. }
  induction fuel as [|fuel IH]; intros d0 E; cbn [download_loop]; rw E (proj2 (Z.ltb_lt _ _) Hlt).
  { exists d0. split; [apply later_refl|done]. }
  rw /downloadRange /mbind /st_bind /ask.
  match goal with |- context [FilterLogsByBlockRange ?r ?a ?b] => destruct (HF r a b) as [e ->] end.
  destruct (IH (bump d0) E) as (d' & Hl & ->). exists d'. split; [|done].
  by apply (later_trans _ (bump d0)); [apply later_bump|].
Qed.

(** ** A chain: blocks 6 and 7 both put KV 3 *)

Definition ex_old : bytes := Eval vm_compute in from_ret [] (BlobToVersionedHash [1]).
Definition ex_new : bytes := Eval vm_compute in from_ret [] (BlobToVersionedHash [9; 8; 7]).

Lemma ex_old_hash : BlobToVersionedHash [1] = Ret ex_old.
Proof. by vm_compute. Qed.

Lemma ex_new_hash : BlobToVersionedHash [9; 8; 7] = Ret ex_new.
Proof. by vm_compute. Qed.

Definition ex_log (n : Z) (hash : bytes) : Log :=
  mkLog n [zeros 32; be_encode 32 3; be_encode 32 128; hash].

Definition ex_chain (n : Z) : list Log :=
  if n =? 6 then [ex_log 6 ex_old] else if n =? 7 then [ex_log 7 ex_new] else [].

Definition ex_data (h : bytes) : bytes := if bool_decide (h = ex_old) then [1] else [9; 8; 7].

#[local] Existing Instance ex_l1.

#[local] Instance ex_node : L1Node := {
  FilterLogsByBlockRange _ a b := Ret (logs_between ex_chain a b);
  HeaderByNumber _ n := Ret (n, 12 * n);
  db_Put _ := Ret tt;
  SendEmail _ := false }.

#[local] Instance ex_servers : BlobServers := {
  BeaconGet _ _ _ := Fail (ErrMsg "no beacon node");
  DAGet _ h := Ret (ex_data h) }.

Definition ex_downloader (c : BlobMemCache) (finalized : Z) : Downloader BlobMemCache :=
  mkDownloader c ex_s None true None None 5 0 finalized 7 false 100 0 false false false 0.

Lemma ex_chain_elem n ev : ev ∈ ex_chain n →
  n = 6 ∧ ev = ex_log 6 ex_old ∨ n = 7 ∧ ev = ex_log 7 ex_new.
Proof.
  rw /ex_chain. case: Z.eqb_spec => [-> |_]; [intros ->%list_elem_of_singleton; by left|].
  case: Z.eqb_spec => [-> |_]; [intros ->%list_elem_of_singleton; by right|by intros ?%not_elem_of_nil].
Qed.

Lemma ex_honest_node : honest_node ex_chain (Z.mul 12) 7.
Proof.
  constructor; try done.
  - by intros n ev [[-> ->]|[-> ->]]%ex_chain_elem.
  - intros n ev [[-> ->]|[-> ->]]%ex_chain_elem; simpl; lia.
Qed.

Lemma ex_honest_rest : honest_rest 7.
Proof. constructor; [|done]. intros req n _. by exists 4. Qed.

Lemma ex_data_old : ex_data ex_old = [1].
Proof. by rw /ex_data bool_decide_eq_true_2. Qed.

Lemma ex_data_new : ex_data ex_new = [9; 8; 7].
Proof. rw /ex_data bool_decide_eq_false_2 //. Qed.

Lemma ex_hash n h : length h = 32%nat → b_hash (el_blob (ex_log n h)) = h.
Proof. intros Hh. by rw /= go_copy_full // /zeros length_replicate. Qed.

Lemma ex_source c f : honest_source ex_chain (Z.mul 12) ex_data 7 (ex_downloader c f).
Proof.
  intros n d' _ E1 E2.
  have HD h hash d0 : length h = 32%nat → BlobToVersionedHash (ex_data h) = Ret h →
    hash = [b_hash (el_blob (ex_log n h))] →
    DAClient_DownloadBlobs d0 hash = Ret {[h := mkBlob h (ex_data h)]}.
  { intros Hl Hh ->. rw ex_hash // /DAClient_DownloadBlobs foldM_one /DownloadBlob.
    cbn [DAGet ex_servers mbind gores_bind]. rw Hh. cbn [mbind gores_bind].
    rw (bool_decide_eq_true_2 (h = h)); reflexivity. }
  rw /downloadBlobs E1 E2. cbn [d_l1Beacon d_daClient ex_downloader].
  destruct (decide (n = 6)) as [-> |N6]; [|destruct (decide (n = 7)) as [-> |N7]].
  - eexists. split; [rw /ask (HD ex_old); [reflexivity|rw ex_data_old; exact ex_old_hash|reflexivity|reflexivity]|].
    intros ev ->%list_elem_of_singleton. rw ex_hash // lookup_singleton_eq. by eexists.
  - eexists. split; [rw /ask (HD ex_new); [reflexivity|rw ex_data_new; exact ex_new_hash|reflexivity|reflexivity]|].
    intros ev ->%list_elem_of_singleton. rw ex_hash // lookup_singleton_eq. by eexists.
  - exists ∅. have Ec : ex_chain n = [].
    { rw /ex_chain. by rw (proj2 (Z.eqb_neq _ _) N6) (proj2 (Z.eqb_neq _ _) N7). }
    rw /el_block Ec. split; [done|]. by intros ev ?%not_elem_of_nil.
Qed.

Lemma ex_fillable : fillable ex_chain ex_data 7 ex_s.
Proof.
  intros n ev _ [[-> ->]|[-> ->]]%ex_chain_elem _; rw /encoded ex_hash // ?ex_data_old ?ex_data_new.
  - eexists (from_ret [] (EncodeBlob ex_s [1] ex_old 3 128)). by vm_compute.
  - eexists (from_ret [] (EncodeBlob ex_s [9; 8; 7] ex_new 3 128)). by vm_compute.
Qed.

Lemma ex_coherent f : coherent ex_chain ex_data 7 ex_s (d_cache (ex_downloader ∅ f)).
Proof. intros n _. left. by rw /cached /= /mem_Blobs lookup_empty. Qed.

Lemma ex_cache_ok f : cache_ok (d_cache (ex_downloader ∅ f)).
Proof. intros n bb. by rw lookup_empty. Qed.

Lemma ex_ready : ready ex_chain (Z.mul 12) ex_data 7 (ex_downloader ∅ 7).
Proof.
  constructor; try done.
  - exact ex_sm_wf.
  - apply ex_source.
  - exact ex_fillable.
  - apply ex_coherent.
  - intros n ev _ [[-> ->]|[-> ->]]%ex_chain_elem _; (split; [apply ex_stored; by right|done]).
Qed.

Definition ex_order (ks : list Z) : list Z := seqZ 0 (zlen ks).

Lemma download_spec_witness :
  ∃ d' data, EncodeBlob ex_s [9; 8; 7] ex_new 3 128 = Ret data ∧
    download 2 ex_order (ex_downloader ∅ 7) = (Ret tt, d') ∧ d_lastDownloadBlock d' = 7 ∧
    s_localL1 (d_sm d') = 7 ∧
    blob_at (s_shardManager (d_sm d')) 3 data (go_copy (zeros 32) (take 24 ex_new)).
Proof.
  destruct (download_spec ex_chain (Z.mul 12) ex_data 7 ex_order (λ ks, reflexivity _) ex_honest_node
    ex_honest_rest 2 (ex_downloader ∅ 7) ex_ready (ex_cache_ok 7)) as [_ H].
  - reflexivity.
  - done.
  - done.
  - simpl. lia.
  - destruct H as (d' & H1 & _ & H2 & H3 & H4 & _); [right; simpl; lia|].
    have [data [He Hl]] : ∃ data, EncodeBlob ex_s [9; 8; 7] ex_new 3 128 = Ret data ∧
      latest 3 (chain_blobs ex_chain ex_data ex_s 5 7) = Some (mkCBlob 3 128 ex_new (Some data) 0).
    { exists (from_ret [] (EncodeBlob ex_s [9; 8; 7] ex_new 3 128)). split; by vm_compute. }
    exists d', data. split; [exact He|]. split; [exact H1|]. split; [exact H2|].
    split; [apply H3; simpl; lia|]. exact (sb_latest _ _ _ H4 3 _ Hl).
Defined.

Lemma downloadToCache_spec_witness :
  ∃ d', downloadToCache 2 (ex_downloader ∅ 5) = (Ret tt, d') ∧ d_lastCacheBlock d' = 7 ∧
    cached (d_cache d') 7 = Some (expected ex_chain ex_data ex_s 7).
Proof.
  have E : d_lastCacheBlock (downloadToCache 2 (ex_downloader ∅ 5)).2 = 7 by vm_compute.
  destruct (downloadToCache_spec ex_chain (Z.mul 12) ex_data 7 2 (ex_downloader ∅ 5) ex_honest_node
    (ex_source _ _) ex_fillable (ex_cache_ok 5) (ex_coherent 5)) as (d' & H1 & _ & _ & _ & H2).
  - done.
  - done.
  - done.
  - intros n ev _ [[-> ->]|[-> ->]]%ex_chain_elem; by rw /managed; apply (bool_decide_unpack _); vm_compute.
  - simpl. lia.
  - rw H1 in E. exists d'. split; [exact H1|]. split; [exact E|]. apply H2; [|done].
    simpl in E |- *. rw E. simpl. lia.
Defined.

(** Block 7 as cached before a reorganization. *)
Definition ex_stale : blob := mkCBlob 3 128 ex_old (Some [1]) 0.

Lemma downloadRange_trusts_cache_witness :
  ∃ d', downloadRange 7 7 false (ex_downloader {[7 := mkBlockBlobs 84 7 [ex_stale]]} 7) =
          (Ret [ex_stale], d') ∧ map b_hash (map el_blob (ex_chain 7)) = [ex_new] ∧ ex_new ≠ ex_old.
Proof.
  destruct (downloadRange_trusts_cache ex_chain (Z.mul 12) 7 (λ _, [ex_stale]) 7 7 false
    (ex_downloader {[7 := mkBlockBlobs 84 7 [ex_stale]]} 7) ex_honest_node) as (d' & _ & H); [done..| |].
  - intros n Hn _. have -> : n = 7 by lia. by vm_compute.
  - exists d'. split; [exact H|]. split; by vm_compute.
Defined.

Definition ex_deaf : L1Node := {|
  FilterLogsByBlockRange _ _ _ := Fail (ErrMsg "connection refused");
  HeaderByNumber _ _ := Fail (ErrMsg "connection refused");
  db_Put _ := Ret tt;
  SendEmail _ := false |}.

Lemma download_spins_witness :
  ∃ d', @download _ _ _ _ ex_deaf _ 100 ex_order (ex_downloader ∅ 7) = (Panic OutOfFuel, d').
Proof.
  destruct (@download_spins _ _ _ _ ex_deaf _ ex_order (ex_downloader ∅ 7)) with (fuel := 100%nat)
    as (d' & _ & H).
  - intros. by eexists.
  - done.
  - by right.
  - by exists d'.
Defined.
