(* ===== verification/MetaView.v ===== *)
(** * The shared metadata view (storage_manager.go)

    The metadata workers of [downloadMetaInParallel] run while new finalized
    blocks arrive.  A worker reads the view under the lock, asks the L1 node
    without the lock, takes the lock again and stores the answer only if the
    view has not moved.  The steps of the workers and of [DownloadFinished], on the
    batches of [downloadRange], interleave freely; [Reset] comes before there are
    any records. *)

From S2P Require Import Prelude Extern Bits DataFile ChunkCodec DataShard ShardManager StorageManager.
From S2P Require Import KvStore BlobSources BlobCache Downloader DownloaderFacts.

(** A worker between two critical sections: it still has to fetch [from, to), or
    it holds an answer for the block [l1] it read. *)
Inductive worker :=
| Ready (from to : Z)
| Answered (from to lim l1 : Z) (metas : list bytes).

(** The first critical section and the request that follows it. *)
Definition worker_ask `{Il1Source} (batchSize : Z) (w : worker) : ST StorageManager worker :=
  match w with
  | Answered _ _ _ _ _ => mret w
  | Ready from to =>
      if to <=? from then mret w
      else
        s ← st_get;
        let lim := Z.min (Z.min (add64 from batchSize) to) (s_kvEntryCount s) in
        metas ← ask_retry 10 (seqZ from (lim - from)) (s_localL1 s);
        mret (Answered from to lim (s_localL1 s) metas)
  end.

(** The second critical section: a stale answer is dropped and asked again. *)
Definition worker_store (w : worker) : ST StorageManager worker :=
  match w with
  | Ready _ _ => mret w
  | Answered from to lim l1 metas =>
      s ← st_get;
      if negb (l1 =? s_localL1 s) then mret (Ready from to)
      else
        _ ← store_metas (seqZ from (lim - from)) metas;
        mret (Ready lim to)
  end.

(** The KVs the downloader keeps: [downloadRange] skips the events of others. *)
Definition kv_managed (s : StorageManager) (k : Z) : Prop :=
  Z.shiftr k (sm_kvEntriesBits (s_shardManager s)) ∈ Shards s.

Lemma kv_managed_shape s s' k :
  same_shape (s_shardManager s) (s_shardManager s') → kv_managed s' k ↔ kv_managed s k.
Proof. intros HS. rw /kv_managed (ssh_bits _ _ HS). by apply Shards_shape. Qed.

Section view.
Context {C : Type} {CA : BlobCache C} `{GE : Geth} `{L1 : Il1Source} `{LN : L1Node} `{BS : BlobServers}.
Context (chain : Z → list Log) (btime : Z → Z) (blob_data : bytes → bytes) (head : Z).
Context (truth : Z → Z → bytes) (batchSize : Z).
Implicit Types d : Downloader C.

(** The events of the blocks after [a] up to [b]. *)
Definition logged (a b : Z) : list blob := map el_blob (seqZ (a + 1) (b - a) ≫= chain).

(** The contract logs every change of a record: the record of a KV is the one of its
    last event, and without an event it stays. *)
Definition contract_logs : Prop := ∀ a b k, 0 ≤ a < b → b ≤ head →
  match latest k (logged a b) with
  | Some x => ∀ m, index_meta k (blob_meta x) = Ret m → m = truth b k
  | None => truth b k = truth a k
  end.

(** The blob server has the blobs of the chain, they can be encoded, and the cache
    agrees with the chain. *)
Definition can_download d : Prop :=
  honest_source chain btime blob_data head d ∧ fillable chain blob_data head (d_sm d) ∧
  coherent chain blob_data head (d_sm d) (d_cache d).

(** The batch of a finalized range is what [downloadRange] gave for the blocks after
    [last], in a state [d] of the downloader with the same shards. *)
Inductive view_step : StorageManager * list worker → StorageManager * list worker → Prop :=
| step_ask s s' ws i w w' :
    ws !! i = Some w → worker_ask batchSize w s = (Ret w', s') →
    view_step (s, ws) (s', <[i := w']> ws)
| step_store s s' ws i w w' :
    ws !! i = Some w → worker_store w s = (Ret w', s') →
    view_step (s, ws) (s', <[i := w']> ws)
| step_finalized s s' ws d d1 last newL1 blobs order ks bs cs :
    same_shape (s_shardManager (d_sm d)) (s_shardManager s) → can_download d →
    0 ≤ last ≤ s_localL1 s → last < newL1 ≤ head →
    downloadRange (last + 1) newL1 false d = (Ret blobs, d1) →
    foldl add_blob ([], [], []) blobs = (ks, bs, cs) →
    DownloadFinished order newL1 ks bs cs s = (Ret tt, s') →
    view_step (s, ws) (s', ws)
| step_refused s s' ws newL1 order ks bs cs e :
    DownloadFinished order newL1 ks bs cs s = (Fail e, s') →
    view_step (s, ws) (s', ws)
| step_reset s s' ws newL1 r :
    s_blobMetas s = ∅ → Reset newL1 s = (r, s') →
    view_step (s, ws) (s', ws).

(** Every record of a managed KV is the contract's record at the local block, and
    every answer in flight is the contract's at the block it was asked for. *)
Definition view_true (x : StorageManager * list worker) : Prop :=
  (∀ k m, kv_managed x.1 k → s_blobMetas x.1 !! k = Some m → m = truth (s_localL1 x.1) k) ∧
  (∀ i from to lim l1 ms, x.2 !! i = Some (Answered from to lim l1 ms) →
     ms = truth l1 <$> seqZ from (lim - from)).

(** *** The batch *)

Lemma latest_meta_app k l l' :
  blob_meta <$> latest k (l ++ l') =
    match blob_meta <$> latest k l' with Some m => Some m | None => blob_meta <$> latest k l end.
Proof using. rw latest_app_l. by destruct (latest k l'). Qed.

Lemma latest_meta_cons k x l :
  blob_meta <$> latest k (x :: l) =
    match blob_meta <$> latest k l with
    | Some m => Some m
    | None => if decide (kv_u64 x = k) then Some (blob_meta x) else None
    end.
Proof using.
  rw (latest_meta_app k [x] l). destruct (blob_meta <$> latest k l); [done|].
  rw /latest filter_cons filter_nil. by case_decide.
Qed.

(** For a managed KV the batch has the last event. *)
Lemma latest_expected s k l :
  fillable chain blob_data head s → kv_managed s k → (∀ n, n ∈ l → 0 < n ≤ head) →
  blob_meta <$> latest k (l ≫= expected chain blob_data s) = blob_meta <$> latest k (map el_blob (l ≫= chain)).
Proof using.
  intros HF Hk. induction l as [|n l IH]; intros Hl; [done|].
  rw !bind_cons map_app !latest_meta_app IH; [intros; by apply Hl, list_elem_of_further|].
  have Hn := Hl n (list_elem_of_here _ _). destruct (blob_meta <$> latest k (map el_blob (l ≫= chain))); [done|].
  have He ev : ev ∈ chain n → managed s ev → ∃ data, encoded blob_data s ev = Ret data.
  { intros H1 H2. destruct (HF n ev Hn H1 H2) as (data & H3 & _). by exists data. }
  rw /expected. clear IH Hl. induction (chain n) as [|ev evs IH]; [done|].
  specialize (IH (λ ev' H, He ev' (list_elem_of_further _ _ _ H))).
  cbn [omap list_omap map]. rw latest_meta_cons -IH.
  destruct (expected_blob blob_data s ev) as [b|] eqn:E; rw /expected_blob in E; case_decide as Hg.
  - destruct (encoded blob_data s ev); [|done..]. injection E as <-. by rw latest_meta_cons.
  - done.
  - destruct (He ev (list_elem_of_here _ _) Hg) as [data Hd]. by rw Hd in E.
  - destruct (blob_meta <$> _); [done|]. rw decide_False //. intros Ek. apply Hg. by rw /managed Ek.
Qed.

Context (Hfaith : l1_faithful truth).

Lemma ask_retry_inv r ks block s ms s' :
  ask_retry r ks block s = (Ret ms, s') →
  ms = truth block <$> ks ∧ s_blobMetas s' = s_blobMetas s ∧ s_localL1 s' = s_localL1 s ∧
  s_shardManager s' = s_shardManager s.
Proof using Hfaith.
  revert s. induction r as [|r IH]; intros s; rw /ask_retry /ask_KvMetas;
    destruct (Hfaith (s_requests s) ks block) as [[e ->]| ->].
  - done.
  - intros [= <- <-]. done.
  - intros HR. by apply IH in HR.
  - intros [= <- <-]. done.
Qed.

(** What [DownloadFinished] does to the metadata when it succeeds, whatever the
    writes do: every record afterwards is a record of the batch, or an old one
    of a KV outside the batch. *)
Lemma put_metas_inv m ks cs m' :
  length ks = length cs → foldM put_meta m (zip ks cs) = Ret m' →
  ∀ k r, m' !! k = Some r →
    (∃ c, (k, c) ∈ zip ks cs ∧ index_meta k c = Ret r) ∨ ((k ∉ ks) ∧ m !! k = Some r).
Proof using.
  revert m cs. induction ks as [|k0 ks IH]; intros m [|c cs] Hl; [|done..|].
  { intros [= <-] k r Hk. right. split; [apply not_elem_of_nil|done]. }
  rw /= foldM_cons.
  have -> : put_meta m (k0, c) = (meta ← index_meta k0 c; mret (<[k0 := meta]> m)) by done.
  destruct (index_meta k0 c) as [meta| |] eqn:Em; [|done..]. simpl in *. intros HF k r Hk.
  destruct (IH (<[k0 := meta]> m) cs ltac:(lia) HF k r Hk) as [(c' & Hin & Hc')|[Hn Hlk]].
  - left. exists c'. split; [by apply list_elem_of_further|done].
  - destruct (decide (k = k0)) as [->|Hne].
    + rw lookup_insert_eq in Hlk. injection Hlk as <-. left. exists c.
      split; [apply list_elem_of_here|done].
    + rw lookup_insert_ne in Hlk; [congruence|]. right. split; [|done].
      apply not_elem_of_cons. done.
Qed.

Lemma on_sm_metas {A} (op : ST ShardManager A) s r s1 :
  on_sm op s = (r, s1) → s_blobMetas s1 = s_blobMetas s.
Proof using. rw /on_sm. destruct (op (s_shardManager s)). by intros [= _ <-]. Qed.

Lemma DownloadFinished_inv order newL1 ks bs cs s s' :
  DownloadFinished order newL1 ks bs cs s = (Ret tt, s') →
  s_localL1 s < newL1 ∧ s_localL1 s' = newL1 ∧
  ∀ k r, s_blobMetas s' !! k = Some r →
    (∃ c, (k, c) ∈ zip ks cs ∧ index_meta k c = Ret r) ∨ ((k ∉ ks) ∧ s_blobMetas s !! k = Some r).
Proof using.
  rw /DownloadFinished. destruct (negb _) eqn:El; [done|]. case: Z.leb_spec => // Hlt.
  apply negb_false_iff, andb_true_iff in El as [L1'%Nat.eqb_eq L2%Nat.eqb_eq].
  have Hl : length ks = length cs by congruence. rw /mbind /st_bind. destruct (on_sm _ s) as [[st|e|p] s1] eqn:E1; [|done..].
  have Hs1 : s_blobMetas s1 = s_blobMetas s.
  { by rw -(on_sm_metas _ _ _ _ E1). }
  rw /ask_KvEntryCount. destruct (GetStorageKvEntryCount _ _) as [count|e|p]; [|done..].
  rw /update_view /updateLocalMetas /=.
  destruct (foldM _ _ _) as [m'|e|p] eqn:EF; [|done..]. intros [= <-]. simpl.
  split_and!; [done..|]. intros k r. rw delete_all_lookup. case_decide as Hd; [done|]. intros Hk.
  rw -Hs1. apply (put_metas_inv (s_blobMetas s1) ks cs m' Hl); [|done].
  rw -EF. apply foldM_ext. by intros m [i c] _.
Qed.

Lemma answers_insert (ws : list worker) i w' :
  (∀ j from to lim l1 ms, ws !! j = Some (Answered from to lim l1 ms) →
     ms = truth l1 <$> seqZ from (lim - from)) →
  (∀ from to lim l1 ms, w' = Answered from to lim l1 ms →
     ms = truth l1 <$> seqZ from (lim - from)) →
  ∀ j from to lim l1 ms, <[i := w']> ws !! j = Some (Answered from to lim l1 ms) →
     ms = truth l1 <$> seqZ from (lim - from).
Proof using.
  intros Hws Hw' j from to lim l1 ms Hj.
  apply list_lookup_insert_Some in Hj as [(_ & E & _)|[_ Hj]]; [by apply (Hw' from to)|].
  by apply (Hws j from to).
Qed.

Lemma worker_ask_true s s' ws i w w' :
  view_true (s, ws) → ws !! i = Some w → worker_ask batchSize w s = (Ret w', s') →
  view_true (s', <[i := w']> ws).
Proof using Hfaith.
  intros [H1 H2] Hw HA. simpl in *. destruct w as [from to|from to lim l1 ms]; simpl in HA; last first.
  { injection HA as <- <-. split; [done|]. simpl. apply answers_insert; [done|].
    intros ????? [= <- <- <- <- <-]. by apply (H2 i from to). }
  destruct (to <=? from).
  { injection HA as <- <-. split; [done|]. simpl. by apply answers_insert. }
  rw /mbind /st_bind /st_get in HA.
  destruct (ask_retry _ _ _ s) as [[ms|e|p] s1] eqn:E; [|done..].
  injection HA as <- <-. apply ask_retry_inv in E as (-> & E2 & E3 & E4).
  split; simpl; [by rw E2 E3 /kv_managed /Shards E4|]. apply answers_insert; [done|]. by intros ????? [= <- <- <- <- <-].
Qed.

Lemma worker_store_true s s' ws i w w' :
  view_true (s, ws) → ws !! i = Some w → worker_store w s = (Ret w', s') →
  view_true (s', <[i := w']> ws).
Proof using.
  intros [H1 H2] Hw HA. simpl in *. destruct w as [from to|from to lim l1 ms]; simpl in HA.
  { injection HA as <- <-. split; [done|]. simpl. by apply answers_insert. }
  rw /mbind /st_bind /st_get in HA. destruct (Z.eqb_spec l1 (s_localL1 s)) as [El|_]; simpl in HA; last first.
  { injection HA as <- <-. split; [done|]. simpl. by apply answers_insert. }
  rw /store_metas in HA. destruct (_ <? _)%nat; [done|]. injection HA as <- <-. subst l1.
  split; simpl; [|by apply answers_insert]. intros k m Hk.
  rw (H2 i from to lim (s_localL1 s) ms Hw) insert_metas_lookup. case_decide; [by intros [= <-]|by apply H1].
Qed.

Lemma put_metas_no_fail (m : gmap Z bytes) l e :
  foldM (λ m '(i, c), meta ← index_meta i c; mret (<[i := meta]> m)) m l ≠ Fail e.
Proof using.
  revert m. induction l as [|[i c] l IH]; intros m; [done|]. rw foldM_cons. simpl.
  destruct (index_meta i c) as [meta| |] eqn:E; [apply IH| |done]. move: E. rw /index_meta. by case_match.
Qed.

Lemma DownloadFinished_refused order newL1 ks bs cs s e s' :
  DownloadFinished order newL1 ks bs cs s = (Fail e, s') →
  s_blobMetas s' = s_blobMetas s ∧ s_localL1 s' = s_localL1 s.
Proof using.
  rw /DownloadFinished. destruct (negb _); [by intros [= _ <-]|]. case: Z.leb => //; [by intros [= _ <-]|].
  rw /mbind /st_bind. destruct (on_sm _ s) as [r s1] eqn:E1.
  have Hs1 : s_blobMetas s1 = s_blobMetas s ∧ s_localL1 s1 = s_localL1 s.
  { move: E1. rw /on_sm. destruct (_ (s_shardManager s)). by intros [= _ <-]. }
  destruct r; [|by intros [= _ <-]|done]. rw /ask_KvEntryCount.
  destruct (GetStorageKvEntryCount _ _); [|by intros [= _ <-]|done].
  rw /update_view /updateLocalMetas /=. case Ef: (foldM _ _ _) => [m|x|x]; [done| |done].
  by destruct (put_metas_no_fail _ _ _ Ef).
Qed.

Lemma logged_split a b c : a ≤ b ≤ c → logged a c = logged a b ++ logged b c.
Proof using.
  intros H. rw /logged -map_app -bind_app. do 2 f_equal.
  have -> : c - a = (b - a) + (c - b) by lia. rw seqZ_app; [lia..|]. do 2 f_equal. lia.
Qed.

(** The batch carries the new record of every managed KV whose record changed. *)
Lemma downloaded_batch d d1 s last newL1 blobs ks bs cs :
  honest_node chain btime head → contract_logs → can_download d →
  same_shape (s_shardManager (d_sm d)) (s_shardManager s) →
  0 ≤ last ≤ s_localL1 s → s_localL1 s < newL1 ≤ head →
  downloadRange (last + 1) newL1 false d = (Ret blobs, d1) →
  foldl add_blob ([], [], []) blobs = (ks, bs, cs) →
  ∀ k, kv_managed s k →
    (∀ c m, (k, c) ∈ zip ks cs → index_meta k c = Ret m → m = truth newL1 k) ∧
    (k ∉ ks → truth newL1 k = truth (s_localL1 s) k).
Proof using.
  intros HN HC (HS & HF & HCo) Hshape Hlast Hnew Hd Hb.
  destruct (downloadRange_ok chain btime blob_data head HN (last + 1) newL1 d HS HF HCo)
    as (res & d' & _ & E & Hres); [lia..|].
  have [= Eb _] := eq_trans (eq_sym Hd) E. subst res. rw -add_blobs_plain Hres in Hb.
  set l := seqZ _ _ in Hb. have El : l = seqZ (last + 1) (newL1 - last) by rw /l; f_equal; lia.
  have HB : batch_of (l ≫= expected chain blob_data (d_sm d)) ks bs cs.
  { pose proof (add_blob_batch (l ≫= expected chain blob_data (d_sm d))) as HB. rw Hb in HB.
    apply HB, Forall_forall. intros x (n & ev & data & _ & _ & _ & _ & ->)%expected_elem. simpl.
    rw length_go_copy /zeros length_replicate //. }
  destruct HB as [_ _ _ B4 B5]. intros k Hk.
  have HL : blob_meta <$> latest k (l ≫= expected chain blob_data (d_sm d)) = blob_meta <$> latest k (logged last newL1).
  { rw /logged -El. apply latest_expected; [done|by apply (kv_managed_shape _ _ _ Hshape)|].
    intros n. rw El. intros ?%elem_of_seqZ. lia. }
  split.
  - intros c m Hin Hm. apply list_elem_of_lookup in Hin as [i Hi]. apply lookup_zip_Some in Hi as [Hi Hc].
    destruct (B5 i k Hi) as (x & Lx & _ & Mx). have Ec : c = blob_meta x by congruence. rw Lx /= in HL.
    have Hlog := HC last newL1 k ltac:(lia) ltac:(lia). destruct (latest k (logged last newL1)) as [y|]; [|done].
    injection HL as HL. apply Hlog. by rw -HL -Ec.
  - intros Hn. rw B4 -latest_None in Hn. rw Hn /= in HL.
    have Hlog := HC (s_localL1 s) newL1 k ltac:(lia) ltac:(lia).
    rw (logged_split last (s_localL1 s)) in HL; [lia|]. rw latest_meta_app in HL.
    by destruct (latest k (logged (s_localL1 s) newL1)).
Qed.

Lemma view_step_true x x' :
  honest_node chain btime head → contract_logs → view_true x → view_step x x' → view_true x'.
Proof using Hfaith.
  intros HN HC Hx Hs.
  destruct Hs as [s s' ws i w w' Hw HA|s s' ws i w w' Hw HA
    |s s' ws d d1 last newL1 blobs ord ks bs cs Hsh Hcan Hlast Hnew Hd Hb HD
    |s s' ws newL1 ord ks bs cs e HD|s s' ws newL1 r He HR].
  - exact (worker_ask_true s s' ws i w w' Hx Hw HA).
  - exact (worker_store_true s s' ws i w w' Hx Hw HA).
  - destruct Hx as [H1 H2]. simpl in *. split; [|done]. simpl.
    destruct (DownloadFinished_inv _ _ _ _ _ _ _ HD) as (Hlt & E & Hm).
    have HB := downloaded_batch d d1 s last newL1 blobs ks bs cs HN HC Hcan Hsh Hlast ltac:(lia) Hd Hb.
    destruct (DownloadFinished_shape _ _ _ _ _ _ _ _ HD) as [HS _].
    intros k m Hk Hmk. rw (kv_managed_shape _ _ _ HS) in Hk. destruct (HB k Hk) as [B1 B2]. rw E.
    destruct (Hm k m Hmk) as [(c & Hin & Hc)|[Hn Ho]]; [by apply (B1 c)|]. rw B2 //. by apply H1.
  - destruct Hx as [H1 H2]. destruct (DownloadFinished_refused _ _ _ _ _ _ _ _ HD) as [E1 E2].
    destruct (DownloadFinished_shape _ _ _ _ _ _ _ _ HD) as [HS _].
    split; [|done]. simpl in *. intros k m. rw (kv_managed_shape _ _ _ HS) E1 E2. apply H1.
  - destruct Hx as [H1 H2]. split; [|done]. simpl. intros k m _.
    have -> : s_blobMetas s' = s_blobMetas s.
    { move: HR. rw /Reset /mbind /st_bind /ask_KvEntryCount. by destruct (GetStorageKvEntryCount _ _) => -[= _ <-]. }
    by rw He lookup_empty.
Qed.
End view.


(** ** An example

    The contract has four entries; KV 3 changes in the blocks 6 and 7 of [ex_chain]. *)
Definition ex_record (b k : Z) : bytes :=
  if k =? 3 then
    if b <? 6 then ex_meta else from_ret [] (index_meta 3 (if b <? 7 then ex_old else ex_new))
  else from_ret [] (index_meta k (zeros 32)).

#[local] Instance ex_contract : Il1Source := {
  GetKvMetas _ ks b := Ret (ex_record b <$> ks);
  GetStorageKvEntryCount _ _ := Ret 4 }.
#[local] Existing Instance ex_node.
#[local] Existing Instance ex_servers.

Lemma ex_contract_logs : contract_logs ex_chain 7 ex_record.
Proof.
  intros a b k Hab Hb. destruct (decide (k = 3)) as [-> |Hk].
  - have Ha : a = 0 ∨ a = 1 ∨ a = 2 ∨ a = 3 ∨ a = 4 ∨ a = 5 ∨ a = 6 by lia.
    have Hb' : b = 1 ∨ b = 2 ∨ b = 3 ∨ b = 4 ∨ b = 5 ∨ b = 6 ∨ b = 7 by lia.
    destruct Ha as [-> |[-> |[-> |[-> |[-> |[-> | ->]]]]]],
      Hb' as [-> |[-> |[-> |[-> |[-> |[-> | ->]]]]]]; first [lia|vm_compute; congruence].
  - have -> : latest k (logged ex_chain a b) = None.
    { apply latest_None. intros (x & -> & (ev & -> & (n & Hev & _)%list_elem_of_bind)%list_elem_of_fmap)%list_elem_of_fmap.
      apply Hk. destruct (ex_chain_elem n ev Hev) as [[_ ->]|[_ ->]]; by vm_compute. }
    by rw /ex_record (proj2 (Z.eqb_neq _ _)).
Qed.

(** The manager of a node that starts. *)
Definition ex_fresh : StorageManager := mkStorageManager 1 ex_sm 0 0 ∅ 0.

Definition ex_reset : StorageManager := (Reset 5 ex_fresh).2.
Definition ex_asked : gores worker * StorageManager := worker_ask 4 (Ready 0 4) ex_reset.
Definition ex_batch : list Z * list bytes * list bytes :=
  foldl add_blob ([], [], []) (from_ret [] (downloadRange 6 7 false (ex_downloader ∅ 7)).1).
Definition ex_final : gores unit * StorageManager :=
  DownloadFinished (ex_order ex_batch.1.1) 7 ex_batch.1.1 ex_batch.1.2 ex_batch.2 ex_asked.2.
Definition ex_again : gores worker * StorageManager := worker_ask 4 (Ready 0 4) ex_final.2.
Definition ex_kept : gores worker * StorageManager := worker_store (from_ret (Ready 0 4) ex_again.1) ex_again.2.

Lemma ret_pair {A B} (x : A * B) (r : A) : x.1 = r → x = (r, x.2).
Proof. destruct x. by intros <-. Qed.

Lemma stale_dropped s from to lim l1 metas :
  s_localL1 s ≠ l1 → worker_store (Answered from to lim l1 metas) s = (Ret (Ready from to), s).
Proof. intros H. rw /= /mbind /st_bind /st_get (proj2 (Z.eqb_neq _ _)) //. congruence. Qed.

Lemma ex_can_download : can_download ex_chain (Z.mul 12) ex_data 7 (ex_downloader ∅ 7).
Proof. split_and!; [apply ex_source|exact ex_fillable|apply ex_coherent]. Qed.

Lemma ex_asked_block : 0 ≤ 5 ≤ s_localL1 ex_asked.2.
Proof. by vm_compute. Qed.

Lemma ex_batch_eq : ex_batch = (ex_batch.1.1, ex_batch.1.2, ex_batch.2).
Proof. by destruct ex_batch as [[]]. Qed.

Lemma ex_final_eq :
  DownloadFinished (ex_order ex_batch.1.1) 7 ex_batch.1.1 ex_batch.1.2 ex_batch.2 ex_asked.2 = (Ret tt, ex_final.2).
Proof. apply ret_pair. by vm_compute. Qed.

Lemma ex_final_block : s_localL1 ex_final.2 ≠ 5.
Proof. by vm_compute. Qed.

Lemma ex_newer : 5 < 7 ≤ 7.
Proof. lia. Qed.

