(* ===== verification/BlobReader.v ===== *)
(** * Blobs for the miner and the RPC (ethstorage/blobs/blob_reader.go)

    [BlobReader] reads a blob from the cache of the downloader when it is there
    and from the storage otherwise.  The main result: whatever the L1 node and
    the blob servers answer, a blob [GetBlob] returns has the hash it was asked
    for. *)

From S2P Require Import Prelude Extern EthashSizes Ethash DataFile ChunkCodec DataShard ShardManager StorageManager.
From S2P Require Import KvStore BlobSources BlobCache Downloader DownloaderFacts.

Record BlobReader (C : Type) := mkBlobReader { cr : C; br_sm : StorageManager }.
Arguments mkBlobReader {C}. Arguments cr {C}. Arguments br_sm {C}.

Definition NewBlobReader {C} (c : C) (s : StorageManager) : BlobReader C := mkBlobReader c s.

Section reader.
Context {C : Type} {CA : BlobCache C} `{GE : Geth}.
Implicit Types r : BlobReader C.

(** [order] is the order in which the blocks of the cache are visited. *)
Definition GetBlob r (order : list Z) (kvIdx : Z) (kvHash : bytes) : gores bytes :=
  let size := sm_kvSize (s_shardManager (br_sm r)) in
  match GetKeyValueByIndex (cr r) order kvIdx kvHash with
  | Some blob => DecodeBlob (br_sm r) blob kvHash kvIdx size
  | None =>
      blob ← TryRead (br_sm r) kvIdx (int64 size) kvHash;
      match blob with
      | Some b => mret b
      | None => Fail (ErrMsg "kv not found")
      end
  end.

Definition ReadSample r (order : list Z) (shardIdx sampleIdx : Z) : gores bytes :=
  let sampleLenBits := sub64 (MaxKvSizeBits (s_shardManager (br_sm r))) SampleSizeBits in
  let kvIdx := Z.shiftr sampleIdx sampleLenBits in
  sampleIdxInKv ← umod sampleIdx (shl64 1 sampleLenBits);
  sample ← GetSampleData (cr r) order kvIdx sampleIdxInKv;
  match sample with
  | Some sample => mret (BytesToHash sample)
  | None => ReadSampleUnlocked (br_sm r) shardIdx sampleIdx
  end.

End reader.

(** ** Decoding what was encoded *)

Lemma foldM_grow {A} (f : list Z → A → gores (list Z)) l n : ∀ es es',
  (∀ es a es', f es a = Ret es' → length es' = (length es + n)%nat) →
  foldM f es l = Ret es' → length es' = (length es + n * length l)%nat.
Proof.
  induction l as [|a l IH]; intros es es' Hf; [intros [= <-]; simpl; lia|].
  rw foldM_cons. destruct (f es a) as [es1| |] eqn:E; [|done..]. cbn [mbind gores_bind].
  intros H%IH; [|done]. rw (Hf _ _ _ E) in H. simpl. lia.
Qed.

Lemma encoder_Encode_length `{GethLaws} key size mask :
  0 ≤ size → encoder_Encode key size = Ret mask → zlen mask = size.
Proof.
  intros Hs. rw /encoder_Encode Z.rem_mod_nonneg //. case: Z.eqb_spec => //= Hm.
  destruct (foldM _ [] _) as [es| |] eqn:E; [|done..]. cbn [mbind gores_bind].
  destruct (FrFFT es) as [pol| |] eqn:Epol; [|done..]. intros [= <-].
  apply (foldM_grow _ _ 2) in E; last first.
  { intros es0 i es1. destruct (PoseidonHashState _ _) as [[h0 h1]|]; [|done]. intros [= <-].
    by rw length_app. }
  rw /zlen (length_bind_rows _ _ 32); [apply Forall_true; intros; apply FrBytes_length|].
  rw (FrFFT_length _ _ Epol) E length_seqZ Z.quot_div_nonneg //=. have := Z.div_mod size 64 ltac:(lia).
  have := Z.div_pos size 64 Hs ltac:(lia). lia.
Qed.

(** Whenever a chunk could be encoded, decoding it gives the data back, up to
    trailing zeros. *)
Lemma encoded_decodes `{GethLaws} n b t key e :
  0 ≤ n < two63 → encodeChunk n b t key = Ret e →
  zlen b ≤ n ∧ ∃ d, decodeChunk n e t key = Ret d ∧ zlen d ≤ n ∧ padded n d = padded n b.
Proof.
  intros Hn. rw /encodeChunk /decodeChunk int64_small; [rw /two63 in Hn *; lia|].
  case: Z.ltb_spec => // Hb. intros He. split; [done|].
  have Hp : zlen (padded n b) = n by rw /zlen length_padded; lia.
  have Hpp : padded n (padded n b) = padded n b.
  { rw {1}/padded go_copy_full // /zeros length_replicate length_padded //. }
  have Hdone : ∃ d, Ret (padded n b) = Ret d ∧ zlen d ≤ n ∧ padded n d = padded n b.
  { eexists. split; [done|]. split; [lia|done]. }
  have Hmask mask mask' : zlen mask = n → MaskDataInPlace mask b = Ret e → mask' = mask →
    zlen e = n ∧ UnmaskDataInPlace e mask' = Ret (padded n b).
  { intros Hl. rw /zlen in Hl Hb. rw MaskDataInPlace_ok; [lia|]. intros [= <-] ->.
    rw /zlen Hl. have Hx : length (xor_bytes mask (padded n b)) = Z.to_nat n.
    { rw length_xor_bytes length_padded. lia. }
    split; [rw Hx; lia|].
    have U := UnmaskDataInPlace_ok mask mask b (Z.to_nat n) ltac:(lia) ltac:(lia) ltac:(lia) eq_refl.
    rw /zlen Hl in U. rw (take_ge (xor_bytes _ _)) in U; [rw Hx; lia|].
    rw take_ge in U; [rw length_padded; lia|]. exact U. }
  move: He. case: Z.eqb_spec => [_|_].
  { intros [= <-]. rw -/(padded n b) /zlen length_xor_cycle -/(zlen _) Hp (proj2 (Z.ltb_ge _ _)); [lia|].
    by rw xor_cycle_involutive. }
  case: Z.eqb_spec => [_|_].
  { intros [= <-]. rw -/(padded n b) Hp (proj2 (Z.ltb_ge _ _)); [lia|].
    by rw go_copy_full; [rw /zeros length_replicate length_padded|]. }
  case: Z.eqb_spec => [_|_].
  - destruct (encoder_Encode key n) as [mask|err|p] eqn:Em; cbn [catch mbind gores_bind]; [| |done].
    + intros He. destruct (Hmask mask mask) as [Hl ->]; [|done..|].
      { apply (encoder_Encode_length key); [lia|done]. }
      by rw Hl (proj2 (Z.ltb_ge _ _)); [lia|].
    + rw /MaskDataInPlace. case: Z.ltb_spec => // Hb0 [= <-].
      have -> : b = [] by destruct b; [done|]; rw /zlen /= in Hb0; lia.
      rw (proj2 (Z.ltb_ge _ _)); [rw /zlen /=; lia|]. exists []. split_and!; [done|rw /zlen /=; lia|done].
  - case: Z.eqb_spec => [_|_]; [|done].
    destruct (GetMaskData_stream 0 key n) as (HM & Hml & Hpre); [by rw /maxEpoch; lia|lia|].
    rw HM. cbn [mbind gores_bind]. intros He. destruct (Hmask _ _ Hml He eq_refl) as [Hl HU].
    rw Hl (proj2 (Z.ltb_ge _ _)); [lia|]. rw HM. cbn [mbind gores_bind]. by rw HU.
Qed.

(** ** Whole KVs from the storage *)

Lemma Read_length df c n b : DataFile.Read df c n = Ret b → zlen b = n.
Proof.
  rw /DataFile.Read. destruct (negb _); [done|]. destruct (_ <? n); [done|]. rw /make_bytes.
  case: Z.ltb_spec => // Hn. cbn [mbind gores_bind]. rw /ReadAt. destruct (f_closed _); [done|].
  destruct (_ <? 0); [done|]. cbv zeta. destruct (_ <? n); [done|]. destruct (negb _); [done|].
  intros [= <-]. rw /zlen length_go_copy /zeros length_replicate. lia.
Qed.

Lemma readChunk_length ds c n b : readChunk ds c n = Ret b → zlen b = n.
Proof.
  rw /readChunk. induction (ds_dataFiles ds) as [|df l IH]; [done|]. cbn [in_file].
  destruct (DataFile.Contains df c); [apply Read_length|exact IH].
Qed.

Lemma decodeChunk_length `{Geth} n e t key d : decodeChunk n e t key = Ret d → zlen d = zlen e.
Proof.
  have HU m : UnmaskDataInPlace e m = Ret d → zlen d = zlen e.
  { rw /UnmaskDataInPlace /slice. destruct (_ <? _); [done|].
    destruct ((_ && _) && _) eqn:E; [|done]. intros [= <-]. apply andb_true_iff in E as [_ E%Z.leb_le].
    rw /zlen length_take length_drop. rw /zlen in E |- *. lia. }
  rw /decodeChunk. destruct (_ <? _); [done|]. destruct (t =? _).
  { intros [= <-]. by rw /zlen length_xor_cycle. }
  destruct (t =? _).
  { intros [= <-]. rw /zlen length_go_copy /zeros length_replicate. lia. }
  destruct (t =? _); [|destruct (t =? _); [|done]].
  - destruct (encoder_Encode _ _) as [m|err|p]; [apply HU|apply HU|done].
  - destruct (GetMaskData _ _ _ _) as [m|err|p]; [apply HU|done..].
Qed.

(** A read of a KV gives at most the bytes asked for. *)
Lemma readWith_length ds k n dec b :
  (∀ x i y, dec x i = Ret y → zlen y = zlen x) → 0 ≤ n → readWith ds k n dec = Ret b → zlen b ≤ n.
Proof.
  intros Hdec Hn. rw /readWith. destruct (negb _); [done|]. destruct (_ <? n); [done|].
  case E: (foldM _ _ _) => [[data rem]| |]; [|done..]. intros [= <-].
  apply (foldM_inv (λ x : bytes * Z, zlen x.1 + x.2 = n ∧ 0 ≤ x.2)) in E; [simpl in E; lia| |rw /zlen /=; lia].
  intros [data0 rem0] i [data1 rem1] [H1 H2]. case: Z.eqb_spec => _; [by intros [= <- <-]|].
  set m := Z.min _ _. destruct (readChunk ds _ m) as [c| |] eqn:Ec; [|done..]. cbn [mbind gores_bind].
  apply readChunk_length in Ec. destruct (dec c _) as [c'| |] eqn:Ed; [|done..]. cbn [mbind gores_bind].
  apply Hdec in Ed. intros [= <- <-]. cbn [fst snd] in *. have Hm : m ≤ rem0 := Z.le_min_l _ _.
  rw /zlen in H1 Ec Ed |- *. rw length_app. lia.
Qed.

(** A KV read whole from the storage passed the commit check. *)
Lemma TryRead_checked `{Geth} s k h data :
  sm_wf (s_shardManager s) →
  TryRead s k (int64 (sm_kvSize (s_shardManager s))) h = Ret (Some data) → checkCommit h data = Ret tt.
Proof.
  intros Hwf. rw /TryRead /ShardManager.TryRead /with_shard.
  destruct (udiv _ _) as [i| |]; [|done..]. cbn [mbind gores_bind].
  destruct (sm_shardMap _ !! i) as [ds|] eqn:Ei; [|done].
  destruct (smwf_shards _ Hwf _ _ Ei) as (Hds & _ & _ & <- & _).
  rw /DataShard.Read. destruct (readWith _ _ _ _) as [bs| |] eqn:Er; [|done..]. cbn [mbind gores_bind].
  destruct (checkCommit h bs) as [[]| |] eqn:Ec; [|done..]. cbn [mbind gores_bind].
  have [Hk _] := ds_bounds ds Hds.
  have HI : int64 (ds_kvSize ds) = ds_kvSize ds by apply int64_small; rw /two63 in Hk *; lia.
  rw HI in Er *. apply readWith_length in Er; [|..|lia]; last first.
  { intros x j y. rw /decode_with. destruct (index _ _) as [df0| |]; [|done..]. apply decodeChunk_length. }
  rw /slice. case E: (_ && _); [|done]. intros [= <-]. apply andb_true_iff in E as [_ E%Z.leb_le].
  rw drop_0 take_ge //. rw /zlen in Er E *. lia.
Qed.

(** Every round of a loop moves the state along [R] and keeps [P]. *)
Lemma st_foldM_keeps {S A B} (R : S → S → Prop) (P : B → S → Prop) (f : B → A → ST S B) l :
  (∀ b s, P b s → R s s) → (∀ s1 s2 s3, R s1 s2 → R s2 s3 → R s1 s3) →
  (∀ b a s r s', a ∈ l → P b s → f b a s = (r, s') → R s s' ∧ ∀ b', r = Ret b' → P b' s') →
  ∀ b s r s', P b s → st_foldM f b l s = (r, s') → R s s' ∧ ∀ b', r = Ret b' → P b' s'.
Proof.
  intros Hr Ht. induction l as [|a l IH]; intros Hf b s r s' Hb.
  { intros [= <- <-]. split; [by apply (Hr b)|]. by intros b' [= <-]. }
  rw st_foldM_cons /mbind /st_bind. destruct (f b a s) as [r1 s1] eqn:E.
  destruct (Hf b a s r1 s1 (list_elem_of_here _ _) Hb E) as [H1 H2].
  destruct r1 as [b1|e|p]; [|intros [= <- <-]; by split..]. intros E2.
  destruct (IH (λ b0 a0 s0 r0 s0' Ha, Hf b0 a0 s0 r0 s0' (list_elem_of_further _ _ _ Ha)) b1 s1 r s' (H2 b1 eq_refl) E2)
    as [H3 H4].
  split; [by apply (Ht s s1)|done].
Qed.

(** ** The cache holds only blobs with the hash they are filed under *)

Section sound.
Context {C : Type} {CA : BlobCache C} {CL : BlobCacheLaws C} `{GE : Geth} `{L1 : Il1Source} `{LN : L1Node} `{BS : BlobServers}.
Implicit Types d : Downloader C.

Definition sound_blob (s : StorageManager) (b : blob) : Prop := ∀ data,
  b_data b = Some data → ∃ raw, BlobToVersionedHash raw = Ret (b_hash b) ∧
    EncodeBlob s raw (b_hash b) (kv_u64 b) (sm_kvSize (s_shardManager s)) = Ret data.

Definition cache_sound (s : StorageManager) (c : C) : Prop :=
  ∀ n l b, cached c n = Some l → b ∈ l → sound_blob s b.

(** What holds between the requests of the downloader. *)
Definition d_sound d : Prop := cache_ok (d_cache d) ∧ cache_sound (d_sm d) (d_cache d).

(** [d'] is [d] after requests that may have changed the cache. *)
Definition recached d d' : Prop := ∃ c, later (set_cache d c) d' ∧
  cache_ok c ∧ cache_sound (d_sm d) c.

Lemma recached_later d d' : d_sound d → later d d' → recached d d'.
Proof using. intros [? ?] ?. exists (d_cache d). split_and!; [|done..]. by destruct d. Qed.

Lemma recached_sound d d' : recached d d' → d_sound d'.
Proof using.
  intros (c & (Ec & Es & _)%later_fields & ? & ?). rw /d_sound Ec Es. done.
Qed.

Lemma recached_trans d1 d2 d3 : recached d1 d2 → recached d2 d3 → recached d1 d3.
Proof using.
  intros (c & H1 & _ & _) (c' & H2 & Hok & Hs). exists c'. split; [|split; [done|]].
  - by apply (later_cache d1 c d2).
  - destruct (later_fields _ _ H1) as (_ & Es & _). by rw Es in Hs.
Qed.

Lemma sound_shape s s' b :
  same_shape (s_shardManager s) (s_shardManager s') → sound_blob s b → sound_blob s' b.
Proof using.
  intros HS Hb data Hd. destruct (Hb data Hd) as (raw & H1 & H2). exists raw. split; [done|].
  by rw (ssh_size _ _ HS) (EncodeBlob_shape s).
Qed.

Lemma sound_plain s b : sound_blob s b → sound_blob s (plain b).
Proof using. done. Qed.

Lemma add_event_later acc ev d r d' :
  add_event acc ev d = (r, d') → Forall (λ bb, Forall (λ b, b_data b = None) (bb_blobs bb)) acc.1 →
  later d d' ∧ ∀ acc', r = Ret acc' → Forall (λ bb, Forall (λ b, b_data b = None) (bb_blobs bb)) acc'.1.
Proof using.
  destruct acc as [blocks last]. rw /add_event /mbind /st_bind.
  set (P := Forall (λ bb, Forall (λ b, b_data b = None) (bb_blobs bb))). cbn [fst]. intros E HP.
  have HF (bs : list blockBlobs) d0 r0 d1 : P bs → later d d0 →
    (block ← st_lift (index bs (zlen bs - 1));
     t3 ← st_lift (index (lg_Topics ev) 3); t1 ← st_lift (index (lg_Topics ev) 1);
     t2 ← st_lift (index (lg_Topics ev) 2);
     mret (<[(length bs - 1)%nat := mkBlockBlobs (bb_timestamp block) (bb_number block)
       (bb_blobs block ++ [mkCBlob (be_decode t1) (be_decode t2) (go_copy (zeros 32) t3) None 0])]> bs,
       lg_BlockNumber ev)) d0 = (r0, d1) →
    later d d1 ∧ ∀ acc', r0 = Ret acc' → P acc'.1.
  { intros Hbs Hl. rw /mbind /st_bind /st_lift.
    destruct (index bs _) as [block| |] eqn:Ei; [|intros [= <- <-]; by split..].
    destruct (index _ 3) as [t3| |]; [|intros [= <- <-]; by split..].
    destruct (index _ 1) as [t1| |]; [|intros [= <- <-]; by split..].
    destruct (index _ 2) as [t2| |]; [|intros [= <- <-]; by split..].
    intros [= <- <-]. split; [done|]. intros acc' [= <-]. cbn [fst]. apply Forall_insert; [done|].
    cbn [bb_blobs]. apply Forall_app. split; [|by constructor].
    apply index_inv in Ei as [_ Ei]. exact (proj1 (Forall_lookup _ _) Hbs _ _ Ei). }
  rw /mbind /st_bind in HF. move: E. case: Z.eqb_spec => [->|_]; cbn [negb].
  - intros E. by apply (HF blocks d); [|apply later_refl|].
  - rw /ask. destruct (HeaderByNumber _ _) as [[n t]| |]; [|intros [= <- <-]; split; [apply later_bump|done]..].
    intros E. apply (HF (blocks ++ [mkBlockBlobs t (lg_BlockNumber ev) []]) (bump d)); [|apply later_bump|done].
    apply Forall_app. split; [done|]. by repeat constructor.
Qed.

Definition bare (bb : blockBlobs) : Prop := Forall (λ b, b_data b = None) (bb_blobs bb).

Lemma eventsToBlocks_later events d r d' :
  eventsToBlocks events d = (r, d') → later d d' ∧ ∀ blocks, r = Ret blocks → Forall bare blocks.
Proof using.
  rw /eventsToBlocks /mbind /st_bind. destruct (st_foldM _ _ _ _) as [r1 d1] eqn:E.
  apply (st_foldM_keeps later (λ acc _, Forall bare acc.1)) in E as [Hl HP].
  - destruct r1 as [[blocks n]| |]; intros [= <- <-]; (split; [done|]); [|done..].
    intros bs [= <-]. exact (HP _ eq_refl).
  - intros. apply later_refl.
  - intros d1' d2' d3'. apply later_trans.
  - intros acc ev d0 r0 d0' _ HP E0. by apply (add_event_later acc ev).
  - constructor.
Qed.

Lemma downloadBlobs_filed bb d r d' :
  downloadBlobs bb d = (r, d') → later d d' ∧ ∀ m, r = Ret m → filed m.
Proof using.
  rw /downloadBlobs /ask. destruct (d_l1Beacon d) as [c|]; [|destruct (d_daClient d)];
    intros [= <- <-]; (split; [by (apply later_bump || apply later_refl)|]).
  - intros m. apply BeaconClient_filed.
  - intros m. apply DAClient_filed.
  - done.
Qed.

Lemma downloadBlobsWithRetry_filed bb n : ∀ d r d',
  downloadBlobsWithRetry bb n d = (r, d') → later d d' ∧ ∀ m, r = Ret m → filed m.
Proof using.
  induction n as [|n IH]; intros d r d'; cbn [downloadBlobsWithRetry];
    destruct (downloadBlobs bb d) as [r1 d1] eqn:E; apply downloadBlobs_filed in E as [H1 H2].
  - destruct r1; intros [= <- <-]; by split.
  - destruct r1 as [m|e|p]; [intros [= <- <-]; by split| |intros [= <- <-]; by split].
    destruct n as [|n]; [intros [= <- <-]; by split|]. intros [H3 H4]%IH. split; [|done].
    by apply (later_trans d d1).
Qed.

Lemma fill_blob_sound m b d r d' :
  filed m → b_data b = None → fill_blob m b d = (r, d') →
  later d d' ∧ ∀ o, r = Ret o → sound_blob (d_sm d) (default b o).
Proof using.
  intros Hm Hb. have Hnone : sound_blob (d_sm d) b by intros data; rw Hb.
  rw /fill_blob. case_bool_decide; cbn [negb]; last first.
  { intros [= <- <-]. split; [apply later_refl|]. by intros o [= <-]. }
  destruct (m !! b_hash b) as [cl|] eqn:Em.
  - destruct (EncodeBlob _ _ _ _ _) as [data|e|p] eqn:Ee; intros [= <- <-];
      (split; [apply later_refl|]); [|done..].
    intros o [= <-]. intros data' [= <-]. exists (Data cl). split; [|done]. by apply (Hm _ _ Em).
  - rw /notifyBlobMissing /mbind /st_bind. destruct (_ && _); intros [= <- <-].
    + split; [apply later_bump|]. by intros o [= <-].
    + split; [apply later_refl|done].
Qed.

Lemma fill_block_sound m bb d r d' :
  filed m → bare bb → fill_block m bb d = (r, d') →
  later d d' ∧ ∀ x, r = Ret x → Forall (sound_blob (d_sm d)) (bb_blobs x.2) ∧ bb_number x.2 = bb_number bb.
Proof using.
  intros Hm Hb. rw /fill_block {1}/mbind {1}/st_bind.
  set body := λ '(blobs, filled) (b : blob), _.
  destruct (st_foldM body _ _ _) as [r1 d1] eqn:E.
  apply (st_foldM_keeps later (λ x d0, d_sm d0 = d_sm d ∧ Forall (sound_blob (d_sm d)) x.2)) in E as [Hl HP].
  - destruct r1 as [[bs fs]| |]; intros [= <- <-]; (split; [done|]); [|done..].
    intros x [= <-]. cbn [snd bb_blobs bb_number]. split; [|done]. exact (proj2 (HP _ eq_refl)).
  - intros. apply later_refl.
  - intros d1' d2' d3'. apply later_trans.
  - intros [bs fs] b d0 r0 d0' Hin [Es HF]. rw /body /mbind /st_bind.
    destruct (fill_blob m b d0) as [r2 d2] eqn:E2.
    destruct (fill_blob_sound m b d0 r2 d2 Hm) as [H1 H2]; [|done|].
    { rw /bare Forall_forall in Hb. by apply Hb. }
    have Es2 : d_sm d2 = d_sm d0 by destruct (later_fields _ _ H1) as (_ & ? & _).
    destruct r2 as [o|e|p]; intros [= <- <-]; (split; [done|]); [|done..].
    intros x [= <-]. rw Es2 Es. split; [done|]. specialize (H2 o eq_refl). rw Es in H2.
    destruct o as [b'|]; cbn [snd]; apply Forall_app; (split; [done|by constructor]).
  - done.
Qed.

Lemma download_block_sound toCache blobs bb d r d' :
  d_sound d → bare bb → download_block toCache blobs bb d = (r, d') → recached d d'.
Proof using CL.
  intros Hd Hb. rw /download_block {1}/mbind /st_bind /st_get.
  destruct (Blobs (d_cache d) (bb_number bb)) as [res|] eqn:EB.
  { intros [= <- <-]. apply recached_later; [done|apply later_refl]. }
  rw {1}/mbind /st_catch. destruct (downloadBlobsWithRetry bb 3 d) as [r1 d1] eqn:E1.
  apply downloadBlobsWithRetry_filed in E1 as [Hl1 Hf].
  have Hcont m : filed m → ('(new, filled) ← fill_block m bb;
    _ ← (if toCache then on_cache (SetBlockBlobs filled) else mret tt); mret (blobs ++ new)) d1 = (r, d') →
    recached d d'.
  { intros Hm. rw /mbind /st_bind. destruct (fill_block m bb d1) as [r2 d2] eqn:E2.
    destruct (fill_block_sound m bb d1 r2 d2 Hm Hb E2) as [Hl2 Hs].
    have Hl := later_trans _ _ _ Hl1 Hl2.
    destruct r2 as [[new filled]| |]; [|intros [= <- <-]; by apply recached_later..].
    destruct toCache; [|intros [= <- <-]; by apply recached_later].
    destruct (Hs _ eq_refl) as [HF En]. cbn [snd] in HF, En. rw /on_cache.
    destruct (SetBlockBlobs filled (d_cache d2)) as [r3 c] eqn:E3.
    destruct (later_fields _ _ Hl) as (Ec & Es & _). destruct (later_fields _ _ Hl1) as (_ & Es1 & _).
    rw Ec in E3. destruct Hd as [Hok HC].
    destruct (SetBlockBlobs_law filled (d_cache d) r3 c Hok) as [Hok' HL]; [by rw En|done|].
    have HR : recached d (set_cache d2 c).
    { exists c. split; [by apply later_set_cache|]. split; [done|]. rw Es1 in HF. rw Forall_forall in HF.
      intros n l b Hn Hin. destruct r3 as [u|e|p]; [|rw HL in Hn; by apply (HC n l)|done].
      destruct HL as (keep & Hk & HL). rw HL in Hn. case_decide; [|by apply (HC n l)].
      injection Hn as <-. apply list_elem_of_fmap in Hin as (b0 & -> & Hb0).
      apply sound_plain, HF. destruct Hk as [-> | ->]; [done|].
      by apply list_elem_of_filter in Hb0 as [_ ?]. }
    destruct r3; intros [= <- <-]; exact HR. }
  destruct r1 as [m|e|p]; [|apply Hcont, filed_empty|intros [= <- <-]; by apply recached_later].
  by apply Hcont, Hf.
Qed.

Lemma downloadRange_sound start fin toCache d r d' :
  d_sound d → downloadRange start fin toCache d = (r, d') → recached d d'.
Proof using CL.
  intros Hd. rw /downloadRange /mbind /st_bind /ask.
  destruct (FilterLogsByBlockRange _ _ _) as [events| |];
    [|intros [= <- <-]; apply recached_later; [done|apply later_bump]..].
  destruct (eventsToBlocks events (bump d)) as [r1 d1] eqn:E1.
  apply eventsToBlocks_later in E1 as [Hl Hb]. have Hl1 := later_trans _ _ _ (later_bump d) Hl.
  have HR := recached_later _ _ Hd Hl1.
  destruct r1 as [blocks| |]; [|intros [= <- <-]; done..]. specialize (Hb blocks eq_refl).
  intros E2. apply (st_foldM_keeps recached (λ _, d_sound)) in E2 as [H2 _].
  - by apply (recached_trans d d1).
  - intros _ d0 Hd0. apply recached_later; [done|apply later_refl].
  - intros d1' d2' d3'. apply recached_trans.
  - intros bs bb d0 r0 d0' Hin Hd0 E0. rw Forall_forall in Hb.
    have H0 := download_block_sound toCache bs bb d0 r0 d0' Hd0 (Hb bb Hin) E0.
    split; [done|]. intros _ _. by apply (recached_sound d0).
  - by apply (recached_sound d).
Qed.

(** What any task of the downloader keeps. *)
Record kept d d' : Prop := {
  kp_sound : d_sound d';
  kp_shape : same_shape (s_shardManager (d_sm d)) (s_shardManager (d_sm d'))
}.

Lemma kept_refl d : d_sound d → kept d d.
Proof using. intros. constructor; [done|apply same_shape_refl]. Qed.

Lemma kept_trans d1 d2 d3 : kept d1 d2 → kept d2 d3 → kept d1 d3.
Proof using. intros [_ H1] [H2 H3]. constructor; [done|]. by apply (same_shape_trans _ (s_shardManager (d_sm d2))). Qed.

Lemma kept_recached d d' : recached d d' → kept d d'.
Proof using.
  intros HR. constructor; [by apply (recached_sound d)|]. destruct HR as (c & (_ & Es & _)%later_fields & _).
  rw Es. apply same_shape_refl.
Qed.

(** Fields other than the cache and the storage do not matter. *)
Lemma kept_fields d d' d'' : kept d d' → d_cache d'' = d_cache d' → d_sm d'' = d_sm d' → kept d d''.
Proof using. intros [[H1 H2] H3] Ec Es. constructor; rw ?/d_sound ?Ec ?Es //. Qed.

Lemma cache_loop_sound fuel fin : ∀ start d r d',
  d_sound d → cache_loop fuel start fin d = (r, d') → kept d d'.
Proof using CL.
  induction fuel as [|fuel IH]; intros start d r d' Hd; cbn [cache_loop]; destruct (start <? fin);
    try by (intros [= <- <-]; apply kept_refl).
  destruct (downloadRange _ _ _ _) as [r1 d1] eqn:E.
  have H1 := kept_recached _ _ (downloadRange_sound _ _ _ _ _ _ Hd E).
  destruct r1 as [bs| |]; [|intros [= <- <-]; done..]. set d2 := set_blocks _ _ _.
  have H2 : kept d d2 by apply (kept_fields d d1). intros H3%IH; [by apply (kept_trans d d2)|].
  apply H2.
Qed.

Lemma finish_range_sound order fin blobs d r d' :
  d_sound d → finish_range order fin blobs d = (r, d') → kept d d'.
Proof using.
  intros Hd. rw /finish_range. destruct (foldl add_blob _ blobs) as [[ks ds] ms].
  rw /mbind /st_bind /st_catch /on_manager.
  destruct (DownloadFinished _ _ _ _ _ _) as [r1 s1] eqn:E1.
  apply DownloadFinished_shape in E1 as [HS _].
  have H1 : kept d (set_manager d s1).
  { constructor; [|done]. destruct Hd as [Hok HC]. split; [done|]. intros n l b Hn Hb.
    apply (sound_shape (d_sm d)); [done|]. by apply (HC n l). }
  rw /st_get /st_put /ask /mret /st_ret /dumpBlobsIfNeeded.
  repeat case_match; intros; simplify_eq; by apply (kept_fields d _ _ H1).
Qed.

Lemma download_loop_sound fuel order head : ∀ d r d',
  d_sound d → download_loop fuel order head d = (r, d') → kept d d'.
Proof using CL.
  induction fuel as [|fuel IH]; intros d r d' Hd; cbn [download_loop]; destruct (_ <? head);
    try by (intros [= <- <-]; apply kept_refl).
  destruct (downloadRange _ _ _ _) as [r1 d1] eqn:E.
  have H1 := kept_recached _ _ (downloadRange_sound _ _ _ _ _ _ Hd E). have Hd1 := kp_sound _ _ H1.
  destruct r1 as [bs| |]; [|by intros H2%IH; [apply (kept_trans d d1)|]|intros [= <- <-]; done].
  destruct (finish_range _ _ _ _) as [r2 d2] eqn:E2.
  have H2 := kept_trans _ _ _ H1 (finish_range_sound _ _ _ _ _ _ Hd1 E2). have Hd2 := kp_sound _ _ H2.
  destruct r2 as [[]| |]; [|intros [= <- <-]; done..].
  intros H3%IH; [|done]. by apply (kept_trans d d2).
Qed.

Lemma download_sound fuel order d r d' : d_sound d → download fuel order d = (r, d') → kept d d'.
Proof using CL.
  intros Hd. rw /download. destruct (_ && _); [by intros [= <- <-]; apply kept_refl|].
  destruct (download_loop _ _ _ _) as [r1 d1] eqn:E. apply download_loop_sound in E as HK; [|done].
  destruct r1 as [[]| |]; intros [= <- <-]; try done.
  destruct HK as [[Hok HC] HS]. constructor; [|done].
  destruct (Cleanup_law (wrap64 (d_finalizedHead d)) (d_cache d1) Hok) as [Hok' HL].
  split; [done|]. intros n l b. rw /= HL. case_decide; [done|]. apply HC.
Qed.

(** The downloader among the other parts of the node: heads are announced, tasks
    run, and others write to the storage. *)
Inductive node_step : Downloader C → Downloader C → Prop :=
| ns_event fuel d d' : event_step fuel d d' → node_step d d'
| ns_head number d : node_step d (OnNewL1Head number d)
| ns_finalized number d : node_step d (OnL1Finalized number d)
| ns_storage s d :
    same_shape (s_shardManager (d_sm d)) (s_shardManager s) → node_step d (set_manager d s).

Lemma node_step_sound d d' : node_step d d' → d_sound d → kept d d'.
Proof using CL.
  intros Hs Hd. destruct Hs as [fuel d d' He|number d|number d|s d HS].
  - destruct He as [order d d' _ E|d d' _ E].
    + apply download_sound in E as [H1 H2]; [by constructor|exact Hd].
    + move: E. rw /downloadToCache. case: (_ =? 0).
      * intros [= <-]. by apply (kept_fields d d); [apply kept_refl|..].
      * intros [H1 H2]%cache_loop_sound; [by constructor|exact Hd].
  - by apply (kept_fields d d); [apply kept_refl|..].
  - by apply (kept_fields d d); [apply kept_refl|..].
  - constructor; [|done]. destruct Hd as [Hok HC]. split; [done|]. intros n l b Hn Hb.
    apply (sound_shape (d_sm d)); [done|]. by apply (HC n l).
Qed.

Lemma node_run_sound d d' : rtc node_step d d' → d_sound d → d_sound d'.
Proof using CL.
  induction 1 as [|d1 d2 d3 Hs _ IH]; [done|]. intros H1. apply IH. by apply (node_step_sound d1).
Qed.

Lemma padded_padded n m x : zlen x ≤ n ≤ m → padded m (padded n x) = padded m x.
Proof using.
  intros Hx. have Hl : zlen (x ++ zeros (n - zlen x)) = n.
  { rw /zlen length_app /zeros length_replicate. rw /zlen in Hx. lia. }
  rw /padded (go_copy_zeros _ x); [lia|]. rw (go_copy_zeros _ (x ++ _)) ?Hl; [lia|].
  rw (go_copy_zeros m x); [lia|]. rw -app_assoc /zeros -replicate_add. do 2 f_equal. lia.
Qed.

Lemma BlobToVersionedHash_padded y : BlobToVersionedHash y = BlobVersionedHash (padded blob_size y).
Proof using. unfold BlobToVersionedHash, padded. reflexivity. Qed.

Lemma checkCommit_hash h data :
  take 24 h ≠ EmptyBlobCommit → checkCommit h data = Ret tt →
  ∃ h', BlobToVersionedHash data = Ret h' ∧ take 24 h' = take 24 h.
Proof using.
  intros Hne. rw /checkCommit decide_False // /BlobToVersionedHash.
  destruct (BlobVersionedHash _) as [h'| |]; [|done..]. rw /CompareCommits.
  destruct (_ <? _); [done|]. destruct (_ <? _); [done|]. case_decide; [|done]. by exists h'.
Qed.

(** After a run from an empty cache the cache is sound. *)
Lemma run_sound d0 d : cache_ok (d_cache d0) → (∀ n, cached (d_cache d0) n = None) → rtc node_step d0 d → d_sound d.
Proof using CL.
  intros Hok0 Hempty Hrun. apply (node_run_sound d0); [done|]. split; [done|]. intros n l b. by rw Hempty.
Qed.

(** A blob of the cache decodes to a blob with the asked hash. *)
Lemma cached_hash `{!GethLaws GE} d order k h e data : d_sound d →
  0 ≤ sm_kvSize (s_shardManager (d_sm d)) ≤ blob_size →
  GetKeyValueByIndex (d_cache d) order k h = Some e →
  DecodeBlob (d_sm d) e h k (sm_kvSize (s_shardManager (d_sm d))) = Ret data →
  zlen data ≤ sm_kvSize (s_shardManager (d_sm d)) ∧ ∃ h', BlobToVersionedHash data = Ret h' ∧ take 24 h' = take 24 h.
Proof using CL.
  intros [Hok HC] Hsize EK.
  destruct (GetKeyValueByIndex_law _ _ _ _ _ Hok EK) as (n & l & b & Hl & Hb & Ek & Eh & Ed).
  destruct (HC n l b Hl Hb e Ed) as (raw & Hraw & Henc). rw Ek in Henc.
  have Ep : getEncodingParams (d_sm d) k h = getEncodingParams (d_sm d) k (b_hash b).
  { by rw /getEncodingParams /CalcEncodeKey /calcEncodeKey /encode_key_input Eh. }
  destruct (getEncodingParams (d_sm d) k (b_hash b)) as [t key] eqn:Ep'.
  rw /DecodeBlob Ep. rw /EncodeBlob Ep' in Henc.
  have Hsz : 0 ≤ sm_kvSize (s_shardManager (d_sm d)) < two63.
  { rw /blob_size /two63 in Hsize *. lia. }
  destruct (encoded_decodes _ _ _ _ _ Hsz Henc) as (Hlr & x & Hx & Hlx & Hpad).
  rw /DecodeChunk Hx. intros [= <-]. split; [done|]. exists (b_hash b). split; [|done].
  rw -Hraw !BlobToVersionedHash_padded.
  rw -(padded_padded (sm_kvSize (s_shardManager (d_sm d))) blob_size x); [lia|].
  rw Hpad padded_padded; [lia|]. reflexivity.
Qed.

(** C2: however the L1 node and the blob servers behave, and whatever else is
    written to the storage, after any run of the downloader from an empty cache a
    blob that [GetBlob] returns has the asked hash (on the 24 bytes kept in the
    contract), whether it comes from the cache or from the storage. *)
Theorem GetBlob_sound `{!GethLaws GE} d0 d order k h data :
  cache_ok (d_cache d0) → (∀ n, cached (d_cache d0) n = None) → rtc node_step d0 d →
  sm_wf (s_shardManager (d_sm d)) → 0 ≤ sm_kvSize (s_shardManager (d_sm d)) ≤ blob_size →
  take 24 h ≠ EmptyBlobCommit →
  GetBlob (NewBlobReader (d_cache d) (d_sm d)) order k h = Ret data →
  ∃ h', BlobToVersionedHash data = Ret h' ∧ take 24 h' = take 24 h.
Proof using CL.
  intros Hok0 Hempty Hrun Hwf Hsize Hne. have Hd := run_sound d0 d Hok0 Hempty Hrun.
  rw /GetBlob. cbn [cr br_sm NewBlobReader].
  destruct (GetKeyValueByIndex (d_cache d) order k h) as [e|] eqn:EK.
  - intros E. exact (proj2 (cached_hash _ _ _ _ _ _ Hd Hsize EK E)).
  - destruct (TryRead _ _ _ _) as [[b|]| |] eqn:ER; [|done..]. intros [= <-].
    apply checkCommit_hash; [done|]. exact (TryRead_checked _ _ _ _ Hwf ER).
Qed.

End sound.

(** ** A run: the head moves to block 7, which goes to the cache *)

#[local] Existing Instance ex_l1.
#[local] Existing Instance ex_node.
#[local] Existing Instance ex_servers.

Definition ex_announced : Downloader BlobMemCache := OnNewL1Head 7 (ex_downloader ∅ 5).
Definition ex_cached : Downloader BlobMemCache :=
  (downloadToCache 2 (set_heads ex_announced (d_finalizedHead ex_announced) (d_latestHead ex_announced)
    false (d_dlFinalizedReq ex_announced))).2.

Lemma ex_cached_run : rtc node_step (ex_downloader ∅ 5) ex_cached.
Proof.
  apply (rtc_l _ _ ex_announced); [constructor|]. apply rtc_once, (ns_event 2), step_latest; [done|].
  by vm_compute.
Qed.

Lemma GetBlob_sound_witness :
  ∃ data h', GetBlob (NewBlobReader (d_cache ex_cached) (d_sm ex_cached)) [6; 7] 3 ex_new = Ret data ∧
    take 3 data = [9; 8; 7] ∧
    BlobToVersionedHash data = Ret h' ∧ take 24 h' = take 24 ex_new.
Proof.
  have E : d_sm ex_cached = ex_s by vm_compute.
  have HG : ∃ data, GetBlob (NewBlobReader (d_cache ex_cached) (d_sm ex_cached)) [6; 7] 3 ex_new = Ret data ∧
    take 3 data = [9; 8; 7].
  { exists (from_ret [] (GetBlob (NewBlobReader (d_cache ex_cached) (d_sm ex_cached)) [6; 7] 3 ex_new)).
    split; vm_compute; reflexivity. }
  destruct HG as (data & HG & Ht).
  destruct (GetBlob_sound (ex_downloader ∅ 5) ex_cached [6; 7] 3 ex_new data) as (h' & H1 & H2).
  - apply ex_cache_ok.
  - intros n. by rw /cached /= /mem_Blobs lookup_empty.
  - exact ex_cached_run.
  - rw E. exact ex_sm_wf.
  - rw E. split; vm_compute; discriminate.
  - vm_compute; discriminate.
  - exact HG.
  - exists data, h'. split; [exact HG|]. split; [exact Ht|]. split; [exact H1|exact H2].
Defined.
