(* ===== verification/BlobEncoder.v ===== *)
(** * Blob codecs (cmd/es-utils/utils/optimism_blob_encoder.go and utils.go)

    Data is put into blobs of 4096 field elements of 32 bytes in two ways: 31 bytes
    for each element ([EncodeBlobs]), or compactly with the bits of every 127 bytes
    spread over four elements ([FromData]).  The node decodes both for its clients. *)

From S2P Require Import Prelude.

Definition BlobSize : Z := 4096 * 32.
Definition MaxBlobDataSize : Z := (4 * 31 + 3) * 1024 - 4.
Definition EncodingVersion : Z := 0.
Definition VersionOffset : Z := 1.
Definition Rounds : Z := 1024.

(** [l[i] = v] and [copy(dst[off:], src)] *)
Definition set_at (l : bytes) (i v : Z) : gores bytes :=
  if (0 <=? i) && (i <? zlen l) then Ret (<[Z.to_nat i := v]> l) else Panic OutOfRange.

Definition copy_at (dst : bytes) (off : Z) (src : bytes) : gores bytes :=
  if (0 <=? off) && (off <=? zlen dst)
  then Ret (take (Z.to_nat off) dst ++ go_copy (drop (Z.to_nat off) dst) src) else Panic OutOfRange.

(** ** The compact encoding *)

(** The variables of [FromData] that its closures share. *)
Record encoder := mkEncoder { readOffset : Z; writeOffset : Z; buf31 : bytes; e_blob : bytes }.

Section encode.
Context (data : bytes).

Definition read1 : ST encoder Z := λ e,
  if zlen data <=? readOffset e then (Ret 0, e)
  else (index data (readOffset e), mkEncoder (readOffset e + 1) (writeOffset e) (buf31 e) (e_blob e)).

Definition read31 : ST encoder unit := λ e,
  if zlen data <=? readOffset e
  then (Ret tt, mkEncoder (readOffset e) (writeOffset e) (go_copy (buf31 e) (zeros 31)) (e_blob e))
  else
    let n := Z.min 31 (zlen data - readOffset e) in
    let buf := go_copy (buf31 e) (drop (Z.to_nat (readOffset e)) data) in
    let buf := take (Z.to_nat n) buf ++ go_copy (drop (Z.to_nat n) buf) (zeros 31) in
    (Ret tt, mkEncoder (readOffset e + n) (writeOffset e) buf (e_blob e)).

Definition write1 (v : Z) : ST encoder unit := λ e,
  if negb (writeOffset e mod 32 =? 0) then (Panic (Explicit "blob encoding: invalid byte write offset"), e)
  else if negb (Z.land v 192 =? 0) then (Panic (Explicit "blob encoding: invalid 6 bit value"), e)
  else
    match set_at (e_blob e) (writeOffset e) v with
    | Ret b => (Ret tt, mkEncoder (readOffset e) (writeOffset e + 1) (buf31 e) b)
    | Fail er => (Fail er, e)
    | Panic p => (Panic p, e)
    end.

Definition write31 : ST encoder unit := λ e,
  if negb (writeOffset e mod 32 =? 1) then (Panic (Explicit "blob encoding: invalid bytes31 write offset"), e)
  else
    match copy_at (e_blob e) (writeOffset e) (buf31 e) with
    | Ret b => (Ret tt, mkEncoder (readOffset e) (writeOffset e + 31) (buf31 e) b)
    | Fail er => (Fail er, e)
    | Panic p => (Panic p, e)
    end.

(** The version and the length of the data before the first bytes of it. *)
Definition header_bytes : bytes :=
  let ilen := wrap32 (zlen data) in
  [EncodingVersion; Z.shiftr ilen 16 mod 256; Z.shiftr ilen 8 mod 256; ilen mod 256].

Definition read_header : ST encoder unit := λ e,
  let buf := header_bytes ++ go_copy (drop 4 (buf31 e)) data in
  (Ret tt, mkEncoder (readOffset e + Z.min 27 (zlen data)) (writeOffset e) buf (e_blob e)).

Definition encode_round (round : Z) : ST encoder unit :=
  _ ← (if round =? 0 then read_header else read31);
  x ← read1;
  _ ← write1 (Z.land x 63);
  _ ← write31;
  _ ← read31;
  y ← read1;
  _ ← write1 (Z.lor (Z.land y 15) (Z.shiftr (Z.land x 192) 2));
  _ ← write31;
  _ ← read31;
  z ← read1;
  _ ← write1 (Z.land z 63);
  _ ← write31;
  _ ← read31;
  _ ← write1 (Z.lor (Z.shiftr (Z.land z 192) 2) (Z.shiftr (Z.land y 240) 4));
  write31.

Fixpoint encode_loop (n : nat) (round : Z) : ST encoder unit := λ e,
  match n with
  | O => (Ret tt, e)
  | Datatypes.S n =>
      if readOffset e <? zlen data then (_ ← encode_round round; encode_loop n (round + 1)) e
      else (Ret tt, e)
  end.

Definition FromData : gores bytes :=
  if MaxBlobDataSize <? zlen data then Fail (ErrMsg "too much data to encode in one blob")
  else
    match encode_loop (Z.to_nat Rounds) 0 (mkEncoder 0 0 (zeros 31) (zeros BlobSize)) with
    | (Ret _, e) => if readOffset e <? zlen data then Fail (ErrMsg "expected to fit data but failed") else Ret (e_blob e)
    | (Fail er, _) => Fail er
    | (Panic p, _) => Panic p
    end.

End encode.

(** ** Decoding *)

Section decode.
Context (b : bytes).

(** The output position, the input position and the output. *)
Definition decodeFieldElement (opos ipos : Z) (output : bytes) : gores (Z * Z * Z * bytes) :=
  c ← index b ipos;
  if negb (Z.land c 192 =? 0) then Fail (ErrMsg "invalid field element")
  else
    s ← slice b (ipos + 1) (ipos + 32);
    output ← copy_at output opos s;
    mret (c, opos + 32, ipos + 32, output).

Definition reassembleBytes (opos e0 e1 e2 e3 : Z) (output : bytes) : gores (Z * bytes) :=
  let opos := opos - 1 in
  let x := Z.lor (Z.land e0 63) (Z.shiftl (Z.land e1 48) 2) in
  let y := Z.lor (Z.land e1 15) (Z.shiftl (Z.land e3 15) 4) in
  let z := Z.lor (Z.land e2 63) (Z.shiftl (Z.land e3 48) 2) in
  output ← set_at output (opos - 32) z;
  output ← set_at output (opos - 32 * 2) y;
  output ← set_at output (opos - 32 * 3) x;
  mret (opos, output).

(** The elements 1, 2 and 3 of a round, and its end. *)
Definition decode_rest (e0 opos ipos : Z) (output : bytes) : gores (Z * Z * bytes) :=
  '(e1, opos, ipos, output) ← decodeFieldElement opos ipos output;
  '(e2, opos, ipos, output) ← decodeFieldElement opos ipos output;
  '(e3, opos, ipos, output) ← decodeFieldElement opos ipos output;
  '(opos, output) ← reassembleBytes opos e0 e1 e2 e3 output;
  mret (opos, ipos, output).

Definition decode_round (opos ipos : Z) (output : bytes) : gores (Z * Z * bytes) :=
  '(e0, opos, ipos, output) ← decodeFieldElement opos ipos output;
  decode_rest e0 opos ipos output.

Fixpoint decode_loop (n : nat) (outputLen opos ipos : Z) (output : bytes) : gores (Z * Z * bytes) :=
  match n with
  | O => mret (opos, ipos, output)
  | Datatypes.S n =>
      if opos <? outputLen then
        '(opos, ipos, output) ← decode_round opos ipos output;
        decode_loop n outputLen opos ipos output
      else mret (opos, ipos, output)
  end.

Definition all_zero (l : bytes) : bool := forallb (λ x, x =? 0) l.

Definition ToData : gores bytes :=
  version ← index b VersionOffset;
  if negb (version =? EncodingVersion) then Fail (ErrMsg "invalid encoding version")
  else
    b2 ← index b 2;
    b3 ← index b 3;
    b4 ← index b 4;
    let outputLen := Z.lor (Z.lor (Z.shiftl b2 16) (Z.shiftl b3 8)) b4 in
    if MaxBlobDataSize <? outputLen then Fail (ErrMsg "invalid length for blob")
    else
      let output := zeros MaxBlobDataSize in
      first ← slice b 5 (zlen b);
      let output := go_copy (zeros 27) first ++ drop 27 output in
      e0 ← index b 0;
      '(opos, ipos, output) ← decode_rest e0 28 32 output;
      '(opos, ipos, output) ← decode_loop (Z.to_nat (Rounds - 1)) outputLen opos ipos output;
      if negb (all_zero (drop (Z.to_nat outputLen) output))
      then Fail (ErrMsg "non-zero data encountered where field element should be empty")
      else
        if BlobSize <=? ipos then mret (take (Z.to_nat outputLen) output)
        else
          if zlen b <? BlobSize then
            (if all_zero (drop (Z.to_nat ipos) b) then Panic OutOfRange
             else Fail (ErrMsg "non-zero data encountered where blob should be empty"))
          else if all_zero (drop (Z.to_nat ipos) (take (Z.to_nat BlobSize) b))
          then mret (take (Z.to_nat outputLen) output)
          else Fail (ErrMsg "non-zero data encountered where blob should be empty").

End decode.

(** ** 31 bytes for each field element (utils.go) *)

Definition FieldElementsPerBlob : Z := 4096.

(** [fieldIndex] and the blobs, of which the last is being filled. *)
Definition encode_field (data : bytes) (st : Z * list bytes) (k : Z) : gores (Z * list bytes) :=
  let '(fieldIndex, blobs) := st in
  let i := 31 * k in
  let fieldIndex := fieldIndex + 1 in
  let '(fieldIndex, blobs) := if fieldIndex =? FieldElementsPerBlob
                              then (0, blobs ++ [zeros BlobSize]) else (fieldIndex, blobs) in
  chunk ← slice data i (Z.min (i + 31) (zlen data));
  blob ← index blobs (zlen blobs - 1);
  blob ← copy_at blob (fieldIndex * 32 + 1) chunk;
  mret (fieldIndex, take (length blobs - 1) blobs ++ [blob]).

Definition EncodeBlobs (data : bytes) : gores (list bytes) :=
  '(_, blobs) ← foldM (encode_field data) (-1, [zeros BlobSize]) (seqZ 0 ((zlen data + 30) / 31));
  mret blobs.

Definition decode_field (blob : bytes) (data : bytes) (i : Z) : gores bytes :=
  s ← slice blob (32 * i + 1) (32 * i + 32);
  mret (data ++ s).

Definition DecodeBlob (blob : bytes) : gores bytes :=
  if negb (zlen blob =? FieldElementsPerBlob * 32) then Panic (Explicit "Invalid blob encoding")
  else foldM (decode_field blob) [] (seqZ 0 FieldElementsPerBlob).

(** [ConvertToBlobs]: the data as it is, cut at the size of a blob. *)
Definition ConvertToBlobs (data : bytes) : gores (list bytes) :=
  foldM (λ blobs k,
      let i := k * BlobSize in
      chunk ← slice data i (Z.min (i + BlobSize) (zlen data));
      mret (blobs ++ [go_copy (zeros BlobSize) chunk])) [] (seqZ 0 ((zlen data + BlobSize - 1) / BlobSize)).
