(* ===== verification/BlobBits.v ===== *)
(** * The bits of the compact blob encoding

    Three bytes become the first bytes of four field elements, six bits each, and
    back: both directions are inverse, checked over all pairs of bytes. *)

From S2P Require Import Prelude.

Definition pairs_below (n : Z) (f : Z → Z → bool) : bool := forallb (λ x, forallb (f x) (seqZ 0 n)) (seqZ 0 n).

Lemma pairs_below_spec n f x y : pairs_below n f = true → 0 ≤ x < n → 0 ≤ y < n → f x y = true.
Proof.
  rw /pairs_below !forallb_forall => H Hx Hy. have Hin z : 0 ≤ z < n → In z (seqZ 0 n).
  { intros. apply list_elem_of_In, elem_of_seqZ. lia. }
  have := H x (Hin x Hx). rw forallb_forall. intros H'. exact (H' y (Hin y Hy)).
Qed.

(** The first bytes of the four elements, and the three bytes back. *)
Definition top_A (x y z : Z) : Z := Z.land x 63.
Definition top_B (x y z : Z) : Z := Z.lor (Z.land y 15) (Z.shiftr (Z.land x 192) 2).
Definition top_C (x y z : Z) : Z := Z.land z 63.
Definition top_D (x y z : Z) : Z := Z.lor (Z.shiftr (Z.land z 192) 2) (Z.shiftr (Z.land y 240) 4).
Definition byte_x (a b c d : Z) : Z := Z.lor (Z.land a 63) (Z.shiftl (Z.land b 48) 2).
Definition byte_y (a b c d : Z) : Z := Z.lor (Z.land b 15) (Z.shiftl (Z.land d 15) 4).
Definition byte_z (a b c d : Z) : Z := Z.lor (Z.land c 63) (Z.shiftl (Z.land d 48) 2).

Lemma tops_small x y z : 0 ≤ x < 256 → 0 ≤ y < 256 → 0 ≤ z < 256 →
  0 ≤ top_A x y z < 64 ∧ 0 ≤ top_B x y z < 64 ∧ 0 ≤ top_C x y z < 64 ∧ 0 ≤ top_D x y z < 64.
Proof.
  intros Hx Hy Hz.
  have T1 : pairs_below 256 (λ x y, (0 <=? top_A x y 0) && (top_A x y 0 <? 64) && (0 <=? top_B x y 0) && (top_B x y 0 <? 64)) = true by vm_compute.
  have H1 := pairs_below_spec _ _ x y T1 Hx Hy.
  have T2 : pairs_below 256 (λ y z, (0 <=? top_C 0 y z) && (top_C 0 y z <? 64) && (0 <=? top_D 0 y z) && (top_D 0 y z <? 64)) = true by vm_compute.
  have H2 := pairs_below_spec _ _ y z T2 Hy Hz.
  rw /top_A /top_B /top_C /top_D in H1 H2 *. lia.
Qed.

Lemma bytes_tops x y z : 0 ≤ x < 256 → 0 ≤ y < 256 → 0 ≤ z < 256 →
  let a := top_A x y z in let b := top_B x y z in let c := top_C x y z in let d := top_D x y z in
  byte_x a b c d = x ∧ byte_y a b c d = y ∧ byte_z a b c d = z.
Proof.
  intros Hx Hy Hz. cbv zeta.
  have T1 : pairs_below 256 (λ x y, (byte_x (top_A x y 0) (top_B x y 0) 0 0 =? x) && (Z.land (top_B x y 0) 15 =? Z.land y 15)) = true by vm_compute.
  have H1 := pairs_below_spec _ _ x y T1 Hx Hy.
  have T2 : pairs_below 256 (λ y z, (byte_z 0 0 (top_C 0 y z) (top_D 0 y z) =? z) &&
    (Z.lor (Z.land y 15) (Z.shiftl (Z.land (top_D 0 y z) 15) 4) =? y)) = true by vm_compute.
  have H2 := pairs_below_spec _ _ y z T2 Hy Hz.
  rw /byte_x /byte_y /byte_z /top_A /top_B /top_C /top_D in H1 H2 *.
  apply andb_prop in H1 as [H1 H1'%Z.eqb_eq]. apply andb_prop in H2 as [H2 H2'].
  split_and!; [lia|rw H1'; lia|lia].
Qed.

Lemma tops_bytes a b c d : 0 ≤ a < 64 → 0 ≤ b < 64 → 0 ≤ c < 64 → 0 ≤ d < 64 →
  let x := byte_x a b c d in let y := byte_y a b c d in let z := byte_z a b c d in
  (0 ≤ x < 256 ∧ 0 ≤ y < 256 ∧ 0 ≤ z < 256) ∧
  top_A x y z = a ∧ top_B x y z = b ∧ top_C x y z = c ∧ top_D x y z = d.
Proof.
  intros Ha Hb Hc Hd. cbv zeta.
  have T1 : pairs_below 64 (λ a b, 
    ((0 <=? byte_x a b 0 0) && (byte_x a b 0 0 <? 256) && (top_A (byte_x a b 0 0) 0 0 =? a) &&
     (Z.shiftr (Z.land (byte_x a b 0 0) 192) 2 =? Z.land b 48))) = true by vm_compute.
  have H1 := pairs_below_spec _ _ a b T1 ltac:(done) ltac:(done).
  have T2 : pairs_below 64 (λ c d, 
    ((0 <=? byte_z 0 0 c d) && (byte_z 0 0 c d <? 256) && (top_C 0 0 (byte_z 0 0 c d) =? c) &&
     (Z.shiftr (Z.land (byte_z 0 0 c d) 192) 2 =? Z.land d 48))) = true by vm_compute.
  have H2 := pairs_below_spec _ _ c d T2 ltac:(done) ltac:(done).
  have T3 : pairs_below 64 (λ b d, 
    ((0 <=? byte_y 0 b 0 d) && (byte_y 0 b 0 d <? 256) && (Z.land (byte_y 0 b 0 d) 15 =? Z.land b 15) &&
     (Z.shiftr (Z.land (byte_y 0 b 0 d) 240) 4 =? Z.land d 15) &&
     (Z.lor (Z.land b 15) (Z.land b 48) =? b) && (Z.lor (Z.land d 48) (Z.land d 15) =? d))) = true by vm_compute.
  have H3 := pairs_below_spec _ _ b d T3 ltac:(done) ltac:(done).
  rw /top_A /top_B /top_C /top_D. rw /byte_x /byte_y /byte_z /top_A /top_C in H1 H2 H3 *.
  repeat match goal with H : _ && _ = true |- _ => apply andb_prop in H as [? ?] end.
  repeat match goal with H : (_ =? _) = true |- _ => apply Z.eqb_eq in H end.
  split_and!; try lia; congruence.
Qed.
