(* ===== verification/BlobEncoderFacts.v ===== *)
(** * The codecs of blobs are inverse to each other

    The compact encoding spreads a stream of 1024 times 127 bytes, the header, the
    data and zeros, over 1024 blocks of 128 bytes; both directions are the same
    map between chunks and blocks. *)

From S2P Require Import Prelude BlobEncoder BlobBits.

(** ** Lists *)

Lemma zeros_app a b : 0 ≤ a → 0 ≤ b → zeros (a + b) = zeros a ++ zeros b.
Proof. intros. rw /zeros Z2Nat.inj_add; [lia..|]. apply replicate_add. Qed.

Lemma zlen_cons {A} (x : A) l : zlen (x :: l) = 1 + zlen l.
Proof. rw /zlen /=. lia. Qed.

Lemma take_zeros k n : 0 ≤ k ≤ n → take (Z.to_nat k) (zeros n) = zeros k.
Proof. intros. rw /zeros take_replicate. f_equal. lia. Qed.

Lemma zlen_take {A} (l : list A) n : 0 ≤ n ≤ zlen l → zlen (take (Z.to_nat n) l) = n.
Proof. rw /zlen length_take. lia. Qed.

Lemma zlen_drop {A} (l : list A) n : 0 ≤ n ≤ zlen l → zlen (drop (Z.to_nat n) l) = zlen l - n.
Proof. rw /zlen length_drop. lia. Qed.

Lemma copy_at_end P n s : zlen s ≤ n → copy_at (P ++ zeros n) (zlen P) s = Ret (P ++ s ++ zeros (n - zlen s)).
Proof.
  intros Hs. have := zlen_nonneg P. have := zlen_nonneg s. intros. rw /copy_at zlen_app zlen_zeros; [lia|].
  rw (proj2 (Z.leb_le _ _)); [lia|]. rw (proj2 (Z.leb_le _ _)); [lia|]. cbn [andb].
  have -> : Z.to_nat (zlen P) = length P by rw /zlen; lia. rw take_app_length drop_app_length.
  do 2 f_equal. rw (_ : n = zlen s + (n - zlen s)); [lia|]. rw zeros_app; [lia..|]. rw /go_copy length_app.
  rw take_ge; [rw /zeros length_replicate /zlen; lia|]. f_equal.
  rw drop_app_ge; [rw /zeros length_replicate /zlen; lia|]. rw /zeros length_replicate.
  rw (_ : zlen s + (n - zlen s) - zlen s = n - zlen s); [lia|].
  rw (_ : (length s - Z.to_nat (zlen s))%nat = 0%nat); [rw /zlen; lia|]. done.
Qed.

Lemma set_at_mid P u Q v i : i = zlen P → set_at (P ++ u :: Q) i v = Ret (P ++ v :: Q).
Proof.
  intros ->. have := zlen_nonneg P. have := zlen_nonneg Q. intros. rw /set_at zlen_app zlen_cons.
  rw (proj2 (Z.leb_le _ _)); [lia|]. rw (proj2 (Z.ltb_lt _ _)); [lia|]. cbn [andb].
  have -> : Z.to_nat (zlen P) = (length P + 0)%nat by rw /zlen; lia. by rw insert_app_r.
Qed.

(** ** Windows

    [at_ l i] is the byte of [l] at [i], and 0 outside of it; [win l q n] the [n] bytes from [q]. *)

Definition at_ (l : bytes) (i : Z) : Z := if 0 <=? i then default 0 (l !! Z.to_nat i) else 0.

Definition win (l : bytes) (q n : Z) : bytes := at_ l <$> seqZ q n.

Lemma zlen_win l q n : 0 ≤ n → zlen (win l q n) = n.
Proof. intros. rw /zlen /win length_fmap length_seqZ. lia. Qed.

Lemma win_add l q a b : 0 ≤ a → 0 ≤ b → win l q (a + b) = win l q a ++ win l (q + a) b.
Proof. intros. rw /win seqZ_app; [lia..|]. by rw fmap_app. Qed.

Lemma win_one l q : win l q 1 = [at_ l q].
Proof. done. Qed.

Lemma at_app_l l k i : i < zlen l → at_ (l ++ k) i = at_ l i.
Proof. rw /at_ /zlen => Hi. destruct (Z.leb_spec 0 i); [|done]. rw lookup_app_l //. lia. Qed.

Lemma at_app_r l k i : zlen l ≤ i → at_ (l ++ k) i = at_ k (i - zlen l).
Proof.
  rw /at_ /zlen => Hi. rw !(proj2 (Z.leb_le _ _)); [lia..|]. rw lookup_app_r; [lia|]. do 2 f_equal. lia.
Qed.

Lemma at_ge l i : zlen l ≤ i → at_ l i = 0.
Proof. rw /at_ /zlen => Hi. destruct (Z.leb_spec 0 i); [|done]. rw lookup_ge_None_2 //. lia. Qed.

Lemma at_zeros n i : at_ (zeros n) i = 0.
Proof.
  rw /at_ /zeros. destruct (Z.leb_spec 0 i); [|done].
  destruct (_ !! _) eqn:E; [|done]. by apply lookup_replicate in E as [-> _].
Qed.

Lemma at_byte l i : is_bytes l → 0 ≤ at_ l i < 256.
Proof.
  rw /at_ => Hl. destruct (_ <=? _); [|lia]. destruct (_ !! _) eqn:E; simpl; [|lia].
  apply (Forall_lookup_1 _ _ _ _ Hl E).
Qed.

Lemma win_ext l k q p n : (∀ i, 0 ≤ i < n → at_ l (q + i) = at_ k (p + i)) → win l q n = win k p n.
Proof.
  intros H. apply list_eq. intros i. rw /win (list_lookup_fmap (at_ l)) (list_lookup_fmap (at_ k)). destruct (decide (Z.of_nat i < n)).
  - rw !lookup_seqZ_lt; [lia..|]. simpl. f_equal. apply H. lia.
  - by rw !lookup_seqZ_ge; [lia..|].
Qed.

Lemma at_win l q n i : 0 ≤ i < n → at_ (win l q n) i = at_ l (q + i).
Proof.
  intros Hi. rw {1}/at_ (proj2 (Z.leb_le _ _)); [lia|]. rw /win list_lookup_fmap lookup_seqZ_lt; [lia|].
  simpl. f_equal. lia.
Qed.

Lemma win_self l : win l 0 (zlen l) = l.
Proof.
  apply list_eq. intros i. rw /win list_lookup_fmap. destruct (decide (Z.of_nat i < zlen l)) as [Hi|Hi].
  - rw lookup_seqZ_lt; [lia|]. simpl. rw /at_ (proj2 (Z.leb_le _ _)); [lia|]. rw Z.add_0_l Nat2Z.id.
    destruct (lookup_lt_is_Some_2 l i) as [v Hv]; [rw /zlen in Hi; lia|].
    change (Some (default 0 (l !! i)) = l !! i). by rw Hv.
  - rw lookup_seqZ_ge; [lia|]. rw lookup_ge_None_2 //. rw /zlen in Hi. lia.
Qed.

Lemma bytes_ext l k : zlen l = zlen k → (∀ i, 0 ≤ i < zlen l → at_ l i = at_ k i) → l = k.
Proof. intros Hl H. rw -(win_self l) -(win_self k) -Hl. apply win_ext. intros i Hi. rw !Z.add_0_l. by apply H. Qed.

Lemma win_zero l q n : 0 ≤ n → (∀ i, q ≤ i < q + n → at_ l i = 0) → win l q n = zeros n.
Proof.
  intros Hn H. rw -(win_self (zeros n)) zlen_zeros //. apply win_ext. intros i Hi. rw at_zeros. apply H. lia.
Qed.

Lemma win_slice l q n : 0 ≤ q → 0 ≤ n → q + n ≤ zlen l → take (Z.to_nat n) (drop (Z.to_nat q) l) = win l q n.
Proof.
  intros. apply list_eq. intros i. rw /win list_lookup_fmap. destruct (decide (Z.of_nat i < n)).
  - rw lookup_take_lt; [lia|]. rw lookup_drop lookup_seqZ_lt; [lia|]. simpl. rw /at_ (proj2 (Z.leb_le _ _)); [lia|].
    have -> : Z.to_nat (q + Z.of_nat i) = (Z.to_nat q + i)%nat by lia.
    destruct (lookup_lt_is_Some_2 l (Z.to_nat q + i)) as [v Hv]; [rw /zlen in H1; lia|].
    change (l !! (Z.to_nat q + i)%nat = Some (default 0 (l !! (Z.to_nat q + i)%nat))). by rw Hv.
  - rw lookup_seqZ_ge; [lia|]. rw lookup_take_ge //. lia.
Qed.

Lemma win_app_r l k q n : win (l ++ k) (zlen l + q) n = win k q n ∨ q < 0.
Proof.
  destruct (decide (q < 0)); [by right|left]. apply win_ext. intros i Hi. rw at_app_r; [lia|]. f_equal. lia.
Qed.

Lemma slice_win l q n : 0 ≤ q → 0 ≤ n → q + n ≤ zlen l → slice l q (q + n) = Ret (win l q n).
Proof. intros. rw slice_ok; [lia..|]. rw -win_slice //. do 3 f_equal. lia. Qed.

Lemma index_at l i : 0 ≤ i < zlen l → index l i = Ret (at_ l i).
Proof.
  rw /zlen => Hi. rw /index /at_. destruct (lookup_lt_is_Some_2 l (Z.to_nat i)) as [v Hv]; [lia|].
  rw Hv. rw !(proj2 (Z.leb_le 0 i)); [lia|]. done.
Qed.

(** ** Chunks and blocks *)

(** 127 bytes as 128, four field elements, and back. *)
Definition enc127 (c : bytes) : bytes :=
  let x := at_ c 31 in let y := at_ c 63 in let z := at_ c 95 in
  top_A x y z :: win c 0 31 ++ top_B x y z :: win c 32 31 ++ top_C x y z :: win c 64 31 ++ top_D x y z :: win c 96 31.

Definition dec127 (c : bytes) : bytes :=
  let x0 := at_ c 0 in let x1 := at_ c 32 in let x2 := at_ c 64 in let x3 := at_ c 96 in
  win c 1 31 ++ byte_x x0 x1 x2 x3 :: win c 33 31 ++ byte_y x0 x1 x2 x3 :: win c 65 31 ++ byte_z x0 x1 x2 x3 :: win c 97 31.

Lemma win_app_first l k n : zlen l = n → win (l ++ k) 0 n = l.
Proof. intros <-. trans (win l 0 (zlen l)); [|apply win_self]. apply win_ext. intros i Hi. apply at_app_l. lia. Qed.

Lemma win_app_rest l k q p n : zlen l = p → p ≤ q → win (l ++ k) q n = win k (q - p) n.
Proof. intros <- Hq. apply win_ext. intros i Hi. rw at_app_r; [lia|]. f_equal. lia. Qed.

Lemma at_app_rest l k q p : zlen l = p → p ≤ q → at_ (l ++ k) q = at_ k (q - p).
Proof. intros <- Hq. by apply at_app_r. Qed.

Lemma at_cons_S x l i : 0 < i → at_ (x :: l) i = at_ l (i - 1).
Proof. intros. rw (at_app_r [x] l); [rw /zlen /=; lia|]. done. Qed.

Lemma win_cons_S x l q n : 0 < q → win (x :: l) q n = win l (q - 1) n.
Proof. intros. rw (win_app_rest [x] l q 1); [done|lia|]. done. Qed.

Lemma at_cons_0 x l i : i = 0 → at_ (x :: l) i = x.
Proof. by intros ->. Qed.

Lemma win_app_0 l k q n : zlen l = n → q = 0 → win (l ++ k) q n = l.
Proof. intros Hl ->. by apply win_app_first. Qed.

Lemma win_all l q n : zlen l = n → q = 0 → win l q n = l.
Proof. intros <- ->. apply win_self. Qed.

Section chunk.
Context (s0 s1 s2 s3 : bytes) (H0 : zlen s0 = 31) (H1 : zlen s1 = 31) (H2 : zlen s2 = 31) (H3 : zlen s3 = 31).

#[local] Ltac walk :=
  repeat match goal with
  | |- context [at_ (?a :: ?l) ?i] => first [rw (at_cons_0 a l i); [lia|] | rw (at_cons_S a l i); [lia|]]
  | |- context [win (?a :: ?l) ?i ?n] => rw (win_cons_S a l i n); [lia|]
  | H : zlen ?s = _ |- context [at_ (?s ++ ?l) ?i] => rw (at_app_rest s l i _ H); [lia|]
  | H : zlen ?s = _ |- context [win (?s ++ ?l) ?i ?n] =>
      first [rw (win_app_0 s l i n H); [lia|] | rw (win_app_rest s l i _ n H); [lia|]]
  | H : zlen ?s = _ |- context [win ?s ?i ?n] => rw (win_all s i n H); [lia|]
  end.

Lemma enc127_eq x y z :
  enc127 (s0 ++ x :: s1 ++ y :: s2 ++ z :: s3) =
  top_A x y z :: s0 ++ top_B x y z :: s1 ++ top_C x y z :: s2 ++ top_D x y z :: s3.
Proof. rw /enc127. by walk. Qed.

Lemma dec127_eq a b c d :
  dec127 (a :: s0 ++ b :: s1 ++ c :: s2 ++ d :: s3) =
  s0 ++ byte_x a b c d :: s1 ++ byte_y a b c d :: s2 ++ byte_z a b c d :: s3.
Proof. rw /dec127. by walk. Qed.

Lemma tops_eq a b c d k : 0 ≤ k < 4 →
  at_ (a :: s0 ++ b :: s1 ++ c :: s2 ++ d :: s3) (32 * k) = if k =? 0 then a else if k =? 1 then b else if k =? 2 then c else d.
Proof.
  intros Hk. have [->|[->|[->| ->]]] : k = 0 ∨ k = 1 ∨ k = 2 ∨ k = 3 by lia.
  all: cbn [Z.mul Z.eqb Pos.mul Pos.eqb]. all: by walk.
Qed.

End chunk.

(** The first bytes of the elements of a block have their two highest bits clear. *)
Definition canonical (c : bytes) : Prop := ∀ k, 0 ≤ k < 4 → at_ c (32 * k) < 64.

Lemma chunk_split c : zlen c = 127 → is_bytes c → ∃ s0 x s1 y s2 z s3,
  (zlen s0 = 31 ∧ zlen s1 = 31 ∧ zlen s2 = 31 ∧ zlen s3 = 31) ∧
  (0 ≤ x < 256 ∧ 0 ≤ y < 256 ∧ 0 ≤ z < 256) ∧ c = s0 ++ x :: s1 ++ y :: s2 ++ z :: s3.
Proof.
  intros Hc Hb. exists (win c 0 31), (at_ c 31), (win c 32 31), (at_ c 63), (win c 64 31), (at_ c 95), (win c 96 31).
  rw !zlen_win; [lia..|]. split_and!; try done; try by apply at_byte.
  rw -{1}(win_self c) Hc. change 127 with (31 + (1 + (31 + (1 + (31 + (1 + 31)))))). by rw !win_add; [lia..|].
Qed.

Lemma block_split c : zlen c = 128 → ∃ a s0 b s1 x s2 d s3,
  (zlen s0 = 31 ∧ zlen s1 = 31 ∧ zlen s2 = 31 ∧ zlen s3 = 31) ∧
  (at_ c 0 = a ∧ at_ c 32 = b ∧ at_ c 64 = x ∧ at_ c 96 = d) ∧
  c = a :: s0 ++ b :: s1 ++ x :: s2 ++ d :: s3.
Proof.
  intros Hc. exists (at_ c 0), (win c 1 31), (at_ c 32), (win c 33 31), (at_ c 64), (win c 65 31), (at_ c 96), (win c 97 31).
  rw !zlen_win; [lia..|]. split_and!; try done.
  rw -{1}(win_self c) Hc. change 128 with (1 + (31 + (1 + (31 + (1 + (31 + (1 + 31))))))). by rw !win_add; [lia..|].
Qed.

Lemma dec_enc127 c : zlen c = 127 → is_bytes c → dec127 (enc127 c) = c.
Proof.
  intros Hc Hb. destruct (chunk_split c Hc Hb) as (s0&x&s1&y&s2&z&s3&(?&?&?&?)&(Hx&Hy&Hz)&->).
  rw enc127_eq // dec127_eq //. by pose proof (bytes_tops x y z Hx Hy Hz) as (->&->&->).
Qed.

Lemma enc_dec127 c : zlen c = 128 → is_bytes c → canonical c → enc127 (dec127 c) = c.
Proof.
  intros Hc Hb Ht. destruct (block_split c Hc) as (a&s0&b&s1&x&s2&d&s3&(?&?&?&?)&(Ha&Hb'&Hx&Hd)&E).
  have Hr k : 0 ≤ k < 4 → 0 ≤ at_ c (32 * k) < 64.
  { intros Hk. have := at_byte c (32 * k) Hb. have := Ht k Hk. lia. }
  have R0 : 0 ≤ a < 64 by rw -Ha; exact (Hr 0 ltac:(lia)). have R1 : 0 ≤ b < 64 by rw -Hb'; exact (Hr 1 ltac:(lia)).
  have R2 : 0 ≤ x < 64 by rw -Hx; exact (Hr 2 ltac:(lia)). have R3 : 0 ≤ d < 64 by rw -Hd; exact (Hr 3 ltac:(lia)).
  rw E dec127_eq // enc127_eq //.
  pose proof (tops_bytes a b x d R0 R1 R2 R3) as (_&->&->&->&->). done.
Qed.

Lemma zlen_elem v l q k : zlen (v :: win l q 31 ++ k) = 32 + zlen k.
Proof. rw zlen_cons zlen_app zlen_win; lia. Qed.

Lemma zlen_enc127 c : zlen (enc127 c) = 128.
Proof. rw /enc127 3!zlen_elem zlen_cons zlen_win; lia. Qed.

Lemma zlen_dec127 c : zlen (dec127 c) = 127.
Proof. rw /dec127 zlen_app 2!zlen_elem zlen_cons !zlen_win; lia. Qed.

Lemma enc127_zeros : enc127 (zeros 127) = zeros 128.
Proof. vm_compute. reflexivity. Qed.

Lemma dec127_zeros : dec127 (zeros 128) = zeros 127.
Proof. vm_compute. reflexivity. Qed.

Lemma canonical_enc127 c : zlen c = 127 → is_bytes c → canonical (enc127 c).
Proof.
  intros Hc Hb k Hk. destruct (chunk_split c Hc Hb) as (s0&x&s1&y&s2&z&s3&(?&?&?&?)&(Hx&Hy&Hz)&->).
  rw enc127_eq // tops_eq //. pose proof (tops_small x y z Hx Hy Hz) as (?&?&?&?). repeat case_match; lia.
Qed.

(** ** The stream and the blob *)

(** The blocks of a blob, each made of a chunk of the stream, and the other way. *)
Definition blocks (f : Z → bytes) (a n : Z) : bytes := concat (f <$> seqZ a n).

Section blocks.
Context (f : Z → bytes) (k : Z) (Hk : 0 ≤ k) (Hf : ∀ r, zlen (f r) = k).

Lemma blocks_add a n m : 0 ≤ n → 0 ≤ m → blocks f a (n + m) = blocks f a n ++ blocks f (a + n) m.
Proof. intros. rw /blocks seqZ_app // fmap_app concat_app //. Qed.

Lemma blocks_one a : blocks f a 1 = f a.
Proof. rw /blocks /=. apply app_nil_r. Qed.

Lemma zlen_blocks a n : 0 ≤ n → zlen (blocks f a n) = k * n.
Proof.
  intros Hn. revert n Hn a. apply (natlike_ind (λ n, ∀ a, zlen (blocks f a n) = k * n)).
  - intros a. rw /blocks /zlen /=. lia.
  - intros n Hn IH a. rw -Z.add_1_r blocks_add; [lia..|]. rw zlen_app IH blocks_one Hf. lia.
Qed.

Lemma win_blocks_at a n r : 0 ≤ r < n → win (blocks f a n) (k * r) k = f (a + r).
Proof.
  intros Hr. have [m [Hm ->]] : ∃ m, 0 ≤ m ∧ n = r + (1 + m) by exists (n - r - 1); lia. rw !blocks_add; [lia..|]. rw blocks_one.
  rw (win_app_rest _ _ _ (k * r)); [apply zlen_blocks; lia|lia|]. apply win_app_0; [apply Hf|lia].
Qed.

Lemma win_blocks n r : 0 ≤ r < n → win (blocks f 0 n) (k * r) k = f r.
Proof. apply win_blocks_at. Qed.

End blocks.

Lemma blocks_win l k n : 0 ≤ k → 0 ≤ n → blocks (λ r, win l (k * r) k) 0 n = win l 0 (k * n).
Proof.
  intros Hk. revert n. apply natlike_ind; [by rw Z.mul_0_r|]. intros n Hn IH.
  rw -Z.add_1_r blocks_add; [lia..|]. rw IH blocks_one (_ : k * (n + 1) = k * n + k); [lia|]. rw win_add; [nia|lia|]. by rw !Z.add_0_l.
Qed.

Lemma blocks_ext f g a n : (∀ r, a ≤ r < a + n → f r = g r) → blocks f a n = blocks g a n.
Proof.
  intros H. rw /blocks. f_equal. apply list_fmap_ext. intros i x Hx. apply lookup_seqZ in Hx as [-> ?]. apply H. lia.
Qed.

Lemma blocks_zeros f k a n : 0 ≤ k → 0 ≤ n → (∀ r, a ≤ r < a + n → f r = zeros k) → blocks f a n = zeros (k * n).
Proof.
  intros Hk Hn. revert n Hn. apply (natlike_ind (λ n, (∀ r, _ → _) → blocks f a n = _)); [by rw Z.mul_0_r|].
  intros n Hn IH H. rw -Z.add_1_r blocks_add; [lia..|]. rw IH; [intros; apply H; lia|]. rw blocks_one H; [lia|].
  rw -zeros_app; [nia|lia|]. f_equal. lia.
Qed.

(** ** Encoding *)

Lemma go_copy_take dst src n : (n ≤ length dst)%nat → (n ≤ length src)%nat → take n (go_copy dst src) = take n src.
Proof. intros. rw /go_copy take_app_le; [rw length_take; lia|]. rw take_take. f_equal. lia. Qed.

Lemma go_copy_clear dst n : zlen dst ≤ n → go_copy dst (zeros n) = zeros (zlen dst).
Proof.
  intros Hn. rw /go_copy /zeros length_replicate take_replicate drop_ge; [rw /zlen in Hn; lia|].
  rw app_nil_r. f_equal. rw /zlen in Hn *. lia.
Qed.

Section encode.
Context (data : bytes) (Hd : is_bytes data) (Hmax : zlen data ≤ MaxBlobDataSize).

(** The stream: the header and the data; beyond them it reads as zeros. *)
Definition stream : bytes := header_bytes data ++ data.

Lemma header_is_bytes : is_bytes (header_bytes data).
Proof.
  rw /header_bytes /EncodingVersion /is_bytes.
  repeat (apply Forall_cons; split; [first [apply Z.mod_pos_bound; lia | lia]|]). done.
Qed.

Lemma stream_bytes : is_bytes stream.
Proof. apply Forall_app. split; [exact header_is_bytes|done]. Qed.

Lemma zlen_stream : zlen stream = 4 + zlen data.
Proof. by rw /stream zlen_app. Qed.

Lemma win_bytes l q n : is_bytes l → is_bytes (win l q n).
Proof. intros Hl. rw /win /is_bytes Forall_fmap. apply Forall_true. intros x. by apply at_byte. Qed.

(** The encoder has read the stream up to [q]. *)
Definition read_to (q : Z) (e : encoder) : Prop := readOffset e = Z.max 0 (Z.min (zlen data) (q - 4)) ∧ zlen (buf31 e) = 31.

Definition set_read (q : Z) (buf : bytes) (e : encoder) : encoder :=
  mkEncoder (Z.max 0 (Z.min (zlen data) (q - 4))) (writeOffset e) buf (e_blob e).

Lemma read1_eq q e : 4 ≤ q → read_to q e → read1 data e = (Ret (at_ stream q), set_read (q + 1) (buf31 e) e).
Proof.
  have := zlen_nonneg data. intros Hz Hq [Hr _]. rw /read1 Hr /set_read /stream (at_app_rest _ _ _ 4) //. case_match.
  - rw at_ge; [lia|]. destruct e as [ro wo bu bl]. cbn in *. subst ro. do 2 f_equal. lia.
  - rw index_at; [lia|]. do 3 f_equal; lia.
Qed.

Lemma read31_eq q e : 4 ≤ q → read_to q e → read31 data e = (Ret tt, set_read (q + 31) (win stream q 31) e).
Proof.
  have := zlen_nonneg data. intros Hz Hq [Hr Hbuf]. rw /read31 Hr /set_read /stream (win_app_rest _ _ _ 4) //. case_match.
  - rw go_copy_full; [rw /zlen in Hbuf; rw /zeros length_replicate; lia|].
    rw (win_zero data); [lia|intros; apply at_ge; lia|]. do 2 f_equal. lia.
  - set (p := q - 4). have -> : Z.max 0 (Z.min (zlen data) p) = p by lia. set (n := Z.min 31 (zlen data - p)).
    do 2 f_equal; [lia|]. rw go_copy_take; [rw /zlen in Hbuf; lia|rw length_drop; rw /zlen in n *; lia|]. rw win_slice; [lia..|].
    have Hl : zlen (drop (Z.to_nat n) (go_copy (buf31 e) (drop (Z.to_nat p) data))) = 31 - n.
    { rw zlen_drop; rw {1}/zlen length_go_copy; rw /zlen in Hbuf; lia. }
    rw go_copy_clear; [lia|]. rw Hl (_ : 31 = n + (31 - n)); [lia|].
    rw win_add; [lia..|]. rw (win_zero _ (p + n)); [lia|intros; apply at_ge; lia|]. do 2 f_equal. lia.
Qed.

Lemma read_header_eq wo bl :
  read_header data (mkEncoder 0 wo (zeros 31) bl) = (Ret tt, set_read 31 (win stream 0 31) (mkEncoder 0 wo (zeros 31) bl)).
Proof.
  have := zlen_nonneg data. intros Hz. rw /read_header /set_read. cbn [readOffset writeOffset buf31 e_blob]. do 2 f_equal; [lia|].
  rw /stream (_ : 31 = 4 + 27) // win_add // win_app_0 // (win_app_rest _ _ _ 4) //. f_equal.
  change (drop 4 (zeros (4 + 27))) with (zeros 27). change (0 + 4 - 4) with 0.
  destruct (decide (zlen data ≤ 27)).
  - rw go_copy_zeros // (_ : 27 = zlen data + (27 - zlen data)); [lia|]. rw win_add; [lia..|]. rw win_self. f_equal.
    rw win_zero; [lia|intros; apply at_ge; lia|]. f_equal. lia.
  - rw -win_slice; [lia..|]. rw drop_0 /go_copy drop_ge; [rw /zlen in n; rw /zeros length_replicate; lia|].
    by rw app_nil_r /zeros length_replicate.
Qed.

(** The blob is written up to [w]. *)
Definition written (P : bytes) (n : Z) (e : encoder) : Prop := e_blob e = P ++ zeros n ∧ writeOffset e = zlen P.

Lemma write_elem v P n e : 0 ≤ v < 64 → 32 ≤ n → zlen P mod 32 = 0 → zlen (buf31 e) = 31 → written P n e →
  ∃ e', (_ ← write1 v; write31) e = (Ret tt, e') ∧ written (P ++ v :: buf31 e) (n - 32) e' ∧
  readOffset e' = readOffset e ∧ buf31 e' = buf31 e.
Proof.
  intros Hv Hn HP Hbuf [Hb Hw]. destruct e as [ro wo bu bl]. cbn in *. subst wo bl.
  rw /mbind /st_bind /write1 /=. rw HP /=.
  have -> : Z.land v 192 = 0.
  { have := pairs_below_spec 256 (λ v _, (64 <=? v) || (Z.land v 192 =? 0)) v 0 ltac:(vm_compute; reflexivity) ltac:(lia) ltac:(lia). lia. }
  cbn [negb Z.eqb]. rw {1}(_ : n = 1 + (n - 1)); [lia|]. rw zeros_app; [lia..|]. rw set_at_mid //.
  rw /write31 /=. rw (_ : (zlen P + 1) mod 32 = 1); [rw -Z.add_mod_idemp_l // HP //|]. cbn [negb Z.eqb Pos.eqb].
  rw (_ : P ++ v :: zeros (n - 1) = (P ++ [v]) ++ zeros (n - 1)); [by rw -app_assoc|].
  rw (_ : zlen P + 1 = zlen (P ++ [v])); [by rw zlen_app|]. rw copy_at_end; [lia|].
  eexists. split_and!; [reflexivity| |done..]. rw /written /= Hbuf. split.
  - rw -!app_assoc /=. do 4 f_equal. lia.
  - rw !zlen_app (zlen_cons v bu) Hbuf. change (zlen [v]) with 1. lia.
Qed.

(** The steps of a round, each with what follows it. *)
Definition enc_at (q : Z) (P : bytes) (n : Z) (e : encoder) : Prop := read_to q e ∧ written P n e.

Lemma read31_k q P n e : enc_at q P n e → 4 ≤ q → ∃ e', enc_at (q + 31) P n e' ∧ buf31 e' = win stream q 31 ∧
  ∀ k : unit → ST encoder unit, (read31 data ≫= k) e = k tt e'.
Proof.
  intros [Hr Hw] Hq. exists (set_read (q + 31) (win stream q 31) e). split_and!; [split|done|].
  - split; [done|]. by apply zlen_win.
  - exact Hw.
  - intros k. by rw /mbind /st_bind (read31_eq q).
Qed.

Lemma read1_k q P n e : enc_at q P n e → 4 ≤ q → ∃ e', enc_at (q + 1) P n e' ∧ buf31 e' = buf31 e ∧
  ∀ k : Z → ST encoder unit, (read1 data ≫= k) e = k (at_ stream q) e'.
Proof.
  intros [Hr Hw] Hq. exists (set_read (q + 1) (buf31 e) e). split_and!; [split|done|].
  - split; [done|]. apply Hr.
  - exact Hw.
  - intros k. by rw /mbind /st_bind (read1_eq q).
Qed.

Lemma write_k q v P n e : enc_at q P n e → 0 ≤ v < 64 → 32 ≤ n → zlen P mod 32 = 0 →
  ∃ e', enc_at q (P ++ v :: buf31 e) (n - 32) e' ∧ buf31 e' = buf31 e ∧
  (write1 v ≫= λ _, write31) e = (Ret tt, e') ∧
  ∀ k : unit → ST encoder unit, (write1 v ≫= λ _, write31 ≫= k) e = k tt e'.
Proof.
  intros [[Hr Hb] Hw] Hv Hn HP. destruct (write_elem v P n e) as (e'&E&Hw'&Hr'&Hb'); [done..|].
  exists e'. split_and!; [|done..|].
  - split; [|done]. split; [by rw Hr'|by rw Hb'].
  - intros k. move: E. rw /mbind /st_bind. destruct (write1 v e) as [[]]; [|done..]. by intros ->.
Qed.

Lemma read_first r P n e : 0 ≤ r → (r = 0 → buf31 e = zeros 31) → enc_at (127 * r) P n e →
  ∃ e', enc_at (127 * r + 31) P n e' ∧ buf31 e' = win stream (127 * r) 31 ∧
  ∀ k : unit → ST encoder unit, ((if r =? 0 then read_header data else read31 data) ≫= k) e = k tt e'.
Proof.
  intros Hr Hz He. case_match; [|apply read31_k; [done|lia]].
  have -> : r = 0 by lia. destruct e as [ro wo bu bl]. destruct He as [[Hro _] Hw]. cbn in Hz, Hro.
  have Hro' : ro = 0 by have := zlen_nonneg data; lia. rw Hro' Hz; [lia|]. rw Hro' Hz in Hw; [lia|].
  exists (set_read 31 (win stream 0 31) (mkEncoder 0 wo (zeros 31) bl)). split_and!; [split|done|].
  - split; [done|]. by apply zlen_win.
  - exact Hw.
  - intros k. by rw /mbind /st_bind read_header_eq.
Qed.

(** A field element of a round: 31 bytes, a byte, and the element's first byte, made of it. *)
Lemma elem_k f q P n e : enc_at q P n e → 4 ≤ q → 32 ≤ n → zlen P mod 32 = 0 → 0 ≤ f (at_ stream (q + 31)) < 64 →
  ∃ e', enc_at (q + 32) (P ++ f (at_ stream (q + 31)) :: win stream q 31) (n - 32) e' ∧
  ∀ k : Z → ST encoder unit,
    (read31 data ≫= λ _, read1 data ≫= λ y, write1 (f y) ≫= λ _, write31 ≫= λ _, k y) e = k (at_ stream (q + 31)) e'.
Proof.
  intros He Hq Hn HP Hf. destruct (read31_k q P n e) as (e1&H1&B1&E1); [done..|].
  destruct (read1_k (q + 31) P n e1) as (e2&H2&B2&E2); [done|lia|].
  destruct (write_k (q + 31 + 1) (f (at_ stream (q + 31))) P n e2) as (e3&H3&B3&_&E3); [done..|].
  exists e3. split; [|intros k; by rw E1 E2 E3]. by rw -Z.add_assoc B2 B1 in H3.
Qed.

Lemma zlen_snoc_elem P v q : zlen (P ++ v :: win stream q 31) = zlen P + 32.
Proof. rw zlen_app zlen_cons zlen_win; lia. Qed.

Lemma snoc_elem_mod P v q : zlen P mod 32 = 0 → zlen (P ++ v :: win stream q 31) mod 32 = 0.
Proof. intros HP. rw zlen_snoc_elem -Z.add_mod_idemp_l // HP //. Qed.

Lemma enc127_win q : 
  let x := at_ stream (q + 31) in let y := at_ stream (q + 63) in let z := at_ stream (q + 95) in
  enc127 (win stream q 127) = top_A x y z :: win stream q 31 ++ top_B x y z :: win stream (q + 32) 31 ++
    top_C x y z :: win stream (q + 64) 31 ++ top_D x y z :: win stream (q + 96) 31.
Proof.
  cbv zeta. change 127 with (31 + (1 + (31 + (1 + (31 + (1 + 31)))))). rw !win_add; [lia..|]. rw !win_one -!Z.add_assoc.
  cbn [app]. rw enc127_eq //; by apply zlen_win.
Qed.

Lemma encode_round_eq r e P n : 0 ≤ r → (r = 0 → buf31 e = zeros 31) → 128 ≤ n → zlen P mod 32 = 0 →
  enc_at (127 * r) P n e →
  ∃ e', encode_round data r e = (Ret tt, e') ∧ enc_at (127 * (r + 1)) (P ++ enc127 (win stream (127 * r) 127)) (n - 128) e'.
Proof.
  intros Hr Hz Hn HP He. rw /encode_round.
  destruct (read_first r P n e) as (e1&H1&B1&->); [done..|]. rw (_ : 127 * (r + 1) = 127 * r + 127); [lia|]. set (q := 127 * r).
  rw enc127_win. cbv zeta. set (x := at_ stream (q + 31)). set (y := at_ stream (q + 63)). set (z := at_ stream (q + 95)).
  pose proof (tops_small x y z (at_byte _ _ stream_bytes) (at_byte _ _ stream_bytes) (at_byte _ _ stream_bytes)) as (TA&TB&TC&TD).
  destruct (read1_k (q + 31) P n e1) as (e2&H2&B2&->); [done|lia|]. 
  destruct (write_k (q + 31 + 1) (top_A x y z) P n e2) as (e3&H3&_&_&->); [done..|lia|done|].
  rw B2 B1 -Z.add_assoc in H3.
  destruct (elem_k (λ y, top_B x y z) (q + 32) _ _ e3 H3) as (e4&H4&->); 
    [lia|lia|by apply snoc_elem_mod|by rw -Z.add_assoc|]. rw -!Z.add_assoc in H4 *.
  destruct (elem_k (λ z, top_C x y z) (q + 64) _ _ e4 H4) as (e5&H5&->); 
    [lia|lia|by do 2 apply snoc_elem_mod|by rw -Z.add_assoc|]. rw -!Z.add_assoc in H5 *.
  destruct (read31_k (q + 96) _ _ e5 H5) as (e6&H6&B6&->); [lia|].
  destruct (write_k (q + 96 + 31) (top_D x y z) _ _ e6 H6) as (e7&H7&_&E7&_); [done|lia|by do 3 apply snoc_elem_mod|].
  exists e7. split; [exact E7|]. rw B6 -Z.add_assoc -!app_assoc in H7. cbn [app] in H7.
  rw (_ : n - 128 = n - 32 - 32 - 32 - 32); [lia|]. exact H7.
Qed.

(** The chunk of a round that starts after the end of the data is empty. *)
Definition chunk_of (r : Z) : bytes := win stream (127 * r) 127.

Lemma chunk_after r : 0 ≤ r → zlen data ≤ Z.max 0 (127 * r - 4) → chunk_of r = zeros 127.
Proof.
  intros Hr Hlen. have Hz := zlen_nonneg data. apply win_zero; [done|]. intros i Hi.
  destruct (decide (i < 4)) as [H4|H4].
  - have Hnil : data = [] by apply length_zero_iff_nil; rw /zlen in Hlen Hz; lia.
    rw /stream Hnil app_nil_r. have [->|[->|[->| ->]]] : i = 0 ∨ i = 1 ∨ i = 2 ∨ i = 3 by lia. all: done.
  - apply at_ge. rw zlen_stream. lia.
Qed.

Lemma encode_loop_eq m r e P : enc_at (127 * r) P (128 * Z.of_nat m) e →
  0 ≤ r → zlen P = 128 * r → (r = 0 → buf31 e = zeros 31) →
  ∃ e', encode_loop data m r e = (Ret tt, e') ∧
  readOffset e' = Z.max 0 (Z.min (zlen data) (127 * (r + Z.of_nat m) - 4)) ∧
  e_blob e' = P ++ blocks (λ r, enc127 (chunk_of r)) r (Z.of_nat m).
Proof.
  revert r e P. induction m as [|m IH]; intros r e P He Hr HP Hz.
  - exists e. destruct He as [[? ?] [Hb _]]. split_and!; [done|by rw Z.add_0_r|]. by rw Hb.
  - cbn [encode_loop]. have Hro : readOffset e = Z.max 0 (Z.min (zlen data) (127 * r - 4)) by apply He.
    have HPm : zlen P mod 32 = 0 by rw HP (_ : 128 * r = 4 * r * 32) ?Z.mod_mul; lia.
    rw Hro. case_match eqn:Hlt.
    + destruct (encode_round_eq r e P (128 * Z.of_nat (S m))) as (e1&E1&H1); [done..|lia|done|done|].
      rw /mbind /st_bind E1. rw (_ : 128 * Z.of_nat (S m) - 128 = 128 * Z.of_nat m) in H1; [lia|].
      destruct (IH (r + 1) e1 _ H1) as (e'&E'&R'&B'); [lia|by rw zlen_app zlen_enc127 HP; lia|lia|].
      exists e'. split_and!; [done|rw R'; lia|]. rw B' -app_assoc (_ : Z.of_nat (S m) = 1 + Z.of_nat m); [lia|].
      by rw blocks_add ?blocks_one; [lia..|].
    + exists e. destruct He as [[? ?] [Hb _]]. split_and!; [done|lia|]. rw Hb. f_equal. rw (blocks_zeros _ 128); [lia..| |done].
      intros r' Hr'. rw chunk_after; [lia..|]. exact enc127_zeros.
Qed.

(** The blob of the data. *)
Definition blob_of : bytes := blocks (λ r, enc127 (chunk_of r)) 0 1024.

Lemma FromData_eq : FromData data = Ret blob_of.
Proof.
  rw /FromData (proj2 (Z.ltb_ge _ _)) //.
  destruct (encode_loop_eq (Z.to_nat Rounds) 0 (mkEncoder 0 0 (zeros 31) (zeros BlobSize)) []) as (e'&->&R&B); [|done..|].
  { split; [split; [|done]|split; [|done]]; cbn [readOffset e_blob app].
    - have := zlen_nonneg data. lia.
    - change (128 * Z.of_nat (Z.to_nat Rounds)) with BlobSize. reflexivity. }
  rw R. have := zlen_nonneg data. have Hm : zlen data ≤ 130044 by exact Hmax. rw (proj2 (Z.ltb_ge _ _)); [rw /Rounds; lia|]. by rw B.
Qed.

End encode.

(** ** Decoding *)

Section decode.
Context (b : bytes) (Hb : is_bytes b) (Hlen : zlen b = BlobSize).

Lemma top_bits c : 0 ≤ c < 256 → (Z.land c 192 =? 0) = (c <? 64).
Proof.
  intros Hc. have := pairs_below_spec 256 (λ c _, eqb (Z.land c 192 =? 0) (c <? 64)) c 0 ltac:(vm_compute; reflexivity) Hc ltac:(lia).
  apply eqb_prop.
Qed.

Definition fe_error : error := ErrMsg "invalid field element".

Lemma decodeFieldElement_eq ipos Q n : 0 ≤ ipos → ipos + 32 ≤ BlobSize → 31 ≤ n →
  decodeFieldElement b (zlen Q) ipos (Q ++ zeros n) =
  if at_ b ipos <? 64 then Ret (at_ b ipos, zlen Q + 32, ipos + 32, Q ++ win b (ipos + 1) 31 ++ zeros (n - 31)) else Fail fe_error.
Proof.
  intros Hi Hi' Hn. rw /decodeFieldElement index_at; [lia|]. cbn [mbind gores_bind].
  rw top_bits; [by apply at_byte|]. destruct (_ <? _); [|done]. cbn [negb].
  rw (_ : ipos + 32 = ipos + 1 + 31); [lia|]. rw slice_win; [lia..|]. cbn [mbind gores_bind].
  rw copy_at_end; [rw zlen_win; lia|]. rw zlen_win; [lia|]. done.
Qed.

(** The same with room after the element. *)
Lemma decodeFieldElement_gap ipos Q n : 0 ≤ ipos → ipos + 32 ≤ BlobSize → 32 ≤ n →
  decodeFieldElement b (zlen Q) ipos (Q ++ zeros n) =
  let Q' := Q ++ win b (ipos + 1) 31 ++ [0] in
  if at_ b ipos <? 64 then Ret (at_ b ipos, zlen Q', ipos + 32, Q' ++ zeros (n - 32)) else Fail fe_error.
Proof.
  intros Hi Hi' Hn. rw decodeFieldElement_eq; [lia..|]. cbv zeta. destruct (_ <? _); [|done].
  rw (_ : n - 31 = 1 + (n - 32)); [lia|]. rw zeros_app; [lia..|].
  rw !zlen_app zlen_win; [lia|]. change (zlen [0]) with 1. rw -!app_assoc. do 4 f_equal; lia.
Qed.

Lemma reassemble_eq opos e0 e1 e2 e3 Q s1 s2 t : zlen s1 = 31 → zlen s2 = 31 → opos = zlen Q + 97 →
  reassembleBytes opos e0 e1 e2 e3 (Q ++ 0 :: s1 ++ 0 :: s2 ++ 0 :: t) =
  Ret (zlen Q + 96, Q ++ byte_x e0 e1 e2 e3 :: s1 ++ byte_y e0 e1 e2 e3 :: s2 ++ byte_z e0 e1 e2 e3 :: t).
Proof.
  intros H1 H2 ->. rw /reassembleBytes.
  rw (_ : Q ++ 0 :: s1 ++ 0 :: s2 ++ 0 :: t = (Q ++ 0 :: s1 ++ 0 :: s2) ++ 0 :: t); [by rw -app_assoc /= -app_assoc|].
  rw set_at_mid; [rw zlen_app zlen_cons zlen_app zlen_cons H1 H2; lia|]. cbn [mbind gores_bind].
  rw -app_assoc; cbn [app]; rw -app_assoc; cbn [app].
  rw (_ : ∀ t, Q ++ 0 :: s1 ++ 0 :: t = (Q ++ 0 :: s1) ++ 0 :: t); [intros; by rw -app_assoc|].
  rw set_at_mid; [rw zlen_app zlen_cons H1; lia|]. cbn [mbind gores_bind]. rw -app_assoc; cbn [app].
  rw set_at_mid; [lia|]. cbn [mbind gores_bind mret gores_ret]. do 2 f_equal. lia.
Qed.

Lemma decode_rest_eq e0 ipos Q n : 0 ≤ ipos → ipos + 96 ≤ BlobSize → 95 ≤ n →
  decode_rest b e0 (zlen Q + 1) ipos (Q ++ [0] ++ zeros n) =
  let e1 := at_ b ipos in let e2 := at_ b (ipos + 32) in let e3 := at_ b (ipos + 64) in
  if (e1 <? 64) && (e2 <? 64) && (e3 <? 64)
  then Ret (zlen Q + 96, ipos + 96,
            Q ++ (byte_x e0 e1 e2 e3 :: win b (ipos + 1) 31 ++ byte_y e0 e1 e2 e3 :: win b (ipos + 33) 31 ++
                  byte_z e0 e1 e2 e3 :: win b (ipos + 65) 31) ++ zeros (n - 95))
  else Fail fe_error.
Proof.
  intros Hi Hi' Hn. rw /decode_rest. cbv zeta. rw app_assoc (_ : zlen Q + 1 = zlen (Q ++ [0])); [by rw zlen_app|].
  rw decodeFieldElement_gap; [lia..|]. cbv zeta. destruct (at_ b ipos <? 64); [|done]. cbn [mbind gores_bind andb].
  rw decodeFieldElement_gap; [lia..|]. cbv zeta. destruct (at_ b (ipos + 32) <? 64); [|done]. cbn [mbind gores_bind andb].
  rw decodeFieldElement_eq; [lia..|]. rw -(Z.add_assoc ipos 32 32). change (32 + 32) with 64.
  destruct (at_ b (ipos + 64) <? 64); [|done]. cbn [mbind gores_bind].
  set (s1 := win b (ipos + 1) 31). set (s2 := win b (ipos + 32 + 1) 31).
  have H1 : zlen s1 = 31 by apply zlen_win. have H2 : zlen s2 = 31 by apply zlen_win.
  rw (_ : ∀ t, (((Q ++ [0]) ++ s1 ++ [0]) ++ s2 ++ [0]) ++ t = Q ++ 0 :: s1 ++ 0 :: s2 ++ 0 :: t); [intros; by rw -!app_assoc|].
  rw reassemble_eq //; [rw !zlen_app H1 H2; change (zlen [0]) with 1; lia|].
  cbn [mbind gores_bind mret gores_ret]. rw -!Z.add_assoc. do 3 f_equal.
  rw /s2 -Z.add_assoc (_ : n - 32 - 32 - 31 = n - 95); [lia|]. cbn [app]. by rw -!app_assoc.
Qed.

(** The round's block, which of its elements are valid, and the error for one that is not. *)
Definition block_at (r : Z) : bytes := win b (128 * r) 128.
Definition tops_ok (r : Z) : bool :=
  (at_ b (128 * r + 32) <? 64) && (at_ b (128 * r + 64) <? 64) && (at_ b (128 * r + 96) <? 64).
Definition all_ok (r : Z) : bool := (at_ b (128 * r) <? 64) && tops_ok r.

Lemma dec127_block p : dec127 (win b p 128) =
  let e0 := at_ b p in let e1 := at_ b (p + 32) in let e2 := at_ b (p + 64) in let e3 := at_ b (p + 96) in
  win b (p + 1) 31 ++ byte_x e0 e1 e2 e3 :: win b (p + 33) 31 ++ byte_y e0 e1 e2 e3 :: win b (p + 65) 31 ++
  byte_z e0 e1 e2 e3 :: win b (p + 97) 31.
Proof.
  change 128 with (1 + (31 + (1 + (31 + (1 + (31 + (1 + 31))))))). rw !win_add; [lia..|]. rw !win_one -!Z.add_assoc.
  cbn [app]. rw dec127_eq //; by apply zlen_win.
Qed.

Lemma decode_round_eq r Q n : 0 ≤ r < 1024 → 127 ≤ n →
  decode_round b (zlen Q) (128 * r) (Q ++ zeros n) =
  if all_ok r then Ret (zlen Q + 127, 128 * (r + 1), (Q ++ dec127 (block_at r)) ++ zeros (n - 127)) else Fail fe_error.
Proof.
  intros Hr Hn. rw /decode_round /all_ok decodeFieldElement_gap; [rw /BlobSize; lia..|]. cbv zeta.
  destruct (_ <? _); [|done]. cbn [mbind gores_bind andb]. set (s0 := win b (128 * r + 1) 31).
  have H0 : zlen s0 = 31 by apply zlen_win.
  rw (_ : zlen (Q ++ s0 ++ [0]) = zlen (Q ++ s0) + 1); [rw !zlen_app; change (zlen [0]) with 1; lia|].
  rw (_ : (Q ++ s0 ++ [0]) ++ zeros (n - 32) = (Q ++ s0) ++ [0] ++ zeros (n - 32)); [by rw -!app_assoc|].
  rw decode_rest_eq; [rw /BlobSize; lia..|]. rw /tops_ok -!Z.add_assoc. cbv zeta.
  destruct (_ && _); [|done]. rw /block_at dec127_block zlen_app H0 -!app_assoc. do 3 f_equal; [lia..|].
  rw (_ : n - 32 - 95 = n - 127); [lia|]. done.
Qed.

(** The decoded stream of the first [R] rounds, and the rounds a length of data takes. *)
Definition decoded (r n : Z) : bytes := blocks (λ r, dec127 (block_at r)) r n.
Definition rounds_of (outputLen : Z) : Z := Z.max 1 ((outputLen + 130) / 127).
Definition rounds_ok (r n : Z) : bool := forallb all_ok (seqZ r n).

Lemma rounds_of_spec L r : 1 ≤ r → 127 * r - 4 < L ↔ r < rounds_of L.
Proof. rw /rounds_of. pose proof (Z.div_mod (L + 130) 127). pose proof (Z.mod_pos_bound (L + 130) 127). lia. Qed.

Lemma rounds_of_max L : L ≤ MaxBlobDataSize → rounds_of L ≤ 1024.
Proof. rw /rounds_of /MaxBlobDataSize. pose proof (Z.div_mod (L + 130) 127). pose proof (Z.mod_pos_bound (L + 130) 127). lia. Qed.

Lemma decode_loop_eq L m r Q : 1 ≤ r ≤ rounds_of L → r + Z.of_nat m = 1024 → rounds_of L ≤ 1024 → zlen Q = 127 * r - 4 →
  let R := rounds_of L in
  decode_loop b m L (127 * r - 4) (128 * r) (Q ++ zeros (127 * Z.of_nat m)) =
  if rounds_ok r (R - r)
  then Ret (127 * R - 4, 128 * R, (Q ++ decoded r (R - r)) ++ zeros (127 * (1024 - R))) else Fail fe_error.
Proof.
  cbv zeta. set (R := rounds_of L). revert r Q. induction m as [|m IH]; intros r Q Hr Hm HR HQ.
  - have HrR : r = R by lia. cbn [decode_loop]. rw HrR Z.sub_diag /rounds_ok. change (seqZ R 0) with (@nil Z). cbn [forallb].
    rw /decoded /blocks app_nil_r (_ : R = 1024); [lia|].
    change (zeros (127 * (1024 - 1024))) with (@nil Z). by rw app_nil_r.
  - cbn [decode_loop]. pose proof (rounds_of_spec L r). destruct (decide (r < R)).
    + rw (proj2 (Z.ltb_lt _ _)); [lia|]. rw -HQ decode_round_eq; [lia..|].
      rw /rounds_ok seqZ_cons; [lia|]. cbn [forallb]. destruct (all_ok r); [|done]. cbn [mbind gores_bind andb].
      rw HQ (_ : 127 * r - 4 + 127 = 127 * (r + 1) - 4); [lia|].
      rw (_ : 127 * Z.of_nat (S m) - 127 = 127 * Z.of_nat m); [lia|]. rw IH; [lia..|rw zlen_app zlen_dec127; lia|].
      rw /rounds_ok (_ : Z.pred (R - r) = R - (r + 1)); [lia|]. change (Z.succ r) with (r + 1). destruct (forallb _ _); [|done].
      rw /decoded (_ : R - r = 1 + (R - (r + 1))); [lia|]. rw blocks_add; [lia..|]. by rw blocks_one -!app_assoc.
    + rw (proj2 (Z.ltb_ge _ _)); [lia|]. have -> : r = R by lia. rw Z.sub_diag /rounds_ok.
      change (seqZ R 0) with (@nil Z). cbn [forallb]. rw /decoded /blocks app_nil_r. do 4 f_equal. lia.
Qed.

Lemma all_zero_app l k : all_zero (l ++ k) = all_zero l && all_zero k.
Proof. apply forallb_app. Qed.

Lemma all_zero_zeros n : all_zero (zeros n) = true.
Proof. apply forallb_forall. intros x Hx%list_elem_of_In. apply elem_of_replicate in Hx as [-> _]. done. Qed.

Lemma drop_zeros k n : 0 ≤ k ≤ n → drop (Z.to_nat k) (zeros n) = zeros (n - k).
Proof. intros. rw /zeros drop_replicate. f_equal. lia. Qed.

Lemma first27 s : slice b 5 (zlen b) = Ret s →
  go_copy (zeros 27) s ++ drop 27 (zeros MaxBlobDataSize) = win b 5 27 ++ [0] ++ zeros 130016.
Proof.
  have Hl : zlen b = 131072 by exact Hlen. rw slice_ok; [lia..|]. intros [= <-]. rw (_ : drop 27 (zeros MaxBlobDataSize) = [0] ++ zeros 130016).
  - change 27%nat with (Z.to_nat 27). rw drop_zeros; [rw /MaxBlobDataSize; lia|].
    rw (_ : MaxBlobDataSize - 27 = 1 + 130016) // zeros_app //.
  - f_equal. rw /go_copy (drop_ge (zeros 27)); [rw length_take length_drop /zeros length_replicate; rw /zlen in Hl *; lia|].
    rw app_nil_r /zeros length_replicate take_take -win_slice; [lia..|]. f_equal. lia.
Qed.

Lemma first_rest_eq e :
  decode_rest b e 28 32 (win b 5 27 ++ [0] ++ zeros 130016) =
  if tops_ok 0 then Ret (123, 128, (win b 5 27 ++ byte_x e (at_ b 32) (at_ b 64) (at_ b 96) :: win b 33 31 ++
      byte_y e (at_ b 32) (at_ b 64) (at_ b 96) :: win b 65 31 ++ byte_z e (at_ b 32) (at_ b 64) (at_ b 96) :: win b 97 31) ++
      zeros (127 * 1023)) else Fail fe_error.
Proof.
  have H27 : zlen (win b 5 27) = 27 by apply zlen_win. have := decode_rest_eq e 32 (win b 5 27) 130016.
  rw H27. change (27 + 1) with 28. intros ->; [|done..]. cbv zeta. change (32 + 32) with (128 * 0 + 64). rw /tops_ok. 
  change (32 + 64) with (128 * 0 + 96). change (at_ b 32) with (at_ b (128 * 0 + 32)). destruct (_ && _); [|done].
  by rw -app_assoc.
Qed.

Lemma drop4_block : drop 4 (dec127 (block_at 0)) =
  let e := at_ b 0 in
  win b 5 27 ++ byte_x e (at_ b 32) (at_ b 64) (at_ b 96) :: win b 33 31 ++
      byte_y e (at_ b 32) (at_ b 64) (at_ b 96) :: win b 65 31 ++ byte_z e (at_ b 32) (at_ b 64) (at_ b 96) :: win b 97 31.
Proof.
  rw /block_at dec127_block. cbv zeta. change (128 * 0) with 0. rw !Z.add_0_l.
  rw (_ : win b 1 31 = win b 1 4 ++ win b 5 27) //.
Qed.

Lemma decoded_split R : 1 ≤ R → drop 4 (decoded 0 R) = drop 4 (dec127 (block_at 0)) ++ decoded 1 (R - 1).
Proof.
  intros HR. rw /decoded {1}(_ : R = 1 + (R - 1)); [lia|]. rw blocks_add; [lia..|]. rw blocks_one drop_app_le //.
  have := zlen_dec127 (block_at 0). rw /zlen. lia.
Qed.

Lemma zlen_decoded r n : 0 ≤ n → zlen (decoded r n) = 127 * n.
Proof. apply zlen_blocks. intros. apply zlen_dec127. Qed.

(** What [ToData] returns, on every blob. *)
Definition header_len : Z := Z.lor (Z.lor (Z.shiftl (at_ b 2) 16) (Z.shiftl (at_ b 3) 8)) (at_ b 4).

Lemma ToData_eq :
  let L := header_len in let R := rounds_of L in let out := drop 4 (decoded 0 R) in
  ToData b =
  if negb (at_ b 1 =? 0) then Fail (ErrMsg "invalid encoding version")
  else if MaxBlobDataSize <? L then Fail (ErrMsg "invalid length for blob")
  else if negb (tops_ok 0 && rounds_ok 1 (R - 1)) then Fail fe_error
  else if negb (all_zero (drop (Z.to_nat L) out))
  then Fail (ErrMsg "non-zero data encountered where field element should be empty")
  else if negb (all_zero (drop (Z.to_nat (128 * R)) b))
  then Fail (ErrMsg "non-zero data encountered where blob should be empty")
  else Ret (take (Z.to_nat L) out).
Proof.
  cbv zeta. have Hl : zlen b = 131072 by exact Hlen.
  rw /ToData /VersionOffset /EncodingVersion !index_at; [lia..|]. cbn [mbind gores_bind]. destruct (at_ b 1 =? 0); [|done]. cbn [negb].
  change (Z.lor _ (at_ b 4)) with header_len. set (L := header_len). destruct (Z.ltb_spec MaxBlobDataSize L) as [|HL]; [done|].
  destruct (slice b 5 (zlen b)) as [s| |] eqn:Es; [|by move: Es; rw slice_ok; [lia..|]..].
  cbn [mbind gores_bind]. rw (first27 s Es) first_rest_eq. destruct (tops_ok 0); [|done]. cbn [mbind gores_bind andb].
  have HR := rounds_of_max L HL. have HR1 : 1 ≤ rounds_of L by rw /rounds_of; lia. set (R := rounds_of L) in *.
  rw decoded_split // drop4_block. cbv zeta. 
  match goal with |- context [decode_loop _ _ _ _ _ (?q ++ zeros _)] => set (Q := q) end.
  have HQ : zlen Q = 123.
  { have := zlen_dec127 (block_at 0). have : Q = drop 4 (dec127 (block_at 0)) by rw drop4_block.
    intros -> H. change 4%nat with (Z.to_nat 4). rw zlen_drop; lia. }
  have HD := decode_loop_eq L (Z.to_nat (Rounds - 1)) 1 Q. cbv zeta in HD. fold R in HD.
  change (127 * Z.of_nat (Z.to_nat (Rounds - 1))) with (127 * 1023) in HD. rw HD; [lia|done|done|done|]. clear HD.
  destruct (rounds_ok 1 (R - 1)); [|done]. cbn [mbind gores_bind negb].
  have HLR : (Z.to_nat L ≤ length (Q ++ decoded 1 (R - 1)))%nat.
  { have : zlen (Q ++ decoded 1 (R - 1)) = 127 * R - 4 by rw zlen_app HQ zlen_decoded; lia.
    have := rounds_of_spec L R HR1. rw /zlen. lia. }
  rw drop_app_le // take_app_le // all_zero_app all_zero_zeros andb_true_r. destruct (all_zero (drop _ _)); [|done]. cbn [negb].
  rw (take_ge b); [rw /zlen in Hl; rw /BlobSize; lia|]. rw (proj2 (Z.ltb_ge _ _)); [rw Hlen; lia|].
  destruct (Z.leb_spec BlobSize (128 * R)); [|by destruct (all_zero (drop _ b))].
  by rw (drop_ge b); [rw /zlen in Hl; rw /BlobSize in H; lia|].
Qed.

End decode.
