(* ===== verification/BlobCodec.v ===== *)
(** * The codecs of blobs are inverse to each other

    The compact encoding is a bijection between the data of at most
    [MaxBlobDataSize] bytes and the blobs [ToData] accepts whose first byte has its two
    highest bits clear. *)

From S2P Require Import Prelude BlobEncoder BlobBits BlobEncoderFacts.

(** ** The header *)

Lemma header_len_join n : 0 ≤ n < 2 ^ 24 →
  Z.lor (Z.lor (Z.shiftl (Z.shiftr n 16 mod 256) 16) (Z.shiftl (Z.shiftr n 8 mod 256) 8)) (n mod 256) = n.
Proof.
  intros Hn. change 256 with (2 ^ 8). apply Z.bits_inj'. intros i Hi. rw !Z.lor_spec !Z.shiftl_spec //.
  destruct (decide (i < 8)); [|destruct (decide (i < 16)); [|destruct (decide (i < 24))]].
  - rw !(Z.testbit_neg_r _ (i - _)); [lia..|]. by rw (Z.mod_pow2_bits_low n 8 i); [lia|].
  - rw (Z.testbit_neg_r _ (i - 16)); [lia|]. rw (Z.mod_pow2_bits_low _ 8 (i - 8)); [lia|]. rw Z.shiftr_spec; [lia|].
    rw (Z.mod_pow2_bits_high n 8 i); [lia|]. rw orb_false_r /=. f_equal. lia.
  - rw (Z.mod_pow2_bits_low _ 8 (i - 16)); [lia|]. rw Z.shiftr_spec; [lia|].
    rw (Z.mod_pow2_bits_high n 8 i); [lia|]. rw (Z.mod_pow2_bits_high _ 8 (i - 8)); [lia|]. rw !orb_false_r. f_equal. lia.
  - rw !Z.mod_pow2_bits_high; [lia..|]. symmetry. apply Z.bits_above_log2; [lia|]. 
    destruct (decide (n = 0)) as [->|]; [cbn; lia|]. apply Z.log2_lt_pow2; [lia|].
    apply (Z.lt_le_trans _ _ _ (proj2 Hn)). apply Z.pow_le_mono_r; lia.
Qed.

Lemma header_len_split a b c n : 0 ≤ a < 256 → 0 ≤ b < 256 → 0 ≤ c < 256 →
  n = Z.lor (Z.lor (Z.shiftl a 16) (Z.shiftl b 8)) c →
  0 ≤ n < 2 ^ 24 ∧ Z.shiftr n 16 mod 256 = a ∧ Z.shiftr n 8 mod 256 = b ∧ n mod 256 = c.
Proof.
  intros Ha Hb Hc Hn. have E : n = a * 65536 + b * 256 + c.
  { rw Hn. rw -(header_len_join (a * 65536 + b * 256 + c)); [lia|]. rw !Z.shiftr_div_pow2 //.
    change (2 ^ 16) with 65536. change (2 ^ 8) with 256.
    have -> : (a * 65536 + b * 256 + c) / 65536 = a by symmetry; apply (Z.div_unique _ _ _ (b * 256 + c)); lia.
    have -> : (a * 65536 + b * 256 + c) / 256 = a * 256 + b by symmetry; apply (Z.div_unique _ _ _ c); lia.
    have -> : (a * 65536 + b * 256 + c) mod 256 = c by symmetry; apply (Z.mod_unique _ _ (a * 256 + b)); lia.
    have -> : (a * 256 + b) mod 256 = b by symmetry; apply (Z.mod_unique _ _ a); lia. by rw Z.mod_small. }
  rw !Z.shiftr_div_pow2 //. change (2 ^ 16) with 65536. change (2 ^ 8) with 256. split_and!; [lia..| | |]; subst n.
  - rw E. rw (_ : (a * 65536 + b * 256 + c) / 65536 = a); [symmetry; apply (Z.div_unique _ _ _ (b * 256 + c)); lia|]. by rw Z.mod_small.
  - rw E. rw (_ : (a * 65536 + b * 256 + c) / 256 = a * 256 + b); [symmetry; apply (Z.div_unique _ _ _ c); lia|].
    symmetry; apply (Z.mod_unique _ _ a); lia.
  - rw E. symmetry; apply (Z.mod_unique _ _ (a * 256 + b)); lia.
Qed.

Lemma header_bytes_eq d : zlen d ≤ MaxBlobDataSize →
  header_bytes d = [0; Z.shiftr (zlen d) 16 mod 256; Z.shiftr (zlen d) 8 mod 256; zlen d mod 256].
Proof.
  intros Hd. rw /header_bytes /wrap32 (Z.mod_small (zlen d)); [|done].
  have := zlen_nonneg d. rw /MaxBlobDataSize in Hd. rw /two32. lia.
Qed.

(** ** Bytes *)

Lemma elem_bytes v l q k : 0 ≤ v < 256 → is_bytes l → is_bytes k → is_bytes (v :: win l q 31 ++ k).
Proof. intros. apply Forall_cons. split; [done|]. apply Forall_app. split; [by apply win_bytes|done]. Qed.

Lemma last_elem_bytes v l q : 0 ≤ v < 256 → is_bytes l → is_bytes (v :: win l q 31).
Proof. intros. apply Forall_cons. split; [done|]. by apply win_bytes. Qed.

Lemma enc127_bytes c : zlen c = 127 → is_bytes c → is_bytes (enc127 c).
Proof.
  intros Hc Hb. rw /enc127.
  pose proof (tops_small (at_ c 31) (at_ c 63) (at_ c 95) (at_byte _ _ Hb) (at_byte _ _ Hb) (at_byte _ _ Hb)) as (?&?&?&?).
  do 3 (apply elem_bytes; [lia|done|]). apply last_elem_bytes; [lia|done].
Qed.

Lemma dec127_bytes c : is_bytes c → (∀ k, 0 ≤ k < 4 → at_ c (32 * k) < 64) → is_bytes (dec127 c).
Proof.
  intros Hb Hk. rw /dec127. have Ht k : 0 ≤ k < 4 → 0 ≤ at_ c (32 * k) < 64.
  { intros H. split; [apply at_byte, Hb|by apply Hk]. }
  pose proof (tops_bytes _ _ _ _ (Ht 0 ltac:(lia)) (Ht 1 ltac:(lia)) (Ht 2 ltac:(lia)) (Ht 3 ltac:(lia))) as ((?&?&?)&_).
  apply Forall_app. split; [by apply win_bytes|]. do 2 (apply elem_bytes; [done..|]). by apply last_elem_bytes.
Qed.

Lemma blocks_bytes f a n : (∀ r, a ≤ r < a + n → is_bytes (f r)) → is_bytes (blocks f a n).
Proof.
  intros H. rw /blocks /is_bytes Forall_concat Forall_fmap. apply Forall_seqZ. intros x Hx. apply H. lia.
Qed.

(** ** Encode, then decode *)

Section roundtrip.
Context (d : bytes) (Hd : is_bytes d) (Hmax : zlen d ≤ MaxBlobDataSize).

#[local] Abbreviation b := (blob_of d).

Lemma chunk_len r : zlen (chunk_of d r) = 127.
Proof. by apply zlen_win. Qed.

Lemma chunk_bytes r : is_bytes (chunk_of d r).
Proof. by apply win_bytes, stream_bytes. Qed.

Lemma blob_of_len : zlen b = BlobSize.
Proof. apply (zlen_blocks _ 128); [intros; apply zlen_enc127|done]. Qed.

Lemma blob_of_bytes : is_bytes b.
Proof. apply blocks_bytes. intros. apply enc127_bytes; [apply chunk_len|apply chunk_bytes]. Qed.

Lemma blob_of_block r : 0 ≤ r < 1024 → block_at b r = enc127 (chunk_of d r).
Proof. intros Hr. apply (win_blocks (λ r, enc127 (chunk_of d r)) 128); [intros; apply zlen_enc127|done]. Qed.

Lemma blob_of_top r k : 0 ≤ r < 1024 → 0 ≤ k < 4 → at_ b (128 * r + 32 * k) < 64.
Proof.
  intros Hr Hk. have := canonical_enc127 _ (chunk_len r) (chunk_bytes r) k Hk. rw -blob_of_block // /block_at at_win //. lia.
Qed.

Lemma blob_of_ok r : 0 ≤ r < 1024 → all_ok b r = true.
Proof.
  intros Hr. rw /all_ok /tops_ok. have H := blob_of_top r. have H0 := H 0 Hr. have H1 := H 1 Hr. have H2 := H 2 Hr. have H3 := H 3 Hr.
  rw Z.mul_0_r Z.add_0_r in H0. rw !(proj2 (Z.ltb_lt _ _)) //; [apply H0|apply H1|apply H2|apply H3]; lia.
Qed.

Lemma blob_of_decoded R : 0 ≤ R ≤ 1024 → decoded b 0 R = win (stream d) 0 (127 * R).
Proof.
  intros HR. rw -blocks_win //; [lia|]. apply blocks_ext. intros r Hr. rw blob_of_block; [lia|].
  apply dec_enc127; [apply chunk_len|apply chunk_bytes].
Qed.

Lemma blob_of_head i : 0 ≤ i < 4 → at_ b (1 + i) = at_ (header_bytes d) i.
Proof.
  intros Hi. have E := blob_of_decoded 1 ltac:(lia). rw /decoded blocks_one dec127_block in E.
  have H := f_equal (λ l, at_ l i) E. cbv beta zeta in H. rw at_app_l in H; [rw zlen_win; lia|].
  rw !at_win in H; [lia..|]. rw Z.mul_0_r !Z.add_0_l in H. rw H /stream at_app_l //. rw /zlen /=. lia.
Qed.

Lemma blob_of_header : at_ b 1 = 0 ∧ header_len b = zlen d.
Proof.
  have H := blob_of_head. rw header_bytes_eq // in H. have Hz := zlen_nonneg d. have Hm : zlen d ≤ 130044 by exact Hmax.
  split; [exact (H 0 ltac:(lia))|]. rw /header_len.
  have -> := H 1 ltac:(lia). have -> := H 2 ltac:(lia). have -> := H 3 ltac:(lia). apply header_len_join. lia.
Qed.

Lemma blob_of_tail R : 0 ≤ R ≤ 1024 → zlen d ≤ Z.max 0 (127 * R - 4) → drop (Z.to_nat (128 * R)) b = zeros (128 * (1024 - R)).
Proof.
  intros HR HdR. rw /blob_of (_ : 1024 = R + (1024 - R)); [lia|]. rw blocks_add; [lia..|].
  rw drop_app_length'. { have := zlen_blocks (λ r, enc127 (chunk_of d r)) 128 ltac:(intros; apply zlen_enc127) 0 R. rw /zlen. lia. }
  rw (blocks_zeros _ 128); [lia..| |]. { intros r Hr. rw chunk_after; [lia..|]. apply enc127_zeros. } f_equal. lia.
Qed.

Lemma ToData_blob_of : ToData b = Ret d.
Proof.
  have Hz := zlen_nonneg d. rw ToData_eq; [exact blob_of_bytes|exact blob_of_len|]. pose proof blob_of_header as [-> ->]. cbv zeta.
  have HR := rounds_of_max (zlen d) Hmax. have HR1 : 1 ≤ rounds_of (zlen d) by rw /rounds_of; lia.
  have HRL := rounds_of_spec (zlen d) (rounds_of (zlen d)) HR1. set (R := rounds_of (zlen d)) in *.
  cbn [negb Z.eqb]. rw (proj2 (Z.ltb_ge _ _)) //.
  rw (_ : tops_ok b 0 && rounds_ok b 1 (R - 1) = true).
  { apply andb_true_intro. split; [exact (proj2 (andb_prop _ _ (blob_of_ok 0 ltac:(lia))))|].
    apply forallb_forall. intros r Hr%list_elem_of_In. apply elem_of_seqZ in Hr. apply blob_of_ok. lia. }
  cbn [negb]. rw blob_of_decoded; [lia|].
  rw (_ : win (stream d) 0 (127 * R) = header_bytes d ++ d ++ zeros (127 * R - 4 - zlen d)).
  { rw (_ : 127 * R = zlen (stream d) + (127 * R - 4 - zlen d)); [rw zlen_stream; lia|].
    rw win_add; [rw zlen_stream; lia|lia|]. rw win_self {1}/stream -app_assoc. do 2 f_equal.
    rw win_zero; [lia|intros; apply at_ge; lia|]. f_equal. rw zlen_stream. lia. }
  rw (_ : ∀ x, drop 4 (header_bytes d ++ x) = x) //.
  have Hl : Z.to_nat (zlen d) = length d by rw /zlen; lia. rw Hl drop_app_length take_app_length all_zero_zeros. cbn [negb].
  rw blob_of_tail; [lia..|]. by rw all_zero_zeros.
Qed.

End roundtrip.

(** ** Decode, then encode *)

Section canonical.
Context (b : bytes) (Hb : is_bytes b) (Hlen : zlen b = BlobSize) (H0 : at_ b 0 < 64) (d : bytes) (Hret : ToData b = Ret d).

#[local] Abbreviation L := (header_len b).
#[local] Abbreviation R := (rounds_of (header_len b)).

Lemma accepted : at_ b 1 = 0 ∧ L ≤ MaxBlobDataSize ∧ (∀ r, 0 ≤ r < R → all_ok b r = true) ∧
  all_zero (drop (Z.to_nat L) (drop 4 (decoded b 0 R))) = true ∧ all_zero (drop (Z.to_nat (128 * R)) b) = true ∧
  d = take (Z.to_nat L) (drop 4 (decoded b 0 R)).
Proof.
  move: Hret. rw ToData_eq //. destruct (Z.eqb_spec (at_ b 1) 0); [|done]. cbn [negb].
  destruct (Z.ltb_spec MaxBlobDataSize L); [done|]. destruct (_ && _) eqn:Hok; [|done]. cbn [negb].
  destruct (all_zero (drop _ (drop 4 _))); [|done]. cbn [negb]. destruct (all_zero _); [|done]. cbn [negb].
  intros [= <-]. split_and!; try done. intros r Hr. apply andb_prop in Hok as [Ht Hrs]. destruct (decide (r = 0)) as [->|].
  - rw /all_ok Ht andb_true_r. by apply Z.ltb_lt.
  - apply (proj1 (forallb_forall _ _) Hrs), list_elem_of_In, elem_of_seqZ. lia.
Qed.

Lemma block_canonical r : 0 ≤ r < R → canonical (block_at b r).
Proof.
  intros Hr k Hk. pose proof accepted as (_&_&Hok&_). have := Hok r Hr. rw /block_at at_win; [lia|]. rw /all_ok /tops_ok.
  have [->|[->|[->| ->]]] : 32 * k = 0 ∨ 32 * k = 32 ∨ 32 * k = 64 ∨ 32 * k = 96 by lia.
  all: rw ?Z.add_0_r; lia.
Qed.

Lemma R_bounds : 1 ≤ R ≤ 1024 ∧ 0 ≤ L ≤ 127 * R - 4.
Proof.
  pose proof accepted as (_&HL&_). have HR := rounds_of_max L HL. have HR1 : 1 ≤ R by rw /rounds_of; lia.
  have := rounds_of_spec L R HR1. have : 0 ≤ L by apply Z.lor_nonneg; split; [apply Z.lor_nonneg; split; apply Z.shiftl_nonneg|]; apply at_byte.
  lia.
Qed.

Lemma zlen_out : zlen (drop 4 (decoded b 0 R)) = 127 * R - 4.
Proof. pose proof R_bounds. change 4%nat with (Z.to_nat 4). rw zlen_drop zlen_decoded; lia. Qed.

Lemma zlen_d : zlen d = L.
Proof. pose proof accepted as (_&_&_&_&_&Ed). pose proof R_bounds. rw Ed zlen_take // zlen_out. lia. Qed.

Lemma d_bytes : is_bytes d.
Proof.
  pose proof accepted as (_&_&_&_&_&Ed). rw Ed. apply Forall_take, Forall_drop, blocks_bytes. intros r Hr.
  apply dec127_bytes; [by apply win_bytes|]. apply block_canonical. lia.
Qed.

Lemma all_zero_at l i : all_zero l = true → at_ l i = 0.
Proof.
  rw /all_zero forallb_forall /at_ => H. destruct (_ <=? _); [|done]. destruct (_ !! _) eqn:E; [|done].
  simpl. apply Z.eqb_eq, H, list_elem_of_In. exact (list_elem_of_lookup_2 _ _ _ E).
Qed.

Lemma at_drop l k i : 0 ≤ k → 0 ≤ i → at_ (drop (Z.to_nat k) l) i = at_ l (k + i).
Proof. intros. rw /at_ !(proj2 (Z.leb_le 0 _)); [lia..|]. rw lookup_drop. do 2 f_equal. lia. Qed.

Lemma at_take l k i : i < k → at_ (take (Z.to_nat k) l) i = at_ l i.
Proof. intros. rw /at_. destruct (Z.leb_spec 0 i); [|done]. rw lookup_take_lt //. lia. Qed.

Lemma header_d i : 0 ≤ i < 4 → at_ (header_bytes d) i = at_ b (1 + i).
Proof.
  intros Hi. pose proof accepted as (H1&HL&_). have Hz := zlen_d. rw header_bytes_eq ?Hz //.
  destruct (header_len_split (at_ b 2) (at_ b 3) (at_ b 4) L) as (_&E2&E3&E4); [by apply at_byte..|done|].
  have [->|[->|[->| ->]]] : i = 0 ∨ i = 1 ∨ i = 2 ∨ i = 3 by lia. all: cbn [Z.add Pos.add]; rw ?H1 //; by rw ?E2 ?E3 ?E4.
Qed.

(** The stream of the decoded data is the decoded stream. *)
Lemma stream_d i : 0 ≤ i < 127 * R → at_ (stream d) i = at_ (decoded b 0 R) i.
Proof.
  intros Hi. pose proof accepted as (_&_&_&Hz&_&Ed). pose proof R_bounds. destruct (decide (i < 4)).
  - rw /stream at_app_l; [done|]. rw header_d; [lia|]. rw /decoded {1}(_ : R = 1 + (R - 1)); [lia|]. rw blocks_add; [lia..|].
    rw blocks_one at_app_l; [rw zlen_dec127; lia|]. rw dec127_block. cbv zeta.
    rw at_app_l; [rw zlen_win; lia|]. by rw at_win; [lia|].
  - rw /stream (at_app_rest _ _ _ 4) //; [lia|]. rw {2}(_ : i = 4 + (i - 4)); [lia|].
    rw -at_drop; [lia..|]. change (Z.to_nat 4) with 4%nat. destruct (decide (i - 4 < L)).
    + rw Ed at_take //.
    + rw at_ge; [rw zlen_d; lia|]. rw (_ : i - 4 = L + (i - 4 - L)); [lia|]. rw -at_drop; [lia..|]. by rw all_zero_at.
Qed.

Lemma block_of_d r : 0 ≤ r < 1024 → enc127 (chunk_of d r) = block_at b r.
Proof.
  intros Hr. pose proof accepted as (_&_&_&_&Hz&_). pose proof R_bounds. destruct (decide (r < R)).
  - rw (_ : chunk_of d r = dec127 (block_at b r)).
    + rw -(win_blocks (λ r, dec127 (block_at b r)) 127 ltac:(intros; apply zlen_dec127) R r); [lia|].
      apply win_ext. intros i Hi. apply stream_d. lia.
    + apply enc_dec127; [by apply zlen_win|by apply win_bytes|apply block_canonical; lia].
  - rw chunk_after; [lia|rw zlen_d; lia|]. rw enc127_zeros. symmetry. apply win_zero; [done|]. intros i Hi.
    rw (_ : i = 128 * R + (i - 128 * R)); [lia|]. rw -at_drop; [lia..|]. by apply all_zero_at.
Qed.

Lemma blob_of_d : blob_of d = b.
Proof.
  trans (blocks (block_at b) 0 1024); [apply blocks_ext; intros; apply block_of_d; lia|].
  rw /block_at blocks_win // -{2}(win_self b) Hlen //.
Qed.

End canonical.

(** C24: the compact encoding never fails or panics on data of at most [MaxBlobDataSize] bytes; its blob has
    4096 elements of 32 bytes whose first bytes have their two highest bits clear (every one is a field
    element), and decoding the blob gives the data back. *)
Theorem compact_codec d : is_bytes d → zlen d ≤ MaxBlobDataSize →
  ∃ b, FromData d = Ret b ∧ zlen b = BlobSize ∧ is_bytes b ∧ (∀ j, 0 ≤ j < 4096 → at_ b (32 * j) < 64) ∧ ToData b = Ret d.
Proof.
  intros Hd Hmax. exists (blob_of d). split_and!.
  - by apply FromData_eq.
  - apply blob_of_len.
  - by apply blob_of_bytes.
  - intros j Hj. have E : j = 4 * (j / 4) + j mod 4 by apply Z.div_mod. have Hm : 0 ≤ j mod 4 < 4 by apply Z.mod_pos_bound.
    rw (_ : 32 * j = 128 * (j / 4) + 32 * (j mod 4)); [lia|]. apply blob_of_top; [done|lia|done].
  - by apply ToData_blob_of.
Qed.

Lemma compact_codec_witness : ∃ b, FromData [1; 2; 255] = Ret b ∧ zlen b = BlobSize ∧ ToData b = Ret [1; 2; 255].
Proof.
  destruct (compact_codec [1; 2; 255]) as (b&E&Hl&_&_&D).
  - repeat (apply Forall_cons; split; [lia|]). by apply Forall_nil.
  - rw /zlen /MaxBlobDataSize /=. lia.
  - exists b. exact (conj E (conj Hl D)).
Defined.

(** There is one blob for each data: a blob that [ToData] accepts, and whose first byte has its two
    highest bits clear, is the encoding of the data it decodes to. *)
Theorem ToData_canonical b d : is_bytes b → zlen b = BlobSize → at_ b 0 < 64 → ToData b = Ret d → FromData d = Ret b.
Proof.
  intros Hb Hlen H0 Hret. rw FromData_eq.
  - by apply (d_bytes b Hb Hlen H0).
  - rw (zlen_d b Hb Hlen H0 d Hret). by destruct (accepted b Hb Hlen H0 d Hret) as (_&HL&_).
  - by rw (blob_of_d b Hb Hlen H0).
Qed.

Lemma ToData_empty : ToData (zeros BlobSize) = Ret [].
Proof. vm_compute. reflexivity. Qed.

Lemma ToData_canonical_witness : FromData [] = Ret (zeros BlobSize).
Proof.
  apply (ToData_canonical (zeros BlobSize) []).
  - apply Forall_replicate. lia.
  - by apply zlen_zeros.
  - rw at_zeros. lia.
  - exact ToData_empty.
Defined.

(** The first byte of a blob is not checked: [ToData] accepts blobs that no data encodes to. *)
Definition loose_blob : bytes := 192 :: zeros (BlobSize - 1).

(** [ToData] accepts a blob whose first field element has its two highest bits set, although
    [decodeFieldElement]'s comment says they are 0 in each element. *)
Theorem first_element_unchecked : ToData loose_blob = Ret [] ∧ FromData [] ≠ Ret loose_blob.
Proof.
  split; [vm_compute; reflexivity|]. rw FromData_eq; [by apply Forall_nil|done|]. done.
Qed.
