(* ===== verification/BlobFields.v ===== *)
(** * Data in blobs, 31 bytes for each field element

    [EncodeBlobs] fills as many blobs as the data needs, [DecodeBlob] reads one back, and
    [ConvertToBlobs] only cuts the data. *)

From S2P Require Import Prelude BlobEncoder BlobEncoderFacts.

(** The field element of the 31 bytes from [31 * k], and the blob [j] of the data. *)
Definition elem_of (data : bytes) (k : Z) : bytes := 0 :: win data (31 * k) 31.
Definition padded_blob (data : bytes) (j : Z) : bytes := blocks (elem_of data) (4096 * j) 4096.

Lemma zlen_elem_of data k : zlen (elem_of data k) = 32.
Proof. rw /elem_of zlen_cons zlen_win; lia. Qed.

Lemma elem_of_after data k : zlen data ≤ 31 * k → elem_of data k = zeros 32.
Proof. intros H. rw /elem_of win_zero; [done|intros; apply at_ge; lia|done]. Qed.

Lemma zlen_padded_blob data j : zlen (padded_blob data j) = BlobSize.
Proof. apply (zlen_blocks _ 32); [apply zlen_elem_of|done]. Qed.

(** [f] fields of the blob [j] are filled. *)
Definition filling (data : bytes) (j f : Z) : Z * list bytes :=
  (f - 1, (padded_blob data <$> seqZ 0 j) ++ [blocks (elem_of data) (4096 * j) f ++ zeros (32 * (4096 - f))]).

Lemma filling_next data j : 0 ≤ j →
  filling data (j + 1) 0 = (-1, (filling data j 4096).2 ++ [zeros BlobSize]).
Proof.
  intros Hj. rw /filling. cbn [snd]. f_equal. rw seqZ_app; [lia..|]. rw fmap_app. change (seqZ (0 + j) 1) with [0 + j].
  cbn [fmap list_fmap]. rw Z.add_0_l /padded_blob. change (zeros (32 * (4096 - 4096))) with (@nil Z). rw (app_nil_r (blocks _ _ _)).
  change (blocks (elem_of data) (4096 * (j + 1)) 0) with (@nil Z). rw app_nil_l. reflexivity.
Qed.

(** Writing the next element in the blob. *)
Lemma fill_elem data j f : 0 ≤ j → 0 ≤ f < 4096 → 31 * (4096 * j + f) < zlen data →
  (let '(fieldIndex, blobs) := (f, (filling data j f).2) in
   let i := 31 * (4096 * j + f) in
   chunk ← slice data i (Z.min (i + 31) (zlen data));
   blob ← index blobs (zlen blobs - 1);
   blob ← copy_at blob (fieldIndex * 32 + 1) chunk;
   mret (fieldIndex, take (length blobs - 1) blobs ++ [blob])) = Ret (filling data j (f + 1)).
Proof.
  intros Hj Hf Hi. cbv zeta. cbn [filling snd]. set (k := 4096 * j + f) in *. set (n := Z.min 31 (zlen data - 31 * k)).
  rw (_ : Z.min (31 * k + 31) (zlen data) = 31 * k + n); [lia|]. rw slice_win; [lia..|]. cbn [mbind gores_bind].
  set (l := padded_blob data <$> seqZ 0 j). set (P := blocks (elem_of data) (4096 * j) f).
  rw (_ : zlen (l ++ [P ++ zeros (32 * (4096 - f))]) - 1 = zlen l); [rw zlen_app /zlen /=; lia|].
  rw /index (proj2 (Z.leb_le _ _)); [apply zlen_nonneg|]. rw /zlen Nat2Z.id list_lookup_middle //. cbn [mbind gores_bind].
  have HP : zlen P = 32 * f by apply (zlen_blocks _ 32); [apply zlen_elem_of|lia].
  rw (_ : 32 * (4096 - f) = 1 + (32 * (4096 - f) - 1)); [lia|]. rw zeros_app; [lia..|]. rw app_assoc.
  rw (_ : f * 32 + 1 = zlen (P ++ zeros 1)); [rw zlen_app HP zlen_zeros; lia|]. rw copy_at_end; [rw zlen_win; lia|].
  cbn [mbind gores_bind mret gores_ret]. rw length_app Nat.add_sub take_app_length /filling. do 2 f_equal; [lia|].
  do 2 f_equal. rw blocks_add; [lia..|]. rw blocks_one -/k -!app_assoc. f_equal. rw zlen_win; [lia|].
  rw /elem_of (_ : win data (31 * k) 31 = win data (31 * k) n ++ win data (31 * k + n) (31 - n)); [rw -win_add; [lia..|]; f_equal; lia|]. rw (win_zero _ (31 * k + n)); [lia|intros; apply at_ge; lia|].
  change (zeros 1) with [0]. cbn [app]. rw -app_assoc -zeros_app; [lia..|]. do 3 f_equal. lia.
Qed.

(** The state after [k] fields. *)
Definition filled (data : bytes) (k : Z) : Z * list bytes :=
  if k =? 0 then filling data 0 0 else filling data ((k - 1) / 4096) ((k - 1) mod 4096 + 1).

Lemma encode_field_eq data k : 0 ≤ k → 31 * k < zlen data → encode_field data (filled data k) k = Ret (filled data (k + 1)).
Proof.
  intros Hk Hlt. rw {2}/filled (proj2 (Z.eqb_neq _ _)); [lia|]. rw Z.add_simpl_r.
  pose proof (Z.div_mod k 4096 ltac:(lia)) as E. pose proof (Z.mod_pos_bound k 4096 ltac:(lia)) as Hm.
  set (j := k / 4096) in *. set (f := k mod 4096) in *. have Hj : 0 ≤ j by apply Z.div_pos; lia.
  rw -(fill_elem data j f Hj Hm ltac:(lia)) -E /encode_field /filled. destruct (Z.eqb_spec k 0) as [->|Hk0]; [reflexivity|].
  destruct (decide (f = 0)) as [Hf|Hf].
  - have [Ej Em] : (k - 1) / 4096 = j - 1 ∧ (k - 1) mod 4096 = 4095.
    { split; symmetry; [apply (Z.div_unique _ _ _ 4095)|apply (Z.mod_unique _ _ (j - 1))]; lia. }
    rw Ej Em Hf. have F := filling_next data (j - 1) ltac:(lia). rw Z.sub_add in F. rw F. reflexivity.
  - have [Ej Em] : (k - 1) / 4096 = j ∧ (k - 1) mod 4096 = f - 1.
    { split; symmetry; [apply (Z.div_unique _ _ _ (f - 1))|apply (Z.mod_unique _ _ j)]; lia. }
    rw Ej Em Z.sub_add. cbn [filling snd]. rw Z.sub_add (proj2 (Z.eqb_neq _ _)) //. rw /FieldElementsPerBlob. lia.
Qed.

Lemma filling_padded data j f : 0 ≤ j → 0 ≤ f ≤ 4096 → zlen data ≤ 31 * (4096 * j + f) →
  (filling data j f).2 = padded_blob data <$> seqZ 0 (j + 1).
Proof.
  intros Hj Hf Hlen. cbn [filling snd]. rw seqZ_app; [lia..|]. rw fmap_app. f_equal. change (seqZ (0 + j) 1) with [0 + j].
  cbn [fmap list_fmap]. rw Z.add_0_l /padded_blob. f_equal. rw (_ : blocks (elem_of data) (4096 * j) 4096 = blocks (elem_of data) (4096 * j) f ++ blocks (elem_of data) (4096 * j + f) (4096 - f)).
  { rw -blocks_add; [lia..|]. f_equal. lia. }
  f_equal. symmetry. apply blocks_zeros; [lia..|]. intros k Hk. apply elem_of_after. lia.
Qed.

(** The blobs the data takes: at least one. *)
Definition blobs_needed (data : bytes) : Z := Z.max 1 ((zlen data + 126975) / 126976).

Lemma EncodeBlobs_eq data : EncodeBlobs data = Ret (padded_blob data <$> seqZ 0 (blobs_needed data)).
Proof.
  have Hz := zlen_nonneg data. rw /EncodeBlobs. set (n := (zlen data + 30) / 31).
  have [Hn Hn'] : 0 ≤ n ∧ 31 * n - 30 ≤ zlen data + 0 ≤ 31 * n.
  { split; [apply Z.div_pos; lia|]. pose proof (Z.div_mod (zlen data + 30) 31). pose proof (Z.mod_pos_bound (zlen data + 30) 31). lia. }
  have := foldM_count (filled data) (encode_field data) 0 (Z.to_nat n). rw Z2Nat.id // Z.add_0_l.
  change (filled data 0) with (-1, [zeros BlobSize]). intros ->; [|intros; apply encode_field_eq; lia].
  cbn [mbind gores_bind]. rw /filled.
  pose proof (Z.div_mod (n - 1) 4096 ltac:(lia)) as E. pose proof (Z.mod_pos_bound (n - 1) 4096 ltac:(lia)) as Hm.
  destruct (Z.eqb_spec n 0) as [En|Hn0].
  - change (Ret (filling data 0 0).2 = Ret (padded_blob data <$> seqZ 0 (blobs_needed data))).
    rw filling_padded; [lia..|]. rw /blobs_needed (_ : (zlen data + 126975) / 126976 = 0); [apply Z.div_small; lia|]. done.
  - change (Ret (filling data ((n - 1) / 4096) ((n - 1) mod 4096 + 1)).2 = Ret (padded_blob data <$> seqZ 0 (blobs_needed data))).
    have Hj : 0 ≤ (n - 1) / 4096 by apply Z.div_pos; lia. rw filling_padded; [lia..|]. do 3 f_equal. rw /blobs_needed.
    rw -(Z.div_unique (zlen data + 126975) 126976 ((n - 1) / 4096 + 1) (zlen data - 1 - 126976 * ((n - 1) / 4096))); lia.
Qed.

Lemma padded_elem data j i : 0 ≤ i < 4096 →
  at_ (padded_blob data j) (32 * i) = 0 ∧ win (padded_blob data j) (32 * i + 1) 31 = win data (31 * (4096 * j + i)) 31.
Proof.
  intros Hi. have E : win (padded_blob data j) (32 * i) (1 + 31) = [0] ++ win data (31 * (4096 * j + i)) 31.
  { apply (win_blocks_at (elem_of data) 32); [apply zlen_elem_of|lia]. }
  rw win_add // in E. apply app_inj_1 in E as [E1 E2]; [|done]. rw win_one in E1. by injection E1.
Qed.

Lemma DecodeBlob_padded data j : 0 ≤ j → DecodeBlob (padded_blob data j) = Ret (win data (126976 * j) 126976).
Proof.
  intros Hj. rw /DecodeBlob zlen_padded_blob. change (BlobSize =? FieldElementsPerBlob * 32) with true. cbn [negb].
  have := foldM_count (λ i, win data (126976 * j) (31 * i)) (decode_field (padded_blob data j)) 0 (Z.to_nat 4096).
  cbv beta. change (win data (126976 * j) (31 * 0)) with (@nil Z). change (Z.of_nat (Z.to_nat 4096)) with FieldElementsPerBlob.
  intros ->; [done|]. intros i Hi. rw /FieldElementsPerBlob in Hi. rw /decode_field.
  rw (_ : 32 * i + 32 = 32 * i + 1 + 31); [lia|]. rw slice_win; [lia|lia|rw zlen_padded_blob /BlobSize; lia|].
  cbn [mbind gores_bind mret gores_ret]. rw (_ : 31 * (i + 1) = 31 * i + 31); [lia|]. rw win_add; [lia..|]. do 2 f_equal.
  rw (proj2 (padded_elem data j i ltac:(lia))). f_equal. lia.
Qed.

(** [EncodeBlobs] never panics, whatever the data; it gives as many blobs as the data takes at 31 bytes
    for each of 4096 field elements (one for no data), every element is below 2^248 (its first byte is 0), and
    [DecodeBlob] of the [j]-th blob is the [j]-th part of the data, padded with zeros. *)
Theorem EncodeBlobs_roundtrip data : ∃ blobs, EncodeBlobs data = Ret blobs ∧ zlen blobs = blobs_needed data ∧
  ∀ j blob, blobs !! j = Some blob →
    zlen blob = BlobSize ∧ (∀ i, 0 ≤ i < 4096 → at_ blob (32 * i) = 0) ∧
    DecodeBlob blob = Ret (win data (126976 * Z.of_nat j) 126976).
Proof.
  exists (padded_blob data <$> seqZ 0 (blobs_needed data)). split; [apply EncodeBlobs_eq|]. split.
  { rw /zlen length_fmap length_seqZ /blobs_needed. lia. }
  intros j blob Hj. apply list_lookup_fmap_Some in Hj as (x&->&Hx). apply lookup_seqZ in Hx as [-> _]. rw Z.add_0_l.
  split_and!; [apply zlen_padded_blob| |apply DecodeBlob_padded; lia]. intros i Hi.
  by apply padded_elem.
Qed.

(** [ConvertToBlobs] cuts the data into blobs, the last padded with zeros; no data gives no blob. *)
Lemma ConvertToBlobs_spec data :
  ConvertToBlobs data = Ret ((λ j, win data (BlobSize * j) BlobSize) <$> seqZ 0 ((zlen data + BlobSize - 1) / BlobSize)).
Proof.
  have Hz := zlen_nonneg data. rw /ConvertToBlobs. set (n := (zlen data + BlobSize - 1) / BlobSize).
  have [Hn Hn'] : 0 ≤ n ∧ BlobSize * n - (BlobSize - 1) ≤ zlen data.
  { split; [apply Z.div_pos; rw /BlobSize; lia|]. rw /n.
    pose proof (Z.div_mod (zlen data + BlobSize - 1) BlobSize). pose proof (Z.mod_pos_bound (zlen data + BlobSize - 1) BlobSize).
    rw /BlobSize in H H0 *. lia. }
  match goal with |- foldM ?f _ _ = _ => have := foldM_count (λ k, (λ j, win data (BlobSize * j) BlobSize) <$> seqZ 0 k) f 0 (Z.to_nat n) end.
  cbv beta. rw Z2Nat.id // Z.add_0_l. apply. intros k Hk.
  have HB : BlobSize = 131072 by done. set (m := Z.min BlobSize (zlen data - BlobSize * k)).
  rw (_ : Z.min (k * BlobSize + BlobSize) (zlen data) = k * BlobSize + m); [lia|]. rw slice_win; [lia..|].
  cbn [mbind gores_bind mret gores_ret]. rw go_copy_zeros; [rw zlen_win; lia|]. rw seqZ_app; [lia..|]. rw fmap_app. do 2 f_equal.
  change (seqZ (0 + k) 1) with [0 + k]. cbn [fmap list_fmap]. f_equal. rw zlen_win; [lia|]. rw Z.add_0_l Z.mul_comm.
  rw (_ : win data (BlobSize * k) BlobSize = win data (BlobSize * k) m ++ win data (BlobSize * k + m) (BlobSize - m)).
  { rw -win_add; [lia..|]. f_equal. lia. }
  f_equal. rw win_zero //; [lia|]. intros. apply at_ge. lia.
Qed.
