(* ===== verification/EsApi.v ===== *)
(** * The node's RPC for blobs (ethstorage/node/es_api.go)

    [es_getBlob]: a blob by its KV index and hash, from the downloader's cache or the
    storage, decoded the way the caller asks, and a range of it. *)

From S2P Require Import Prelude Extern EthashSizes Ethash DataFile ChunkCodec DataShard ShardManager StorageManager.
From S2P Require Import KvStore BlobSources BlobCache Downloader DownloaderFacts BlobReader BlobEncoder BlobBits BlobEncoderFacts BlobCodec.

Definition RawData : Z := 0.
Definition PaddingPer31Bytes : Z := 1.
Definition OptimismCompact : Z := 2.

Record esAPI (C : Type) := mkEsAPI { api_sm : StorageManager; api_cache : C }.
Arguments mkEsAPI {C}. Arguments api_sm {C}. Arguments api_cache {C}.

Definition NewESAPI {C} (s : StorageManager) (c : C) : esAPI C := mkEsAPI s c.

Section api.
Context {C : Type} {CA : BlobCache C} `{GE : Geth}.
Implicit Types api : esAPI C.

(** The blob from the storage: its metadata first, then the data checked against the hash's part that
    the contract keeps. *)
Definition read_stored api (kvIndex : Z) (blobHash : bytes) : gores bytes :=
  let s := api_sm api in
  meta ← TryReadMeta s kvIndex;
  commit ← match meta with
           | None => Ret []
           | Some (commit, None) => Ret commit
           | Some (_, Some err) => Fail err
           end;
  _ ← CompareCommits blobHash commit;
  let readCommit := go_copy (zeros 32) (take 24 blobHash) in
  blob ← TryRead s kvIndex (int64 (MaxKvSize (s_shardManager s))) readCommit;
  match blob with
  | Some blob => mret blob
  | None => Fail (ErrMsg "not found")
  end.

Definition decode_as (decodeType : Z) (blob : bytes) : gores bytes :=
  if decodeType =? PaddingPer31Bytes then BlobEncoder.DecodeBlob blob
  else if decodeType =? OptimismCompact then ToData blob
  else mret blob.

(** [ret[off : off+size]] after the check of the range; [off + size] is a [uint64]. *)
Definition blob_range (ret : bytes) (off size : Z) : gores bytes :=
  if zlen ret <? int64 (add64 off size) then Fail (ErrMsg "beyond the range of blob size")
  else slice ret off (add64 off size).

(** [order] is the order in which the blocks of the cache are visited. *)
Definition GetBlob api (order : list Z) (kvIndex : Z) (blobHash : bytes) (decodeType off size : Z) : gores bytes :=
  blob ← match GetKeyValueByIndex (api_cache api) order kvIndex blobHash with
         | None => read_stored api kvIndex blobHash
         | Some blob => StorageManager.DecodeBlob (api_sm api) blob blobHash kvIndex (MaxKvSize (s_shardManager (api_sm api)))
         end;
  ret ← decode_as decodeType blob;
  blob_range ret off size.

End api.

(** ** Ranges *)

Lemma blob_range_ok ret off size : is_u64 off → is_u64 size → zlen ret < two63 →
  off + size ≤ zlen ret → blob_range ret off size = Ret (take (Z.to_nat size) (drop (Z.to_nat off) ret)).
Proof.
  rw /is_u64 => Hoff Hsize Hl H. have E : add64 off size = off + size by rw /add64 /wrap64 Z.mod_small //; rw /two63 /two64 in Hl *; lia.
  rw /blob_range E int64_small; [rw /two63 in Hl *; lia|]. rw (proj2 (Z.ltb_ge _ _)); [lia|].
  rw slice_ok; [lia..|]. do 3 f_equal. lia.
Qed.

Lemma blob_range_beyond ret off size : is_u64 off → is_u64 size → zlen ret < two63 → off + size < two63 →
  zlen ret < off + size → blob_range ret off size = Fail (ErrMsg "beyond the range of blob size").
Proof.
  rw /is_u64 => Hoff Hsize Hl H Hb. rw /blob_range /add64 /wrap64 Z.mod_small; [rw /two63 /two64 in H *; lia|].
  rw int64_small; [rw /two63 in H *; lia|]. by rw (proj2 (Z.ltb_lt _ _)).
Qed.

(** From 2^63 on the sum is a negative [int], or has wrapped: the check passes and the slice panics. *)
Lemma blob_range_overflow ret off size : is_u64 off → is_u64 size → zlen ret < two63 → two63 ≤ off + size →
  (two64 ≤ off + size → off + size - two64 ≤ zlen ret) → blob_range ret off size = Panic OutOfRange.
Proof.
  rw /is_u64 => Hoff Hsize Hl H Hw. have Hz := zlen_nonneg ret. rw /blob_range. destruct (decide (off + size < two64)).
  - have E : add64 off size = off + size by rw /add64 /wrap64 Z.mod_small //; lia.
    have EI : int64 (off + size) = off + size - two64.
    { rw /int64. rw (_ : off + size + two63 = (off + size - two63) + 1 * two64); [rw /two63 /two64; lia|].
      rw Z_mod_plus_full Z.mod_small; rw /two63 /two64 in H l *; lia. }
    rw E EI (proj2 (Z.ltb_ge _ _)); [rw /two64 in l *; lia|]. rw /slice (_ : (off + size <=? zlen ret) = false); [lia|]. by rw andb_false_r.
  - have E : add64 off size = off + size - two64.
    { rw /add64 /wrap64. rw (_ : off + size = (off + size - two64) + 1 * two64); [lia|]. rw Z_mod_plus_full Z.mod_small; lia. }
    have ? := Hw ltac:(lia). rw E int64_small; [rw /two63 in Hl *; lia|]. rw (proj2 (Z.ltb_ge _ _)); [lia|].
    rw /slice (_ : (off <=? off + size - two64) = false); [lia|]. by rw andb_false_r.
Qed.

Lemma blob_range_inv ret off size out : is_u64 off → is_u64 size → blob_range ret off size = Ret out →
  off + size ≤ zlen ret ∧ out = take (Z.to_nat size) (drop (Z.to_nat off) ret).
Proof.
  rw /is_u64 /blob_range /slice => Hoff Hsize. destruct (_ <? _); [done|]. destruct (_ && _) eqn:E; [|done].
  apply andb_prop in E as [[_ E1%Z.leb_le]%andb_prop E2%Z.leb_le]. intros [= <-].
  have E : add64 off size = off + size.
  { rw /add64 /wrap64. apply Z.mod_small. split; [lia|]. destruct (decide (off + size < two64)); [done|]. exfalso.
    move: E1. rw /add64 /wrap64 (_ : off + size = (off + size - two64) + 1 * two64); [lia|].
    rw Z_mod_plus_full Z.mod_small; lia. }
  rw E in E2 *. split; [done|]. do 2 f_equal. lia.
Qed.

(** ** What a caller gets *)

Section sound.
Context {C : Type} {CA : BlobCache C} {CL : BlobCacheLaws C} `{GE : Geth} `{L1 : Il1Source} `{LN : L1Node} `{BS : BlobServers}.
Implicit Types d : Downloader C.

Lemma read_stored_hash `{!GethLaws GE} (api : esAPI C) k h blob : sm_wf (s_shardManager (api_sm api)) →
  take 24 h ≠ EmptyBlobCommit → read_stored api k h = Ret blob → ∃ h', BlobToVersionedHash blob = Ret h' ∧ take 24 h' = take 24 h.
Proof using.
  intros Hwf Hne. rw /read_stored. destruct (TryReadMeta _ _) as [meta| |]; [|done..]. cbn [mbind gores_bind].
  destruct (match meta with Some _ => _ | None => _ end) as [commit| |]; [|done..]. cbn [mbind gores_bind].
  destruct (CompareCommits h commit) as [[]| |] eqn:Ec; [|done..]. cbn [mbind gores_bind].
  have Hl : (24 ≤ length h)%nat.
  { move: Ec. rw /CompareCommits /HashSizeInContract /zlen. case: Z.ltb_spec => // H _. lia. }
  have Ht : take 24 (go_copy (zeros 32) (take 24 h)) = take 24 h.
  { rw go_copy_take; [rw /zeros length_replicate; lia|rw length_take; lia|]. by rw take_take. }
  destruct (TryRead _ _ _ _) as [[b|]| |] eqn:ER; [|done..]. intros [= <-]. rw -Ht.
  apply checkCommit_hash; [by rw Ht|]. exact (TryRead_checked _ _ _ _ Hwf ER).
Qed.

(** C27: whatever the L1 node and the blob servers answered before, bytes that the RPC [GetBlob] returns are
    the asked range, within bounds and of the asked length, of the asked decoding of a blob whose hash is the
    asked one on the 24 bytes kept in the contract. *)
Theorem GetBlob_range_sound `{!GethLaws GE} d0 d order k h t off size out :
  cache_ok (d_cache d0) → (∀ n, cached (d_cache d0) n = None) → rtc node_step d0 d →
  sm_wf (s_shardManager (d_sm d)) → 0 ≤ sm_kvSize (s_shardManager (d_sm d)) ≤ blob_size →
  take 24 h ≠ EmptyBlobCommit → is_u64 off → is_u64 size →
  GetBlob (NewESAPI (d_sm d) (d_cache d)) order k h t off size = Ret out →
  ∃ blob h' ret, BlobToVersionedHash blob = Ret h' ∧ take 24 h' = take 24 h ∧ decode_as t blob = Ret ret ∧
    off + size ≤ zlen ret ∧ zlen out = size ∧ out = take (Z.to_nat size) (drop (Z.to_nat off) ret).
Proof using CL.
  intros Hok Hempty Hrun Hwf Hsize Hne Hoff Hsz. have Hd := run_sound d0 d Hok Hempty Hrun.
  rw /GetBlob. cbn [NewESAPI api_sm api_cache].
  destruct (match GetKeyValueByIndex _ _ _ _ with Some _ => _ | None => _ end) as [blob| |] eqn:Eb; [|done..].
  cbn [mbind gores_bind]. destruct (decode_as t blob) as [ret| |] eqn:Et; [|done..]. cbn [mbind gores_bind]. intros Er.
  destruct (blob_range_inv _ _ _ _ Hoff Hsz Er) as [Hb ->].
  have [h' [H1 H2]] : ∃ h', BlobToVersionedHash blob = Ret h' ∧ take 24 h' = take 24 h.
  { destruct (GetKeyValueByIndex _ _ _ _) as [e|] eqn:EK.
    - exact (proj2 (cached_hash _ _ _ _ _ _ Hd Hsize EK Eb)).
    - exact (read_stored_hash (NewESAPI (d_sm d) (d_cache d)) _ _ _ Hwf Hne Eb). }
  exists blob, h', ret. split_and!; try done. rw /is_u64 in Hoff Hsz. rw zlen_take // zlen_drop; lia.
Qed.

(** A range whose end does not fit 63 bits is not refused: [off + size] wraps or is a negative [int], the
    length check passes, and the slice of [GetBlob] panics, whenever the blob is there and decodes. *)
Theorem GetBlob_range_overflow (api : esAPI C) order k h t off size e blob ret :
  GetKeyValueByIndex (api_cache api) order k h = Some e →
  StorageManager.DecodeBlob (api_sm api) e h k (MaxKvSize (s_shardManager (api_sm api))) = Ret blob →
  decode_as t blob = Ret ret → zlen ret < two63 →
  is_u64 off → is_u64 size → two63 ≤ off + size → (two64 ≤ off + size → off + size - two64 ≤ zlen ret) →
  GetBlob api order k h t off size = Panic OutOfRange.
Proof using.
  intros E1 E2 E3 Hl Hoff Hsize H1 H2. rw /GetBlob E1 E2. cbn [mbind gores_bind]. rw E3. cbn [mbind gores_bind].
  by apply blob_range_overflow.
Qed.

End sound.

(** ** An example: the blob that a run put in the cache *)

#[local] Existing Instance ex_l1.
#[local] Existing Instance ex_node.
#[local] Existing Instance ex_servers.

Definition ex_api : esAPI BlobMemCache := NewESAPI (d_sm ex_cached) (d_cache ex_cached).

Lemma GetBlob_range_sound_witness :
  ∃ blob h' ret, BlobToVersionedHash blob = Ret h' ∧ take 24 h' = take 24 ex_new ∧ decode_as RawData blob = Ret ret ∧
    1 + 2 ≤ zlen ret ∧ zlen [8; 7] = 2 ∧ [8; 7] = take 2 (drop 1 ret).
Proof.
  have E : d_sm ex_cached = ex_s by vm_compute.
  apply (GetBlob_range_sound (ex_downloader ∅ 5) ex_cached [6; 7] 3 ex_new RawData 1 2 [8; 7]).
  - apply ex_cache_ok.
  - intros n. by rw /cached /= /mem_Blobs lookup_empty.
  - exact ex_cached_run.
  - rw E. exact ex_sm_wf.
  - rw E. split; vm_compute; discriminate.
  - vm_compute; discriminate.
  - rw /is_u64 /two64. lia.
  - rw /is_u64 /two64. lia.
  - vm_compute. reflexivity.
Defined.

Definition ex_entry : bytes := from_option id [] (GetKeyValueByIndex (api_cache ex_api) [6; 7] 3 ex_new).
Definition ex_blob : bytes := from_ret [] (StorageManager.DecodeBlob (api_sm ex_api) ex_entry ex_new 3 (MaxKvSize (s_shardManager (api_sm ex_api)))).

Lemma GetBlob_range_overflow_witness : GetBlob ex_api [6; 7] 3 ex_new RawData (two64 - 1) 1 = Panic OutOfRange.
Proof.
  apply (GetBlob_range_overflow ex_api [6; 7] 3 ex_new RawData (two64 - 1) 1 ex_entry ex_blob ex_blob).
  - vm_compute. reflexivity.
  - vm_compute. reflexivity.
  - reflexivity.
  - vm_compute. reflexivity.
  - rw /is_u64 /two64. lia.
  - rw /is_u64 /two64. lia.
  - rw /two63 /two64. lia.
  - intros _. rw Z.sub_add Z.sub_diag. apply zlen_nonneg.
Defined.
