(* ===== verification/Merkle.v ===== *)
(** * Merkle provers (ethstorage/prover/merkleprover.go and minmerkletreeprover.go)

    Proofs of chunks against the root of a binary hash tree over the chunks of a
    KV.  The code folds the levels of the tree in place; the reference definition
    is the root by recursion on the two halves of the leaves. *)

From S2P Require Import Prelude Extern.

Definition zero_hash : bytes := zeros 32.

(** [l[i] = x]. *)
Definition set_index {A} (l : list A) (i : Z) (x : A) : gores (list A) :=
  if (0 <=? i) && (i <? zlen l) then Ret (<[Z.to_nat i := x]> l) else Panic OutOfRange.

Section merkle.
Context `{Geth}.

(** ** MerkleProver *)

(** The loop over the chunks; it is left at the first offset that [stop]s it. *)
Fixpoint leaf_loop (stop : Z → bool) (data : bytes) (chunkSize : Z) (idxs : list Z) (nodes : list bytes)
    : gores (list bytes) :=
  match idxs with
  | [] => mret nodes
  | i :: idxs =>
      let off := mul64 i chunkSize in
      if stop off then mret nodes
      else
        let l := Z.min (sub64 (zlen data) off) chunkSize in
        chunk ← slice data off (add64 off l);
        nodes ← set_index nodes i (Keccak256Hash chunk);
        leaf_loop stop data chunkSize idxs nodes
  end.

Definition proof_leaves (data : bytes) (nChunks chunkSize : Z) : gores (list bytes) :=
  leaf_loop (λ off, zlen data <? off) data chunkSize (seqZ 0 nChunks)
    (replicate (Z.to_nat nChunks) zero_hash).

Definition root_leaves (data : bytes) (chunkPerKV chunkSize : Z) : gores (list bytes) :=
  leaf_loop (λ off, zlen data <=? off) data chunkSize (seqZ 0 chunkPerKV)
    (replicate (Z.to_nat chunkPerKV) zero_hash).

(** One level, in place. *)
Definition pair_loop (n : Z) (nodes : list bytes) : gores (list bytes) :=
  foldM (λ nodes i,
    a ← index nodes (mul64 i 2);
    b ← index nodes (add64 (mul64 i 2) 1);
    set_index nodes i (Keccak256Hash (a ++ b))) nodes (seqZ 0 (n / 2)).

(** The loops over the levels: a number of nodes halves at most 63 times before
    it is 1, unless it is 0, which is never left. *)
Fixpoint proof_loop (fuel : nat) (n chunkIdx proofIdx : Z) (proofs nodes : list bytes)
    : gores (list bytes) :=
  if n =? 1 then mret proofs
  else
    match fuel with
    | O => Panic OutOfFuel
    | S fuel =>
        s ← index nodes (sub64 (add64 (mul64 (chunkIdx / 2) 2) 1) (chunkIdx mod 2));
        proofs ← set_index proofs proofIdx s;
        nodes ← pair_loop n nodes;
        proof_loop fuel (n / 2) (chunkIdx / 2) (add64 proofIdx 1) proofs nodes
    end.

Fixpoint root_loop (fuel : nat) (n : Z) (nodes : list bytes) : gores (list bytes) :=
  if n =? 1 then mret nodes
  else
    match fuel with
    | O => Panic OutOfFuel
    | S fuel => nodes ← pair_loop n nodes; root_loop fuel (n / 2) nodes
    end.

Definition GetProof (data : bytes) (nChunkBits chunkIdx chunkSize : Z) : gores (list bytes) :=
  if zlen data =? 0 then mret []
  else
    let nChunks := shl64 1 nChunkBits in
    if nChunks <=? chunkIdx then Fail (ErrMsg "index out of scope")
    else
      nodes ← proof_leaves data nChunks chunkSize;
      proof_loop 64 nChunks chunkIdx 0 (replicate (Z.to_nat nChunkBits) zero_hash) nodes.

(** One level of a proof. *)
Definition verify_step (acc : bytes * Z) (p : bytes) : gores (bytes * Z) :=
  let '(hash, c) := acc in
  mret (if c mod 2 =? 0 then (Keccak256Hash (hash ++ p), c / 2) else (Keccak256Hash (p ++ hash), c / 2)).

Definition GetRootWithProof (dataHash : bytes) (chunkIdx : Z) (proofs : list bytes) : gores bytes :=
  if zlen proofs =? 0 then mret dataHash
  else if shl64 1 (zlen proofs) <=? chunkIdx then Fail (ErrMsg "chunkId overflows")
  else
    '(hash, _) ← foldM verify_step (dataHash, chunkIdx) proofs;
    mret hash.

Definition GetRoot (data : bytes) (chunkPerKV chunkSize : Z) : gores bytes :=
  if zlen data =? 0 then mret zero_hash
  else
    nodes ← root_leaves data chunkPerKV chunkSize;
    nodes ← root_loop 64 chunkPerKV nodes;
    index nodes 0.

(** ** MinMerkleTreeProver *)

Fixpoint count_bits (fuel : nat) (n nChunkBits : Z) : gores Z :=
  if n =? 0 then mret nChunkBits
  else
    match fuel with
    | O => Panic OutOfFuel
    | S fuel => count_bits fuel (Z.shiftr n 1) (add64 nChunkBits 1)
    end.

Definition findNChunk (dataLen chunkSize : Z) : gores (Z * Z) :=
  if dataLen =? 0 then mret (0, 0)
  else
    q ← udiv (sub64 (add64 dataLen chunkSize) 1) chunkSize;
    nChunkBits ← count_bits 64 (sub64 q 1) 0;
    mret (shl64 1 nChunkBits, nChunkBits).

Definition Min_GetRootWithProof (dataHash : bytes) (chunkIdx : Z) (proofs : list bytes) : gores bytes :=
  GetRootWithProof dataHash chunkIdx proofs.

Definition Min_GetProof (data : bytes) (nChunkBits chunkIdx chunkSize : Z) : gores (list bytes) :=
  if zlen data =? 0 then mret []
  else if shl64 1 nChunkBits <=? chunkIdx then Fail (ErrMsg "index out of scope")
  else
    '(nMinChunks, nMinChunkBits) ← findNChunk (zlen data) chunkSize;
    if nMinChunks <=? chunkIdx then mret []
    else GetProof data nMinChunkBits chunkIdx chunkSize.

Definition Min_GetRoot (data : bytes) (nChunk chunkSize : Z) : gores bytes :=
  if zlen data =? 0 then mret zero_hash
  else
    '(nMinChunks, _) ← findNChunk (zlen data) chunkSize;
    GetRoot data nMinChunks chunkSize.

(** ** The reference *)

(** The root of a perfect tree with [2 ^ b] leaves. *)
Fixpoint merkle_root (b : nat) (leaves : list bytes) : bytes :=
  match b with
  | O => default zero_hash (leaves !! 0%nat)
  | S b => Keccak256Hash (merkle_root b (take (2 ^ b) leaves) ++ merkle_root b (drop (2 ^ b) leaves))
  end.

(** The chunks of a KV. *)
Definition chunk_at (data : bytes) (chunkSize i : Z) : bytes :=
  take (Z.to_nat chunkSize) (drop (Z.to_nat (i * chunkSize)) data).

(** The leaves: [edge] for a chunk that starts right at the end of the data. *)
Definition leaf (edge data : bytes) (chunkSize i : Z) : bytes :=
  if i * chunkSize <? zlen data then Keccak256Hash (chunk_at data chunkSize i)
  else if i * chunkSize =? zlen data then edge else zero_hash.

Definition leaves (edge data : bytes) (n chunkSize : Z) : list bytes :=
  leaf edge data chunkSize <$> seqZ 0 n.

(** *** Levels *)

(** The parents of a level. *)
Fixpoint pairs (l : list bytes) : list bytes :=
  match l with
  | x :: y :: l => Keccak256Hash (x ++ y) :: pairs l
  | _ => []
  end.

Lemma length_pairs l (n : nat) : length l = (2 * n)%nat → length (pairs l) = n.
Proof.
  revert l. induction n as [|n IH]; intros [|x [|y l]]; simpl; try lia; try done.
  intros Hl. rw IH //. lia.
Qed.

Lemma pairs_app l k n : length l = (2 * n)%nat → pairs (l ++ k) = pairs l ++ pairs k.
Proof.
  revert l. induction n as [|n IH]; intros [|x [|y l]]; simpl; try lia; try done.
  intros Hl. rw IH //. lia.
Qed.

Lemma pairs_lookup i : ∀ l x y, l !! (2 * i)%nat = Some x → l !! (2 * i + 1)%nat = Some y →
  pairs l !! i = Some (Keccak256Hash (x ++ y)).
Proof.
  induction i as [|i IH]; intros [|x0 [|y0 l]] x y; try done; [by intros [= <-] [= <-]|].
  have -> : (2 * S i = S (S (2 * i)))%nat by lia. have -> : (S (S (2 * i)) + 1 = S (S (2 * i + 1)))%nat by lia.
  apply IH.
Qed.

Lemma merkle_root_pairs b : ∀ l,
  length l = (2 ^ S b)%nat → merkle_root (S b) l = merkle_root b (pairs l).
Proof.
  induction b as [|b IH]; intros l Hl.
  { destruct l as [|x [|y [|z l]]]; simpl in Hl; try lia. done. }
  have Hp : (2 ^ S (S b) = 2 * 2 ^ S b)%nat by simpl; lia.
  have Hp1 : (2 ^ S b = 2 * 2 ^ b)%nat by simpl; lia.
  change (merkle_root (S (S b)) l) with (Keccak256Hash
    (merkle_root (S b) (take (2 ^ S b) l) ++ merkle_root (S b) (drop (2 ^ S b) l))).
  have Ht : length (take (2 ^ S b) l) = (2 ^ S b)%nat by rw length_take; lia.
  have Hd : length (drop (2 ^ S b) l) = (2 ^ S b)%nat by rw length_drop; lia.
  rw (IH _ Ht) (IH _ Hd).
  have HP : pairs l = pairs (take (2 ^ S b) l) ++ pairs (drop (2 ^ S b) l).
  { rw -(pairs_app _ _ (2 ^ b)); [lia|]. by rw take_drop. }
  have Hl1 : length (pairs (take (2 ^ S b) l)) = (2 ^ b)%nat by apply length_pairs; lia.
  change (merkle_root (S b) (pairs l)) with (Keccak256Hash
    (merkle_root b (take (2 ^ b) (pairs l)) ++ merkle_root b (drop (2 ^ b) (pairs l)))).
  by rw HP take_app_length' // drop_app_length'.
Qed.

(** [pair_loop] turns a level into its parents. *)
Lemma pair_loop_pairs nodes rest (n : nat) :
  length nodes = (2 * n)%nat → 2 * Z.of_nat n < two64 →
  ∃ rest', pair_loop (2 * Z.of_nat n) (nodes ++ rest) = Ret (pairs nodes ++ rest').
Proof.
  intros Hl Hn. exists (drop n (nodes ++ rest)).
  rw /pair_loop (Z.mul_comm 2) Z.div_mul; [lia|].
  pose (P (i : Z) := pairs (take (2 * Z.to_nat i) nodes) ++ drop (Z.to_nat i) (nodes ++ rest)).
  have H0 : P 0 = nodes ++ rest by done.
  have HP : pairs nodes ++ drop n (nodes ++ rest) = P (0 + Z.of_nat n).
  { rw /P Z.add_0_l Nat2Z.id take_ge //. lia. }
  rw HP -{1}H0. apply foldM_count. intros i Hi. rw /P.
  set k := Z.to_nat i. have Hk : (k < n)%nat by lia.
  have Hpk : length (pairs (take (2 * k) nodes)) = k by apply length_pairs; rw length_take; lia.
  have Hlk j : (k ≤ j)%nat → (pairs (take (2 * k) nodes) ++ drop k (nodes ++ rest)) !! j = (nodes ++ rest) !! j.
  { intros Hj. rw lookup_app_r ?Hpk // lookup_drop. f_equal. lia. }
  have [x Hx] : is_Some (nodes !! (2 * k)%nat) by apply lookup_lt_is_Some; lia.
  have [y Hy] : is_Some (nodes !! (2 * k + 1)%nat) by apply lookup_lt_is_Some; lia.
  have E1 : mul64 i 2 = 2 * i by rw /mul64 wrap64_small; lia.
  have E2 : add64 (2 * i) 1 = 2 * i + 1 by rw /add64 wrap64_small; lia.
  rw E1 E2 (index_lookup _ (2 * i) x); [lia| |].
  { have -> : Z.to_nat (2 * i) = (2 * k)%nat by lia. rw Hlk; [lia|]. by apply lookup_app_l_Some. }
  cbn [mbind gores_bind]. rw (index_lookup _ (2 * i + 1) y); [lia| |].
  { have -> : Z.to_nat (2 * i + 1) = (2 * k + 1)%nat by lia. rw Hlk; [lia|]. by apply lookup_app_l_Some. }
  cbn [mbind gores_bind]. rw /set_index (proj2 (Z.leb_le _ _)); [lia|]. rw (proj2 (Z.ltb_lt _ _)).
  { rw /zlen length_app Hpk length_drop length_app. lia. }
  cbn [andb]. f_equal. rw -/k. have -> : Z.to_nat (i + 1) = S k by lia.
  have -> : (2 * S k = S (S (2 * k)))%nat by lia.
  have HT : take (S (S (2 * k))) nodes = take (2 * k) nodes ++ [x; y].
  { rw (take_S_r _ _ y); [by rw -Hy; f_equal; lia|]. by rw (take_S_r _ _ x) // -app_assoc. }
  rw HT (pairs_app _ _ k); [rw length_take; lia|]. cbn [pairs]. rw -app_assoc.
  rw insert_app_r_alt ?Hpk // Nat.sub_diag. f_equal.
  have [z Hz] : is_Some ((nodes ++ rest) !! k) by apply lookup_lt_is_Some; rw length_app; lia.
  by rw (drop_S _ z) //.
Qed.

Lemma two_power_nat b : (Z.of_nat (2 ^ S b) = 2 * Z.of_nat (2 ^ b))%Z.
Proof. rw Nat.pow_succ_r'. lia. Qed.

Lemma root_loop_ok b : ∀ fuel nodes rest,
  length nodes = (2 ^ b)%nat → (b ≤ fuel)%nat → Z.of_nat (2 ^ b) < two64 →
  ∃ rest', root_loop fuel (Z.of_nat (2 ^ b)) (nodes ++ rest) = Ret (merkle_root b nodes :: rest').
Proof.
  induction b as [|b IH]; intros fuel nodes rest Hl Hf Hb.
  { destruct nodes as [|x [|]]; try done. exists rest. by destruct fuel. }
  destruct fuel as [|fuel]; [lia|]. have Hp := two_power_nat b. have Hpos := Nat.pow_nonzero 2 b ltac:(lia).
  cbn [root_loop]. rw (proj2 (Z.eqb_neq _ _)); [lia|]. rw Hp in Hb |- *.
  destruct (pair_loop_pairs nodes rest (2 ^ b)) as [r1 ->]; [by rw Hl Nat.pow_succ_r'|done|].
  cbn [mbind gores_bind]. rw (Z.mul_comm 2) Z.div_mul; [lia|].
  destruct (IH fuel (pairs nodes) r1) as [r2 ->].
  { apply length_pairs. by rw Hl Nat.pow_succ_r'. }
  { lia. }
  { lia. }
  exists r2. by rw merkle_root_pairs.
Qed.

(** *** Proofs *)

Definition sibling (c : Z) : Z := c / 2 * 2 + 1 - c mod 2.

Fixpoint siblings (b : nat) (l : list bytes) (c : Z) : list bytes :=
  match b with
  | O => []
  | S b => default zero_hash (l !! Z.to_nat (sibling c)) :: siblings b (pairs l) (c / 2)
  end.

Lemma length_siblings b l c : length (siblings b l c) = b.
Proof. revert l c. induction b as [|b IH]; intros l c; [done|]. simpl. by rw IH. Qed.

Lemma sibling_range (n : nat) c : 0 ≤ c < 2 * Z.of_nat n → 0 ≤ sibling c < 2 * Z.of_nat n.
Proof. intros Hc. rw /sibling. have := Z.div_mod c 2 ltac:(lia). have := Z.mod_pos_bound c 2 ltac:(lia). lia. Qed.

Lemma proof_loop_ok b : ∀ fuel nodes rest c p proofs,
  length nodes = (2 ^ b)%nat → (b ≤ fuel)%nat → Z.of_nat (2 ^ b) < two64 → 0 ≤ c < Z.of_nat (2 ^ b) →
  length proofs = (p + b)%nat → Z.of_nat (p + b) < two64 →
  proof_loop fuel (Z.of_nat (2 ^ b)) c (Z.of_nat p) proofs (nodes ++ rest) =
    Ret (take p proofs ++ siblings b nodes c).
Proof.
  induction b as [|b IH]; intros fuel nodes rest c p proofs Hl Hf Hb Hc Hlp Hpb.
  { have -> : proof_loop fuel 1 c (Z.of_nat p) proofs (nodes ++ rest) = Ret proofs by destruct fuel.
    rw app_nil_r take_ge //. lia. }
  destruct fuel as [|fuel]; [lia|]. have Hp := two_power_nat b. have Hpos := Nat.pow_nonzero 2 b ltac:(lia).
  cbn [proof_loop]. rw (proj2 (Z.eqb_neq _ _)); [lia|]. rw Hp in Hb Hc |- *.
  have Hs := sibling_range _ _ Hc. have Hd := Z.div_mod c 2 ltac:(lia). have Hm := Z.mod_pos_bound c 2 ltac:(lia).
  have -> : sub64 (add64 (mul64 (c / 2) 2) 1) (c mod 2) = sibling c.
  { rw /sub64 /add64 /mul64 (wrap64_small (c / 2 * 2)); [lia|]. rw (wrap64_small (c / 2 * 2 + 1)); [lia|].
    rw wrap64_small //. rw /sibling in Hs. lia. }
  have [x Hx] : is_Some (nodes !! Z.to_nat (sibling c)).
  { apply lookup_lt_is_Some. rw Hl Nat.pow_succ_r'. lia. }
  rw (index_lookup _ (sibling c) x); [lia|by apply lookup_app_l_Some|]. cbn [mbind gores_bind].
  rw /set_index (proj2 (Z.leb_le _ _)); [lia|]. rw (proj2 (Z.ltb_lt _ _)); [rw /zlen Hlp; lia|].
  cbn [andb mbind gores_bind]. rw Nat2Z.id.
  destruct (pair_loop_pairs nodes rest (2 ^ b)) as [r1 ->]; [by rw Hl Nat.pow_succ_r'|done|].
  cbn [mbind gores_bind]. rw (Z.mul_comm 2) Z.div_mul; [lia|].
  have -> : add64 (Z.of_nat p) 1 = Z.of_nat (S p) by rw /add64 wrap64_small; lia.
  rw IH.
  { apply length_pairs. by rw Hl Nat.pow_succ_r'. }
  { lia. }
  { lia. }
  { lia. }
  { rw length_insert. lia. }
  { lia. }
  cbn [siblings]. rw Hx /=. rw (take_S_r _ _ x); [apply list_lookup_insert_eq; lia|].
  by rw take_insert_ge // -app_assoc.
Qed.

Lemma siblings_verify b : ∀ l c x,
  length l = (2 ^ b)%nat → 0 ≤ c < Z.of_nat (2 ^ b) → l !! Z.to_nat c = Some x →
  ∃ c', foldM verify_step (x, c) (siblings b l c) = Ret (merkle_root b l, c').
Proof.
  induction b as [|b IH]; intros l c x Hl Hc Hx.
  { exists c. have E : c = 0 by simpl in Hc; lia. subst c. cbn [siblings merkle_root]. by rw Hx. }
  have Hp := two_power_nat b. rw Hp in Hc.
  have Hs := sibling_range _ _ Hc. have Hd := Z.div_mod c 2 ltac:(lia). have Hm := Z.mod_pos_bound c 2 ltac:(lia).
  have [y Hy] : is_Some (l !! Z.to_nat (sibling c)).
  { apply lookup_lt_is_Some. rw Hl Nat.pow_succ_r'. lia. }
  cbn [siblings]. rw foldM_cons Hy. cbn [default verify_step mbind gores_bind mret gores_ret].
  rw (merkle_root_pairs b l Hl).
  have HL : length (pairs l) = (2 ^ b)%nat by apply length_pairs; rw Hl Nat.pow_succ_r'.
  have E1 : (2 * Z.to_nat (c / 2) = Z.to_nat (2 * (c / 2)))%nat by lia.
  have E2 : (2 * Z.to_nat (c / 2) + 1 = Z.to_nat (2 * (c / 2) + 1))%nat by lia.
  case: Z.eqb_spec => Em; (apply IH; [done|lia|]); apply pairs_lookup; rw ?E1 ?E2.
  - by rw -Hx; do 2 f_equal; lia.
  - rw -Hy. do 2 f_equal. rw /sibling. lia.
  - rw -Hy. do 2 f_equal. rw /sibling. lia.
  - by rw -Hx; do 2 f_equal; lia.
Qed.

(** *** Leaves *)

(** When the loop stops, and what it puts at the end of the data. *)
Definition stops (stop : Z → bool) (edge data : bytes) : Prop :=
  (∀ off, stop off = false → off < zlen data ∨ off = zlen data ∧ edge = Keccak256Hash []) ∧
  (∀ off, stop off = true → zlen data < off ∨ off = zlen data ∧ edge = zero_hash).

Lemma leaf_loop_ok stop edge data cs (k : nat) : ∀ i nodes,
  stops stop edge data → 0 < cs → 0 ≤ i → (i + Z.of_nat k) * cs < two64 → zlen data < two63 →
  zlen nodes = i →
  leaf_loop stop data cs (seqZ i (Z.of_nat k)) (nodes ++ replicate k zero_hash) =
    Ret (nodes ++ (leaf edge data cs <$> seqZ i (Z.of_nat k))).
Proof.
  intros i nodes [Hf Ht] Hcs. revert i nodes. induction k as [|k IH]; intros i nodes Hi Hb Hd Hn; [done|].
  rw (seqZ_cons i); [lia|]. cbn [leaf_loop].
  have -> : Z.pred (Z.of_nat (S k)) = Z.of_nat k by lia. rw -Z.add_1_r.
  have Hoff : mul64 i cs = i * cs by rw /mul64 wrap64_small; nia. rw Hoff.
  destruct (stop (i * cs)) eqn:Es.
  - have Hz j : i ≤ j → leaf edge data cs j = zero_hash.
    { intros Hj. rw /leaf. have Hij : i * cs ≤ j * cs by nia.
      destruct (Ht _ Es) as [Hlt|[Heq ->]]; rw (proj2 (Z.ltb_ge _ _)); try lia; case: Z.eqb_spec => // ?; lia. }
    f_equal. cbn [fmap list_fmap]. rw Hz; [lia|]. f_equal. cbn [replicate]. f_equal.
    apply list_eq. intros j. rw list_lookup_fmap.
    destruct (decide (j < k)%nat) as [Hj|Hj].
    + rw lookup_replicate_2 // (lookup_seqZ_lt); [lia|]. simpl. by rw Hz; [lia|].
    + rw lookup_ge_None_2; [rw length_replicate; lia|]. by rw lookup_seqZ_ge; [lia|].
  - have Hle : i * cs ≤ zlen data by destruct (Hf _ Es) as [?|[? _]]; lia.
    have Hl0 := zlen_nonneg data. have Hic : 0 ≤ i * cs by nia. set m := Z.min (sub64 (zlen data) (i * cs)) cs.
    have Hm : m = Z.min (zlen data - i * cs) cs.
    { rw /m /sub64 wrap64_small //. rw /two63 /two64 in Hd *. nia. }
    have Hadd : add64 (i * cs) m = i * cs + m.
    { rw /add64 wrap64_small //. rw /two63 /two64 in Hd *. nia. }
    rw Hadd slice_ok; [nia|lia|]. cbn [mbind gores_bind].
    have Hchunk : Keccak256Hash (take (Z.to_nat (i * cs + m - i * cs)) (drop (Z.to_nat (i * cs)) data)) =
      leaf edge data cs i.
    { rw /leaf. have -> : i * cs + m - i * cs = m by lia. case: Z.ltb_spec => Hlt.
      - rw /chunk_at. f_equal. rw Hm. destruct (decide (zlen data - i * cs ≤ cs)) as [Hc|Hc].
        + rw Z.min_l // !take_ge //; rw length_drop; rw /zlen in Hc |- *; lia.
        + by rw Z.min_r; [lia|].
      - destruct (Hf _ Es) as [?|[Heq ->]]; [lia|]. rw (proj2 (Z.eqb_eq _ _) Heq). f_equal.
        rw drop_ge; [rw /zlen in Heq; lia|]. by rw take_nil. }
    rw Hchunk /set_index (proj2 (Z.leb_le _ _)); [lia|]. rw (proj2 (Z.ltb_lt _ _)).
    { rw zlen_app Hn /zlen length_replicate. lia. }
    cbn [andb mbind gores_bind]. have -> : Z.to_nat i = length nodes by rw /zlen in Hn; lia.
    cbn [replicate]. rw insert_app_r_alt // Nat.sub_diag. cbn [insert list_insert].
    rw (app_assoc nodes [_] (replicate _ _) : nodes ++ leaf edge data cs i :: replicate k zero_hash = _).
    rw IH; [lia|lia|done|rw zlen_app Hn; rw /zlen /=; lia|]. cbn [fmap list_fmap]. by rw -app_assoc.
Qed.

Lemma proof_stops data : stops (λ off, zlen data <? off) (Keccak256Hash []) data.
Proof. split; intros off; [intros H0%Z.ltb_ge|intros H0%Z.ltb_lt; by left]. destruct (decide (off = zlen data)); [by right|left; lia]. Qed.

Lemma root_stops data : stops (λ off, zlen data <=? off) zero_hash data.
Proof. split; intros off; [intros H0%Z.leb_gt; by left|intros H0%Z.leb_le]. destruct (decide (off = zlen data)); [by right|left; lia]. Qed.

Lemma length_leaves edge data (n : nat) cs : length (leaves edge data (Z.of_nat n) cs) = n.
Proof. rw /leaves length_fmap length_seqZ. lia. Qed.

Lemma lookup_leaves edge data (n : nat) cs c :
  0 ≤ c < Z.of_nat n → leaves edge data (Z.of_nat n) cs !! Z.to_nat c = Some (leaf edge data cs c).
Proof.
  intros Hc. rw /leaves list_lookup_fmap lookup_seqZ_lt; [lia|]. simpl. do 2 f_equal. lia.
Qed.

Lemma shl64_pow (b : nat) : Z.of_nat (2 ^ b) < two64 → shl64 1 (Z.of_nat b) = Z.of_nat (2 ^ b).
Proof.
  intros Hb. rw /shl64 Z.shiftl_mul_pow2; [lia|]. rw Z.mul_1_l -(Nat2Z.inj_pow 2) wrap64_small //. lia.
Qed.

Lemma pow_fuel (b : nat) : Z.of_nat (2 ^ b) < two64 → (b ≤ 64)%nat.
Proof.
  intros Hb. destruct (decide (b ≤ 64)%nat) as [|Hn]; [done|]. exfalso.
  rw Nat2Z.inj_pow in Hb. have := Z.pow_le_mono_r 2 64 (Z.of_nat b) ltac:(lia) ltac:(lia). rw /two64 in Hb. lia.
Qed.

Section tree.
Context (data : bytes) (cs : Z) (b : nat) (c : Z).
Context (Hdata : 0 < zlen data < two63) (Hcs : 0 < cs) (Hsize : Z.of_nat (2 ^ b) * cs < two64).
Context (Hc : 0 ≤ c < Z.of_nat (2 ^ b)).

Lemma tree_size : Z.of_nat (2 ^ b) < two64.
Proof. nia. Qed.

Lemma GetProof_ok :
  GetProof data (Z.of_nat b) c cs =
    Ret (siblings b (leaves (Keccak256Hash []) data (Z.of_nat (2 ^ b)) cs) c).
Proof.
  have Hb := tree_size. have Hf := pow_fuel b Hb.
  rw /GetProof (proj2 (Z.eqb_neq _ _)); [lia|]. rw shl64_pow // (proj2 (Z.leb_gt _ _)); [lia|].
  rw /proof_leaves. have HL := leaf_loop_ok (λ off, zlen data <? off) (Keccak256Hash []) data cs (2 ^ b) 0 []
    (proof_stops data) Hcs ltac:(lia) ltac:(lia) ltac:(lia) eq_refl.
  rw !app_nil_l in HL. rw !Nat2Z.id HL. cbn [mbind gores_bind].
  rw -/(leaves (Keccak256Hash []) data (Z.of_nat (2 ^ b)) cs) -[leaves _ _ _ _]app_nil_r.
  rw (proof_loop_ok b 64 _ [] c 0) //.
  - apply length_leaves.
  - by rw length_replicate.
  - rw /two64. lia.
  - by rw app_nil_r.
Qed.

Lemma GetRoot_ok :
  GetRoot data (Z.of_nat (2 ^ b)) cs = Ret (merkle_root b (leaves zero_hash data (Z.of_nat (2 ^ b)) cs)).
Proof.
  have Hb := tree_size. have Hf := pow_fuel b Hb.
  rw /GetRoot (proj2 (Z.eqb_neq _ _)); [lia|].
  rw /root_leaves. have HL := leaf_loop_ok (λ off, zlen data <=? off) zero_hash data cs (2 ^ b) 0 []
    (root_stops data) Hcs ltac:(lia) ltac:(lia) ltac:(lia) eq_refl.
  rw !app_nil_l in HL. rw !Nat2Z.id HL. cbn [mbind gores_bind].
  rw -/(leaves zero_hash data (Z.of_nat (2 ^ b)) cs).
  destruct (root_loop_ok b 64 (leaves zero_hash data (Z.of_nat (2 ^ b)) cs) []) as [r HR];
    [apply length_leaves|done..|]. rw app_nil_r in HR. by rw HR.
Qed.

End tree.

Lemma GetRootWithProof_fold x c proofs :
  0 ≤ c < Z.of_nat (2 ^ length proofs) → Z.of_nat (2 ^ length proofs) < two64 →
  GetRootWithProof x c proofs = ('(hash, _) ← foldM verify_step (x, c) proofs; mret hash).
Proof.
  intros Hc Hb. rw /GetRootWithProof. case: Z.eqb_spec => E; [by destruct proofs|].
  by rw /zlen shl64_pow // (proj2 (Z.leb_gt _ _)); [lia|].
Qed.

Lemma siblings_root b l c x :
  length l = (2 ^ b)%nat → 0 ≤ c < Z.of_nat (2 ^ b) → Z.of_nat (2 ^ b) < two64 → l !! Z.to_nat c = Some x →
  GetRootWithProof x c (siblings b l c) = Ret (merkle_root b l).
Proof.
  intros Hl Hc Hb Hx. rw GetRootWithProof_fold ?length_siblings //.
  by destruct (siblings_verify b l c x Hl Hc Hx) as [c' ->].
Qed.

(** *** Roots bind their leaves *)

(** Two different inputs with the same hash. *)
Definition collision : Prop := ∃ x y, x ≠ y ∧ Keccak256Hash x = Keccak256Hash y.

Context {GL : GethLaws _}.

Definition hashes (l : list bytes) : Prop := Forall (λ x, length x = 32%nat) l.

Lemma length_merkle_root b l : hashes l → length (merkle_root b l) = 32%nat.
Proof.
  intros Hl. destruct b as [|b]; [|apply Keccak256Hash_length]. simpl.
  destruct (l !! 0%nat) as [x|] eqn:E; [|done]. exact (Forall_lookup_1 _ _ _ _ Hl E).
Qed.

(** Equal hashes of two pairs of 32 bytes. *)
Lemma pair_inj x y x' y' :
  length x = 32%nat → length x' = 32%nat → Keccak256Hash (x ++ y) = Keccak256Hash (x' ++ y') →
  x = x' ∧ y = y' ∨ collision.
Proof.
  intros Hx Hx' E. destruct (decide (x ++ y = x' ++ y')) as [Ea|Hne].
  - left. apply app_inj_1 in Ea; [done|]. by rw Hx.
  - right. by exists (x ++ y), (x' ++ y').
Qed.

Lemma merkle_root_inj b : ∀ l l',
  length l = (2 ^ b)%nat → length l' = (2 ^ b)%nat → hashes l → hashes l' →
  merkle_root b l = merkle_root b l' → l = l' ∨ collision.
Proof.
  induction b as [|b IH]; intros l l' Hl Hl' H1 H2 E.
  { destruct l as [|x [|]], l' as [|x' [|]]; try done. left. simpl in E. by subst. }
  have Hp := Nat.pow_succ_r' 2 b. cbn [merkle_root] in E.
  apply pair_inj in E as [[E1 E2]|?]; [|by right|by apply length_merkle_root, Forall_take..].
  destruct (IH (take (2 ^ b) l) (take (2 ^ b) l')) as [T|?]; [rw length_take; lia..| | |done| |by right];
    [by apply Forall_take..|].
  destruct (IH (drop (2 ^ b) l) (drop (2 ^ b) l')) as [D|?]; [rw length_drop; lia..| | |done| |by right];
    [by apply Forall_drop..|].
  left. rw -(take_drop (2 ^ b) l) -(take_drop (2 ^ b) l') T D //.
Qed.

Lemma hashes_pairs l : hashes (pairs l).
Proof.
  have Hg : ∀ n l, (length l ≤ n)%nat → hashes (pairs l).
  { induction n as [|n IH]; intros [|x [|y k]] Hk; simpl in *; try lia; try constructor;
      [apply Keccak256Hash_length|apply IH; lia]. }
  by apply (Hg (length l)).
Qed.

Lemma verify_binding b : ∀ l c x proofs root c',
  length l = (2 ^ b)%nat → 0 ≤ c < Z.of_nat (2 ^ b) → hashes l → hashes proofs → length x = 32%nat →
  length proofs = b → foldM verify_step (x, c) proofs = Ret (root, c') → root = merkle_root b l →
  l !! Z.to_nat c = Some x ∨ collision.
Proof.
  induction b as [|b IH]; intros l c x proofs root c' Hl Hc Hh Hp Hx Hn Hf Er.
  { destruct proofs; [|done]. injection Hf as <- <-. left. have -> : c = 0 by simpl in Hc; lia.
    destruct l as [|y [|]]; try done. by simpl in *; subst. }
  destruct proofs as [|p proofs]; [done|]. apply Forall_cons in Hp as [Hlp Hp].
  rw (merkle_root_pairs b l Hl) in Er. rw (two_power_nat b) in Hc.
  have Hs := sibling_range _ _ Hc. have Hd := Z.div_mod c 2 ltac:(lia). have Hm := Z.mod_pos_bound c 2 ltac:(lia).
  have [y Hy] : is_Some (l !! Z.to_nat (sibling c)).
  { apply lookup_lt_is_Some. rw Hl Nat.pow_succ_r'. lia. }
  have [z Hz] : is_Some (l !! Z.to_nat c) by apply lookup_lt_is_Some; rw Hl Nat.pow_succ_r'; lia.
  have Hly := Forall_lookup_1 _ _ _ _ Hh Hy. have Hlz := Forall_lookup_1 _ _ _ _ Hh Hz. simpl in Hly, Hlz.
  have HL : length (pairs l) = (2 ^ b)%nat by apply length_pairs; rw Hl Nat.pow_succ_r'.
  have E1 : (2 * Z.to_nat (c / 2) = Z.to_nat (2 * (c / 2)))%nat by lia.
  have E2 : (2 * Z.to_nat (c / 2) + 1 = Z.to_nat (2 * (c / 2) + 1))%nat by lia.
  have Hn' : length proofs = b by simpl in Hn; lia.
  rw foldM_cons in Hf. cbn [verify_step mbind gores_bind mret gores_ret] in Hf.
  move: Hf. case: Z.eqb_spec => Em Hf.
  - destruct (IH (pairs l) (c / 2) _ proofs root c' HL ltac:(lia) (hashes_pairs l) Hp (Keccak256Hash_length _) Hn' Hf Er)
      as [E|?]; [|by right].
    rw (pairs_lookup _ _ z y) in E; [by rw E1 -Hz; do 2 f_equal; lia|rw E2 -Hy /sibling; do 2 f_equal; lia|].
    injection E as E. apply pair_inj in E as [[-> _]|?]; [by left|by right|done|done].
  - destruct (IH (pairs l) (c / 2) _ proofs root c' HL ltac:(lia) (hashes_pairs l) Hp (Keccak256Hash_length _) Hn' Hf Er)
      as [E|?]; [|by right].
    rw (pairs_lookup _ _ y z) in E; [rw E1 -Hy /sibling; do 2 f_equal; lia|by rw E2 -Hz; do 2 f_equal; lia|].
    injection E as E. apply pair_inj in E as [[_ ->]|?]; [by left|by right|done|done].
Qed.

Lemma hashes_leaves edge data n cs : length edge = 32%nat → hashes (leaves edge data n cs).
Proof.
  intros He. apply Forall_fmap, Forall_true. intros i. rw /= /leaf.
  destruct (_ <? _); [apply Keccak256Hash_length|]. by destruct (_ =? _).
Qed.

Lemma leaf_inside edge data cs c : c * cs < zlen data → leaf edge data cs c = Keccak256Hash (chunk_at data cs c).
Proof. intros Hc. by rw /leaf (proj2 (Z.ltb_lt _ _) Hc). Qed.

Lemma leaves_no_edge edge edge' data (n : nat) cs :
  (∀ i, 0 ≤ i < Z.of_nat n → i * cs ≠ zlen data) →
  leaves edge data (Z.of_nat n) cs = leaves edge' data (Z.of_nat n) cs.
Proof.
  intros Hne. rw /leaves. apply list_fmap_ext. intros k i Hi. apply lookup_seqZ in Hi as [-> Hk].
  rw /leaf. destruct (_ <? _); [done|]. rw (proj2 (Z.eqb_neq _ _)) //. apply Hne. lia.
Qed.

(** The proof of a chunk, and the root it leads to. *)
Lemma GetProof_root data cs (b : nat) c :
  0 < zlen data < two63 → 0 < cs → Z.of_nat (2 ^ b) * cs < two64 → 0 ≤ c < Z.of_nat (2 ^ b) →
  c * cs < zlen data →
  ∃ proofs, GetProof data (Z.of_nat b) c cs = Ret proofs ∧
    GetRootWithProof (Keccak256Hash (chunk_at data cs c)) c proofs =
      Ret (merkle_root b (leaves (Keccak256Hash []) data (Z.of_nat (2 ^ b)) cs)).
Proof.
  intros Hd Hcs Hsz Hc Hin. eexists. split; [by apply GetProof_ok|].
  apply siblings_root; [apply length_leaves|done|by apply (tree_size cs)|].
  by rw lookup_leaves // leaf_inside.
Qed.

Lemma GetProof_agrees data cs (b : nat) c :
  0 < zlen data < two63 → 0 < cs → Z.of_nat (2 ^ b) * cs < two64 → 0 ≤ c < Z.of_nat (2 ^ b) →
  c * cs < zlen data → (∀ i, 0 ≤ i < Z.of_nat (2 ^ b) → i * cs ≠ zlen data) →
  ∃ proofs, GetProof data (Z.of_nat b) c cs = Ret proofs ∧
    GetRootWithProof (Keccak256Hash (chunk_at data cs c)) c proofs = GetRoot data (Z.of_nat (2 ^ b)) cs.
Proof.
  intros Hd Hcs Hsz Hc Hin Hne. destruct (GetProof_root data cs b c) as (proofs & H1 & H2); [done..|].
  exists proofs. split; [done|]. by rw H2 GetRoot_ok // (leaves_no_edge _ zero_hash).
Qed.

(** Roots bind chunks: whatever proof is presented, if it leads from a hash
    [x] at place [c] to the root of the data, then [x] is the leaf of the data at
    that place, unless the hash function has a collision. *)
Theorem GetRootWithProof_binding data cs c x proofs :
  0 < zlen data < two63 → 0 < cs → Z.of_nat (2 ^ length proofs) * cs < two64 →
  0 ≤ c < Z.of_nat (2 ^ length proofs) → hashes proofs → length x = 32%nat →
  GetRootWithProof x c proofs = GetRoot data (Z.of_nat (2 ^ length proofs)) cs →
  x = leaf zero_hash data cs c ∨ collision.
Proof.
  intros Hd Hcs Hsz Hc Hp Hx. have Hb := tree_size cs _ Hcs Hsz.
  rw GetRootWithProof_fold // GetRoot_ok //.
  destruct (foldM _ _ _) as [[root c']| |] eqn:E; [|done..]. intros [= Er].
  destruct (verify_binding (length proofs) (leaves zero_hash data (Z.of_nat (2 ^ length proofs)) cs)
    c x proofs root c') as [Hl|?]; try done; [apply length_leaves|by apply hashes_leaves| |by right].
  left. rw lookup_leaves // in Hl. congruence.
Qed.

(** The edge case: when the data ends where a chunk of the tree starts,
    [GetProof] takes the hash of the empty string for that chunk and [GetRoot] the
    zero hash, so the proof of a chunk does not verify, unless the hash function
    has a collision or maps the empty string to zero. *)
Theorem GetProof_edge data cs (b : nat) c j :
  0 < zlen data < two63 → 0 < cs → Z.of_nat (2 ^ b) * cs < two64 → 0 ≤ c < Z.of_nat (2 ^ b) →
  c * cs < zlen data → 0 ≤ j < Z.of_nat (2 ^ b) → j * cs = zlen data →
  ∃ proofs, GetProof data (Z.of_nat b) c cs = Ret proofs ∧
    (GetRootWithProof (Keccak256Hash (chunk_at data cs c)) c proofs = GetRoot data (Z.of_nat (2 ^ b)) cs →
     Keccak256Hash [] = zero_hash ∨ collision).
Proof.
  intros Hd Hcs Hsz Hc Hin Hj Ej. destruct (GetProof_root data cs b c) as (proofs & H1 & H2); [done..|].
  exists proofs. split; [done|]. rw H2 GetRoot_ok //. intros [= E].
  apply merkle_root_inj in E as [E|?]; [|by right|apply length_leaves..|apply hashes_leaves, Keccak256Hash_length|by apply hashes_leaves].
  left. have L1 := lookup_leaves (Keccak256Hash []) data (2 ^ b) cs j Hj.
  have L2 := lookup_leaves zero_hash data (2 ^ b) cs j Hj.
  have [= L] : Some (leaf (Keccak256Hash []) data cs j) = Some (leaf zero_hash data cs j) by rw -L1 -L2 E.
  move: L. rw /leaf (proj2 (Z.ltb_ge _ _)); [lia|]. by rw (proj2 (Z.eqb_eq _ _) Ej).
Qed.

(** C17: the proofs of [MerkleProver].  [GetRoot] returns the root of the binary
    tree over the hashes of the chunks of the data, padded with zero hashes.  If no
    chunk of the tree starts exactly at the end of the data, the proof [GetProof]
    returns for a chunk of the data leads from the hash of the chunk to that root.
    If one does, which is so for data of whole chunks that leave a part of the tree
    free, [GetProof] returns a proof that does not, unless the hash function has a
    collision or maps the empty string to zero.  Chunks outside the tree are
    refused. *)
Theorem GetProof_verifies data cs (b : nat) c :
  0 < zlen data < two63 → 0 < cs → Z.of_nat (2 ^ b) * cs < two64 →
  GetRoot data (Z.of_nat (2 ^ b)) cs =
    Ret (merkle_root b (leaves zero_hash data (Z.of_nat (2 ^ b)) cs)) ∧
  (Z.of_nat (2 ^ b) ≤ c → GetProof data (Z.of_nat b) c cs = Fail (ErrMsg "index out of scope")) ∧
  (0 ≤ c < Z.of_nat (2 ^ b) → c * cs < zlen data →
   ∃ proofs, GetProof data (Z.of_nat b) c cs = Ret proofs ∧ length proofs = b ∧
     ((∀ i, 0 ≤ i < Z.of_nat (2 ^ b) → i * cs ≠ zlen data) →
        GetRootWithProof (Keccak256Hash (chunk_at data cs c)) c proofs = GetRoot data (Z.of_nat (2 ^ b)) cs) ∧
     (∀ i, 0 ≤ i < Z.of_nat (2 ^ b) → i * cs = zlen data →
        GetRootWithProof (Keccak256Hash (chunk_at data cs c)) c proofs = GetRoot data (Z.of_nat (2 ^ b)) cs →
        Keccak256Hash [] = zero_hash ∨ collision)).
Proof.
  intros Hd Hcs Hsz. have Hb := tree_size cs b Hcs Hsz. split_and!.
  - by apply GetRoot_ok.
  - intros Hc. rw /GetProof (proj2 (Z.eqb_neq _ _)); [lia|]. by rw shl64_pow // (proj2 (Z.leb_le _ _) Hc).
  - intros Hc Hin. destruct (GetProof_root data cs b c) as (proofs & H1 & _); [done..|].
    exists proofs. split_and!; [done| | |].
    + rw GetProof_ok // in H1. injection H1 as <-. apply length_siblings.
    + intros Hne. destruct (GetProof_agrees data cs b c) as (proofs' & H2 & H3); [done..|].
      by have -> : proofs = proofs' by congruence.
    + intros i Hi Ei. destruct (GetProof_edge data cs b c i) as (proofs' & H2 & H3); [done..|].
      by have -> : proofs = proofs' by congruence.
Qed.

(** *** The smallest tree *)

Lemma count_bits_ok fuel : ∀ n k,
  0 ≤ n < 2 ^ Z.of_nat fuel → 0 ≤ k → k + Z.of_nat fuel < two64 →
  ∃ b : nat, count_bits fuel n k = Ret (k + Z.of_nat b) ∧ n < 2 ^ Z.of_nat b ∧ (b ≤ fuel)%nat ∧
    (b = 0%nat ∨ 2 ^ (Z.of_nat b - 1) ≤ n).
Proof.
  induction fuel as [|fuel IH]; intros n k Hn Hk Hf.
  { exists 0%nat. have -> : n = 0 by simpl in Hn; lia. cbn [count_bits]. rw Z.add_0_r.
    split_and!; [done..|by left]. }
  cbn [count_bits]. case: Z.eqb_spec => E.
  { subst n. exists 0%nat. rw Z.add_0_r. split_and!; [done..|lia|by left]. }
  rw Z.shiftr_div_pow2 //. change (2 ^ 1) with 2.
  have HP : 2 ^ Z.of_nat (S fuel) = 2 * 2 ^ Z.of_nat fuel by rw Nat2Z.inj_succ Z.pow_succ_r; lia.
  have Hd := Z.div_mod n 2 ltac:(lia). have Hm := Z.mod_pos_bound n 2 ltac:(lia).
  have -> : add64 k 1 = k + 1 by rw /add64 wrap64_small; lia.
  destruct (IH (n / 2) (k + 1)) as (b & Hb & H1 & H2 & H3); [lia..|].
  exists (S b). have HS : 2 ^ Z.of_nat (S b) = 2 * 2 ^ Z.of_nat b by rw Nat2Z.inj_succ Z.pow_succ_r; lia.
  rw Hb HS. split_and!; [f_equal; lia|lia|lia|]. right.
  have -> : Z.of_nat (S b) - 1 = Z.of_nat b by lia. destruct H3 as [-> |H3]; [simpl; lia|].
  destruct b as [|b]; [simpl; lia|]. have E2 : Z.of_nat (S b) - 1 = Z.of_nat b by lia. rw E2 in H3.
  rw Nat2Z.inj_succ Z.pow_succ_r; lia.
Qed.

Lemma findNChunk_ok len cs :
  0 < len < two63 → 0 < cs < two63 →
  ∃ b : nat, findNChunk len cs = Ret (Z.of_nat (2 ^ b), Z.of_nat b) ∧ len ≤ Z.of_nat (2 ^ b) * cs ∧
    Z.of_nat (2 ^ b) < two64 ∧ (b = 0%nat ∨ Z.of_nat (2 ^ (b - 1)) * cs < len).
Proof.
  intros Hl Hc. rw /findNChunk (proj2 (Z.eqb_neq _ _)); [lia|].
  have -> : sub64 (add64 len cs) 1 = len + cs - 1.
  { rw /sub64 /add64 (wrap64_small (len + cs)) ?wrap64_small //; rw /two63 /two64 in Hl Hc *; lia. }
  rw udiv_nz; [lia|]. cbn [mbind gores_bind]. set q := (len + cs - 1) / cs.
  have Hd := Z.div_mod (len + cs - 1) cs ltac:(lia). have Hm := Z.mod_pos_bound (len + cs - 1) cs ltac:(lia).
  rw -/q in Hd. have Hq : 1 ≤ q by nia. have Hq2 : q ≤ len by nia.
  have -> : sub64 q 1 = q - 1 by rw /sub64 wrap64_small //; rw /two63 /two64 in Hl *; lia.
  destruct (count_bits_ok 64 (q - 1) 0) as (b & -> & H1 & H2 & H3).
  { rw /two63 in Hl. change (2 ^ Z.of_nat 64) with two64. rw /two64. lia. }
  { lia. }
  { by rw /two64. }
  have HB : Z.of_nat (2 ^ b) = 2 ^ Z.of_nat b by rw (Nat2Z.inj_pow 2).
  have HB1 : b ≠ 0%nat → Z.of_nat (2 ^ (b - 1)) = 2 ^ (Z.of_nat b - 1).
  { intros Hb. rw (Nat2Z.inj_pow 2). f_equal. lia. }
  have Hlt : Z.of_nat (2 ^ b) < two64.
  { destruct (decide (b = 0%nat)) as [-> |Hb0]; [by rw /two64|]. destruct H3 as [?|H3]; [done|].
    have HS : 2 ^ Z.of_nat b = 2 * 2 ^ (Z.of_nat b - 1) by rw -Z.pow_succ_r; [lia|]; f_equal; lia.
    rw /two63 /two64 in Hl *. lia. }
  exists b. cbn [mbind gores_bind]. rw Z.add_0_l shl64_pow //. split_and!; [done|rw HB; nia|done|].
  destruct (decide (b = 0%nat)) as [?|Hb0]; [by left|]. right. rw HB1 //. destruct H3 as [?|H3]; [done|]. nia.
Qed.

(** [MinMerkleTreeProver] works on the smallest tree that holds the data: it
    has [2 ^ b] leaves for the least [b] that is enough, and the proof of every
    chunk leads from the hash of the chunk to the root, unless the data ends at
    a chunk boundary inside the tree. *)
Theorem Min_GetProof_verifies data cs nChunkBits n c :
  0 < zlen data < two63 → 0 < cs → zlen data * 2 + cs * 2 < two63 → 0 ≤ c → c * cs < zlen data →
  c < shl64 1 nChunkBits →
  ∃ b : nat, findNChunk (zlen data) cs = Ret (Z.of_nat (2 ^ b), Z.of_nat b) ∧
    zlen data ≤ Z.of_nat (2 ^ b) * cs ∧ (b = 0%nat ∨ Z.of_nat (2 ^ (b - 1)) * cs < zlen data) ∧
    ((∀ i, 0 ≤ i < Z.of_nat (2 ^ b) → i * cs ≠ zlen data) →
     ∃ proofs, Min_GetProof data nChunkBits c cs = Ret proofs ∧
       GetRootWithProof (Keccak256Hash (chunk_at data cs c)) c proofs = Min_GetRoot data n cs).
Proof.
  intros Hd Hcs Hsz Hc Hin Hbits.
  destruct (findNChunk_ok (zlen data) cs Hd) as (b & Hf & H1 & H2 & H3); [lia|].
  exists b. split_and!; [done..|]. intros Hne.
  have Hcb : 0 ≤ c < Z.of_nat (2 ^ b) by nia.
  have Hsize : Z.of_nat (2 ^ b) * cs < two64.
  { destruct H3 as [-> |H3]; [rw /two63 /two64 in Hsz *; simpl; lia|].
    destruct b as [|b]; [rw /two63 /two64 in Hsz *; simpl; lia|].
    have E := two_power_nat b. rw Nat.sub_succ Nat.sub_0_r in H3. rw /two63 /two64 in Hsz *. nia. }
  destruct (GetProof_agrees data cs b c) as (proofs & HP & HR); [done..|].
  exists proofs. rw /Min_GetProof /Min_GetRoot !(proj2 (Z.eqb_neq (zlen data) 0)); [lia..|].
  rw (proj2 (Z.leb_gt _ _) Hbits) Hf. cbn [mbind gores_bind]. rw (proj2 (Z.leb_gt _ _)); [lia|]. by split.
Qed.

End merkle.

(** ** Examples *)

(** Three chunks of four bytes and a half one. *)
Definition ex_kv : bytes := seqZ 1 14.

Lemma GetProof_verifies_witness :
  ∃ proofs, GetProof ex_kv 2 1 4 = Ret proofs ∧
    GetRootWithProof (Keccak256Hash [5; 6; 7; 8]) 1 proofs = GetRoot ex_kv 4 4.
Proof.
  destruct (GetProof_verifies ex_kv 4 2 1) as (_ & _ & H); [by vm_compute..|].
  destruct H as (proofs & H1 & _ & H2 & _); [by vm_compute..|].
  exists proofs. split; [exact H1|]. apply H2.
  intros i Hi E. change (zlen ex_kv) with 14 in E. lia.
Defined.

Lemma GetRootWithProof_binding_witness :
  ∃ proofs, GetProof ex_kv 2 1 4 = Ret proofs ∧
    (Keccak256Hash [5; 6; 7; 8] = leaf zero_hash ex_kv 4 1 ∨ collision).
Proof.
  exists (from_ret [] (GetProof ex_kv 2 1 4)). split; [by vm_compute|].
  apply (GetRootWithProof_binding ex_kv 4 1 (Keccak256Hash [5; 6; 7; 8]) (from_ret [] (GetProof ex_kv 2 1 4))).
  - by vm_compute.
  - done.
  - by vm_compute.
  - by vm_compute.
  - apply (bool_decide_unpack _). by vm_compute.
  - apply Keccak256Hash_length.
  - by vm_compute.
Defined.

Lemma GetProof_edge_witness :
  ∃ proofs, GetProof (seqZ 1 12) 2 1 4 = Ret proofs ∧
    GetRootWithProof (Keccak256Hash [5; 6; 7; 8]) 1 proofs ≠ GetRoot (seqZ 1 12) 4 4 ∧
    (GetRootWithProof (Keccak256Hash [5; 6; 7; 8]) 1 proofs = GetRoot (seqZ 1 12) 4 4 →
     Keccak256Hash [] = zero_hash ∨ collision).
Proof.
  destruct (GetProof_edge (seqZ 1 12) 4 2 1 3) as (proofs & H1 & H2); [by vm_compute..|].
  exists proofs. split; [exact H1|]. split; [|exact H2]. vm_compute in H1. injection H1 as <-. by vm_compute.
Defined.

Lemma Min_GetProof_verifies_witness :
  ∃ proofs, Min_GetProof ex_kv 5 1 4 = Ret proofs ∧
    GetRootWithProof (Keccak256Hash [5; 6; 7; 8]) 1 proofs = Min_GetRoot ex_kv 32 4.
Proof.
  destruct (Min_GetProof_verifies ex_kv 4 5 32 1) as (b & _ & _ & _ & H); [by vm_compute..|].
  apply H. intros i Hi E. change (zlen ex_kv) with 14 in E. lia.
Defined.
