(* ===== verification/Miner.v ===== *)
(** * Mining (ethstorage/miner/algorithm.go, worker.go and miner.go)

    A worker searches, for every synced shard and every new L1 block, a nonce
    whose hash over random samples of the shard is small enough, and hands the
    proof to the result loop, which submits it.  The data reader, the contract and
    the prover are oracles; requests to them, and the looks at the clock and at the
    running flag inside a task, are numbered. *)

From S2P Require Import Prelude Extern DataFile ChunkCodec.

(** ** Big integers *)

(** [big.Int.Div] and [big.Int.Mod], which are Euclidean. *)
Definition bigDiv (a b : Z) : gores Z :=
  if b =? 0 then Panic DivideByZero else Ret (Z.sgn b * (a / Z.abs b)).
Definition bigMod (a b : Z) : gores Z :=
  if b =? 0 then Panic DivideByZero else Ret (a mod Z.abs b).

Lemma bigDiv_pos a b : 0 < b → bigDiv a b = Ret (a / b).
Proof.
  intros Hb. rw /bigDiv (proj2 (Z.eqb_neq _ _)); [lia|]. rw Z.sgn_pos // Z.abs_eq; [lia|]. by rw Z.mul_1_l.
Qed.

Definition maxUint256 : Z := 2 ^ 256 - 1.

(** ** The algorithm *)

Section algorithm.
Context `{GE : Geth}.

Definition row_bits (kvEntriesBits kvSizeBits sampleSizeBits : Z) : Z :=
  sub64 (add64 kvEntriesBits kvSizeBits) sampleSizeBits.

(** The sample a hash points at. *)
Definition sample_index (rowBits shardIdx : Z) (hash : bytes) : gores Z :=
  parent ← bigMod (be_decode hash) (int64 (Z.shiftl 1 rowBits));
  mret (add64 (wrap64 parent) (shl64 shardIdx rowBits)).

Definition initHash (miner mixedHash : bytes) (nonce : Z) : bytes :=
  Keccak256Hash (BytesToHash miner ++ mixedHash ++ BigToHash nonce).

Definition expectedDiff (interval difficulty cutoff diffAdjDivisor minDiff : Z) : gores Z :=
  x ← udiv interval (wrap64 cutoff);
  if x =? 0 then
    adjust ← bigDiv difficulty diffAdjDivisor;
    let diff := difficulty + adjust in
    mret (if diff <? minDiff then minDiff else diff)
  else
    adjust ← bigDiv (sub64 x 1 * difficulty) diffAdjDivisor;
    mret (if difficulty <? adjust + minDiff then minDiff else difficulty - adjust).

End algorithm.

(** ** The worker *)

Record Config := mkConfig {
  c_Slot : Z; c_RandomChecks : Z; c_NonceLimit : Z; c_MinimumDiff : Z; c_Cutoff : Z;
  c_DiffAdjDivisor : Z; c_ThreadsPerShard : Z
}.

Record MiningState := mkMiningState { MiningPower : Z; SamplingTime : Z }.

Record SubmissionState := mkSubmissionState {
  Submitted : Z; Failed : Z; Dropped : Z; LastSubmittedTime : Z
}.

(** [taskChs] are the numbers of the channels. *)
Record task := mkTask { tk_miner : bytes; tk_shardIdx : Z; taskChs : list nat }.

Record taskItem := mkTaskItem {
  ti_task : task; requiredDiff : Z; blockNumber : Z; mixHash : bytes;
  nonceStart : Z; nonceEnd : Z; mineTime : Z; thread : Z
}.

Record result := mkResult {
  rs_blockNumber : Z; startShardId : Z; rs_miner : bytes; rs_nonce : Z; encodedData : list bytes;
  masks : list Z; inclusiveProofs : list bytes; decodeProof : list bytes; rs_timestamp : Z
}.

Record miningInfo := mkMiningInfo { LastMineTime : Z; Difficulty : Z; BlockMined : Z }.

Record L1BlockRef := mkBlockRef { br_Number : Z; br_Time : Z; br_MixDigest : bytes }.

Class MinerWorld := {
  ReadSample : nat → Z → Z → gores bytes;
  GetBlob : nat → Z → bytes → gores bytes;
  GetDataHashes : nat → list Z → gores (list bytes);
  GetMiningInfo : nat → Z → gores miningInfo;
  GetStorageProof : nat → list bytes → list bytes → list Z → gores (list Z * list bytes * list bytes);
  SubmitMinedResult : nat → result → gores bytes;
  isRunning_at : nat → bool;
  timed_out : nat → bool;
  now : nat → Z }.

(** [w_startCh] holds the shards that became ready, [w_channels] are the task
    channels, each with room for one item; [errCh] holds the shard and the block of
    the errors that wait to be counted. *)
Record worker := mkWorker {
  w_config : Config;
  w_kvEntriesBits : Z;
  w_kvSizeBits : Z;
  w_miners : gmap Z bytes;
  w_startCh : list Z;
  w_channels : list (option taskItem);
  shardTaskMap : gmap Z task;
  resultCh : bool;
  resultMap : gmap Z (option result);
  miningStates : gmap Z MiningState;
  submissionStates : gmap Z SubmissionState;
  w_running : bool;
  errCh : list (Z * Z);
  w_requests : nat
}.

Section worker.
Context `{GE : Geth} `{MW : MinerWorld}.
Implicit Types w : worker.

Definition set_starts w (starts : list Z) : worker :=
  mkWorker (w_config w) (w_kvEntriesBits w) (w_kvSizeBits w) (w_miners w) starts (w_channels w)
    (shardTaskMap w) (resultCh w) (resultMap w) (miningStates w) (submissionStates w) (w_running w) (errCh w)
    (w_requests w).
Definition set_channels w (chs : list (option taskItem)) (tasks : gmap Z task) : worker :=
  mkWorker (w_config w) (w_kvEntriesBits w) (w_kvSizeBits w) (w_miners w) (w_startCh w) chs tasks (resultCh w)
    (resultMap w) (miningStates w) (submissionStates w) (w_running w) (errCh w) (w_requests w).
Definition set_results w (token : bool) (results : gmap Z (option result)) : worker :=
  mkWorker (w_config w) (w_kvEntriesBits w) (w_kvSizeBits w) (w_miners w) (w_startCh w) (w_channels w)
    (shardTaskMap w)
    token results (miningStates w) (submissionStates w) (w_running w) (errCh w) (w_requests w).
Definition set_mining w (states : gmap Z MiningState) : worker :=
  mkWorker (w_config w) (w_kvEntriesBits w) (w_kvSizeBits w) (w_miners w) (w_startCh w) (w_channels w)
    (shardTaskMap w)
    (resultCh w) (resultMap w) states (submissionStates w) (w_running w) (errCh w) (w_requests w).
Definition set_submissions w (states : gmap Z SubmissionState) : worker :=
  mkWorker (w_config w) (w_kvEntriesBits w) (w_kvSizeBits w) (w_miners w) (w_startCh w) (w_channels w)
    (shardTaskMap w)
    (resultCh w) (resultMap w) (miningStates w) states (w_running w) (errCh w) (w_requests w).
Definition set_running w (running : bool) : worker :=
  mkWorker (w_config w) (w_kvEntriesBits w) (w_kvSizeBits w) (w_miners w) (w_startCh w) (w_channels w)
    (shardTaskMap w)
    (resultCh w) (resultMap w) (miningStates w) (submissionStates w) running (errCh w) (w_requests w).
Definition set_errors w (errs : list (Z * Z)) : worker :=
  mkWorker (w_config w) (w_kvEntriesBits w) (w_kvSizeBits w) (w_miners w) (w_startCh w) (w_channels w)
    (shardTaskMap w)
    (resultCh w) (resultMap w) (miningStates w) (submissionStates w) (w_running w) errs (w_requests w).
Definition tick w : worker :=
  mkWorker (w_config w) (w_kvEntriesBits w) (w_kvSizeBits w) (w_miners w) (w_startCh w) (w_channels w)
    (shardTaskMap w)
    (resultCh w) (resultMap w) (miningStates w) (submissionStates w) (w_running w) (errCh w)
    (Datatypes.S (w_requests w)).

Definition ask {A} (f : nat → gores A) : ST worker A := λ w, (f (w_requests w), tick w).
Definition look {A} (f : nat → A) : ST worker A := λ w, (Ret (f (w_requests w)), tick w).

(** [newWorker]: the saved submission states of the managed shards are taken over. *)
Definition newWorker (config : Config) (kvEntriesBits kvSizeBits : Z) (miners : gmap Z bytes)
    (shards : list Z) (saved : gmap Z SubmissionState) : worker :=
  mkWorker config kvEntriesBits kvSizeBits miners [] [] ∅ false ∅
    (list_to_map ((λ i, (i, mkMiningState 0 0)) <$> shards))
    (list_to_map ((λ i, (i, default (mkSubmissionState 0 0 0 0) (saved !! i))) <$> shards))
    false [] 0.

Definition start w : worker := set_running w true.
Definition stop w : worker := set_running w false.
Definition isRunning w : bool := w_running w.

(** *** New blocks *)

(** A turn of [newWorkLoop] on [startCh]: new channels with a task loop each. *)
Definition start_shard w : worker :=
  match w_startCh w with
  | [] => w
  | shardIdx :: starts =>
      let n := length (w_channels w) in
      let threads := Z.to_nat (c_ThreadsPerShard (w_config w)) in
      let t := mkTask (default (zeros 20) (w_miners w !! shardIdx)) shardIdx (seq n threads) in
      set_channels (set_starts w starts) (w_channels w ++ replicate threads None)
        (<[shardIdx := t]> (shardTaskMap w))
  end.

(** The item of thread [i]. *)
Definition thread_item (cfg : Config) (t : task) (block : L1BlockRef) (reqDiff seg i : Z) : taskItem :=
  let ne := if i =? sub64 (c_ThreadsPerShard cfg) 1 then c_NonceLimit cfg else mul64 seg (add64 i 1) in
  mkTaskItem t reqDiff (br_Number block) (br_MixDigest block) (mul64 seg i) ne (br_Time block) i.

(** An item that waits in the channel is replaced. *)
Definition send_item (ch : nat) (ti : taskItem) : ST worker unit := λ w,
  (Ret tt, set_channels w (<[ch := Some ti]> (w_channels w)) (shardTaskMap w)).

Definition assignTasks (t : task) (block : L1BlockRef) (reqDiff : Z) : ST worker unit :=
  w ← st_get;
  let cfg := w_config w in
  seg ← st_lift (udiv (c_NonceLimit cfg) (c_ThreadsPerShard cfg));
  st_foldM (λ _ i,
      ch ← st_lift (index (taskChs t) i);
      send_item ch (thread_item cfg t block reqDiff seg i)) tt (seqZ 0 (c_ThreadsPerShard cfg)).

Definition updateDifficulty (shardIdx : Z) (block : L1BlockRef) : ST worker Z :=
  w ← st_get;
  let cfg := w_config w in
  info ← ask (λ req, GetMiningInfo req shardIdx);
  if br_Time block <=? LastMineTime info then st_lift (Fail (ErrMsg "minedTs too small"))
  else
    diff ← st_lift (expectedDiff (sub64 (br_Time block) (LastMineTime info)) (Difficulty info)
                      (c_Cutoff cfg) (c_DiffAdjDivisor cfg) (c_MinimumDiff cfg));
    st_lift (bigDiv maxUint256 diff).

(** A new head: [order] is the order in which the shards are visited. *)
Definition new_head (order : list Z) (block : L1BlockRef) : ST worker unit := λ w,
  if negb (isRunning w) then (Ret tt, w)
  else
    st_foldM (λ _ shardIdx,
        w ← st_get;
        match shardTaskMap w !! shardIdx with
        | None => mret tt
        | Some t =>
            r ← st_catch (updateDifficulty shardIdx block);
            match r with
            | inl _ => mret tt
            | inr reqDiff => assignTasks t block reqDiff
            end
        end) tt order w.

(** *** Tasks *)

Definition SampleSizeBits : Z := 5.

Definition hashimoto (kvEntriesBits kvSizeBits sampleSizeBits shardIdx randomChecks : Z) (hash0 : bytes)
    : ST worker (bytes * list Z) :=
  let rowBits := row_bits kvEntriesBits kvSizeBits sampleSizeBits in
  st_foldM (λ '(hash0, sampleIdxs) _,
      sampleIdx ← st_lift (sample_index rowBits shardIdx hash0);
      encodedSample ← ask (λ req, ReadSample req shardIdx sampleIdx);
      mret (Keccak256Hash (hash0 ++ encodedSample), sampleIdxs ++ [sampleIdx]))
    (hash0, []) (seqZ 0 randomChecks).

Definition computeHash (shardIdx : Z) (hash0 : bytes) : ST worker (bytes * list Z) :=
  w ← st_get;
  hashimoto (w_kvEntriesBits w) (w_kvSizeBits w) SampleSizeBits shardIdx (c_RandomChecks (w_config w)) hash0.

(** The data of one sample: the blob, the place in it, the key and the sample. *)
Definition sample_data (t : task) (sampleLenBits sampleIdx kvIdx : Z) (kvHash : bytes)
    : ST worker (bytes * Z * bytes * bytes) :=
  kvData ← ask (λ req, GetBlob req kvIdx kvHash);
  inKv ← st_lift (umod sampleIdx (shl64 1 sampleLenBits));
  let key := CalcEncodeKey kvHash kvIdx (tk_miner t) in
  encodedSample ← ask (λ req, ReadSample req (tk_shardIdx t) sampleIdx);
  mret (kvData, inKv, key, encodedSample).

Definition getMiningData (t : task) (sampleIdx : list Z) : ST worker (list (bytes * Z * bytes * bytes)) :=
  w ← st_get;
  let sampleLenBits := sub64 (w_kvSizeBits w) SampleSizeBits in
  let checks := seqZ 0 (c_RandomChecks (w_config w)) in
  kvIdxs ← st_foldM (λ acc i, s ← st_lift (index sampleIdx i);
                              mret (acc ++ [Z.shiftr s sampleLenBits])) [] checks;
  kvHashes ← ask (λ req, GetDataHashes req kvIdxs);
  st_foldM (λ acc i,
      s ← st_lift (index sampleIdx i);
      k ← st_lift (index kvIdxs i);
      h ← st_lift (index kvHashes i);
      x ← sample_data t sampleLenBits s k h;
      mret (acc ++ [x])) [] checks.

Definition notifyResultLoop w : worker := set_results w true (resultMap w).

(** The statistics of thread 0: [None] is a nil dereference. *)
Definition set_power (shardIdx power : Z) : ST worker unit :=
  time ← look now;
  w ← st_get;
  match miningStates w !! shardIdx with
  | Some _ => st_put (set_mining w (<[shardIdx := mkMiningState power time]> (miningStates w)))
  | None => st_lift (Panic NilPointer)
  end.

(** [w.resultMap[t.shardIdx] = newResult], which replaces a result that waits. *)
Definition put_result (r : result) w : worker :=
  set_results w (resultCh w) (<[startShardId r := Some r]> (resultMap w)).

(** A nonce that is small enough. *)
Definition found (t : taskItem) (nonce : Z) (sampleIdxs : list Z) : ST worker bool :=
  data ← getMiningData (ti_task t) sampleIdxs;
  '(ms, decode, inclusive) ← ask (λ req, GetStorageProof req (map (λ x, x.1.1.1) data) (map (λ x, x.1.2) data)
                                       (map (λ x, x.1.1.2) data));
  let newResult := mkResult (blockNumber t) (tk_shardIdx (ti_task t)) (tk_miner (ti_task t)) nonce
                     (map snd data) ms inclusive decode (mineTime t) in
  w ← st_get;
  _ ← st_put (notifyResultLoop (put_result newResult w));
  mret true.

Fixpoint mine_loop (fuel : nat) (t : taskItem) (nonce : Z) : ST worker bool := λ w,
  match fuel with
  | O => (Panic OutOfFuel, w)
  | Datatypes.S fuel =>
      (running ← look isRunning_at;
       if negb running then mret false
       else
         timeout ← look timed_out;
         if (timeout : bool) then
           w ← st_get;
           let cfg := w_config w in
           let tried := mul64 (sub64 nonce (nonceStart t)) (c_ThreadsPerShard cfg) in
           _ ← (if thread t =? 0 then
                  p ← st_lift (udiv (mul64 tried 10000) (c_NonceLimit cfg));
                  set_power (tk_shardIdx (ti_task t)) p
                else mret tt);
           mret false
         else if nonceEnd t <=? nonce then
           _ ← (if thread t =? 0 then set_power (tk_shardIdx (ti_task t)) 10000 else mret tt);
           mret false
         else
           let hash0 := initHash (tk_miner (ti_task t)) (mixHash t) nonce in
           '(hash1, sampleIdxs) ← computeHash (tk_shardIdx (ti_task t)) hash0;
           if be_decode hash1 <=? requiredDiff t then found t nonce sampleIdxs
           else mine_loop fuel t (add64 nonce 1)) w
  end.

Definition mineTask (fuel : nat) (t : taskItem) : ST worker bool := mine_loop fuel t (nonceStart t).

(** A turn of [taskLoop] on channel [ch]: an error goes to [errCh] when there is
    room. *)
Definition task_turn (fuel : nat) (ch : nat) : ST worker unit := λ w,
  match w_channels w !! ch with
  | Some (Some ti) =>
      match mineTask fuel ti (set_channels w (<[ch := None]> (w_channels w)) (shardTaskMap w)) with
      | (Ret _, w) => (Ret tt, w)
      | (Fail _, w) =>
          (Ret tt, if (length (errCh w) <? 10)%nat
                   then set_errors w (errCh w ++ [(tk_shardIdx (ti_task ti), blockNumber ti)]) else w)
      | (Panic p, w) => (Panic p, w)
      end
  | _ => (Ret tt, w)
  end.

(** *** Results *)

(** [order] is the order in which the map is visited. *)
Definition getResult (order : list Z) : ST worker (option result) := λ w,
  match list_find (λ k, is_Some (mjoin (resultMap w !! k))) order with
  | Some (_, k) => (Ret (mjoin (resultMap w !! k)), set_results w (resultCh w) (<[k := None]> (resultMap w)))
  | None => (Ret None, w)
  end.

(** A submission that was dropped is not counted as a failure. *)
Definition count_submission (x : error + bytes) (time : Z) (s : SubmissionState) : SubmissionState :=
  match x with
  | inr _ => mkSubmissionState (Submitted s + 1) (Failed s) (Dropped s) time
  | inl e => if as_dropped e then mkSubmissionState (Submitted s) (Failed s) (Dropped s + 1) (LastSubmittedTime s)
             else mkSubmissionState (Submitted s) (Failed s + 1) (Dropped s) (LastSubmittedTime s)
  end.

(** [case <-w.resultCh]: the token is taken. *)
Definition take_token w : worker := set_results w false (resultMap w).

(** The result is submitted and counted, and the loop notifies itself. *)
Definition submit_result (r : result) : ST worker unit :=
  x ← st_catch (ask (λ req, SubmitMinedResult req r));
  time ← look now;
  w ← st_get;
  _ ← st_put (match submissionStates w !! startShardId r with
              | Some s => set_submissions w (<[startShardId r := count_submission x time s]> (submissionStates w))
              | None => w
              end);
  w ← st_get;
  st_put (notifyResultLoop w).

(** A turn of [resultLoop] on [resultCh]. *)
Definition result_turn (order : list Z) : ST worker unit :=
  w ← st_get;
  _ ← st_put (take_token w);
  r ← getResult order;
  match r with
  | None => mret tt
  | Some r => submit_result r
  end.

(** A turn of [resultLoop] on [errCh]. *)
Definition error_turn w : worker :=
  match errCh w with
  | [] => w
  | (shardIdx, _) :: errs =>
      let w := set_errors w errs in
      match submissionStates w !! shardIdx with
      | Some s => set_submissions w (<[shardIdx :=
                    mkSubmissionState (Submitted s) (Failed s + 1) (Dropped s) (LastSubmittedTime s)]> (submissionStates w))
      | None => w
      end
  end.

End worker.

(** ** The miner (miner.go)

    A turn of the loop of [update]: [SyncDone] of one shard is passed to the worker
    and lets mining start, once it was asked for; the event for all shards ends the
    subscription. *)

Record Miner := mkMiner { m_worker : worker; m_subscribed : bool; shouldStart : bool; canStart : bool }.

Inductive miner_event := EvShardDone (shardId : Z) | EvAllDone | EvStart | EvStop.

Definition miner_new (w : worker) : Miner := mkMiner w true false false.

Definition update (ev : miner_event) (m : Miner) : Miner :=
  match ev with
  | EvShardDone shardId =>
      if m_subscribed m then
        let w := set_starts (m_worker m) (w_startCh (m_worker m) ++ [shardId]) in
        let w := if shouldStart m && negb (isRunning w) then start w else w in
        mkMiner w true (shouldStart m) true
      else m
  | EvAllDone => mkMiner (m_worker m) false (shouldStart m) (canStart m)
  | EvStart => mkMiner (if canStart m then start (m_worker m) else m_worker m) (m_subscribed m) true (canStart m)
  | EvStop => mkMiner (stop (m_worker m)) (m_subscribed m) false (canStart m)
  end.

Definition Mining (m : Miner) : bool := isRunning (m_worker m).
