(* ===== verification/MinerFacts.v ===== *)
(** * What the miner achieves

    The difficulty follows the formula of the contract, the threads of a shard
    divide the nonces, a task finds the first nonce that is good enough and its
    result passes the check of the contract, no result is left without a wake-up
    of the result loop, and the miner mines exactly when it was started and a
    shard is ready. *)

From S2P Require Import Prelude Extern DataFile ChunkCodec Miner.

(** ** Difficulty *)

(** The expected difficulty: one step up when the interval is below the
    cutoff, otherwise down by one step for every further cutoff, and never below
    the minimum; the division of [updateDifficulty] is then defined. *)
Theorem expectedDiff_spec interval difficulty cutoff divisor minDiff :
  0 ≤ interval < two64 → 0 < cutoff < two64 → 0 < divisor → 0 ≤ difficulty → 0 < minDiff →
  ∃ d, expectedDiff interval difficulty cutoff divisor minDiff = Ret d ∧ minDiff ≤ d ∧
    d = Z.max minDiff (if interval <? cutoff then difficulty + difficulty / divisor
                       else difficulty - (interval / cutoff - 1) * difficulty / divisor) ∧
    bigDiv maxUint256 d = Ret (maxUint256 / d).
Proof.
  intros Hi Hc Hd Hdf Hm. rw /expectedDiff (wrap64_small cutoff); [lia|]. rw udiv_nz; [lia|]. cbn [mbind gores_bind].
  have Hq : interval / cutoff = 0 ↔ interval < cutoff.
  { rw Z.div_small_iff; [lia|]. lia. }
  have Hx : 0 ≤ interval / cutoff ≤ interval by split; [apply Z.div_pos; lia|apply Z.div_le_upper_bound; nia].
  case: Z.eqb_spec => E.
  - rw bigDiv_pos //. cbn [mbind gores_bind]. rw (proj2 (Z.ltb_lt interval cutoff)); [by apply Hq|].
    eexists. split; [done|].
    have -> : (if difficulty + difficulty / divisor <? minDiff then minDiff else difficulty + difficulty / divisor)
      = Z.max minDiff (difficulty + difficulty / divisor) by case: Z.ltb_spec; lia.
    split_and!; [lia|done|]. apply bigDiv_pos. lia.
  - rw (proj2 (Z.ltb_ge interval cutoff)).
    { destruct (Z.lt_ge_cases interval cutoff) as [Hlt|]; [|done]. by apply Hq in Hlt. }
    have -> : sub64 (interval / cutoff) 1 = interval / cutoff - 1 by rw /sub64 wrap64_small; lia.
    rw bigDiv_pos //. cbn [mbind gores_bind]. eexists. split; [done|].
    set a := (interval / cutoff - 1) * difficulty / divisor.
    have -> : (if difficulty <? a + minDiff then minDiff else difficulty - a) = Z.max minDiff (difficulty - a)
      by case: Z.ltb_spec; lia.
    split_and!; [lia|done|]. apply bigDiv_pos. lia.
Qed.

Lemma expectedDiff_spec_witness :
  expectedDiff 180 5000000 60 1024 1000000 = Ret (5000000 - 2 * 5000000 / 1024).
Proof.
  destruct (expectedDiff_spec 180 5000000 60 1024 1000000) as (d & H & _ & Hd & _); [by vm_compute..|].
  rw H Hd. by vm_compute.
Defined.

(** ** Threads *)

Section facts.
Context `{GE : Geth} `{MW : MinerWorld}.
Implicit Types w : worker.

(** Channels of a task: one for each thread, all different. *)
Definition channels_ok w (t : task) : Prop :=
  zlen (taskChs t) = c_ThreadsPerShard (w_config w) ∧ NoDup (taskChs t) ∧
  Forall (λ ch, (ch < length (w_channels w))%nat) (taskChs t).

Lemma thread_ranges cfg t block diff seg i :
  0 ≤ i < c_ThreadsPerShard cfg → c_ThreadsPerShard cfg < two64 → 0 ≤ c_NonceLimit cfg < two64 →
  seg = c_NonceLimit cfg / c_ThreadsPerShard cfg →
  nonceStart (thread_item cfg t block diff seg i) = seg * i ∧
  nonceEnd (thread_item cfg t block diff seg i) =
    if i =? c_ThreadsPerShard cfg - 1 then c_NonceLimit cfg else seg * (i + 1).
Proof.
  intros Hi HT HL Hs. have Hseg : 0 ≤ seg by subst; apply Z.div_pos; lia.
  have Hle : seg * c_ThreadsPerShard cfg ≤ c_NonceLimit cfg.
  { subst. rw Z.mul_comm. apply Z.mul_div_le. lia. }
  rw /thread_item /=. have -> : sub64 (c_ThreadsPerShard cfg) 1 = c_ThreadsPerShard cfg - 1
    by rw /sub64 wrap64_small; lia.
  have -> : add64 i 1 = i + 1 by rw /add64 wrap64_small; lia.
  split; [rw /mul64 wrap64_small //; nia|]. case: Z.eqb_spec => E; [done|]. rw /mul64 wrap64_small //. nia.
Qed.

(** [assignTasks] divides the work: afterwards the channel of every thread
    holds the new item, whatever waited there before, other channels are as they
    were, and every nonce below the limit is in the range of exactly one thread. *)
Theorem assignTasks_spec t block diff w :
  channels_ok w t → 0 < c_ThreadsPerShard (w_config w) < two64 → 0 ≤ c_NonceLimit (w_config w) < two64 →
  ∃ w', assignTasks t block diff w = (Ret tt, w') ∧ resultMap w' = resultMap w ∧
    let item i := thread_item (w_config w) t block diff
                    (c_NonceLimit (w_config w) / c_ThreadsPerShard (w_config w)) (Z.of_nat i) in
    (∀ i ch, taskChs t !! i = Some ch → w_channels w' !! ch = Some (Some (item i))) ∧
    (∀ ch, ch ∉ taskChs t → w_channels w' !! ch = w_channels w !! ch) ∧
    (∀ n, 0 ≤ n < c_NonceLimit (w_config w) → ∃ i,
       (Z.of_nat i < c_ThreadsPerShard (w_config w) ∧ nonceStart (item i) ≤ n < nonceEnd (item i)) ∧
       ∀ j, Z.of_nat j < c_ThreadsPerShard (w_config w) → nonceStart (item j) ≤ n < nonceEnd (item j) → j = i).
Proof.
  intros (Hl & Hnd & Hin) HT HL. set T := c_ThreadsPerShard (w_config w) in Hl HT *.
  set L := c_NonceLimit (w_config w) in HL *. set seg := L / T.
  rw /assignTasks {1}/mbind /st_bind /st_get udiv_nz; [lia|]. rw {1}/mbind /st_bind /st_lift.
  set cfg := w_config w. rw -/T -/L -/seg. set item := λ i, thread_item cfg t block diff seg (Z.of_nat i).
  set body := λ (_ : unit) (i : Z), _.
  pose (P (k : Z) (_ : unit) (w' : worker) := resultMap w' = resultMap w ∧ length (w_channels w') = length (w_channels w) ∧
    (∀ i ch, Z.of_nat i < k → taskChs t !! i = Some ch → w_channels w' !! ch = Some (Some (item i))) ∧
    (∀ ch, ch ∉ taskChs t → w_channels w' !! ch = w_channels w !! ch)).
  destruct (st_foldM_count P body 0 (Z.to_nat T)) with (b := tt) (s := w) as (u & w' & HF & H1 & _ & H3 & H4).
  - intros k [] w1 Hk (A1 & A2 & A3 & A4).
    destruct (lookup_lt_is_Some_2 (taskChs t) (Z.to_nat k)) as [ch Hch]; [rw /zlen in Hl; lia|].
    rw /body /mbind /st_bind /st_lift (index_lookup _ _ ch) //; [lia|].
    eexists tt, _. split; [reflexivity|]. split_and!.
    + done.
    + by rw /= length_insert.
    + intros i ch' Hi Hch'. simpl. destruct (decide (i = Z.to_nat k)) as [-> |Hne].
      * have -> : ch' = ch by congruence. rw list_lookup_insert_eq.
        { rw A2. rw Forall_forall in Hin. apply Hin. exact (list_elem_of_lookup_2 _ _ _ Hch). }
        do 2 f_equal. rw /item. f_equal. lia.
      * rw list_lookup_insert_ne; [|apply A3; [lia|done]].
        intros <-. apply Hne. exact (NoDup_lookup _ _ _ _ Hnd Hch' Hch).
    + intros ch' Hch'. simpl. rw list_lookup_insert_ne; [|by apply A4].
      intros <-. apply Hch'. exact (list_elem_of_lookup_2 _ _ _ Hch).
  - split_and!; [done..| |done]. intros i ch Hi. lia.
  - rw Z2Nat.id in HF; [lia|]. destruct u. exists w'. rw HF. split_and!; [done..| | |].
    + intros i ch Hch. apply H3; [|done]. apply lookup_lt_Some in Hch. rw /zlen in Hl. lia.
    + done.
    + intros n Hn.
      have Hseg : 0 ≤ seg by apply Z.div_pos; lia.
      have HR i (Hi : Z.of_nat i < T) := thread_ranges cfg t block diff seg (Z.of_nat i)
        ltac:(change (0 ≤ Z.of_nat i < T); lia) ltac:(change (T < two64); lia) HL eq_refl.
      set q := if decide (seg = 0) then T - 1 else Z.min (n / seg) (T - 1).
      have Hq : 0 ≤ q < T by rw /q; case_decide; [lia|]; have := Z.div_pos n seg ltac:(lia) ltac:(lia); lia.
      have Hin' (i : nat) (Hi : Z.of_nat i < T) : nonceStart (item i) ≤ n < nonceEnd (item i) ↔ Z.of_nat i = q.
      { destruct (HR i Hi) as [E1 E2]. rw /item E1 E2. change (c_ThreadsPerShard cfg) with T. change (c_NonceLimit cfg) with L. rw /q. case_decide as E0.
        - rw E0. case: Z.eqb_spec; lia.
        - have Hdm := Z.div_mod n seg ltac:(lia). have Hmm := Z.mod_pos_bound n seg ltac:(lia).
          case: Z.eqb_spec => Ei; [split; intros; nia|]. split; intros Hx; [|nia].
          have Hni : n / seg = Z.of_nat i by nia. lia. }
      exists (Z.to_nat q). split.
      * split; [lia|]. apply Hin'; lia.
      * intros j Hj Hr. apply Hin' in Hr; lia.
Qed.

(** ** Tasks *)

(** Only requests were made. *)
Definition ticked w w' : Prop := ∃ n, w' = Nat.iter n tick w.

Lemma ticked_refl w : ticked w w.
Proof. by exists 0%nat. Qed.

Lemma ticked_tick w w' : ticked w w' → ticked w (tick w').
Proof. intros [n ->]. by exists (Datatypes.S n). Qed.

Lemma ticked_trans w1 w2 w3 : ticked w1 w2 → ticked w2 w3 → ticked w1 w3.
Proof. intros [n ->] [m ->]. exists (m + n)%nat. induction m as [|m IH]; [done|]. simpl. by rw IH. Qed.

Lemma ticked_fields w w' : ticked w w' →
  w_config w' = w_config w ∧ w_kvEntriesBits w' = w_kvEntriesBits w ∧ w_kvSizeBits w' = w_kvSizeBits w ∧
  resultMap w' = resultMap w ∧ resultCh w' = resultCh w ∧ miningStates w' = miningStates w ∧
  w_channels w' = w_channels w ∧ errCh w' = errCh w ∧ submissionStates w' = submissionStates w.
Proof. intros [n ->]. induction n as [|n IH]; [done|]. exact IH. Qed.

(** The samples of the shard do not change while the task runs. *)
Definition stable (rd : Z → Z → bytes) : Prop := ∀ req shard i, ReadSample req shard i = Ret (rd shard i).

(** The samples that a first hash leads to, and the hash over them: the check that
    a proof has to pass. *)
Definition sample_of (rowBits shardIdx : Z) (hash : bytes) : Z :=
  add64 (wrap64 (be_decode hash mod 2 ^ rowBits)) (shl64 shardIdx rowBits).

Fixpoint sample_chain (rd : Z → bytes) (rowBits shardIdx : Z) (n : nat) (hash : bytes) : list Z :=
  match n with
  | O => []
  | Datatypes.S n => let i := sample_of rowBits shardIdx hash in
                     i :: sample_chain rd rowBits shardIdx n (Keccak256Hash (hash ++ rd i))
  end.

Definition proof_hash (hash : bytes) (samples : list bytes) : bytes :=
  foldl (λ h s, Keccak256Hash (h ++ s)) hash samples.

Definition bits_of w : Z := row_bits (w_kvEntriesBits w) (w_kvSizeBits w) SampleSizeBits.

Lemma sample_index_ok rowBits shardIdx hash :
  0 ≤ rowBits < 63 → sample_index rowBits shardIdx hash = Ret (sample_of rowBits shardIdx hash).
Proof.
  intros Hr. have Hp : 0 < 2 ^ rowBits < two63.
  { split; [lia|]. change two63 with (2 ^ 63). apply Z.pow_lt_mono_r; lia. }
  rw /sample_index /bigMod Z.shiftl_1_l int64_small; [unfold two63 in *; lia|].
  rw (proj2 (Z.eqb_neq _ _)); [lia|]. by rw Z.abs_eq; [lia|].
Qed.

Lemma hashimoto_run rd eb sb shardIdx checks hash0 w :
  stable rd → 0 ≤ row_bits eb sb SampleSizeBits < 63 →
  let idxs := sample_chain (rd shardIdx) (row_bits eb sb SampleSizeBits) shardIdx (Z.to_nat checks) hash0 in
  ∃ w', hashimoto eb sb SampleSizeBits shardIdx checks hash0 w
          = (Ret (proof_hash hash0 (map (rd shardIdx) idxs), idxs), w') ∧ ticked w w'.
Proof.
  intros Hrd Hr. rw /hashimoto. set rb := row_bits _ _ _ in Hr *. set body := λ (_ : bytes * list Z) (_ : Z), _.
  enough (Hgen : ∀ n a h idxs w, ∃ w', st_foldM body (h, idxs) (seqZ a (Z.of_nat n)) w =
    (Ret (proof_hash h (map (rd shardIdx) (sample_chain (rd shardIdx) rb shardIdx n h)),
          idxs ++ sample_chain (rd shardIdx) rb shardIdx n h), w') ∧ ticked w w').
  { destruct (Z.le_gt_cases 0 checks).
    - destruct (Hgen (Z.to_nat checks) 0 hash0 [] w) as (w' & H1 & H2). rw Z2Nat.id in H1; [done|].
      by exists w'.
    - rw seqZ_nil; [lia|]. have -> : Z.to_nat checks = 0%nat by lia. exists w. split; [done|apply ticked_refl]. }
  clear w. induction n as [|n IH]; intros a h idxs w.
  { exists w. rw /= app_nil_r. split; [done|apply ticked_refl]. }
  rw seqZ_cons; [lia|]. rw st_foldM_cons {1}/mbind /st_bind.
  have -> : body (h, idxs) a w = (Ret (Keccak256Hash (h ++ rd shardIdx (sample_of rb shardIdx h)),
                                        idxs ++ [sample_of rb shardIdx h]), tick w).
  { by rw /body /mbind /st_bind /st_lift sample_index_ok // /ask Hrd. }
  have -> : Z.pred (Z.of_nat (Datatypes.S n)) = Z.of_nat n by lia.
  destruct (IH (Z.succ a) (Keccak256Hash (h ++ rd shardIdx (sample_of rb shardIdx h)))
              (idxs ++ [sample_of rb shardIdx h]) (tick w)) as (w' & -> & HT).
  exists w'. rw -app_assoc. split; [done|]. exact (ticked_trans _ _ _ (ticked_tick _ _ (ticked_refl w)) HT).
Qed.

Lemma length_sample_chain rd rowBits shardIdx n : ∀ hash,
  length (sample_chain rd rowBits shardIdx n hash) = n.
Proof. induction n as [|n IH]; intros hash; [done|]. simpl. by rw IH. Qed.

(** All the elements, by their indices. *)
Lemma omap_seqZ_lookup {A} (l : list A) : omap (λ i, l !! Z.to_nat i) (seqZ 0 (zlen l)) = l.
Proof.
  rw /zlen. induction l as [|x l IH] using rev_ind; [done|].
  rw length_app Nat2Z.inj_add (_ : Z.of_nat (length l) + Z.of_nat (length [x]) = Z.of_nat (Datatypes.S (length l))).
  { simpl. lia. }
  rw seqZ_S omap_app. f_equal; [|by rw /= Nat2Z.id list_lookup_middle].
  rw -{3}IH. apply list_omap_ext, Forall_Forall2_diag, Forall_forall. intros i Hi%elem_of_seqZ.
  apply lookup_app_l. lia.
Qed.

(** *** What was read

    The storage may change while a task runs, so a sample is what some request of the
    task read. *)
Definition read_in w w' (shardIdx i : Z) (s : bytes) : Prop :=
  ∃ req, (w_requests w ≤ req < w_requests w')%nat ∧ ReadSample req shardIdx i = Ret s.

Lemma reads_mono w1 w2 w w' shardIdx idxs ss :
  (w_requests w ≤ w_requests w1)%nat → (w_requests w2 ≤ w_requests w')%nat →
  Forall2 (read_in w1 w2 shardIdx) idxs ss → Forall2 (read_in w w' shardIdx) idxs ss.
Proof.
  intros H1 H2 H. apply (Forall2_impl _ _ _ _ H). intros i s (req & Hr & Hs). exists req. split; [lia|done].
Qed.

Lemma ticked_requests w w' : ticked w w' → (w_requests w ≤ w_requests w')%nat.
Proof. intros [n ->]. induction n as [|n IH]; simpl; lia. Qed.

(** The places that a first hash and the samples [ss] lead to. *)
Fixpoint chain_of (rowBits shardIdx : Z) (hash : bytes) (ss : list bytes) : list Z :=
  match ss with
  | [] => []
  | s :: ss => sample_of rowBits shardIdx hash :: chain_of rowBits shardIdx (Keccak256Hash (hash ++ s)) ss
  end.

Lemma length_chain_of rowBits shardIdx ss : ∀ hash, length (chain_of rowBits shardIdx hash ss) = length ss.
Proof. induction ss as [|s ss IH]; intros hash; [done|]. by rw /= IH. Qed.

(** A loop whose turns only make requests only makes requests, however it ends. *)
Lemma st_foldM_ticked {A B} (f : B → A → ST worker B) l :
  (∀ b a w, ticked w (f b a w).2) → ∀ b w, ticked w (st_foldM f b l w).2.
Proof.
  intros Hf. induction l as [|a l IH]; intros b w; [apply ticked_refl|]. rw st_foldM_cons /mbind /st_bind.
  have := Hf b a w. destruct (f b a w) as [[b1| |] w1]; [|done..]. intros H1.
  exact (ticked_trans _ _ _ H1 (IH b1 w1)).
Qed.

Lemma hashimoto_reads eb sb shardIdx checks hash0 w :
  0 ≤ row_bits eb sb SampleSizeBits < 63 → 0 ≤ checks →
  let '(x, w') := hashimoto eb sb SampleSizeBits shardIdx checks hash0 w in
  ticked w w' ∧ ∀ h idxs, x = Ret (h, idxs) →
    ∃ ss, zlen ss = checks ∧ h = proof_hash hash0 ss ∧
      idxs = chain_of (row_bits eb sb SampleSizeBits) shardIdx hash0 ss ∧
      Forall2 (read_in w w' shardIdx) idxs ss.
Proof.
  intros Hr Hc. rw /hashimoto. set rb := row_bits _ _ _ in Hr *. set body := λ (_ : bytes * list Z) (_ : Z), _.
  enough (Hgen : ∀ n a h0 acc w, let '(x, w') := st_foldM body (h0, acc) (seqZ a (Z.of_nat n)) w in
    ticked w w' ∧ ∀ h idxs, x = Ret (h, idxs) → ∃ ss, zlen ss = Z.of_nat n ∧ h = proof_hash h0 ss ∧
      idxs = acc ++ chain_of rb shardIdx h0 ss ∧ Forall2 (read_in w w' shardIdx) (chain_of rb shardIdx h0 ss) ss).
  { have := Hgen (Z.to_nat checks) 0 hash0 [] w. rw Z2Nat.id //.
    destruct (st_foldM _ _ _ w) as [x w']. intros [HT H]. split; [done|]. intros h idxs Hx.
    destruct (H h idxs Hx) as (ss & H1 & H2 & -> & H4). by exists ss. }
  clear w. induction n as [|n IH]; intros a h0 acc w.
  { split; [apply ticked_refl|]. intros h idxs [= <- <-]. exists []. by rw app_nil_r. }
  rw seqZ_cons; [lia|]. rw st_foldM_cons {1}/mbind /st_bind.
  have Ht : ticked w (tick w) by apply ticked_tick, ticked_refl.
  rw {1}/body /mbind /st_bind /st_lift sample_index_ok // /ask. set i := sample_of rb shardIdx h0.
  destruct (ReadSample (w_requests w) shardIdx i) as [s| |] eqn:Es; [|done..].
  have -> : Z.pred (Z.of_nat (Datatypes.S n)) = Z.of_nat n by lia. rw /mret /st_ret.
  pose proof (IH (Z.succ a) (Keccak256Hash (h0 ++ s)) (acc ++ [i]) (tick w)) as HI.
  destruct (st_foldM _ _ _ (tick w)) as [x w']. destruct HI as [HT H].
  split; [exact (ticked_trans _ _ _ Ht HT)|]. intros h idxs Hx.
  destruct (H h idxs Hx) as (ss & H1 & -> & -> & H4). exists (s :: ss).
  have Hreq := ticked_requests _ _ HT. have Hreq0 := ticked_requests _ _ Ht. split_and!; [|done|by rw -app_assoc|].
  - rw /zlen /= in H1 *. lia.
  - simpl. constructor; [|by eapply reads_mono; [..|exact H4]].
    exists (w_requests w). split; [simpl in Hreq; lia|done].
Qed.

Lemma sample_data_ticked t sl i k h w : ticked w (sample_data t sl i k h w).2.
Proof.
  have H1 : ticked w (tick w) by apply ticked_tick, ticked_refl.
  rw /sample_data /mbind /st_bind /ask. destruct (GetBlob _ k h); [|done..].
  rw /st_lift. destruct (umod i _); [|done..]. destruct (ReadSample _ _ i); by apply ticked_tick.
Qed.

(** The data of a proof are read again, at the same places. *)
Lemma getMiningData_reads t idxs w x w' :
  zlen idxs = c_RandomChecks (w_config w) → getMiningData t idxs w = (x, w') →
  ticked w w' ∧ ∀ data, x = Ret data → Forall2 (read_in w w' (tk_shardIdx t)) idxs (map snd data).
Proof.
  intros Hl. rw /getMiningData {1}/mbind /st_bind /st_get -Hl. set sl := sub64 _ _.
  set b1 := λ (acc : list Z) (i : Z), _. rw {1}/mbind /st_bind.
  have HT1 : ticked w (st_foldM b1 [] (seqZ 0 (zlen idxs)) w).2.
  { apply st_foldM_ticked. intros acc i s. rw /b1 /mbind /st_bind /st_lift.
    destruct (index idxs i); apply ticked_refl. }
  destruct (st_foldM b1 [] _ w) as [[kvIdxs| |] w1]; simpl in HT1; [|by intros [= <- <-]..].
  rw {1}/mbind /st_bind /ask. have HT2 := ticked_tick _ _ HT1.
  destruct (GetDataHashes _ kvIdxs) as [kvHashes| |]; [|by intros [= <- <-]..].
  set b2 := λ (acc : list _) (i : Z), _. intros H2. split.
  - have H3 : ticked (tick w1) (st_foldM b2 [] (seqZ 0 (zlen idxs)) (tick w1)).2.
    { apply st_foldM_ticked. intros acc i s. rw /b2 /mbind /st_bind /st_lift.
      destruct (index idxs i) as [x1| |]; [|apply ticked_refl..].
      destruct (index kvIdxs i) as [k1| |]; [|apply ticked_refl..].
      destruct (index kvHashes i) as [h1| |]; [|apply ticked_refl..].
      have := sample_data_ticked t sl x1 k1 h1 s. by destruct (sample_data _ _ _ _ _ s) as [[]]. }
    rw H2 in H3. exact (ticked_trans _ _ _ HT2 H3).
  - intros data ->. rw -[X in Forall2 _ X](omap_seqZ_lookup idxs).
    eapply (st_foldM_ok (λ pre acc s, ticked w s ∧
      Forall2 (read_in w s (tk_shardIdx t)) (omap (λ i, idxs !! Z.to_nat i) pre) (map snd acc)) b2); [| |exact H2].
    2: by split; [|constructor].
    intros pre i acc s acc' s' (Ht & Hm). rw /b2 /mbind /st_bind /st_lift /index.
    case: Z.leb_spec => // Hi. destruct (idxs !! Z.to_nat i) as [y|] eqn:Ey; [|done].
    destruct (kvIdxs !! _) as [k1|]; [|done]. destruct (kvHashes !! _) as [h1|]; [|done].
    rw /sample_data /mbind /st_bind /ask. destruct (GetBlob _ k1 h1); [|done..].
    rw /st_lift. destruct (umod y _); [|done..].
    destruct (ReadSample _ _ y) as [d| |] eqn:Er; [|done..]. intros [= <- <-].
    have Hle := ticked_requests _ _ Ht. split; [by do 2 apply ticked_tick|].
    rw map_app omap_app /= Ey. apply Forall2_app.
    { eapply reads_mono; [..|exact Hm]; simpl; lia. }
    constructor; [|done]. exists (w_requests (tick s)). split; [simpl; lia|done].
Qed.

(** The result of a nonce, with the samples [encoded]. *)
Definition result_for (t : taskItem) (nonce : Z) (encoded : list bytes) (r : result) : Prop :=
  rs_blockNumber r = blockNumber t ∧ startShardId r = tk_shardIdx (ti_task t) ∧
  rs_miner r = tk_miner (ti_task t) ∧ rs_nonce r = nonce ∧ rs_timestamp r = mineTime t ∧
  encodedData r = encoded.

(** [r] was put for its shard and the result loop was notified; nothing else changed. *)
Definition published w w' (r : result) : Prop :=
  resultMap w' = <[startShardId r := Some r]> (resultMap w) ∧ resultCh w' = true ∧
  miningStates w' = miningStates w ∧ submissionStates w' = submissionStates w ∧
  w_channels w' = w_channels w ∧ errCh w' = errCh w.

Definition unchanged_results w w' : Prop := resultMap w' = resultMap w ∧ resultCh w' = resultCh w.

Lemma ticked_unchanged w w' : ticked w w' → unchanged_results w w'.
Proof. intros (_ & _ & _ & H1 & H2 & _)%ticked_fields. done. Qed.

Lemma found_ends t nonce idxs w x w' :
  zlen idxs = c_RandomChecks (w_config w) → found t nonce idxs w = (x, w') →
  (w_requests w ≤ w_requests w')%nat ∧
  match x with
  | Ret b => b = true ∧ ∃ r, result_for t nonce (encodedData r) r ∧ published w w' r ∧
               Forall2 (read_in w w' (tk_shardIdx (ti_task t))) idxs (encodedData r)
  | _ => unchanged_results w w'
  end.
Proof.
  intros Hl. rw /found {1}/mbind /st_bind.
  destruct (getMiningData (ti_task t) idxs w) as [y w1] eqn:E.
  destruct (getMiningData_reads _ _ _ _ _ Hl E) as [HT Hd]. have Hr := ticked_requests _ _ HT.
  have Hu := ticked_unchanged _ _ HT. destruct y as [data| |]; [|by intros [= <- <-]..].
  rw /mbind /st_bind /ask. destruct (GetStorageProof _ _ _ _) as [[[ms dec] inc]| |].
  2-3: intros [= <- <-]; split; [simpl; lia|exact Hu].
  rw /st_get /st_put. intros [= <- <-]. split; [simpl; lia|]. split; [done|].
  exists (mkResult (blockNumber t) (tk_shardIdx (ti_task t)) (tk_miner (ti_task t)) nonce
            (map snd data) ms inc dec (mineTime t)).
  split; [done|]. split; last first.
  - cbn. eapply reads_mono; [..|exact (Hd _ eq_refl)]; simpl; lia.
  - destruct (ticked_fields _ _ HT) as (_ & _ & _ & Hm & _ & H2 & H3 & H4 & H5). by rw /published /= Hm.
Qed.

(** The nonce is good: the hash over its samples is at most the bound. *)
Definition mine_samples rd w (t : taskItem) (nonce : Z) : list Z :=
  sample_chain (rd (tk_shardIdx (ti_task t))) (bits_of w) (tk_shardIdx (ti_task t))
    (Z.to_nat (c_RandomChecks (w_config w))) (initHash (tk_miner (ti_task t)) (mixHash t) nonce).

Definition good_nonce rd w (t : taskItem) (nonce : Z) : Prop :=
  be_decode (proof_hash (initHash (tk_miner (ti_task t)) (mixHash t) nonce)
               (map (rd (tk_shardIdx (ti_task t))) (mine_samples rd w t nonce))) ≤ requiredDiff t.

#[global] Instance good_nonce_dec rd w t nonce : Decision (good_nonce rd w t nonce).
Proof. unfold good_nonce. apply _. Defined.

Lemma good_nonce_ticked rd w w' t nonce : ticked w w' →
  mine_samples rd w' t nonce = mine_samples rd w t nonce ∧ (good_nonce rd w' t nonce ↔ good_nonce rd w t nonce).
Proof.
  intros (H1 & H2 & H3 & _)%ticked_fields. rw /good_nonce /mine_samples /bits_of H1 H2 H3. done.
Qed.

(** The task and the worker are in the range the code is written for. *)
Definition task_ok w (t : taskItem) : Prop :=
  0 ≤ bits_of w < 63 ∧ 0 ≤ c_RandomChecks (w_config w) ∧ 0 ≤ nonceStart t ≤ nonceEnd t ∧ nonceEnd t < two64.

(** One turn of the loop, when it is not stopped before. *)
Lemma mine_turn rd fuel t nonce w :
  stable rd → 0 ≤ bits_of w < 63 → nonce < nonceEnd t →
  isRunning_at (w_requests w) = true → timed_out (Datatypes.S (w_requests w)) = false →
  ∃ w1, ticked w w1 ∧ mine_loop (Datatypes.S fuel) t nonce w =
    if decide (good_nonce rd w t nonce) then found t nonce (mine_samples rd w t nonce) w1
    else mine_loop fuel t (add64 nonce 1) w1.
Proof.
  intros Hrd Hb Hn Hr Ht. simpl. rw {1}/mbind /st_bind /look Hr /= /mbind /st_bind /= Ht.
  rw (proj2 (Z.leb_gt _ _) Hn) /computeHash /mbind /st_bind /st_get.
  destruct (hashimoto_run rd (w_kvEntriesBits (tick (tick w))) (w_kvSizeBits (tick (tick w)))
              (tk_shardIdx (ti_task t)) (c_RandomChecks (w_config (tick (tick w)))) (initHash (tk_miner (ti_task t)) (mixHash t) nonce) (tick (tick w)))
    as (w1 & -> & HT); [done..|].
  exists w1. split; [exact (ticked_trans w (tick (tick w)) w1 (ex_intro _ 2%nat eq_refl) HT)|].
  case: Z.leb_spec => Hd; case_decide as Hg; [done| | |done].
  - by destruct Hg.
  - by destruct (proj1 (Z.lt_nge _ _) Hd).
Qed.

Lemma length_mine_samples rd w t nonce :
  0 ≤ c_RandomChecks (w_config w) → zlen (mine_samples rd w t nonce) = c_RandomChecks (w_config w).
Proof. intros. rw /zlen /mine_samples length_sample_chain. lia. Qed.

(** *** A task, however it ends *)

Lemma set_power_ends shardIdx power w x w' :
  set_power shardIdx power w = (x, w') → (w_requests w ≤ w_requests w')%nat ∧ unchanged_results w w'.
Proof.
  rw /set_power /mbind /st_bind /look /st_get /=.
  destruct (miningStates w !! shardIdx) => -[= _ <-]; (split; [simpl; lia|done]).
Qed.

(** A nonce was tried with the samples [ss], each read where the ones before lead to. *)
Definition nonce_places w (t : taskItem) (nonce : Z) (ss : list bytes) : list Z :=
  chain_of (bits_of w) (tk_shardIdx (ti_task t)) (initHash (tk_miner (ti_task t)) (mixHash t) nonce) ss.

Definition nonce_hash (t : taskItem) (nonce : Z) (ss : list bytes) : Z :=
  be_decode (proof_hash (initHash (tk_miner (ti_task t)) (mixHash t) nonce) ss).

Definition tried w w' (t : taskItem) (nonce : Z) (ss : list bytes) : Prop :=
  zlen ss = c_RandomChecks (w_config w) ∧
  Forall2 (read_in w w' (tk_shardIdx (ti_task t))) (nonce_places w t nonce ss) ss.

Definition tried_bad w w' (t : taskItem) (nonce : Z) : Prop :=
  ∃ ss, tried w w' t nonce ss ∧ requiredDiff t < nonce_hash t nonce ss.

(** The worker was stopped or late. *)
Definition cut_short w w' : Prop :=
  ∃ req, (w_requests w ≤ req < w_requests w')%nat ∧ (isRunning_at req = false ∨ timed_out req = true).

(** What the loop from [nonce0] on has done. *)
Definition mined t (nonce0 : Z) w (x : gores bool) w' : Prop :=
  match x with
  | Ret true =>
      ∃ r ss, published w w' r ∧ result_for t (rs_nonce r) (encodedData r) r ∧
        nonce0 ≤ rs_nonce r < nonceEnd t ∧ (∀ m, nonce0 ≤ m < rs_nonce r → tried_bad w w' t m) ∧
        tried w w' t (rs_nonce r) ss ∧ nonce_hash t (rs_nonce r) ss ≤ requiredDiff t ∧
        Forall2 (read_in w w' (tk_shardIdx (ti_task t))) (nonce_places w t (rs_nonce r) ss) (encodedData r)
  | Ret false => unchanged_results w w' ∧
      (cut_short w w' ∨ ∀ m, nonce0 ≤ m < nonceEnd t → tried_bad w w' t m)
  | _ => unchanged_results w w'
  end.

Lemma tried_from w w1 w2 w' t m ss :
  ticked w w1 → (w_requests w2 ≤ w_requests w')%nat → tried w1 w2 t m ss → tried w w' t m ss.
Proof.
  intros HT Hle [H1 H2]. have Hr := ticked_requests _ _ HT.
  destruct (ticked_fields _ _ HT) as (F1 & F2 & F3 & _). rw /tried /nonce_places /bits_of -F1 -F2 -F3.
  split; [done|]. exact (reads_mono _ _ _ _ _ _ _ Hr Hle H2).
Qed.

Lemma tried_bad_from w w1 w2 w' t m :
  ticked w w1 → (w_requests w2 ≤ w_requests w')%nat → tried_bad w1 w2 t m → tried_bad w w' t m.
Proof. intros HT Hle (ss & H1 & H2). exists ss. split; [exact (tried_from _ _ _ _ _ _ _ HT Hle H1)|done]. Qed.

Lemma mined_step t nonce w w1 x w' :
  ticked w w1 → tried_bad w w' t nonce → mined t (nonce + 1) w1 x w' → mined t nonce w x w'.
Proof.
  intros HT Hbad. have Hr := ticked_requests _ _ HT.
  destruct (ticked_fields _ _ HT) as (F1 & F2 & F3 & F4 & F5 & F6 & F7 & F8 & F9).
  have Hb m : nonce ≤ m → (nonce + 1 ≤ m → tried_bad w1 w' t m) → tried_bad w w' t m.
  { intros Hm H. destruct (decide (m = nonce)) as [->|]; [done|].
    apply (tried_bad_from _ _ _ _ _ _ HT (Nat.le_refl _)), H. lia. }
  destruct x as [[]| |]; rw /mined /unchanged_results -?F4 -?F5 //.
  - intros (r & ss & HP & Hres & Hn & Hm & Ht & Hh & Hd). exists r, ss. split_and!; [|done|lia|lia| | |done|].
    + by rw /published -F4 -F6 -F7 -F8 -F9.
    + intros m Hm'. apply (Hb m); [lia|]. intros. apply Hm. lia.
    + exact (tried_from _ _ _ _ _ _ _ HT (Nat.le_refl _) Ht).
    + rw /nonce_places /bits_of -F2 -F3. exact (reads_mono _ _ _ _ _ _ _ Hr (Nat.le_refl _) Hd).
  - intros (Hu & Hc). split; [done|]. destruct Hc as [(req & Hreq & H)|H].
    + left. exists req. split; [lia|done].
    + right. intros m Hm. apply (Hb m); [lia|]. intros. apply H. lia.
Qed.

(** The end of a turn that finds no proof: the statistics may be updated. *)
Lemma power_ends (c : bool) (p : gores Z) shardIdx t nonce w w2 x w' :
  ticked w w2 →
  ((if c then p' ← st_lift p; set_power shardIdx p' else mret tt) ≫= (λ _, mret false)) w2 = (x, w') →
  (cut_short w w2 ∨ ∀ m, nonce ≤ m < nonceEnd t → tried_bad w w2 t m) →
  (w_requests w ≤ w_requests w')%nat ∧ mined t nonce w x w'.
Proof.
  intros HT H Hc. have Hr := ticked_requests _ _ HT. have Hu := ticked_unchanged _ _ HT.
  have Hend w1 : (w_requests w2 ≤ w_requests w1)%nat → unchanged_results w2 w1 →
    (w_requests w ≤ w_requests w1)%nat ∧ mined t nonce w (Ret false) w1 ∧ unchanged_results w w1.
  { intros Hr1 [U1 U2]. destruct Hu as [U3 U4]. split; [lia|]. rw /mined /unchanged_results U1 U2 U3 U4.
    split_and!; [done|done| |done|done]. destruct Hc as [(req & Hreq & H0)|H0].
    - left. exists req. split; [lia|done].
    - right. intros m Hm. apply (tried_bad_from _ _ _ _ _ _ (ticked_refl w) Hr1), H0, Hm. }
  move: H. rw {1}/mbind /st_bind. destruct c.
  - rw /mbind /st_bind /st_lift. destruct p as [p| |].
    2-3: intros [= <- <-]; by destruct (Hend w2) as (? & _ & ?).
    destruct (set_power shardIdx p w2) as [y w1] eqn:E. apply set_power_ends in E as [E1 E2].
    destruct (Hend w1 E1 E2) as (H1 & H2 & H3). destruct y; by intros [= <- <-].
  - intros [= <- <-]. by destruct (Hend w2) as (? & ? & _).
Qed.

Lemma mine_loop_ends fuel t : ∀ nonce w x w',
  task_ok w t → nonceStart t ≤ nonce → mine_loop fuel t nonce w = (x, w') →
  (w_requests w ≤ w_requests w')%nat ∧ mined t nonce w x w'.
Proof.
  induction fuel as [|fuel IH]; intros nonce w x w' (Hb & Hc & Hs & He) Hn; [by intros [= <- <-]|].
  simpl. rw {1}/mbind /st_bind /look /=. destruct (isRunning_at (w_requests w)) eqn:Er; simpl; last first.
  { intros [= <- <-]. split; [simpl; lia|]. split; [done|]. left. exists (w_requests w). split; [simpl; lia|by left]. }
  have Hw2 : ticked w (tick (tick w)) by exists 2%nat. rw {1}/mbind /st_bind /=.
  destruct (timed_out (Datatypes.S (w_requests w))) eqn:Et.
  { intros H. eapply (power_ends (thread t =? 0)); [exact Hw2|exact H|]. left.
    exists (Datatypes.S (w_requests w)). split; [simpl; lia|by right]. }
  case: Z.leb_spec => Hend.
  { intros H. eapply (power_ends (thread t =? 0) (Ret 10000)); [exact Hw2|exact H|]. right. lia. }
  rw /computeHash {1}/mbind /st_bind {1}/mbind /st_get.
  pose proof (hashimoto_reads (w_kvEntriesBits (tick (tick w))) (w_kvSizeBits (tick (tick w)))
    (tk_shardIdx (ti_task t)) (c_RandomChecks (w_config (tick (tick w))))
    (initHash (tk_miner (ti_task t)) (mixHash t) nonce) (tick (tick w)) Hb Hc) as HH.
  destruct (hashimoto _ _ _ _ _ _ _) as [y w3]. destruct HH as [HT3 HR].
  have HT := ticked_trans _ _ _ Hw2 HT3. have Hr3 := ticked_requests _ _ HT.
  have Hu3 := ticked_unchanged _ _ HT.
  destruct y as [[hash idxs]| |]; [|by intros [= <- <-]..].
  destruct (HR hash idxs eq_refl) as (ss & Hl & -> & -> & Hrd). clear HR.
  have Htr : tried w w3 t nonce ss.
  { apply (tried_from w (tick (tick w)) w3 w3 t nonce ss Hw2 (Nat.le_refl _)). by split. }
  destruct (ticked_fields _ _ HT) as (F1 & F2 & F3 & F4 & _ & F6 & F7 & F8 & F9).
  case: Z.leb_spec => Hd H.
  - apply found_ends in H as [Hr' H]; [|by rw F1 /zlen length_chain_of].
    split; [lia|]. destruct Hu3 as [U1 U2].
    destruct x as [b| |]; [|by rw /mined /unchanged_results -U1 -U2..].
    destruct H as (-> & r & Hres & HP & Hre). have En : rs_nonce r = nonce by apply Hres.
    exists r, ss. rw En. split_and!; [by rw /published -F4 -F6 -F7 -F8 -F9|done|lia|lia|lia| |done|].
    + exact (tried_from _ _ _ _ _ _ _ (ticked_refl w) Hr' Htr).
    + exact (reads_mono _ _ _ _ _ _ _ Hr3 (Nat.le_refl _) Hre).
  - have Ha : add64 nonce 1 = nonce + 1 by rw /add64 wrap64_small; lia. rw Ha in H.
    apply IH in H as [Hr' H]; [|by rw /task_ok /bits_of F1 F2 F3|lia]. split; [lia|].
    apply (mined_step _ _ _ w3); [done| |done]. exists ss. split; [|done].
    exact (tried_from _ _ _ _ _ _ _ (ticked_refl w) Hr' Htr).
Qed.

(** When the storage does not change, the samples are the ones of the storage. *)
Lemma chain_stable rd rowBits shardIdx ss : ∀ hash,
  Forall2 (λ i s, s = rd shardIdx i) (chain_of rowBits shardIdx hash ss) ss →
  chain_of rowBits shardIdx hash ss = sample_chain (rd shardIdx) rowBits shardIdx (length ss) hash.
Proof.
  induction ss as [|s ss IH]; intros hash H; [done|]. inversion H as [|? ? ? ? Hs Hr]; subst.
  simpl. f_equal. by apply IH.
Qed.

Lemma reads_stable rd w w' shardIdx idxs ss :
  stable rd → Forall2 (read_in w w' shardIdx) idxs ss → ss = map (rd shardIdx) idxs.
Proof. intros Hrd. induction 1 as [|i s idxs ss (req & _ & H) _ IH]; [done|]. rw Hrd in H. simplify_eq/=. by f_equal. Qed.

Lemma tried_stable rd w w' t nonce ss :
  stable rd → tried w w' t nonce ss →
  nonce_places w t nonce ss = mine_samples rd w t nonce ∧
  ss = map (rd (tk_shardIdx (ti_task t))) (mine_samples rd w t nonce).
Proof.
  intros Hrd [Hl H]. have Hs := reads_stable _ _ _ _ _ _ Hrd H.
  have E : nonce_places w t nonce ss = mine_samples rd w t nonce.
  { rw /nonce_places /mine_samples -Hl /zlen Nat2Z.id. apply chain_stable.
    apply (Forall2_impl _ _ _ _ H). intros i s (req & _ & Hq). rw Hrd in Hq. by simplify_eq. }
  by rw -E.
Qed.

Lemma tried_good rd w w' t nonce ss :
  stable rd → tried w w' t nonce ss → good_nonce rd w t nonce ↔ nonce_hash t nonce ss ≤ requiredDiff t.
Proof. intros Hrd [_ Hs]%(tried_stable rd) => //. by rw /good_nonce /nonce_hash -Hs. Qed.

(** C9: a proof that the miner hands over passes the check.  However a task ends, with
    an error or a panic too, and whatever the clock, the stop requests and the storage
    do meanwhile: with success the result of its shard is the new one and the result
    loop was notified; the nonce is of the range, its samples were read along the
    chain that the hashes give, the hash over them is at most the bound, every smaller
    nonce of the range was tried and its hash was above it, and the samples of the
    result are a second read of the same places.  If the storage does not change, they
    are the hashed ones, so the hash over the samples of the result itself is at most
    the bound, and no smaller nonce is good.  In every other ending the results are as
    they were; without an error the worker was stopped or late, or every nonce was
    tried. *)
Theorem mineTask_sound fuel t w x w' :
  task_ok w t → mineTask fuel t w = (x, w') →
  match x with
  | Ret true =>
      ∃ r ss, published w w' r ∧ result_for t (rs_nonce r) (encodedData r) r ∧
        nonceStart t ≤ rs_nonce r < nonceEnd t ∧
        (∀ m, nonceStart t ≤ m < rs_nonce r → tried_bad w w' t m) ∧
        tried w w' t (rs_nonce r) ss ∧ nonce_hash t (rs_nonce r) ss ≤ requiredDiff t ∧
        Forall2 (read_in w w' (tk_shardIdx (ti_task t))) (nonce_places w t (rs_nonce r) ss) (encodedData r) ∧
        ∀ rd, stable rd →
          zlen (encodedData r) = c_RandomChecks (w_config w) ∧
          be_decode (proof_hash (initHash (rs_miner r) (mixHash t) (rs_nonce r)) (encodedData r))
            ≤ requiredDiff t ∧
          ∀ m, nonceStart t ≤ m < rs_nonce r → ¬ good_nonce rd w t m
  | Ret false => unchanged_results w w' ∧
      (cut_short w w' ∨ ∀ m, nonceStart t ≤ m < nonceEnd t → tried_bad w w' t m)
  | _ => unchanged_results w w'
  end.
Proof.
  intros Hok H. apply mine_loop_ends in H as [_ H]; [|done|lia]. destruct x as [[]| |]; [|done..].
  destruct H as (r & ss & HP & Hr & Hn & Hbad & Ht & Hh & Hre). exists r, ss. split_and!; [done|done|lia|lia|done|done|done|done|].
  intros rd Hrd. destruct (tried_stable rd _ _ _ _ _ Hrd Ht) as [Ep Es].
  have Ed : encodedData r = ss by rw (reads_stable _ _ _ _ _ _ Hrd Hre) Ep -Es.
  rw Ed. pose proof Hr as (_ & _ & -> & _). split_and!; [apply Ht|done|].
  intros m Hm. destruct (Hbad m Hm) as (ss' & Ht' & Hh'). rw (tried_good rd _ _ _ _ _ Hrd Ht'). lia.
Qed.

(** The worker is not stopped or late, and everything it asks for is there. *)
Definition answers : Prop :=
  (∀ req, isRunning_at req = true) ∧ (∀ req, timed_out req = false) ∧
  (∀ req idxs, ∃ hs, GetDataHashes req idxs = Ret hs ∧ length hs = length idxs) ∧
  (∀ req k h, ∃ d, GetBlob req k h = Ret d) ∧
  (∀ req ds ks ps, ∃ p, GetStorageProof req ds ks ps = Ret p).

Lemma getMiningData_total rd t idxs w :
  stable rd → answers → zlen idxs = c_RandomChecks (w_config w) →
  0 ≤ sub64 (w_kvSizeBits w) SampleSizeBits < 64 →
  ∃ data w', getMiningData t idxs w = (Ret data, w').
Proof.
  intros Hrd (_ & _ & HH & HB & _) Hl Hs. rw /getMiningData {1}/mbind /st_bind /st_get -Hl.
  set sl := sub64 _ _ in Hs *. set b1 := λ (acc : list Z) (i : Z), _. rw {1}/mbind /st_bind.
  destruct (st_foldM_count (λ i acc _, zlen acc = i) b1 0 (length idxs)) with (b := @nil Z) (s := w)
    as (kvIdxs & w1 & E1 & Hk).
  { intros i acc s Hi Ha. destruct (index_in idxs i) as [x Hx]; [rw /zlen; lia|].
    rw /b1 /mbind /st_bind /st_lift Hx. eexists _, _. split; [reflexivity|]. rw zlen_app Ha /zlen /=. lia. }
  { done. }
  rw /zlen E1 /ask /mbind /st_bind. destruct (HH (w_requests w1) kvIdxs) as (kvHashes & -> & Hlh).
  match goal with |- context [st_foldM ?f _ _ _] => set (b2 := f) end.
  destruct (st_foldM_count (λ _ _ _, True) b2 0 (length idxs)) with (b := @nil (bytes * Z * bytes * bytes)) (s := tick w1)
    as (data & w2 & E2 & _); [|done|by exists data, w2].
  intros i acc s Hi _. rw /zlen in Hk.
  destruct (index_in idxs i) as [x Hx]; [rw /zlen; lia|].
  destruct (index_in kvIdxs i) as [k Hkx]; [rw /zlen; lia|].
  destruct (index_in kvHashes i) as [h Hh]; [rw /zlen; lia|].
  rw /b2 /st_lift Hx Hkx Hh /sample_data /mbind /st_bind /ask.
  destruct (HB (w_requests s) k h) as [d ->]. rw /st_lift umod_nz.
  { rw /shl64 Z.shiftl_1_l wrap64_small; [|lia]. split; [lia|]. change two64 with (2 ^ 64).
    apply Z.pow_lt_mono_r; lia. }
  rw Hrd. by eexists _, _.
Qed.

Lemma found_total rd t nonce idxs w :
  stable rd → answers → zlen idxs = c_RandomChecks (w_config w) →
  0 ≤ sub64 (w_kvSizeBits w) SampleSizeBits < 64 →
  ∃ w', found t nonce idxs w = (Ret true, w').
Proof.
  intros Hrd HA Hl Hs. rw /found {1}/mbind /st_bind.
  destruct (getMiningData_total rd (ti_task t) idxs w) as (data & w1 & ->); [done..|].
  rw /mbind /st_bind /ask. destruct HA as (_ & _ & _ & _ & HP).
  destruct (HP (w_requests w1) (map (λ x, x.1.1.1) data) (map (λ x, x.1.2) data) (map (λ x, x.1.1.2) data))
    as [[[ms dec] inc] ->].
  by eexists.
Qed.

Lemma mine_loop_total rd fuel t : ∀ nonce w,
  stable rd → answers → task_ok w t → 0 ≤ sub64 (w_kvSizeBits w) SampleSizeBits < 64 →
  is_Some (miningStates w !! tk_shardIdx (ti_task t)) →
  nonceEnd t - nonce < Z.of_nat fuel → nonceStart t ≤ nonce ≤ nonceEnd t →
  ∃ b w', mine_loop fuel t nonce w = (Ret b, w') ∧
    (b = false → ∀ m, nonce ≤ m < nonceEnd t → ¬ good_nonce rd w t m).
Proof.
  induction fuel as [|fuel IH]; intros nonce w Hrd HA Hok Hs HM Hf Hn; [lia|].
  pose proof Hok as (Hb & Hc & Hse & He). pose proof HA as (HR & HT & _).
  destruct (decide (nonce = nonceEnd t)) as [-> |].
  { simpl. rw {1}/mbind /st_bind /look HR /= /mbind /st_bind /= HT Z.leb_refl. case: Z.eqb => /=.
    - destruct HM as [x Hx]. rw /set_power /mbind /st_bind /look /st_get /= Hx /st_put. eexists _, _.
      split; [reflexivity|]. lia.
    - eexists _, _. split; [reflexivity|]. lia. }
  destruct (mine_turn rd fuel t nonce w) as (w2 & Ht & ->); [done|done|lia|done..|].
  destruct (ticked_fields _ _ Ht) as (F1 & F2 & F3 & _ & _ & F6 & _). case_decide as Hg.
  - destruct (found_total rd t nonce (mine_samples rd w t nonce) w2) as [w' ->]; [done..| | |].
    + by rw F1 length_mine_samples.
    + by rw F3.
    + by eexists _, _.
  - have Ha : add64 nonce 1 = nonce + 1 by rw /add64 wrap64_small; lia. rw Ha.
    destruct (IH (nonce + 1) w2) as (b & w' & H1 & H2);
      [done|done|by rw /task_ok /bits_of F1 F2 F3|by rw F3|by rw F6|lia|lia|].
    exists b, w'. split; [done|]. intros Hb' m Hm. destruct (decide (m = nonce)) as [->|]; [done|].
    rw -(proj2 (good_nonce_ticked rd w w2 t m Ht)). apply H2; [done|lia].
Qed.

(** C16: a task finds a proof when there is one: when the worker goes on and its
    requests are answered, a task with at least as many turns as nonces and one
    more ends, with success exactly when some nonce of the range is good. *)
Theorem mineTask_complete rd fuel t w :
  stable rd → answers → task_ok w t → 0 ≤ sub64 (w_kvSizeBits w) SampleSizeBits < 64 →
  is_Some (miningStates w !! tk_shardIdx (ti_task t)) → nonceEnd t - nonceStart t < Z.of_nat fuel →
  ∃ b w', mineTask fuel t w = (Ret b, w') ∧
    (b = true ↔ ∃ n, nonceStart t ≤ n < nonceEnd t ∧ good_nonce rd w t n).
Proof.
  intros Hrd HA Hok Hs HM Hf.
  destruct (mine_loop_total rd fuel t (nonceStart t) w) as (b & w' & H & Hb); [done..|destruct Hok; lia|].
  exists b, w'. split; [done|]. apply mine_loop_ends in H as [_ H]; [|done|lia]. destruct b.
  - split; [|done]. intros _. destruct H as (r & ss & _ & _ & Hn & _ & Ht & Hh & _). exists (rs_nonce r).
    split; [lia|]. by apply (tried_good rd _ _ _ _ _ Hrd Ht).
  - split; [done|]. intros (n & Hn & Hg). by destruct (Hb eq_refl n Hn).
Qed.

(** ** Results *)

(** The task loops and the result loop run at the same time: the worker, where the
    result loop is, and how many task loops have put a result and not yet notified.
    The loop takes the token, then looks for a result, then submits it. *)
Inductive loop_at := Listening | Looking | Submitting (r : result).

Record results_state := mkResults { rl_worker : worker; rl_at : loop_at; rl_notifiers : nat }.

Inductive results_step : results_state → results_state → Prop :=
  | RsPut w pl n r :
      results_step (mkResults w pl n) (mkResults (put_result r w) pl (Datatypes.S n))
  | RsNotify w pl n :
      results_step (mkResults w pl (Datatypes.S n)) (mkResults (notifyResultLoop w) pl n)
  | RsToken w n :
      resultCh w = true → results_step (mkResults w Listening n) (mkResults (take_token w) Looking n)
  | RsLook w n order r w' :
      (∀ k, is_Some (resultMap w !! k) → k ∈ order) → getResult order w = (Ret r, w') →
      results_step (mkResults w Looking n) (mkResults w' (from_option Submitting Listening r) n)
  | RsSubmit w n r w' :
      submit_result r w = (Ret tt, w') → results_step (mkResults w (Submitting r) n) (mkResults w' Listening n).

(** A result waits for the result loop. *)
Definition waiting w (k : Z) (r : result) : Prop := resultMap w !! k = Some (Some r).

Definition wake_up (s : results_state) : Prop :=
  resultCh (rl_worker s) = true ∨ rl_at s ≠ Listening ∨ (0 < rl_notifiers s)%nat.

Lemma getResult_ok order w r w' :
  getResult order w = (Ret r, w') → (∀ k, is_Some (resultMap w !! k) → k ∈ order) →
  match r with
  | Some r => ∃ k, waiting w k r ∧ resultMap w' = <[k := None]> (resultMap w)
  | None => (∀ k r, ¬ waiting w k r) ∧ resultMap w' = resultMap w
  end.
Proof.
  rw /getResult => H Ho. move: H.
  destruct (list_find _ order) as [[i k]|] eqn:E; intros [= <- <-].
  - apply list_find_Some in E as (_ & [r Hr] & _). rw Hr. exists k. split; [|done].
    rw /waiting. by destruct (resultMap w !! k) as [[x|]|]; simplify_eq/=.
  - split; [|done]. apply list_find_None in E. rw Forall_forall in E. intros k r Hk.
    apply (E k); [apply Ho; by rw Hk|]. by rw Hk.
Qed.

Lemma submit_result_ok r w u w' :
  submit_result r w = (Ret u, w') → resultMap w' = resultMap w ∧ resultCh w' = true.
Proof.
  rw /submit_result /mbind /st_bind /st_catch /ask /look /st_get /st_put.
  destruct (SubmitMinedResult _ r) as [h|e|]; [..|done]; simpl;
    by destruct (submissionStates w !! _) => -[= _ <-].
Qed.

(** C15: no result is forgotten: in every interleaving of the task loops and the
    result loop, a result that waits will be looked for, since the token is in the
    channel, or the loop has taken it and will look now, or it is submitting and will
    notify itself, or a task loop is about to notify; so at rest nothing waits. *)
Theorem results_wake_up w s :
  resultMap w = ∅ → rtc results_step (mkResults w Listening 0) s →
  ∀ k r, waiting (rl_worker s) k r → wake_up s.
Proof.
  intros Hw Hs. have H0 : ∀ k r, waiting (rl_worker (mkResults w Listening 0)) k r → wake_up (mkResults w Listening 0).
  { intros k r. by rw /waiting /= Hw lookup_empty. }
  revert H0. induction Hs as [|s1 s2 s3 H12 _ IH]; [done|]. intros H1. apply IH. clear IH Hw.
  destruct H12 as [w1 pl n r|w1 pl n|w1 n Hc|w1 n order r w' Ho H|w1 n r w' H]; intros k r' Hk; rw /wake_up /=.
  - right; right. lia.
  - by left.
  - by right; left.
  - apply getResult_ok in H; [|done]. destruct r as [r|]; [by right; left|].
    destruct H as [Hn Hm]. rw /waiting /= Hm in Hk. by destruct (Hn k r').
  - apply submit_result_ok in H as [_ ->]. by left.
Qed.

(** ** The miner *)

(** Mining was asked for last, and a shard was announced while the miner listened. *)
Definition asked (evs : list miner_event) : bool :=
  foldl (λ b ev, match ev with EvStart => true | EvStop => false | _ => b end) false evs.

Fixpoint announced (evs : list miner_event) : list Z :=
  match evs with
  | [] => []
  | EvAllDone :: _ => []
  | EvShardDone shardId :: evs => shardId :: announced evs
  | _ :: evs => announced evs
  end.

Lemma update_run evs : ∀ m,
  Mining m = shouldStart m && canStart m →
  let m' := foldl (λ m ev, update ev m) m evs in
  let shards := if m_subscribed m then announced evs else [] in
  shouldStart m' = foldl (λ b ev, match ev with EvStart => true | EvStop => false | _ => b end) (shouldStart m) evs ∧
  canStart m' = canStart m || negb (bool_decide (shards = [])) ∧
  Mining m' = shouldStart m' && canStart m' ∧
  w_startCh (m_worker m') = w_startCh (m_worker m) ++ shards.
Proof.
  induction evs as [|ev evs IH]; intros m Hm; simpl.
  { destruct (m_subscribed m); rw /= app_nil_r orb_false_r; done. }
  have Hm' : Mining (update ev m) = shouldStart (update ev m) && canStart (update ev m).
  { move: Hm. rw /Mining /isRunning. destruct m as [[] [] [] []], ev; simpl; unfold isRunning; simpl; intros ->; done. }
  destruct (IH _ Hm') as (H1 & H2 & H3 & H4). clear IH.
  split_and!; [rw H1|rw H2|done|rw H4]; clear H1 H2 H3 H4 Hm Hm'; destruct m as [w [] [] []], ev; simpl; try done.
  all: try destruct (negb _); by rw /= -app_assoc.
Qed.

(** The miner mines exactly when mining was asked for last and some shard was
    announced as synced before the end of the sync; the worker gets a task for
    every announced shard, in order. *)
Theorem miner_update_spec config eb sb miners shards saved evs :
  let m := foldl (λ m ev, update ev m) (miner_new (newWorker config eb sb miners shards saved)) evs in
  Mining m = asked evs && negb (bool_decide (announced evs = [])) ∧
  w_startCh (m_worker m) = announced evs.
Proof.
  destruct (update_run evs (miner_new (newWorker config eb sb miners shards saved)) eq_refl) as (H1 & H2 & H3 & H4).
  split; [|done]. by rw H3 H1 H2.
Qed.

End facts.

(** ** Examples *)

(** Samples are the hash of their place; a task never stops early. *)
#[export] Instance toy_miner_world : MinerWorld := {
  ReadSample _ shard i := Ret (be_encode 32 (shard + 7 * i));
  GetBlob _ _ _ := Ret [];
  GetDataHashes _ idxs := Ret (map (be_encode 32) idxs);
  GetMiningInfo _ _ := Ret (mkMiningInfo 0 1 0);
  GetStorageProof _ _ _ _ := Ret ([], [], []);
  SubmitMinedResult _ _ := Ret [];
  isRunning_at _ := true;
  timed_out _ := false;
  now _ := 0 }.

Definition toy_config : Config := mkConfig 12 2 10 1 60 1024 3.
Definition toy_worker : worker := newWorker toy_config 2 17 ∅ [0] ∅.
Definition toy_task : task := mkTask (zeros 20) 0 [0%nat; 1%nat; 2%nat].
Definition toy_block : L1BlockRef := mkBlockRef 5 60 (zeros 32).
Definition toy_item : taskItem := thread_item toy_config toy_task toy_block (2 ^ 254) 3 1.

Lemma toy_stable : stable (λ shard i, be_encode 32 (shard + 7 * i)).
Proof. done. Qed.

Lemma toy_task_ok : task_ok toy_worker toy_item.
Proof. by vm_compute. Qed.

Lemma toy_answers : answers.
Proof.
  split_and!; [done..| |by eexists|by eexists]. intros req idxs. eexists. split; [done|]. apply length_map.
Qed.

Lemma assignTasks_spec_witness :
  let w := set_channels toy_worker [None; None; Some toy_item] ∅ in
  ∃ w', assignTasks toy_task toy_block 77 w = (Ret tt, w') ∧
    w_channels w' !! 2%nat = Some (Some (thread_item toy_config toy_task toy_block 77 3 2)).
Proof.
  destruct (assignTasks_spec toy_task toy_block 77 (set_channels toy_worker [None; None; Some toy_item] ∅))
    as (w' & H & _ & Hi & _).
  - split_and!; [done|by apply (bool_decide_unpack _)|]. repeat constructor.
  - done.
  - done.
  - exists w'. split; [done|]. by apply (Hi 2%nat).
Defined.

(** The same, but the blobs cannot be read, and the same with a storage that
    changes after the fourth request. *)
Definition no_blobs : MinerWorld := {|
  ReadSample := @ReadSample toy_miner_world; GetBlob _ _ _ := Fail (ErrMsg "no blob");
  GetDataHashes := @GetDataHashes toy_miner_world; GetMiningInfo := @GetMiningInfo toy_miner_world;
  GetStorageProof := @GetStorageProof toy_miner_world; SubmitMinedResult := @SubmitMinedResult toy_miner_world;
  isRunning_at := @isRunning_at toy_miner_world; timed_out := @timed_out toy_miner_world;
  now := @now toy_miner_world |}.

Definition restless : MinerWorld := {|
  ReadSample req shard i := Ret (be_encode 32 (shard + 7 * i + if (req <? 4)%nat then 0 else 1));
  GetBlob := @GetBlob toy_miner_world;
  GetDataHashes := @GetDataHashes toy_miner_world; GetMiningInfo := @GetMiningInfo toy_miner_world;
  GetStorageProof := @GetStorageProof toy_miner_world; SubmitMinedResult := @SubmitMinedResult toy_miner_world;
  isRunning_at := @isRunning_at toy_miner_world; timed_out := @timed_out toy_miner_world;
  now := @now toy_miner_world |}.

Lemma mineTask_sound_witness :
  (∃ w' r, mineTask 10 toy_item toy_worker = (Ret true, w') ∧ published toy_worker w' r ∧
     be_decode (proof_hash (initHash (rs_miner r) (zeros 32) (rs_nonce r)) (encodedData r)) ≤ 2 ^ 254) ∧
  (∃ w' r ss, mineTask (MW := restless) 10 toy_item toy_worker = (Ret true, w') ∧ published toy_worker w' r ∧
     tried (MW := restless) toy_worker w' toy_item (rs_nonce r) ss ∧
     nonce_hash toy_item (rs_nonce r) ss ≤ 2 ^ 254) ∧
  (∃ e w', mineTask (MW := no_blobs) 10 toy_item toy_worker = (Fail e, w') ∧ resultMap w' = ∅).
Proof.
  split_and!.
  - destruct (mineTask 10 toy_item toy_worker) as [[[]| |] w'] eqn:E; [|vm_compute in E; discriminate..].
    destruct (mineTask_sound 10 toy_item toy_worker (Ret true) w' toy_task_ok E)
      as (r & ss & H1 & _ & _ & _ & _ & _ & _ & H2).
    exists w', r. split; [reflexivity|]. split; [exact H1|]. exact (proj1 (proj2 (H2 _ toy_stable))).
  - destruct (mineTask (MW := restless) 10 toy_item toy_worker) as [[[]| |] w'] eqn:E; [|vm_compute in E; discriminate..].
    destruct (mineTask_sound (MW := restless) 10 toy_item toy_worker (Ret true) w' toy_task_ok E)
      as (r & ss & H1 & _ & _ & _ & H2 & H3 & _).
    exists w', r, ss. split; [reflexivity|]. split_and!; [exact H1|exact H2|exact H3].
  - destruct (mineTask (MW := no_blobs) 10 toy_item toy_worker) as [[[]| e |] w'] eqn:E; [vm_compute in E; discriminate..| |vm_compute in E; discriminate].
    destruct (mineTask_sound (MW := no_blobs) 10 toy_item toy_worker (Fail e) w' toy_task_ok E) as [H1 _].
    exists e, w'. split; [reflexivity|]. exact H1.
Defined.

(** The second read matters: while the storage changes, a task can hand over samples
    whose hash is above the bound. *)
Lemma mineTask_second_read :
  ∃ w' r, mineTask (MW := restless) 10 toy_item toy_worker = (Ret true, w') ∧
    resultMap w' !! 0 = Some (Some r) ∧ 2 ^ 254 < nonce_hash toy_item (rs_nonce r) (encodedData r).
Proof.
  destruct (mineTask (MW := restless) 10 toy_item toy_worker) as [y w'] eqn:E. vm_compute in E.
  injection E as <- <-. eexists _, _. split_and!; [reflexivity..|]. by vm_compute.
Qed.

Lemma mineTask_complete_witness :
  ∃ b w', mineTask 10 toy_item toy_worker = (Ret b, w').
Proof.
  destruct (mineTask_complete _ 10 toy_item toy_worker toy_stable toy_answers toy_task_ok)
    as (b & w' & H & _).
  - by vm_compute.
  - by eexists.
  - by vm_compute.
  - exists b, w'. exact H.
Defined.

Lemma results_wake_up_witness :
  let r := mkResult 5 0 (zeros 20) 3 [] [] [] [] 60 in
  wake_up (mkResults (put_result r toy_worker) Listening 1).
Proof.
  apply (results_wake_up toy_worker) with (k := 0) (r := mkResult 5 0 (zeros 20) 3 [] [] [] [] 60).
  - done.
  - apply rtc_once. constructor.
  - done.
Defined.
