(* ===== verification/MinerLife.v ===== *)
(** * The goroutines of the miner, and its statistics on the disk (ethstorage/miner/miner.go and worker.go)

    [New] launches [update], and the worker's [newWorkLoop] and [resultLoop]; the work loop launches task loops for each
    shard that is synced.  [Close] stops the worker and lets [update] close it: this ends the loops, closes the task channels
    and saves the statistics, which the next start loads.  A step is one operation on a channel, or the work between two of
    them; what mining finds and what the L1 node answers is in the labels.  The turns themselves are in [Miner]. *)

From S2P Require Import Prelude Miner.

Open Scope nat_scope.

(** ** The statistics on the disk *)

(** [json.Marshal] and [json.Unmarshal] of the two maps; [Unmarshal] returns what it could read. *)
Class StateJson := {
  MarshalSub : gmap Z SubmissionState → gores bytes;
  UnmarshalSub : bytes → gmap Z SubmissionState * option error;
  MarshalMin : gmap Z MiningState → gores bytes }.

Class StateJsonLaws (J : StateJson) := {
  MarshalSub_read m b : MarshalSub m = Ret b → UnmarshalSub b = (m, None) }.

Definition SubmissionStatusKey : string := "SubmissionStatusKey".
Definition MiningStatusKey : string := "MiningStatusKey".

Section life.
Context `{J : StateJson}.

(** [saveStates]: errors are logged and end the call.  [put] are the errors of the database. *)
Definition saveStates (put : string → option error) (sub : gmap Z SubmissionState) (min : gmap Z MiningState) (db : gmap string bytes)
    : gmap string bytes :=
  match MarshalSub sub with
  | Ret b =>
      match put SubmissionStatusKey with
      | Some _ => db
      | None =>
          let db := <[SubmissionStatusKey := b]> db in
          match MarshalMin min with
          | Ret b => match put MiningStatusKey with Some _ => db | None => <[MiningStatusKey := b]> db end
          | _ => db
          end
      end
  | _ => db
  end.

(** The states that [newWorker] finds. *)
Definition load_states (db : gmap string bytes) : gmap Z SubmissionState :=
  match db !! SubmissionStatusKey with Some b => (UnmarshalSub b).1 | None => ∅ end.

(** ** The goroutines *)

(** [update]: at its select, at the send of a shard to the worker, at [w.wg.Wait] of the worker's [close], or ended. *)
Inductive updater := USelect | USend (shard : Z) | UClosing | UEnded.
Inductive looper := LSelect | LBusy | LEnded.

(** A call of [Close]: not made, at the send to [stopCh], before the close of [exitCh], at [wg.Wait], returned. *)
Inductive mcloser := CNone | CStop | CExit | CWait | CReturned.

(** [update], the call of [Close], and which of the channels [miner.exitCh], [worker.exitCh] and the task channels are closed. *)
Record control := mkControl { upd : updater; closer : mcloser; m_exit : bool; w_exit : bool; chs_closed : bool }.

(** [newWorkLoop] with [startCh], which has room for one shard, and the task loops, each with whether an item waits in its
    channel. *)
Record tasks := mkTasks { work_loop : looper; startCh : list Z; task_loops : list (looper * bool) }.

(** [resultLoop] with the number of results that wait in [resultMap], its wake-up in [resultCh], the number of errors in
    [errCh], the statistics and the database. *)
Record outcome := mkOutcome {
  result_loop : looper; results : nat; token : bool; errs : nat;
  sub_states : gmap Z SubmissionState; min_states : gmap Z MiningState; db : gmap string bytes
}.

Record mlife := mkLife { ctl : control; wk : tasks; out : outcome }.

(** What the mining of an item gives; the error goes to [errCh] when there is room. *)
Inductive mined := Nothing | FoundOne | MineError.

(** The steps; those with data carry what the outside decides. *)
Inductive mlabel :=
| ShardDone (shard : Z) | CloseCall                             (** an event for [update], a call *)
| SendShard | SeeExit | WorkerClosed (put : string → option error)  (** [update] *)
| StartShard | Head (chs : list nat) | WorkExit                     (** [newWorkLoop] *)
| TakeItem (k : nat) | MineItem (k : nat) (r : mined) (shard : Z) (st : MiningState) | TaskExit (k : nat)
| TakeResult | Submit (shard : Z) (x : error + bytes) (time : Z) | CountError (shard : Z)
| SaveTick (put : string → option error) | ResultExit
| CloseStep.

Definition set_upd (u : updater) (s : mlife) : mlife :=
  mkLife (mkControl u (closer (ctl s)) (m_exit (ctl s)) (w_exit (ctl s)) (chs_closed (ctl s))) (wk s) (out s).
Definition set_closer (c : mcloser) (s : mlife) : mlife :=
  mkLife (mkControl (upd (ctl s)) c (m_exit (ctl s)) (w_exit (ctl s)) (chs_closed (ctl s))) (wk s) (out s).
Definition set_tasks (t : tasks) (s : mlife) : mlife := mkLife (ctl s) t (out s).
Definition set_task (k : nat) (l : looper * bool) (s : mlife) : mlife :=
  set_tasks (mkTasks (work_loop (wk s)) (startCh (wk s)) (<[k := l]> (task_loops (wk s)))) s.
Definition set_out (o : outcome) (s : mlife) : mlife := mkLife (ctl s) (wk s) o.

Definition ended (l : looper) : bool := match l with LEnded => true | _ => false end.

(** [w.wg] is at zero. *)
Definition loops_ended (s : mlife) : bool :=
  ended (work_loop (wk s)) && ended (result_loop (out s)) && forallb (λ l, ended l.1) (task_loops (wk s)).

Definition count (shard : Z) (f : SubmissionState → SubmissionState) (m : gmap Z SubmissionState) : gmap Z SubmissionState :=
  match m !! shard with Some st => <[shard := f st]> m | None => m end.

Definition ClosedChannel : panic := Explicit "send on closed channel".

(** [assignTasks]: an item that waits is replaced; a send to a closed channel panics. *)
Definition assign (chs : list nat) (s : mlife) : gores mlife :=
  if chs_closed (ctl s) && negb (bool_decide (chs = [])) then Panic ClosedChannel
  else mret (set_tasks (mkTasks (work_loop (wk s)) (startCh (wk s))
                          (foldl (λ l k, alter (λ x, (x.1, true)) k l) (task_loops (wk s)) chs)) s).

(** The last part of the worker's [close]. *)
Definition close_worker (put : string → option error) (s : mlife) : gores mlife :=
  if chs_closed (ctl s) && negb (bool_decide (task_loops (wk s) = [])) then Panic ClosedChannel
  else
    let o := out s in
    mret (mkLife (mkControl UEnded (closer (ctl s)) (m_exit (ctl s)) (w_exit (ctl s)) true) (wk s)
            (mkOutcome (result_loop o) (results o) (token o) (errs o) (sub_states o) (min_states o)
               (saveStates put (sub_states o) (min_states o) (db o)))).

(** The step of a call of [Close]; [Stop] meets [update] at its select. *)
Definition close_step (s : mlife) : option (gores mlife) :=
  match closer (ctl s), upd (ctl s) with
  | CStop, USelect => Some (mret (set_closer CExit s))
  | CExit, _ =>
      Some (if m_exit (ctl s) then Panic ClosedChannel
            else mret (mkLife (mkControl (upd (ctl s)) CWait true (w_exit (ctl s)) (chs_closed (ctl s))) (wk s) (out s)))
  | CWait, UEnded => Some (mret (set_closer CReturned s))
  | _, _ => None
  end.

Section threads.
Context (threads : nat).

Definition update_step (x : mlabel) (s : mlife) : option (gores mlife) :=
  match x, upd (ctl s) with
  | ShardDone shard, USelect => Some (mret (set_upd (USend shard) s))
  | SendShard, USend shard =>
      match startCh (wk s) with
      | [] => Some (mret (set_upd USelect (set_tasks (mkTasks (work_loop (wk s)) [shard] (task_loops (wk s))) s)))
      | _ => None
      end
  | SeeExit, USelect =>
      if m_exit (ctl s) then
        Some (if w_exit (ctl s) then Panic ClosedChannel
              else mret (mkLife (mkControl UClosing (closer (ctl s)) (m_exit (ctl s)) true (chs_closed (ctl s))) (wk s) (out s)))
      else None
  | WorkerClosed put, UClosing => if loops_ended s then Some (close_worker put s) else None
  | _, _ => None
  end.

Definition work_step (x : mlabel) (s : mlife) : option (gores mlife) :=
  match work_loop (wk s), x with
  | LSelect, StartShard =>
      match startCh (wk s) with
      | _ :: l => Some (mret (set_tasks (mkTasks LSelect l (task_loops (wk s) ++ replicate threads (LSelect, false))) s))
      | [] => None
      end
  | LSelect, Head chs => Some (assign chs s)
  | LSelect, WorkExit =>
      if w_exit (ctl s) then Some (mret (set_tasks (mkTasks LEnded (startCh (wk s)) (task_loops (wk s))) s)) else None
  | _, _ => None
  end.

Definition task_step (x : mlabel) (s : mlife) : option (gores mlife) :=
  match x with
  | TakeItem k =>
      match task_loops (wk s) !! k with
      | Some (LSelect, true) => Some (mret (set_task k (LBusy, false) s))
      | _ => None
      end
  | MineItem k r shard st =>
      match task_loops (wk s) !! k with
      | Some (LBusy, item) =>
          let o := out s in
          Some (mret (set_task k (LSelect, item) (set_out
            (match r with
             | Nothing => mkOutcome (result_loop o) (results o) (token o) (errs o) (sub_states o) (<[shard := st]> (min_states o)) (db o)
             | FoundOne => mkOutcome (result_loop o) (results o + 1) true (errs o) (sub_states o) (<[shard := st]> (min_states o)) (db o)
             | MineError => mkOutcome (result_loop o) (results o) (token o) (if errs o <? 10 then errs o + 1 else errs o)
                              (sub_states o) (min_states o) (db o)
             end) s)))
      | _ => None
      end
  | TaskExit k =>
      match task_loops (wk s) !! k with
      | Some (LSelect, item) => if w_exit (ctl s) then Some (mret (set_task k (LEnded, item) s)) else None
      | _ => None
      end
  | _ => None
  end.

Definition result_step (x : mlabel) (s : mlife) : option (gores mlife) :=
  let o := out s in
  match result_loop o, x with
  | LSelect, TakeResult =>
      if token o then
        Some (mret (set_out (match results o with
                             | 0 => mkOutcome LSelect 0 false (errs o) (sub_states o) (min_states o) (db o)
                             | S n => mkOutcome LBusy n false (errs o) (sub_states o) (min_states o) (db o)
                             end) s))
      else None
  | LBusy, Submit shard x time =>
      Some (mret (set_out (mkOutcome LSelect (results o) true (errs o) (count shard (count_submission x time) (sub_states o))
                             (min_states o) (db o)) s))
  | LSelect, CountError shard =>
      match errs o with
      | S n => Some (mret (set_out (mkOutcome LSelect (results o) (token o) n
                 (count shard (λ st, mkSubmissionState (Submitted st) (Failed st + 1) (Dropped st) (LastSubmittedTime st)) (sub_states o))
                 (min_states o) (db o)) s))
      | 0 => None
      end
  | LSelect, SaveTick put =>
      Some (mret (set_out (mkOutcome LSelect (results o) (token o) (errs o) (sub_states o) (min_states o)
                             (saveStates put (sub_states o) (min_states o) (db o))) s))
  | LSelect, ResultExit =>
      if w_exit (ctl s) then
        Some (mret (set_out (mkOutcome LEnded (results o) (token o) (errs o) (sub_states o) (min_states o) (db o)) s))
      else None
  | _, _ => None
  end.

Definition exec (x : mlabel) (s : mlife) : option (gores mlife) :=
  match x with
  | ShardDone _ | SendShard | SeeExit | WorkerClosed _ => update_step x s
  | StartShard | Head _ | WorkExit => work_step x s
  | TakeItem _ | MineItem _ _ _ _ | TaskExit _ => task_step x s
  | TakeResult | Submit _ _ _ | CountError _ | SaveTick _ | ResultExit => result_step x s
  | CloseCall => match closer (ctl s) with CNone => Some (mret (set_closer CStop s)) | _ => None end
  | CloseStep => close_step s
  end.

(** [New] with the statistics of [newWorker]. *)
Definition New (w : worker) (d : gmap string bytes) : mlife :=
  mkLife (mkControl USelect CNone false false false) (mkTasks LSelect [] [])
    (mkOutcome LSelect 0 false 0 (submissionStates w) (miningStates w) d).

Definition mlife_step (s s' : mlife) : Prop := ∃ x, exec x s = Some (Ret s').

(** ** The order of closing *)

(** Which channels are closed at which points of [Close] and [update]. *)
Definition ctl_ok (c : control) : bool :=
  match closer c, upd c, (m_exit c, w_exit c, chs_closed c) with
  | (CNone | CStop | CExit), (USelect | USend _), (false, false, false) => true
  | CWait, (USelect | USend _), (true, false, false) => true
  | CWait, UClosing, (true, true, false) => true
  | (CWait | CReturned), UEnded, (true, true, true) => true
  | _, _, _ => false
  end.

Definition life_ok (s : mlife) : Prop :=
  ctl_ok (ctl s) = true ∧ (upd (ctl s) = UEnded → loops_ended s = true) ∧
  (work_loop (wk s) = LEnded → w_exit (ctl s) = true) ∧ work_loop (wk s) ≠ LBusy.

(** What a step does to the rest when everything has ended. *)
Definition frozen (s s' : mlife) : Prop := upd (ctl s) = UEnded → upd (ctl s') = UEnded ∧ wk s' = wk s ∧ out s' = out s.

Definition step_ok (s : mlife) (r : gores mlife) : Prop := ∃ s', r = Ret s' ∧ life_ok s' ∧ frozen s s'.

Lemma loops_ended_true s : loops_ended s = true ↔
  work_loop (wk s) = LEnded ∧ result_loop (out s) = LEnded ∧ ∀ k l, task_loops (wk s) !! k = Some l → l.1 = LEnded.
Proof.
  have He l : ended l = true ↔ l = LEnded by destruct l.
  rw /loops_ended !andb_true_iff !He -and_assoc. do 2 f_equiv. rw -Forall_lookup. induction (task_loops (wk s)) as [|x l IH]; [done|].
  cbn [forallb]. by rw andb_true_iff He IH Forall_cons.
Qed.

#[local] Ltac stepped := eexists; split; [reflexivity|]; split; [|by intros ?].

Lemma update_step_ok x s r : life_ok s → update_step x s = Some r → step_ok s r.
Proof.
  destruct s as [[u c m w cc] [wl st tl] o]. intros (Hc & He & Hw & Hb). rw /update_step /close_worker. cbn in *.
  destruct x, u, c, m, w, cc; try done; cbn; repeat case_match; intros; simplify_eq; stepped; by split_and!.
Qed.

Lemma close_step_ok s r : life_ok s → close_step s = Some r → step_ok s r.
Proof.
  destruct s as [[u c m w cc] [wl st tl] o]. intros (Hc & He & Hw & Hb). rw /close_step. cbn in *.
  destruct c, u, m, w, cc; try done; intros; simplify_eq; (eexists; split; [reflexivity|]); (split; [by split_and!|by intros ?]).
Qed.

(** The work loop runs only while nothing is closed. *)
Lemma work_step_ok x s r : life_ok s → work_step x s = Some r → step_ok s r.
Proof.
  destruct s as [[u c m w cc] [wl st tl] o]. intros (Hc & He & Hw & Hb). rw /work_step /assign. cbn in *.
  have Hu : wl = LSelect → u ≠ UEnded.
  { intros -> ->. specialize (He eq_refl). by rw /loops_ended in He. }
  have Hcc : wl = LSelect → cc = false.
  { intros Hl. specialize (Hu Hl). destruct u, c, m, w, cc; done. }
  destruct wl; [specialize (Hcc eq_refl); subst cc|done..]. destruct x; try done; cbn; repeat case_match; intros; simplify_eq; (eexists; split; [reflexivity|]);
    (split; [split_and!; cbn; [done|intros E; by destruct (Hu eq_refl)|try done..]|intros E; by destruct (Hu eq_refl)]).
Qed.

(** A loop that is not ended shows that [update] has not ended. *)
Lemma alive_task s k l b : life_ok s → task_loops (wk s) !! k = Some (l, b) → l ≠ LEnded → upd (ctl s) ≠ UEnded.
Proof. intros (_ & He & _) Hk Hl Hu. apply He, loops_ended_true in Hu as (_ & _ & H). by apply H in Hk. Qed.

Lemma alive_result s : life_ok s → result_loop (out s) ≠ LEnded → upd (ctl s) ≠ UEnded.
Proof. intros (_ & He & _) Hl Hu. by apply He, loops_ended_true in Hu as (_ & H & _). Qed.

(** A step that leaves control and work loop alone. *)
Lemma inner_step_ok s s' : life_ok s → upd (ctl s) ≠ UEnded → ctl s' = ctl s → work_loop (wk s') = work_loop (wk s) → step_ok s (Ret s').
Proof.
  intros (Hc & He & Hw & Hb) Hu H1 H2. exists s'. split; [done|]. rw /life_ok /frozen H1 H2. split; [|done]. by split_and!.
Qed.

Lemma task_step_ok x s r : life_ok s → task_step x s = Some r → step_ok s r.
Proof.
  intros Hs. rw /task_step. destruct x as [| | | | | | | |k|k m shard st|k| | | | | |]; try done;
    destruct (task_loops (wk s) !! k) as [[l b]|] eqn:Hk; try done; destruct l; try done; repeat case_match; intros; simplify_eq;
    (apply inner_step_ok; [done|eapply alive_task; [done|exact Hk|done]|done..]).
Qed.

Lemma result_step_ok x s r : life_ok s → result_step x s = Some r → step_ok s r.
Proof.
  intros Hs. rw /result_step. pose proof (alive_result s Hs) as Ha. destruct (result_loop (out s)) eqn:Hl, x; try done;
    repeat case_match; intros; simplify_eq; (apply inner_step_ok; [done|by apply Ha|done..]).
Qed.

Lemma exec_ok x s r : life_ok s → exec x s = Some r → step_ok s r.
Proof.
  intros Hs. destruct x; cbn [exec]; try (by apply update_step_ok); try (by apply work_step_ok); try (by apply task_step_ok);
    try (by apply result_step_ok); [|by apply close_step_ok].
  destruct s as [[u c m w cc] k o]. destruct Hs as (Hc & He & Hw & Hb). cbn in *.
  destruct c; try done. intros; simplify_eq. destruct u, m, w, cc; try done; (eexists; split; [reflexivity|]); (split; [by split_and!|by intros ?]).
Qed.

(** ** What is left to do *)

Definition upd_work (u : updater) : nat :=
  match u with USelect => 2 | USend _ => 4 + threads | UClosing => 1 | UEnded => 0 end.
Definition closer_work (c : mcloser) : nat := match c with CStop => 3 | CExit => 2 | CWait => 1 | _ => 0 end.
Definition result_work (l : looper) : nat := match l with LSelect => 1 | LBusy => 3 | LEnded => 0 end.
Definition task_work (l : looper * bool) : nat :=
  match l.1 with LSelect => 1 | LBusy => 8 | LEnded => 0 end + (if l.2 then 8 else 0).

Definition to_do (s : mlife) : nat :=
  upd_work (upd (ctl s)) + closer_work (closer (ctl s)) +
  (match work_loop (wk s) with LEnded => 0 | _ => 1 end + length (startCh (wk s)) * (1 + threads) + sum_list_with task_work (task_loops (wk s))) +
  (result_work (result_loop (out s)) + 3 * results (out s) + (if token (out s) then 1 else 0) + errs (out s)).

(** The steps without new events, heads, timers and calls. *)
Definition quiet (x : mlabel) : bool :=
  match x with ShardDone _ | CloseCall | Head _ | SaveTick _ => false | _ => true end.

Lemma sum_replicate {A} (f : A → nat) n x : sum_list_with f (replicate n x) = n * f x.
Proof. induction n as [|n IH]; [done|]. cbn [replicate sum_list_with]. lia. Qed.

#[local] Ltac calc := cbn -[Nat.mul sum_list_with].

Lemma miner_quiet_work x s s' : quiet x = true → exec x s = Some (Ret s') → to_do s' < to_do s.
Proof.
  intros Hq. destruct s as [[u c m w cc] [wl st tl] [rl n t e sub mi d]]. rw /to_do.
  destruct x as [| | | | | | | |k|k r shard sta|k| | | | | |]; try done; rw /exec /work_step /result_step /close_step; calc.
  - destruct u, st; try done; intros [= <-]; calc; lia.
  - destruct u, m, w; try done. intros [= <-]. calc. lia.
  - rw /close_worker; calc. destruct u; try done. case_match; [|done]. case_match; [done|]. intros [= <-]. calc. lia.
  - destruct wl, st; try done. intros [= <-]. calc. rw sum_list_with_app sum_replicate. calc. lia.
  - destruct wl, w; try done. intros [= <-]. calc. lia.
  - destruct (tl !! k) as [[[] []]|] eqn:Hk; try done. intros [= <-]. calc.
    pose proof (sum_list_with_insert task_work tl k _ (LBusy, false) Hk) as Hi. cbn in Hi. lia.
  - destruct (tl !! k) as [[[] b]|] eqn:Hk; try done. intros [= <-]. calc.
    pose proof (sum_list_with_insert task_work tl k _ (LSelect, b) Hk) as Hi. cbn in Hi. destruct r, t; calc; repeat case_match; lia.
  - destruct (tl !! k) as [[[] b]|] eqn:Hk; try done. destruct w; try done. intros [= <-]. calc.
    pose proof (sum_list_with_insert task_work tl k _ (LEnded, b) Hk) as Hi. cbn in Hi. lia.
  - destruct rl, t; try done. destruct n; intros [= <-]; calc; lia.
  - destruct rl, t; try done; intros [= <-]; calc; lia.
  - destruct rl, e; try done. intros [= <-]; calc. lia.
  - destruct rl, w; try done. intros [= <-]; calc. lia.
  - destruct c, u, m; try done; intros [= <-]; calc; lia.
Qed.

Inductive quiet_run : nat → mlife → mlife → Prop :=
| quiet_0 s : quiet_run 0 s s
| quiet_S n x s s1 s' : quiet x = true → exec x s = Some (Ret s1) → quiet_run n s1 s' → quiet_run (S n) s s'.

Definition stuck (s : mlife) : Prop := ∀ x, quiet x = true → exec x s = None.

(** A state of [update] and [Close] in which a step is possible. *)
Lemma stuck_loops s : life_ok s → stuck s → w_exit (ctl s) = true → loops_ended s = true.
Proof.
  intros (_ & _ & _ & Hb) Hst Hw. apply loops_ended_true. split_and!.
  - pose proof (Hst WorkExit eq_refl) as H. cbn in H. rw /work_step Hw in H. by destruct (work_loop (wk s)).
  - pose proof (Hst ResultExit eq_refl) as H. cbn in H. rw /result_step Hw in H.
    pose proof (Hst (Submit 0 (inr []) 0) eq_refl) as H'. cbn in H'. rw /result_step in H'. by destruct (result_loop (out s)).
  - intros k [l b] Hk. pose proof (Hst (TaskExit k) eq_refl) as H. cbn in H. rw Hk Hw in H.
    pose proof (Hst (MineItem k Nothing 0 (mkMiningState 0 0)) eq_refl) as H'. cbn in H'. rw Hk in H'. by destruct l.
Qed.

Lemma stuck_closer s : life_ok s → stuck s → closer (ctl s) = CNone ∨ closer (ctl s) = CReturned.
Proof.
  intros Hs Hst. pose proof (stuck_loops s Hs Hst) as Hl. destruct Hs as (Hc & _ & Hw & Hb).
  pose proof (Hst CloseStep eq_refl) as H1. pose proof (Hst SeeExit eq_refl) as H2. pose proof (Hst SendShard eq_refl) as H3.
  pose proof (Hst StartShard eq_refl) as H4. pose proof (Hst (WorkerClosed (λ _, None)) eq_refl) as H5.
  destruct s as [[u c m w cc] [wl st tl] o]. cbn in *. rw /close_step in H1. rw /work_step in H4. cbn in *.
  destruct c; [by left| | | |by right]; destruct u, m, w, cc; try done; cbn in *;
    try (destruct st; [done|]; destruct wl; [done|done|by specialize (Hw eq_refl)]).
  by rw (Hl eq_refl) in H5.
Qed.

Lemma New_ok w d : life_ok (New w d).
Proof. by split_and!. Qed.

Lemma miner_steps_ok s s' : life_ok s → rtc mlife_step s s' → life_ok s' ∧ frozen s s'.
Proof.
  intros Hs Hr. induction Hr as [s|s1 s2 s3 [x Hx] _ IH]; [by split; [|intros ?]|].
  destruct (exec_ok x s1 _ Hs Hx) as (s2' & [= <-] & H2 & Hf). destruct (IH H2) as [H3 Hf']. split; [done|].
  intros Hu. destruct (Hf Hu) as (Hu2 & <- & <-). by apply Hf'.
Qed.

Lemma quiet_ok n s s' : life_ok s → quiet_run n s s' → life_ok s' ∧ n ≤ to_do s.
Proof.
  intros Hs Hq. induction Hq as [s|n x s s1 s' Hq Hx _ IH]; [by split; [|lia]|].
  destruct (exec_ok x s _ Hs Hx) as (s1' & [= <-] & H1 & _). destruct (IH H1) as [? ?]. pose proof (miner_quiet_work x s s1 Hq Hx). split; [done|lia].
Qed.

(** C28: the miner can always be closed.  No step panics: a task channel is closed only when every loop that could use it has
    ended, and only once.  Without new events, heads and timers only so many steps are possible, and when none is left a
    call of [Close] has returned; when it has, all loops have ended. *)
Theorem miner_closes w d s : rtc mlife_step (New w d) s →
  (∀ x r, exec x s = Some r → ∃ s', r = Ret s') ∧
  (∀ n s', quiet_run n s s' → n ≤ to_do s ∧ (stuck s' → closer (ctl s') = CNone ∨ closer (ctl s') = CReturned)) ∧
  (closer (ctl s) = CReturned → loops_ended s = true ∧ chs_closed (ctl s) = true).
Proof.
  intros Hr. destruct (miner_steps_ok _ _ (New_ok w d) Hr) as [Hs _]. split_and!.
  - intros x r Hx. destruct (exec_ok x s r Hs Hx) as (s' & -> & _). by exists s'.
  - intros n s' Hq. destruct (quiet_ok n s s' Hs Hq) as [Hs' Hn]. split; [done|]. by apply stuck_closer.
  - intros Hc. destruct Hs as (Ho & He & _). destruct s as [[u c m w' cc] k o]. cbn in *. subst c.
    destruct u, m, w', cc; try done. split; [by apply He|done].
Qed.

Lemma saveStates_load `{!StateJsonLaws J} put sub min d b : MarshalSub sub = Ret b → put SubmissionStatusKey = None →
  load_states (saveStates put sub min d) = sub.
Proof.
  intros Hb Hp. have H : load_states (<[SubmissionStatusKey := b]> d) = sub by rw /load_states lookup_insert_eq (MarshalSub_read sub b Hb).
  rw /saveStates Hb Hp. destruct (MarshalMin min) as [b'| |]; try done. destruct (put MiningStatusKey); [done|].
  rw /load_states lookup_insert_ne //.
Qed.

(** C29: the statistics of submitted, failed and dropped results survive a restart: what the worker saves when it is closed is what
    it has counted in its whole run, nothing changes it afterwards, and the worker of the next start begins with the
    counts of each of its shards. *)
Theorem statistics_survive `{!StateJsonLaws J} w d s put s1 s2 b cfg eb sb miners shards i :
  rtc mlife_step (New w d) s → exec (WorkerClosed put) s = Some (Ret s1) → rtc mlife_step s1 s2 →
  MarshalSub (sub_states (out s)) = Ret b → put SubmissionStatusKey = None → NoDup shards → i ∈ shards →
  sub_states (out s2) = sub_states (out s) ∧
  submissionStates (newWorker cfg eb sb miners shards (load_states (db (out s2)))) !! i =
    Some (default (mkSubmissionState 0 0 0 0) (sub_states (out s2) !! i)).
Proof.
  intros Hr Hx Hr2 Hb Hp Hnd Hi. destruct (miner_steps_ok _ _ (New_ok w d) Hr) as [Hs _].
  destruct (exec_ok _ s _ Hs Hx) as (s1' & [= <-] & Hs1 & _). destruct (miner_steps_ok _ _ Hs1 Hr2) as [_ Hf].
  cbn in Hx. destruct (upd (ctl s)); try done. case_match; [|done]. rw /close_worker in Hx. case_match; [done|]. injection Hx as <-.
  destruct (Hf eq_refl) as (_ & _ & ->). cbn. rw (saveStates_load put _ _ _ b Hb Hp). split; [done|].
  apply elem_of_list_to_map_1; [by rw -list_fmap_compose list_fmap_id|]. apply list_elem_of_fmap. by exists i.
Qed.
End threads.
End life.

(** ** A run: two results, one submitted and one refused, and a close while a task is mined *)

Definition flat (x : Z * SubmissionState) : list Z := [x.1; Submitted x.2; Failed x.2; Dropped x.2; LastSubmittedTime x.2].
Fixpoint unflat (fuel : nat) (l : list Z) : list (Z * SubmissionState) :=
  match fuel, l with
  | S fuel, k :: a :: b :: c :: d :: l => (k, mkSubmissionState a b c d) :: unflat fuel l
  | _, _ => []
  end.

#[local] Instance toy_json : StateJson := {|
  MarshalSub m := Ret (map_to_list m ≫= flat);
  UnmarshalSub b := (list_to_map (unflat (length b) b), None);
  MarshalMin m := Ret [] |}.

Lemma unflat_flat l fuel : length l ≤ fuel → unflat fuel (l ≫= flat) = l.
Proof.
  revert fuel. induction l as [|[k st] l IH]; intros [|fuel] Hl; cbn in *; try done; [lia|]. rw IH; [lia|]. by destruct st.
Qed.

#[local] Instance toy_json_laws : StateJsonLaws toy_json.
Proof.
  split. intros m b [= <-]. cbn. rw unflat_flat; [|by rw list_to_map_to_list].
  induction (map_to_list m) as [|x l IH]; cbn; lia.
Qed.

Fixpoint exec_all (threads : nat) (xs : list mlabel) (s : mlife) : option mlife :=
  match xs with
  | [] => Some s
  | x :: xs => match exec threads x s with Some (Ret s') => exec_all threads xs s' | _ => None end
  end.

Lemma miner_exec_all threads xs s s' : exec_all threads xs s = Some s' → rtc (mlife_step threads) s s'.
Proof.
  revert s. induction xs as [|x xs IH]; intros s; cbn; [intros [= ->]; apply rtc_refl|].
  destruct (exec threads x s) as [[s1| |]|] eqn:E; try done. intros H. eapply rtc_l; [exists x; exact E|by apply IH].
Qed.

Definition toy_worker : worker := newWorker (mkConfig 12 2 10 1 60 1024 2) 2 17 ∅ [3%Z] ∅.
Definition toy_st : MiningState := mkMiningState 5 6.
Definition toy_mining : list mlabel :=
  [ShardDone 3; SendShard; StartShard; Head [0; 1]; TakeItem 0; TakeItem 1; MineItem 0 FoundOne 3 toy_st; TakeResult;
   Submit 3 (inr []) 99; TakeResult; Head [0]; TakeItem 0; CloseCall; CloseStep; CloseStep; SeeExit;
   MineItem 1 FoundOne 3 toy_st; TakeResult; Submit 3 (inl (ErrMsg "refused")) 100; ResultExit; WorkExit; TaskExit 1;
   MineItem 0 Nothing 3 toy_st; TaskExit 0].
Definition no_put_error : string → option error := λ _, None.

Lemma miner_closes_witness : ∃ s, exec_all 2 (toy_mining ++ [WorkerClosed no_put_error; CloseStep]) (New toy_worker ∅) = Some s ∧
  closer (ctl s) = CReturned ∧ loops_ended s = true ∧ chs_closed (ctl s) = true.
Proof.
  eexists. split; [vm_compute; reflexivity|]. split; [done|]. refine (proj2 (proj2 (miner_closes 2 toy_worker ∅ _ _)) _).
  - apply (miner_exec_all 2 (toy_mining ++ [WorkerClosed no_put_error; CloseStep])). vm_compute. reflexivity.
  - reflexivity.
Defined.

Lemma statistics_survive_witness : ∃ s s1 s2,
  exec_all 2 toy_mining (New toy_worker ∅) = Some s ∧ exec 2 (WorkerClosed no_put_error) s = Some (Ret s1) ∧
  exec_all 2 [CloseStep] s1 = Some s2 ∧
  sub_states (out s2) = sub_states (out s) ∧
  submissionStates (newWorker (w_config toy_worker) 2 17 ∅ [3%Z] (load_states (db (out s2)))) !! 3%Z =
    Some (default (mkSubmissionState 0 0 0 0) (sub_states (out s2) !! 3%Z)).
Proof.
  eexists _, _, _. split; [vm_compute; reflexivity|]. split; [vm_compute; reflexivity|]. split; [vm_compute; reflexivity|].
  refine (statistics_survive 2 toy_worker ∅ _ no_put_error _ _ _ (w_config toy_worker) 2 17 ∅ [3%Z] 3%Z _ _ _ _ _ _ _).
  - apply (miner_exec_all 2 toy_mining). vm_compute. reflexivity.
  - vm_compute. reflexivity.
  - apply (miner_exec_all 2 [CloseStep]). vm_compute. reflexivity.
  - reflexivity.
  - reflexivity.
  - apply NoDup_singleton.
  - by apply list_elem_of_singleton.
Defined.
