(* ===== verification/MiningTx.v ===== *)
(** * The mining transaction (ethstorage/miner/l1_mining_api.go)

    A mined result becomes a transaction of the storage contract: its gas price is
    suggested or configured, the transaction is dropped when it would not pay, and
    the fee is kept under the limit of the nodes.  The L1 client, the signer and the
    ABI encoder are oracles; the state is the list of the transactions sent. *)

From S2P Require Import Prelude Extern DataFile ChunkCodec Miner.

(** ** Floating point

    [round53 m] is the [float64] nearest to [m], ties to even: the product of two
    floats is rounded in the same way, wherever the point is. *)
Definition round53 (m : Z) : Z :=
  let s := Z.log2 m - 52 in
  if s <=? 0 then m
  else
    let q := Z.shiftr m s in
    let r := m - Z.shiftl q s in
    let half := Z.shiftl 1 (s - 1) in
    if (half <? r) || ((r =? half) && Z.odd q) then Z.shiftl (q + 1) s else Z.shiftl q s.

(** [gasBufferRatio] = 1.2 is [gasBufferRatio_mantissa] / 2^52. *)
Definition gasBufferRatio_mantissa : Z := 5404319552844595.
Definition safe_gas (estimatedGas : Z) : Z :=
  wrap64 (Z.shiftr (round53 (round53 estimatedGas * gasBufferRatio_mantissa)) 52).

(** ** Configuration and oracles *)

(** [None] is a nil [*big.Int]. *)
Record TxConfig := mkTxConfig {
  tc_GasPrice : option Z; tc_PriorityGasPrice : option Z; tc_MinimumProfit : Z; tc_MaxGasPrice : option Z
}.

Record tx := mkTx { tx_nonce : Z; tx_tip : option Z; tx_feeCap : Z; tx_gas : Z; tx_data : bytes }.

(** [l2] is whether the node has a RANDAO client, so that the contract is on an L2. *)
Class MinerL1 := {
  l2 : bool;
  (** [HeaderByNumber(ctx, blockNumber)] and [rlp.EncodeToBytes] *)
  HeaderRlp : bool → Z → gores bytes;
  (** the base fee of the latest header *)
  LatestBaseFee : gores (option Z);
  SuggestGasTipCap : gores Z;
  EstimateGasAtBlock : option Z → Z → bytes → gores Z;
  PendingNonceAt : gores Z;
  GetL1Fee : tx → gores Z;
  GetMiningReward : Z → Z → gores Z;
  (** the [abi] encoding of the arguments of [mine], and the signature of [mine] *)
  PackMine : result → bytes → bytes;
  mineSig : bytes;
  (** the hash of the signed transaction *)
  sign : tx → gores bytes;
  SendTransaction : tx → gores unit;
  GetKvMetas : list Z → gores (list bytes);
  GetContractVersion : gores string;
  (** [semver.Compare(v, versionMineRoleEnabled) == -1] *)
  version_before_roles : string → bool;
  ReadContractField : string → gores bytes;
  hasMinerRole : bytes → gores bytes;
  (** the answer of the [k]-th query: whether the transaction is pending, [None] an error *)
  TransactionByHash : nat → bytes → option bool;
  TransactionReceipt : bytes → option (Z * list (list bytes * bytes));
  minedEventSig : bytes }.

Section mining_tx.
Context `{GE : Geth} `{ML : MinerL1}.

(** ** Queries *)

Definition CheckMinerRole (miner : bytes) : gores unit :=
  match GetContractVersion with
  | Fail e => Fail (ErrWrap "failed to get contract version" e)
  | Panic p => Panic p
  | Ret version =>
      if version_before_roles version then mret tt
      else
        match ReadContractField "enforceMinerRole" with
        | Fail e => Fail (ErrWrap "failed to query enforceMinerRole()" e)
        | Panic p => Panic p
        | Ret enforced =>
            if wrap64 (be_decode enforced) =? 1 then
              match hasMinerRole miner with
              | Fail e => Fail (ErrWrap "failed to query hasMinerRole()" e)
              | Panic p => Panic p
              | Ret r => if wrap64 (be_decode r) =? 1 then mret tt else Fail (ErrMsg "miner role not granted")
              end
            else mret tt
        end
  end.

(** The hashes in the metas, padded to 32 bytes. *)
Definition GetDataHashes_l1 (kvIdxes : list Z) : gores (list bytes) :=
  metas ← GetKvMetas kvIdxes;
  foldM (λ hashes meta, h ← slice meta (32 - HashSizeInContract) 32; mret (hashes ++ [go_copy (zeros 32) h]))
    [] metas.

(** ** Gas prices *)

(** A tip of zero when none is suggested. *)
Definition from_suggestion : gores Z :=
  match SuggestGasTipCap with Fail _ => Ret 0 | r => r end.

(** Nothing is configured: [tip + 2*baseFee]. *)
Definition suggested_prices (cfg : TxConfig) : gores (option Z * option Z * Z * bool) :=
  baseFee ← LatestBaseFee;
  tip ← match tc_PriorityGasPrice cfg with
        | Some t => if t =? 0 then from_suggestion else mret t
        | None => from_suggestion
        end;
  match baseFee with
  | Some b => mret (Some tip, baseFee, b * 2 + tip, false)
  | None => Panic NilPointer
  end.

(** The tip, the base fee, the fee cap, and whether the cap is configured. *)
Definition suggestGasPrices (cfg : TxConfig) : gores (option Z * option Z * Z * bool) :=
  match tc_GasPrice cfg with
  | Some gasFeeCap =>
      if gasFeeCap =? 0 then suggested_prices cfg
      else mret (tc_PriorityGasPrice cfg, None, gasFeeCap, true)
  | None => suggested_prices cfg
  end.

(** Adjust the price to the reward, the costs and the limit of the nodes. *)
Definition ether : Z := 10 ^ 18.
Definition txFeeCapDefaultL2 : Z := 1000 * ether.

Definition checkGasPrice (unsignedTx : tx) (rst : result) (minProfit gasFeeCap : Z) (baseFee : option Z)
    (estimatedGas safeGas : Z) (useL2 useConfig : bool) : gores Z :=
  extraCost ← (if useL2 then l1fee ← catch (GetL1Fee unsignedTx);
                             mret (match l1fee with inr x => x | inl _ => 0 end)
               else mret 0);
  reward ← catch (GetMiningReward (startShardId rst) (rs_timestamp rst));
  gasFeeCapChecked ←
    match reward with
    | inl _ => mret gasFeeCap
    | inr reward =>
        let txCostCap := reward - minProfit - extraCost in
        profitableGasFeeCap ← bigDiv txCostCap estimatedGas;
        gasPrice ← match baseFee with Some b => mret (gasFeeCap - b) | None => Panic NilPointer end;
        if profitableGasFeeCap <? gasPrice then Fail (ErrDropped "not enough profit")
        else mret (if useConfig then gasFeeCap else profitableGasFeeCap)
    end;
  let txFeeCapDefault := if useL2 then txFeeCapDefaultL2 else ether in
  if txFeeCapDefault <? safeGas * gasFeeCapChecked then bigDiv txFeeCapDefault safeGas
  else mret gasFeeCapChecked.

(** ** The transaction *)

Definition getRandaoProof (blockNumber : Z) : gores bytes := HeaderRlp l2 blockNumber.

Definition composeCalldata (rst : result) : gores bytes :=
  headerRlp ← getRandaoProof (rs_blockNumber rst);
  sig ← slice mineSig 0 4;
  mret (sig ++ PackMine rst headerRlp).

Definition SubmitMinedResult_l1 (rst : result) (cfg : TxConfig) : ST (list tx) bytes :=
  calldata ← st_lift (composeCalldata rst);
  '(tip, baseFee, gasFeeCap, useConfig) ← st_lift (suggestGasPrices cfg);
  if match tc_MaxGasPrice cfg with Some m => (0 <? m) && (m <? gasFeeCap) | None => false end
  then st_lift (Fail (ErrDropped "gas price exceeds the configured max"))
  else
    estimatedGas ← st_lift (match EstimateGasAtBlock tip gasFeeCap calldata with
                            | Fail _ => Fail (ErrMsg "failed to estimate gas")
                            | r => r
                            end);
    nonce ← st_lift PendingNonceAt;
    let safeGas := safe_gas estimatedGas in
    let unsignedTx := mkTx nonce tip gasFeeCap safeGas calldata in
    gasFeeCapChecked ← st_lift (checkGasPrice unsignedTx rst (tc_MinimumProfit cfg) gasFeeCap baseFee
                                  estimatedGas safeGas l2 useConfig);
    let unsignedTx := mkTx nonce tip gasFeeCapChecked safeGas calldata in
    hash ← st_lift (sign unsignedTx);
    _ ← st_lift (SendTransaction unsignedTx);
    sent ← st_get;
    _ ← st_put (sent ++ [unsignedTx]);
    mret hash.

(** ** What became of it (worker.go) *)

Inductive txStatus := txStatusFailure | txStatusSuccess | txStatusTimeout | txStatusDropped.

(** The reward is in the first log of a mined block. *)
Fixpoint receipt_reward (logs : list (list bytes * bytes)) : gores (option Z) :=
  match logs with
  | [] => mret None
  | (topics, data) :: logs =>
      topic ← index topics 0;
      if bool_decide (topic = minedEventSig) then d ← slice data 64 (zlen data); mret (Some (be_decode d))
      else receipt_reward logs
  end.

Definition checkTxStatus (receipt : option (Z * list (list bytes * bytes))) : gores bool :=
  match receipt with
  | None => mret false
  | Some (status, logs) => if status =? 1 then _ ← receipt_reward logs; mret true else mret false
  end.

Definition miningTransactionTimeout : nat := 50.

(** [TransactionByHash] is asked every second: [Some false] is an answer that the
    transaction is no longer pending. *)
Fixpoint checkTx_loop (n : nat) (k : nat) (txHash : bytes) : gores txStatus :=
  let pending := match TransactionByHash k txHash with Some isPending => isPending | None => true end in
  if negb pending then
    success ← checkTxStatus (TransactionReceipt txHash);
    mret (if (success : bool) then txStatusSuccess else txStatusFailure)
  else
    match n with
    | O => mret txStatusTimeout
    | Datatypes.S n => checkTx_loop n (Datatypes.S k) txHash
    end.

Definition checkTxStatusRepeatedly (txHash : bytes) : gores txStatus :=
  checkTx_loop miningTransactionTimeout 0 txHash.

Definition reportMiningResult (x : error + bytes) : gores txStatus :=
  match x with
  | inl e => mret (if as_dropped e then txStatusDropped else txStatusFailure)
  | inr txHash => if bool_decide (txHash = zeros 32) then mret txStatusFailure else checkTxStatusRepeatedly txHash
  end.

End mining_tx.

(** ** Facts *)

(** The rounding error is at most half a unit of the last place. *)
Lemma round53_near m : 0 < m → 2 ^ 53 * Z.abs (round53 m - m) ≤ m.
Proof.
  intros Hm. have [Hl _] := Z.log2_spec m Hm. have H0 := Z.log2_nonneg m. rw /round53.
  set s := Z.log2 m - 52. case: Z.leb_spec => Hs; [rw Z.sub_diag; lia|].
  rw !Z.shiftl_mul_pow2; [lia..|]. rw Z.shiftr_div_pow2; [lia|]. set q := m / 2 ^ s.
  have Hdm : m = 2 ^ s * q + m mod 2 ^ s by apply Z.div_mod; lia.
  have Hr := Z.mod_pos_bound m (2 ^ s) ltac:(lia). set r := m mod 2 ^ s in Hdm Hr.
  have Er : m - q * 2 ^ s = r by lia. rw Er Z.mul_1_l.
  have E2 : 2 ^ s = 2 * 2 ^ (s - 1) by rw -(Z.pow_succ_r 2 (s - 1)); [lia|f_equal; lia].
  have E3 : 2 ^ Z.log2 m = 2 ^ 53 * 2 ^ (s - 1) by rw -Z.pow_add_r; [lia..|f_equal; lia].
  set h := 2 ^ (s - 1) in E2 E3 *.
  have Hd : Z.abs ((if (h <? r) || ((r =? h) && Z.odd q) then (q + 1) * 2 ^ s else q * 2 ^ s) - m) ≤ h.
  { case: Z.ltb_spec => ?; [rw /=; lia|]. case: Z.eqb_spec => ?; [destruct (Z.odd q)|]; rw /=; lia. }
  lia.
Qed.

(** The gas limit leaves a fifth more than the estimate. *)
Lemma safe_gas_bounds g : 0 ≤ g < 2 ^ 52 → g ≤ safe_gas g ≤ 6 * g / 5 + 1.
Proof.
  intros Hg. destruct (decide (g = 0)) as [->|Hn]; [by vm_compute|].
  have E : round53 g = g.
  { rw /round53. have := Z.log2_lt_pow2 g 52 ltac:(lia). case: Z.leb_spec; lia. }
  have Hr := round53_near (g * gasBufferRatio_mantissa) ltac:(unfold gasBufferRatio_mantissa; lia).
  rw /safe_gas E. rw Z.shiftr_div_pow2; [lia|]. set x := round53 _ in Hr *. unfold gasBufferRatio_mantissa in Hr.
  have H1 : g ≤ x / 2 ^ 52 by apply Z.div_le_lower_bound; lia.
  have H2 : x / 2 ^ 52 ≤ 6 * g / 5 + 1.
  { have : x < 2 ^ 52 * (6 * g / 5 + 2); [|intros; apply Z.lt_succ_r, Z.div_lt_upper_bound; lia].
    have := Z.div_mod (6 * g) 5 ltac:(lia). have := Z.mod_pos_bound (6 * g) 5 ltac:(lia). lia. }
  rw wrap64_small; [|lia]. unfold two64. have := Z.div_le_upper_bound (6 * g) 5 (2 * g) ltac:(lia) ltac:(lia). lia.
Qed.

Section facts.
Context `{GE : Geth} `{ML : MinerL1}.

(** What the transaction costs beside its gas. *)
Definition extra_cost (t : tx) (useL2 : bool) : Z :=
  if useL2 then match GetL1Fee t with Ret x => x | _ => 0 end else 0.

Definition fee_limit (useL2 : bool) : Z := if useL2 then txFeeCapDefaultL2 else ether.

Lemma fee_limit_nonneg useL2 : 0 ≤ fee_limit useL2.
Proof. by destruct useL2. Qed.

(** The cap that is left by the limit of the nodes. *)
Lemma limited_cap safeGas cap useL2 : 0 ≤ safeGas →
  ∃ c, (if fee_limit useL2 <? safeGas * cap then bigDiv (fee_limit useL2) safeGas else Ret cap) = Ret c ∧
       safeGas * c ≤ fee_limit useL2 ∧ c ≤ cap.
Proof.
  intros Hs. have Hf := fee_limit_nonneg useL2. case: Z.ltb_spec => H; [|by exists cap; split_and!; [done|lia|lia]].
  have Hs' : safeGas ≠ 0 by intros ->; lia. have Hm := Z.mul_div_le (fee_limit useL2) safeGas ltac:(lia).
  exists (fee_limit useL2 / safeGas). rw bigDiv_pos; [lia|]. split_and!; [done|lia|]. apply Z.div_le_upper_bound; lia.
Qed.

(** A price per gas is within the profitable cap when the profit is enough. *)
Lemma profitable reward minProfit extra gas price : 0 < gas →
  price ≤ (reward - minProfit - extra) / gas ↔ minProfit ≤ reward - extra - gas * price.
Proof.
  intros Hg. have Hm := Z.mul_div_le (reward - minProfit - extra) gas Hg. split; intros H; [nia|].
  apply Z.div_le_lower_bound; lia.
Qed.

(** The price check: when the reward is known, the transaction is dropped
    exactly when even at the cheapest price (the base fee and the tip) the profit
    is below the configured minimum; otherwise the cap that is returned keeps the
    fee under the limit of the nodes and, when the price is not configured, paying
    it in full still leaves the minimum profit. *)
Theorem checkGasPrice_spec t rst minProfit gasFeeCap baseFee gas safeGas useL2 useConfig reward :
  0 < gas → 0 ≤ safeGas → (∀ p, GetL1Fee t ≠ Panic p) →
  GetMiningReward (startShardId rst) (rs_timestamp rst) = Ret reward →
  let profit price := reward - extra_cost t useL2 - gas * price in
  if decide (profit (gasFeeCap - baseFee) < minProfit)
  then checkGasPrice t rst minProfit gasFeeCap (Some baseFee) gas safeGas useL2 useConfig
         = Fail (ErrDropped "not enough profit")
  else ∃ cap, checkGasPrice t rst minProfit gasFeeCap (Some baseFee) gas safeGas useL2 useConfig = Ret cap ∧
         safeGas * cap ≤ fee_limit useL2 ∧
         (if useConfig then cap ≤ gasFeeCap else minProfit ≤ profit cap).
Proof.
  intros Hg Hs Hp Hr profit.
  have HE : (if useL2 then l1fee ← catch (GetL1Fee t); mret (match l1fee with inr x => x | inl _ => 0 end) else mret 0)
            = Ret (extra_cost t useL2).
  { rw /extra_cost. destruct useL2; [|done]. by destruct (GetL1Fee t) as [|?|p] eqn:E; [..|destruct (Hp p)]. }
  rw /checkGasPrice HE /= Hr /=. set extra := extra_cost t useL2 in profit *.
  rw (bigDiv_pos _ gas) //.
  cbn [mbind gores_bind mret gores_ret]. set cap := (reward - minProfit - extra) / gas.
  have HP price : price ≤ cap ↔ minProfit ≤ profit price by apply profitable.
  case_decide as Hd.
  - rw (proj2 (Z.ltb_lt _ _)) //. apply Z.lt_nge. rw HP. lia.
  - rw (proj2 (Z.ltb_ge _ _)); [apply HP; lia|]. cbn [mbind gores_bind mret gores_ret].
    destruct (limited_cap safeGas (if useConfig then gasFeeCap else cap) useL2 Hs) as (c & H1 & H2 & H3).
    exists c. split_and!; [exact H1|done|]. destruct useConfig; [done|]. by apply HP.
Qed.

(** With a configured gas price and a reward that the contract answers, the
    submission never gets to a transaction: the base fee was not queried and the
    price check dereferences it. *)
Theorem SubmitMinedResult_configured_panics rst cfg p calldata gas nonce reward sent :
  tc_GasPrice cfg = Some p → p ≠ 0 →
  (∀ m, tc_MaxGasPrice cfg = Some m → m = 0 ∨ p ≤ m) →
  composeCalldata rst = Ret calldata → EstimateGasAtBlock (tc_PriorityGasPrice cfg) p calldata = Ret gas →
  gas ≠ 0 → PendingNonceAt = Ret nonce → (∀ t p, GetL1Fee t ≠ Panic p) →
  GetMiningReward (startShardId rst) (rs_timestamp rst) = Ret reward →
  SubmitMinedResult_l1 rst cfg sent = (Panic NilPointer, sent).
Proof.
  intros Hp Hp0 Hm Hc HG Hg Hn HF HR.
  rw /SubmitMinedResult_l1 /mbind /st_bind /st_lift Hc /suggestGasPrices Hp (proj2 (Z.eqb_neq _ _) Hp0) /=.
  have -> : (match tc_MaxGasPrice cfg with Some m => (0 <? m) && (m <? p) | None => false end) = false.
  { destruct (tc_MaxGasPrice cfg) as [m|]; [|done]. destruct (Hm m eq_refl) as [->|]; [done|].
    rw (proj2 (Z.ltb_ge m p)) //. apply andb_false_r. }
  rw HG Hn /checkGasPrice HR. set t := mkTx _ _ _ _ _.
  have HE : ∃ x, (if l2 then l1fee ← catch (GetL1Fee t); mret (match l1fee with inr x => x | inl _ => 0 end)
                  else mret 0) = Ret x.
  { destruct l2; [|by eexists]. by destruct (GetL1Fee t) as [|?|q] eqn:E; [eexists..|destruct (HF t q)]. }
  destruct HE as [x ->]. simpl. rw /bigDiv (proj2 (Z.eqb_neq _ _) Hg). done.
Qed.

Lemma checkGasPrice_ret t rst minProfit gasFeeCap baseFee gas safeGas useL2 useConfig cap :
  0 < gas → 0 ≤ safeGas →
  checkGasPrice t rst minProfit gasFeeCap baseFee gas safeGas useL2 useConfig = Ret cap →
  safeGas * cap ≤ fee_limit useL2 ∧
  (∀ reward, GetMiningReward (startShardId rst) (rs_timestamp rst) = Ret reward →
    is_Some baseFee ∧ (useConfig = false → minProfit ≤ reward - extra_cost t useL2 - gas * cap)) ∧
  (∀ e, GetMiningReward (startShardId rst) (rs_timestamp rst) = Fail e → cap ≤ gasFeeCap).
Proof.
  intros Hg Hs. rw /checkGasPrice.
  have HE : ∀ x, (if useL2 then l1fee ← catch (GetL1Fee t); mret (match l1fee with inr x => x | inl _ => 0 end)
                  else mret 0) = Ret x → x = extra_cost t useL2.
  { intros x. rw /extra_cost. destruct useL2; [|by intros [= <-]]. by destruct (GetL1Fee t) => // -[= <-]. }
  destruct (if useL2 then _ else _) as [x| |]; [|done..]. rw -(HE x eq_refl). clear HE.
  cbn [mbind gores_bind mret gores_ret].
  destruct (GetMiningReward _ _) as [rw| |]; [| |done]; cbn [catch mbind gores_bind mret gores_ret].
  - rw (bigDiv_pos _ gas) //. cbn [mbind gores_bind mret gores_ret].
    destruct baseFee as [b|]; [|done]. cbn [mbind gores_bind mret gores_ret]. case: Z.ltb_spec => // Hp.
    cbn [mbind gores_bind mret gores_ret]. set c0 := if useConfig then _ else _.
    destruct (limited_cap safeGas c0 useL2 Hs) as (c & H1 & H2 & H3). rw /fee_limit in H1. rw H1. intros [= ->].
    split_and!; [done| |done]. intros reward [= <-]. split; [done|]. intros E. rw /c0 E in H3. by apply profitable.
  - destruct (limited_cap safeGas gasFeeCap useL2 Hs) as (c & H1 & H2 & H3). rw /fee_limit in H1. rw H1.
    intros [= ->]. by split_and!.
Qed.

(** C10: what is sent.  A submission that returns a hash has sent exactly one
    transaction, the one that was signed: the call of [mine] for the result, with
    the nonce and the tip that were queried, and the gas that the node estimated
    for this call at the suggested price, raised by the buffer.  The suggested
    price was not over the configured maximum, and the fee of the transaction is
    not over the limit of the nodes.  If the query of the reward succeeded, the
    estimated gas at the full price and the L1 fee of the transaction with the
    suggested price (on an L2, when that query succeeded) leave the minimum profit;
    if it failed, there is no such guarantee, and the price is at most the suggested
    one.  A submission that fails, is dropped or panics has sent nothing. *)
Theorem SubmitMinedResult_safe rst cfg sent r sent' :
  (∀ tip cap data g, EstimateGasAtBlock tip cap data = Ret g → 0 < g < 2 ^ 52) →
  SubmitMinedResult_l1 rst cfg sent = (r, sent') →
  match r with
  | Ret hash => ∃ data tip baseFee price useConfig gas nonce cap,
      let t := mkTx nonce tip cap (safe_gas gas) data in
      composeCalldata rst = Ret data ∧ suggestGasPrices cfg = Ret (tip, baseFee, price, useConfig) ∧
      EstimateGasAtBlock tip price data = Ret gas ∧ PendingNonceAt = Ret nonce ∧
      sign t = Ret hash ∧ SendTransaction t = Ret tt ∧ sent' = sent ++ [t] ∧
      (∀ m, tc_MaxGasPrice cfg = Some m → 0 < m → price ≤ m) ∧
      safe_gas gas * cap ≤ fee_limit l2 ∧ gas ≤ safe_gas gas ≤ 6 * gas / 5 + 1 ∧
      (∀ reward, GetMiningReward (startShardId rst) (rs_timestamp rst) = Ret reward →
         tc_MinimumProfit cfg ≤ reward - extra_cost (mkTx nonce tip price (safe_gas gas) data) l2 - gas * cap) ∧
      (∀ e, GetMiningReward (startShardId rst) (rs_timestamp rst) = Fail e → cap ≤ price)
  | _ => sent' = sent
  end.
Proof.
  intros HG. rw /SubmitMinedResult_l1 /mbind /st_bind /st_lift.
  destruct (composeCalldata rst) as [data| |] eqn:Ec; [|by intros [= <- <-]..].
  destruct (suggestGasPrices cfg) as [[[[tip baseFee] cap0] useConfig]| |] eqn:Es; [|by intros [= <- <-]..].
  destruct (match tc_MaxGasPrice cfg with Some _ => _ | None => _ end) eqn:Em; [by intros [= <- <-]|].
  destruct (EstimateGasAtBlock tip cap0 data) as [gas| |] eqn:Eg; [|by intros [= <- <-]..].
  destruct PendingNonceAt as [nonce| |] eqn:En; [|by intros [= <- <-]..].
  have Hg := HG _ _ _ _ Eg. have Hb := safe_gas_bounds gas ltac:(lia).
  destruct (checkGasPrice _ _ _ _ _ _ _ _ _) as [cap| |] eqn:Ek; [|by intros [= <- <-]..].
  apply checkGasPrice_ret in Ek as (Hf & Hpr & Hun); [|lia..].
  destruct (sign _) as [h| |] eqn:Eh; [|by intros [= <- <-]..].
  destruct (SendTransaction _) as [[]| |] eqn:Et; [|by intros [= <- <-]..].
  intros [= <- <-]. exists data, tip, baseFee, cap0, useConfig, gas, nonce, cap.
  split_and!; [done..| |exact Hf|apply Hb|apply Hb| |exact Hun].
  { intros m Hm Hm0. rw Hm in Em. apply andb_false_iff in Em as [?%Z.ltb_ge|?%Z.ltb_ge]; lia. }
  intros reward HR. destruct (Hpr reward HR) as [[b Hbase] HP]. apply HP.
  move: Es. rw /suggestGasPrices /suggested_prices Hbase.
  have Hsug : ∀ m : gores (option Z), (bf ← m; tip' ← match tc_PriorityGasPrice cfg with
      | Some t => if t =? 0 then from_suggestion else mret t | None => from_suggestion end;
      match bf with Some b => mret (Some tip', bf, b * 2 + tip', false) | None => Panic NilPointer end)
      = Ret (tip, Some b, cap0, useConfig) → useConfig = false.
  { intros [bf| |]; [|done..]. cbn [mbind gores_bind]. case: (match tc_PriorityGasPrice cfg with Some _ => _ | None => _ end) => [tip'| |]; [|done..].
    cbn [mbind gores_bind]. by destruct bf => // -[= _ _ _ <-]. }
  destruct (tc_GasPrice cfg) as [p|]; [case: Z.eqb_spec => _|]; [apply Hsug|by intros|apply Hsug].
Qed.

(** The status is that of the receipt at the first answer within 51 seconds that the
    transaction is not pending, and a timeout without such an answer. *)
Theorem checkTxStatusRepeatedly_spec txHash :
  checkTxStatusRepeatedly txHash =
    match list_find (λ k, TransactionByHash k txHash = Some false) (seq 0 51) with
    | Some _ => success ← checkTxStatus (TransactionReceipt txHash);
                mret (if (success : bool) then txStatusSuccess else txStatusFailure)
    | None => mret txStatusTimeout
    end.
Proof.
  enough (H : ∀ n k, checkTx_loop n k txHash =
    match list_find (λ k, TransactionByHash k txHash = Some false) (seq k (1 + n)) with
    | Some _ => success ← checkTxStatus (TransactionReceipt txHash);
                mret (if (success : bool) then txStatusSuccess else txStatusFailure)
    | None => mret txStatusTimeout
    end) by exact (H 50%nat 0%nat).
  induction n as [|n IH]; intros k.
  - simpl. by destruct (TransactionByHash k txHash) as [[]|] eqn:E.
  - cbn [checkTx_loop]. rw IH. change (seq k (1 + Datatypes.S n)) with (k :: seq (Datatypes.S k) (1 + n)).
    cbn [list_find]. destruct (TransactionByHash k txHash) as [[]|] eqn:E; cbn [negb]; try case_decide; try done;
      by destruct (list_find _ (seq (Datatypes.S k) (1 + n))) as [[]|].
Qed.

End facts.

(** ** Examples *)

#[export] Instance toy_miner_l1 : MinerL1 := {
  l2 := false;
  HeaderRlp _ n := Ret (be_encode 32 n);
  LatestBaseFee := Ret (Some 10);
  SuggestGasTipCap := Ret 2;
  EstimateGasAtBlock _ _ _ := Ret 100;
  PendingNonceAt := Ret 7;
  GetL1Fee _ := Ret 5;
  GetMiningReward _ _ := Ret 100000;
  PackMine _ header := header;
  mineSig := zeros 32;
  sign t := Ret (tx_data t);
  SendTransaction _ := Ret tt;
  GetKvMetas idxs := Ret (map (be_encode 32) idxs);
  GetContractVersion := Ret "v0.2.0";
  version_before_roles _ := false;
  ReadContractField _ := Ret (zeros 32);
  hasMinerRole _ := Ret (zeros 32);
  TransactionByHash k _ := if (k =? 3)%nat then Some false else Some true;
  TransactionReceipt _ := Some (1, [([zeros 32], zeros 96)]);
  minedEventSig := zeros 32 }.

Definition toy_result : result := mkResult 5 0 (zeros 20) 3 [] [] [] [] 60.

Lemma checkGasPrice_spec_witness :
  ∃ cap, checkGasPrice (mkTx 7 None 22 120 []) toy_result 1000 22 (Some 10) 100 120 false false = Ret cap ∧
    120 * cap ≤ ether ∧ 1000 ≤ 100000 - 0 - 100 * cap.
Proof.
  have H := checkGasPrice_spec (ML := toy_miner_l1) (mkTx 7 None 22 120 []) toy_result 1000 22 10 100 120 false false 100000
    ltac:(lia) ltac:(lia) ltac:(intros p H; discriminate H) eq_refl. exact H.
Defined.

Lemma SubmitMinedResult_configured_panics_witness :
  SubmitMinedResult_l1 toy_result (mkTxConfig (Some 30) None 1000 (Some 0)) [] = (Panic NilPointer, []).
Proof.
  apply (SubmitMinedResult_configured_panics toy_result (mkTxConfig (Some 30) None 1000 (Some 0)) 30
           (zeros 4 ++ be_encode 32 5) 100 7 100000); try done.
  intros m [= <-]. by left.
Defined.

Lemma SubmitMinedResult_safe_witness :
  ∃ h t gas, SubmitMinedResult_l1 toy_result (mkTxConfig None None 1000 None) [] = (Ret h, [t]) ∧
    EstimateGasAtBlock (tx_tip t) 22 (tx_data t) = Ret gas ∧ tx_gas t = safe_gas gas ∧ 1000 ≤ 100000 - 0 - gas * tx_feeCap t.
Proof.
  destruct (SubmitMinedResult_l1 toy_result (mkTxConfig None None 1000 None) []) as [[h| |] sent] eqn:E;
    [|vm_compute in E; discriminate..].
  destruct (SubmitMinedResult_safe (ML := toy_miner_l1) toy_result _ _ _ _ ltac:(by intros ???? [= <-]) E)
    as (data & tip & baseFee & price & useConfig & gas & nonce & cap & _ & Hs & Hg & _ & _ & _ & Hsent & _ & _ & _ & Hp & _).
  exists h, (mkTx nonce tip cap (safe_gas gas) data), gas. rw Hsent. split_and!; [reflexivity| |reflexivity|exact (Hp 100000 eq_refl)].
  have Hpr : price = 22; [|by rw -Hpr]. vm_compute in Hs. by injection Hs as _ _ <- _.
Defined.

(** The configured maximum is compared with the suggested price only: the
    transaction that is sent can have a higher one. *)
Theorem max_gas_price_exceeded :
  ∃ h t, SubmitMinedResult_l1 toy_result (mkTxConfig None None 1000 (Some 30)) [] = (Ret h, [t]) ∧ 30 < tx_feeCap t.
Proof. eexists _, _. split; [vm_compute; reflexivity|]. by vm_compute. Qed.
