(* ===== verification/Scanner.v ===== *)
(** * Integrity scanner (ethstorage/scanner/scanner.go, worker.go and utils.go)

    The scanner compares the local KVs with the records of the contract, batch by
    batch, tracks those that differ, and tries to repair them.  It uses the storage
    through an interface, as the source does; the L1 node, the clock and the
    cancellation of the context are oracles, and requests to them are numbered.
    Texts for the log are left out. *)

From S2P Require Import Prelude Extern ChunkCodec.

(** ** Data *)

Inductive scanMode := modeCheckMeta | modeCheckBlob | modeCheckBlock.

Inductive status := ok | unreadable | pending | fixed | recovered | failed.

#[export] Instance status_eq_dec : EqDecision status.
Proof. solve_decision. Defined.

Record scanned := mkScanned { sc_status : status; sc_timestamp : Z; sc_err : option error }.

Definition mismatchTracker := gmap Z scanned.

(** Minutes as nanoseconds. *)
Definition minute : Z := 60 * 10 ^ 9.
Definition pendingWaitTime : Z := 3.

(** The interface [IStorageManager]. *)
Class ScanStorage (S : Type) := {
  ss_TryRead : S → Z → Z → bytes → gores (option bytes);
  ss_TryReadMeta : S → Z → gores (option (bytes * option error));
  ss_TryWriteWithMetaCheck : Z → bytes → (Z → bytes → gores bytes) → ST S unit;
  ss_MaxKvSize : S → Z;
  ss_KvEntries : S → Z;
  ss_KvEntryCount : S → Z;
  ss_Shards : S → list Z }.

(** The interface [IL1], the [FetchBlobFunc], the clock and the context. *)
Class ScanWorld := {
  scan_GetKvMetas : nat → list Z → gores (list bytes);
  scan_GetUpdatedKvIndices : nat → Z → Z → gores (list Z);
  scan_finalized : nat → gores Z;
  scan_fetchBlob : Z → bytes → gores bytes;
  scan_now : nat → Z;
  scan_cancelled : nat → bool }.

(** A loop, with the batches it takes. *)
Record scanLoopRuntime := mkRuntime { rt_mode : scanMode; rt_batchSize : Z; rt_nextIndex : Z }.

(** ** Tracking *)

(** [needFix]: a mismatch waits three minutes, since the blob may only be late. *)
Definition needs_fix (time : Z) (sc : scanned) : bool :=
  (bool_decide (sc_status sc = pending) && (sc_timestamp sc + minute * pendingWaitTime <? time)) ||
  bool_decide (sc_status sc = failed) || bool_decide (is_Some (sc_err sc)).

Definition needFix (time : Z) (m : mismatchTracker) : list Z :=
  merge_sort Z.le (map_to_list (filter (λ x, needs_fix time x.2) m)).*1.

(** [failed()] *)
Definition failed_kvs (m : mismatchTracker) : list Z :=
  merge_sort Z.le (map_to_list (filter (λ x, sc_status x.2 = failed) m)).*1.

Definition withErrors (m : mismatchTracker) : gmap Z error := omap sc_err m.

Definition hasError (m : mismatchTracker) : bool := negb (bool_decide (withErrors m = ∅)).

(** [updateStats]: a KV that could not be fixed stays failed when it is found again. *)
Definition updateStats (kvi : Z) (sc : option scanned) (m : mismatchTracker) : mismatchTracker :=
  match sc with
  | Some sc =>
      if bool_decide (sc_status sc = pending) && bool_decide (sc_status <$> m !! kvi = Some failed)
      then m else <[kvi := sc]> m
  | None => delete kvi m
  end.

(** [GetScanState]: the counts of mismatched and of unfixed KVs. *)
Definition GetScanState (m : mismatchTracker) : Z * Z := (Z.of_nat (size m), zlen (failed_kvs m)).

(** ** Batches *)

(** The number of KVs in the local shards; [shards] is sorted. *)
Fixpoint summaryLocalKvs (shards : list Z) (kvEntries lastKvIdx : Z) : gores Z :=
  match shards with
  | [] => mret 0
  | shard :: shards =>
      shardOfLastKv ← udiv lastKvIdx kvEntries;
      if shardOfLastKv <? shard then mret 0
      else
        n ← (if shard =? shardOfLastKv then m ← umod lastKvIdx kvEntries; mret (add64 m 1)
             else mret kvEntries);
        rest ← summaryLocalKvs shards kvEntries lastKvIdx;
        mret (add64 n rest)
  end.

(** The KVs of the shards at the places [startShardPos..endShardPos]. *)
Definition batch_shard (shards : list Z) (kvEntries startShardPos startKvOffset endShardPos endKvOffset : Z)
    (kvs : list Z) (i : Z) : gores (list Z) :=
  let localStart := if i =? startShardPos then startKvOffset else 0 in
  let localEnd := if i =? endShardPos then endKvOffset else kvEntries in
  if localStart <? localEnd then
    shard ← index shards i;
    mret (kvs ++ ((λ k, add64 (mul64 shard kvEntries) k) <$> seqZ localStart (localEnd - localStart)))
  else mret kvs.

Definition getKvsInBatch (shards : list Z) (kvEntries localKvCount batchSize startKvIndex : Z)
    : gores (list Z * Z) :=
  let startKvIndex := if localKvCount <=? startKvIndex then 0 else startKvIndex in
  let endKvIndexExclusive := Z.min (add64 startKvIndex batchSize) localKvCount in
  let endIndex := sub64 endKvIndexExclusive 1 in
  if two63 <=? sub64 endKvIndexExclusive startKvIndex then Panic OutOfRange
  else
  startShardPos ← udiv startKvIndex kvEntries;
  startKvOffset ← umod startKvIndex kvEntries;
  endShardPos ← udiv endIndex kvEntries;
  endKvMod ← umod endIndex kvEntries;
  kvs ← foldM (batch_shard shards kvEntries startShardPos startKvOffset endShardPos (add64 endKvMod 1)) []
          (seqZ startShardPos (endShardPos - startShardPos + 1));
  mret (kvs, endKvIndexExclusive).

(** The ranges that [shortPrt] prints. *)
Fixpoint short_ranges (start last : Z) (nums : list Z) : list (Z * Z) :=
  match nums with
  | [] => [(start, last)]
  | n :: nums => if n =? add64 last 1 then short_ranges start n nums
                 else (start, last) :: short_ranges n n nums
  end.
Definition shortPrt (nums : list Z) : list (Z * Z) :=
  match nums with [] => [] | n :: nums => short_ranges n n nums end.

(** ** Configuration (config.go) *)

(** [scanModeSet] is a byte: bit 0 for metas, bit 1 for blobs, bit 2 for blocks. *)
Definition parse_mode (flag : Z) : gores (option Z) :=
  let rawMode := flag mod 256 in
  if rawMode =? 0 then mret None
  else if negb (Z.land rawMode (Z.lxor 255 7) =? 0) then Fail (ErrMsg "invalid scanner mode")
  else mret (Some (Z.land rawMode 7)).

(** The loops that [start] launches; the intervals are in nanoseconds. *)
Definition start_loops (mode batchSize intervalBlock l1SlotTime : Z) : gores (list scanLoopRuntime) :=
  block ← (if negb (Z.land mode 4 =? 0) then
             if l1SlotTime =? 0 then Panic DivideByZero
             else mret [mkRuntime modeCheckBlock (wrap64 (Z.quot intervalBlock l1SlotTime)) 0]
           else mret []);
  mret ((if negb (Z.land mode 1 =? 0) then [mkRuntime modeCheckMeta (wrap64 batchSize) 0] else []) ++
        (if negb (Z.land mode 2 =? 0) then [mkRuntime modeCheckBlob (wrap64 batchSize) 0] else []) ++ block).

(** ** One scan at a time

    The channel [scanPermit] has room for one token; [Start] puts the first one. *)
Definition acquireScanPermit (permits : nat) : option nat :=
  match permits with O => None | Datatypes.S n => Some n end.
Definition releaseScanPermit (permits : nat) : nat := if (permits <? 1)%nat then Datatypes.S permits else permits.

(** ** The worker and the scanner *)

Section scanner.
Context {S : Type} {SS : ScanStorage S} `{SW : ScanWorld}.

Record Scanner := mkScanner { sn_storage : S; sn_stats : mismatchTracker; sn_requests : nat }.
Implicit Types s : Scanner.

Definition set_storage s (x : S) : Scanner := mkScanner x (sn_stats s) (sn_requests s).
Definition set_stats s (m : mismatchTracker) : Scanner := mkScanner (sn_storage s) m (sn_requests s).
Definition request s : Scanner := mkScanner (sn_storage s) (sn_stats s) (Datatypes.S (sn_requests s)).

Definition ask {A} (f : nat → gores A) : ST Scanner A := λ s, (f (sn_requests s), request s).
Definition look {A} (f : nat → A) : ST Scanner A := λ s, (Ret (f (sn_requests s)), request s).

Definition mark (kvi : Z) (sc : option scanned) : ST Scanner unit := λ s,
  (Ret tt, set_stats s (updateStats kvi sc (sn_stats s))).

(** [time.Time{}] is far in the past. *)
Definition markError (kvi : Z) (e : error) : ST Scanner unit :=
  mark kvi (Some (mkScanned unreadable 0 (Some (ErrWrap "error reading kv" e)))).
Definition markFailed (kvi : Z) (e : error) : ST Scanner unit :=
  mark kvi (Some (mkScanned failed 0 (Some (ErrWrap "error fixing kv" e)))).
Definition markMismatched (kvi : Z) : ST Scanner unit :=
  time ← look scan_now;
  mark kvi (Some (mkScanned pending time None)).
Definition markFixed (kvi : Z) : ST Scanner unit := mark kvi None.
Definition markRecovered (kvi : Z) : ST Scanner unit := mark kvi None.

(** [copy(commit[:], meta[32-es.HashSizeInContract:32])] *)
Definition commit_of (meta : bytes) : bytes := go_copy (zeros 32) (take 24 (drop 8 meta)).

(** The error of a check, [None] when the KV is right; a nil buffer of the meta
    is an error or a KV that is not found. *)
Definition check_meta (x : S) (kvIndex : Z) (commit : bytes) : gores (option error) :=
  match ss_TryReadMeta x kvIndex with
  | Ret (Some (metaLocal, _)) =>
      match CompareCommits commit metaLocal with
      | Ret _ => Ret None
      | Fail e => Ret (Some e)
      | Panic p => Panic p
      end
  | Ret None => Ret (Some (ErrMsg "meta not found locally"))
  | Fail e => Ret (Some (ErrWrap "failed to read meta" e))
  | Panic p => Panic p
  end.

Definition check_blob (x : S) (kvIndex : Z) (commit : bytes) : gores (option error) :=
  match ss_TryRead x kvIndex (int64 (ss_MaxKvSize x)) commit with
  | Ret (Some _) => Ret None
  | Ret None => Ret (Some (ErrMsg "blob not found locally"))
  | Fail e => Ret (Some e)
  | Panic p => Panic p
  end.

Definition scanKv (mode : scanMode) (kvIndex : Z) (commit : bytes) : ST Scanner unit :=
  s ← st_get;
  err ← st_lift (match mode with
                 | modeCheckMeta => check_meta (sn_storage s) kvIndex commit
                 | modeCheckBlob => check_blob (sn_storage s) kvIndex commit
                 | modeCheckBlock => Panic (Explicit "Invalid scanner mode")
                 end);
  match err with
  | Some e => if as_commit_mismatch e then markMismatched kvIndex else markError kvIndex e
  | None => mret tt
  end.

Definition scan_one (mode : scanMode) (kvs : list Z) (x : Z * bytes) : ST Scanner unit :=
  cancelled ← look scan_cancelled;
  if (cancelled : bool) then st_lift (Fail (ErrMsg "context canceled"))
  else
    kvi ← st_lift (index kvs x.1);
    scanKv (match mode with modeCheckBlock => modeCheckBlob | m => m end) kvi (commit_of x.2).

Definition with_index {A} (l : list A) : list (Z * A) := zip (seqZ 0 (zlen l)) l.

Definition scanBatch (nextBatch : Z → Z → ST Scanner (list Z * Z)) (rt : scanLoopRuntime)
    : ST Scanner scanLoopRuntime :=
  '(kvs, batchEndExclusive) ← nextBatch (rt_batchSize rt) (rt_nextIndex rt);
  if bool_decide (kvs = []) then mret rt
  else
    metas ← ask (λ req, match scan_GetKvMetas req kvs with
                        | Fail e => Fail (ErrWrap "failed to query KV metas" e)
                        | r => r
                        end);
    _ ← st_foldM (λ _ x, scan_one (rt_mode rt) kvs x) tt (with_index metas);
    mret (mkRuntime (rt_mode rt) (rt_batchSize rt) batchEndExclusive).

(** [summaryLocalKvs] and [getKvsInBatch] of the worker. *)
Definition localKvCount (x : S) : gores Z :=
  if ss_KvEntryCount x =? 0 then mret 0
  else summaryLocalKvs (ss_Shards x) (ss_KvEntries x) (sub64 (ss_KvEntryCount x) 1).

Definition worker_getKvsInBatch (batchSize startIndex : Z) : ST Scanner (list Z * Z) :=
  s ← st_get;
  n ← st_lift (localKvCount (sn_storage s));
  if n =? 0 then mret ([], 0)
  else st_lift (getKvsInBatch (ss_Shards (sn_storage s)) (ss_KvEntries (sn_storage s)) n batchSize startIndex).

(** The KVs updated in the finalized blocks since the last scan. *)
Definition latestUpdated (blocksToScan lastScannedBlock : Z) : ST Scanner (list Z * Z) :=
  r ← st_catch (ask scan_finalized);
  match r with
  | inl _ => mret ([], lastScannedBlock)
  | inr endBlock =>
      let startBlock := if lastScannedBlock =? 0 then sub64 endBlock blocksToScan else add64 lastScannedBlock 1 in
      if endBlock <? startBlock then mret ([], lastScannedBlock)
      else
        r ← st_catch (ask (λ req, scan_GetUpdatedKvIndices req (int64 startBlock) (int64 endBlock)));
        match r with
        | inl _ => mret ([], lastScannedBlock)
        | inr kvs =>
            s ← st_get;
            let shards := ss_Shards (sn_storage s) in
            stored ← st_lift (foldM (λ acc kvi,
                shardIdx ← udiv kvi (ss_KvEntries (sn_storage s));
                mret (if bool_decide (shardIdx ∈ shards) then acc ++ [kvi] else acc)) [] kvs);
            mret (stored, endBlock)
        end
  end.

(** *** Repair *)

Definition fixKv (kvIndex : Z) (commit : bytes) : ST Scanner unit :=
  s ← st_get;
  err ← st_lift (check_blob (sn_storage s) kvIndex commit);
  match err with
  | None => markRecovered kvIndex
  | Some e =>
      if as_commit_mismatch e then
        match ss_TryWriteWithMetaCheck kvIndex commit scan_fetchBlob (sn_storage s) with
        | (Ret _, x) => _ ← st_put (set_storage s x); markFixed kvIndex
        | (Fail e, x) => _ ← st_put (set_storage s x); markFailed kvIndex (ErrWrap "failed to fix KV" e)
        | (Panic p, x) => _ ← st_put (set_storage s x); st_lift (Panic p)
        end
      else markError kvIndex e
  end.

Definition fixBatch (kvs : list Z) : ST Scanner unit :=
  if bool_decide (kvs = []) then mret tt
  else
    metas ← ask (λ req, match scan_GetKvMetas req kvs with
                        | Fail e => Fail (ErrWrap "failed to query KV metas" e)
                        | r => r
                        end);
    st_foldM (λ _ x, kvi ← st_lift (index kvs x.1); fixKv kvi (commit_of x.2)) tt (with_index metas).

(** *** The loops: a turn of each, with the permit; an error is logged. *)

Definition nextBatch_of (mode : scanMode) : Z → Z → ST Scanner (list Z * Z) :=
  match mode with
  | modeCheckBlock => latestUpdated
  | _ => worker_getKvsInBatch
  end.

Definition doScan (rt : scanLoopRuntime) : ST Scanner scanLoopRuntime :=
  r ← st_catch (scanBatch (nextBatch_of (rt_mode rt)) rt);
  mret (match r with inr rt => rt | inl _ => rt end).

Definition fix_turn : ST Scanner unit :=
  time ← look scan_now;
  s ← st_get;
  _ ← st_catch (fixBatch (needFix time (sn_stats s)));
  mret tt.

End scanner.
Arguments Scanner S : clear implicits.
