(* ===== verification/ScannerFacts.v ===== *)
(** * What the scanner achieves

    The batches go through all local KVs, the permit keeps scans and repairs apart,
    and a repair leaves the KV with the blob of the contract whenever the local data
    was recognized as a mismatch. *)

From S2P Require Import Prelude Extern Bits DataFile ChunkCodec DataShard ShardManager StorageManager Scanner.

(** ** Batches *)

(** The KVs of the local shards up to the last one of the contract. *)
Definition local_kvs (shards : list Z) (kvEntries lastKvIdx : Z) : list Z :=
  shards ≫= λ shard,
    if lastKvIdx / kvEntries <? shard then []
    else seqZ (shard * kvEntries) (if shard =? lastKvIdx / kvEntries then lastKvIdx mod kvEntries + 1 else kvEntries).

Section batches.
Context (kvEntries lastKvIdx : Z) (HE : 0 < kvEntries < two64) (HL : 0 ≤ lastKvIdx < two64).

Abbreviation local shards := (local_kvs shards kvEntries lastKvIdx).

(** After the shard of the last KV there is nothing. *)
Lemma local_kvs_past shards shard :
  lastKvIdx / kvEntries ≤ shard → Forall (Z.lt shard) shards → local shards = [].
Proof.
  intros Hs HF. rw /local_kvs. induction HF as [|x l Hx HF IH]; [done|]. simpl.
  rw (proj2 (Z.ltb_lt _ _)); [lia|]. exact IH.
Qed.

Lemma local_kvs_cons shard shards :
  StronglySorted Z.lt (shard :: shards) →
  local (shard :: shards) =
    if lastKvIdx / kvEntries <? shard then []
    else if shard =? lastKvIdx / kvEntries then seqZ (shard * kvEntries) (lastKvIdx mod kvEntries + 1)
    else seqZ (shard * kvEntries) kvEntries ++ local shards.
Proof.
  intros [_ HF]%StronglySorted_inv. have E : local (shard :: shards) =
    (if lastKvIdx / kvEntries <? shard then []
     else seqZ (shard * kvEntries) (if shard =? lastKvIdx / kvEntries then lastKvIdx mod kvEntries + 1 else kvEntries))
    ++ local shards by done. rw E.
  case: Z.ltb_spec => H; [apply (local_kvs_past shards shard); [lia|done]|].
  case: Z.eqb_spec => H1; [|done]. rw (local_kvs_past shards shard) ?app_nil_r //. lia.
Qed.

(** The KV at a place of the list. *)
Lemma local_kvs_lookup shards : StronglySorted Z.lt shards →
  ∀ p, 0 ≤ p < zlen (local shards) → ∃ shard, shards !! Z.to_nat (p / kvEntries) = Some shard ∧
    local shards !! Z.to_nat p = Some (shard * kvEntries + p mod kvEntries).
Proof.
  induction shards as [|shard shards IH]; intros Hs p Hp; [rw /zlen /= in Hp; lia|].
  have Hmod := Z.mod_pos_bound lastKvIdx kvEntries ltac:(lia).
  rw local_kvs_cons // in Hp. rw local_kvs_cons //.
  move: Hp. case: Z.ltb_spec => H; [rw /zlen /=; lia|]. case: Z.eqb_spec => H1.
  - rw /zlen length_seqZ => Hp. rw (Z.div_small p); [lia|]. rw (Z.mod_small p); [lia|]. exists shard. split; [done|].
    rw lookup_seqZ. lia.
  - rw zlen_app {1}/zlen length_seqZ Z2Nat.id; [lia|]. intros Hp.
    destruct (Z.lt_ge_cases p kvEntries) as [Hlt|Hge].
    + rw (Z.div_small p); [lia|]. rw (Z.mod_small p); [lia|]. exists shard. split; [done|].
      rw lookup_app_l; [rw length_seqZ; lia|]. rw lookup_seqZ. lia.
    + apply StronglySorted_inv in Hs as [Hs _].
      destruct (IH Hs (p - kvEntries)) as (x & Hx1 & Hx2); [lia|]. exists x.
      have E1 : p / kvEntries = (p - kvEntries) / kvEntries + 1.
      { rw -(Z.div_add _ 1); [lia|]. f_equal. lia. }
      have E2 : p mod kvEntries = (p - kvEntries) mod kvEntries.
      { rw -(Z_mod_plus_full (p - kvEntries) 1). f_equal. lia. }
      have H0 : 0 ≤ (p - kvEntries) / kvEntries by apply Z.div_pos; lia.
      split.
      * rw E1 Z2Nat.inj_add; [lia..|]. by rw Nat.add_1_r.
      * rw lookup_app_r; [rw length_seqZ; lia|]. rw length_seqZ E2 -Hx2. f_equal. lia.
Qed.

Lemma summaryLocalKvs_ok shards :
  StronglySorted Z.lt shards → zlen (local shards) < two64 →
  summaryLocalKvs shards kvEntries lastKvIdx = Ret (zlen (local shards)).
Proof.
  induction shards as [|shard shards IH]; intros Hs Hl; [done|].
  have Hmod := Z.mod_pos_bound lastKvIdx kvEntries ltac:(lia).
  move: Hl. rw local_kvs_cons //. simpl. rw udiv_nz; [lia|]. cbn [mbind gores_bind].
  case: Z.ltb_spec => H; [done|]. have Hs' := Hs. apply StronglySorted_inv in Hs' as [Hs' HF]. case: Z.eqb_spec => H1.
  - rw /zlen length_seqZ umod_nz; [lia|]. intros Hl. cbn [mbind gores_bind mret gores_ret].
    rw IH; [done|by rw (local_kvs_past shards shard); [lia|done|]|].
    rw (local_kvs_past shards shard); [lia|done|]. simpl. rw /add64 (wrap64_small (_ + 1)); [lia|]. rw /zlen /=.
    rw Z.add_0_r wrap64_small; [lia|]. f_equal. lia.
  - rw zlen_app {1 3}/zlen length_seqZ Z2Nat.id; [lia|]. intros Hl. cbn [mbind gores_bind mret gores_ret].
    have := zlen_nonneg (local shards). intros. rw IH; [done|lia|]. simpl. rw /add64 wrap64_small; [lia|done].
Qed.

(** The KV at place [p] of the local KVs. *)
Definition kv_at (shards : list Z) (p : Z) : Z :=
  default 0 (shards !! Z.to_nat (p / kvEntries)) * kvEntries + p mod kvEntries.

Lemma local_kvs_slice shards a b : StronglySorted Z.lt shards →
  0 ≤ a ≤ b → b ≤ zlen (local shards) →
  kv_at shards <$> seqZ a (b - a) = take (Z.to_nat (b - a)) (drop (Z.to_nat a) (local shards)).
Proof.
  intros Hs Ha Hb. apply list_eq. intros i. rw list_lookup_fmap.
  destruct (Z.lt_ge_cases (Z.of_nat i) (b - a)) as [Hi|Hi].
  - rw lookup_seqZ_lt //= lookup_take_lt; [lia|]. rw lookup_drop.
    destruct (local_kvs_lookup shards Hs (a + Z.of_nat i)) as (x & H1 & H2); [lia|].
    rw /kv_at H1 /=. rw -H2. f_equal. lia.
  - rw lookup_seqZ_ge //= lookup_take_ge //. lia.
Qed.

(** No shard index is too large for its KVs. *)
Definition shards_fit (shards : list Z) : Prop :=
  Forall (λ shard, 0 ≤ shard ∧ shard * kvEntries + kvEntries ≤ two64) shards.

#[local] Abbreviation E := kvEntries.

(** The loop over the shards collects the KVs at the places [a..b-1]. *)
Lemma batch_loop shards a b : StronglySorted Z.lt shards → shards_fit shards →
  0 ≤ a < b → b ≤ zlen (local shards) →
  foldM (batch_shard shards kvEntries (a / kvEntries) (a mod kvEntries) ((b - 1) / kvEntries)
           ((b - 1) mod kvEntries + 1)) [] (seqZ (a / kvEntries) ((b - 1) / kvEntries - a / kvEntries + 1))
  = Ret (kv_at shards <$> seqZ a (b - a)).
Proof.
  intros Hs Hfit Ha Hb.
  have Hda := Z.div_mod a E ltac:(lia). have Hma := Z.mod_pos_bound a E ltac:(lia).
  have Hdb := Z.div_mod (b - 1) E ltac:(lia). have Hmb := Z.mod_pos_bound (b - 1) E ltac:(lia).
  set sp := a / E in Hda *. set ep := (b - 1) / E in Hdb *.
  have Hse : 0 ≤ sp ≤ ep by split; [apply Z.div_pos; lia|apply Z.div_le_mono; lia].
  pose (P (i : Z) := kv_at shards <$> seqZ a (Z.max a (Z.min (i * E) b) - a)).
  have H := foldM_count P (batch_shard shards E sp (a mod E) ep ((b - 1) mod E + 1)) sp (Z.to_nat (ep - sp + 1)).
  rw Z2Nat.id in H; [lia|]. have HP0 : P sp = [] by rw /P seqZ_nil //; nia.
  have HP1 : P (sp + (ep - sp + 1)) = kv_at shards <$> seqZ a (b - a).
  { rw /P. do 2 f_equal. nia. }
  rw HP0 HP1 in H. apply H. clear H HP0 HP1. intros i Hi.
  set lo := Z.max a (i * E). set hi := Z.min ((i + 1) * E) b.
  have E1 : (if i =? sp then a mod E else 0) = lo - i * E by rw /lo; case: Z.eqb_spec => ?; nia.
  have E2 : (if i =? ep then (b - 1) mod E + 1 else E) = hi - i * E by rw /hi; case: Z.eqb_spec => ?; nia.
  have Hlh : lo < hi by rw /lo /hi; nia.
  rw /batch_shard E1 E2 (proj2 (Z.ltb_lt _ _)); [lia|].
  have Hlo : 0 ≤ lo - i * E ∧ hi - i * E ≤ E by rw /lo /hi; nia.
  have Hi0 : 0 ≤ i by lia.
  have Hdiv p : lo ≤ p < hi → p / E = i ∧ p mod E = p - i * E.
  { intros Hp. have Hq : p / E = i by symmetry; apply (Z.div_unique_pos p E i (p - i * E)); lia.
    split; [done|]. rw Z.mod_eq; [lia|]. rw Hq. lia. }
  destruct (local_kvs_lookup shards Hs lo) as (shard & Hsh & _); [rw /lo /hi in Hlh *; nia|].
   rw (proj1 (Hdiv lo ltac:(lia))) in Hsh. rw (index_lookup _ _ shard) //.
  cbn [mbind gores_bind mret gores_ret]. f_equal. rw /P.
  have Hfs := Forall_lookup_1 _ _ _ _ Hfit Hsh.
  rw (_ : Z.max a (Z.min ((i + 1) * E) b) - a = (lo - a) + (hi - lo)).
  { rw /lo /hi. nia. }
  rw seqZ_app; [rw /lo; lia..|lia|]. rw fmap_app. f_equal.
  { do 2 f_equal. rw /lo. nia. }
  rw (_ : a + (lo - a) = i * E + (lo - i * E)); [lia|]. rw -fmap_add_seqZ -list_fmap_compose.
  rw (_ : hi - i * E - (lo - i * E) = hi - lo); [lia|]. apply list_fmap_ext. intros j k Hk%list_elem_of_lookup_2%elem_of_seqZ. destruct (Hdiv (i * E + k) ltac:(lia)) as [H1 H2].
  rw /compose /kv_at H1 H2 Hsh /= /add64 /mul64 wrap64_small; [|rw wrap64_small; [nia|lia]].
  rw wrap64_small; nia.
Qed.

Lemma getKvsInBatch_ok shards b i : StronglySorted Z.lt shards → shards_fit shards →
  0 < zlen (local shards) < two63 → 0 < b → zlen (local shards) + b < two64 → 0 ≤ i →
  let start := if zlen (local shards) <=? i then 0 else i in
  getKvsInBatch shards kvEntries (zlen (local shards)) b i =
    Ret (take (Z.to_nat b) (drop (Z.to_nat start) (local shards)), Z.min (start + b) (zlen (local shards))).
Proof.
  intros Hs Hfit Hn Hb Hnb Hi. set n := zlen (local shards) in Hn Hnb *.
  set start := if n <=? i then 0 else i. have Hst : 0 ≤ start < n by rw /start; case: Z.leb_spec; lia.
  rw /getKvsInBatch -/start /add64 (wrap64_small (start + b)); [lia|]. set fin := Z.min (start + b) n.
  have Hfin : start < fin ≤ n by rw /fin; lia.
  rw /sub64 !(wrap64_small (fin - _)); [unfold two64, two63 in *; lia..|]. rw (proj2 (Z.leb_gt _ _)); [lia|].
  rw !udiv_nz ?umod_nz; [lia..|]. cbn [mbind gores_bind mret gores_ret].
  have Hm := Z.mod_pos_bound (fin - 1) kvEntries ltac:(lia). rw (wrap64_small (_ + 1)); [lia|].
  rw batch_loop //; [lia..|]. cbn [mbind gores_bind mret gores_ret].
  rw local_kvs_slice //; [lia..|]. do 2 f_equal.
  rw /fin. destruct (Z.min_spec (start + b) n) as [[_ ->]|[? ->]]; [f_equal; lia|].
  have Hlen : length (drop (Z.to_nat start) (local shards)) = Z.to_nat (n - start) by rw length_drop /n /zlen; lia.
  rw !take_ge //; rw Hlen; lia.
Qed.

(** The KVs of [k] turns of a loop, and the index it has reached. *)
Fixpoint turns (shards : list Z) (n b : Z) (k : nat) : gores (list Z * Z) :=
  match k with
  | O => mret ([], 0)
  | Datatypes.S k =>
      '(kvs, i) ← turns shards n b k;
      '(more, i) ← getKvsInBatch shards kvEntries n b i;
      mret (kvs ++ more, i)
  end.

(** The number of turns in which a loop goes through [n] KVs once. *)
Definition pass_turns (n b : Z) : nat := Z.to_nat ((n + b - 1) / b).

Lemma pass_turns_bounds n b : 0 < n → 0 < b →
  (0 < pass_turns n b)%nat ∧ (Z.of_nat (pass_turns n b) - 1) * b < n ≤ Z.of_nat (pass_turns n b) * b.
Proof.
  intros Hn Hb. rw /pass_turns. have Hd := Z.div_mod (n + b - 1) b ltac:(lia).
  have Hm := Z.mod_pos_bound (n + b - 1) b Hb. have Hq : 1 ≤ (n + b - 1) / b by apply Z.div_le_lower_bound; lia.
  rw Z2Nat.id; [lia|]. split; [lia|]. nia.
Qed.

(** One more turn is one more of the same pass, or the first of the next. *)
Lemma next_turn (k T : nat) : (0 < T)%nat →
  (Datatypes.S (k mod T) < T ∧ Datatypes.S k / T = k / T ∧ Datatypes.S k mod T = Datatypes.S (k mod T) ∨
   Datatypes.S (k mod T) = T ∧ Datatypes.S k / T = Datatypes.S (k / T) ∧ Datatypes.S k mod T = 0)%nat.
Proof.
  intros HT. have Hd := Nat.div_mod k T ltac:(lia). have Hm := Nat.mod_upper_bound k T ltac:(lia).
  destruct (decide (Datatypes.S (k mod T) = T)) as [E|E]; [right|left; split; [lia|]].
  - have HS : Datatypes.S k = (T * Datatypes.S (k / T) + 0)%nat by lia.
    split; [done|]. split; symmetry;
      [exact (Nat.div_unique _ _ _ 0 HT HS)|exact (Nat.mod_unique _ _ (Datatypes.S (k / T)) _ HT HS)].
  - split; symmetry; [apply (Nat.div_unique _ _ _ (Datatypes.S (k mod T)))|apply (Nat.mod_unique _ _ (k / T))]; lia.
Qed.

(** C14: the batches of a scan loop go round all local KVs: the count is the number
    of KVs of the local shards up to the last KV of the contract, and after any
    number [k] of turns the loop has gone through all of them [k / t] times and
    through the first [(k mod t) * b] of them once more, each pass in order, where
    [t] is the number of KVs divided by the batch size, rounded up; a pass that
    ends is followed by one that begins with the first KV again. *)
Theorem scan_covers shards b k : StronglySorted Z.lt shards → shards_fit shards →
  let kvs := local shards in
  let t := pass_turns (zlen kvs) b in
  0 < zlen kvs < two63 → 0 < b → zlen kvs + b < two64 →
  summaryLocalKvs shards kvEntries lastKvIdx = Ret (zlen kvs) ∧
  turns shards (zlen kvs) b k =
    Ret (concat (replicate (k / t) kvs) ++ take (k mod t * Z.to_nat b) kvs,
         if decide (k mod t = 0 ∧ k ≠ 0)%nat then zlen kvs else Z.of_nat (k mod t) * b).
Proof.
  intros Hs Hfit kvs t Hn Hb Hnb. split; [apply summaryLocalKvs_ok; [done|fold kvs; unfold two63, two64 in *; lia]|].
  destruct (pass_turns_bounds (zlen kvs) b) as [Ht Htn]; [lia..|]. fold t in Ht, Htn.
  induction k as [|k IH]; [by rw Nat.Div0.div_0_l Nat.Div0.mod_0_l|].
  cbn [turns]. rw IH. cbn [mbind gores_bind mret gores_ret].
  have Hm := Nat.mod_upper_bound k t ltac:(lia). have Hr : Z.of_nat (k mod t) * b < zlen kvs by nia.
  rw getKvsInBatch_ok //; [case_decide; nia|]. fold kvs. cbn [mbind gores_bind mret gores_ret].
  have -> : (if zlen kvs <=? (if decide (k mod t = 0 ∧ k ≠ 0)%nat then zlen kvs else Z.of_nat (k mod t) * b)
             then 0 else if decide (k mod t = 0 ∧ k ≠ 0)%nat then zlen kvs else Z.of_nat (k mod t) * b)
            = Z.of_nat (k mod t) * b.
  { case_decide as Hd; [rw Z.leb_refl; lia|]. by rw (proj2 (Z.leb_gt _ _) Hr). }
  have -> : Z.to_nat (Z.of_nat (k mod t) * b) = (k mod t * Z.to_nat b)%nat by nia.
  rw -app_assoc take_take_drop. have Hlen : length kvs = Z.to_nat (zlen kvs) by rw /zlen; lia.
  clear IH. destruct (next_turn k t Ht) as [(Hlt & -> & ->)|(Et & -> & ->)].
  - destruct (decide _) as [[? _]|_]; [lia|]. rw /mret /gores_ret. do 2 f_equal; [|nia]. do 2 f_equal. lia.
  - destruct (decide _) as [_|Hn0]; [|by destruct Hn0]. rw /mret /gores_ret Nat.mul_0_l take_0 app_nil_r replicate_S_end concat_app /= app_nil_r.
    do 2 f_equal; [|nia]. rw take_ge //. rw Hlen. nia.
Qed.

End batches.

Lemma scan_covers_witness :
  summaryLocalKvs [0; 2] 4 9 = Ret 6 ∧
  turns 4 [0; 2] 6 4 5 = Ret ([0; 1; 2; 3; 8; 9] ++ [0; 1; 2; 3; 8; 9] ++ [0; 1; 2; 3], 4).
Proof.
  apply (scan_covers 4 9 ltac:(done) ltac:(done) [0; 2] 4 5).
  - constructor; [constructor; constructor|]. constructor; [lia|constructor].
  - rw /shards_fit !Forall_cons Forall_nil. unfold two64. lia.
  - by vm_compute.
  - lia.
  - by vm_compute.
Defined.

(** ** Texts *)

(** The ranges of the log stand for exactly the scanned KVs. *)
Lemma short_ranges_expand nums : ∀ start last,
  Forall (λ n, 0 ≤ n < two64 - 1) (last :: nums) → start ≤ last →
  (short_ranges start last nums ≫= λ r, seqZ r.1 (r.2 - r.1 + 1)) = seqZ start (last - start + 1) ++ nums.
Proof.
  induction nums as [|n nums IH]; intros start last HF Hs; [done|].
  apply Forall_cons in HF as [Hl HF]. pose proof HF as [Hn _]%Forall_cons. simpl.
  rw /add64 wrap64_small; [lia|]. case: Z.eqb_spec => [E|_].
  - rw IH //; [lia|]. subst n. rw (_ : last + 1 - start + 1 = last - start + 1 + 1); [lia|].
    rw seqZ_app; [lia..|]. rw -app_assoc. f_equal.
    rw (seqZ_cons _ 1) // (seqZ_nil _ (Z.pred 1)) //=. f_equal. lia.
  - rw bind_cons IH //; [lia|]. rw Z.sub_diag. by rw (seqZ_cons n (0 + 1)) // (seqZ_nil _ (Z.pred (0 + 1))).
Qed.

Theorem shortPrt_expand nums :
  Forall (λ n, 0 ≤ n < two64 - 1) nums → (shortPrt nums ≫= λ r, seqZ r.1 (r.2 - r.1 + 1)) = nums.
Proof.
  destruct nums as [|n nums]; [done|]. intros HF. rw /shortPrt short_ranges_expand //; [lia|]. rw Z.sub_diag.
  by rw (seqZ_cons n (0 + 1)) // (seqZ_nil _ (Z.pred (0 + 1))).
Qed.

(** ** One scan or repair at a time *)

(** The permits in the channel and the loops that hold one. *)
Inductive permit_step : nat * nat → nat * nat → Prop :=
  | PermitAcquire p p' h : acquireScanPermit p = Some p' → permit_step (p, h) (p', Datatypes.S h)
  | PermitRelease p h : permit_step (p, Datatypes.S h) (releaseScanPermit p, h).

Theorem one_scan_at_a_time p h : rtc permit_step (1, 0)%nat (p, h) → (h ≤ 1)%nat.
Proof.
  intros H. enough ((p + h)%nat = 1%nat) by lia.
  change ((p, h).1 + (p, h).2 = 1)%nat. remember (1, 0)%nat as s0. remember (p, h) as s1. clear p h Heqs1.
  have H0 : (s0.1 + s0.2 = 1)%nat by subst. clear Heqs0.
  induction H as [|x y z Hxy _ IH]; [done|]. apply IH.
  destruct Hxy as [[|p] p' h' [= <-]|p h']; rw /releaseScanPermit /= in H0 *; [lia|]. case: Nat.ltb_spec; lia.
Qed.

(** ** Repair *)

(** The storage manager as the storage of the scanner. *)
#[export] Instance storage_scan `{Geth} `{Il1Source} : ScanStorage StorageManager := {
  ss_TryRead := StorageManager.TryRead;
  ss_TryReadMeta := StorageManager.TryReadMeta;
  ss_TryWriteWithMetaCheck := TryWriteWithMetaCheck;
  ss_MaxKvSize s := sm_kvSize (s_shardManager s);
  ss_KvEntries := StorageManager.KvEntries;
  ss_KvEntryCount := StorageManager.KvEntryCount;
  ss_Shards := StorageManager.Shards }.

Section repair.
Context `{GL : GethLaws} `{IL : Il1Source} `{SW : ScanWorld}.
Implicit Types sn : Scanner StorageManager.

Lemma commit_of_hash m : length m = 32%nat → commit_of m = go_copy (zeros 32) (drop 8 m).
Proof. intros Hm. rw /commit_of take_ge //. rw length_drop. lia. Qed.

Lemma TryWriteWithMetaCheck_size k commit fetch s :
  sm_kvSize (s_shardManager (TryWriteWithMetaCheck k commit fetch s).2) = sm_kvSize (s_shardManager s).
Proof.
  rw /TryWriteWithMetaCheck /mbind /st_bind.
  have Hc : s_shardManager (checkMeta k s).2 = s_shardManager s.
  { rw /checkMeta /ask_KvMetas. by repeat case_match. }
  destruct (checkMeta k s) as [[[c err]| |] s1]; [|by rw -Hc..]. rw /= in Hc.
  destruct (fetch k _) as [blob| |]; [|by rw -Hc..].
  rw /tryWrite /on_sm /TryWrite /with_shard_st /in_shard_map /mbind /st_bind /mret /st_ret -Hc.
  by repeat case_match; simplify_eq.
Qed.

(** The blobs a peer or the L1 gives are those that were asked for. *)
Definition fetch_sound (size : Z) : Prop :=
  ∀ k commit blob, scan_fetchBlob k commit = Ret blob →
    zlen blob ≤ size ∧ checkCommit commit (padded size blob) = Ret tt.

(** C13: the repair of a stored KV, with the record [m] of the contract and a sound
    source of blobs, in every case: data that is right is taken off the list; on a
    mismatch the blob is fetched and written, after which the data is right, the
    other KVs are as they were and the KV is off the list; when it cannot be fetched
    the KV is marked as failed and nothing changes; any other error of the check
    leaves the storage as it was and marks the KV as unreadable. *)
Theorem fixKv_spec sn k m rest :
  let s := sn_storage sn in
  sm_wf (s_shardManager s) → kv_stored s k → length m = 32%nat →
  GetKvMetas (s_requests s) [k] FinalizedBlockNumber = Ret (m :: rest) →
  let commit := commit_of m in
  commit ≠ zeros 32 → sm_maskable (s_shardManager s) k commit →
  0 ≤ sm_kvSize (s_shardManager s) < two63 → fetch_sound (sm_kvSize (s_shardManager s)) →
  match check_blob s k commit with
  | Ret None => fixKv k commit sn = (Ret tt, set_stats sn (delete k (sn_stats sn)))
  | Ret (Some e) =>
      if as_commit_mismatch e then
        match scan_fetchBlob k commit with
        | Ret _ => ∃ s', fixKv k commit sn = (Ret tt, set_stats (set_storage sn s') (delete k (sn_stats sn))) ∧
                     check_blob s' k commit = Ret None ∧
                     sm_written (s_shardManager s) k (PrepareCommit commit) (s_shardManager s')
        | Fail _ => ∃ s' e', fixKv k commit sn =
                       (Ret tt, set_stats (set_storage sn s') (<[k := mkScanned failed 0 (Some e')]> (sn_stats sn))) ∧
                       s_shardManager s' = s_shardManager s
        | Panic p => ∃ sn', fixKv k commit sn = (Panic p, sn')
        end
      else ∃ e', fixKv k commit sn = (Ret tt, set_stats sn (<[k := mkScanned unreadable 0 (Some e')]> (sn_stats sn)))
  | Fail e => False
  | Panic p => fixKv k commit sn = (Panic p, sn)
  end.
Proof.
  intros s Hwf Hk Hm Hask commit Hne Hmask Hsz Hfetch.
  have Hc : commit = go_copy (zeros 32) (drop 8 m) by apply commit_of_hash.
  rw /fixKv /mbind /st_bind /st_get /st_lift -/s.
  destruct (check_blob s k commit) as [[e|]|e|p] eqn:Ecb; [|done| |done].
  - case: (as_commit_mismatch e); [|by eexists].
    destruct (scan_fetchBlob k commit) as [blob|ef|p] eqn:Ef.
    + destruct (Hfetch _ _ _ Ef) as [Hb Hok].
      destruct (TryWriteWithMetaCheck_contract s k commit scan_fetchBlob m rest blob)
        as (s' & HT & _ & Hsw & HR); [done..|by rw -Hc|by rw -Hc|done|by rw -Hc|].
      rw -Hc in HR Hsw. rw /ss_TryWriteWithMetaCheck /storage_scan HT. exists s'. split_and!; [done| |done].
      have Hsize : sm_kvSize (s_shardManager s') = sm_kvSize (s_shardManager s).
      { rw -(TryWriteWithMetaCheck_size k commit scan_fetchBlob s). by rw HT. }
      rw /check_blob /= Hsize int64_small; [unfold two63 in *; lia|]. rw HR; [lia|]. by rw Hok.
    + destruct (checkMeta_contract s k m rest) as (err & Hchk); [done..|].
      rw /ss_TryWriteWithMetaCheck /storage_scan /TryWriteWithMetaCheck /mbind /st_bind Hchk -Hc bool_decide_eq_false_2 // Ef.
      by eexists _, _.
    + destruct (checkMeta_contract s k m rest) as (err & Hchk); [done..|].
      rw /ss_TryWriteWithMetaCheck /storage_scan /TryWriteWithMetaCheck /mbind /st_bind Hchk -Hc bool_decide_eq_false_2 // Ef.
      by eexists.
  - rw /check_blob in Ecb. by repeat case_match.
Qed.

End repair.

(** The repair of the same KV, again and again. *)
Fixpoint fix_times `{Geth} `{Il1Source} `{ScanWorld} (n : nat) (k : Z) (commit : bytes) : ST (Scanner StorageManager) unit :=
  match n with
  | O => mret tt
  | Datatypes.S n => _ ← fixKv k commit; fix_times n k commit
  end.

Lemma needFix_error time k sc m : is_Some (sc_err sc) → k ∈ needFix time (<[k := sc]> m).
Proof.
  intros He. rw /needFix merge_sort_Permutation. apply list_elem_of_fmap. exists (k, sc). split; [done|].
  apply elem_of_map_to_list, map_lookup_filter_Some. split; [apply lookup_insert_eq|].
  rw /needs_fix (bool_decide_eq_true_2 _ He) orb_true_r. done.
Qed.

(** Local data that does not decode to a blob, as happens when it was written
    under another commit, is never repaired: however often the repair loop tries,
    nothing is fetched or written and the KV stays on the list as unreadable. *)
Theorem unreadable_not_repaired `{Geth} `{Il1Source} `{ScanWorld} sn k commit ds bs e n :
  let s := sn_storage sn in
  shard_of (s_shardManager s) k = Some ds → sm_kvEntries (s_shardManager s) ≠ 0 →
  readWith ds k (int64 (ds_kvSize ds)) (decode_with ds commit) = Ret bs →
  take 24 commit ≠ EmptyBlobCommit →
  BlobVersionedHash (go_copy (zeros blob_size) bs) = Fail e →
  ∃ sc, fix_times (Datatypes.S n) k commit sn = (Ret tt, set_stats sn (<[k := sc]> (sn_stats sn))) ∧
    sc_status sc = unreadable ∧ ∀ time, k ∈ needFix time (<[k := sc]> (sn_stats sn)).
Proof.
  intros s Hds HE Hrd Hc Hv.
  have HR len : TryRead s k len commit = Fail (ErrMsg "could not convert blob to commitment").
  { rw /TryRead /ShardManager.TryRead /with_shard udiv_nz //. rw /shard_of in Hds. rw /= Hds.
    rw /Read Hrd /= /checkCommit decide_False //. by rw Hv. }
  set sc := mkScanned unreadable 0 (Some (ErrWrap "error reading kv" (ErrMsg "could not convert blob to commitment"))).
  exists sc. split_and!; [|done|intros; by apply needFix_error].
  have Hfix m : fixKv k commit (set_stats sn m) = (Ret tt, set_stats sn (<[k := sc]> m)).
  { rw /fixKv /mbind /st_bind /st_get /st_lift /check_blob /=. by rw HR. }
  have Hn m j : fix_times j k commit (set_stats sn (<[k := sc]> m)) = (Ret tt, set_stats sn (<[k := sc]> m)).
  { induction j as [|j IH]; [done|]. simpl. rw /mbind /st_bind Hfix insert_insert_eq. exact IH. }
  simpl. rw /mbind /st_bind. have Hsn : sn = set_stats sn (sn_stats sn) by destruct sn. rw {1}Hsn Hfix. apply Hn.
Qed.

(** ** Examples *)

#[local] Existing Instance ex_l1.

#[export] Instance toy_scan_world : ScanWorld := {
  scan_GetKvMetas _ ks := Ret ((λ _, ex_meta) <$> ks);
  scan_GetUpdatedKvIndices _ _ _ := Ret [3];
  scan_finalized _ := Ret 9;
  scan_fetchBlob _ commit := match checkCommit commit (padded 128 [9; 8; 7]) with
                             | Ret _ => Ret [9; 8; 7] | Fail e => Fail e | Panic p => Panic p end;
  scan_now _ := 0;
  scan_cancelled _ := false }.

(** No data is a blob. *)
Definition picky_geth : Geth := {|
  Keccak256Hash := toy_hash; Keccak512 := @Keccak512 toy_geth; BytesToHash := @BytesToHash toy_geth;
  BigToHash := @BigToHash toy_geth; BlobVersionedHash _ := Fail (ErrMsg "invalid field element");
  constants_Q := @constants_Q toy_geth; PoseidonHashState := @PoseidonHashState toy_geth;
  FrFFT := @FrFFT toy_geth; FrBytes := @FrBytes toy_geth |}.

Definition toy_scanner : Scanner StorageManager := mkScanner ex_s {[3 := mkScanned pending 0 None]} 0.

Lemma toy_fetch_sound : fetch_sound 128.
Proof.
  intros k commit blob. rw /scan_fetchBlob /toy_scan_world.
  destruct (checkCommit commit _) as [[]| |] eqn:E; [|done..]. intros [= <-]. split; [by vm_compute|exact E].
Qed.

Lemma toy_check : ∃ e, check_blob ex_s 3 (commit_of ex_meta) = Ret (Some e) ∧ as_commit_mismatch e = true.
Proof.
  have H : (match check_blob ex_s 3 (commit_of ex_meta) with Ret (Some e) => as_commit_mismatch e | _ => false end) = true
    by vm_compute; reflexivity.
  destruct (check_blob ex_s 3 (commit_of ex_meta)) as [[e|]| |]; [by exists e|done..].
Qed.

Lemma toy_fetch : ∃ b, scan_fetchBlob 3 (commit_of ex_meta) = Ret b.
Proof. eexists. vm_compute. reflexivity. Qed.

Lemma toy_commit : take 24 (commit_of ex_meta) = take 24 ex_commit ∧ commit_of ex_meta ≠ zeros 32 ∧
  0 ≤ sm_kvSize (s_shardManager ex_s) < two63.
Proof. by vm_compute. Qed.

Lemma fixKv_spec_witness :
  ∃ s', fixKv 3 (commit_of ex_meta) toy_scanner = (Ret tt, set_stats (set_storage toy_scanner s') (delete 3 (sn_stats toy_scanner))) ∧
    check_blob s' 3 (commit_of ex_meta) = Ret None.
Proof.
  destruct toy_commit as (E24 & Hne & Hsz).
  have H := fixKv_spec (G := toy_geth) (GL := toy_geth_laws) (IL := ex_l1) (SW := toy_scan_world) toy_scanner 3 ex_meta [] ex_sm_wf (ex_stored 3 (or_intror eq_refl)) eq_refl eq_refl.
  destruct toy_check as (e & E1 & E2). destruct toy_fetch as (b & E3). cbv zeta in H. change (sn_storage toy_scanner) with ex_s in H.
  rw E1 E2 E3 in H. destruct H as (s' & H1 & H2 & _).
  - exact Hne.
  - intros ds Hds. destruct (ex_sm_maskable ds Hds) as [HQ Hm]. split; [exact HQ|].
    intros i Hi. rw (calcEncodeKey_prefix _ ex_commit); [exact E24|]. by apply Hm.
  - exact Hsz.
  - exact toy_fetch_sound.
  - exists s'. split; [exact H1|exact H2].
Defined.

Definition toy_decoded : bytes := Eval vm_compute in
  from_ret [] (@readWith ex_ds 3 (int64 (ds_kvSize ex_ds)) (@decode_with picky_geth ex_ds ex_commit)).

Lemma unreadable_not_repaired_witness :
  ∃ sc, @fix_times picky_geth ex_l1 toy_scan_world 1 3 ex_commit toy_scanner
          = (Ret tt, set_stats toy_scanner (<[3 := sc]> (sn_stats toy_scanner))) ∧ sc_status sc = unreadable.
Proof.
  destruct (@unreadable_not_repaired picky_geth ex_l1 toy_scan_world toy_scanner 3 ex_commit ex_ds toy_decoded
              (ErrMsg "invalid field element") 0) as (sc & H1 & H2 & _).
  - exact ex_sm_shard.
  - by vm_compute.
  - vm_compute. reflexivity.
  - by vm_compute.
  - reflexivity.
  - exists sc. split; [exact H1|exact H2].
Defined.
