(* ===== verification/ScannerLife.v ===== *)
(** * The goroutines of the scanner (ethstorage/scanner/scanner.go)

    [Start] launches a goroutine that waits until all shards are synced; this launches a loop for each mode, one that reports
    and one that repairs.  The loops take a permit before they touch the storage, and end when the context is cancelled,
    which [Close] does before it waits for all of them.  A step is one operation on a channel, a critical section of the
    mutex, or one launch; at a select with several ready cases the label says which one is taken.

    The scans and repairs themselves are in [Scanner]; here they are the time between taking the permit and giving it back. *)

From S2P Require Import Prelude Scanner.

Open Scope nat_scope.

(** The loops that can be launched. *)
Inductive loop := ScanLoop (rt : scanLoopRuntime) | Reporter | FixLoop.

(** Where a goroutine is. *)
Inductive goroutine :=
| Listening                        (** [update], at its select *)
| Starting                         (** [update], entering [start] *)
| Launching (ls : list loop)       (** [start], with the loops it still has to launch *)
| Acquiring (l : loop)             (** at the select of [acquireScanPermit] *)
| Holding (l : loop)               (** between [acquireScanPermit] and [releaseScanPermit] *)
| Waiting (l : loop)               (** at the select with the ticker *)
| Ended.

(** Where a call of [Close] is: at the mutex, before [cancel], at [wg.Wait], or returned; the flag tells whether the scanner
    was running. *)
Inductive closer := CloseLock | CloseCancel | CloseWait | CloseReturned (waited : bool).

Record life := mkLife {
  running : bool; cancelled : bool; permits : nat; gs : list goroutine; closers : list closer
}.

(** [New], and [Start] of a new scanner: it puts the permit into the channel and launches [update]. *)
Definition New : life := mkLife false false 0 [] [].
Definition Start (s : life) : life :=
  if running s then s else mkLife (running s) (cancelled s) (permits s + 1) (gs s ++ [Listening]) (closers s).

(** The loops of [start], in their order. *)
Definition launched (loops : list scanLoopRuntime) : list loop := (ScanLoop <$> loops) ++ [Reporter; FixLoop].

(** The first thing a loop does: a scan loop scans at once. *)
Definition begin_loop (l : loop) : goroutine := match l with ScanLoop _ => Acquiring l | _ => Waiting l end.

(** After a refused permit a scan loop goes on to its select, the loop of repairs returns. *)
Definition refused (l : loop) : goroutine := match l with FixLoop => Ended | _ => Waiting l end.

(** What a tick does: the reporter writes to the log. *)
Definition ticked (l : loop) : goroutine := match l with Reporter => Waiting l | _ => Acquiring l end.

Inductive choice := Go | TakePermit | SeeCancel.

Inductive label :=
| AllShardsDone (i : nat)          (** the feed delivers [AllShardDone] to goroutine [i] *)
| Tick (i : nat)                   (** the ticker of goroutine [i] fires *)
| Run (i : nat) (c : choice)       (** goroutine [i] moves *)
| CallClose                        (** another call of [Close] *)
| RunClose (j : nat).              (** call [j] of [Close] moves *)

Definition set_g (i : nat) (g : goroutine) (s : life) : life :=
  mkLife (running s) (cancelled s) (permits s) (<[i := g]> (gs s)) (closers s).
Definition set_c (j : nat) (c : closer) (s : life) : life :=
  mkLife (running s) (cancelled s) (permits s) (gs s) (<[j := c]> (closers s)).

Definition is_ended (g : goroutine) : bool := match g with Ended => true | _ => false end.

Section life.
Context (loops : list scanLoopRuntime).

(** One move of a goroutine. *)
Definition run (i : nat) (c : choice) (s : life) : option life :=
  match gs s !! i, c with
  | Some Listening, SeeCancel => if cancelled s then Some (set_g i Ended s) else None
  | Some Starting, Go =>
      if running s then Some (set_g i Ended s)
      else Some (mkLife true (cancelled s) (permits s) (<[i := Launching (launched loops)]> (gs s)) (closers s))
  | Some (Launching (l :: ls)), Go =>
      Some (mkLife (running s) (cancelled s) (permits s) (<[i := Launching ls]> (gs s) ++ [begin_loop l]) (closers s))
  | Some (Launching []), Go => Some (set_g i Ended s)
  | Some (Acquiring l), TakePermit =>
      p ← acquireScanPermit (permits s); Some (mkLife (running s) (cancelled s) p (<[i := Holding l]> (gs s)) (closers s))
  | Some (Acquiring l), SeeCancel => if cancelled s then Some (set_g i (refused l) s) else None
  | Some (Holding l), Go =>
      Some (mkLife (running s) (cancelled s) (releaseScanPermit (permits s)) (<[i := Waiting l]> (gs s)) (closers s))
  | Some (Waiting l), SeeCancel => if cancelled s then Some (set_g i Ended s) else None
  | _, _ => None
  end.

(** One move of a call of [Close]. *)
Definition run_close (j : nat) (s : life) : option life :=
  match closers s !! j with
  | Some CloseLock =>
      if running s then Some (set_c j CloseCancel (mkLife false (cancelled s) (permits s) (gs s) (closers s)))
      else Some (set_c j (CloseReturned false) s)
  | Some CloseCancel => Some (set_c j CloseWait (mkLife (running s) true (permits s) (gs s) (closers s)))
  | Some CloseWait => if forallb is_ended (gs s) then Some (set_c j (CloseReturned true) s) else None
  | _ => None
  end.

Definition exec (x : label) (s : life) : option life :=
  match x with
  | AllShardsDone i => match gs s !! i with Some Listening => Some (set_g i Starting s) | _ => None end
  | Tick i => match gs s !! i with Some (Waiting l) => Some (set_g i (ticked l) s) | _ => None end
  | Run i c => run i c s
  | CallClose => Some (mkLife (running s) (cancelled s) (permits s) (gs s) (closers s ++ [CloseLock]))
  | RunClose j => run_close j s
  end.

Definition life_step (s s' : life) : Prop := ∃ x, exec x s = Some s'.

Definition reachable (s : life) : Prop := rtc life_step (Start New) s.

Definition exec_all (xs : list label) (s : life) : option life := foldl (λ r x, r ≫= exec x) (Some s) xs.

(** ** The moves of a goroutine

    [move canc g g' new p p' r r'] is a move from [g] to [g'] that launches [new] and changes the number of permits from
    [p] to [p'] and [running] from [r] to [r']. *)
Inductive move (canc : bool) : goroutine → goroutine → list goroutine → nat → nat → bool → bool → Prop :=
| m_quit p r : canc = true → move canc Listening Ended [] p p r r
| m_started p : move canc Starting Ended [] p p true true
| m_start p : move canc Starting (Launching (launched loops)) [] p p false true
| m_launch l ls p r : move canc (Launching (l :: ls)) (Launching ls) [begin_loop l] p p r r
| m_launched p r : move canc (Launching []) Ended [] p p r r
| m_take l p r : move canc (Acquiring l) (Holding l) [] (S p) p r r
| m_refused l p r : canc = true → move canc (Acquiring l) (refused l) [] p p r r
| m_release l p r : move canc (Holding l) (Waiting l) [] p (releaseScanPermit p) r r
| m_stop l p r : canc = true → move canc (Waiting l) Ended [] p p r r.

Lemma run_move i c s s' : run i c s = Some s' → ∃ g g' new,
  gs s !! i = Some g ∧ gs s' = <[i := g']> (gs s) ++ new ∧ closers s' = closers s ∧ cancelled s' = cancelled s ∧
  move (cancelled s) g g' new (permits s) (permits s') (running s) (running s').
Proof.
  rw /run. destruct s as [r canc p l cl]. cbn [gs running cancelled permits closers]. destruct (l !! i) as [g|] eqn:Hi; [|done].
  destruct g as [| |[|k ls]|k|k|k|], c; try done; rw /acquireScanPermit; repeat case_match; intros; simplify_eq/=;
    first [by eexists _, _, []; (split_and!; [done|by rw app_nil_r|done..|by constructor])
          |by eexists _, _, [_]; (split_and!; [done..|by constructor])].
Qed.

(** A goroutine that has not ended can move once the context is cancelled. *)
Lemma can_move i g s : gs s !! i = Some g → cancelled s = true → g ≠ Ended → ∃ c s', run i c s = Some s'.
Proof.
  intros Hi Hc Hg. destruct g as [| |[|k ls]|k|k|k|]; [exists SeeCancel|exists Go..|exists SeeCancel|exists Go|exists SeeCancel|done];
    rw /run Hi ?Hc; try (by eexists). case_match; by eexists.
Qed.

(** ** One scan at a time *)

Definition holds (g : goroutine) : nat := match g with Holding _ => 1 | _ => 0 end.
Definition holders (s : life) : nat := sum_list_with holds (gs s).

Lemma holds_ticked l : holds (ticked l) = 0.
Proof. by destruct l. Qed.

Lemma move_permit canc g g' new p p' r r' n : move canc g g' new p p' r r' → p + (n + holds g) = 1 →
  p' + (n + holds g' + sum_list_with holds new) = 1.
Proof.
  intros Hm Hp. destruct Hm as [| | |l| | |l|l|]; cbn [holds sum_list_with] in *; try lia.
  - destruct l; cbn; lia.
  - destruct l; cbn; lia.
  - have -> : p = 0 by lia. cbn. lia.
Qed.

Lemma step_permit s s' : life_step s s' → permits s + holders s = 1 → permits s' + holders s' = 1.
Proof.
  intros [x Hx] Hp. rw /holders in Hp *.
  have Hset i g g' : gs s !! i = Some g → holds g' = holds g → permits s + sum_list_with holds (<[i := g']> (gs s)) = 1.
  { intros Hi Hh. pose proof (sum_list_with_insert holds (gs s) i g g' Hi). lia. }
  destruct x as [i|i|i c| |j]; cbn in Hx.
  - destruct (gs s !! i) as [[]|] eqn:Hi; simplify_eq/=. by apply (Hset i Listening).
  - destruct (gs s !! i) as [[]|] eqn:Hi; simplify_eq/=. apply (Hset i (Waiting l)); [done|apply holds_ticked].
  - destruct (run_move i c s s' Hx) as (g & g' & new & Hi & Hgs & _ & _ & Hm). rw Hgs sum_list_with_app.
    pose proof (sum_list_with_insert holds (gs s) i g g' Hi) as H1. pose proof (sum_list_with_insert holds (gs s) i g Ended Hi) as H2.
    cbn [holds] in H2. pose proof (move_permit _ _ _ _ _ _ _ _ (sum_list_with holds (<[i := Ended]> (gs s))) Hm) as H3. lia.
  - by simplify_eq/=.
  - rw /run_close in Hx. destruct (closers s !! j) as [[]|]; repeat case_match; simplify_eq/=; done.
Qed.

(** C30: under every interleaving at most one loop of the scanner is between taking and giving back the permit, so that scans and
    repairs never overlap; and the permit is not lost. *)
Theorem one_scan s : reachable s → permits s + holders s = 1.
Proof.
  rw /reachable. intros Hr. have H0 : permits (Start New) + holders (Start New) = 1 by done. revert Hr H0.
  induction 1 as [|s1 s2 s3 Hs _ IH]; [done|]. intros H0. apply IH. by apply (step_permit s1).
Qed.

(** ** Closing *)

Definition closing_ok (s : life) : Prop :=
  (∀ j, closers s !! j = Some CloseWait → cancelled s = true) ∧
  (∀ j, closers s !! j = Some (CloseReturned true) → Forall (λ g, g = Ended) (gs s)).

Lemma forallb_ended l : forallb is_ended l = true ↔ Forall (λ g, g = Ended) l.
Proof.
  induction l as [|g l IH]; [done|]. cbn [forallb]. rw andb_true_iff IH Forall_cons. by destruct g; naive_solver.
Qed.

(** When all goroutines have ended nothing but calls of [Close] can move. *)
Lemma ended_stays s s' : life_step s s' → Forall (λ g, g = Ended) (gs s) → gs s' = gs s.
Proof.
  intros [x Hx] HE. have Hg i g : gs s !! i = Some g → g = Ended by apply (Forall_lookup_1 _ _ _ _ HE).
  destruct x as [i|i|i c| |j]; cbn in Hx.
  - destruct (gs s !! i) as [g|] eqn:Hi; [|done]. by rw (Hg i g Hi) in Hx.
  - destruct (gs s !! i) as [g|] eqn:Hi; [|done]. by rw (Hg i g Hi) in Hx.
  - destruct (run_move i c s s' Hx) as (g & g' & new & Hi & _ & _ & _ & Hm). rw (Hg i g Hi) in Hm. inversion Hm.
  - by simplify_eq/=.
  - rw /run_close in Hx. destruct (closers s !! j) as [[]|]; repeat case_match; simplify_eq/=; done.
Qed.

Lemma step_closing s s' : life_step s s' → closing_ok s → closing_ok s'.
Proof.
  intros Hst [HW HR]. pose proof (ended_stays s s' Hst) as HE. destruct Hst as [x Hx].
  have Hsame : closers s' = closers s → (cancelled s = true → cancelled s' = true) → closing_ok s'.
  { intros Hc Hca. split; intros j; rw Hc; [intros Hj; by apply Hca, (HW j)|]. intros Hj. rw HE; by apply (HR j). }
  destruct x as [i|i|i c| |j]; cbn in Hx.
  - destruct (gs s !! i) as [[]|]; simplify_eq/=. by apply Hsame.
  - destruct (gs s !! i) as [[]|]; simplify_eq/=. by apply Hsame.
  - destruct (run_move i c s s' Hx) as (g & g' & new & _ & _ & Hc & Hca & _). apply Hsame; [done|by rw Hca].
  - simplify_eq/=. split; intros j; cbn; (destruct (decide (j < length (closers s))) as [Hj|Hj];
      [rw lookup_app_l //; apply HW || apply HR|rw lookup_app_r; [lia|]; by destruct (j - length (closers s)) as [|[]]]).
  - rw /run_close in Hx. destruct (closers s !! j) as [[]|] eqn:Hj; repeat case_match; simplify_eq/=; (split; intros k; cbn;
      rw list_lookup_insert_Some; intros [(-> & ? & ?)|[? Hk]]; simplify_eq); try (by apply (HW k)); try (by apply (HR k)); try done.
    by apply forallb_ended.
Qed.

Lemma reachable_closing s : reachable s → closing_ok s.
Proof.
  intros Hr. have H0 : closing_ok (Start New) by split; intros j. revert Hr H0. rw /reachable.
  induction 1 as [|s1 s2 s3 Hs _ IH]; [done|]. intros H0. apply IH. by apply (step_closing s1).
Qed.

(** What is left to do for the goroutines and the calls of [Close]. *)
Definition loop_work (l : loop) : nat := match l with ScanLoop _ => 4 | _ => 2 end.
Definition work (g : goroutine) : nat :=
  match g with
  | Ended => 0 | Waiting _ => 1 | Listening => 1 | Holding _ => 2 | Acquiring _ => 3
  | Launching ls => 1 + sum_list_with loop_work ls
  | Starting => 2 + sum_list_with loop_work (launched loops)
  end.
Definition close_work (c : closer) : nat :=
  match c with CloseLock => 3 | CloseCancel => 2 | CloseWait => 1 | CloseReturned _ => 0 end.
Definition to_do (s : life) : nat := sum_list_with work (gs s) + sum_list_with close_work (closers s).

(** The steps without a new event, tick or call. *)
Definition quiet (x : label) : bool := match x with Run _ _ | RunClose _ => true | _ => false end.

Inductive quiet_run : nat → life → life → Prop :=
| quiet_0 s : quiet_run 0 s s
| quiet_S n x s s1 s' : quiet x = true → exec x s = Some s1 → quiet_run n s1 s' → quiet_run (S n) s s'.

Lemma move_work canc g g' new p p' r r' : move canc g g' new p p' r r' → work g' + sum_list_with work new < work g.
Proof. destruct 1 as [| | |l| | |l| |]; cbn; try lia; destruct l; cbn; lia. Qed.

Lemma scanner_quiet_work x s s' : quiet x = true → exec x s = Some s' → to_do s' < to_do s.
Proof.
  intros Hq Hx. rw /to_do. destruct x as [| |i c| |j]; cbn in Hq, Hx; try done.
  - destruct (run_move i c s s' Hx) as (g & g' & new & Hi & Hgs & -> & _ & Hm). rw Hgs sum_list_with_app.
    pose proof (move_work _ _ _ _ _ _ _ _ Hm). pose proof (sum_list_with_insert work (gs s) i g g' Hi). lia.
  - rw /run_close in Hx. destruct (closers s !! j) as [c|] eqn:Hj; [|done].
    have Hins c' := sum_list_with_insert close_work (closers s) j c c' Hj.
    destruct c; repeat case_match; simplify_eq/=;
      [pose proof (Hins CloseCancel)|pose proof (Hins (CloseReturned false))|pose proof (Hins CloseWait)|pose proof (Hins (CloseReturned true))]; cbn in *; lia.
Qed.

Lemma quiet_reachable n s s' : quiet_run n s s' → reachable s → reachable s'.
Proof.
  induction 1 as [|n x s s1 s' _ Hx _ IH]; [done|]. intros Hr. apply IH. rw /reachable. eapply rtc_r; [exact Hr|by exists x].
Qed.

(** C31: every call of [Close] returns: without new events, ticks and calls only so many steps are possible, and when none is
    left all calls have returned.  A call that found the scanner running returns only when every goroutine has ended, and
    none scans or repairs afterwards, whatever happens. *)
Theorem scanner_closes s : reachable s →
  (∀ n s', quiet_run n s s' → n ≤ to_do s ∧
     ((∀ x, quiet x = true → exec x s' = None) → Forall (λ c, ∃ w, c = CloseReturned w) (closers s'))) ∧
  (∀ j s', closers s !! j = Some (CloseReturned true) → rtc life_step s s' → Forall (λ g, g = Ended) (gs s')).
Proof.
  intros Hr. split.
  - intros n s' Hq. split.
    + clear Hr. induction Hq as [s|n x s s1 s' Hx He _ IH]; [lia|]. pose proof (scanner_quiet_work x s s1 Hx He). lia.
    + intros Hstuck. pose proof (reachable_closing s' (quiet_reachable _ _ _ Hq Hr)) as [HW _].
      apply Forall_lookup_2. intros j c Hj. pose proof (Hstuck (RunClose j) eq_refl) as Hn. cbn in Hn. rw /run_close Hj in Hn.
      destruct c as [| | |w]; [by case_match|done| |by exists w].
      case_match eqn:He; [done|]. pose proof (HW j Hj) as Hc. apply not_true_iff_false in He. destruct He.
      apply forallb_ended, Forall_lookup_2. intros i g Hi. destruct (decide (is_ended g = true)) as [Hg|Hg]; [by destruct g|].
      destruct (can_move i g s' Hi Hc) as (ch & s2 & Hrun); [by intros ->|]. pose proof (Hstuck (Run i ch) eq_refl) as Hn'. cbn in Hn'. by rw Hrun in Hn'.
  - intros j s' Hj Hs. destruct (reachable_closing s Hr) as [_ HR]. have HE := HR j Hj. clear HR Hr Hj.
    induction Hs as [|s1 s2 s3 Hst _ IH]; [done|]. apply IH. by rw (ended_stays s1 s2 Hst HE).
Qed.
End life.

(** A call of [Close] before all shards are synced does nothing and returns at once: [update] stays subscribed, and when the
    last shard is done the scanner starts after it was closed.  Here goroutine 1 scans after the only call returned. *)
Lemma Close_too_early : ∃ s,
  exec_all [mkRuntime modeCheckMeta 8192 0] [CallClose; RunClose 0; AllShardsDone 0; Run 0 Go; Run 0 Go; Run 1 TakePermit] (Start New) = Some s ∧
  closers s = [CloseReturned false] ∧ cancelled s = false ∧ gs s !! 1 = Some (Holding (ScanLoop (mkRuntime modeCheckMeta 8192 0))).
Proof. eexists. split; [vm_compute; reflexivity|done]. Qed.

Lemma scanner_exec_all loops xs s s' : exec_all loops xs s = Some s' → rtc (life_step loops) s s'.
Proof.
  revert s. induction xs as [|x xs IH]; intros s; [intros [= ->]; apply rtc_refl|]. rw /exec_all. cbn [foldl mbind option_bind].
  destruct (exec loops x s) as [s1|] eqn:E; last first.
  { clear IH; by induction xs as [|y ys IHn]; [|exact IHn]. }
  intros H. eapply rtc_l; [exists x; exact E|]. by apply IH.
Qed.

(** A scan goes on while the scanner is closed. *)
Definition closing_run : list label :=
  [AllShardsDone 0; Run 0 Go; Run 0 Go; Run 1 TakePermit; Run 0 Go; Run 0 Go; Run 0 Go; CallClose; RunClose 0; RunClose 0;
   Run 1 Go; Run 1 SeeCancel; Run 2 SeeCancel; Run 3 SeeCancel; RunClose 0].

Lemma one_scan_witness : ∃ s, exec_all [mkRuntime modeCheckMeta 8192 0] (take 4 closing_run) (Start New) = Some s ∧
  holders s = 1 ∧ permits s + holders s = 1.
Proof.
  eexists. split; [vm_compute; reflexivity|]. split; [done|]. apply (one_scan [mkRuntime modeCheckMeta 8192 0]).
  apply (scanner_exec_all _ (take 4 closing_run)). vm_compute. reflexivity.
Defined.

Lemma scanner_closes_witness : ∃ s, exec_all [mkRuntime modeCheckMeta 8192 0] closing_run (Start New) = Some s ∧
  closers s = [CloseReturned true] ∧ ∀ s', rtc (life_step [mkRuntime modeCheckMeta 8192 0]) s s' → Forall (λ g, g = Ended) (gs s').
Proof.
  eexists. split; [vm_compute; reflexivity|]. split; [done|]. intros s'.
  apply (proj2 (scanner_closes [mkRuntime modeCheckMeta 8192 0] _ ltac:(apply (scanner_exec_all _ closing_run); vm_compute; reflexivity)) 0 s').
  reflexivity.
Defined.
