(* ===== verification/Archiver.v ===== *)
(** * The blob archiver (ethstorage/archiver)

    The archiver answers the beacon API's requests for the blobs of a block with the ones
    the node stores: the beacon node gives the block's KZG commitments, the L1 node the
    [PutBlob] events of its execution block, which say at which KV index each blob is. *)

From S2P Require Import Prelude Extern EthashSizes Ethash DataFile ChunkCodec DataShard ShardManager StorageManager.
From S2P Require Import GoStrings KvStore BlobSources BlobCache Downloader.

(** ** Errors (utils.go) *)

Definition errUnknownBlock : error := ErrHttp 404 "Block not found".
Definition errBlobNotInES : error := ErrHttp 404 "Blob not found in EthStorage".
Definition errServerError : error := ErrHttp 500 "Internal server error".
Definition errUpstreamError : error := ErrHttp 502 "Upstream beacon node error".
Definition errUnsupportedBeaconVersion : error := ErrHttp 502 "Unsupported beacon block version".
Definition errExecutionBlockNotAvailable : error := ErrHttp 503 "Execution block not available on L1 yet".

Definition isUnknownBlockErr (msg : string) : bool :=
  let msg := ToLower msg in contains msg "not found" || contains msg "unknown block".

Definition newBadRequestError (input : string) : error := ErrHttp 400 input.

(** ** Third-party code *)

(** go-ethereum's [common], [hexutil] and [kzg4844] and protolambda's [gkzg]. *)
Class HexKzg := {
  (** [hexutil.Decode]: [None] for an error *)
  hex_Decode : string → option bytes;
  (** [common.FromHex] and [common.HexToHash]: these accept every string *)
  FromHex : string → bytes;
  HexToHash : string → bytes;
  Bytes2Hex : bytes → string;
  (** [kzg4844.CalcBlobHashV1] and [gkzg.KZGToVersionedHash]: of a 48-byte commitment *)
  CalcBlobHashV1 : bytes → bytes;
  KZGToVersionedHash : bytes → bytes;
  ComputeBlobProof : bytes → bytes → option bytes }.

(** ** Beacon blocks (api.go) *)

Record beaconBlock := mkBeaconBlock { bb_version : string; bb_slot : Z; executionHash : bytes; kzgCommitsAll : list string }.

(** [beaconBlockResponse]: [None] is a nil pointer. *)
Record executionPayload := mkExecutionPayload { ep_BlockHash : option string }.
Record bidMessage := mkBidMessage { bid_BlockHash : option string; bid_BlobKzgCommitments : option (list string) }.
Record blockBody := mkBlockBody {
  ExecutionPayload : option executionPayload;
  BlobKzgCommitments : option (list string);
  SignedExecutionPayloadBid : option (option bidMessage) }.
Record blockMessage := mkBlockMessage { Slot : option string; Body : option blockBody }.
Record beaconBlockResponse := mkBeaconBlockResponse { Version : option string; Data : option (option blockMessage) }.

Section parse.
Context `{HexKzg}.

Definition deref (p : option string) : string := default EmptyString p.

Definition parseSlot (slot : option string) : gores Z :=
  match slot with
  | None => Fail errUpstreamError
  | Some s => match ParseUint s with Some v => mret v | None => Fail errUpstreamError end
  end.

Definition decodeHexFixed (s : string) (size : Z) : option bytes :=
  if negb (String.prefix "0x" s) then None
  else match hex_Decode s with
       | None => None
       | Some b => if zlen b =? size then Some b else None
       end.

Definition decodeBlockHash `{Geth} (s : string) : option bytes := BytesToHash <$> decodeHexFixed s 32.

Definition decodeKZGCommitment (s : string) : option bytes := decodeHexFixed s 48.

(** The hash and the commitments of the version's block. *)
Definition version_fields (version : string) (body : blockBody) : gores (option string * option (list string)) :=
  if decide (version = "deneb"%string ∨ version = "electra"%string ∨ version = "fulu"%string) then
    match ExecutionPayload body with
    | None => Fail errUpstreamError
    | Some p => mret (ep_BlockHash p, BlobKzgCommitments body)
    end
  else if decide (version = "gloas"%string) then
    match SignedExecutionPayloadBid body with
    | Some (Some m) => mret (bid_BlockHash m, bid_BlobKzgCommitments m)
    | _ => Fail errUpstreamError
    end
  else Fail errUnsupportedBeaconVersion.

(** [respObj] is what [json.Unmarshal] makes of the body, [None] for its error. *)
Definition parseBeaconBlock `{Geth} (respObj : option beaconBlockResponse) : gores beaconBlock :=
  match respObj with
  | Some (mkBeaconBlockResponse v (Some (Some (mkBlockMessage slot (Some bodyObj))))) =>
      let version := ToLower (TrimSpace (deref v)) in
      if decide (version = EmptyString) then Fail errUpstreamError
      else
        slot ← parseSlot slot;
        '(blockHashStr, commits) ← version_fields version bodyObj;
        match blockHashStr with
        | None => Fail errUpstreamError
        | Some h =>
            match decodeBlockHash h, commits with
            | Some hash, Some commits =>
                if forallb (λ c, match decodeKZGCommitment c with Some _ => true | None => false end) commits
                then mret (mkBeaconBlock version slot hash commits)
                else Fail errUpstreamError
            | _, _ => Fail errUpstreamError
            end
        end
  | _ => Fail errUpstreamError
  end.

(** The outcome of the HTTP request: it cannot be built, it fails, or it has a status and a body, which may
    not be readable. *)
Inductive fetched :=
| BadRequest
| TransportError
| Response (status : Z) (body : option (option beaconBlockResponse)).

Definition fetchBeaconBlock `{Geth} (f : fetched) : gores beaconBlock :=
  match f with
  | BadRequest => Fail errServerError
  | TransportError => Fail errUpstreamError
  | Response status body =>
      if status =? 404 then Fail errUnknownBlock
      else if (status <? 200) || (300 <=? status) then Fail errUpstreamError
      else match body with
           | None => Fail errUpstreamError
           | Some respObj => parseBeaconBlock respObj
           end
  end.

End parse.

(** ** Queries (api.go) *)

(** The beacon node, by block id ([None] when the URL cannot be built), and the L1 node's
    [FilterLogsByBlockHash]: the logs or the text of the error. *)
Class ChainNodes := {
  get_block : string → option fetched;
  FilterLogsByBlockHash : bytes → list Log + string }.

Record BlobSidecar := mkBlobSidecar { Index : Z; KZGCommitment : bytes; KZGProof : bytes; sc_Blob : bytes }.

Section query.
Context `{GE : Geth} `{HK : HexKzg} `{CN : ChainNodes}.

(** [[n]byte(l)]: the conversion of a slice to an array. *)
Definition to_array (n : Z) (l : bytes) : gores bytes := if zlen l <? n then Panic OutOfRange else Ret (take (Z.to_nat n) l).

(** [map[common.Hash][]int] and [m[h] = append(m[h], i)] *)
Definition index_map := gmap bytes (list Z).
Definition append_index (m : index_map) (h : bytes) (i : Z) : index_map := <[h := default [] (m !! h) ++ [i]]> m.

Definition hashIncluded (hash : bytes) (hashes : list bytes) : bool :=
  match hashes with [] => true | _ => bool_decide (hash ∈ hashes) end.

Definition indexIncluded (index : Z) (indices : list Z) : bool :=
  match indices with [] => true | _ => bool_decide (index ∈ indices) end.

Definition queryBeaconBlock (id : string) : gores beaconBlock :=
  match get_block id with
  | None => Fail errUnknownBlock
  | Some f => fetchBeaconBlock f
  end.

Definition queryPutBlobEvents (block : beaconBlock) : gores (list Log) :=
  match FilterLogsByBlockHash (executionHash block) with
  | inl events => mret events
  | inr msg => if isUnknownBlockErr msg then Fail errExecutionBlockNotAvailable else Fail errServerError
  end.

Definition readBlob (s : StorageManager) (kvIndex : Z) (blobHash : bytes) : gores bytes :=
  match TryRead s kvIndex (int64 (MaxKvSize (s_shardManager s))) blobHash with
  | Fail err => if as_commit_mismatch err then Fail errBlobNotInES else Fail errServerError
  | Ret None => Fail errBlobNotInES
  | Ret (Some blobData) => mret blobData
  | Panic p => Panic p
  end.

(** [big.NewInt(0).SetBytes(event.Topics[1][:]).Uint64()] *)
Definition event_kv (event : Log) : gores Z :=
  t ← index (lg_Topics event) 1;
  mret (wrap64 (be_decode t)).

(** *** [queryBlobs] *)

Definition blob_hash (c : string) : bytes := CalcBlobHashV1 (go_copy (zeros 48) (FromHex c)).

Definition collect_hash (hashes : list bytes) (m : index_map) (ic : Z * string) : index_map :=
  let vh := blob_hash ic.2 in
  if hashIncluded vh hashes then append_index m vh ic.1 else m.

Definition hash_to_indices (hashes : list bytes) (commits : list string) : index_map :=
  foldl (collect_hash hashes) ∅ (zip (seqZ 0 (zlen commits)) commits).

(** [blobsData[index] = v] for every index. *)
Definition set_index {A} (v : A) (l : list A) (i : Z) : gores (list A) :=
  if (0 <=? i) && (i <? zlen l) then Ret (<[Z.to_nat i := v]> l) else Panic OutOfRange.

Definition put_blob (s : StorageManager) (st : list string * index_map) (event : Log) : gores (list string * index_map) :=
  let '(blobsData, m) := st in
  blobHash ← index (lg_Topics event) 3;
  match m !! blobHash with
  | None => mret (blobsData, m)
  | Some indices =>
      kvIndex ← event_kv event;
      blobData ← readBlob s kvIndex blobHash;
      blobsData ← foldM (set_index ("0x" +:+ Bytes2Hex blobData)%string) blobsData indices;
      mret (blobsData, delete blobHash m)
  end.

Definition queryBlobs (s : StorageManager) (id : string) (hashes : list bytes) : gores (list string) :=
  block ← queryBeaconBlock id;
  let hashToIndices := hash_to_indices hashes (kzgCommitsAll block) in
  events ← queryPutBlobEvents block;
  '(blobsData, _) ← foldM (put_blob s) (replicate (length (kzgCommitsAll block)) EmptyString, hashToIndices) events;
  mret (filter (λ data, data ≠ EmptyString) blobsData).

(** *** [queryBlobSidecars] *)

Definition buildSidecar (s : StorageManager) (kvIndex : Z) (kzgCommitment blobHash : bytes) : gores BlobSidecar :=
  blobData ← readBlob s kvIndex blobHash;
  blob ← to_array blob_size blobData;
  commitment ← to_array 48 kzgCommitment;
  match ComputeBlobProof blob commitment with
  | None => Fail errServerError
  | Some kzgProof => mret (mkBlobSidecar 0 commitment kzgProof blob)
  end.

Definition collect_index (indices : list Z) (m : index_map) (ic : Z * string) : gores index_map :=
  if indexIncluded ic.1 indices then
    commit ← to_array 48 (FromHex ic.2);
    mret (append_index m (KZGToVersionedHash commit) ic.1)
  else mret m.

Definition with_index (sc : BlobSidecar) (i : Z) : BlobSidecar := mkBlobSidecar i (KZGCommitment sc) (KZGProof sc) (sc_Blob sc).

Definition put_sidecar (s : StorageManager) (commits : list string) (st : list (option BlobSidecar) * index_map) (event : Log)
    : gores (list (option BlobSidecar) * index_map) :=
  let '(sidecars, m) := st in
  blobHash ← index (lg_Topics event) 3;
  match m !! blobHash with
  | None => mret (sidecars, m)
  | Some blobIndices =>
      kvIndex ← event_kv event;
      first ← index blobIndices 0;
      c ← index commits first;
      sidecar ← buildSidecar s kvIndex (FromHex c) blobHash;
      sidecars ← foldM (λ l i, set_index (Some (with_index sidecar i)) l i) sidecars blobIndices;
      mret (sidecars, delete blobHash m)
  end.

Definition present (l : list (option BlobSidecar)) : list BlobSidecar := omap (λ sc, sc) l.

Definition queryBlobSidecars (s : StorageManager) (id : string) (indices : list Z) : gores (list BlobSidecar) :=
  block ← queryBeaconBlock id;
  let commits := kzgCommitsAll block in
  let blobsInBeacon := zlen commits in
  let indices := if forallb (λ i, i <? blobsInBeacon) indices then indices else [] in
  m ← foldM (collect_index indices) ∅ (zip (seqZ 0 blobsInBeacon) commits);
  events ← queryPutBlobEvents block;
  '(sidecars, _) ← foldM (put_sidecar s commits) (replicate (length commits) None, m) events;
  mret (present sidecars).

(** ** Requests (utils.go and service.go) *)

(** The path's id and the query's values; a repeated key has several values. *)
Record request := mkRequest { r_id : string; r_query : gmap string (list string) }.

Definition isHash (s : string) : bool :=
  (Z.of_nat (String.length s) =? 66) && String.prefix "0x" s && match hex_Decode s with Some _ => true | None => false end.

Definition isSlot (s : string) : bool := match ParseUint s with Some _ => true | None => false end.

Definition knownIds : list string := ["genesis"; "finalized"; "head"]%string.

Definition validateBlockID (id : string) : gores unit :=
  if isHash id || isSlot id || bool_decide (id ∈ knownIds) then mret tt
  else Fail (newBadRequestError ("Invalid block ID: " +:+ id)%string).

(** The values of the query are replaced by their comma-separated parts, encoded and read again, which
    gives them back. *)
Definition normalizeQueryValues (q : gmap string (list string)) : gmap string (list string) :=
  (λ vals, vals ≫= split_comma) <$> q.

Definition query_values (r : request) (key : string) : list string := default [] (normalizeQueryValues (r_query r) !! key).

Definition parseVersionedHashes (r : request) : list bytes := HexToHash <$> query_values r "versioned_hashes".

Definition parse_index (max : Z) (st : list Z * list string) (raw : string) : list Z * list string :=
  let '(indices, invalid) := st in
  match ParseUint raw with
  | None => (indices, invalid ++ [raw])
  | Some ix =>
      if (0 <? max) && (max <=? ix) then (indices, invalid ++ [raw])
      else if bool_decide (ix ∈ indices) then (indices, invalid)
      else (indices ++ [ix], invalid)
  end.

(** [make([]uint64, 0, max)] panics for a negative [max]. *)
Definition parseIndices (r : request) (max : Z) : gores (list Z) :=
  if max <? 0 then Panic OutOfRange
  else
    let '(indices, invalid) := foldl (parse_index max) ([], []) (query_values r "indices") in
    match invalid with
    | [] => mret indices
    | _ => Fail (newBadRequestError "requested blob indices are invalid")
    end.

(** What is written to the client: an error with its code, or the data with 200. *)
Definition not_empty {A} (l : list A) : gores (list A) := match l with [] => Fail errBlobNotInES | _ => mret l end.

Definition blobSidecarHandler (s : StorageManager) (maxBlobsPerBlock : Z) (r : request) : gores (list BlobSidecar) :=
  _ ← validateBlockID (r_id r);
  indices ← parseIndices r maxBlobsPerBlock;
  result ← queryBlobSidecars s (r_id r) indices;
  not_empty result.

Definition blobsHandler (s : StorageManager) (r : request) : gores (list string) :=
  _ ← validateBlockID (r_id r);
  result ← queryBlobs s (r_id r) (parseVersionedHashes r);
  not_empty result.

End query.
