(* ===== verification/ArchiverFacts.v ===== *)
(** * What the archiver answers

    Both queries fill a table with a place for each commitment of the block from the block's
    events; the events are consumed through a map from hashes to places. *)

From S2P Require Import Prelude Extern EthashSizes Ethash DataFile ChunkCodec DataShard ShardManager StorageManager.
From S2P Require Import GoStrings KvStore BlobSources BlobCache Downloader DownloaderFacts BlobReader BlobEncoderFacts Archiver.

(** ** Filling places *)

Lemma set_index_ok {A} (v : A) l i : 0 ≤ i < zlen l → set_index v l i = Ret (<[Z.to_nat i := v]> l).
Proof. intros Hi. rw /set_index. by rw (proj2 (Z.leb_le _ _)) ?(proj2 (Z.ltb_lt _ _)); [lia..|]. Qed.

Lemma set_all {A} (f : Z → A) js : ∀ l, Forall (λ i, 0 ≤ i < zlen l) js →
  ∃ l', foldM (λ l i, set_index (f i) l i) l js = Ret l' ∧ zlen l' = zlen l ∧
    ∀ i, 0 ≤ i < zlen l → l' !! Z.to_nat i = if bool_decide (i ∈ js) then Some (f i) else l !! Z.to_nat i.
Proof.
  induction js as [|j js IH]; intros l Hl.
  - exists l. split_and!; [done..|]. intros i Hi. by rw bool_decide_false; [apply not_elem_of_nil|].
  - apply Forall_cons in Hl as [Hj Hl]. rw foldM_cons set_index_ok //. cbn [mbind gores_bind].
    have Hlen : zlen (<[Z.to_nat j := f j]> l) = zlen l by rw /zlen length_insert.
    destruct (IH (<[Z.to_nat j := f j]> l)) as (l' & E & Hl' & H'); [by rw Hlen|]. exists l'. rw Hlen in Hl' H'.
    split_and!; [done..|]. intros i Hi. rw (H' i Hi). destruct (decide (i = j)) as [->|Hne].
    + rw list_lookup_insert_eq; [rw /zlen in Hj; lia|].
      rw (bool_decide_true (j ∈ j :: js)); [apply list_elem_of_here|]. by case_bool_decide.
    + rw list_lookup_insert_ne; [lia|]. rw (bool_decide_ext (i ∈ j :: js) (i ∈ js)) //. rw elem_of_cons. naive_solver.
Qed.

(** ** The fold over the events *)

Definition topic_hash (ev : Log) : option bytes := lg_Topics ev !! 3%nat.
Definition has_hash (h : bytes) (ev : Log) : bool := bool_decide (topic_hash ev = Some h).
Definition first_event (h : bytes) (events : list Log) : option Log := List.find (has_hash h) events.

Lemma first_event_app h l k : first_event h (l ++ k) = match first_event h l with Some e => Some e | None => first_event h k end.
Proof. rw /first_event. induction l as [|e l IH]; [done|]. cbn [app List.find]. by destruct (has_hash h e). Qed.

Lemma first_event_topic h l ev : first_event h l = Some ev → topic_hash ev = Some h.
Proof. intros H. apply List.find_some in H as [_ H]. by apply bool_decide_eq_true in H. Qed.

Lemma index_topic ev h : topic_hash ev = Some h → index (lg_Topics ev) 3 = Ret h.
Proof. rw /topic_hash /index => H. by rw (_ : lg_Topics ev !! Z.to_nat 3 = Some h). Qed.

Section places.
Context {A B : Type} (n : Z) (Hn : 0 ≤ n) (K : Z → bytes) (incl : Z → bool) (empty : A) (value : B → Z → A).
Context (read : Log → bytes → list Z → gores B).

(** The places of a hash, and the map of them. *)
Definition places (h : bytes) : list Z := filter (λ i, incl i = true ∧ K i = h) (seqZ 0 n).

Definition is_index_map (m : index_map) : Prop := ∀ h, m !! h = if decide (places h = []) then None else Some (places h).

Definition consume (st : list A * index_map) (ev : Log) : gores (list A * index_map) :=
  let '(l, m) := st in
  h ← index (lg_Topics ev) 3;
  match m !! h with
  | None => mret (l, m)
  | Some js =>
      b ← read ev h js;
      l ← foldM (λ l i, set_index (value b i) l i) l js;
      mret (l, delete h m)
  end.

Lemma elem_of_places i h : i ∈ places h ↔ 0 ≤ i < n ∧ incl i = true ∧ K i = h.
Proof. rw /places list_elem_of_filter elem_of_seqZ. naive_solver lia. Qed.

(** What the place [i] holds after the events. *)
Definition place_ok (events : list Log) (i : Z) (v : A) : Prop :=
  match (if incl i then first_event (K i) events else None) with
  | None => v = empty
  | Some ev => ∃ b, read ev (K i) (places (K i)) = Ret b ∧ v = value b i
  end.

Definition consumed (m0 : index_map) (events : list Log) (st : list A * index_map) : Prop :=
  zlen st.1 = n ∧
  (∀ h, st.2 !! h = match first_event h events with Some _ => None | None => m0 !! h end) ∧
  ∀ i, 0 ≤ i < n → ∃ v, st.1 !! Z.to_nat i = Some v ∧ place_ok events i v.

Lemma consumed_start m0 : consumed m0 [] (replicate (Z.to_nat n) empty, m0).
Proof.
  split_and!; [rw /zlen length_replicate; lia|done|]. intros i Hi. exists empty.
  split; [apply lookup_replicate; split; [done|lia]|]. rw /place_ok. by destruct (incl i).
Qed.

Lemma place_ok_snoc events ev i v :
  (incl i = true → first_event (K i) events = None → has_hash (K i) ev = false) →
  place_ok events i v → place_ok (events ++ [ev]) i v.
Proof.
  intros Hne. rw /place_ok. destruct (incl i); [|done]. rw first_event_app. destruct (first_event (K i) events) eqn:E; [done|].
  rw /first_event /=. by rw Hne.
Qed.

Lemma consume_step m0 events st ev st' : is_index_map m0 → consumed m0 events st → consume st ev = Ret st' →
  consumed m0 (events ++ [ev]) st'.
Proof.
  intros Hm (Hl & Hmap & Hp). destruct st as [l m]. cbn [fst snd] in *. rw /consume /index /=.
  destruct (lg_Topics ev !! _) as [h|] eqn:Et; [|done]. cbn [mbind gores_bind].
  have Hh k : has_hash k ev = bool_decide (h = k).
  { rw /has_hash /topic_hash Et. apply bool_decide_ext. naive_solver. }
  have Hlast k : first_event k [ev] = if bool_decide (h = k) then Some ev else None by rw /first_event /= Hh.
  destruct (m !! h) as [js|] eqn:Em.
  - destruct (read ev h js) as [b| |] eqn:Er; [|done..]. cbn [mbind gores_bind].
    have [Hfe Him] : first_event h events = None ∧ m0 !! h = Some js.
    { rw Hmap in Em. by destruct (first_event h events). }
    have His : js = places h by rw Hm in Him; destruct (decide _); [done|]; by injection Him.
    have HF : Forall (λ i, 0 ≤ i < zlen l) js.
    { rw His Hl. apply Forall_forall. intros i Hi%elem_of_places. lia. }
    destruct (set_all (value b) js l HF) as (l' & -> & Hl' & Hlook). cbn [mbind gores_bind]. intros [= <-].
    split_and!; cbn [fst snd].
    + by rw Hl'.
    + intros k. rw first_event_app Hlast. case_bool_decide as Ek.
      * subst k. rw lookup_delete_eq. by destruct (first_event h events).
      * rw lookup_delete_ne // Hmap. by destruct (first_event k events).
    + intros i Hi. rw Hlook; [lia|]. case_bool_decide as Ei.
      * exists (value b i). split; [done|]. rw His in Ei. apply elem_of_places in Ei as (_ & Hi1 & HK).
        rw /place_ok Hi1 HK first_event_app Hfe Hlast bool_decide_true //. exists b. by rw -His.
      * destruct (Hp i Hi) as (v & Hv & Hpv). exists v. split; [done|]. apply place_ok_snoc; [|done].
        intros Hi1 _. rw Hh. apply bool_decide_false. intros ->. apply Ei. rw His. apply elem_of_places. done.
  - intros [= <-]. split_and!; cbn [fst snd]; [done| |].
    + intros k. rw Hmap first_event_app Hlast. destruct (first_event k events) eqn:Ef; [done|]. case_bool_decide as Ek; [|done].
      subst k. by rw Hmap Ef in Em.
    + intros i Hi. destruct (Hp i Hi) as (v & Hv & Hpv). exists v. split; [done|]. apply place_ok_snoc; [|done].
      intros Hi1 Hfe. rw Hh. apply bool_decide_false. intros ->. rw Hmap Hfe Hm in Em. destruct (decide _) as [E|]; [|done].
      have Hin : i ∈ places (K i) by apply elem_of_places. rw E in Hin. by apply not_elem_of_nil in Hin.
Qed.

Lemma consume_all m0 events st : is_index_map m0 →
  foldM consume (replicate (Z.to_nat n) empty, m0) events = Ret st → consumed m0 events st.
Proof.
  intros Hm. revert st. induction events as [|ev events IH] using rev_ind; intros st.
  - intros [= <-]. apply consumed_start.
  - rw foldM_app. destruct (foldM _ _ events) as [st1| |]; [|done..]. cbn [mbind gores_bind]. rw foldM_one.
    intros H. exact (consume_step m0 events st1 ev st Hm (IH st1 eq_refl) H).
Qed.

(** It succeeds when the first event of every hash can be read. *)
Lemma consume_total m0 events : is_index_map m0 → (∀ ev, ev ∈ events → is_Some (topic_hash ev)) →
  (∀ h ev, places h ≠ [] → first_event h events = Some ev → ∃ b, read ev h (places h) = Ret b) →
  ∃ st, foldM consume (replicate (Z.to_nat n) empty, m0) events = Ret st.
Proof.
  intros Hm. induction events as [|ev events IH] using rev_ind; intros Ht Hr; [by eexists|].
  destruct IH as (st & E).
  { intros e He. apply Ht, elem_of_app. by left. }
  { intros h e Hh He. apply (Hr h e Hh). by rw first_event_app He. }
  pose proof (consume_all m0 events st Hm E) as (Hl & Hmap & _). rw foldM_app E. cbn [mbind gores_bind]. rw foldM_one.
  destruct st as [l m]. cbn [fst snd] in *. destruct (Ht ev) as [h Hh]; [apply elem_of_app; right; apply list_elem_of_here|].
  rw /consume (index_topic ev h Hh). cbn [mbind gores_bind].
  destruct (m !! h) as [js|] eqn:Em; [|by eexists]. have Em' := Em. rw Hmap in Em'.
  destruct (first_event h events) eqn:Ef; [done|]. rw Hm in Em'. destruct (decide _) as [|Hne]; [done|]. injection Em' as <-.
  destruct (Hr h ev Hne) as (b & ->).
  { rw first_event_app Ef /first_event /= /has_hash Hh bool_decide_true //. }
  cbn [mbind gores_bind]. destruct (set_all (value b) (places h) l) as (l' & -> & _).
  { rw Hl. apply Forall_forall. intros i Hi%elem_of_places. lia. }
  by eexists.
Qed.

End places.

(** ** The map of the places *)

Section index_map.
Context (K : Z → bytes) (incl : Z → bool).

Definition collect (m : index_map) (i : Z) : index_map := if incl i then append_index m (K i) i else m.

Lemma collect_is_map k : 0 ≤ k → is_index_map k K incl (foldl collect ∅ (seqZ 0 k)).
Proof.
  revert k. apply natlike_ind; [intros h; by rw lookup_empty|]. intros k Hk IH h.
  rw -Z.add_1_r seqZ_app; [lia..|]. rw foldl_app. change (seqZ (0 + k) 1) with [0 + k]. rw Z.add_0_l. cbn [foldl].
  have Hp : places (k + 1) K incl h = places k K incl h ++ (if decide (incl k = true ∧ K k = h) then [k] else []).
  { rw /places seqZ_app; [lia..|]. rw filter_app. f_equal. }
  rw {1}/collect. have H := IH h. destruct (decide (incl k = true ∧ K k = h)) as [[Hi Hk']|Hne].
  - rw Hp Hi /append_index Hk' lookup_insert_eq H. destruct (decide (_ ++ [k] = [])) as [E|_]; [by apply app_nil in E as [_ ?]|].
    by destruct (decide (places k K incl h = [])) as [->|].
  - rw Hp app_nil_r -H. destruct (incl k) eqn:Hi; [|done]. rw /append_index lookup_insert_ne //. naive_solver.
Qed.

End index_map.

Definition commit_at (commits : list string) (i : Z) : string := default EmptyString (commits !! Z.to_nat i).

Lemma zip_commits commits : zip (seqZ 0 (zlen commits)) commits = (λ i, (i, commit_at commits i)) <$> seqZ 0 (zlen commits).
Proof.
  apply list_eq. intros i. rw lookup_zip_with list_lookup_fmap. destruct (decide (Z.of_nat i < zlen commits)) as [Hi|Hi].
  - rw lookup_seqZ_lt; [lia|]. cbn [mbind option_bind fmap option_fmap option_map]. rw /commit_at Z.add_0_l Nat2Z.id.
    destruct (lookup_lt_is_Some_2 commits i) as [c Hc]; [rw /zlen in Hi; lia|]. by rw Hc.
  - by rw lookup_seqZ_ge; [lia|].
Qed.

Lemma foldl_fmap_index {A B} (f : A → B → A) (g : Z → B) l : ∀ a, foldl f a (g <$> l) = foldl (λ a i, f a (g i)) a l.
Proof. induction l as [|x l IH]; intros a; [done|]. apply IH. Qed.

(** ** Blobs *)

Section blobs.
Context `{GE : Geth} `{HK : HexKzg} (s : StorageManager) (hashes : list bytes) (commits : list string).

Definition commit_hash (i : Z) : bytes := blob_hash (commit_at commits i).
Definition requested (i : Z) : bool := hashIncluded (commit_hash i) hashes.
Definition hex_of (b : bytes) (i : Z) : string := ("0x" +:+ Bytes2Hex b)%string.
Definition read_event (ev : Log) (h : bytes) (js : list Z) : gores bytes := kv ← event_kv ev; readBlob s kv h.

Lemma hash_to_indices_map : is_index_map (zlen commits) commit_hash requested (hash_to_indices hashes commits).
Proof. rw /hash_to_indices zip_commits foldl_fmap_index. apply collect_is_map, zlen_nonneg. Qed.

Lemma put_blob_consume st ev : put_blob s st ev = consume hex_of read_event st ev.
Proof.
  destruct st as [l m]. rw /put_blob /consume. destruct (index _ _) as [h| |]; [|done..]. cbn [mbind gores_bind].
  destruct (m !! h); [|done]. rw /read_event. by destruct (event_kv ev).
Qed.

End blobs.

(** A blob that [readBlob] returns has the hash. *)
Lemma readBlob_hash `{GE : Geth} s kv h b : sm_wf (s_shardManager s) → take 24 h ≠ EmptyBlobCommit →
  readBlob s kv h = Ret b → ∃ h', BlobToVersionedHash b = Ret h' ∧ take 24 h' = take 24 h.
Proof.
  intros Hwf Hne. rw /readBlob. destruct (TryRead _ _ _ _) as [[d|]|e|] eqn:E; [|done|by destruct (as_commit_mismatch e)|done].
  intros [= <-]. apply checkCommit_hash; [done|]. exact (TryRead_checked _ _ _ _ Hwf E).
Qed.

Lemma commit_at_lookup commits i c : commits !! i = Some c → 0 ≤ Z.of_nat i < zlen commits ∧ commit_at commits (Z.of_nat i) = c.
Proof.
  intros H. split; [apply lookup_lt_Some in H; rw /zlen; lia|]. by rw /commit_at Nat2Z.id H.
Qed.

Section query.
Context `{GE : Geth} `{HK : HexKzg} `{CN : ChainNodes}.

(** The event that says where the blob of a commitment is, if the blob is asked for. *)
Definition source_of (hashes : list bytes) (events : list Log) (c : string) : option Log :=
  if hashIncluded (blob_hash c) hashes then first_event (blob_hash c) events else None.

Lemma queryBlobs_places s id hashes out block events :
  queryBeaconBlock id = Ret block → queryPutBlobEvents block = Ret events → queryBlobs s id hashes = Ret out →
  ∃ slots, length slots = length (kzgCommitsAll block) ∧ out = filter (λ d, d ≠ EmptyString) slots ∧
    ∀ i c, kzgCommitsAll block !! i = Some c →
    match source_of hashes events c with
    | None => slots !! i = Some EmptyString
    | Some ev => ∃ kv b, event_kv ev = Ret kv ∧ readBlob s kv (blob_hash c) = Ret b ∧ slots !! i = Some ("0x" +:+ Bytes2Hex b)%string
    end.
Proof.
  intros EB EE. rw /queryBlobs EB. cbn [mbind gores_bind]. rw EE. cbn [mbind gores_bind]. set (commits := kzgCommitsAll block).
  rw (foldM_ext _ (consume hex_of (read_event s))); [intros; apply put_blob_consume|].
  rw (_ : length commits = Z.to_nat (zlen commits)); [rw /zlen; lia|].
  destruct (foldM _ _ _) as [[slots m]| |] eqn:E; [|done..]. intros [= <-].
  apply (consume_all (zlen commits) (zlen_nonneg _) (commit_hash commits) (requested hashes commits)) in E as (Hl & _ & Hp);
    [|apply hash_to_indices_map]. cbn [fst] in Hl, Hp. exists slots. split_and!; [rw /zlen in Hl *; lia|done|].
  intros i c Hc. destruct (commit_at_lookup _ _ _ Hc) as [Hi Hat]. destruct (Hp _ Hi) as (v & Hv & Hok). rw Nat2Z.id in Hv.
  move: Hok. rw /place_ok /requested /commit_hash Hat -/(source_of hashes events c).
  destruct (source_of hashes events c) as [ev|]; [|by intros <-]. intros (b & Hb & ->). move: Hb. rw /read_event.
  destruct (event_kv ev) as [kv| |] eqn:Ekv; [|done..]. intros Hb. by exists kv, b.
Qed.

(** C25: what the archiver's [queryBlobs] returns: one entry for each commitment of the block whose blob was asked for
    and put to the contract in that block, in the order of the commitments (repeated ones repeat); each is
    the blob of the first event with its hash, read from the storage, and has that hash on the 24 bytes kept. *)
Theorem queryBlobs_sound s id hashes out :
  sm_wf (s_shardManager s) → queryBlobs s id hashes = Ret out →
  ∃ block events slots, queryBeaconBlock id = Ret block ∧ queryPutBlobEvents block = Ret events ∧
    length slots = length (kzgCommitsAll block) ∧ out = filter (λ d, d ≠ EmptyString) slots ∧
    ∀ i c, kzgCommitsAll block !! i = Some c →
    match source_of hashes events c with
    | None => slots !! i = Some EmptyString
    | Some ev => ∃ kv b, event_kv ev = Ret kv ∧ readBlob s kv (blob_hash c) = Ret b ∧
        slots !! i = Some ("0x" +:+ Bytes2Hex b)%string ∧
        (take 24 (blob_hash c) ≠ EmptyBlobCommit → ∃ h', BlobToVersionedHash b = Ret h' ∧ take 24 h' = take 24 (blob_hash c))
    end.
Proof.
  intros Hwf HQ. have HQ' := HQ. rw /queryBlobs in HQ'. destruct (queryBeaconBlock id) as [block| |] eqn:EB; [|done..].
  cbn [mbind gores_bind] in HQ'. destruct (queryPutBlobEvents block) as [events| |] eqn:EE; [|done..]. clear HQ'.
  destruct (queryBlobs_places s id hashes out block events EB EE HQ) as (slots & Hl & Hout & Hs).
  exists block, events, slots. split_and!; [done..|]. intros i c Hc. have H := Hs i c Hc.
  destruct (source_of hashes events c); [|done]. destruct H as (kv & b & H1 & H2 & H3). exists kv, b. split_and!; [done..|].
  intros Hne. exact (readBlob_hash s kv _ b Hwf Hne H2).
Qed.

(** [queryBlobs] does answer when it can: if the events have their four topics and the blob of the first event of
    each asked commitment can be read, it returns the blobs, without an error or a panic. *)
Theorem queryBlobs_answers s id hashes block events :
  queryBeaconBlock id = Ret block → queryPutBlobEvents block = Ret events →
  (∀ ev, ev ∈ events → 4 ≤ zlen (lg_Topics ev)) →
  (∀ c ev, c ∈ kzgCommitsAll block → source_of hashes events c = Some ev →
     ∃ kv b, event_kv ev = Ret kv ∧ readBlob s kv (blob_hash c) = Ret b) →
  ∃ out, queryBlobs s id hashes = Ret out.
Proof.
  intros EB EE Ht Hr. rw /queryBlobs EB. cbn [mbind gores_bind]. rw EE. cbn [mbind gores_bind]. set (commits := kzgCommitsAll block).
  rw (foldM_ext _ (consume hex_of (read_event s))); [intros; apply put_blob_consume|].
  rw (_ : length commits = Z.to_nat (zlen commits)); [rw /zlen; lia|].
  destruct (consume_total (zlen commits) (zlen_nonneg _) (commit_hash commits) (requested hashes commits) EmptyString hex_of
    (read_event s) (hash_to_indices hashes commits) events) as ([slots m] & ->); [apply hash_to_indices_map| | |by eexists].
  - intros ev Hev. have := Ht ev Hev. rw /zlen /topic_hash => H. apply lookup_lt_is_Some_2. lia.
  - intros h ev Hne Hf. destruct (places _ _ _ h) as [|i js] eqn:Ep; [done|].
    have Hin : i ∈ places (zlen commits) (commit_hash commits) (requested hashes commits) h by rw Ep; apply list_elem_of_here.
    apply elem_of_places in Hin as (Hi & Hreq & Hk). rw /commit_hash in Hk. rw /requested /commit_hash Hk in Hreq.
    destruct (Hr (commit_at commits i) ev) as (kv & b & H1 & H2).
    + destruct (lookup_lt_is_Some_2 commits (Z.to_nat i)) as [c Hc]; [rw /zlen in Hi; lia|].
      rw /commit_at Hc. exact (list_elem_of_lookup_2 _ _ _ Hc).
    + by rw /source_of Hk Hreq.
    + exists b. rw /read_event H1. cbn [mbind gores_bind]. by rw -Hk.
Qed.

End query.

(** ** Sidecars *)

(** "FromHex returns the bytes represented by the hexadecimal string s. s may be prefixed with 0x." *)
Class HexLaws (HK : HexKzg) : Prop := { FromHex_Decode s b : hex_Decode s = Some b → FromHex s = b }.

Section sidecars.
Context `{GE : Geth} `{HK : HexKzg} {HL : HexLaws HK} `{CN : ChainNodes}.

Lemma parsed_commitments respObj block c : parseBeaconBlock respObj = Ret block → c ∈ kzgCommitsAll block → zlen (FromHex c) = 48.
Proof using HL.
  rw /parseBeaconBlock. destruct respObj as [[v [[[slot [body|]]|]|]]|]; [|done..]. case_decide; [done|].
  destruct (parseSlot slot) as [sl| |]; [|done..]. cbn [mbind gores_bind].
  destruct (version_fields _ _) as [[bh cs]| |]; [|done..]. cbn [mbind gores_bind]. destruct bh as [bh|]; [|done].
  destruct (decodeBlockHash bh) as [hash|]; [|done]. destruct cs as [cs|]; [|done]. destruct (forallb _ _) eqn:Ef; [|done].
  intros [= <-] Hc. cbn [kzgCommitsAll] in Hc. apply list_elem_of_In in Hc.
  have Hx := proj1 (forallb_forall _ _) Ef c Hc. move: Hx. rw /= /decodeKZGCommitment /decodeHexFixed.
  destruct (negb _); [done|]. destruct (hex_Decode c) as [b|] eqn:Ed; [|done]. destruct (Z.eqb_spec (zlen b) 48) as [El|]; [|done].
  intros _. by rw (FromHex_Decode c b Ed).
Qed.

Lemma block_commitments id block c : queryBeaconBlock id = Ret block → c ∈ kzgCommitsAll block → zlen (FromHex c) = 48.
Proof using HL.
  rw /queryBeaconBlock. destruct (get_block id) as [[| |st [ro|]]|]; [done..| | |done].
  - rw /fetchBeaconBlock. destruct (_ =? _); [done|]. destruct (_ || _); [done|]. apply parsed_commitments.
  - rw /fetchBeaconBlock. destruct (_ =? _); [done|]. by destruct (_ || _).
Qed.

Section block.
Context (s : StorageManager) (indices : list Z) (commits : list string) (Hc : ∀ c, c ∈ commits → zlen (FromHex c) = 48).

Definition sidecar_hash (i : Z) : bytes := KZGToVersionedHash (FromHex (commit_at commits i)).
Definition asked (i : Z) : bool := indexIncluded i indices.
Definition sidecar_of (sc : BlobSidecar) (i : Z) : option BlobSidecar := Some (with_index sc i).
Definition build_event (ev : Log) (h : bytes) (js : list Z) : gores BlobSidecar :=
  kv ← event_kv ev;
  first ← index js 0;
  c ← index commits first;
  buildSidecar s kv (FromHex c) h.

Lemma commit_at_in i : 0 ≤ i < zlen commits → commit_at commits i ∈ commits.
Proof using.
  intros Hi. destruct (lookup_lt_is_Some_2 commits (Z.to_nat i)) as [c Hl]; [rw /zlen in Hi; lia|].
  rw /commit_at Hl. exact (list_elem_of_lookup_2 _ _ _ Hl).
Qed.

Lemma to_array_self n l : zlen l = n → to_array n l = Ret l.
Proof using. intros <-. rw /to_array Z.ltb_irrefl /zlen Nat2Z.id firstn_all. done. Qed.

Lemma collect_index_eq m i c : zlen (FromHex c) = 48 →
  collect_index indices m (i, c) = Ret (if indexIncluded i indices then append_index m (KZGToVersionedHash (FromHex c)) i else m).
Proof using. intros Hl. rw /collect_index /=. destruct (indexIncluded i indices); [|done]. by rw to_array_self. Qed.

Lemma collect_indices l : (∀ i, i ∈ l → 0 ≤ i < zlen commits) → ∀ m,
  foldM (collect_index indices) m ((λ i, (i, commit_at commits i)) <$> l) = Ret (foldl (collect sidecar_hash asked) m l).
Proof using Hc.
  induction l as [|i l IH]; intros Hl m; [done|]. have Hi := Hl i (list_elem_of_here _ _).
  rw fmap_cons foldM_cons collect_index_eq; [by apply Hc, commit_at_in|]. cbn [foldl mbind gores_bind].
  exact (IH (λ i H, Hl i (list_elem_of_further _ _ _ H)) _).
Qed.

Lemma put_sidecar_consume st ev : put_sidecar s commits st ev = consume sidecar_of build_event st ev.
Proof using.
  destruct st as [l m]. rw /put_sidecar /consume. destruct (index (lg_Topics ev) 3) as [h| |]; [|done..]. cbn [mbind gores_bind].
  destruct (m !! h) as [js|]; [|done]. rw /build_event. destruct (event_kv ev); [|done..]. cbn [mbind gores_bind].
  destruct (index js 0) as [i| |]; [|done..]. cbn [mbind gores_bind]. by destruct (index commits i).
Qed.

Lemma build_event_inv ev h sc : places (zlen commits) sidecar_hash asked h ≠ [] →
  build_event ev h (places (zlen commits) sidecar_hash asked h) = Ret sc →
  ∃ kv blobData, KZGToVersionedHash (KZGCommitment sc) = h ∧ event_kv ev = Ret kv ∧ readBlob s kv h = Ret blobData ∧
    sc_Blob sc = take (Z.to_nat blob_size) blobData ∧ ComputeBlobProof (sc_Blob sc) (KZGCommitment sc) = Some (KZGProof sc).
Proof using Hc.
  intros Hne. rw /build_event. destruct (event_kv ev) as [kv| |]; [|done..]. cbn [mbind gores_bind].
  destruct (places _ _ _ _) as [|i js] eqn:Ep; [done|]. have Hin : i ∈ i :: js by apply list_elem_of_here.
  rw -Ep in Hin. apply elem_of_places in Hin as (Hi & _ & Hk). change (index (i :: js) 0) with (Ret i). cbn [mbind gores_bind].
  destruct (lookup_lt_is_Some_2 commits (Z.to_nat i)) as [c Hl]; [rw /zlen in Hi; lia|].
  have Ec : commit_at commits i = c by rw /commit_at Hl.
  rw /index (proj2 (Z.leb_le _ _)); [lia|]. rw Hl. cbn [mbind gores_bind]. rw /buildSidecar.
  destruct (readBlob s kv h) as [d| |] eqn:ER; [|done..]. cbn [mbind gores_bind].
  destruct (to_array blob_size d) as [bl| |] eqn:Ea; [|done..]. move: Ea. rw /to_array. destruct (_ <? _); [done|]. intros [= <-].
  cbn [mbind gores_bind]. rw -/(to_array 48 (FromHex c)) to_array_self; [rw -Ec; by apply Hc, commit_at_in|]. cbn [mbind gores_bind].
  destruct (ComputeBlobProof _ _) as [p|] eqn:Epf; [|done]. intros [= <-]. exists kv, d.
  rw /sidecar_hash Ec in Hk. done.
Qed.

Lemma sidecar_place events i v : 0 ≤ i < zlen commits →
  place_ok (zlen commits) sidecar_hash asked None sidecar_of build_event events i v →
  match (if asked i then first_event (sidecar_hash i) events else None) with
  | None => v = None
  | Some ev => ∃ sc kv blobData, v = Some sc ∧ Index sc = i ∧
      KZGToVersionedHash (KZGCommitment sc) = sidecar_hash i ∧ event_kv ev = Ret kv ∧ readBlob s kv (sidecar_hash i) = Ret blobData ∧
      sc_Blob sc = take (Z.to_nat blob_size) blobData ∧ ComputeBlobProof (sc_Blob sc) (KZGCommitment sc) = Some (KZGProof sc)
  end.
Proof using Hc.
  intros Hi. rw /place_ok. destruct (asked i) eqn:Ha; [|done]. destruct (first_event (sidecar_hash i) events) as [ev|]; [|done].
  intros (sc & Hb & ->). destruct (build_event_inv ev (sidecar_hash i) sc) as (kv & d & H1 & H2 & H3 & H4 & H5); [|done|].
  - intros Hnil. have Hin : i ∈ places (zlen commits) sidecar_hash asked (sidecar_hash i) by apply elem_of_places.
    rw Hnil in Hin. by apply not_elem_of_nil in Hin.
  - by exists (with_index sc i), kv, d.
Qed.

End block.

(** What [queryBlobSidecars] returns, when the commitments decode: one sidecar for each asked position
    of the block (all of them if none is asked for, or one is out of range) whose commitment has an event, in the order of the
    positions; it carries its own position, a commitment with the position's versioned hash, the blob of the first event
    with that hash, and the proof of the blob for the commitment. *)
Theorem queryBlobSidecars_sound s id indices out :
  queryBlobSidecars s id indices = Ret out →
  ∃ block events slots, queryBeaconBlock id = Ret block ∧ queryPutBlobEvents block = Ret events ∧
    let commits := kzgCommitsAll block in
    let effective := if forallb (λ i, i <? zlen commits) indices then indices else [] in
    zlen slots = zlen commits ∧ out = present slots ∧
    ∀ i, 0 ≤ i < zlen commits →
    let h := KZGToVersionedHash (FromHex (commit_at commits i)) in
    match (if indexIncluded i effective then first_event h events else None) with
    | None => slots !! Z.to_nat i = Some None
    | Some ev => ∃ sc kv blobData, slots !! Z.to_nat i = Some (Some sc) ∧ Index sc = i ∧
        KZGToVersionedHash (KZGCommitment sc) = h ∧ event_kv ev = Ret kv ∧ readBlob s kv h = Ret blobData ∧
        sc_Blob sc = take (Z.to_nat blob_size) blobData ∧ ComputeBlobProof (sc_Blob sc) (KZGCommitment sc) = Some (KZGProof sc)
    end.
Proof using HL.
  rw /queryBlobSidecars. destruct (queryBeaconBlock id) as [block| |] eqn:EB; [|done..]. cbn [mbind gores_bind].
  set (commits := kzgCommitsAll block). set (effective := if forallb _ indices then indices else []).
  have Hc c : c ∈ commits → zlen (FromHex c) = 48 by exact (block_commitments id block c EB).
  rw zip_commits collect_indices //; [intros i Hi%elem_of_seqZ; lia|]. cbn [mbind gores_bind].
  destruct (queryPutBlobEvents block) as [events| |] eqn:EE; [|done..]. cbn [mbind gores_bind].
  rw (foldM_ext _ (consume sidecar_of (build_event s commits))); [intros; apply put_sidecar_consume|].
  rw (_ : length commits = Z.to_nat (zlen commits)); [rw /zlen; lia|].
  destruct (foldM _ _ _) as [[slots m]| |] eqn:E; [|done..]. intros [= <-].
  apply (consume_all (zlen commits) (zlen_nonneg _) (sidecar_hash commits) (asked effective)) in E as (Hl & _ & Hp);
    [|apply collect_is_map, zlen_nonneg]. cbn [fst] in Hl, Hp.
  exists block, events, slots. split_and!; [done..|]. intros i Hi. destruct (Hp i Hi) as (v & Hv & Hok). cbv zeta.
  have H := sidecar_place s effective commits Hc events i v Hi Hok. rw /asked /sidecar_hash in H.
  destruct (if indexIncluded i effective then _ else _) as [ev|].
  - destruct H as (sc & kv & d & -> & H). exists sc, kv, d. done.
  - by rw Hv H.
Qed.

End sidecars.

(** ** Errors *)

Section errors.
Context `{GE : Geth} `{HK : HexKzg} `{CN : ChainNodes}.

Definition known_version (v : string) : Prop := v ∈ ["deneb"; "electra"; "fulu"; "gloas"]%string.

Lemma version_fields_cases v body :
  (∃ x, version_fields v body = Ret x ∧ known_version v) ∨ version_fields v body = Fail errUpstreamError ∨
  (version_fields v body = Fail errUnsupportedBeaconVersion ∧ ¬ known_version v).
Proof.
  rw /version_fields /known_version. case_decide as Hv.
  - destruct (ExecutionPayload body); [left|by right; left]. eexists. split; [done|]. rw !elem_of_cons. naive_solver.
  - case_decide as Hg.
    + destruct (SignedExecutionPayloadBid body) as [[m|]|]; [left|by right; left..]. eexists. split; [done|]. rw !elem_of_cons. naive_solver.
    + right. right. split; [done|]. rw !elem_of_cons. intros [|[|[|[|H]]]]; try naive_solver. by apply not_elem_of_nil in H.
Qed.

Lemma parseBeaconBlock_cases respObj :
  (∃ block, parseBeaconBlock respObj = Ret block ∧ known_version (bb_version block) ∧
     Forall (λ c, is_Some (decodeKZGCommitment c)) (kzgCommitsAll block)) ∨
  parseBeaconBlock respObj = Fail errUpstreamError ∨
  (parseBeaconBlock respObj = Fail errUnsupportedBeaconVersion ∧ ∃ v d, respObj = Some (mkBeaconBlockResponse v d) ∧
     ¬ known_version (ToLower (TrimSpace (deref v)))).
Proof.
  rw /parseBeaconBlock. destruct respObj as [[v [[[slot [body|]]|]|]]|]; [|by right; left..]. case_decide; [by right; left|].
  destruct (parseSlot slot) as [sl|e|p] eqn:Es; cbn [mbind gores_bind].
  2,3: move: Es; rw /parseSlot; destruct slot as [sl|]; [destruct (ParseUint sl)|]; intros [=]; subst; by right; left.
  destruct (version_fields_cases (ToLower (TrimSpace (deref v))) body) as [([bh cs] & -> & Hk)|[->|[-> Hk]]]; cbn [mbind gores_bind].
  - destruct bh as [bh|]; [|by right; left]. destruct (decodeBlockHash bh) as [hash|]; [|by right; left].
    destruct cs as [cs|]; [|by right; left]. destruct (forallb _ _) eqn:Ef; [left|by right; left]. eexists. split_and!; [done..|].
    apply Forall_forall. intros c Hc%list_elem_of_In. have Hx := proj1 (forallb_forall _ _) Ef c Hc. simpl in Hx.
    destruct (decodeKZGCommitment c); [done|discriminate].
  - by right; left.
  - right. right. split; [done|]. by exists v, (Some (Some (mkBlockMessage slot (Some body)))).
Qed.

(** The beacon node's block is never silently taken as missing: fetching it gives a block of a known version whose
    commitments all decode, or an error; "block not found" (404) only for the beacon node's own 404, "unsupported version" only for a
    version that is not known, and everything else that is wrong with the answer is the upstream error 502. *)
Theorem fetchBeaconBlock_classified f :
  (∃ block, fetchBeaconBlock f = Ret block ∧ known_version (bb_version block) ∧
     Forall (λ c, is_Some (decodeKZGCommitment c)) (kzgCommitsAll block)) ∨
  (∃ e, fetchBeaconBlock f = Fail e ∧
     (e = errUpstreamError ∨ (e = errServerError ∧ f = BadRequest) ∨ (e = errUnknownBlock ∧ ∃ b, f = Response 404 b) ∨
      (e = errUnsupportedBeaconVersion ∧ ∃ st v d, f = Response st (Some (Some (mkBeaconBlockResponse v d))) ∧
         ¬ known_version (ToLower (TrimSpace (deref v)))))).
Proof.
  destruct f as [| |st body]; cbn [fetchBeaconBlock]; [right; eexists; split; [done|]; naive_solver..|].
  destruct (Z.eqb_spec st 404) as [->|]; [right; eexists; split; [done|]; naive_solver|].
  destruct (_ || _); [right; eexists; split; [done|]; naive_solver|].
  destruct body as [ro|]; [|right; eexists; split; [done|]; naive_solver].
  destruct (parseBeaconBlock_cases ro) as [H|[->|[-> (v & d & -> & Hv)]]]; [by left|right; eexists; split; [done|]; naive_solver|].
  right. eexists. split; [done|]. do 3 right. split; [done|]. by exists st, v, d.
Qed.

(** An overwritten blob hides the others: when the blob of the block's first event was asked for and its KV holds
    other data by now, [queryBlobs] answers "not found" for the whole request, whatever the later events say about the same
    blob or the other ones. *)
Theorem queryBlobs_stops s id hashes block ev rest h kv :
  queryBeaconBlock id = Ret block → queryPutBlobEvents block = Ret (ev :: rest) → topic_hash ev = Some h → event_kv ev = Ret kv →
  hash_to_indices hashes (kzgCommitsAll block) !! h ≠ None → readBlob s kv h = Fail errBlobNotInES →
  queryBlobs s id hashes = Fail errBlobNotInES.
Proof.
  intros EB EE Ht Hkv Hm Hr. rw /queryBlobs EB. cbn [mbind gores_bind]. rw EE. cbn [mbind gores_bind]. rw foldM_cons.
  have -> : put_blob s (replicate (length (kzgCommitsAll block)) EmptyString, hash_to_indices hashes (kzgCommitsAll block)) ev =
    Fail errBlobNotInES; [|done].
  rw /put_blob (index_topic ev h Ht). cbn [mbind gores_bind].
  destruct (_ !! h) as [js|]; [|done]. rw Hkv. cbn [mbind gores_bind]. by rw Hr.
Qed.

End errors.

(** ** Requests *)

Lemma parse_index_inv max raws :
  let '(indices, invalid) := foldl (parse_index max) ([], []) raws in
  NoDup indices ∧
  (∀ x, x ∈ indices ↔ ∃ raw, raw ∈ raws ∧ ParseUint raw = Some x ∧ (0 < max → x < max)) ∧
  (invalid = [] ↔ ∀ raw, raw ∈ raws → ∃ x, ParseUint raw = Some x ∧ (0 < max → x < max)).
Proof.
  induction raws as [|raw raws IH] using rev_ind.
  { cbn. split_and!; [constructor|intros x; split; [by intros ?%not_elem_of_nil|by intros (? & ?%not_elem_of_nil & _)]|].
    split; [by intros _ raw ?%not_elem_of_nil|done]. }
  rw foldl_app. cbn [foldl]. destruct (foldl _ _ raws) as [indices invalid]. destruct IH as (Hn & Hin & Hinv).
  have Hsnoc (P : string → Prop) : (∀ r, r ∈ raws ++ [raw] → P r) ↔ (∀ r, r ∈ raws → P r) ∧ P raw.
  { setoid_rewrite elem_of_app. setoid_rewrite list_elem_of_singleton. naive_solver. }
  have Hex (P : string → Prop) : (∃ r, r ∈ raws ++ [raw] ∧ P r) ↔ (∃ r, r ∈ raws ∧ P r) ∨ P raw.
  { setoid_rewrite elem_of_app. setoid_rewrite list_elem_of_singleton. naive_solver. }
  have Hbad : invalid ++ [raw] ≠ [] by intros [_ ?]%app_nil.
  cbn [parse_index]. destruct (ParseUint raw) as [ix|] eqn:Ep; [destruct ((0 <? max) && (max <=? ix)) eqn:Eb; [|case_bool_decide]|].
  - have [H1 H2] : 0 < max ∧ max ≤ ix by lia. split_and!; [done| |].
    + intros x. rw Hin Hex Ep. naive_solver lia.
    + rw Hsnoc Ep. naive_solver lia.
  - have Hlt : 0 < max → ix < max by lia. split_and!; [done| |].
    + intros x. rw Hin Hex Ep. split; [naive_solver|]. intros [?|[[= <-] _]]; [done|]. by apply Hin.
    + rw Hinv Hsnoc Ep. naive_solver.
  - have Hlt : 0 < max → ix < max by lia. split_and!.
    + apply NoDup_app. split_and!; [done| |apply NoDup_singleton]. intros x Hx ->%list_elem_of_singleton. done.
    + intros x. rw elem_of_app list_elem_of_singleton Hin Hex Ep. naive_solver.
    + rw Hinv Hsnoc Ep. naive_solver.
  - split_and!; [done| |].
    + intros x. rw Hin Hex Ep. naive_solver.
    + rw Hsnoc Ep. naive_solver.
Qed.

(** [parseIndices] gives each asked index once, and exactly the asked ones, when all the values of the query, split at
    commas, are decimal numbers of 64 bits below the limit (0 is no limit); otherwise it is a bad request (400). *)
Theorem parseIndices_spec r max : 0 ≤ max →
  let raws := query_values r "indices" in
  if forallb (λ raw, match ParseUint raw with Some x => (max <=? 0) || (x <? max) | None => false end) raws
  then ∃ l, parseIndices r max = Ret l ∧ NoDup l ∧ ∀ x, x ∈ l ↔ ∃ raw, raw ∈ raws ∧ ParseUint raw = Some x
  else ∃ msg, parseIndices r max = Fail (ErrHttp 400 msg).
Proof.
  intros Hmax. cbv zeta. rw /parseIndices (proj2 (Z.ltb_ge _ _)) //. have H := parse_index_inv max (query_values r "indices").
  destruct (foldl _ _ _) as [indices invalid]. destruct H as (Hn & Hin & Hinv). destruct (forallb _ _) eqn:Ef.
  - have Hall raw : raw ∈ query_values r "indices" → ∃ x, ParseUint raw = Some x ∧ (0 < max → x < max).
    { intros Hr%list_elem_of_In. have Hx := proj1 (forallb_forall _ _) Ef raw Hr. simpl in Hx.
      destruct (ParseUint raw) as [x|]; [|done]. exists x. split; [done|lia]. }
    rw (proj2 Hinv Hall). exists indices. split_and!; [done..|]. intros x. rw Hin. split; [naive_solver|].
    intros (raw & Hr & Hp). exists raw. destruct (Hall raw Hr) as (x' & Hx' & Hlt). rw Hp in Hx'. naive_solver.
  - destruct invalid as [|w ws]; [|by eexists]. exfalso. have Hall := proj1 Hinv eq_refl. apply not_true_iff_false in Ef. apply Ef.
    apply forallb_forall. intros raw Hr%list_elem_of_In. destruct (Hall raw Hr) as (x & -> & Hlt). lia.
Qed.

(** ** An example: a block whose two commitments are the same, stored at KV 3 *)

Definition ex_three (b : bytes) : string := String.concat "" ((λ x, String (chr (Z.to_nat (48 + x))) EmptyString) <$> take 3 b).

#[local] Instance ex_hex : HexKzg := {
  hex_Decode s := if bool_decide (s = "0xhash"%string) then Some (replicate 32 2) else Some (replicate 48 1);
  FromHex s := if bool_decide (s = "0xhash"%string) then replicate 32 2 else replicate 48 1;
  HexToHash s := if bool_decide (s = "0xasked"%string) then ex_commit else zeros 32;
  Bytes2Hex := ex_three;
  CalcBlobHashV1 _ := ex_commit;
  KZGToVersionedHash _ := ex_commit;
  ComputeBlobProof _ _ := None }.

Definition ex_response : beaconBlockResponse :=
  mkBeaconBlockResponse (Some " Deneb"%string) (Some (Some (mkBlockMessage (Some "5"%string) (Some
    (mkBlockBody (Some (mkExecutionPayload (Some "0xhash"%string))) (Some ["0xc"; "0xc"]%string) None))))).

#[local] Instance ex_nodes : ChainNodes := {
  get_block id := if bool_decide (id = "5"%string) then Some (Response 200 (Some (Some ex_response))) else Some (Response 404 None);
  FilterLogsByBlockHash _ := inl [mkLog 5 [zeros 32; be_encode 32 3; be_encode 32 128; ex_commit]] }.

Definition ex_archive : StorageManager := mkStorageManager 1 (TryWrite 3 [9; 8; 7] ex_commit ex_sm).2 5 4 ∅ 0.

Lemma ex_archive_wf : sm_wf (s_shardManager ex_archive).
Proof.
  destruct (TryWrite_ok ex_sm 3 [9; 8; 7] ex_commit ex_sm_wf ex_sm_stored ltac:(by vm_compute) ltac:(by vm_compute) ex_sm_maskable)
    as (sm' & E & Hw & _). rw /ex_archive E. exact (sw_wf _ _ _ _ Hw).
Qed.

Lemma queryBlobs_sound_witness : queryBlobs ex_archive "5" [] = Ret ["0x987"; "0x987"]%string ∧
  ∃ block, queryBeaconBlock "5" = Ret block ∧ kzgCommitsAll block = ["0xc"; "0xc"]%string.
Proof.
  have E : queryBlobs ex_archive "5" [] = Ret ["0x987"; "0x987"]%string by vm_compute.
  split; [exact E|]. destruct (queryBlobs_sound ex_archive "5" [] _ ex_archive_wf E) as (block & events & slots & H & _).
  exists block. split; [exact H|]. vm_compute in H. by injection H as <-.
Defined.

Lemma queryBlobs_answers_witness : ∃ out, queryBlobs ex_archive "5" [ex_commit] = Ret out.
Proof.
  apply (queryBlobs_answers ex_archive "5" [ex_commit]
    (mkBeaconBlock "deneb" 5 (replicate 32 2) ["0xc"; "0xc"]%string) [mkLog 5 [zeros 32; be_encode 32 3; be_encode 32 128; ex_commit]]).
  - vm_compute. reflexivity.
  - reflexivity.
  - intros ev ->%list_elem_of_singleton. vm_compute. discriminate.
  - intros c ev Hc Hs. exists 3, (padded 128 [9; 8; 7]).
    have -> : ev = mkLog 5 [zeros 32; be_encode 32 3; be_encode 32 128; ex_commit].
    { vm_compute in Hs. by injection Hs as <-. }
    split; vm_compute; reflexivity.
Defined.

Definition ex_request : request := mkRequest "5" (<["indices"%string := ["1,0"; "1"]%string]> ∅).

Lemma parseIndices_spec_witness : ∃ l, parseIndices ex_request 6 = Ret l ∧ NoDup l ∧ (0 ∈ l).
Proof.
  have H := parseIndices_spec ex_request 6 ltac:(lia).
  have E : query_values ex_request "indices" = ["1"; "0"; "1"]%string by vm_compute.
  cbv zeta in H. rw E in H. destruct H as (l & H1 & H2 & H3). exists l. split; [exact H1|]. split; [exact H2|].
  apply H3. exists "0"%string. split; [|reflexivity]. rw !elem_of_cons. naive_solver.
Defined.
