(* ===== verification/StartUp.v ===== *)
(** * Creating and opening the storage (cmd/es-node and node.go)

    [es-node init] reads the sizes of the shards from the contract, chooses shards and creates a data file for
    each; the node opens the files it is started with and builds the shard manager; [es-node sync] fetches a
    single blob from another node and stores it. *)

From stdpp Require Import pretty.
From S2P Require Import Prelude Bits Extern EthashSizes Ethash DataFile ChunkCodec DataShard ShardManager StorageManager.
From S2P Require Import GoStrings KvStore BlobSources.

(** ** The storage configuration (utils.go) *)

Record StorageConfig := mkStorageConfig {
  Filenames : list string; KvSize : Z; ChunkSize : Z; KvEntriesPerShard : Z; L1Contract : bytes; cfg_Miner : bytes }.

(** The L1 node: the code of the contract and the answers to its calls; the decoding of three [uint256] of a
    call's answer is go-ethereum's [abi], [None] for nil. *)
Class ContractNode := {
  CodeAt : gores bytes;
  CallContract : bytes → gores bytes;
  unpack_uint256s : bytes → option (list Z) }.

Section contract.
Context `{GE : Geth} `{CN : ContractNode}.

Definition readSlot (fieldName : string) : gores bytes :=
  let h := Keccak256Hash (bytes_of (fieldName +:+ "()")%string) in
  match CallContract (take 4 h) with
  | Fail _ => Fail (ErrMsg "failed to get field from contract")
  | r => r
  end.

Definition readUint (fieldName : string) : gores Z :=
  bs ← readSlot fieldName;
  mret (wrap64 (be_decode bs)).

Definition contractExists : gores bool :=
  match CodeAt with
  | Fail _ => Fail (ErrMsg "failed to get code")
  | Ret code => mret (0 <? zlen code)
  | Panic p => Panic p
  end.

Definition initStorageConfig (l1Contract miner : bytes) : gores StorageConfig :=
  exist ← contractExists;
  if negb exist then Fail (ErrMsg "contract does not exist")
  else
    maxKvSizeBits ← readUint "maxKvSizeBits";
    let chunkSizeBits := maxKvSizeBits in
    shardEntryBits ← readUint "shardEntryBits";
    mret (mkStorageConfig [] (shl64 1 maxKvSizeBits) (shl64 1 chunkSizeBits) (shl64 1 shardEntryBits) l1Contract miner).

(** ** The choice of shards *)

Definition getMiningInfo (shardIdx : Z) : gores (list Z) :=
  let h := Keccak256Hash (bytes_of "infos(uint256)") in
  bs ← CallContract (take 4 h ++ be_encode 32 shardIdx);
  match unpack_uint256s bs with
  | Some res => if zlen res <? 3 then Fail (ErrMsg "invalid result") else mret res
  | None => Fail (ErrMsg "invalid result")
  end.

Definition getDifficulty (shardIdx : Z) : gores Z :=
  res ← getMiningInfo shardIdx;
  index res 1.

(** The loop of [getShardList]: [fuel] bounds the number of shards; an error ends it like a missing shard. *)
Fixpoint difficulties (fuel : nat) (shardId : Z) : gores (list Z) :=
  match fuel with
  | O => Panic OutOfFuel
  | Datatypes.S fuel =>
      match getDifficulty shardId with
      | Fail _ => mret []
      | Panic p => Panic p
      | Ret diff =>
          if diff =? 0 then mret []
          else diffs ← difficulties fuel (add64 shardId 1); mret (diff :: diffs)
      end
  end.

(** [sort.Slice], which "is not guaranteed to be stable". *)
Class SortSlice := { sort_slice : (Z → Z → bool) → list Z → list Z }.

Definition diff_at (diffs : list Z) (i : Z) : Z := default 0 (diffs !! Z.to_nat i).

Definition sortBigIntSlice `{SortSlice} (slice : list Z) : list Z :=
  sort_slice (λ a b, diff_at slice a <? diff_at slice b) (seqZ 0 (zlen slice)).

Definition getShardList `{SortSlice} (fuel : nat) (shardLen : Z) : gores (list Z) :=
  diffs ← difficulties fuel 0;
  let sortedShardIds := sortBigIntSlice diffs in
  match sortedShardIds with
  | [] => mret [0]
  | _ => let shardLen := Z.min shardLen (zlen sortedShardIds) in mret (take (Z.to_nat shardLen) sortedShardIds)
  end.

End contract.

(** ** Data files *)

(** The files by path, and whether the directory exists. *)
Record fs := mkFs { fs_dir : bool; fs_files : gmap string file }.

(** [filepath.Join(datadir, "shard-%d.dat")] for a clean [datadir]. *)
Definition shard_path (datadir : string) (shardIdx : Z) : string :=
  (datadir +:+ "/shard-" +:+ pretty shardIdx +:+ ".dat")%string.

Definition put_file (path : string) (f : file) (w : fs) : fs := mkFs (fs_dir w) (<[path := f]> (fs_files w)).

(** [es.Create] at a path.  The file is there once [os.Create] has made it, also when the allocation fails. *)
Definition create_at (fallocate : file → Z → Z → gores file) (perm : bool) (path : string)
    (chunkIdxStart chunkIdxLen epoch maxKvSize encodeType : Z) (miner : bytes) (chunkSize : Z) : ST fs DataFile := λ w,
  match Create fallocate perm chunkIdxStart chunkIdxLen epoch maxKvSize encodeType miner chunkSize with
  | Ret df => (Ret df, put_file path (df_file df) w)
  | r =>
      match Create (λ f _ _, Ret f) perm chunkIdxStart chunkIdxLen epoch maxKvSize encodeType miner chunkSize with
      | Ret _ => (r, put_file path (mkFile [] false) w)
      | _ => (r, w)
      end
  end.

Section files.
Context (fallocate : file → Z → Z → gores file) (perm : bool).

Definition create_one (cfg : StorageConfig) (datadir : string) (encodingType : Z) (files : list string) (shardIdx : Z)
    : ST fs (list string) := λ w,
  let dataFile := shard_path datadir shardIdx in
  match fs_files w !! dataFile with
  | Some _ => (Ret files, w)
  | None =>
      if ChunkSize cfg =? 0 then (Fail (ErrMsg "chunk size should not be 0"), w)
      else if negb (KvSize cfg mod ChunkSize cfg =? 0) then (Fail (ErrMsg "max kv size % chunk size should be 0"), w)
      else
        let chunkPerKv := KvSize cfg / ChunkSize cfg in
        let startChunkId := mul64 (mul64 shardIdx (KvEntriesPerShard cfg)) chunkPerKv in
        match create_at fallocate perm dataFile startChunkId (mul64 chunkPerKv (KvEntriesPerShard cfg)) 0 (KvSize cfg)
                (wrap64 encodingType) (cfg_Miner cfg) (ChunkSize cfg) w with
        | (Ret _, w) => (Ret (files ++ [dataFile]), w)
        | (Fail e, w) => (Fail e, w)
        | (Panic p, w) => (Panic p, w)
        end
  end.

(** [mkdir] is the outcome of [os.Mkdir]. *)
Definition createDataFile (mkdir : option error) (cfg : StorageConfig) (shardIdxList : list Z) (datadir : string) (encodingType : Z)
    : ST fs (list string) := λ w,
  match (if fs_dir w then None else mkdir) with
  | Some e => (Fail e, w)
  | None => st_foldM (create_one cfg datadir encodingType) [] shardIdxList (mkFs true (fs_files w))
  end.

End files.

(** The shard indices of the command line, each once. *)
Definition distinct_indexes (shardIndexes : list Z) : list Z :=
  foldl (λ acc i, let new := wrap64 i in if bool_decide (new ∈ acc) then acc else acc ++ [new]) [] shardIndexes.

(** The part of [EsNodeInit] after the flags: [encodingType] is in range, [miner] is the address to use. *)
Definition init_node `{Geth} `{ContractNode} `{SortSlice} fallocate perm mkdir (fuel : nat) (l1Contract miner : bytes) (encodingType : Z)
    (shardIndexes : list Z) (shardLen : Z) (datadir : string) : ST fs (list string) := λ w,
  match initStorageConfig l1Contract miner with
  | Fail e => (Fail e, w)
  | Panic p => (Panic p, w)
  | Ret storageCfg =>
      match (match shardIndexes with [] => getShardList fuel shardLen | _ => Ret (distinct_indexes shardIndexes) end) with
      | Fail e => (Fail e, w)
      | Panic p => (Panic p, w)
      | Ret [] => (Fail (ErrMsg "no shard indexes found"), w)
      | Ret shardIdxList => createDataFile fallocate perm mkdir storageCfg shardIdxList datadir encodingType w
      end
  end.

(** ** Opening (node.go and utils.go) *)

Definition open_file (w : fs) (filename : string) : gores file :=
  match fs_files w !! filename with
  | Some f => Ret (mkFile (f_data f) false)
  | None => Fail (ErrMsg "no such file or directory")
  end.

(** The error of [AddDataFileAndShard] is not looked at. *)
Definition add_file (openMsg minerMsg : string) (w : fs) (miner : bytes) (_ : unit) (filename : string) : ST ShardManager unit := λ sm,
  match OpenDataFile (open_file w filename) with
  | Fail e => (Fail (ErrWrap openMsg e), sm)
  | Panic p => (Panic p, sm)
  | Ret df =>
      if negb (bool_decide (df_miner df = miner)) then (Fail (ErrMsg minerMsg), sm)
      else match AddDataFileAndShard df sm with
           | (Panic p, sm) => (Panic p, sm)
           | (_, sm) => (Ret tt, sm)
           end
  end.

(** The manager of the files; [order] is the order in which [IsComplete] visits the shards.  The two
    callers report their errors with different texts. *)
Definition build_manager (openMsg minerMsg completeMsg : string) (w : fs) (cfg : StorageConfig) (order : list Z) : gores ShardManager :=
  shardManager ← NewShardManager (L1Contract cfg) (KvSize cfg) (KvEntriesPerShard cfg) (ChunkSize cfg);
  match st_foldM (add_file openMsg minerMsg w (cfg_Miner cfg)) tt (Filenames cfg) shardManager with
  | (Fail e, _) => Fail e
  | (Panic p, _) => Panic p
  | (Ret _, shardManager) =>
      match ShardManager.IsComplete shardManager order with
      | Fail _ => Fail (ErrMsg completeMsg)
      | Panic p => Panic p
      | Ret _ => mret shardManager
      end
  end.

Definition initStorageManager (w : fs) (cfg : StorageConfig) (order : list Z) : gores StorageManager :=
  shardManager ← build_manager "open failed" "miner mismatches datafile" "shard is not completed" w cfg order;
  mret (NewStorageManager shardManager).

(** From the files of the flags and the sizes of the contract. *)
Definition initShardManager `{Geth} `{ContractNode} (w : fs) (l1contract miner : bytes) (filenames : list string) (order : list Z)
    : gores ShardManager :=
  match initStorageConfig l1contract miner with
  | Fail e => Fail (ErrWrap "failed to load storage config" e)
  | Panic p => Panic p
  | Ret c =>
      let cfg := mkStorageConfig filenames (KvSize c) (ChunkSize c) (KvEntriesPerShard c) (L1Contract c) (cfg_Miner c) in
      build_manager "open data file failed" "miner mismatches data file" "data files are not completed" w cfg order
  end.

(** ** A single blob (utils.go and main.go) *)

(** [answer] is what the other node's [es_getBlob] returns. *)
Definition downloadBlobFromRPC `{Geth} (answer : gores bytes) (kvIndex : Z) (hash : bytes) : gores bytes :=
  result ← answer;
  match BlobToVersionedHash result with
  | Fail e => Fail (ErrWrap "blobToCommitment failed" e)
  | Panic p => Panic p
  | Ret blobhash =>
      if bool_decide (take 24 blobhash = take 24 hash) then mret result else Fail (ErrMsg "invalid blobhash")
  end.

(** [metas] is what [GetKvMetas] returns, [rpc] the other node by KV index and hash, and [opened] the shard manager. *)
Definition EsNodeSync `{Geth} (metas : gores (list bytes)) (rpc : Z → bytes → gores bytes) (opened : gores ShardManager)
    (kvIndex : Z) : gores ShardManager :=
  match metas with
  | Fail e => Fail (ErrWrap "failed to get meta" e)
  | Panic p => Panic p
  | Ret metas =>
      meta ← index metas 0;
      part ← slice meta (32 - HashSizeInContract) 32;
      let commit := go_copy (zeros 32) part in
      match downloadBlobFromRPC (rpc kvIndex commit) kvIndex commit with
      | Fail e => Fail (ErrWrap "failed to download blob from RPC" e)
      | Panic p => Panic p
      | Ret blob =>
          match opened with
          | Fail e => Fail (ErrWrap "failed to init shard manager" e)
          | Panic p => Panic p
          | Ret shardManager =>
              match TryWrite kvIndex blob (PrepareCommit commit) shardManager with
              | (Fail e, _) => Fail (ErrWrap "failed to write kv" e)
              | (Panic p, _) => Panic p
              | (Ret false, _) => Fail (ErrMsg "failed to write kv: kv index not in the shard")
              | (Ret true, shardManager) => mret shardManager
              end
          end
      end
  end.
