(* ===== verification/StartUpFacts.v ===== *)
(** * A node can start from what [init] created

    The files that [createDataFile] creates are opened by [initStorageManager] to a well-formed manager with
    exactly the chosen shards, every KV of which has its place in a file. *)

From stdpp Require Import pretty.
From S2P Require Import Prelude Bits Extern EthashSizes Ethash DataFile ChunkCodec DataShard ShardManager StorageManager.
From S2P Require Import GoStrings KvStore BlobSources BlobCache Downloader DownloaderFacts BlobReader StartUp.

Section start.
Context (cfg : StorageConfig) (fallocate : file → Z → Z → gores file) (enc : Z).

(** The sizes that the contract gives: powers of two, chunks that divide KVs. *)
Record sizes : Prop := {
  sz_kv : is_u64 (KvSize cfg) ∧ pow2 (KvSize cfg);
  sz_chunk : is_u64 (ChunkSize cfg) ∧ pow2 (ChunkSize cfg);
  sz_entries : is_u64 (KvEntriesPerShard cfg) ∧ pow2 (KvEntriesPerShard cfg);
  sz_le : ChunkSize cfg ≤ KvSize cfg;
  sz_enc : 0 ≤ enc ≤ ENCODE_END;
  sz_miner : length (cfg_Miner cfg) = 20%nat;
  sz_alloc : fallocate_ok fallocate;
  sz_space : ∀ f off l, ∃ f', fallocate f off l = Ret f' }.

Context (Hs : sizes).

#[local] Abbreviation cpk := (KvSize cfg / ChunkSize cfg).
#[local] Abbreviation entries := (KvEntriesPerShard cfg).

(** The shard fits the 63 bits of file offsets. *)
Definition fits (i : Z) : Prop :=
  0 ≤ i ∧ (i + 1) * entries * KvSize cfg < two63 ∧ HEADER_SIZE + (ChunkSize cfg + 32) * (cpk * entries) < two63.

Lemma geometry : 0 < ChunkSize cfg ∧ 0 < cpk ∧ 0 < entries ∧ KvSize cfg = cpk * ChunkSize cfg ∧
  isPow2n (ChunkSize cfg) = true ∧ isPow2n (KvSize cfg) = true.
Proof using Hs.
  destruct Hs as [[Hk (a & Ha & Ea)] [Hc (c & Hc0 & Ec)] [He (e & He0 & Ee)] Hle _ _ _ _].
  have Hcp : 0 < ChunkSize cfg by rw Ec; apply Z.pow_pos_nonneg; lia.
  have Hep : 0 < entries by rw Ee; apply Z.pow_pos_nonneg; lia.
  have Hca : c ≤ a by apply (Z.pow_le_mono_r_iff 2); lia.
  have E : KvSize cfg = 2 ^ (a - c) * ChunkSize cfg by rw Ea Ec -Z.pow_add_r; [lia..|f_equal; lia].
  have Ed : cpk = 2 ^ (a - c) by rw {1}E Z.div_mul; lia.
  have Hb v n : is_u64 v → 0 ≤ n → v = 2 ^ n → isPow2n v = true.
  { intros Hv Hn Ev. apply isPow2n_spec; [done|]. exists n. split; [|done]. split; [done|].
    apply (Z.pow_lt_mono_r_iff 2); rw /is_u64 /two64 in Hv; lia. }
  split_and!; [done|rw Ed; apply Z.pow_pos_nonneg; lia|done|by rw Ed|by apply (Hb _ c)|by apply (Hb _ a)].
Qed.

(** The data file of shard [i]. *)
Record shard_df (i : Z) (df : DataFile) : Prop := {
  sd_wf : df_wf df;
  sd_start : df_chunkIdxStart df = i * entries * cpk;
  sd_len : df_chunkIdxLen df = cpk * entries;
  sd_enc : df_encodeType df = enc;
  sd_kv : df_maxKvSize df = KvSize cfg;
  sd_chunk : df_chunkSize df = ChunkSize cfg;
  sd_miner : df_miner df = cfg_Miner cfg;
  sd_open : OpenDataFile (Ret (df_file df)) = Ret df }.

Lemma fits_products i : fits i → 0 ≤ i * entries ∧ 0 ≤ i * entries * cpk ∧ i * entries * cpk * ChunkSize cfg = i * entries * KvSize cfg ∧
  (i + 1) * entries * cpk < two63 ∧ cpk * entries * ChunkSize cfg = entries * KvSize cfg ∧ 0 < entries * KvSize cfg.
Proof using Hs.
  intros (Hi & Hr & _). pose proof geometry as (Hc & Hk & He & Ek & _). 
  have E : (i + 1) * entries * KvSize cfg = (i + 1) * entries * cpk * ChunkSize cfg by rw {1}Ek; ring.
  split_and!; try nia.
Qed.

Lemma create_shard i : fits i → ∃ df,
  Create fallocate true (mul64 (mul64 i entries) cpk) (mul64 cpk entries) 0 (KvSize cfg) (wrap64 enc) (cfg_Miner cfg) (ChunkSize cfg)
    = Ret df ∧ shard_df i df.
Proof using Hs.
  intros Hf. pose proof geometry as (Hc & Hk & He & Ek & Hp1 & Hp2).
  pose proof (fits_products i Hf) as (P1 & P2 & P3 & P4 & P5 & P6). destruct Hf as (Hi & Hr & Hh).
  have E1 : mul64 (mul64 i entries) cpk = i * entries * cpk.
  { rw /mul64 (wrap64_small (i * entries)); [rw /two63 /two64 in P4 *; nia|]. apply wrap64_small. rw /two63 /two64 in P4 *. nia. }
  have E2 : mul64 cpk entries = cpk * entries by apply wrap64_small; rw /two63 /two64 in P4 *; nia.
  have E3 : wrap64 enc = enc.
  { apply wrap64_small. have := sz_enc Hs. rw /ENCODE_END /ENCODE_BLOB_POSEIDON /two64. lia. }
  have Hsz : sizes_ok (i * entries * cpk) (cpk * entries) (KvSize cfg) (ChunkSize cfg).
  { have Hsum : (i * entries * cpk + cpk * entries) * ChunkSize cfg = (i + 1) * entries * KvSize cfg.
    { rw Z.mul_add_distr_r P3 P5. ring. }
    rw /sizes_ok Hsum. split_and!; try lia; nia. }
  have M1 : (cpk * entries * ChunkSize cfg) mod KvSize cfg = 0 by rw P5; apply Z.mod_mul; nia.
  have M2 : (i * entries * cpk * ChunkSize cfg) mod KvSize cfg = 0 by rw P3; apply Z.mod_mul; nia.
  rw E1 E2 E3. destruct (Create_succeeds fallocate (i * entries * cpk) (cpk * entries) 0 (KvSize cfg) enc (cfg_Miner cfg) (ChunkSize cfg))
    as [df Hdf]; [apply Hs|done|apply Hs|nia|done..|].
  exists df. split; [done|].
  apply Create_facts in Hdf as (Hwf & Ho & E & _); [|apply Hs|done|apply Hs|apply Hs].
  rw E in Hwf Ho *. by constructor.
Qed.

(** ** Creating *)

Definition paths (datadir : string) (l : list Z) : list string := shard_path datadir <$> l.

Lemma string_length_app a s : String.length (a +:+ s) = (String.length a + String.length s)%nat.
Proof using. induction a as [|c a IH]; [done|]. simpl. by rw IH. Qed.

Lemma string_app_cancel s : ∀ a b, a +:+ s = b +:+ s → a = b.
Proof using.
  induction a as [|c a IH]; intros [|c' b] H; [done|exfalso|exfalso|].
  - apply (f_equal String.length) in H. rw !string_length_app in H. simpl in H. lia.
  - apply (f_equal String.length) in H. rw !string_length_app in H. simpl in H. lia.
  - simpl in H. injection H as -> H. by rw (IH b H).
Qed.

Lemma shard_path_inj datadir i j : shard_path datadir i = shard_path datadir j → i = j.
Proof using. rw /shard_path. intros H%String.app_inj%String.app_inj%string_app_cancel. by apply pretty_Z_inj. Qed.

Lemma create_one_ok datadir i files w : fits i → fs_files w !! shard_path datadir i = None →
  ∃ df, shard_df i df ∧
    create_one fallocate true cfg datadir enc files i w = (Ret (files ++ [shard_path datadir i]), put_file (shard_path datadir i) (df_file df) w).
Proof using Hs.
  intros Hf Hn. pose proof geometry as (Hc & Hk & He & Ek & _). destruct (create_shard i Hf) as (df & Hdf & Hsd). exists df. split; [done|].
  rw /create_one Hn (proj2 (Z.eqb_neq _ _)); [lia|]. rw {1}Ek Z.mod_mul; [lia|]. cbn [negb Z.eqb]. by rw /create_at Hdf.
Qed.

(** The files of the shards are in the directory. *)
Definition created (datadir : string) (w : fs) (i : Z) : Prop :=
  ∃ df, shard_df i df ∧ fs_files w !! shard_path datadir i = Some (df_file df).

Lemma create_all_ok datadir l : ∀ files w, NoDup l → (∀ i, i ∈ l → fits i ∧ fs_files w !! shard_path datadir i = None) →
  ∃ w', st_foldM (create_one fallocate true cfg datadir enc) files l w = (Ret (files ++ paths datadir l), w') ∧
    (∀ i, i ∈ l → created datadir w' i) ∧
    (∀ path, path ∉ paths datadir l → fs_files w' !! path = fs_files w !! path).
Proof using Hs.
  induction l as [|i l IH]; intros files w Hnd Hl.
  { exists w. rw /paths /= app_nil_r. split_and!; [done|by intros i ?%not_elem_of_nil|done]. }
  apply NoDup_cons in Hnd as [Hni Hnd]. destruct (Hl i) as [Hf Hn]; [apply list_elem_of_here|].
  destruct (create_one_ok datadir i files w Hf Hn) as (df & Hsd & E). rw st_foldM_cons /mbind /st_bind E.
  destruct (IH (files ++ [shard_path datadir i]) (put_file (shard_path datadir i) (df_file df) w) Hnd) as (w' & E' & Hc & Ho).
  { intros j Hj. destruct (Hl j) as [Hfj Hnj]; [by apply list_elem_of_further|]. split; [done|]. cbn [put_file fs_files].
    rw lookup_insert_ne //. intros Hp%shard_path_inj. by subst j. }
  exists w'. rw E' -app_assoc. split; [done|]. split.
  - intros j [->|Hj]%elem_of_cons; [|by apply Hc]. exists df. split; [done|]. rw Ho; [|apply lookup_insert_eq].
    intros (k & Hk & Hkl)%list_elem_of_fmap. apply shard_path_inj in Hk. by subst k.
  - intros path Hp. rw /paths fmap_cons not_elem_of_cons in Hp. destruct Hp as [Hp1 Hp2]. rw Ho //.
    cbn [put_file fs_files]. by rw lookup_insert_ne; [congruence|].
Qed.

(** ** Opening *)

Definition shard_with (i : Z) (df : DataFile) : DataShard := mkDataShard i (KvSize cfg) cpk entries [df] (ChunkSize cfg).

Lemma shard_with_wf i df : fits i → shard_df i df → ds_wf (shard_with i df).
Proof using Hs.
  intros Hf Hd. pose proof geometry as (Hc & Hk & He & Ek & _). destruct Hf as (Hi & Hr & _).
  constructor; cbn; try done. apply Forall_singleton. constructor; cbn; try apply Hd.
  - rw (sd_start _ _ Hd) Z.div_mul; lia.
  - rw (sd_len _ _ Hd) (Z.mul_comm cpk) Z.div_mul; lia.
  - done.
  - done.
Qed.

Lemma shard_with_complete i df : fits i → shard_df i df → DataShard.IsComplete (shard_with i df) = Ret true.
Proof using Hs.
  intros Hf Hd. pose proof geometry as (Hc & Hk & He & Ek & _). pose proof (fits_products i Hf) as (P1 & P2 & P3 & P4 & P5 & P6).
  destruct Hf as (Hi & Hr & _).
  destruct (complete_loop_spec (S (length (ds_dataFiles (shard_with i df)))) (ds_dataFiles (shard_with i df)) (StartChunkIdx (shard_with i df))
    (mul64 (mul64 (add64 i 1) cpk) entries)) as (b & Hb & Hspec); [apply Nat.lt_succ_r, length_filter|].
  rw /DataShard.IsComplete Hb. f_equal. apply Hspec. intros c. rw /StartChunkIdx /=.
  have Hi1 : add64 i 1 = i + 1 by apply wrap64_small; rw /two63 /two64 in P4 *; nia.
  have E1 : mul64 (mul64 (add64 i 1) cpk) entries = (i + 1) * entries * cpk.
  { rw Hi1 /mul64 (wrap64_small ((i + 1) * cpk)); [rw /two63 /two64 in P4 *; nia|]. rw wrap64_small; [rw /two63 /two64 in P4 *; nia|]. ring. }
  have E2 : mul64 (mul64 i cpk) entries = i * entries * cpk.
  { rw /mul64 (wrap64_small (i * cpk)); [rw /two63 /two64 in P4 *; nia|]. rw wrap64_small; [rw /two63 /two64 in P4 *; nia|]. ring. }
  rw E1 E2. intros Hcc. exists df. split; [apply list_elem_of_here|]. apply Contains_wf; [apply Hd|]. rw (sd_start _ _ Hd) (sd_len _ _ Hd). nia.
Qed.

Lemma shard_with_stored i df k : fits i → shard_df i df → k / entries = i → has_file (shard_with i df) k.
Proof using Hs.
  intros Hf Hd Hki. pose proof geometry as (Hc & Hk & He & Ek & _). pose proof (fits_products i Hf) as (P1 & P2 & P3 & P4 & P5 & P6).
  exists df. split; [apply list_elem_of_here|]. rw /has_kv /kv_start /kv_len /data_size (sd_start _ _ Hd) (sd_len _ _ Hd) (sd_chunk _ _ Hd) (sd_kv _ _ Hd).
  have Hkv : KvSize cfg ≠ 0 by nia. rw P3 P5 !Z.div_mul //. have := Z.div_mod k entries. have := Z.mod_pos_bound k entries. lia.
Qed.

(** The manager of the shards [m]. *)
Definition base_sm (bits1 bits2 bits3 bits4 : Z) (m : gmap Z DataShard) : ShardManager :=
  mkShardManager m (L1Contract cfg) bits1 (KvSize cfg) bits2 cpk bits3 entries (ChunkSize cfg) bits4.

Definition shards_of (m : gmap Z DataShard) (l : list Z) : Prop :=
  (∀ i ds, m !! i = Some ds → i ∈ l ∧ ∃ df, fits i ∧ shard_df i df ∧ ds = shard_with i df) ∧ ∀ i, i ∈ l → is_Some (m !! i).

Lemma shards_of_insert m l i df : fits i → shard_df i df → shards_of m l → shards_of (<[i := shard_with i df]> m) (l ++ [i]).
Proof using.
  intros Hf Hd [H1 H2]. split.
  - intros j ds. destruct (decide (j = i)) as [->|Hne].
    + rw lookup_insert_eq. intros [= <-]. split; [apply elem_of_app; right; apply list_elem_of_here|]. by exists df.
    + rw lookup_insert_ne; [congruence|]. intros [Hj Hx]%H1. split; [apply elem_of_app; by left|exact Hx].
  - intros j [Hj|Hj%list_elem_of_singleton]%elem_of_app; [|subst j; rw lookup_insert_eq; by eexists].
    destruct (decide (j = i)) as [->|Hne]; [rw lookup_insert_eq; by eexists|]. rw lookup_insert_ne; [congruence|]. by apply H2.
Qed.

Section manager.
Context (b1 b2 b3 b4 : Z) (openMsg minerMsg : string) (datadir : string) (w : fs).

Lemma open_created i : created datadir w i → ∃ df, shard_df i df ∧ OpenDataFile (open_file w (shard_path datadir i)) = Ret df.
Proof using.
  intros (df & Hd & Hl). exists df. split; [done|]. rw /open_file Hl. have Ho := wf_open _ (sd_wf _ _ Hd).
  rw (_ : mkFile (f_data (df_file df)) false = df_file df); [by destruct (df_file df) as [d c]; cbn in Ho; subst c|]. apply Hd.
Qed.

Lemma add_created i m : fits i → created datadir w i → m !! i = None →
  ∃ df, shard_df i df ∧
    add_file openMsg minerMsg w (cfg_Miner cfg) tt (shard_path datadir i) (base_sm b1 b2 b3 b4 m) =
    (Ret tt, base_sm b1 b2 b3 b4 (<[i := shard_with i df]> m)).
Proof using Hs.
  intros Hf Hcr Hm. destruct (open_created i Hcr) as (df & Hd & Ho). exists df. split; [done|].
  pose proof geometry as (Hc & Hk & He & Ek & _). rw /add_file Ho (sd_miner _ _ Hd) bool_decide_true //. cbn [negb].
  have Efs : file_shard (base_sm b1 b2 b3 b4 m) df = Ret i.
  { rw /file_shard (sd_start _ _ Hd) /base_sm /= udiv_nz; [lia|]. cbn [mbind gores_bind]. rw Z.div_mul; [lia|].
    rw udiv_nz; [lia|]. by rw Z.div_mul; [lia|]. }
  have En : NewDataShard i (KvSize cfg) entries (ChunkSize cfg) = Ret (mkDataShard i (KvSize cfg) cpk entries [] (ChunkSize cfg)).
  { rw /NewDataShard umod_nz; [lia|]. cbn [mbind gores_bind]. rw {1}Ek Z.mod_mul; [lia|]. by rw /= udiv_nz; [lia|]. }
  rw /AddDataFileAndShard Efs. change (sm_shardMap (base_sm b1 b2 b3 b4 m)) with m. rw Hm.
  change (NewDataShard i _ _ _) with (NewDataShard i (KvSize cfg) entries (ChunkSize cfg)). by rw En.
Qed.

Lemma add_all l : ∀ done m, shards_of m done → NoDup (done ++ l) → (∀ i, i ∈ l → fits i ∧ created datadir w i) →
  ∃ m', st_foldM (add_file openMsg minerMsg w (cfg_Miner cfg)) tt (paths datadir l) (base_sm b1 b2 b3 b4 m) = (Ret tt, base_sm b1 b2 b3 b4 m') ∧
    shards_of m' (done ++ l).
Proof using Hs.
  induction l as [|i l IH]; intros done m Hm Hnd Hl; [exists m; by rw app_nil_r|].
  destruct (Hl i) as [Hf Hcr]; [apply list_elem_of_here|].
  have Hni : m !! i = None.
  { destruct (m !! i) as [ds|] eqn:E; [|done]. apply Hm in E as [Hi _]. apply NoDup_app in Hnd as (_ & Hd & _).
    exfalso. apply (Hd i Hi), list_elem_of_here. }
  destruct (add_created i m Hf Hcr Hni) as (df & Hd & E). rw /paths fmap_cons st_foldM_cons /mbind /st_bind E.
  destruct (IH (done ++ [i]) _ (shards_of_insert m done i df Hf Hd Hm)) as (m' & E' & Hm').
  - by rw -app_assoc.
  - intros j Hj. apply Hl. by apply list_elem_of_further.
  - exists m'. split; [exact E'|]. by rw -app_assoc in Hm'.
Qed.

Lemma shards_wf m l : shards_of m l → sm_wf (base_sm b1 b2 b3 b4 m).
Proof using Hs.
  intros [H1 _]. pose proof geometry as (Hc & Hk & He & Ek & _). constructor; [done|]. intros i ds Hi.
  destruct (H1 i ds Hi) as (_ & df & Hf & Hd & ->). split; [by apply shard_with_wf|done].
Qed.

Lemma shards_complete m l order : shards_of m l → ShardManager.IsComplete (base_sm b1 b2 b3 b4 m) order = Ret tt.
Proof using Hs.
  intros [H1 _]. rw /ShardManager.IsComplete. induction order as [|i order IH]; [done|]. rw foldM_cons. cbn [base_sm sm_shardMap].
  destruct (m !! i) as [ds|] eqn:E; [|exact IH]. destruct (H1 i ds E) as (_ & df & Hf & Hd & ->).
  rw shard_with_complete //.
Qed.

End manager.

Lemma new_manager : ∃ b1 b2 b3 b4, NewShardManager (L1Contract cfg) (KvSize cfg) entries (ChunkSize cfg) = Ret (base_sm b1 b2 b3 b4 ∅).
Proof using Hs.
  pose proof geometry as (Hc & Hk & He & Ek & _). destruct Hs as [[Hk1 Hk2] [Hc1 Hc2] [He1 He2] Hle _ _ _ _].
  destruct (NewShardManager_spec (L1Contract cfg) (KvSize cfg) entries (ChunkSize cfg) Hk1 He1 Hc1) as [[Hno _]|(_ & sm & E & H1 & H2 & H3 & H4 & H5 & H6 & H7 & H8 & H9 & H10 & _)].
  - exfalso. by apply Hno.
  - destruct sm as [m addr kb k cb c eb e ch chb]. cbn in *. subst. exists kb, cb, eb, chb. rw E /base_sm. do 2 f_equal.
    rw H10 Z.div_mul; lia.
Qed.

(** The node's configuration with the created files. *)
Definition with_files (files : list string) : StorageConfig :=
  mkStorageConfig files (KvSize cfg) (ChunkSize cfg) entries (L1Contract cfg) (cfg_Miner cfg).

End start.

(** C11: a node starts from what [init] created, and the storage it starts with is well formed.  For sizes the
    contract can have and distinct shards that have no file yet, [createDataFile] creates one file for each
    and touches no other; [initStorageManager] with these files succeeds, and its shard manager satisfies the
    invariant that all later operations rely on, has exactly the chosen shards, and has room for every KV of
    them. *)
Theorem start_after_init cfg fallocate enc datadir shards files0 dir0 order :
  sizes cfg fallocate enc → NoDup shards →
  (∀ i, i ∈ shards → fits cfg i ∧ files0 !! shard_path datadir i = None) →
  ∃ w s, createDataFile fallocate true None cfg shards datadir enc (mkFs dir0 files0) = (Ret (paths datadir shards), w) ∧
    (∀ path, path ∉ paths datadir shards → fs_files w !! path = files0 !! path) ∧
    initStorageManager w (with_files cfg (paths datadir shards)) order = Ret s ∧
    sm_wf (s_shardManager s) ∧
    (∀ i, is_Some (sm_shardMap (s_shardManager s) !! i) ↔ i ∈ shards) ∧
    ∀ k, k / KvEntriesPerShard cfg ∈ shards → stored (s_shardManager s) k.
Proof.
  intros Hs Hnd Hl. rw /createDataFile. cbn [fs_dir fs_files].
  destruct (create_all_ok cfg fallocate enc Hs datadir shards [] (mkFs true files0) Hnd Hl) as (w & Ec & Hcr & Ho).
  destruct (new_manager cfg fallocate enc Hs) as (b1 & b2 & b3 & b4 & En).
  destruct (add_all cfg fallocate enc Hs b1 b2 b3 b4 "open failed" "miner mismatches datafile" datadir w shards [] ∅) as (m & Ea & Hm).
  - split; [intros i ds; by rw lookup_empty|by intros i ?%not_elem_of_nil].
  - done.
  - intros i Hi. split; [apply Hl, Hi|by apply Hcr].
  - exists w, (NewStorageManager (base_sm cfg b1 b2 b3 b4 m)). split_and!.
    + by destruct dir0; rw Ec.
    + done.
    + rw /initStorageManager /build_manager. cbn [with_files L1Contract KvSize KvEntriesPerShard ChunkSize cfg_Miner Filenames].
      rw En. cbn [mbind gores_bind]. rw Ea. by rw (shards_complete cfg fallocate enc Hs b1 b2 b3 b4 m shards order Hm).
    + exact (shards_wf cfg fallocate enc Hs b1 b2 b3 b4 m shards Hm).
    + intros i. cbn. split; [intros [ds Hd]; by apply Hm in Hd as [? _]|apply Hm].
    + intros k Hk. destruct (proj2 Hm _ Hk) as [ds Hds]. exists ds. split; [exact Hds|].
      destruct (proj1 Hm _ _ Hds) as (_ & df & Hf & Hd & ->). exact (shard_with_stored cfg fallocate enc Hs _ df k Hf Hd eq_refl).
Qed.

(** ** A disk that is full *)

Lemma Create_full good full start len epoch kv enc miner chunk df e :
  Create good true start len epoch kv enc miner chunk = Ret df → (∀ f off l, full f off l = Fail e) →
  Create full true start len epoch kv enc miner chunk = Fail e.
Proof.
  intros H Hf. move: H. rw /Create /umod. destruct (_ <? _); [done|]. destruct (kv =? 0); [done|]. cbn [mbind gores_bind].
  destruct (negb _); [done|]. destruct (negb _); [done|].
  destruct (_ || _); [done|]. cbn [os_Create mbind gores_bind]. intros _. by rw Hf.
Qed.

Lemma Create_leaves good start len epoch kv enc miner chunk df :
  Create good true start len epoch kv enc miner chunk = Ret df →
  ∃ df', Create (λ f _ _, Ret f) true start len epoch kv enc miner chunk = Ret df'.
Proof.
  rw /Create /umod. destruct (_ <? _); [done|]. destruct (kv =? 0); [done|]. cbn [mbind gores_bind].
  destruct (negb _); [done|]. destruct (negb _); [done|].
  destruct (_ || _); [done|]. cbn [os_Create mbind gores_bind]. intros _.
  destruct (writeHeader _) as [[u|er|p] d] eqn:E; [by exists d..|]. exfalso. move: E. rw /writeHeader. by repeat case_match.
Qed.

(** When the allocation of a data file fails, [init] returns the error and leaves the empty file behind; run
    again with enough space it takes the file for an existing one, succeeds without creating anything, and the
    node that is started with the file cannot read its header. *)
Theorem failed_init_not_repaired cfg full enc datadir i e w fallocate order :
  sizes cfg fallocate enc → fits cfg i → fs_files w !! shard_path datadir i = None →
  (∀ f off len, full f off len = Fail e) →
  ∃ w', createDataFile full true None cfg [i] datadir enc w = (Fail e, w') ∧
    createDataFile fallocate true None cfg [i] datadir enc w' = (Ret [], w') ∧
    ∃ e', initStorageManager w' (with_files cfg [shard_path datadir i]) order = Fail e'.
Proof.
  intros Hs Hf Hn Hfull. pose proof (geometry cfg fallocate enc Hs) as (Hc & Hk & He & Ek & _).
  set (w' := put_file (shard_path datadir i) (mkFile [] false) (mkFs true (fs_files w))). exists w'.
  destruct (create_shard cfg fallocate enc Hs i Hf) as (df & Hdf & _).
  have Hone : create_one full true cfg datadir enc [] i (mkFs true (fs_files w)) = (Fail e, w').
  { rw /create_one. cbn [fs_files]. rw Hn (proj2 (Z.eqb_neq _ _)); [lia|]. rw {1}Ek Z.mod_mul; [lia|]. cbn [negb Z.eqb].
    rw /create_at (Create_full _ full _ _ _ _ _ _ _ df e Hdf Hfull). by destruct (Create_leaves _ _ _ _ _ _ _ _ _ Hdf) as [df' ->]. }
  have Hdir : (if fs_dir w then @None error else None) = None by destruct (fs_dir w).
  split_and!.
  - by rw /createDataFile Hdir st_foldM_cons /mbind /st_bind Hone.
  - rw /createDataFile. cbn [w' put_file fs_dir fs_files]. rw st_foldM_cons /mbind /st_bind /create_one. cbn [fs_files].
    by rw lookup_insert_eq.
  - destruct (new_manager cfg fallocate enc Hs) as (b1 & b2 & b3 & b4 & En).
    rw /initStorageManager /build_manager. cbn [with_files L1Contract KvSize KvEntriesPerShard ChunkSize cfg_Miner Filenames].
    rw En. cbn [mbind gores_bind]. rw st_foldM_cons /mbind /st_bind {1}/add_file /open_file /w'. cbn [put_file fs_files].
    rw lookup_insert_eq. cbn [f_data]. by eexists.
Qed.

(** ** The choice of shards *)

(** "Slice sorts the slice x given the provided less function", which "must satisfy the same requirements as the
    Interface type's Less method": a strict weak order. *)
Record strict_weak_order (lt : Z → Z → bool) : Prop := {
  swo_irrefl a : lt a a = false;
  swo_trans a b c : lt a b = true → lt b c = true → lt a c = true;
  swo_incomp a b c : lt a b = false → lt b c = false → lt a c = false }.

Class SortLaws (S : SortSlice) : Prop := {
  sort_perm lt l : sort_slice lt l ≡ₚ l;
  sort_sorted lt l : strict_weak_order lt → StronglySorted (λ a b, lt b a = false) (sort_slice lt l) }.

Lemma diff_order diffs : strict_weak_order (λ a b, diff_at diffs a <? diff_at diffs b).
Proof. constructor; intros; lia. Qed.

Lemma StronglySorted_split {A} (R : A → A → Prop) l n a b :
  StronglySorted R l → a ∈ take n l → b ∈ drop n l → R a b.
Proof.
  intros Hs Ha Hb. rw -(take_drop n l) in Hs. revert Hs Ha. induction (take n l) as [|x t IH]; intros Hs Ha; [by apply not_elem_of_nil in Ha|].
  inversion Hs as [|? ? Ht Hx]; subst. apply elem_of_cons in Ha as [->|Ha]; [|by apply IH].
  apply (proj1 (Forall_forall _ _) Hx). apply elem_of_app. by right.
Qed.

Section choice.
Context `{GE : Geth} `{CN : ContractNode} `{SS : SortSlice} {SL : SortLaws SS}.

(** The contract has [n] shards: their difficulties are not zero, and the next one is zero or not answered. *)
Definition has_shards (n : Z) (diff : Z → Z) : Prop :=
  0 ≤ n < two64 ∧ (∀ i, 0 ≤ i < n → getDifficulty i = Ret (diff i) ∧ diff i ≠ 0) ∧
  (getDifficulty n = Ret 0 ∨ ∃ e, getDifficulty n = Fail e).

Lemma difficulties_spec n diff : has_shards n diff → ∀ k i, i + Z.of_nat k = n → 0 ≤ i →
  ∀ fuel, (k < fuel)%nat → difficulties fuel i = Ret (diff <$> seqZ i (Z.of_nat k)).
Proof using.
  intros (Hn & Hd & Hend). induction k as [|k IH]; intros i Hi Hi0 fuel Hf; destruct fuel as [|fuel]; try lia; cbn [difficulties].
  - have -> : i = n by lia. by destruct Hend as [->|[e ->]].
  - destruct (Hd i) as [-> Hnz]; [lia|]. rw (proj2 (Z.eqb_neq _ _)) //. rw /add64 wrap64_small; [lia|].
    rw (IH (i + 1)); [lia..|]. cbn [mbind gores_bind mret gores_ret]. rw (seqZ_cons i (Z.of_nat (S k))); [lia|].
    rw fmap_cons. do 4 f_equal; lia.
Qed.

(** [getShardList] returns for every contract with finitely many shards and chooses [shardLen] of them, or all when
    there are fewer: different ones that exist, and none of the others has a lower difficulty than a chosen one.  For a
    contract without shards it chooses shard 0. *)
Theorem getShardList_spec n diff shardLen fuel : has_shards n diff → 0 ≤ shardLen → (Z.to_nat n < fuel)%nat →
  ∃ l, getShardList fuel shardLen = Ret l ∧
    if n =? 0 then l = [0]
    else zlen l = Z.min shardLen n ∧ NoDup l ∧ (∀ i, i ∈ l → 0 ≤ i < n) ∧
         ∀ i j, i ∈ l → 0 ≤ j < n → j ∉ l → diff i ≤ diff j.
Proof using SL.
  intros Hs Hlen Hf. have Hn := proj1 Hs. rw /getShardList (difficulties_spec n diff Hs (Z.to_nat n) 0); [lia..|].
  rw Z2Nat.id; [lia|]. cbn [mbind gores_bind]. set (diffs := diff <$> seqZ 0 n).
  have Hzl : zlen diffs = n by rw /zlen length_fmap length_seqZ; lia.
  have Hat i : 0 ≤ i < n → diff_at diffs i = diff i.
  { intros Hi. rw /diff_at /diffs list_lookup_fmap lookup_seqZ_lt; [lia|]. cbn. f_equal. lia. }
  have Hperm : sortBigIntSlice diffs ≡ₚ seqZ 0 n by rw /sortBigIntSlice Hzl; apply sort_perm.
  have Hsort : StronglySorted (λ a b, (diff_at diffs b <? diff_at diffs a) = false) (sortBigIntSlice diffs).
  { apply sort_sorted, diff_order. }
  set (sorted := sortBigIntSlice diffs) in *. have Hsl : zlen sorted = n by rw /zlen Hperm length_seqZ; lia.
  have Hin x : x ∈ sorted ↔ 0 ≤ x < n by rw Hperm elem_of_seqZ; lia.
  destruct (Z.eqb_spec n 0) as [E|E].
  - exists [0]. split; [|done]. have -> : sorted = [] by apply length_zero_iff_nil; rw /zlen in Hsl; lia. done.
  - exists (take (Z.to_nat (Z.min shardLen n)) sorted). rw Hsl. split; [destruct sorted; [exfalso; apply E; by rw -Hsl|done]|].
    have Hnd : NoDup sorted by rw Hperm; apply NoDup_seqZ. split_and!.
    + rw /zlen length_take. rw /zlen in Hsl. lia.
    + apply (sublist_NoDup _ sorted Hnd), sublist_take.
    + intros i Hi. apply Hin. exact (subseteq_take _ _ _ Hi).
    + intros i j Hi Hj Hnj. have Hi' : 0 ≤ i < n by apply Hin; exact (subseteq_take _ _ _ Hi).
      have Hjd : j ∈ drop (Z.to_nat (Z.min shardLen n)) sorted.
      { have Hj' : j ∈ sorted by apply Hin. rw -(take_drop (Z.to_nat (Z.min shardLen n)) sorted) in Hj'. by apply elem_of_app in Hj' as [?|?]. }
      have := StronglySorted_split _ _ _ i j Hsort Hi Hjd. rw !Hat //. lia.
Qed.

End choice.

(** ** Fetching a single blob *)

Lemma TryWrite_large `{Geth} sm k b commit sm' : sm_wf sm → stored sm k → sm_kvSize sm < zlen b → TryWrite k b commit sm ≠ (Ret true, sm').
Proof.
  intros Hwf (ds & Hk & _) Hb. destruct (smwf_shards _ Hwf _ _ Hk) as (_ & _ & _ & Ekv & _).
  rw /TryWrite /with_shard_st udiv_nz; [have := smwf_entries _ Hwf; lia|]. rw /shard_of in Hk. rw Hk /mbind /st_bind /in_shard_map.
  rw /DataShard.Write /WriteWith. destruct (negb _); [done|]. by rw (proj2 (Z.ltb_lt _ _)); [lia|].
Qed.

Lemma padded_twice n m b : zlen b ≤ n ≤ m → go_copy (zeros m) (padded n b) = go_copy (zeros m) b.
Proof. apply padded_padded. Qed.

Lemma checkCommit_own `{GL : GethLaws} n b h : zlen b ≤ n ≤ blob_size → BlobToVersionedHash b = Ret h → take 24 h ≠ EmptyBlobCommit →
  checkCommit h (padded n b) = Ret tt.
Proof.
  intros Hb Hh Hne. unfold BlobToVersionedHash in Hh. unfold checkCommit. rw decide_False; [exact Hne|].
  rw (padded_twice n blob_size b Hb) Hh. unfold CompareCommits, zlen.
  rw (BlobVersionedHash_length _ _ Hh). by rw decide_True.
Qed.

(** C26: when [EsNodeSync] succeeds, whatever the other node answered, the stored blob has the hash that the contract
    records for the KV, its local commit is that hash with the mark of a filled KV, reading it back with the hash
    gives the padded blob, and the storage is well formed with every other KV unchanged. *)
Theorem EsNodeSync_sound `{GL : GethLaws} metas rpc sm k sm' :
  sm_wf sm → stored sm k → sm_kvSize sm ≤ blob_size →
  (∀ meta rest, metas = Ret (meta :: rest) → sm_maskable sm k (PrepareCommit (go_copy (zeros 32) (take 24 (drop 8 meta))))) →
  EsNodeSync metas rpc (Ret sm) k = Ret sm' →
  ∃ meta rest blob h, metas = Ret (meta :: rest) ∧
    BlobToVersionedHash blob = Ret h ∧ take 24 h = take 24 (drop 8 meta) ∧
    sm_written sm k (PrepareCommit (go_copy (zeros 32) (take 24 (drop 8 meta)))) sm' ∧
    (take 24 h ≠ EmptyBlobCommit →
     ShardManager.TryRead sm' k (sm_kvSize sm) h = Ret (Some (padded (sm_kvSize sm) blob))).
Proof.
  intros Hwf Hst Hkv Hmask. rw /EsNodeSync. destruct metas as [metas| |]; [|done..].
  destruct metas as [|meta rest]; [done|]. change (index (meta :: rest) 0) with (Ret meta). cbn [mbind gores_bind].
  change (32 - HashSizeInContract) with 8. destruct (slice meta 8 32) as [part| |] eqn:Ep; [|done..]. cbn [mbind gores_bind].
  have Hpart : part = take 24 (drop 8 meta) ∧ length part = 24%nat.
  { move: Ep. rw /slice. destruct (_ && _) eqn:Eb; [|done]. intros [= <-]. split; [done|]. rw length_take length_drop. rw /zlen in Eb. lia. }
  destruct Hpart as [-> Hpl]. set (part := take 24 (drop 8 meta)) in *. set (c := go_copy (zeros 32) part).
  have Hc24 : take 24 c = part by rw /c go_copy_zeros ?take_app_length' // /zlen Hpl.
  have Hcl : length c = 32%nat by rw length_go_copy.
  destruct (downloadBlobFromRPC _ _ _) as [blob| |] eqn:Ed; [|done..]. move: Ed. rw /downloadBlobFromRPC.
  destruct (rpc k c) as [b| |]; [|done..]. cbn [mbind gores_bind]. destruct (BlobToVersionedHash b) as [h| |] eqn:Eh; [|done..].
  case_bool_decide as Ht; [|done]. intros [= ->]. rw Hc24 in Ht.
  destruct (decide (zlen blob ≤ sm_kvSize sm)) as [Hb|Hb]; last first.
  { have Hbig := @TryWrite_large G sm k blob (PrepareCommit c). destruct (TryWrite _ _ _ sm) as [[[]| |] sm1]; try done.
    exfalso. apply (Hbig sm1 Hwf Hst); [lia|done]. }
  destruct (TryWrite_ok sm k blob (PrepareCommit c) Hwf Hst Hb) as (sm1 & -> & Hw & HR);
    [by rw /zlen length_PrepareCommit|exact (Hmask meta rest eq_refl)|]. intros [= <-].
  exists meta, rest, blob, h. split_and!; [done..|]. intros Hne. have Hz := zlen_nonneg blob. rw HR; [by rw PrepareCommit_prefix // Hc24|lia|].
  rw checkCommit_own //. cbn [mbind gores_bind mret gores_ret]. rw take_ge //. rw length_go_copy /zeros length_replicate //.
Qed.

(** ** Examples *)

Definition ex_cfg : StorageConfig := mkStorageConfig [] 128 64 2 (zeros 20) (replicate 20 7).

Lemma ex_sizes : sizes ex_cfg toy_fallocate ENCODE_BLOB_POSEIDON.
Proof.
  have Hp n m : 0 ≤ n → m = 2 ^ n → pow2 m by intros; exists n.
  constructor; [split; [done|by apply (Hp 7)]|split; [done|by apply (Hp 6)]|split; [done|by apply (Hp 1)]|done|done|done|exact toy_fallocate_ok|].
  intros f off l. by eexists.
Qed.

Lemma start_after_init_witness :
  ∃ w s, createDataFile toy_fallocate true None ex_cfg [1; 3] "data" ENCODE_BLOB_POSEIDON (mkFs false ∅) = (Ret ["data/shard-1.dat"; "data/shard-3.dat"]%string, w) ∧
    initStorageManager w (with_files ex_cfg ["data/shard-1.dat"; "data/shard-3.dat"]%string) [3; 1] = Ret s ∧ sm_wf (s_shardManager s) ∧
    stored (s_shardManager s) 7.
Proof.
  destruct (start_after_init ex_cfg toy_fallocate ENCODE_BLOB_POSEIDON "data" [1; 3] ∅ false [3; 1] ex_sizes) as (w & s & H1 & _ & H2 & H3 & _ & H4).
  - apply NoDup_cons. split; [by intros ?%list_elem_of_singleton|]. apply NoDup_singleton.
  - intros i Hi. split; [|apply lookup_empty].
    apply elem_of_cons in Hi as [->|Hi]; [|apply list_elem_of_singleton in Hi as ->]; rw /fits /two63 /=; split_and!; done.
  - exists w, s. split; [exact H1|]. split; [exact H2|]. split; [exact H3|]. apply H4. apply elem_of_cons. right. apply list_elem_of_singleton. done.
Defined.

Lemma failed_init_not_repaired_witness :
  ∃ w', createDataFile (λ _ _ _, Fail (ErrMsg "no space left on device")) true None ex_cfg [1] "data" ENCODE_BLOB_POSEIDON (mkFs true ∅) =
      (Fail (ErrMsg "no space left on device"), w') ∧
    createDataFile toy_fallocate true None ex_cfg [1] "data" ENCODE_BLOB_POSEIDON w' = (Ret [], w').
Proof.
  destruct (failed_init_not_repaired ex_cfg (λ _ _ _, Fail (ErrMsg "no space left on device")) ENCODE_BLOB_POSEIDON "data" 1
    (ErrMsg "no space left on device") (mkFs true ∅) toy_fallocate [] ex_sizes) as (w' & H1 & H2 & _).
  - rw /fits /two63 /=. split_and!; done.
  - apply lookup_empty.
  - done.
  - exists w'. split; [exact H1|exact H2].
Defined.

(** An insertion sort. *)
Fixpoint insert_by (lt : Z → Z → bool) (x : Z) (l : list Z) : list Z :=
  match l with
  | [] => [x]
  | y :: l' => if lt y x then y :: insert_by lt x l' else x :: l
  end.

#[local] Instance ex_sort : SortSlice := { sort_slice lt l := foldr (insert_by lt) [] l }.

Lemma insert_by_perm lt x l : insert_by lt x l ≡ₚ x :: l.
Proof. induction l as [|y l IH]; [done|]. simpl. destruct (lt y x); [|done]. rw IH. apply Permutation_swap. Qed.

#[local] Instance ex_sort_laws : SortLaws ex_sort.
Proof.
  constructor; intros lt l; cbn [sort_slice ex_sort].
  - induction l as [|x l IH]; [done|]. simpl. by rw insert_by_perm IH.
  - intros Hlt. induction l as [|x l IH]; [constructor|]. simpl. revert IH. generalize (foldr (insert_by lt) [] l) as k.
    induction k as [|y k IHk]; intros Hk; [repeat constructor|]. simpl. inversion Hk as [|? ? Hk' Hy]; subst.
    destruct (lt y x) eqn:E.
    + constructor; [by apply IHk|]. rw insert_by_perm. apply Forall_cons. split; [|done].
      destruct (lt x y) eqn:E2; [|done]. rewrite <- (swo_irrefl _ Hlt y). symmetry. by apply (swo_trans _ Hlt y x y).
    + constructor; [done|]. apply Forall_cons. split; [done|]. apply (Forall_impl _ _ _ Hy). intros z Hz. by apply (swo_incomp _ Hlt z y x).
Qed.

(** A contract with three shards of difficulty 10, 9 and 8. *)
#[local] Instance ex_contract : ContractNode := {
  CodeAt := Ret [1];
  CallContract data := Ret (drop 4 data);
  unpack_uint256s bs := let i := be_decode bs in Some [0; if i <? 3 then 10 - i else 0; 0] }.

Lemma getShardList_spec_witness : ∃ l, getShardList 4 2 = Ret l ∧ zlen l = 2 ∧ NoDup l.
Proof.
  destruct (getShardList_spec 3 (λ i, 10 - i) 2 4) as (l & H1 & H2 & H3 & _).
  - split; [done|]. split; [|left; by vm_compute]. intros i Hi. have [->|[->| ->]] : i = 0 ∨ i = 1 ∨ i = 2 by lia. all: split; by vm_compute.
  - done.
  - vm_compute. lia.
  - exists l. split; [exact H1|]. split; [exact H2|exact H3].
Defined.

Definition ex_record : bytes := zeros 8 ++ take 24 ex_commit.

Lemma ex_sync_maskable : sm_maskable ex_sm 3 (PrepareCommit (go_copy (zeros 32) (take 24 (drop 8 ex_record)))).
Proof.
  intros ds. rw ex_sm_shard. intros [= <-]. split; [done|]. intros i Hi. have Ei : i = 0 ∨ i = 1 by simpl in Hi; lia.
  destruct Ei as [-> | ->]; split; by vm_compute.
Qed.

Definition ex_synced : ShardManager := from_ret ex_sm (EsNodeSync (Ret [ex_record]) (λ _ _, Ret [9; 8; 7]) (Ret ex_sm) 3).

Lemma ex_head {A} (x : A) l y k : Ret (x :: l) = Ret (y :: k) → x = y.
Proof. by intros [= -> _]. Qed.

Lemma ex_record_full : take 24 (drop 8 ex_record) ≠ EmptyBlobCommit.
Proof. vm_compute. discriminate. Qed.

Lemma ex_synced_ok : EsNodeSync (Ret [ex_record]) (λ _ _, Ret [9; 8; 7]) (Ret ex_sm) 3 = Ret ex_synced.
Proof. vm_compute. reflexivity. Qed.

Lemma EsNodeSync_sound_witness :
  ∃ meta rest blob h, Ret [ex_record] = Ret (meta :: rest) ∧ BlobToVersionedHash blob = Ret h ∧
    take 24 h = take 24 (drop 8 meta) ∧ ShardManager.TryRead ex_synced 3 128 h = Ret (Some (padded 128 blob)).
Proof.
  destruct (EsNodeSync_sound (G := toy_geth) (GL := toy_geth_laws) (Ret [ex_record]) (λ _ _, Ret [9; 8; 7]) ex_sm 3 ex_synced)
    as (meta & rest & blob & h & H1 & H2 & H3 & _ & H4).
  - exact ex_sm_wf.
  - exact ex_sm_stored.
  - vm_compute. discriminate.
  - intros meta rest E. rewrite <- (ex_head _ _ _ _ E). exact ex_sync_maskable.
  - exact ex_synced_ok.
  - exists meta, rest, blob, h. split; [exact H1|]. split; [exact H2|]. split; [exact H3|]. apply H4.
    rw H3. rewrite <- (ex_head _ _ _ _ H1). exact ex_record_full.
Defined.
