(* ===== verification/ShardConfig.v ===== *)
(** * The registered shard managers (ethstorage/shard_config.go)

    The program keeps a global map from contracts to shard managers; the functions here fill it from texts of the
    configuration and look managers up by the size of their KVs.  The order in which Go visits a map is an argument. *)

From stdpp Require Import pretty.
From S2P Require Import Prelude Bits GoStrings Extern EthashSizes Ethash DataFile ChunkCodec DataShard ShardManager.

(** [ContractToShardManager] *)
Definition registry := gmap bytes ShardManager.

Record ShardInfo := mkShardInfo { si_Contract : bytes; si_KVSize : Z; si_KVEntries : Z; si_ChunkSize : Z }.

Definition ShardInfos : list ShardInfo := [mkShardInfo (zeros 16 ++ [3; 51; 0; 1]) (128 * 1024) (256 * 1024) 4096].

Definition InitializeConfig : ST registry unit :=
  st_foldM (λ _ sinfo r,
    match NewShardManager (si_Contract sinfo) (si_KVSize sinfo) (si_KVEntries sinfo) (si_ChunkSize sinfo) with
    | Ret sm => (Ret tt, <[si_Contract sinfo := sm]> r)
    | Fail e => (Fail e, r)
    | Panic p => (Panic p, r)
    end) tt ShardInfos.

(** The contract of the first manager with the KV size; [None] is the nil pointer. *)
Definition findShardManaager (order : list bytes) (kvSize : Z) (r : registry) : option bytes :=
  List.find (λ addr, match r !! addr with Some v => sm_kvSize v =? kvSize | None => false end) order.

(** [s[len(s)-1]] and [s[0:len(s)-1]] *)
Definition last_char (s : string) : gores Ascii.ascii :=
  match String.get (String.length s - 1) s with Some c => Ret c | None => Panic OutOfRange end.
Definition but_last (s : string) : string := String.substring 0 (String.length s - 1) s.

Definition atoi_error : error := ErrMsg "strconv.Atoi: parsing".

Definition parseKvSize (s : string) : gores Z :=
  c ← last_char s;
  if (code c =? 107) || (code c =? 75) then
    match Atoi (but_last s) with
    | None => Fail atoi_error
    | Some v => mret (mul64 (wrap64 v) 1024)
    end
  else
    match Atoi s with
    | None => Fail atoi_error
    | Some v => mret (wrap64 v)
    end.

(** A method of the manager registered under [addr]. *)
Definition with_manager (addr : bytes) (m : ST ShardManager unit) : ST registry unit := λ r,
  match r !! addr with
  | None => (Panic NilPointer, r)
  | Some sm => let '(res, sm) := m sm in (res, <[addr := sm]> r)
  end.

Definition AddDataShardFromConfig (order : list bytes) (cfg : string) : ST registry unit := λ r,
  match split_comma cfg with
  | [s0; s1] =>
      if bool_decide (s0 = "") || bool_decide (s1 = "") then (Fail (ErrMsg "incorrect data shard cfg"), r)
      else
        match parseKvSize s0 with
        | Fail e => (Fail e, r)
        | Panic p => (Panic p, r)
        | Ret kvSize =>
            match findShardManaager order kvSize r with
            | None => (Fail (ErrMsg "shard with kv size not found"), r)
            | Some addr =>
                match Atoi s1 with
                | None => (Fail atoi_error, r)
                | Some v => with_manager addr (AddDataShard (wrap64 v)) r
                end
            end
        end
  | _ => (Fail (ErrMsg "incorrect data shard cfg"), r)
  end.

(** [opened] is the file of the configured name. *)
Definition AddDataFileFromConfig (order : list bytes) (opened : gores file) : ST registry unit := λ r,
  match OpenDataFile opened with
  | Fail e => (Fail e, r)
  | Panic p => (Panic p, r)
  | Ret df =>
      match findShardManaager order (df_maxKvSize df) r with
      | None => (Fail (ErrMsg "shard with kv size not found"), r)
      | Some addr => with_manager addr (AddDataFile df) r
      end
  end.

Definition IsComplete (order : list bytes) (orders : bytes → list Z) (r : registry) : gores unit :=
  foldM (λ _ addr, match r !! addr with Some sm => ShardManager.IsComplete sm (orders addr) | None => mret tt end) tt order.

(** The shards of each contract, in the order of [map_to_list]. *)
Definition Shards (r : registry) : gmap bytes (list Z) :=
  omap (λ sm, match map_to_list (sm_shardMap sm) with [] => None | l => Some l.*1 end) r.

(** ** Reading the configuration *)

Lemma parseKvSize_digits s n : ParseUint s = Some n → n < two63 → parseKvSize s = Ret (wrap64 n).
Proof.
  intros Hs Hn. have Hat := Atoi_ParseUint s n Hs. rw (proj2 (Z.ltb_lt _ _)) // in Hat. destruct s as [|c s]; [done|].
  rw /parseKvSize /last_char. change (String.length (String c s) - 1)%nat with (String.length s - 0)%nat. rw Nat.sub_0_r.
  destruct (get_some c s) as [c' E]. rw E. have Hc := parse_digits_get 0 _ n _ c' Hs E. cbn [mbind gores_bind].
  rw (proj2 (Z.eqb_neq (code c') 107)); [lia|]. rw (proj2 (Z.eqb_neq (code c') 75)); [lia|]. cbn [orb]. by rw Hat.
Qed.

Lemma parseKvSize_kilo s n c : ParseUint s = Some n → n < two63 → code c = 107 ∨ code c = 75 →
  parseKvSize (s +:+ String c "") = Ret (mul64 (wrap64 n) 1024).
Proof.
  intros Hs Hn Hc. have Hat := Atoi_ParseUint s n Hs. rw (proj2 (Z.ltb_lt _ _)) // in Hat.
  rw /parseKvSize /last_char /but_last length_snoc.
  have -> : (S (String.length s) - 1 = String.length s)%nat by lia. rw get_last substring_snoc Hat. cbn [mbind gores_bind].
  by have -> : (code c =? 107) || (code c =? 75) = true by lia.
Qed.

(** The texts of a KV size: a number, or a number of kilobytes. *)
Definition kv_text (s : string) (kv : Z) : Prop :=
  ∃ n, 0 ≤ n < two63 ∧ ((s = pretty n ∧ kv = n) ∨ (∃ c, (c = "k" ∨ c = "K")%string ∧ s = (pretty n +:+ c)%string ∧ kv = mul64 n 1024)).

Lemma kv_text_parse s kv : kv_text s kv → s ≠ "" ∧ split_comma s = [s] ∧ parseKvSize s = Ret kv.
Proof.
  have H64 : two63 < two64 by done. intros (n & Hn & Hs). have Hp := ParseUint_pretty n ltac:(lia).
  have Hne : pretty n ≠ "" by intros E; rw E in Hp. have Hw : wrap64 n = n by rw /wrap64 Z.mod_small //; lia.
  have Hsp : split_comma (pretty n) = [pretty n].
  { rw /ParseUint in Hp. destruct (pretty n); [done|]. exact (split_comma_digits _ _ _ Hp). }
  destruct Hs as [[-> ->]|(c & Hc & -> & ->)].
  - rw (parseKvSize_digits _ n) // ?Hw //. lia.
  - have [c' [-> Hc']] : ∃ c', c = String c' "" ∧ (code c' = 107 ∨ code c' = 75).
    { destruct Hc as [-> | ->]; eexists; split; [reflexivity|by left|reflexivity|by right]. }
    split_and!.
    + by destruct (pretty n).
    + apply split_comma_snoc; [done|lia].
    + rw (parseKvSize_kilo _ n) // ?Hw //. lia.
Qed.


Lemma find_manager order kv r : (∀ a, a ∈ order ↔ is_Some (r !! a)) →
  (∃ a sm, findShardManaager order kv r = Some a ∧ r !! a = Some sm ∧ sm_kvSize sm = kv) ∨
  (findShardManaager order kv r = None ∧ ∀ a sm, r !! a = Some sm → sm_kvSize sm ≠ kv).
Proof.
  intros Ho. rw /findShardManaager. destruct (List.find _ order) as [a|] eqn:E.
  - left. apply find_some in E as [Hin E]. destruct (r !! a) as [sm|] eqn:Ea; [|done]. exists a, sm. split_and!; [done..|lia].
  - right. split; [done|]. intros a sm Ha Hk. have Hin : a ∈ order by apply Ho; rw Ha.
    apply list_elem_of_In in Hin. pose proof (find_none _ _ E a Hin) as Hf. rw /= Ha in Hf. lia.
Qed.

(** [AddDataShardFromConfig] reads the text "kvSize,shardIdx", with the size in bytes or in kilobytes: it adds the
    shard to a registered manager of that KV size and changes no other one, or it fails without change when there is
    no such manager, whatever the order in which the map is visited. *)
Theorem AddDataShardFromConfig_spec order r s kv i :
  (∀ a, a ∈ order ↔ is_Some (r !! a)) → kv_text s kv → 0 ≤ i < two63 →
  (∃ a sm, r !! a = Some sm ∧ sm_kvSize sm = kv ∧
     AddDataShardFromConfig order (s +:+ "," +:+ pretty i) r = ((AddDataShard i sm).1, <[a := (AddDataShard i sm).2]> r)) ∨
  ((∀ a sm, r !! a = Some sm → sm_kvSize sm ≠ kv) ∧
     AddDataShardFromConfig order (s +:+ "," +:+ pretty i) r = (Fail (ErrMsg "shard with kv size not found"), r)).
Proof.
  intros Ho Hs Hi. have H64 : two63 < two64 by done. destruct (kv_text_parse s kv Hs) as (Hne & Hsp & Hkv).
  have Hp := ParseUint_pretty i ltac:(lia). have Hpi : pretty i ≠ "" by intros E; rw E in Hp.
  have Hw : wrap64 i = i by rw /wrap64 Z.mod_small //; lia. have Hat := Atoi_ParseUint _ _ Hp. rw (proj2 (Z.ltb_lt _ _)) // in Hat; [lia|].
  have Hspi : split_comma (pretty i) = [pretty i].
  { rw /ParseUint in Hp. destruct (pretty i); [done|]. exact (split_comma_digits _ _ _ Hp). }
  rw /AddDataShardFromConfig split_comma_app // Hspi !bool_decide_false //. cbn [orb]. rw Hkv.
  destruct (find_manager order kv r Ho) as [(a & sm & -> & Ha & Ek)|[-> Hno]]; [left|by right].
  exists a, sm. split_and!; [done..|]. rw Hat Hw /with_manager Ha. by destruct (AddDataShard i sm).
Qed.

(** The manager of [ShardInfos] takes a shard. *)
Definition ex_registry : registry := (InitializeConfig ∅).2.

Lemma AddDataShardFromConfig_spec_witness :
  ∃ sm, ex_registry !! (zeros 16 ++ [3; 51; 0; 1]) = Some sm ∧
    (AddDataShardFromConfig [zeros 16 ++ [3; 51; 0; 1]] "128k,7" ex_registry).1 = (AddDataShard 7 sm).1 ∧
    (AddDataShard 7 sm).1 = Ret tt.
Proof.
  have Hk a : is_Some (ex_registry !! a) → a = zeros 16 ++ [3; 51; 0; 1].
  { change ex_registry with ({[ zeros 16 ++ [3; 51; 0; 1] := from_ret (mkShardManager ∅ [] 0 0 0 0 0 0 0 0) (NewShardManager (zeros 16 ++ [3; 51; 0; 1]) 131072 262144 4096) ]} : registry).
    intros [sm H]. by apply lookup_singleton_Some in H as [<- _]. }
  have Hin : is_Some (ex_registry !! (zeros 16 ++ [3; 51; 0; 1])) by vm_compute; eexists.
  destruct (AddDataShardFromConfig_spec [zeros 16 ++ [3; 51; 0; 1]] ex_registry "128k" 131072 7) as [(a & sm & Ha & Ek & HA)|[Hno _]].
  - intros a. rw list_elem_of_singleton. split; [intros ->; exact Hin|apply Hk].
  - exists 128. split; [by vm_compute|]. right. exists "k"%string. split; [by left|]. split; by vm_compute.
  - by vm_compute.
  - have Ea := Hk a (ex_intro _ sm Ha). subst a. exists sm. split; [exact Ha|]. split; [exact (f_equal fst HA)|].
    vm_compute in Ha. injection Ha as <-. by vm_compute.
  - exfalso. destruct Hin as [sm Hsm]. apply (Hno _ _ Hsm). vm_compute in Hsm. injection Hsm as <-. by vm_compute.
Defined.
