(* ===== verification/L1Client.v ===== *)
(** * The L1 client (ethstorage/eth: polling_client.go, randao_client.go, heads.go, block_info.go, id.go)

    What the node asks of the L1 chain: calls of the storage contract, its events, and references to blocks.  The
    JSON-RPC node and go-ethereum's ABI codec are parameters; a request of the node is numbered, so that it may answer
    differently each time.  [polling_source] makes the client the [Il1Source] of the storage manager. *)

From S2P Require Import Prelude Extern ChunkCodec ShardManager StorageManager.
From S2P Require Import BlobSources BlobCache Downloader GoStrings.

(** ** Blocks *)

Record Header := mkHeader { h_Hash : bytes; h_Number : Z; h_ParentHash : bytes; h_Time : Z; h_MixDigest : bytes }.

Record BlockID := mkBlockID { id_Hash : bytes; id_Number : Z }.

Record L1BlockRef := mkL1BlockRef { Hash : bytes; Number : Z; ParentHash : bytes; Time : Z; MixDigest : bytes }.

Definition ID (r : L1BlockRef) : BlockID := mkBlockID (Hash r) (Number r).

Definition ParentID (r : L1BlockRef) : BlockID :=
  let n := id_Number (ID r) in
  let n := if 0 <? n then sub64 n 1 else n in
  mkBlockID (ParentHash r) n.

Definition InfoToL1BlockRef (head : Header) : L1BlockRef :=
  mkL1BlockRef (h_Hash head) (wrap64 (h_Number head)) (h_ParentHash head) (h_Time head) (zeros 32).

(** What [WatchHeadChanges] hands on. *)
Definition head_signal (header : Header) : L1BlockRef :=
  mkL1BlockRef (h_Hash header) (wrap64 (h_Number header)) (h_ParentHash header) (h_Time header) (h_MixDigest header).

(** ** The node and the ABI *)

(** A call has the call data and the number of a block, [None] for the latest; a header is asked for by number or
    by label (a negative number) and the answer may be the text of an error. *)
Class EthRpc := {
  eth_call : nat → bytes → option Z → gores bytes;
  eth_getLogs : nat → Z → Z → bytes → gores (list Log);
  eth_getHeader : nat → Z → Header + string }.

(** [abi.Arguments{...}.Pack] and [.UnpackValues] for the types the client uses. *)
Class Abi := {
  pack_uint256_array : list Z → gores bytes;
  pack_uint256_pair : Z → Z → gores bytes;
  unpack_bytes32_array : bytes → gores (list bytes);
  unpack_uint40 : bytes → gores Z;
  (** [semver.IsValid] *)
  semver_IsValid : string → bool }.

Definition PutBlobEvent : string := "PutBlob(uint256,uint256,bytes32)".

Section client.
Context `{GE : Geth} `{RP : EthRpc} `{AB : Abi}.

Definition selector (signature : string) : bytes := take 4 (Keccak256Hash (bytes_of signature)).

(** *** Calls of the contract *)

(** The call data are the whole hash of the signature. *)
Definition rpc_GetStorageKvEntryCount (req : nat) (blockNumber : Z) : gores Z :=
  let h := Keccak256Hash (bytes_of "kvEntryCount()") in
  bs ← eth_call req h (Some blockNumber);
  n ← unpack_uint40 bs;
  mret (wrap64 n).

Definition rpc_GetKvMetas (req : nat) (kvIndices : list Z) (blockNumber : Z) : gores (list bytes) :=
  dataField ← pack_uint256_array kvIndices;
  bs ← eth_call req (selector "getKvMetas(uint256[])" ++ dataField) (Some blockNumber);
  res ← unpack_bytes32_array bs;
  if negb (zlen res =? zlen kvIndices) then Fail (ErrMsg "invalid return from GetKvMetas") else mret res.

Definition GetMiningReward (req : nat) (shard timestamp : Z) : gores Z :=
  dataField ← pack_uint256_pair shard timestamp;
  bs ← eth_call req (selector "miningReward(uint256,uint256)" ++ dataField) None;
  mret (be_decode bs).

Definition ReadContractField (req : nat) (fieldName : string) (blockNumber : option Z) : gores bytes :=
  match eth_call req (selector (fieldName +:+ "()")) blockNumber with
  | Fail _ => Fail (ErrMsg "failed to get field from contract")
  | r => r
  end.

(** [big.Int.Int64]: "If x cannot be represented in an int64, the result is undefined"; it is the low 64 bits. *)
Definition decodeString (data : bytes) : gores bytes :=
  if zlen data <? 64 then Fail (ErrMsg "data too short")
  else
    field ← slice data 32 64;
    let strLen := int64 (be_decode field) in
    if zlen data <? int64 (64 + strLen) then Fail (ErrMsg "data length mismatch")
    else slice data 64 (int64 (64 + strLen)).

Definition string_of (b : bytes) : string :=
  String.string_of_list_ascii ((λ x, Ascii.ascii_of_nat (Z.to_nat x)) <$> b).

Definition GetContractVersion (req : nat) : gores string :=
  match ReadContractField req "version" None with
  | Fail _ => Fail (ErrMsg "failed to get version from contract")
  | Panic p => Panic p
  | Ret bs =>
      match decodeString bs with
      | Fail _ => Fail (ErrMsg "failed to decode version string")
      | Panic p => Panic p
      | Ret versionStr =>
          let version := ("v" +:+ string_of versionStr)%string in
          if negb (semver_IsValid version) then Fail (ErrMsg "invalid version string") else mret version
      end
  end.

(** *** Events *)

Definition rpc_FilterLogsByBlockRange (req : nat) (start end_ : Z) (eventSig : string) : gores (list Log) :=
  eth_getLogs req start end_ (Keccak256Hash (bytes_of eventSig)).

Definition updated_index (event : Log) : gores Z :=
  t ← index (lg_Topics event) 1;
  mret (wrap64 (be_decode t)).

Definition GetUpdatedKvIndices (req : nat) (startBlock endBlock : Z) : gores (list Z) :=
  events ← rpc_FilterLogsByBlockRange req startBlock endBlock PutBlobEvent;
  foldM (λ kvIndices event, i ← updated_index event; mret (kvIndices ++ [i])) [] events.

(** *** Headers *)

Definition NotFound : error := ErrMsg "not found".

Definition L1BlockRefByLabel (req : nat) (label : Z) : gores L1BlockRef :=
  match eth_getHeader req label with
  | inr msg =>
      let err := if contains msg "block not found" || contains msg "Unknown block" then NotFound else ErrMsg msg in
      Fail (ErrWrap "failed to fetch head header" err)
  | inl head => mret (InfoToL1BlockRef head)
  end.

(** The latest randao header: the number from the L1 block contract, the header from the randao source. *)
Definition getLatestNumber (req : nat) : gores Z :=
  match eth_call req (selector "number()") None with
  | Fail _ => Fail (ErrMsg "failed to call number()")
  | Panic p => Panic p
  | Ret ret => mret (be_decode ret)
  end.

Definition GetLatestHeader (rc_getHeader : nat → Z → Header + string) (req : nat) : gores Header :=
  blockNumber ← getLatestNumber req;
  match rc_getHeader req blockNumber with
  | inl head => mret head
  | inr msg => Fail (ErrMsg msg)
  end.

End client.

(** The client as the source of the storage manager. *)
#[export] Instance polling_source `{Geth} `{EthRpc} `{Abi} : Il1Source := {
  GetKvMetas := rpc_GetKvMetas;
  GetStorageKvEntryCount := rpc_GetStorageKvEntryCount }.

(** ** What the code relies on *)

(** The codec returns a value or an error, and a decoded [bytes32] has 32 bytes; a node answers or fails. *)
Class AbiLaws `(AB : Abi) : Prop := {
  pack_no_panic ks p : pack_uint256_array ks ≠ Panic p;
  unpack_no_panic bs p : unpack_bytes32_array bs ≠ Panic p;
  unpack_width bs l : unpack_bytes32_array bs = Ret l → Forall (λ m, length m = 32%nat) l }.

Class RpcLaws `(RP : EthRpc) : Prop := { eth_call_no_panic req data block p : eth_call req data block ≠ Panic p }.

(** ** Strings of the contract *)

(** [decodeString] on every input: with the length [n] that the second word has in its low 64 bits, as a signed number,
    it returns the [n] bytes after the head when they are there, fails when they are not, and panics when [n] is
    negative or so large that the end of the string overflows. *)
Theorem decodeString_spec data :
  let n := int64 (be_decode (take 32 (drop 32 data))) in
  decodeString data =
    if zlen data <? 64 then Fail (ErrMsg "data too short")
    else if (n <? 0) || (two63 - 64 <=? n) then Panic OutOfRange
    else if zlen data <? 64 + n then Fail (ErrMsg "data length mismatch")
    else Ret (take (Z.to_nat n) (drop 64 data)).
Proof.
  intros n. rw /decodeString. case: Z.ltb_spec => Hl; [done|].
  have -> : slice data 32 64 = Ret (take 32 (drop 32 data)) by rw /slice !(proj2 (Z.leb_le _ _)) //; lia. cbn [mbind gores_bind].
  change (int64 (be_decode (take 32 (drop 32 data)))) with n.
  have Hn : - two63 ≤ n < two63.
  { rw /n /int64. have := Z.mod_pos_bound (be_decode (take 32 (drop 32 data)) + two63) two64 ltac:(done). rw /two63 /two64. lia. }
  have Hz := zlen_nonneg data. rw /slice.
  destruct (Z.ltb_spec n 0) as [H0|H0]; [|destruct (Z.leb_spec (two63 - 64) n) as [H1|H1]]; cbn [orb].
  - have -> : int64 (64 + n) = 64 + n by rw /int64 Z.mod_small; rw /two63 /two64 in Hn |- *; lia.
    rw (proj2 (Z.ltb_ge _ _)); [lia|]. by rw (proj2 (Z.leb_gt 64 (64 + n))); [lia|].
  - have -> : int64 (64 + n) = 64 + n - two64.
    { rw /int64. have -> : 64 + n + two63 = (64 + n - two63) + 1 * two64 by rw /two63 /two64; lia.
      rw Z.mod_add // Z.mod_small; rw /two63 /two64 in Hn H1 |- *; lia. }
    rw (proj2 (Z.ltb_ge _ _)); [rw /two63 /two64 in Hn |- *; lia|].
    by rw (proj2 (Z.leb_gt 64 _)); [rw /two63 /two64 in Hn |- *; lia|].
  - have -> : int64 (64 + n) = 64 + n by rw /int64 Z.mod_small; rw /two63 /two64 in Hn H1 |- *; lia.
    case: Z.ltb_spec => H2; [done|]. rw !(proj2 (Z.leb_le _ _)); [lia..|]. cbn [andb]. do 3 f_equal. lia.
Qed.


(** ** Metadata from an arbitrary node *)

Definition typed (s : StorageManager) : Prop := map_Forall (λ _ m, length m = 32%nat) (s_blobMetas s).

(** From a typed state [m] ends in a typed one, does not panic other than by lack of fuel, and what it returns satisfies [Q]. *)
Definition safe {A} (m : ST StorageManager A) (Q : A → Prop) : Prop :=
  ∀ s, typed s → typed (m s).2 ∧ (∀ a, (m s).1 = Ret a → Q a) ∧ ∀ p, (m s).1 = Panic p → p = OutOfFuel.

Lemma safe_ret {A} (a : A) Q : Q a → safe (mret a) Q.
Proof. intros Ha s Hs. split_and!; [done|by intros ? [= <-]|done]. Qed.

Lemma safe_fail {A} e Q : safe (st_lift (Fail e) : ST _ A) Q.
Proof. by intros s Hs. Qed.

Lemma safe_bind {A B} (m : ST StorageManager A) (f : A → ST StorageManager B) Q R :
  safe m Q → (∀ a, Q a → safe (f a) R) → safe (m ≫= f) R.
Proof.
  intros Hm Hf s Hs. destruct (Hm s Hs) as (Ht & HQ & Hp). rw /mbind /st_bind. destruct (m s) as [[a|e|p] s1]; cbn in *.
  - by apply (Hf a (HQ a eq_refl)).
  - done.
  - split_and!; [done..|]. intros p' [= <-]. by apply Hp.
Qed.

Lemma safe_foldM {A B} (f : B → A → ST StorageManager B) l b :
  (∀ b x, x ∈ l → safe (f b x) (λ _, True)) → safe (st_foldM f b l) (λ _, True).
Proof.
  revert b. induction l as [|x l IH]; intros b Hf; [by apply safe_ret|].
  change (safe (f b x ≫= λ b, st_foldM f b l) (λ _, True)). apply (safe_bind _ _ (λ _, True)); [apply Hf, list_elem_of_here|]. intros b' _. apply IH. intros. by apply Hf, list_elem_of_further.
Qed.

Lemma safe_catch {A} (m : ST StorageManager A) Q : safe m Q → safe (st_catch m) (λ _, True).
Proof.
  intros Hm s Hs. destruct (Hm s Hs) as (Ht & _ & Hp). rw /st_catch. destruct (m s) as [[a|e|p] s1]; cbn in *; split_and!; try done.
  intros p' [= <-]. by apply Hp.
Qed.

Section arbitrary_node.
Context `{GE : Geth} `{RL : RpcLaws} `{AL : AbiLaws}.

Lemma rpc_GetKvMetas_checked req ks b :
  match rpc_GetKvMetas req ks b with
  | Ret l => length l = length ks ∧ Forall (λ m, length m = 32%nat) l
  | Fail _ => True
  | Panic _ => False
  end.
Proof.
  rw /rpc_GetKvMetas. pose proof (pack_no_panic ks) as Hp. destruct (pack_uint256_array ks) as [d|e|p]; [|done|by destruct (Hp p)].
  cbn [mbind gores_bind]. pose proof (eth_call_no_panic req (selector "getKvMetas(uint256[])" ++ d) (Some b)) as Hc.
  destruct (eth_call _ _ _) as [bs|e|p]; [|done|by destruct (Hc p)]. cbn [mbind gores_bind].
  pose proof (unpack_no_panic bs) as Hu. destruct (unpack_bytes32_array bs) as [l|e|p] eqn:El; [|done|by destruct (Hu p)].
  cbn [mbind gores_bind]. destruct (zlen l =? zlen ks) eqn:E; cbn; [|done]. rw /zlen in E. split; [lia|exact (unpack_width _ _ El)].
Qed.

Lemma ask_retry_eq n ks b s :
  ask_retry n ks b s =
    match rpc_GetKvMetas (s_requests s) ks b with
    | Fail e => match n with O => (Fail e, next_request s) | S n => ask_retry n ks b (next_request s) end
    | r => (r, next_request s)
    end.
Proof using.
  destruct n; unfold ask_retry; unfold ask_KvMetas; change (@GetKvMetas polling_source) with rpc_GetKvMetas; by destruct (rpc_GetKvMetas _ ks b).
Qed.

Lemma safe_ask n ks b : safe (ask_retry n ks b) (λ l, length l = length ks ∧ Forall (λ m, length m = 32%nat) l).
Proof.
  induction n as [|n IH]; intros s Hs; have Hn : typed (next_request s) by exact Hs.
  all: pose proof (rpc_GetKvMetas_checked (s_requests s) ks b) as Hc; rw ask_retry_eq.
  all: destruct (rpc_GetKvMetas (s_requests s) ks b) as [l|e|p]; [|try done|done].
  3: exact (IH (next_request s) Hn).
  all: split_and!; [done| |done]. all: intros a Ha; injection Ha as <-; exact Hc.
Qed.

Lemma typed_zip ks l m : Forall (λ x, length x = 32%nat) l → map_Forall (λ _ x, length x = 32%nat) m →
  map_Forall (λ _ x, length x = 32%nat) (foldl (λ (m : gmap Z bytes) '(i, x), <[i := x]> m) m (zip ks l)).
Proof using.
  revert m l. induction ks as [|k ks IH]; intros m l Hl Hm; [done|]. destruct l as [|x l]; [done|]. cbn.
  apply Forall_cons in Hl as [Hx Hl]. apply IH; [done|]. by apply map_Forall_insert_2.
Qed.

Lemma safe_store ks l : length l = length ks → Forall (λ x, length x = 32%nat) l → safe (store_metas ks l) (λ _, True).
Proof using.
  intros Hl Hf s Hs. rw /store_metas Hl Nat.ltb_irrefl. split_and!; [by apply typed_zip|done|done].
Qed.

Lemma safe_range fuel from to batch : safe (downloadMetaInRange fuel from to batch) (λ _, True).
Proof.
  revert from. induction fuel as [|fuel IH]; intros from s Hs; cbn [downloadMetaInRange]; destruct (to <=? from); try done.
  - split_and!; [done..|]. by intros p [= <-].
  - refine (safe_bind _ _ _ _ (safe_ask 10 _ _) _ s Hs). intros l [Hl Hf].
    apply (safe_bind _ _ _ _ (safe_store _ l Hl Hf)). intros _ _. apply IH.
Qed.

Lemma safe_parallel fuel from to batch : safe (downloadMetaInParallel fuel from to batch) (λ _, True).
Proof.
  apply (safe_bind _ _ (λ _, True)).
  - apply safe_foldM. intros errs [a b] _. apply (safe_bind _ _ _ _ (safe_catch _ _ (safe_range _ _ _ _))).
    intros r _. by apply safe_ret.
  - intros [|e errs] _; [by apply safe_ret|apply safe_fail].
Qed.

(** Whatever the L1 node answers, [DownloadAllMetas] over the polling client keeps the local metadata records at
    their 32 bytes and does not panic: an answer of the wrong shape is an error of [GetKvMetas]. *)
Theorem DownloadAllMetas_typed fuel batch s :
  typed s → typed (DownloadAllMetas fuel batch s).2 ∧ ∀ p, (DownloadAllMetas fuel batch s).1 = Panic p → p = OutOfFuel.
Proof.
  intros Hs. cut (safe (DownloadAllMetas fuel batch) (λ _, True)). { intros H. destruct (H s Hs) as (H1 & _ & H2). by split. }
  clear s Hs. intros s Hs. refine (safe_foldM _ _ _ _ s Hs). intros _ sid _.
  cbv zeta. match goal with |- safe (if ?c then _ else _) _ => destruct c end; [by apply safe_ret|apply safe_parallel].
Qed.

End arbitrary_node.

(** ** Events *)

(** The indices of the events of a range, in their order. *)
Lemma GetUpdatedKvIndices_ok `{Geth} `{EthRpc} req a b events :
  rpc_FilterLogsByBlockRange req a b PutBlobEvent = Ret events → Forall (λ e, (2 ≤ length (lg_Topics e))%nat) events →
  GetUpdatedKvIndices req a b = Ret ((λ e, wrap64 (be_decode (default [] (lg_Topics e !! 1%nat)))) <$> events).
Proof.
  intros He Ht. rw /GetUpdatedKvIndices He. cbn [mbind gores_bind].
  have Hg acc : foldM (λ kvIndices event, i ← updated_index event; mret (kvIndices ++ [i])) acc events =
    Ret (acc ++ ((λ e, wrap64 (be_decode (default [] (lg_Topics e !! 1%nat)))) <$> events)); [|exact (Hg [])].
  clear He. revert acc. induction Ht as [|e events He Ht IH]; intros acc; [by rw /= app_nil_r|].
  rw foldM_cons /updated_index. destruct (lookup_lt_is_Some_2 (lg_Topics e) 1 ltac:(lia)) as [t Et].
  have -> : index (lg_Topics e) 1 = Ret t by rw /index /= Et. cbn [mbind gores_bind mret gores_ret]. rw IH fmap_cons -app_assoc Et. done.
Qed.

(** ** Examples *)

(** A node that answers every call with the same three words, and a codec that cuts words. *)
#[local] Instance ex_rpc : EthRpc := {
  eth_call _ _ _ := Ret (zeros 96);
  eth_getLogs _ _ _ _ := Ret [];
  eth_getHeader _ _ := inr "Unknown block"%string }.

Definition words (bs : bytes) : list bytes := (λ i, take 32 (drop (32 * i) bs)) <$> seq 0 (length bs / 32).

#[local] Instance ex_abi : Abi := {
  pack_uint256_array ks := Ret (ks ≫= be_encode 32);
  pack_uint256_pair a b := Ret (be_encode 32 a ++ be_encode 32 b);
  unpack_bytes32_array bs := Ret (words bs);
  unpack_uint40 bs := Ret (be_decode (take 32 bs));
  semver_IsValid _ := true }.

#[local] Instance ex_rpc_laws : RpcLaws ex_rpc.
Proof. done. Qed.

#[local] Instance ex_abi_laws : AbiLaws ex_abi.
Proof.
  constructor; [done..|]. intros bs l [= <-]. apply Forall_fmap, Forall_forall. intros i Hi%list_elem_of_In%in_seq. cbn.
  rw length_take length_drop. have Hd := Nat.div_mod (length bs) 32 ltac:(done). lia.
Qed.

Lemma DownloadAllMetas_typed_witness :
  (DownloadAllMetas 8 100 ex_s).1 = Fail (ErrMsg "invalid return from GetKvMetas") ∧ typed (DownloadAllMetas 8 100 ex_s).2.
Proof.
  split; [by vm_compute|]. apply (DownloadAllMetas_typed (GE := toy_geth) 8 100 ex_s).
  intros k m [[_ ->]|[_ ->]]%ex_s_metas; by vm_compute.
Defined.
