(* ===== verification/HeadPolling.v ===== *)
(** * New heads for subscribers (ethstorage/eth/polling_client.go and heads.go)

    Over HTTP the client polls the latest header and hands new ones to its subscribers.  The goroutines are the poller
    ([pollHeads]), one forwarder for each subscription (the function of [SubscribeNewHead]), which moves headers from
    the client's channel of one place to the subscriber's channel, and the subscribers ([WatchHeadChanges]); timers ask
    for the next poll.  [exec] is one atomic step of one of them, [None] when it has to wait; the poller holds the read
    lock while it notifies, so that the steps that need the write lock wait for it. *)

From S2P Require Import Prelude L1Client.

(** ** State *)

(** A forwarder: in its [select], at [ch <- header], at [w.mtx.Lock()] to unsubscribe, or returned after [Close]. *)
Inductive forwarder := Selecting | Handing (h : Header) | Leaving | Gone.

(** [sub_buf] is the channel of one place, [sub_ch] the subscriber's channel, [sub_got] what it has received and
    [sub_quit] whether it has given up; [sub_start] is the number of heads announced before the subscription. *)
Record subscription := mkSub {
  sub_buf : option Header; sub_fwd : forwarder; sub_ch : list Header; sub_got : list Header; sub_quit : bool; sub_start : nat }.

(** The poller waits for a request, notifies the subscribers of a list of a head, or has ended. *)
Inductive poller := Waiting | Notifying (head : Header) (rest : list Z) | Ended.

(** [w_pollReq] is the channel of one poll request, [w_timers] the delays of the timers that run, and [w_heads] the
    heads announced so far. *)
Record PollingClient := mkPollingClient {
  w_pollRate : Z; w_currHead : option Header; w_subID : Z; w_subs : gmap Z subscription; w_pollReq : bool;
  w_timers : list Z; w_cancelled : bool; w_poller : poller; w_heads : list Header }.

Definition set_poller (w : PollingClient) (p : poller) : PollingClient :=
  mkPollingClient (w_pollRate w) (w_currHead w) (w_subID w) (w_subs w) (w_pollReq w) (w_timers w) (w_cancelled w) p (w_heads w).
Definition set_subs (w : PollingClient) (subs : gmap Z subscription) : PollingClient :=
  mkPollingClient (w_pollRate w) (w_currHead w) (w_subID w) subs (w_pollReq w) (w_timers w) (w_cancelled w) (w_poller w) (w_heads w).
Definition set_polling (w : PollingClient) (req : bool) (timers : list Z) : PollingClient :=
  mkPollingClient (w_pollRate w) (w_currHead w) (w_subID w) (w_subs w) req timers (w_cancelled w) (w_poller w) (w_heads w).
Definition set_head (w : PollingClient) (head : Header) (p : poller) : PollingClient :=
  mkPollingClient (w_pollRate w) (Some head) (w_subID w) (w_subs w) (w_pollReq w) (w_timers w) (w_cancelled w) p (w_heads w ++ [head]).

(** ** Polling *)

Definition second : Z := 1000000000.
Definition minDelay : Z := second.

Definition NewClient (pollRate : Z) : PollingClient :=
  mkPollingClient (int64 (int64 pollRate * second)) None 0 ∅ true [] false Waiting [].

(** Without effect when a request is already there. *)
Definition reqPoll (w : PollingClient) : PollingClient := set_polling w true (w_timers w).

(** In nanoseconds since 1970. *)
Definition poll_delay (pollRate now headTime : Z) : Z :=
  let target := int64 headTime * second + pollRate + minDelay in
  Z.min (Z.max (target - now) minDelay) pollRate.

Definition scheduleNextPoll (now : Z) (head : option Header) (w : PollingClient) : PollingClient :=
  if w_pollRate w =? 0 then w
  else
    match head with
    | None => set_polling w (w_pollReq w) (minDelay :: w_timers w)
    | Some head => set_polling w (w_pollReq w) (poll_delay (w_pollRate w) now (h_Time head) :: w_timers w)
    end.

(** A turn of [pollHeads]: [answer] is the header or [None] for an error, [order] the order in which the map of the
    subscribers is visited. *)
Definition poll_turn (now : Z) (answer : option Header) (order : list Z) (w : PollingClient) : option PollingClient :=
  match w_poller w with
  | Waiting =>
      if w_pollReq w then
        let w := set_polling w false (w_timers w) in
        match answer with
        | None => Some (scheduleNextPoll now None w)
        | Some head =>
            if match w_currHead w with Some c => bool_decide (h_Hash c = h_Hash head) | None => false end
            then Some (scheduleNextPoll now (Some head) w)
            else if bool_decide (order ≡ₚ (map_to_list (w_subs w)).*1) then Some (set_head w head (Notifying head order)) else None
        end
      else None
  | _ => None
  end.

(** The loop [for _, sub := range w.subs { sub <- head }] and what follows it. *)
Definition notify_turn (now : Z) (w : PollingClient) : option PollingClient :=
  match w_poller w with
  | Notifying head (i :: rest) =>
      match w_subs w !! i with
      | Some s =>
          match sub_buf s with
          | None =>
              let s := mkSub (Some head) (sub_fwd s) (sub_ch s) (sub_got s) (sub_quit s) (sub_start s) in
              Some (set_poller (set_subs w (<[i := s]> (w_subs w))) (Notifying head rest))
          | Some _ => None
          end
      | None => None
      end
  | Notifying head [] => Some (scheduleNextPoll now (Some head) (set_poller w Waiting))
  | _ => None
  end.

Definition timer_turn (i : nat) (w : PollingClient) : option PollingClient :=
  match w_timers w !! i with
  | Some _ => Some (reqPoll (set_polling w (w_pollReq w) (delete i (w_timers w))))
  | None => None
  end.

(** ** Subscriptions *)

(** The lock is free unless the poller notifies. *)
Definition lock_free (w : PollingClient) : bool := match w_poller w with Notifying _ _ => false | _ => true end.

(** After [Close] there are no new subscriptions. *)
Definition SubscribeNewHead (w : PollingClient) : option PollingClient :=
  if w_cancelled w || negb (lock_free w) then None
  else
    let s := mkSub None Selecting [] [] false (length (w_heads w)) in
    Some (mkPollingClient (w_pollRate w) (w_currHead w) (w_subID w + 1) (<[w_subID w := s]> (w_subs w)) (w_pollReq w)
            (w_timers w) (w_cancelled w) (w_poller w) (w_heads w)).

(** Steps of the forwarder and of the subscriber of one subscription. *)
Inductive sub_action := Receive | Hand | Quit | Done | Consume | Unsubscribe.

(** [cap] is the number of places of the subscriber's channel.  A subscriber that has given up no longer reads. *)
Definition sub_turn (cap : nat) (cancelled : bool) (a : sub_action) (s : subscription) : option subscription :=
  match a, sub_fwd s with
  | Receive, Selecting =>
      match sub_buf s with
      | Some h => Some (mkSub None (Handing h) (sub_ch s) (sub_got s) (sub_quit s) (sub_start s))
      | None => None
      end
  | Hand, Handing h =>
      if (length (sub_ch s) <? cap)%nat
      then Some (mkSub (sub_buf s) Selecting (sub_ch s ++ [h]) (sub_got s) (sub_quit s) (sub_start s)) else None
  | Quit, Selecting => if sub_quit s then Some (mkSub (sub_buf s) Leaving (sub_ch s) (sub_got s) (sub_quit s) (sub_start s)) else None
  | Done, Selecting => if cancelled then Some (mkSub (sub_buf s) Gone (sub_ch s) (sub_got s) (sub_quit s) (sub_start s)) else None
  | Consume, _ =>
      match sub_ch s with
      | h :: ch => if sub_quit s then None else Some (mkSub (sub_buf s) (sub_fwd s) ch (sub_got s ++ [h]) (sub_quit s) (sub_start s))
      | [] => None
      end
  | Unsubscribe, _ => Some (mkSub (sub_buf s) (sub_fwd s) (sub_ch s) (sub_got s) true (sub_start s))
  | _, _ => None
  end.

(** [delete(w.subs, subID)] under the lock. *)
Definition leave_turn (i : Z) (w : PollingClient) : option PollingClient :=
  match w_subs w !! i with
  | Some s => match sub_fwd s with
              | Leaving => if lock_free w then Some (set_subs w (delete i (w_subs w))) else None
              | _ => None
              end
  | None => None
  end.

(** ** All steps *)

Inductive action :=
| APoll (now : Z) (answer : option Header) (order : list Z)
| ANotify (now : Z)
| ATimer (i : nat)
| ASubscribe
| ASub (i : Z) (a : sub_action)
| ALeave (i : Z)
| ACancel
| AEnd.

Definition exec (cap : nat) (a : action) (w : PollingClient) : option PollingClient :=
  match a with
  | APoll now answer order => poll_turn now answer order w
  | ANotify now => notify_turn now w
  | ATimer i => timer_turn i w
  | ASubscribe => SubscribeNewHead w
  | ASub i a =>
      match w_subs w !! i with
      | Some s => match sub_turn cap (w_cancelled w) a s with Some s' => Some (set_subs w (<[i := s']> (w_subs w))) | None => None end
      | None => None
      end
  | ALeave i => leave_turn i w
  | ACancel => Some (mkPollingClient (w_pollRate w) (w_currHead w) (w_subID w) (w_subs w) (w_pollReq w) (w_timers w) true (w_poller w) (w_heads w))
  | AEnd => match w_poller w with Waiting => if w_cancelled w then Some (set_poller w Ended) else None | _ => None end
  end.

Definition step (cap : nat) (w w' : PollingClient) : Prop := ∃ a, exec cap a w = Some w'.

(** ** Every head reaches every subscriber *)

(** The heads on their way to the subscriber, oldest first. *)
Definition handed (f : forwarder) : list Header := match f with Handing h => [h] | _ => [] end.
Definition flow (s : subscription) : list Header := sub_got s ++ sub_ch s ++ handed (sub_fwd s) ++ option_list (sub_buf s).

(** The head that the poller still has to send to a subscription. *)
Definition pending (p : poller) (i : Z) : list Header :=
  match p with Notifying h rest => if bool_decide (i ∈ rest) then [h] else [] | _ => [] end.

Record heads_inv (w : PollingClient) : Prop := {
  hi_flow i s : w_subs w !! i = Some s →
    flow s ++ pending (w_poller w) i = drop (sub_start s) (w_heads w) ∧ (sub_start s ≤ length (w_heads w))%nat;
  hi_rest h rest : w_poller w = Notifying h rest → NoDup rest ∧ ∀ i, i ∈ rest → is_Some (w_subs w !! i);
  hi_curr : w_currHead w = last (w_heads w);
  hi_distinct n a b : w_heads w !! n = Some a → w_heads w !! S n = Some b → h_Hash a ≠ h_Hash b;
  hi_fresh i : is_Some (w_subs w !! i) → i < w_subID w }.

Lemma sub_turn_flow cap c a s s' : sub_turn cap c a s = Some s' → flow s' = flow s ∧ sub_start s' = sub_start s.
Proof.
  destruct s as [buf fwd ch got q st]. rw /sub_turn /flow /=.
  destruct a, fwd; cbn; try done; repeat case_match; intros; simplify_eq; cbn; split; rw -?app_assoc //.
Qed.

Lemma inv_polling w r t : heads_inv w → heads_inv (set_polling w r t).
Proof. by intros []. Qed.

Lemma inv_schedule now h w : heads_inv w → heads_inv (scheduleNextPoll now h w).
Proof. intros Hw. rw /scheduleNextPoll. destruct (_ =? 0); [done|]. destruct h; by apply inv_polling. Qed.

(** A poller that has nothing left to send. *)
Lemma inv_idle w p : heads_inv w → (∀ i, pending (w_poller w) i = []) → (∀ i, pending p i = []) → (∀ h rest, p ≠ Notifying h rest) →
  heads_inv (set_poller w p).
Proof.
  intros [Hf Hr Hc Hd Hn] H1 H2 H3. constructor; cbn; [|by intros h rest ?%H3|done..].
  intros i s Hs. rw H2. destruct (Hf i s Hs) as [HF HL]. by rw H1 in HF.
Qed.

Lemma inv_new_head w head order : heads_inv w → w_poller w = Waiting → order ≡ₚ (map_to_list (w_subs w)).*1 →
  match w_currHead w with Some c => bool_decide (h_Hash c = h_Hash head) | None => false end = false →
  heads_inv (set_head w head (Notifying head order)).
Proof.
  intros [Hf Hr Hc Hd Hn] Hp Ho Hne.
  have Hin i : i ∈ order ↔ is_Some (w_subs w !! i).
  { rw Ho list_elem_of_fmap. split.
    - intros ([i' s] & -> & Hi%elem_of_map_to_list). by exists s.
    - intros [s Hs]. exists (i, s). split; [done|by apply elem_of_map_to_list]. }
  constructor; cbn.
  - intros i s Hs. destruct (Hf i s Hs) as [HF HL]. rw Hp app_nil_r in HF. rw bool_decide_true; [apply Hin; by exists s|].
    rw HF drop_app_le // length_app. split; [done|lia].
  - intros h rest [= <- <-]. split; [rw Ho; apply NoDup_fst_map_to_list|intros i; apply Hin].
  - by rw last_snoc.
  - intros n a b Ha Hb. rw Hc in Hne. have Hlt := lookup_lt_Some _ _ _ Hb. rw length_app in Hlt. cbn in Hlt.
    rw lookup_app_l in Ha; [lia|]. destruct (decide (S n < length (w_heads w))%nat) as [Hs|Hs].
    { rw lookup_app_l // in Hb. exact (Hd n a b Ha Hb). }
    rw lookup_app_r in Hb; [lia|]. have E : (S n - length (w_heads w) = 0)%nat by lia. rw E in Hb. injection Hb as <-.
    rw last_lookup in Hne. have E2 : (pred (length (w_heads w)) = n)%nat by lia. rw E2 Ha in Hne. by case_bool_decide.
  - done.
Qed.

Lemma inv_notify w head i rest s : heads_inv w → w_poller w = Notifying head (i :: rest) → w_subs w !! i = Some s → sub_buf s = None →
  heads_inv (set_poller (set_subs w (<[i := mkSub (Some head) (sub_fwd s) (sub_ch s) (sub_got s) (sub_quit s) (sub_start s)]> (w_subs w)))
               (Notifying head rest)).
Proof.
  intros [Hf Hr Hc Hd Hn] Hp Hs Hb. destruct (Hr _ _ Hp) as [[Hni Hnd]%NoDup_cons Hall]. constructor; cbn; [| |done|done|].
  - intros j s' [[<- <-]|[Hne Hj]]%lookup_insert_Some.
    + destruct (Hf i s Hs) as [HF HL]. split; [|done]. rw -HF Hp. cbn. rw /flow /= Hb bool_decide_false // bool_decide_true; [apply list_elem_of_here|].
      cbn. by rw !app_nil_r -!app_assoc.
    + destruct (Hf j s' Hj) as [HF HL]. split; [|done]. rw -HF Hp. cbn. f_equal. 
      destruct (decide (j ∈ rest)) as [H|H]; [by rw !bool_decide_true //; apply list_elem_of_further|].
      rw !bool_decide_false //. by intros [->|?]%elem_of_cons.
  - intros h rest' [= <- <-]. split; [done|]. intros j Hj. destruct (Hall j) as [s' Hs']; [by apply list_elem_of_further|].
    apply lookup_insert_is_Some'. right. by exists s'.
  - intros j [Ej|Hj]%lookup_insert_is_Some'; apply Hn; [subst j; by exists s|done].
Qed.

Lemma inv_sub w i s s' : heads_inv w → w_subs w !! i = Some s → flow s' = flow s → sub_start s' = sub_start s →
  heads_inv (set_subs w (<[i := s']> (w_subs w))).
Proof.
  intros [Hf Hr Hc Hd Hn] Hs Ef Es. constructor; cbn; [| |done|done|].
  - intros j s1 [[<- <-]|[_ Hj]]%lookup_insert_Some; [rw Ef Es|]; by apply Hf.
  - intros h rest Hp. destruct (Hr h rest Hp) as [Hnd Hall]. split; [done|]. intros j Hj. apply lookup_insert_is_Some'. right. by apply Hall.
  - intros j [Ej|Hj]%lookup_insert_is_Some'; apply Hn; [subst j; by exists s|done].
Qed.

Lemma lock_free_pending w : lock_free w = true → (∀ i, pending (w_poller w) i = []) ∧ ∀ h rest, w_poller w ≠ Notifying h rest.
Proof. rw /lock_free. by destruct (w_poller w). Qed.

Lemma inv_subscribe w w' : heads_inv w → SubscribeNewHead w = Some w' → heads_inv w'.
Proof.
  intros [Hf Hr Hc Hd Hn]. rw /SubscribeNewHead. destruct (w_cancelled w); [done|]. destruct (lock_free w) eqn:El; [|done].
  intros [= <-]. destruct (lock_free_pending w El) as [Hp Hno]. constructor; cbn; [|by intros h rest ?%Hno|done|done|].
  - intros j s [[_ <-]|[_ Hj]]%lookup_insert_Some; [|by apply Hf]. cbn. by rw Hp drop_all.
  - intros j [Ej|Hj]%lookup_insert_is_Some'; [lia|]. have := Hn j Hj. lia.
Qed.

Lemma inv_leave w i w' : heads_inv w → leave_turn i w = Some w' → heads_inv w'.
Proof.
  intros [Hf Hr Hc Hd Hn]. rw /leave_turn. destruct (w_subs w !! i) as [s|] eqn:Es; [|done]. destruct (sub_fwd s); try done.
  destruct (lock_free w) eqn:El; [|done]. intros [= <-]. destruct (lock_free_pending w El) as [Hp Hno].
  constructor; cbn; [|by intros h rest ?%Hno|done|done|].
  - intros j s' [_ Hj]%lookup_delete_Some. by apply Hf.
  - intros j [s' [_ Hj]%lookup_delete_Some]. apply Hn. by exists s'.
Qed.

Lemma inv_poll_turn now answer order w w' : heads_inv w → poll_turn now answer order w = Some w' → heads_inv w'.
Proof.
  intros Hw. rw /poll_turn. destruct (w_poller w) eqn:Ep; try done. destruct (w_pollReq w); [|done].
  have Hw2 := inv_polling w false (w_timers w) Hw. destruct answer as [head|]; [|by intros [= <-]; apply inv_schedule].
  destruct (match w_currHead _ with Some c => _ | None => false end) eqn:Ec; [by intros [= <-]; apply inv_schedule|].
  case_bool_decide as Ho; [|done]. intros [= <-]. by apply inv_new_head.
Qed.

Lemma inv_notify_turn now w w' : heads_inv w → notify_turn now w = Some w' → heads_inv w'.
Proof.
  intros Hw. rw /notify_turn. destruct (w_poller w) as [|head [|i rest]|] eqn:Ep; try done.
  - intros [= <-]. apply inv_schedule, inv_idle; [done| |done|done]. intros i. by rw Ep.
  - destruct (w_subs w !! i) as [s|] eqn:Es; [|done]. destruct (sub_buf s) eqn:Eb; [done|]. intros [= <-]. by apply inv_notify.
Qed.

Lemma inv_step cap w w' : heads_inv w → step cap w w' → heads_inv w'.
Proof.
  intros Hw [a Ha]. destruct a as [now answer order|now|i| |i a|i| |]; cbn in Ha.
  - exact (inv_poll_turn _ _ _ _ _ Hw Ha).
  - exact (inv_notify_turn _ _ _ Hw Ha).
  - move: Ha. rw /timer_turn. destruct (w_timers w !! i); [|done]. intros [= <-]. by apply inv_polling, inv_polling.
  - exact (inv_subscribe _ _ Hw Ha).
  - destruct (w_subs w !! i) as [s|] eqn:Es; [|done]. destruct (sub_turn _ _ a s) as [s'|] eqn:Et; [|done]. injection Ha as <-.
    destruct (sub_turn_flow _ _ _ _ _ Et). by apply (inv_sub w i s).
  - exact (inv_leave _ _ _ Hw Ha).
  - injection Ha as <-. by destruct Hw.
  - destruct (w_poller w) eqn:Ep; try done. destruct (w_cancelled w); [|done]. injection Ha as <-.
    apply inv_idle; [done| |done|done]. intros i. by rw Ep.
Qed.

Lemma inv_rtc cap w w' : heads_inv w → rtc (step cap) w w' → heads_inv w'.
Proof. intros Hw Hr. induction Hr as [|x y z Hxy _ IH]; [done|]. by apply IH, (inv_step cap x y). Qed.

Lemma reachable_inv cap pollRate w : rtc (step cap) (NewClient pollRate) w → heads_inv w.
Proof. apply inv_rtc. constructor; cbn; [by intros|done|done|by intros|by intros ? [? ?]]. Qed.

(** C12: in every reachable state of the client, what a subscriber has received, what is in the channels and the forwarder
    on the way to it and what the poller still has to send it are together the heads announced since it subscribed:
    none is lost, repeated or reordered; and two consecutive announced heads are different blocks. *)
Theorem heads_delivered cap pollRate w i s :
  rtc (step cap) (NewClient pollRate) w → w_subs w !! i = Some s →
  sub_got s ++ sub_ch s ++ handed (sub_fwd s) ++ option_list (sub_buf s) ++ pending (w_poller w) i = drop (sub_start s) (w_heads w) ∧
  ∀ n a b, w_heads w !! n = Some a → w_heads w !! S n = Some b → h_Hash a ≠ h_Hash b.
Proof.
  intros Hr Hs. have Hw := reachable_inv cap pollRate w Hr.
  split; [|apply Hw]. destruct (hi_flow w Hw i s Hs) as [<- _]. rw /flow -!app_assoc //.
Qed.

(** ** A subscriber that leaves can stop the poller *)

Lemma blocked_sub cap c a s s' h : sub_buf s = Some h → sub_fwd s = Leaving ∨ sub_fwd s = Gone → sub_turn cap c a s = Some s' →
  sub_buf s' = Some h ∧ (sub_fwd s' = Leaving ∨ sub_fwd s' = Gone).
Proof.
  intros Hb Hf. rw /sub_turn. destruct Hf as [Hf|Hf]; rw Hf; destruct a; try done; repeat case_match; intros; simplify_eq; cbn;
    (split; [done|]); rw ?Hf; by [left|right].
Qed.

(** What a blocked state keeps: the place of the poller, the full channel, the heads announced. *)
Record stuck_at (head h : Header) (i : Z) (rest : list Z) (w0 w : PollingClient) : Prop := {
  sk_poller : w_poller w = Notifying head (i :: rest);
  sk_heads : w_heads w = w_heads w0;
  sk_sub : ∃ s, w_subs w !! i = Some s ∧ sub_buf s = Some h ∧ (sub_fwd s = Leaving ∨ sub_fwd s = Gone) }.

Lemma stuck_step cap head h i rest w0 w w' : stuck_at head h i rest w0 w → step cap w w' → stuck_at head h i rest w0 w'.
Proof.
  intros [Hp Hh (s & Hs & Hb & Hf)] [a Ha]. destruct a as [now answer order|now|j| |j a|j| |]; cbn in Ha.
  - by rw /poll_turn Hp in Ha.
  - by rw /notify_turn Hp Hs Hb in Ha.
  - move: Ha. rw /timer_turn. destruct (w_timers w !! j); [|done]. intros [= <-]. constructor; [done..|by exists s].
  - move: Ha. rw /SubscribeNewHead /lock_free Hp orb_true_r //.
  - destruct (w_subs w !! j) as [s1|] eqn:Ej; [|done]. destruct (sub_turn _ _ a s1) as [s2|] eqn:Et; [|done]. injection Ha as <-.
    constructor; [done..|]. destruct (decide (i = j)) as [<-|Hne].
    + replace s1 with s in * by congruence. destruct (blocked_sub cap _ a s s2 h Hb Hf Et) as [Hb2 Hf2].
      exists s2. cbn. by rw lookup_insert_eq.
    + exists s. cbn. by rw lookup_insert_ne; [congruence|].
  - move: Ha. rw /leave_turn /lock_free Hp. by destruct (w_subs w !! j) as [s1|]; [destruct (sub_fwd s1)|].
  - injection Ha as <-. constructor; [done..|by exists s].
  - by rw Hp in Ha.
Qed.

(** The forwarder that waits for the lock goes on waiting. *)
Lemma leaving_step cap head h i rest w0 w w' : stuck_at head h i rest w0 w →
  (∀ s, w_subs w !! i = Some s → sub_fwd s = Leaving) → step cap w w' → ∀ s, w_subs w' !! i = Some s → sub_fwd s = Leaving.
Proof.
  intros [Hp _ (s0 & Hs & Hb & _)] Hl [a Ha] s'. destruct a as [now answer order|now|j| |j a|j| |]; cbn in Ha.
  - by rw /poll_turn Hp in Ha.
  - by rw /notify_turn Hp Hs Hb in Ha.
  - move: Ha. rw /timer_turn. destruct (w_timers w !! j); [|done]. intros [= <-]. apply Hl.
  - move: Ha. rw /SubscribeNewHead /lock_free Hp orb_true_r //.
  - destruct (w_subs w !! j) as [s1|] eqn:Ej; [|done]. destruct (sub_turn _ _ a s1) as [s2|] eqn:Et; [|done]. injection Ha as <-.
    cbn. destruct (decide (i = j)) as [<-|Hne]; [|rw lookup_insert_ne; [congruence|apply Hl]].
    rw lookup_insert_eq. intros [= <-]. have Hf1 := Hl s1 Ej. move: Et. rw /sub_turn Hf1.
    destruct a; try done; repeat case_match; intros; simplify_eq; cbn; done.
  - move: Ha. rw /leave_turn /lock_free Hp. by destruct (w_subs w !! j) as [s1|]; [destruct (sub_fwd s1)|].
  - injection Ha as <-. apply Hl.
  - by rw Hp in Ha.
Qed.

Definition ex_header (n : Z) : Header := mkHeader (be_encode 32 n) n [] (1000 + 12 * n) [].

Fixpoint run (cap : nat) (l : list action) (w : PollingClient) : option PollingClient :=
  match l with [] => Some w | a :: l => match exec cap a w with Some w => run cap l w | None => None end end.

Lemma run_rtc cap l w w' : run cap l w = Some w' → rtc (step cap) w w'.
Proof.
  revert w. induction l as [|a l IH]; intros w; cbn; [intros [= ->]; apply rtc_refl|]. destruct (exec cap a w) as [w1|] eqn:E; [|done].
  intros Hr. apply (rtc_l _ _ w1); [by exists a|by apply IH].
Qed.

(** C22: an unsubscription at the wrong moment stops the poller for good.  Take any state in which the poller notifies,
    holding the read lock, its next subscription has a full channel, and the subscriber has unsubscribed.  If the
    forwarder's [select] takes the quit then, it waits for the lock that the poller holds, and the poller for the place
    in the channel that only the forwarder empties: in every state after that the poller is where it was, no new head
    is announced to anybody, the subscription cannot be removed, no new one can be made, and after [Close] has
    cancelled the client the poller still does not end, so that [Close] does not return. *)
Theorem poller_deadlock cap w w1 head h i rest s :
  w_poller w = Notifying head (i :: rest) → w_subs w !! i = Some s → sub_buf s = Some h → sub_quit s = true →
  exec cap (ASub i Quit) w = Some w1 →
  ∀ w', rtc (step cap) w1 w' →
    w_poller w' = Notifying head (i :: rest) ∧ w_heads w' = w_heads w ∧
    (∃ s', w_subs w' !! i = Some s' ∧ sub_fwd s' = Leaving ∧ sub_buf s' = Some h) ∧
    exec cap (ALeave i) w' = None ∧ exec cap ASubscribe w' = None ∧ exec cap AEnd w' = None.
Proof.
  intros Hp Hs Hb Hq He.
  have Hw1 : ∃ s1, w1 = set_subs w (<[i := s1]> (w_subs w)) ∧ sub_buf s1 = Some h ∧ sub_fwd s1 = Leaving.
  { move: He. rw /exec Hs. destruct (sub_turn cap (w_cancelled w) Quit s) as [s1|] eqn:Et; [|done]. intros [= <-]. exists s1.
    split; [done|]. move: Et. rw /sub_turn. destruct (sub_fwd s); [|done..]. rw Hq. by intros [= <-]. }
  destruct Hw1 as (s1 & -> & Hb1 & Hf1). intros w' Hr.
  set P := λ x, stuck_at head h i rest w x ∧ ∀ s', w_subs x !! i = Some s' → sub_fwd s' = Leaving.
  have Hinv : P w'.
  { have H0 : P (set_subs w (<[i := s1]> (w_subs w))).
    { split; [constructor; [done..|]; exists s1; cbn; rw lookup_insert_eq; split_and!; [done..|by left]|].
      intros s'. cbn. rw lookup_insert_eq. by intros [= <-]. }
    clear He. induction Hr as [x|x y z Hxy _ IH]; [done|]. apply IH. destruct H0 as [Hx Hl].
    split; [exact (stuck_step cap _ _ _ _ _ _ _ Hx Hxy)|exact (leaving_step cap _ _ _ _ _ _ _ Hx Hl Hxy)]. }
  destruct Hinv as [[Hp' Hh' (s' & Hs' & Hb' & _)] Hl]. have Hf' := Hl s' Hs'.
  split_and!; [done|done|by exists s'|..]; cbn.
  - by rw /leave_turn Hs' Hf' /lock_free Hp'.
  - by rw /SubscribeNewHead /lock_free Hp' orb_true_r.
  - by rw Hp'.
Qed.

(** ** Subscribers that read *)

Definition reading (s : subscription) : Prop := sub_quit s = false ∧ (sub_fwd s = Selecting ∨ ∃ h, sub_fwd s = Handing h).

Fixpoint sub_run (cap : nat) (c : bool) (l : list sub_action) (s : subscription) : option subscription :=
  match l with [] => Some s | a :: l => match sub_turn cap c a s with Some s => sub_run cap c l s | None => None end end.

Lemma sub_run_app cap c l k s : sub_run cap c (l ++ k) s = match sub_run cap c l s with Some s => sub_run cap c k s | None => None end.
Proof. revert s. induction l as [|a l IH]; intros s; cbn; [done|]. by destruct (sub_turn cap c a s). Qed.

Lemma sub_run_rtc cap i l w s s' : w_subs w !! i = Some s → sub_run cap (w_cancelled w) l s = Some s' →
  rtc (step cap) w (set_subs w (<[i := s']> (w_subs w))).
Proof.
  revert w s. induction l as [|a l IH]; intros w s Hs; cbn.
  - intros [= <-]. rw insert_id //. have -> : set_subs w (w_subs w) = w by destruct w. apply rtc_refl.
  - destruct (sub_turn cap (w_cancelled w) a s) as [s1|] eqn:E; [|done]. intros Hr.
    apply (rtc_l _ _ (set_subs w (<[i := s1]> (w_subs w)))); [exists (ASub i a); cbn; by rw Hs E|].
    rewrite <- (insert_insert_eq (w_subs w) i s' s1). refine (IH (set_subs w (<[i := s1]> (w_subs w))) s1 _ Hr). apply lookup_insert_eq.
Qed.

Lemma consume_channel cap c s : sub_quit s = false →
  sub_run cap c (replicate (length (sub_ch s)) Consume) s =
    Some (mkSub (sub_buf s) (sub_fwd s) [] (sub_got s ++ sub_ch s) (sub_quit s) (sub_start s)).
Proof.
  destruct s as [buf fwd ch got q st]. cbn. intros ->. revert got. induction ch as [|h ch IH]; intros got; cbn; [by rw app_nil_r|].
  destruct fwd; rw IH -app_assoc //.
Qed.

(** A subscription that reads can empty the channel of the client. *)
Lemma drain cap c s : (1 ≤ cap)%nat → reading s → ∃ l s', sub_run cap c l s = Some s' ∧ sub_buf s' = None ∧ reading s'.
Proof.
  intros Hcap [Hq Hf]. destruct cap as [|cap]; [lia|]. destruct (sub_buf s) as [b|] eqn:Eb; [|by exists [], s].
  destruct Hf as [Hf|[h Hf]].
  - exists [Receive], (mkSub None (Handing b) (sub_ch s) (sub_got s) (sub_quit s) (sub_start s)). cbn. rw Hf Eb.
    split_and!; [done|done|]. split; [done|right; by eexists].
  - exists (replicate (length (sub_ch s)) Consume ++ [Hand; Receive]). eexists. rw sub_run_app consume_channel // Hf Eb. cbn.
    split_and!; [done|done|]. split; [done|right; by eexists].
Qed.

Lemma notify_one cap w head i rest s : (1 ≤ cap)%nat → w_poller w = Notifying head (i :: rest) → w_subs w !! i = Some s → reading s →
  ∃ s', rtc (step cap) w (set_poller (set_subs w (<[i := s']> (w_subs w))) (Notifying head rest)) ∧ reading s'.
Proof.
  intros Hcap Hp Hs Hr. destruct (drain cap (w_cancelled w) s Hcap Hr) as (l & s1 & Hl & Hb & [Hq Hf]).
  exists (mkSub (Some head) (sub_fwd s1) (sub_ch s1) (sub_got s1) (sub_quit s1) (sub_start s1)). split; [|done].
  eapply rtc_r; [exact (sub_run_rtc cap i l w s s1 Hs Hl)|]. exists (ANotify 0).
  cbn. rw /notify_turn /= Hp lookup_insert_eq Hb insert_insert_eq //.
Qed.

(** While every subscriber reads its channel, which has at least one place, and none has given up, the poller finishes
    every round of notifications: from each reachable state it can become ready for the next poll. *)
Theorem notifications_end cap pollRate w :
  (1 ≤ cap)%nat → rtc (step cap) (NewClient pollRate) w → map_Forall (λ _ s, reading s) (w_subs w) →
  ∃ w', rtc (step cap) w w' ∧ lock_free w' = true ∧ map_Forall (λ _ s, reading s) (w_subs w').
Proof.
  intros Hcap Hr. have Hw := reachable_inv cap pollRate w Hr. clear Hr.
  destruct (w_poller w) as [|head rest|] eqn:Ep.
  1,3: intros Hall; exists w; split_and!; [apply rtc_refl|by rw /lock_free Ep|done].
  revert w Hw Ep. induction rest as [|i rest IH]; intros w Hw Ep Hall.
  - exists (scheduleNextPoll 0 (Some head) (set_poller w Waiting)). split; [|split].
    + apply rtc_once. exists (ANotify 0). cbn. by rw /notify_turn Ep.
    + rw /scheduleNextPoll. by destruct (_ =? 0).
    + rw /scheduleNextPoll. by destruct (_ =? 0).
  - destruct (hi_rest w Hw _ _ Ep) as [_ Hin]. destruct (Hin i) as [s Hs]; [apply list_elem_of_here|].
    destruct (notify_one cap w head i rest s Hcap Ep Hs (Hall i s Hs)) as (s' & Hst & Hs').
    destruct (IH (set_poller (set_subs w (<[i := s']> (w_subs w))) (Notifying head rest))) as (w' & H1 & H2 & H3).
    + exact (inv_rtc cap _ _ Hw Hst).
    + done.
    + by apply map_Forall_insert_2.
    + exists w'. split; [by transitivity (set_poller (set_subs w (<[i := s']> (w_subs w))) (Notifying head rest))|done].
Qed.

(** ** The delay of the next poll *)

(** Whatever the clock and the time of the head, the next poll comes after at least one second and at most the poll
    rate, which is a whole number of seconds that fits a [time.Duration]. *)
Theorem poll_delay_bounds pollRate now headTime :
  0 < pollRate ≤ 9223372036 → minDelay ≤ poll_delay (w_pollRate (NewClient pollRate)) now headTime ≤ pollRate * second.
Proof.
  intros Hr. rw /poll_delay /minDelay /second. cbn [w_pollRate NewClient].
  have -> : int64 pollRate = pollRate by rw /int64 Z.mod_small; rw /two63 /two64; lia.
  rw /second. have -> : int64 (pollRate * 1000000000) = pollRate * 1000000000 by rw /int64 Z.mod_small; rw /two63 /two64; lia.
  lia.
Qed.

Lemma poll_delay_bounds_witness : second ≤ poll_delay (w_pollRate (NewClient 12)) 5000 7 ≤ 12 * second.
Proof. apply (poll_delay_bounds 12 5000 7). lia. Defined.

(** ** Examples *)

(** Two heads for one subscriber: the first is in its channel, the second still with the poller. *)
Definition ex_run : list action :=
  [ASubscribe; APoll 0 (Some (ex_header 1)) [0]; ANotify 0; ANotify 0; ATimer 0; ASub 0 Receive; ASub 0 Hand;
   APoll 0 (Some (ex_header 2)) [0]].

Definition ex_client : PollingClient := default (NewClient 12) (run 1 ex_run (NewClient 12)).

Lemma ex_client_reached : rtc (step 1) (NewClient 12) ex_client.
Proof. apply (run_rtc 1 ex_run). by vm_compute. Qed.

Lemma heads_delivered_witness : ∃ s, w_subs ex_client !! 0 = Some s ∧ sub_ch s = [ex_header 1] ∧
  sub_got s ++ sub_ch s ++ handed (sub_fwd s) ++ option_list (sub_buf s) ++ pending (w_poller ex_client) 0 = drop (sub_start s) (w_heads ex_client).
Proof.
  eexists. split; [by vm_compute|]. split; [done|]. refine (proj1 (heads_delivered 1 12 ex_client 0 _ ex_client_reached _)). by vm_compute.
Defined.

Lemma notifications_end_witness : ∃ w', rtc (step 1) ex_client w' ∧ lock_free w' = true.
Proof.
  destruct (notifications_end 1 12 ex_client) as (w' & H1 & H2 & _).
  - lia.
  - exact ex_client_reached.
  - intros i s Hs. vm_compute in Hs. destruct i as [|p|p]; [|by destruct p..]. injection Hs as <-. split; [done|by left].
  - exists w'. split; [exact H1|exact H2].
Defined.

(** Two heads are announced before the forwarder runs, and the subscriber gives up. *)
Definition stopped_run : list action :=
  [ASubscribe; APoll 0 (Some (ex_header 1)) [0]; ANotify 0; ANotify 0; ATimer 0; APoll 0 (Some (ex_header 2)) [0];
   ASub 0 Unsubscribe].
Definition stopped_client : PollingClient := default (NewClient 12) (run 1 stopped_run (NewClient 12)).

Definition quit_client : PollingClient := default stopped_client (exec 1 (ASub 0 Quit) stopped_client).

Lemma poller_deadlock_witness :
  rtc (step 1) (NewClient 12) stopped_client ∧ exec 1 (ASub 0 Quit) stopped_client = Some quit_client ∧
  ∀ w', rtc (step 1) quit_client w' → w_poller w' = Notifying (ex_header 2) [0] ∧ exec 1 (ALeave 0) w' = None.
Proof.
  split; [apply (run_rtc 1 stopped_run); by vm_compute|]. split; [by vm_compute|]. intros w' Hr.
  destruct (poller_deadlock 1 stopped_client quit_client (ex_header 2) (ex_header 1) 0 []
    (mkSub (Some (ex_header 1)) Selecting [] [] true 0)) with (6 := Hr) as (H1 & _ & _ & H2 & _).
  - by vm_compute.
  - by vm_compute.
  - done.
  - done.
  - by vm_compute.
  - by split.
Defined.
