(* ===== verification/KzgProver.v ===== *)
(** * Proofs of samples (ethstorage/prover: kzg_prover.go, kzg_poseidon_prover.go, zk_prover.go, zk_prover_go.go, utils.go)

    For each sample the miner submits the input of the point-evaluation precompile, which proves with KZG that the sample
    is in the blob, and a zero-knowledge proof of the mask.  The KZG library, the two scalar fields and the SNARK provers
    are parameters; the model keeps the points of evaluation, the layout of the input and the two modes. *)

From stdpp Require Import pretty.
From Stdlib Require Import Zpow_facts.
From S2P Require Import Prelude GoStrings BlobSources.

Definition ScalarsPerBlob : Z := 4096.
Definition blobSize : Z := ScalarsPerBlob * 32.

(** The order of the scalar field of BLS12-381. *)
Definition BLS_MODULUS : Z := 52435875175126190479447740508185965837690552500527637822603658699938581184513.
Definition ruBLS : Z := 39033254847818212395286706435128746857159659164139250548781411570340225835782.

Class Kzg := {
  (** [fr.Element.Exp] and [gokzg4844.SerializeScalar], on BLS12-381 *)
  bls_Exp : Z → Z → Z;
  SerializeScalar : Z → bytes;
  (** the proof and the claimed value at a point, the commitment of a blob, and its versioned hash *)
  ComputeKZGProof : bytes → bytes → gores (bytes * bytes);
  BlobToKZGCommitment : bytes → gores bytes;
  kzg_VersionedHash : bytes → bytes;
  (** [fr.Modulus] and [fr.Element.Exp], on BN254 *)
  bn_Modulus : Z;
  bn_Exp : Z → Z → Z }.

(** ** Points of evaluation *)

(** [bits.Reverse64] *)
Definition Reverse64 (x : Z) : Z :=
  foldl (λ acc i, acc + (if Z.testbit x i then 2 ^ (63 - i) else 0)) 0 (seqZ 0 64).

Definition reverseBits (x : Z) : Z :=
  let shiftCorrection := 64 - 12 in
  Z.shiftr (Reverse64 x) shiftCorrection.

Section kzg.
Context `{KZ : Kzg}.

Definition input_point (sampleIdx : Z) : bytes := SerializeScalar (bls_Exp ruBLS (reverseBits sampleIdx)).

Definition GenerateKZGProof (data : bytes) (sampleIdx : Z) : gores bytes :=
  if zlen data =? 0 then mret []
  else if negb (zlen data =? blobSize) then Fail (ErrMsg "invalid blob size")
  else if ScalarsPerBlob <=? sampleIdx then Fail (ErrMsg "sample index out of scope")
  else
    let blob := go_copy (zeros blobSize) data in
    let inputPoint := input_point sampleIdx in
    match ComputeKZGProof blob inputPoint with
    | Fail _ => Fail (ErrMsg "failed to compute proofs")
    | Panic p => Panic p
    | Ret (proof, claimedValue) =>
        match BlobToKZGCommitment blob with
        | Fail _ => Fail (ErrMsg "could not convert blob to commitment")
        | Panic p => Panic p
        | Ret commitment => mret (kzg_VersionedHash commitment ++ inputPoint ++ claimedValue ++ commitment ++ proof)
        end
    end.

(** ** Inputs of the zero-knowledge proof (utils.go) *)

Definition FieldElementsPerBlob : Z := 4096.

(** [InputPair] and [InputPairV2], with the texts as the program writes them. *)
Record InputPair := mkInputPair { EncodingKeyIn : string; XIn : string }.
Record InputPairV2 := mkInputPairV2 { EncodingKeysIn : list string; XsIn : list string }.

(** [hexutil.Encode] *)
Definition hex_Encode (b : bytes) : string :=
  ("0x" +:+ String.string_of_list_ascii ((λ c, chr (Z.to_nat c)) <$> EncodeToString b))%string.

Definition x_in (exponent : Z) : string :=
  let exp := (bn_Modulus - 1) / FieldElementsPerBlob in
  let ru := bn_Exp 5 exp in
  pretty (bn_Exp ru exponent).

Definition key_in (encodingKey : bytes) : string := hex_Encode (be_min (be_decode encodingKey mod bn_Modulus)).

(** One sample of [GenerateInputs]; [int(sampleIdx)] is signed. *)
Definition sample_input (encodingKeys : list bytes) (acc : InputPairV2) (sample : Z * Z) : gores InputPairV2 :=
  let '(i, sampleIdx) := sample in
  if FieldElementsPerBlob <=? int64 sampleIdx then Fail (ErrMsg "chunk index out of scope")
  else
    encodingKey ← index encodingKeys i;
    mret (mkInputPairV2 (EncodingKeysIn acc ++ [key_in encodingKey]) (XsIn acc ++ [x_in sampleIdx])).

Definition GenerateInputs (encodingKeys : list bytes) (sampleIdxs : list Z) : gores InputPairV2 :=
  foldM (sample_input encodingKeys) (mkInputPairV2 [] []) (zip (seqZ 0 (zlen sampleIdxs)) sampleIdxs).

Definition GenerateInput (encodingKey : bytes) (sampleIdx : Z) : InputPair :=
  mkInputPair (key_in encodingKey) (x_in (int64 sampleIdx)).

(** ** The zero-knowledge provers *)

(** What one of the two SNARK provers makes of an input: the packed proof with the public values, or with the mask among
    them; ProofJson.v has the two provers as instances. *)
Class Snark := {
  prove_samples : InputPairV2 → gores (bytes * list Z);
  prove_sample : InputPair → gores (bytes * Z) }.

Context `{SN : Snark}.

Definition GenerateZKProofRaw (encodingKeys : list bytes) (sampleIdxs : list Z) : gores (bytes * list Z) :=
  pubInputs ← GenerateInputs encodingKeys sampleIdxs;
  prove_samples pubInputs.

Definition GenerateZKProof (encodingKeys : list bytes) (sampleIdxs : list Z) : gores (bytes * list Z) :=
  '(proof, publics) ← GenerateZKProofRaw encodingKeys sampleIdxs;
  if negb (zlen publics =? 6) then Fail (ErrMsg "publics length") else mret (proof, drop 4 publics).

Definition GenerateZKProofPerSample (encodingKey : bytes) (sampleIdx : Z) : gores (bytes * Z) :=
  if FieldElementsPerBlob <=? int64 sampleIdx then Fail (ErrMsg "chunk index out of scope")
  else prove_sample (GenerateInput encodingKey sampleIdx).

(** ** The combined prover *)

(** A method of a prover that may be a nil pointer. *)
Definition use {A} (prvr : bool) (m : gores A) : gores A := if prvr then m else Panic NilPointer.

Definition prove_one (prvr : bool) (encodingKeys : list bytes) (sampleIdxInKv : list Z) (acc : list bytes * list Z) (i : Z) : gores (list bytes * list Z) :=
  let '(zkProofs, masks) := acc in
  encodingKey ← index encodingKeys i;
  sampleIdx ← index sampleIdxInKv i;
  '(zkProof, mask) ← use prvr (GenerateZKProofPerSample encodingKey sampleIdx);
  mret (zkProofs ++ [zkProof], masks ++ [mask]).

Definition point_input (sampleIdxInKv : list Z) (peInputs : list bytes) (d : Z * bytes) : gores (list bytes) :=
  sampleIdx ← index sampleIdxInKv d.1;
  peInput ← GenerateKZGProof d.2 sampleIdx;
  mret (peInputs ++ [peInput]).

(** [zkProver] is the result of [getZKProver], [false] for a nil pointer. *)
Definition GetStorageProof (zkProverMode : Z) (zkProver : gores bool) (data : list bytes) (encodingKeys : list bytes) (sampleIdxInKv : list Z)
    : gores (list Z * list bytes * list bytes) :=
  peInputs ← foldM (point_input sampleIdxInKv) [] (zip (seqZ 0 (zlen data)) data);
  prvr ← zkProver;
  if zkProverMode =? 1 then
    '(zkProofs, masks) ← foldM (prove_one prvr encodingKeys sampleIdxInKv) ([], []) (seqZ 0 (zlen encodingKeys));
    mret (masks, zkProofs, peInputs)
  else if zkProverMode =? 2 then
    '(zkProof, msks) ← use prvr (GenerateZKProof encodingKeys sampleIdxInKv);
    mret (msks, [zkProof], peInputs)
  else Fail (ErrMsg "invalid zk proof mode").

End kzg.

(** ** The shared go-rapidsnark prover (zk_prover_go.go)

    A [sync.Once] and the instance it made; [files] is the reading of the two files. *)

Record once_state := mkOnce { once_done : bool; instance : option (bytes * bytes) }.

Definition NewZKProverGo (files : gores (bytes * bytes)) : ST once_state (option (bytes * bytes)) := λ s,
  if once_done s then (Ret (instance s), s)
  else
    match files with
    | Ret f => (Ret (Some f), mkOnce true (Some f))
    | Fail e => (Fail e, mkOnce true (instance s))
    | Panic p => (Panic p, mkOnce true (instance s))
    end.

Definition getZKProver (zkProverImpl : Z) (files : gores (bytes * bytes)) : ST once_state bool := λ s,
  if zkProverImpl =? 1 then (Ret true, s)
  else if zkProverImpl =? 2 then
    match NewZKProverGo files s with
    | (Ret p, s) => (Ret (bool_decide (is_Some p)), s)
    | (Fail e, s) => (Fail e, s)
    | (Panic p, s) => (Panic p, s)
    end
  else (Fail (ErrMsg "invalid zk prover implementation"), s).
