(* ===== verification/KzgFacts.v ===== *)
(** * Facts about the proofs of samples

    The point of a sample is the point of the blob's domain at which the blob's polynomial has the sample's value, so
    the input for the precompile opens the sample that the miner has hashed; the points of different samples differ. *)

From Stdlib Require Import Zpow_facts.
From S2P Require Import Prelude GoStrings BlobSources KzgProver.

(** ** Bit reversal *)

(** The bits of a [k]-bit number in reverse order. *)
Fixpoint reverse_bits (k : nat) (n : Z) : Z :=
  match k with O => 0 | S k => 2 ^ Z.of_nat k * (n mod 2) + reverse_bits k (n / 2) end.

Lemma check_range (f : Z → bool) n : forallb f (seqZ 0 n) = true → ∀ i, 0 ≤ i < n → f i = true.
Proof. intros H i Hi. rw forallb_forall in H. apply H, list_elem_of_In, elem_of_seqZ. lia. Qed.

Lemma reverseBits_reverse i : 0 ≤ i < 4096 → reverseBits i = reverse_bits 12 i.
Proof.
  intros Hi. apply Z.eqb_eq. apply (check_range (λ i, reverseBits i =? reverse_bits 12 i) 4096); [by vm_compute|lia].
Qed.

Lemma reverse_bits_involutive i : 0 ≤ i < 4096 → reverse_bits 12 (reverse_bits 12 i) = i.
Proof.
  intros Hi. apply Z.eqb_eq. apply (check_range (λ i, reverse_bits 12 (reverse_bits 12 i) =? i) 4096); [by vm_compute|lia].
Qed.

Lemma reverse_bits_range k n : 0 ≤ reverse_bits k n < 2 ^ Z.of_nat k.
Proof.
  revert n. induction k as [|k IH]; intros n; cbn [reverse_bits]; [done|]. have H := IH (n / 2).
  have Hm := Z.mod_pos_bound n 2 ltac:(done). rw Nat2Z.inj_succ Z.pow_succ_r; [lia|]. nia.
Qed.

(** ** Powers of a root of unity *)

Lemma odd_part (n : nat) d : 0 < d < 2 ^ Z.of_nat n → ∃ k q, 0 ≤ k < Z.of_nat n ∧ 0 ≤ q ∧ d = 2 ^ k * (2 * q + 1).
Proof.
  revert d. induction n as [|n IH]; intros d Hd; [cbn in Hd; lia|]. rw Nat2Z.inj_succ Z.pow_succ_r in Hd; [lia|].
  have Hdiv := Z.div_mod d 2 ltac:(done). have Hm := Z.mod_pos_bound d 2 ltac:(done).
  destruct (Z.eq_dec (d mod 2) 0) as [E|E].
  - destruct (IH (d / 2)) as (k & q & Hk & Hq & Eq); [lia|]. exists (k + 1), q. rw Z.pow_add_r; [lia..|]. split_and!; lia.
  - exists 0, (d / 2). rw Z.pow_0_r. split_and!; lia.
Qed.

Lemma pow_one p g d t : 1 < p → 0 ≤ d → 0 ≤ t → g ^ d mod p = 1 → g ^ (d * t) mod p = 1.
Proof. intros Hp Hd Ht H. rw Z.pow_mul_r // Zpower_mod ?H //; [lia|]. rw Z.pow_1_l // Z.mod_small; lia. Qed.

(** With [g ^ (2 M) = 1] and [g ^ M <> 1], [M] a power of two, the first [2 M] powers differ. *)
Lemma powers_distinct p g M (n : nat) a b : 1 < p → M = 2 ^ Z.of_nat n → g ^ (2 * M) mod p = 1 → g ^ M mod p ≠ 1 →
  0 ≤ a < b → b < 2 * M → g ^ a mod p ≠ g ^ b mod p.
Proof.
  intros Hp HM H1 H2 Hab Hb E.
  have Hd : g ^ (b - a) mod p = 1.
  { have E2 : (g ^ a * g ^ (2 * M - a)) mod p = (g ^ b * g ^ (2 * M - a)) mod p by rw -Zmult_mod_idemp_l E Zmult_mod_idemp_l.
    rw -(Z.pow_add_r g a) -?(Z.pow_add_r g b) in E2; [lia..|]. have E3 : a + (2 * M - a) = 2 * M by lia. rw E3 H1 in E2.
    have E4 : b + (2 * M - a) = 2 * M + (b - a) by lia. rw E4 Z.pow_add_r in E2; [lia..|].
    rw -Zmult_mod_idemp_l H1 Z.mul_1_l in E2. by rw -E2. }
  have Hlt : b - a < 2 ^ Z.of_nat (S n).
  { rw Nat2Z.inj_succ Z.pow_succ_r; [apply Nat2Z.is_nonneg|]. rw -HM. lia. }
  destruct (odd_part (S n) (b - a)) as (k & q & Hk & Hq & Ed); [lia|]. rw Nat2Z.inj_succ in Hk. apply H2.
  have H3 := pow_one p g (b - a) (2 ^ (Z.of_nat n - k)) Hp ltac:(lia) ltac:(apply Z.pow_nonneg; lia) Hd.
  have E5 : (b - a) * 2 ^ (Z.of_nat n - k) = 2 * M * q + M.
  { have E6 : 2 ^ k * 2 ^ (Z.of_nat n - k) = M by rw -Z.pow_add_r; [lia..|]; rw HM; f_equal; lia.
    rw Ed. transitivity ((2 * q + 1) * (2 ^ k * 2 ^ (Z.of_nat n - k))); [ring|]. rw E6. ring. }
  have HM0 : 0 ≤ M by rw HM; apply Z.pow_nonneg.
  rw E5 Z.pow_add_r in H3; [lia..|]. by rw -Zmult_mod_idemp_l (pow_one p g (2 * M) q Hp ltac:(lia) Hq H1) Z.mul_1_l in H3.
Qed.

Lemma modulus_pos : BLS_MODULUS ≠ 0.
Proof. discriminate. Qed.

Lemma modulus_gt : 1 < BLS_MODULUS.
Proof. done. Qed.

Lemma ruBLS_order : ruBLS ^ (2 * 2048) mod BLS_MODULUS = 1 ∧ ruBLS ^ 2048 mod BLS_MODULUS ≠ 1.
Proof.
  pose proof (Zpow_mod_correct ruBLS (2 * 2048) BLS_MODULUS modulus_pos) as E1. pose proof (Zpow_mod_correct ruBLS 2048 BLS_MODULUS modulus_pos) as E2.
  rewrite <- E1. rewrite <- E2. split; [vm_compute; reflexivity|vm_compute; discriminate].
Qed.

(** ** What the code relies on *)

(** The 2^32-th root of unity that the library's domains are made of, and the points of the domain of a blob. *)
Definition root_of_unity : Z := 10238227357739495823651030575849232062558860180284477541189508159991286009131.
Definition domain_point (i : Z) : Z := root_of_unity ^ (2 ^ 20 * reverse_bits 12 i) mod BLS_MODULUS.

Definition scalar_at (blob : bytes) (i : Z) : bytes := take 32 (drop (Z.to_nat (32 * i)) blob).

Class KzgLaws (K : Kzg) : Prop := {
  bls_Exp_pow x k : 0 ≤ k → bls_Exp x k = x ^ k mod BLS_MODULUS;
  SerializeScalar_be x : 0 ≤ x < BLS_MODULUS → SerializeScalar x = be_encode 32 x;
  (** a blob is the list of the values of its polynomial at the points of the domain *)
  ComputeKZGProof_domain blob i proof v : zlen blob = blobSize → 0 ≤ i < ScalarsPerBlob →
    ComputeKZGProof blob (be_encode 32 (domain_point i)) = Ret (proof, v) → v = scalar_at blob i;
  ComputeKZGProof_length blob z proof v : ComputeKZGProof blob z = Ret (proof, v) → zlen proof = 48;
  BlobToKZGCommitment_length blob c : BlobToKZGCommitment blob = Ret c → zlen c = 48;
  kzg_VersionedHash_length c : zlen (kzg_VersionedHash c) = 32 }.

(** The precompile of the L1 chain that checks an opening, given as versioned hash, point, value, commitment and proof:
    it takes what the library computed for the same blob. *)
Class PointEvaluation := { point_evaluation : bytes → bool }.

Class PointEvaluationLaws (K : Kzg) (P : PointEvaluation) : Prop := {
  point_evaluation_computed blob z proof v c : zlen blob = blobSize → ComputeKZGProof blob z = Ret (proof, v) → BlobToKZGCommitment blob = Ret c →
    point_evaluation (kzg_VersionedHash c ++ z ++ v ++ c ++ proof) = true }.

Lemma ruBLS_root : ruBLS = root_of_unity ^ (2 ^ 20) mod BLS_MODULUS.
Proof.
  pose proof (Zpow_mod_correct root_of_unity (2 ^ 20) BLS_MODULUS modulus_pos) as E. rewrite <- E. vm_compute. reflexivity.
Qed.

Lemma pow_mod_mul p g a b : 0 < p → 0 ≤ a → 0 ≤ b → (g ^ a mod p) ^ b mod p = g ^ (a * b) mod p.
Proof. intros Hp Ha Hb. rw Z.pow_mul_r //. by rw -(Zpower_mod (g ^ a) b p). Qed.

Lemma domain_point_pow i : domain_point i = ruBLS ^ reverse_bits 12 i mod BLS_MODULUS.
Proof.
  pose proof (reverse_bits_range 12 i) as Hr.
  pose proof (pow_mod_mul BLS_MODULUS root_of_unity (2 ^ 20) (reverse_bits 12 i) ltac:(done) ltac:(done) (proj1 Hr)) as E.
  rewrite <- ruBLS_root in E. unfold domain_point. by rewrite <- E.
Qed.

Lemma domain_point_bound i : 0 ≤ domain_point i < BLS_MODULUS.
Proof. rw domain_point_pow. by apply Z.mod_pos_bound. Qed.

Lemma domain_point_range i : 0 ≤ domain_point i < 2 ^ (8 * 32).
Proof. have := domain_point_bound i. have : BLS_MODULUS < 2 ^ (8 * 32); [done|lia]. Qed.

Lemma domain_point_inj i j : 0 ≤ i < 4096 → 0 ≤ j < 4096 → domain_point i = domain_point j → i = j.
Proof.
  intros Hi Hj E. rw !domain_point_pow in E. rw -(reverse_bits_involutive i) // -(reverse_bits_involutive j) //. f_equal.
  pose proof (reverse_bits_range 12 i : 0 ≤ _ < 4096) as Ha. pose proof (reverse_bits_range 12 j : 0 ≤ _ < 4096) as Hb.
  revert E Ha Hb. generalize (reverse_bits 12 i) as a. generalize (reverse_bits 12 j) as b. intros b a E Ea Eb.
  destruct ruBLS_order as [O1 O2]. destruct (Z.lt_total a b) as [H|[H|H]]; [exfalso|exact H|exfalso].
  + exact (powers_distinct BLS_MODULUS ruBLS 2048 11 a b modulus_gt eq_refl O1 O2 (conj (proj1 Ea) H) (proj2 Eb) E).
  + exact (powers_distinct BLS_MODULUS ruBLS 2048 11 b a modulus_gt eq_refl O1 O2 (conj (proj1 Eb) H) (proj2 Ea) (eq_sym E)).
Qed.

Lemma ret_eq {A} (x y : A) : (mret x : gores A) = Ret y → x = y.
Proof. by intros [= ->]. Qed.

Section laws.
Context `{KL : KzgLaws}.

Lemma point_exp i : 0 ≤ i < 4096 → bls_Exp ruBLS (reverseBits i) = ruBLS ^ reverse_bits 12 i mod BLS_MODULUS.
Proof. intros Hi. rw reverseBits_reverse //. apply bls_Exp_pow, reverse_bits_range. Qed.

Lemma input_point_domain i : 0 ≤ i < 4096 → input_point i = be_encode 32 (domain_point i).
Proof.
  intros Hi. unfold input_point. rw point_exp //. rewrite <- domain_point_pow. apply SerializeScalar_be, domain_point_bound.
Qed.

Lemma zlen_scalar data i : zlen data = blobSize → 0 ≤ i < 4096 → zlen (scalar_at data i) = 32.
Proof using. rw /blobSize /ScalarsPerBlob /scalar_at /zlen length_take length_drop. lia. Qed.

(** The input for the precompile that [GenerateKZGProof] makes for a sample of a blob has 192 bytes: the versioned hash
    of the blob's commitment, the sample's point of the domain, the sample itself as the claimed value, the commitment
    and the proof.  So the sample that the contract reads from it is the one at the index. *)
Lemma GenerateKZGProof_opens data i pe :
  zlen data = blobSize → 0 ≤ i < 4096 → GenerateKZGProof data i = Ret pe →
  ∃ commitment proof, BlobToKZGCommitment data = Ret commitment ∧
    ComputeKZGProof data (be_encode 32 (domain_point i)) = Ret (proof, scalar_at data i) ∧
    pe = kzg_VersionedHash commitment ++ be_encode 32 (domain_point i) ++ scalar_at data i ++ commitment ++ proof ∧ zlen pe = 192.
Proof.
  intros Hd Hi. rw /GenerateKZGProof. rw (proj2 (Z.eqb_neq (zlen data) 0)); [by rw Hd|]. rw (proj2 (Z.eqb_eq (zlen data) blobSize)) //. cbn [negb].
  rw (proj2 (Z.leb_gt _ _)); [rw /ScalarsPerBlob; lia|]. cbv zeta. have -> : go_copy (zeros blobSize) data = data.
  { rw go_copy_zeros Hd // Z.sub_diag app_nil_r //. }
  rw input_point_domain //. destruct (ComputeKZGProof data _) as [[proof v]| |] eqn:Ec; [|done..].
  destruct (BlobToKZGCommitment data) as [c| |] eqn:Eb; [|done..]. intros HR. apply ret_eq in HR. subst pe.
  pose proof (ComputeKZGProof_domain _ _ _ _ Hd Hi Ec) as ->.
  exists c, proof. split_and!; [done..|]. pose proof (kzg_VersionedHash_length c) as H1. pose proof (BlobToKZGCommitment_length _ _ Eb) as H2.
  pose proof (ComputeKZGProof_length _ _ _ _ Ec) as H3. have H4 := zlen_scalar data i Hd Hi. have H5 := length_be_encode 32 (domain_point i) ltac:(lia).
  rw !zlen_app H1 H2 H3 H4 H5. done.
Qed.

(** Different samples are proved at different points, so the proof of one sample cannot stand for another. *)
Theorem input_point_inj i j : 0 ≤ i < 4096 → 0 ≤ j < 4096 → input_point i = input_point j → i = j.
Proof.
  intros Hi Hj E. rw !input_point_domain // in E. apply be_encode_inj in E; [|done|apply domain_point_range|apply domain_point_range].
  by apply domain_point_inj.
Qed.

End laws.

(** ** The combined prover *)

Section combined.
Context `{KL : KzgLaws} `{PE : PointEvaluation} {PL : PointEvaluationLaws K PE} `{SN : Snark}.

Lemma point_inputs_ok idxs data acc pes k : 0 ≤ k →
  foldM (point_input idxs) acc (zip (seqZ k (zlen data)) data) = Ret pes →
  ∃ new, pes = acc ++ new ∧ length new = length data ∧
    ∀ n d, data !! n = Some d → ∃ i pe, idxs !! (Z.to_nat k + n)%nat = Some i ∧ new !! n = Some pe ∧ GenerateKZGProof d i = Ret pe.
Proof using.
  revert acc k. induction data as [|d data IH]; intros acc k Hk.
  { intros [= <-]. exists []. by rw app_nil_r. }
  have E : seqZ k (zlen (d :: data)) = k :: seqZ (Z.succ k) (zlen data).
  { rw /zlen. cbn [length]. rw seqZ_cons; [lia|]. do 2 f_equal. lia. }
  rw E. cbn [zip zip_with]. rw foldM_cons /point_input. cbn [fst snd].
  destruct (index idxs k) as [i| |] eqn:Ei; [|done..]. cbn [mbind gores_bind].
  destruct (GenerateKZGProof d i) as [pe| |] eqn:Eg; [|done..]. cbn [mbind gores_bind mret gores_ret]. intros HR.
  apply IH in HR as (new & -> & Hl & Hn); [|lia]. exists (pe :: new). rw -app_assoc. split; [done|]. split; [cbn; by rw Hl|].
  intros [|n] d' Hd; cbn in Hd.
  - injection Hd as <-. exists i, pe. split_and!; [|done|done]. move: Ei. rw /index (proj2 (Z.leb_le _ _)) // Nat.add_0_r.
    by destruct (idxs !! Z.to_nat k) as [x|]; [intros [= ->]|].
  - destruct (Hn n d' Hd) as (i' & pe' & H1 & H2 & H3). exists i', pe'. split_and!; [|done|done].
    rw -H1. f_equal. lia.
Qed.

(** The opening that is given for sample [i] of the blob [d]: the proof is the library's for the sample's point, and the
    precompile takes it. *)
Definition opens (d : bytes) (i : Z) (pe : bytes) : Prop :=
  ∃ commitment proof, BlobToKZGCommitment d = Ret commitment ∧
    ComputeKZGProof d (be_encode 32 (domain_point i)) = Ret (proof, scalar_at d i) ∧
    pe = kzg_VersionedHash commitment ++ be_encode 32 (domain_point i) ++ scalar_at d i ++ commitment ++ proof ∧
    zlen pe = 192 ∧ point_evaluation pe = true.

(** The proof and the mask of a key are what the prover made for this key and its sample. *)
Definition masked_by (keys : list bytes) (idxs : list Z) (zks : list bytes) (ms : list Z) : Prop :=
  length zks = length keys ∧ length ms = length keys ∧
  ∀ n key, keys !! n = Some key → ∃ i zk mask, idxs !! n = Some i ∧ zks !! n = Some zk ∧ ms !! n = Some mask ∧
    prove_sample (GenerateInput key i) = Ret (zk, mask).

Lemma prove_all_ok b keys idxs : ∀ rest zk mk res done,
  keys = done ++ rest → masked_by done idxs zk mk →
  foldM (prove_one b keys idxs) (zk, mk) (seqZ (zlen done) (zlen rest)) = Ret res →
  masked_by keys idxs res.1 res.2.
Proof using.
  induction rest as [|key rest IH]; intros zk mk res dn Ek HM.
  { intros [= <-]. by rw Ek app_nil_r. }
  rw {2}/zlen. cbn [length]. rw seqZ_cons; [lia|]. have -> : Z.pred (Z.of_nat (S (length rest))) = zlen rest by rw /zlen; lia.
  rw foldM_cons. have Ekey : index keys (zlen dn) = Ret key.
  { rw /index /zlen (proj2 (Z.leb_le _ _)); [lia|]. rw Nat2Z.id Ek list_lookup_middle //. }
  destruct (prove_one b keys idxs (zk, mk) (zlen dn)) as [acc| |] eqn:E1; [|done..]. cbn [mbind gores_bind]. intros HR.
  move: E1. rw /prove_one Ekey. cbn [mbind gores_bind]. destruct (index idxs (zlen dn)) as [i| |] eqn:Ei; [|done..]. cbn [mbind gores_bind].
  destruct b; [|done]. rw /use /GenerateZKProofPerSample. destruct (FieldElementsPerBlob <=? _); [done|].
  destruct (prove_sample (GenerateInput key i)) as [[z m]| |] eqn:Ep; [|done..]. intros [= <-].
  have Es : Z.succ (zlen dn) = zlen (dn ++ [key]) by rw /zlen length_app /=; lia. rw Es in HR.
  apply (IH _ _ _ (dn ++ [key])) in HR; [done|by rw -app_assoc|]. destruct HM as (L1 & L2 & HM).
  split_and!; [rw !length_app /=; lia..|]. intros n key' Hn. apply lookup_app_Some in Hn as [Hn|[Hge Hn]].
  - destruct (HM n key' Hn) as (i' & z' & m' & H1 & H2 & H3 & H4). exists i', z', m'.
    split_and!; [done|by apply lookup_app_l_Some|by apply lookup_app_l_Some|done].
  - apply list_lookup_singleton_Some in Hn as [En <-]. have Enn : n = length dn by lia. subst n. exists i, z, m.
    split_and!; [|by rw -L1 list_lookup_middle|by rw -L2 list_lookup_middle|done].
    move: Ei. rw /index /zlen (proj2 (Z.leb_le _ _)); [lia|]. rw Nat2Z.id. by destruct (idxs !! _) => // -[= ->].
Qed.

(** What a success is made of. *)
Lemma GetStorageProof_parts mode prvr data keys idxs ms zks pes :
  GetStorageProof mode prvr data keys idxs = Ret (ms, zks, pes) →
  foldM (point_input idxs) [] (zip (seqZ 0 (zlen data)) data) = Ret pes ∧
  ((mode = 1 ∧ masked_by keys idxs zks ms) ∨
   (mode = 2 ∧ ∃ inputs zk publics, GenerateInputs keys idxs = Ret inputs ∧ prove_samples inputs = Ret (zk, publics) ∧
      zlen publics = 6 ∧ zks = [zk] ∧ ms = drop 4 publics)).
Proof using.
  rw /GetStorageProof. destruct (foldM (point_input idxs) _ _) as [l| |] eqn:Ef; [|done..]. cbn [mbind gores_bind].
  destruct prvr as [b| |]; [|done..]. cbn [mbind gores_bind].
  destruct (mode =? 1) eqn:E1; [|destruct (mode =? 2) eqn:E2; [|done]].
  - destruct (foldM (prove_one b keys idxs) _ _) as [[zk mk]| |] eqn:Ep; [|done..]. intros [= <- <- <-]. split; [done|].
    left. split; [lia|]. by apply (prove_all_ok b keys idxs keys [] [] (zk, mk) []) in Ep.
  - destruct b; [|done]. cbn [use]. rw /GenerateZKProof /GenerateZKProofRaw. destruct (GenerateInputs keys idxs) as [inputs| |]; [|done..].
    cbn [mbind gores_bind]. destruct (prove_samples inputs) as [[pr pub]| |] eqn:Epr; [|done..]. cbn [mbind gores_bind].
    destruct (zlen pub =? 6) eqn:E6; [|done]. cbn. intros [= <- <- <-]. split; [done|]. right.
    split; [lia|]. exists inputs, pr, pub. split_and!; [done|done|lia|done|done].
Qed.

(** C23: when [GetStorageProof] succeeds for blobs and sample indices in range, then the input for the precompile of every
    blob opens the sample at its index: the versioned hash and the commitment are the blob's, the point is the sample's
    point of the domain, the value the sample, the proof is the library's for this point, and the precompile takes it.
    The masks and the zero-knowledge proofs are what the prover made for the inputs: in mode 2 one proof for all keys and
    indices, with the last two of its six public values as masks, in mode 1 one proof and mask for each key and its index. *)
Theorem GetStorageProof_opens mode prvr data keys idxs ms zks pes :
  Forall (λ d, zlen d = blobSize) data → Forall (λ i, 0 ≤ i < 4096) idxs →
  GetStorageProof mode prvr data keys idxs = Ret (ms, zks, pes) →
  length pes = length data ∧
  (∀ n d, data !! n = Some d → ∃ i pe, idxs !! n = Some i ∧ pes !! n = Some pe ∧ opens d i pe) ∧
  ((mode = 1 ∧ masked_by keys idxs zks ms) ∨
   (mode = 2 ∧ ∃ inputs zk publics, GenerateInputs keys idxs = Ret inputs ∧ prove_samples inputs = Ret (zk, publics) ∧
      zlen publics = 6 ∧ zks = [zk] ∧ ms = drop 4 publics)).
Proof.
  intros Hd Hi (Ef & Hz)%GetStorageProof_parts. apply point_inputs_ok in Ef as (new & -> & Hl & Hn); [|done].
  split_and!; [done| |done]. intros n d Hnd. destruct (Hn n d Hnd) as (i & pe & H1 & H2 & H3).
  have Hs := Forall_lookup_1 _ _ _ _ Hd Hnd. have Hr := Forall_lookup_1 _ _ _ _ Hi H1.
  destruct (GenerateKZGProof_opens d i pe Hs Hr H3) as (c & pr & H4 & H5 & H6 & H7). exists i, pe. split_and!; [done..|]. exists c, pr.
  split_and!; [done..|]. rw H6. by apply (point_evaluation_computed d).
Qed.

End combined.

(** ** The shared prover *)

(** When the files of the go-rapidsnark prover could not be read the first time, [getZKProver] returns that error, but
    every later call returns a nil pointer without an error, whatever the files are then, and the proof of a sample
    panics in both modes. *)
Theorem getZKProver_nil e files keys idxs `{Kzg} `{Snark} : keys ≠ [] → length idxs = length keys →
  ∃ s, getZKProver 2 (Fail e) (mkOnce false None) = (Fail e, s) ∧ getZKProver 2 files s = (Ret false, s) ∧
    ∀ mode, mode = 1 ∨ mode = 2 → GetStorageProof mode (Ret false) [] keys idxs = Panic NilPointer.
Proof.
  intros Hk Hl. exists (mkOnce true None). split_and!; [done|done|]. intros mode Hm. rw /GetStorageProof. cbn [mbind gores_bind].
  destruct keys as [|k keys]; [done|]. destruct idxs as [|i idxs]; [done|].
  destruct Hm as [-> | ->]; cbn [Z.eqb Pos.eqb]; [|done]. rw /zlen. cbn [length]. rw seqZ_cons; [lia|]. by rw foldM_cons.
Qed.

(** The bound of the sample index is checked on a signed number. *)
Lemma GenerateInputs_signed `{Kzg} key idx : two63 ≤ idx < two64 → GenerateInputs [key] [idx] = Ret (mkInputPairV2 [key_in key] [x_in idx]).
Proof.
  intros Hi. rw /GenerateInputs /zlen. change (seqZ 0 (Z.of_nat (length [idx]))) with [0]. cbn [zip zip_with]. rw foldM_one /sample_input.
  rw (proj2 (Z.leb_gt _ _)); [|done]. rw /int64 /FieldElementsPerBlob. have -> : idx + two63 = (idx - two63) + 1 * two64 by rw /two63 /two64; lia.
  rw Z.mod_add // Z.mod_small; rw /two63 /two64 in Hi |- *; lia.
Qed.

(** ** Examples *)

(** The real field, and proofs that look the point up in the domain. *)
#[local] Instance toy_kzg : Kzg := {
  bls_Exp x k := Zpow_mod x k BLS_MODULUS;
  SerializeScalar := be_encode 32;
  ComputeKZGProof blob z :=
    match List.find (λ i, bool_decide (be_encode 32 (Zpow_mod ruBLS (reverse_bits 12 i) BLS_MODULUS) = z)) (seqZ 0 4096) with
    | Some i => Ret (zeros 48, scalar_at blob i)
    | None => Fail (ErrMsg "not in the domain")
    end;
  BlobToKZGCommitment blob := Ret (take 48 (blob ++ zeros 48));
  kzg_VersionedHash c := take 32 (c ++ zeros 32);
  bn_Modulus := 2 ^ 61 - 1;
  bn_Exp x k := Zpow_mod x k (2 ^ 61 - 1) }.

Lemma toy_point i : Zpow_mod ruBLS (reverse_bits 12 i) BLS_MODULUS = domain_point i.
Proof. pose proof (Zpow_mod_correct ruBLS (reverse_bits 12 i) BLS_MODULUS modulus_pos) as E. by rw E domain_point_pow. Qed.

#[local] Instance toy_kzg_laws : KzgLaws toy_kzg.
Proof.
  constructor.
  - intros x k Hk. exact (Zpow_mod_correct x k BLS_MODULUS modulus_pos).
  - done.
  - intros blob i proof v _ Hi. cbn [ComputeKZGProof toy_kzg]. destruct (List.find _ _) as [j|] eqn:Ef; [|done]. intros [= _ <-].
    apply find_some in Ef as [Hj E]. apply bool_decide_eq_true in E. apply list_elem_of_In, elem_of_seqZ in Hj. rw toy_point in E.
    apply be_encode_inj in E; [|done|apply domain_point_range|apply domain_point_range]. f_equal. by apply domain_point_inj.
  - intros blob z proof v. cbn [ComputeKZGProof toy_kzg]. destruct (List.find _ _); [|done]. by intros [= <- _].
  - intros blob c [= <-]. rw /zlen length_take length_app length_replicate. lia.
  - intros c. cbn [kzg_VersionedHash toy_kzg]. rw /zlen length_take length_app length_replicate. lia.
Qed.

(** The commitment has to belong to the versioned hash, and the input to be of the right length. *)
#[local] Instance toy_precompile : PointEvaluation := {
  point_evaluation pe := bool_decide (take 32 pe = take 32 (drop 96 pe)) && (zlen pe =? 192) }.

#[local] Instance toy_precompile_laws : PointEvaluationLaws toy_kzg toy_precompile.
Proof.
  constructor. intros blob z proof v c Hb. cbn [ComputeKZGProof BlobToKZGCommitment toy_kzg]. destruct (List.find _ _) as [i|] eqn:Ef; [|done].
  intros [= <- <-] [= <-]. apply find_some in Ef as [Hi E]. apply bool_decide_eq_true in E. apply list_elem_of_In, elem_of_seqZ in Hi.
  have Hz : length z = 32%nat by rw -E; apply Nat2Z.inj, length_be_encode.
  have Hs : length (scalar_at blob i) = 32%nat by apply Nat2Z.inj, (zlen_scalar blob i Hb); lia.
  cbn [kzg_VersionedHash point_evaluation toy_precompile].
  set c := take 48 _. have Hc : length c = 48%nat by rw /c length_take length_app length_replicate; lia.
  set h := kzg_VersionedHash c. have Eh0 : h = take 32 (c ++ zeros 32) by done. have Hh : length h = 32%nat by rw Eh0 length_take length_app length_replicate; lia.
  have Eh : h = take 32 c by rw Eh0 take_app_le //; lia. clearbody h.
  rw take_app_length' // !app_assoc -(app_assoc _ c) drop_app_length'; [rw !length_app Hh Hz Hs //|].
  rw take_app_le; [lia|]. rw -Eh bool_decide_eq_true_2 // /zlen !length_app Hh Hz Hs Hc length_replicate //.
Qed.

#[local] Instance toy_snark : Snark := {
  prove_samples _ := Ret ([7], [1; 2; 3; 4; 5; 6]);
  prove_sample _ := Ret ([7], 3) }.

Lemma input_point_inj_witness : input_point 5 = input_point 5 ∧ 5 = 5.
Proof. split; [reflexivity|]. apply (input_point_inj 5 5); [lia|lia|reflexivity]. Defined.

Definition ex_blob : bytes := [0; 9; 8; 7] ++ zeros (blobSize - 4).
Definition ex_pes : list bytes := (from_ret ([], [], []) (GetStorageProof 2 (Ret true) [ex_blob] [zeros 32] [0])).2.

Lemma ex_proof : GetStorageProof 2 (Ret true) [ex_blob] [zeros 32] [0] = Ret ([5; 6], [[7]], ex_pes).
Proof. vm_compute. reflexivity. Qed.

Lemma ex_blob_size : Forall (λ d, zlen d = blobSize) [ex_blob].
Proof. apply Forall_singleton. vm_compute. reflexivity. Qed.

Lemma GetStorageProof_opens_witness :
  (∃ pe, ex_pes = [pe] ∧ point_evaluation pe = true) ∧ 
  ∃ inputs zk publics, prove_samples inputs = Ret (zk, publics) ∧ [5; 6] = drop 4 publics.
Proof.
  destruct (GetStorageProof_opens (K := toy_kzg) (KL := toy_kzg_laws) (PL := toy_precompile_laws) (SN := toy_snark)
    2 (Ret true) [ex_blob] [zeros 32] [0] [5; 6] [[7]] ex_pes) as (H1 & H2 & H3).
  - exact ex_blob_size.
  - apply Forall_singleton. done.
  - exact ex_proof.
  - split.
    + destruct (H2 0%nat ex_blob eq_refl) as (i & pe & _ & H4 & c & pr & _ & _ & _ & _ & H5). exists pe. split; [|exact H5].
      destruct ex_pes as [|x [|y l]]; [discriminate H1| |discriminate H1]. injection H4 as ->. reflexivity.
    + destruct H3 as [[E _]|(_ & inputs & zk & publics & _ & H4 & _ & _ & H5)]; [discriminate E|].
      exists inputs, zk, publics. split; [exact H4|exact H5].
Defined.

Lemma getZKProver_nil_witness : GetStorageProof 2 (Ret false) [] [zeros 32] [0] = Panic NilPointer.
Proof.
  destruct (getZKProver_nil (ErrMsg "no such file or directory") (Ret ([1], [2])) [zeros 32] [0]) as (s & _ & _ & H).
  - done.
  - done.
  - apply (H 2). by right.
Defined.
