(* ===== verification/ProofJson.v ===== *)
(** * Proofs as text (ethstorage/prover/utils.go, zk_prover.go, zk_prover_go.go)

    The SNARK provers exchange proofs and public values as JSON: points with decimal coordinates that are packed for the
    verifier contract, and the runs of node and snarkjs in a directory of their own.  JSON, the ABI and the two
    programs are parameters. *)

From stdpp Require Import pretty.
From S2P Require Import Prelude Extern GoStrings GoBig KzgProver KzgFacts.

(** ** JSON *)

(** [json.Marshal] and [json.Unmarshal] for a type; the law is that what was written is read back. *)
Class Json (T : Type) := { Marshal : T → bytes; Unmarshal : bytes → gores T }.

Class JsonLaws (T : Type) `{Json T} : Prop := { Unmarshal_Marshal x : Unmarshal (Marshal x) = Ret x }.

Definition invalid_number : error := ErrMsg "invalid number".

Definition of_ok (e : error) (x : option Z) : gores Z := match x with Some n => mret n | None => Fail e end.

(** ** Points *)

(** A coordinate is a pointer: [None] for nil, and for a number that [SetString] left undefined. *)
Record G1Point := mkG1Point { g1_X : option Z; g1_Y : option Z }.

(** [X] and [Y] are arrays of two pointers. *)
Record G2Point := mkG2Point { g2_X : list (option Z); g2_Y : list (option Z) }.

Definition toG1Point (s : list string) : gores G1Point :=
  s0 ← index s 0;
  x ← of_ok invalid_number (SetString s0 10);
  s1 ← index s 1;
  y ← of_ok invalid_number (SetString s1 10);
  mret (mkG1Point (Some x) (Some y)).

(** [a[i] = z] for an array. *)
Definition set_array (a : list (option Z)) (i : Z) (z : Z) : gores (list (option Z)) :=
  if (0 <=? i) && (i <? zlen a) then mret (<[Z.to_nat i := Some z]> a) else Panic OutOfRange.

Definition with_index {A} (l : list A) : list (Z * A) := zip (seqZ 0 (zlen l)) l.

(** One text of [toG2Point]: the two halves of a coordinate are swapped, as the verifier contract expects them. *)
Definition g2_coordinate (i : Z) (p : G2Point) (x : Z * string) : gores G2Point :=
  let '(j, vj) := x in
  z ← of_ok invalid_number (SetString vj 10);
  if i =? 0 then xs ← set_array (g2_X p) (1 - j) z; mret (mkG2Point xs (g2_Y p))
  else ys ← set_array (g2_Y p) (1 - j) z; mret (mkG2Point (g2_X p) ys).

Definition g2_nil : G2Point := mkG2Point [None; None] [None; None].

Definition toG2Point (s : list (list string)) : gores G2Point :=
  foldM (λ p '(i, vi), foldM (g2_coordinate i) p (with_index vi)) g2_nil (with_index s).

(** *** Points in JSON *)

(** [p.X.String()] of a pointer: "<nil>" for nil. *)
Definition big_String (x : option Z) : string := match x with Some n => pretty n | None => "<nil>" end.

Section points.
Context `{J1 : Json (string * string)} `{J2 : Json ((string * string) * (string * string))}.

Definition G1Point_MarshalJSON (p : G1Point) : bytes := Marshal (big_String (g1_X p), big_String (g1_Y p)).

(** When a text is no number, [err] is returned, which is nil. *)
Definition G1Point_UnmarshalJSON (b : bytes) (p : G1Point) : gores G1Point :=
  values ← Unmarshal b;
  match SetString values.1 10 with
  | None => mret (mkG1Point None (g1_Y p))
  | Some x => match SetString values.2 10 with
              | None => mret (mkG1Point (Some x) None)
              | Some y => mret (mkG1Point (Some x) (Some y))
              end
  end.

Definition g2_get (l : list (option Z)) (i : nat) : string := big_String (default None (l !! i)).

Definition G2Point_MarshalJSON (p : G2Point) : bytes :=
  Marshal ((g2_get (g2_X p) 0, g2_get (g2_X p) 1), (g2_get (g2_Y p) 0, g2_get (g2_Y p) 1)).

(** The texts of one coordinate; the result tells whether all were numbers. *)
Definition read_pair (values : string * string) (a : list (option Z)) : list (option Z) * bool :=
  match SetString values.1 10 with
  | None => (a, false)
  | Some z0 => let a := <[1%nat := Some z0]> a in
               match SetString values.2 10 with
               | None => (a, false)
               | Some z1 => (<[0%nat := Some z1]> a, true)
               end
  end.

Definition G2Point_UnmarshalJSON (b : bytes) (p : G2Point) : gores G2Point :=
  values ← Unmarshal b;
  let '(xs, ok) := read_pair values.1 (g2_X p) in
  if ok then mret (mkG2Point xs (read_pair values.2 (g2_Y p)).1) else mret (mkG2Point xs (g2_Y p)).

End points.

(** ** Proofs and public values *)

(** [types.ProofData] *)
Record ProofData := mkProofData { pi_A : list string; pi_B : list (list string); pi_C : list string }.

(** [abi.Arguments{uint256[2], uint256[2][2], uint256[2]}.Pack] *)
Class ProofAbi := { pack_proof : list (option Z) → list (list (option Z)) → list (option Z) → gores bytes }.

Definition word (x : Z) : bytes := be_encode 32 x.

(** Static types are encoded in place, each number as 32 bytes. *)
Class ProofAbiLaws (PA : ProofAbi) : Prop := {
  pack_proof_words a0 a1 b00 b01 b10 b11 c0 c1 : Forall (λ x, 0 ≤ x < 2 ^ 256) [a0; a1; b00; b01; b10; b11; c0; c1] →
    pack_proof [Some a0; Some a1] [[Some b00; Some b01]; [Some b10; Some b11]] [Some c0; Some c1] =
    Ret ([a0; a1; b00; b01; b10; b11; c0; c1] ≫= word) }.

(** [l[:n]] *)
Definition upto {A} (l : list A) (n : Z) : gores (list A) := if n <=? zlen l then mret (take (Z.to_nat n) l) else Panic OutOfRange.

Section proofs.
Context `{PA : ProofAbi} `{JP : Json ProofData} `{JS : Json (list string)}.

Definition readPublics (publicInputs : bytes) : gores (list Z) :=
  output ← Unmarshal publicInputs;
  go_map (λ v, of_ok (ErrMsg "invalid public input") (SetString v 0)) (output : list string).

Definition readProof (proofRaw : bytes) : gores bytes :=
  piOut ← Unmarshal proofRaw;
  a ← upto (pi_A piOut) 2; a ← toG1Point a;
  b ← upto (pi_B piOut) 2; b ← toG2Point b;
  c ← upto (pi_C piOut) 2; c ← toG1Point c;
  match pack_proof [g1_X a; g1_Y a] [g2_X b; g2_Y b] [g1_X c; g1_Y c] with
  | Fail e => Fail (ErrWrap "values" e)
  | r => r
  end.

Definition readMask (publicInputs : bytes) : gores Z :=
  output ← Unmarshal publicInputs;
  if negb (zlen (output : list string) =? 3) then Fail (ErrMsg "invalid public output")
  else
    v ← index output 2;
    of_ok (ErrMsg "invalid mask") (SetString v 0).

(** ** The two provers *)

(** The programs outside: the witness generator under node and snarkjs, and the library go-rapidsnark with its witness
    calculator.  Of an input in JSON they make a witness, of a witness the proof and the public values in JSON.  A proof is
    blinded: the number stands for the randomness of the run. *)
Class SnarkPrograms := {
  js_witness : bytes → gores bytes;
  js_prove : nat → bytes → gores (bytes * bytes);
  go_witness : bytes → gores bytes;
  go_prove : nat → bytes → gores (bytes * bytes) }.

Context `{GR : SnarkPrograms}.

(** *** In the process (zk_prover_go.go) *)

Definition ZKProverGo_prove (rnd : nat) (inputBytes : bytes) : gores (bytes * bytes) :=
  wtnsBytes ← go_witness inputBytes;
  '(proofRaw, publicInputs) ← go_prove rnd wtnsBytes;
  proof ← readProof proofRaw;
  mret (proof, publicInputs).

(** A proof with what [read] makes of the public values. *)
Definition go_prove_with {A} (rnd : nat) (read : bytes → gores A) (inputBytes : bytes) : gores (bytes * A) :=
  '(proof, publicInputs) ← ZKProverGo_prove rnd inputBytes;
  publics ← read publicInputs;
  mret (proof, publics).

(** *** By programs on files (zk_prover.go) *)

(** The files of a directory by name, and the build directories by path. *)
Definition folder := gmap string bytes.
Definition builds := gmap string folder.

Definition ReadFile (b : builds) (dir name : string) : gores bytes :=
  match (b !! dir) ≫= (.!! name) with
  | None => Fail (ErrMsg "no such file or directory")
  | Some dat => mret dat
  end.

Definition read_from {A} (parse : bytes → gores A) (dir name : string) : ST builds A :=
  b ← st_get;
  st_lift (dat ← ReadFile b dir name; parse dat).

Definition readProofFrom (dir proofFile : string) : ST builds bytes := read_from readProof dir proofFile.
Definition readPublicsFrom (dir publicFile : string) : ST builds (list Z) := read_from readPublics dir publicFile.
Definition readMaskFrom (dir publicFile : string) : ST builds Z := read_from readMask dir publicFile.

(** The errors of creating the directory and of writing the input. *)
Class BuildDirs := { mkdir_err : option error; write_err : option error }.

Context `{BD : BuildDirs}.

Definition inputName : string := "input_blob_poseidon.json".
Definition witnessName : string := "witness_blob_poseidon.wtns".
Definition proofName : string := "proof_blob_poseidon.json".
Definition publicName : string := "public_blob_poseidon.json".

Definition RemoveAll (dir : string) : ST builds unit := λ b, (Ret tt, delete dir b).
Definition Mkdir (dir : string) : ST builds unit := λ b,
  match mkdir_err with Some e => (Fail e, b) | None => (Ret tt, <[dir := ∅]> b) end.
Definition put_file (dir name : string) (dat : bytes) : ST builds unit := λ b,
  (Ret tt, <[dir := <[name := dat]> (default ∅ (b !! dir))]> b).
Definition WriteFile (dir name : string) (dat : bytes) : ST builds unit :=
  match write_err with Some e => st_lift (Fail e) | None => put_file dir name dat end.

(** The two programs read a file and write one or two; a failed one returns its error. *)
Definition run_witness (dir : string) : ST builds unit :=
  b ← st_get;
  wtns ← st_lift (dat ← ReadFile b dir inputName; js_witness dat);
  put_file dir witnessName wtns.

Definition run_snarkjs (rnd : nat) (dir : string) : ST builds unit :=
  b ← st_get;
  '(proof, public) ← st_lift (dat ← ReadFile b dir witnessName; js_prove rnd dat);
  _ ← put_file dir proofName proof;
  put_file dir publicName public.

(** [buildDir] is the path made from the hash of the keys and the indices; the public file is left in it. *)
Definition prove (rnd : nat) (buildDir : string) (pubInputs : bytes) : ST builds bytes :=
  _ ← RemoveAll buildDir;
  _ ← Mkdir buildDir;
  _ ← WriteFile buildDir inputName pubInputs;
  _ ← run_witness buildDir;
  _ ← run_snarkjs rnd buildDir;
  readProofFrom buildDir proofName.

(** The public values are read from the directory, which is then removed. *)
Definition prove_with {A} (rnd : nat) (readFrom : string → string → ST builds A) (buildDir : string) (pubInputs : bytes) : ST builds (bytes * A) :=
  proof ← prove rnd buildDir pubInputs;
  publics ← readFrom buildDir publicName;
  _ ← RemoveAll buildDir;
  mret (proof, publics).

(** *** The provers behind the combined prover *)

Context `{JI : Json InputPair} `{JV : Json InputPairV2}.

(** [rnd] gives the randomness of the run on an input. *)
Definition snark_go (rnd : bytes → nat) : Snark := {|
  prove_samples inputs := let dat := Marshal inputs in go_prove_with (rnd dat) readPublics dat;
  prove_sample input := let dat := Marshal input in go_prove_with (rnd dat) readMask dat |}.

(** [dir] gives the build directory of an input, [b] the build directories before the call. *)
Definition snark_files (rnd : bytes → nat) (dir : bytes → string) (b : builds) : Snark := {|
  prove_samples inputs := let dat := Marshal inputs in (prove_with (rnd dat) readPublicsFrom (dir dat) dat b).1;
  prove_sample input := let dat := Marshal input in (prove_with (rnd dat) readMaskFrom (dir dat) dat b).1 |}.

(** ** A run on files *)

Lemma ReadFile_insert b dir (f : folder) name dat : f !! name = Some dat → ReadFile (<[dir := f]> b) dir name = Ret dat.
Proof. intros Hf. by rw /ReadFile lookup_insert_eq /= Hf. Qed.

Lemma put_file_insert b dir (f : folder) name dat :
  put_file dir name dat (<[dir := f]> b) = (Ret tt, <[dir := <[name := dat]> f]> b).
Proof. by rw /put_file lookup_insert_eq /= insert_insert_eq. Qed.

Definition the_input (dat : bytes) : folder := {[inputName := dat]}.

Lemma run_witness_insert b dir dat :
  run_witness dir (<[dir := the_input dat]> b) =
  match js_witness dat with
  | Ret w => (Ret tt, <[dir := <[witnessName := w]> (the_input dat)]> b)
  | Fail e => (Fail e, <[dir := the_input dat]> b)
  | Panic p => (Panic p, <[dir := the_input dat]> b)
  end.
Proof.
  rw /run_witness /mbind /st_bind /st_get /st_lift. rw (ReadFile_insert _ _ _ _ dat); [apply lookup_singleton_eq|]. rw /gores_bind.
  destruct (js_witness dat) as [w| |]; [|done|done]. apply put_file_insert.
Qed.

Definition the_output (f : folder) (r : bytes * bytes) : folder := <[publicName := r.2]> (<[proofName := r.1]> f).

Lemma run_snarkjs_insert rnd b dir (f : folder) w : f !! witnessName = Some w →
  run_snarkjs rnd dir (<[dir := f]> b) =
  match js_prove rnd w with
  | Ret r => (Ret tt, <[dir := the_output f r]> b)
  | Fail e => (Fail e, <[dir := f]> b)
  | Panic p => (Panic p, <[dir := f]> b)
  end.
Proof.
  intros Hf. rw /run_snarkjs /mbind /st_bind /st_get /st_lift. rw (ReadFile_insert _ _ _ _ w) //. rw /gores_bind.
  destruct (js_prove rnd w) as [[pr pu]| |]; [|done|done]. rw put_file_insert. apply put_file_insert.
Qed.

(** What the two programs make of an input, without files. *)
Definition js_pipeline {A} (rnd : nat) (read : bytes → gores A) (dat : bytes) : gores (bytes * A) :=
  w ← js_witness dat;
  '(pr, pu) ← js_prove rnd w;
  proof ← readProof pr;
  x ← read pu;
  mret (proof, x).

(** A run on files: whatever was left in the directory, its result is the one of the programs, other directories are
    untouched, and after a success nothing is left of its own. *)
Lemma prove_with_run {A} rnd (read : bytes → gores A) dir dat b :
  let '(r, b') := prove_with rnd (read_from read) dir dat b in
  (∀ d, d ≠ dir → b' !! d = b !! d) ∧
  r = match mkdir_err, write_err with
      | Some e, _ => Fail e
      | None, Some e => Fail e
      | None, None => js_pipeline rnd read dat
      end ∧
  (∀ x, r = Ret x → b' = delete dir b).
Proof.
  rw /prove_with /prove /WriteFile /js_pipeline /mbind /st_bind /gores_bind /Mkdir /RemoveAll.
  have Hne d f : d ≠ dir → (<[dir := f]> (delete dir b)) !! d = b !! d.
  { intros Hd%not_eq_sym. by rw lookup_insert_ne // lookup_delete_ne. }
  destruct mkdir_err as [e|]; [split_and!; [|done|done]; intros d Hd; exact (lookup_delete_ne b dir d (not_eq_sym Hd))|].
  destruct write_err as [e|]; [split_and!; [intros d Hd; by apply Hne|done|done]|].
  rw put_file_insert. change (<[inputName := dat]> ∅) with (the_input dat). rw run_witness_insert.
  destruct (js_witness dat) as [w| |]; [|split_and!; [intros d Hd; by apply Hne|done|done]..].
  rw (run_snarkjs_insert rnd _ _ _ w); [apply lookup_insert_eq|].
  destruct (js_prove rnd w) as [[pr pu]| |]; [|split_and!; [intros d Hd; by apply Hne|done|done]..].
  rw /readProofFrom /read_from /mbind /st_bind /st_get /st_lift /gores_bind.
  rw (ReadFile_insert _ _ _ _ pr); [by rw /the_output lookup_insert_ne // lookup_insert_eq|].
  destruct (readProof pr) as [proof| |]; [|split_and!; [intros d Hd; by apply Hne|done|done]..].
  rw (ReadFile_insert _ _ _ _ pu); [apply lookup_insert_eq|].
  destruct (read pu) as [x| |]; [|split_and!; [intros d Hd; by apply Hne|done|done]..].
  split_and!; [|done|].
  - intros d Hd. cbn. rw lookup_delete_ne; [by apply not_eq_sym|]. by apply Hne.
  - intros _ _. cbn. by rw delete_insert_eq delete_delete_eq.
Qed.

End proofs.

(** ** What is read *)

Section reading.
Context `{PAL : ProofAbiLaws} `{JPL : JsonLaws ProofData} `{JSL : JsonLaws (list string)}.

Lemma readPublics_pretty zs : readPublics (Marshal (pretty <$> zs)) = Ret zs.
Proof.
  rw /readPublics Unmarshal_Marshal. apply go_map_Forall2. rw Forall2_fmap_l. apply Forall_Forall2_diag, Forall_true.
  intros z. rw /compose SetString_pretty; [by left|done].
Qed.

Lemma readMask_pretty z0 z1 mask : readMask (Marshal (pretty <$> [z0; z1; mask])) = Ret mask.
Proof. rw /readMask Unmarshal_Marshal. rw /mbind /gores_bind /=. by rw SetString_pretty; [left|]. Qed.

Lemma toG1Point_pretty x y : toG1Point [pretty x; pretty y] = Ret (mkG1Point (Some x) (Some y)).
Proof. rw /toG1Point /mbind /gores_bind /=. by rw !SetString_pretty; [right|right|]. Qed.

Lemma toG2Point_texts s0 s1 t0 t1 x0 x1 y0 y1 : SetString s0 10 = Some x0 → SetString s1 10 = Some x1 →
  SetString t0 10 = Some y0 → SetString t1 10 = Some y1 →
  toG2Point [[s0; s1]; [t0; t1]] = Ret (mkG2Point [Some x1; Some x0] [Some y1; Some y0]).
Proof. intros H1 H2 H3 H4. cbv -[SetString]. by rw H1 H2 H3 H4. Qed.

Lemma toG2Point_pretty x0 x1 y0 y1 :
  toG2Point [[pretty x0; pretty x1]; [pretty y0; pretty y1]] = Ret (mkG2Point [Some x1; Some x0] [Some y1; Some y0]).
Proof. apply toG2Point_texts; apply SetString_pretty; by right. Qed.

(** The packed proof is the eight coordinates as 32-byte words, with the two halves of each coordinate of the second
    point swapped, as the verifier contract takes them; further entries of the points, such as the third, are left out. *)
Lemma readProof_words a0 a1 b00 b01 b10 b11 c0 c1 ra rb rc :
  Forall (λ x, 0 ≤ x < 2 ^ 256) [a0; a1; b01; b00; b11; b10; c0; c1] →
  readProof (Marshal (mkProofData (pretty a0 :: pretty a1 :: ra) ([pretty b00; pretty b01] :: [pretty b10; pretty b11] :: rb)
    (pretty c0 :: pretty c1 :: rc))) = Ret ([a0; a1; b01; b00; b11; b10; c0; c1] ≫= word).
Proof.
  intros HF. have Hup : ∀ A (x y : A) l, upto (x :: y :: l) 2 = Ret [x; y].
  { intros A x y l. rw /upto. case: Z.leb_spec => // Hl. move: Hl. rw /zlen /=. lia. }
  rw /readProof Unmarshal_Marshal /mbind /gores_bind. cbn [pi_A pi_B pi_C].
  rw !Hup !toG1Point_pretty toG2Point_pretty. cbn [g1_X g1_Y g2_X g2_Y]. by rw pack_proof_words.
Qed.

(** ** What the provers promise

    The circuit, by its public values for an input, and the check of a proof against public values. *)
Class Circuit := { circuit : bytes → list Z; verifies : ProofData → list Z → Prop }.

Context `{GR : SnarkPrograms} `{CI : Circuit}.

(** A proof with eight coordinates, and how it is packed. *)
Definition packs (p : ProofData) (proof : bytes) : Prop :=
  ∃ a0 a1 b00 b01 b10 b11 c0 c1 ra rb rc, Forall (λ x, 0 ≤ x < 2 ^ 256) [a0; a1; b01; b00; b11; b10; c0; c1] ∧
    p = mkProofData (pretty a0 :: pretty a1 :: ra) ([pretty b00; pretty b01] :: [pretty b10; pretty b11] :: rb)
          (pretty c0 :: pretty c1 :: rc) ∧
    proof = [a0; a1; b01; b00; b11; b10; c0; c1] ≫= word.

(** The output for an input: a proof that verifies for the public values of the circuit, and these values. *)
Definition proves (dat raw public : bytes) : Prop :=
  ∃ p proof, raw = Marshal p ∧ packs p proof ∧ verifies p (circuit dat) ∧ public = Marshal (pretty <$> circuit dat).

(** Either program, whatever its randomness. *)
Class SnarkLaws : Prop := {
  js_complete rnd dat w raw public : js_witness dat = Ret w → js_prove rnd w = Ret (raw, public) → proves dat raw public;
  go_complete rnd dat w raw public : go_witness dat = Ret w → go_prove rnd w = Ret (raw, public) → proves dat raw public }.

Context {SL : SnarkLaws}.

(** The packed proof verifies for the public values. *)
Definition valid (proof : bytes) (publics : list Z) : Prop := ∃ p, packs p proof ∧ verifies p publics.

Context `{JI : Json InputPair} `{JV : Json InputPairV2}.

(** What a prover promises to the combined prover. *)
Record snark_valid (SN : Snark) : Prop := {
  sv_samples inputs proof publics : prove_samples (Snark := SN) inputs = Ret (proof, publics) →
    publics = circuit (Marshal inputs) ∧ valid proof publics;
  sv_sample input proof mask : prove_sample (Snark := SN) input = Ret (proof, mask) →
    ∃ z0 z1, circuit (Marshal input) = [z0; z1; mask] ∧ valid proof [z0; z1; mask] }.

Lemma proves_read dat raw public proof : proves dat raw public → readProof raw = Ret proof →
  valid proof (circuit dat) ∧ public = Marshal (pretty <$> circuit dat).
Proof.
  intros (p & pr & -> & Hp & Hv & ->). pose proof Hp as (a0 & a1 & b00 & b01 & b10 & b11 & c0 & c1 & ra & rb & rc & HF & -> & ->).
  rw readProof_words //. intros [= <-]. split; [|done]. eexists. split; [exact Hp|exact Hv].
Qed.

Lemma readMask_circuit (zs : list Z) mask : readMask (Marshal (pretty <$> zs)) = Ret mask → ∃ z0 z1, zs = [z0; z1; mask].
Proof.
  intros HM. have Hl : length zs = 3%nat.
  { move: HM. rw /readMask Unmarshal_Marshal. cbn [mbind gores_bind]. rw /zlen length_fmap. case: Z.eqb_spec => // Hl _. lia. }
  destruct zs as [|z0 [|z1 [|z2 [|]]]]; [done..| |done]. exists z0, z1. rw readMask_pretty in HM. by injection HM as ->.
Qed.

(** Both provers read what their programs wrote. *)
Lemma read_valid dat raw public proof : proves dat raw public → readProof raw = Ret proof →
  (∀ publics, readPublics public = Ret publics → publics = circuit dat ∧ valid proof publics) ∧
  (∀ mask, readMask public = Ret mask → ∃ z0 z1, circuit dat = [z0; z1; mask] ∧ valid proof [z0; z1; mask]).
Proof.
  intros Hp Hr. destruct (proves_read _ _ _ _ Hp Hr) as [Hv ->]. split.
  - intros publics. rw readPublics_pretty. by intros [= <-].
  - intros mask (z0 & z1 & E)%readMask_circuit. exists z0, z1. by rw -E.
Qed.

Lemma go_run_valid {A} rnd (read : bytes → gores A) dat proof x : go_prove_with rnd read dat = Ret (proof, x) →
  ∃ raw public, proves dat raw public ∧ readProof raw = Ret proof ∧ read public = Ret x.
Proof using SL.
  rw /go_prove_with /ZKProverGo_prove. destruct (go_witness dat) as [w| |] eqn:Ew; [|done..]. cbn [mbind gores_bind].
  destruct (go_prove rnd w) as [[raw public]| |] eqn:Ep; [|done..]. cbn [mbind gores_bind].
  destruct (readProof raw) as [pr| |] eqn:Er; [|done..]. cbn [mbind gores_bind mret gores_ret].
  destruct (read public) as [y| |] eqn:Ey; [|done..]. intros [= <- <-]. exists raw, public. split_and!; [|done..].
  exact (go_complete rnd dat w raw public Ew Ep).
Qed.

Lemma files_run_valid `{BD : BuildDirs} {A} rnd (read : bytes → gores A) dir dat b proof x :
  (prove_with rnd (read_from read) dir dat b).1 = Ret (proof, x) →
  ∃ raw public, proves dat raw public ∧ readProof raw = Ret proof ∧ read public = Ret x.
Proof using SL.
  pose proof (prove_with_run rnd read dir dat b) as HR. destruct (prove_with rnd (read_from read) dir dat b) as [r b']. destruct HR as (_ & -> & _).
  cbn [fst]. destruct mkdir_err; [done|]. destruct write_err; [done|]. rw /js_pipeline.
  destruct (js_witness dat) as [w| |] eqn:Ew; [|done..]. cbn [mbind gores_bind].
  destruct (js_prove rnd w) as [[raw public]| |] eqn:Ep; [|done..]. cbn [mbind gores_bind].
  destruct (readProof raw) as [pr| |] eqn:Er; [|done..]. cbn [mbind gores_bind mret gores_ret].
  destruct (read public) as [y| |] eqn:Ey; [|done..]. intros [= <- <-]. exists raw, public. split_and!; [|done..].
  exact (js_complete rnd dat w raw public Ew Ep).
Qed.

Lemma snark_go_valid rnd : snark_valid (snark_go rnd).
Proof.
  constructor; intros input proof x (raw & public & H1 & H2 & H3)%go_run_valid; by apply (read_valid _ _ _ _ H1 H2).
Qed.

Lemma snark_files_valid `{BD : BuildDirs} rnd dir b : snark_valid (snark_files rnd dir b).
Proof.
  constructor; intros input proof x (raw & public & H1 & H2 & H3)%files_run_valid; by apply (read_valid _ _ _ _ H1 H2).
Qed.

(** Two provers that keep the promise give the same masks. *)
Lemma masks_agree `{KZ : Kzg} S1 S2 mode zk1 zk2 data keys idxs ms1 zks1 pes1 ms2 zks2 pes2 : snark_valid S1 → snark_valid S2 →
  GetStorageProof (SN := S1) mode zk1 data keys idxs = Ret (ms1, zks1, pes1) →
  GetStorageProof (SN := S2) mode zk2 data keys idxs = Ret (ms2, zks2, pes2) →
  ms1 = ms2 ∧ pes1 = pes2.
Proof using.
  intros [V1 W1] [V2 W2] (E1 & R1)%GetStorageProof_parts (E2 & R2)%GetStorageProof_parts. split; [|congruence].
  destruct R1 as [(-> & L1 & M1 & R1)|(-> & i1 & z1 & p1 & I1 & P1 & _ & _ & ->)], R2 as [(? & L2 & M2 & R2)|(? & i2 & z2 & p2 & I2 & P2 & _ & _ & ->)]; try done.
  - apply list_eq_same_length with (length keys); [done..|]. intros n x y Hn Hx Hy.
    destruct (lookup_lt_is_Some_2 keys n) as [key Hk]; [lia|].
    destruct (R1 n key Hk) as (j1 & a1 & m1 & J1 & _ & G1 & Q1). destruct (R2 n key Hk) as (j2 & a2 & m2 & J2 & _ & G2 & Q2).
    have Ej : j2 = j1 by congruence. subst j2. apply W1 in Q1 as (u0 & u1 & Q1 & _). apply W2 in Q2 as (v0 & v1 & Q2 & _).
    rw Q1 in Q2. injection Q2 as _ _ Em. congruence.
  - have Ei : i2 = i1 by congruence. subst i2. apply V1 in P1 as [-> _]. apply V2 in P2 as [-> _]. done.
Qed.

(** C37: the prover that runs node and snarkjs on files and the one in the process keep the same promise, each with
    whatever randomness and whatever an earlier run left in the build directories: a proof that is returned, as the
    contract takes it, verifies for the public values of the circuit, and the public values or the mask that are returned
    are these.  So, when both succeed, the combined prover gives the same masks and openings with either, while the zk
    proofs may differ.  A run on files leaves the directories of other runs alone however it ends, and when it succeeds
    removes its own. *)
Theorem provers_agree `{KZ : Kzg} `{BD : BuildDirs} rnd1 rnd2 dir b :
  snark_valid (snark_files rnd1 dir b) ∧ snark_valid (snark_go rnd2) ∧
  (∀ mode zk1 zk2 data keys idxs ms1 zks1 pes1 ms2 zks2 pes2,
     GetStorageProof (SN := snark_files rnd1 dir b) mode zk1 data keys idxs = Ret (ms1, zks1, pes1) →
     GetStorageProof (SN := snark_go rnd2) mode zk2 data keys idxs = Ret (ms2, zks2, pes2) →
     ms1 = ms2 ∧ pes1 = pes2) ∧
  (∀ rnd buildDir dat,
     (∀ d, d ≠ buildDir → (prove_with rnd readPublicsFrom buildDir dat b).2 !! d = b !! d ∧
                          (prove_with rnd readMaskFrom buildDir dat b).2 !! d = b !! d) ∧
     (∀ x, (prove_with rnd readPublicsFrom buildDir dat b).1 = Ret x →
           (prove_with rnd readPublicsFrom buildDir dat b).2 = delete buildDir b) ∧
     (∀ x, (prove_with rnd readMaskFrom buildDir dat b).1 = Ret x →
           (prove_with rnd readMaskFrom buildDir dat b).2 = delete buildDir b)).
Proof.
  split_and!; [apply snark_files_valid|apply snark_go_valid| |].
  - intros mode zk1 zk2 data keys idxs ms1 zks1 pes1 ms2 zks2 pes2. apply masks_agree; [apply snark_files_valid|apply snark_go_valid].
  - intros rnd buildDir dat. pose proof (prove_with_run rnd readPublics buildDir dat b) as R1.
    pose proof (prove_with_run rnd readMask buildDir dat b) as R2.
    have -> : readPublicsFrom = read_from readPublics by reflexivity. have -> : readMaskFrom = read_from readMask by reflexivity.
    destruct (prove_with rnd (read_from readPublics) buildDir dat b) as [r1 b1].
    destruct (prove_with rnd (read_from readMask) buildDir dat b) as [r2 b2]. cbn [fst snd].
    destruct R1 as (O1 & _ & D1), R2 as (O2 & _ & D2). split_and!; [|done|done]. intros d Hd. split; [by apply O1|by apply O2].
Qed.

End reading.

(** ** Points in JSON *)

Section json.
Context `{JL1 : JsonLaws (string * string)} `{JL2 : JsonLaws ((string * string) * (string * string))}.

Lemma G1Point_json x y p : G1Point_UnmarshalJSON (G1Point_MarshalJSON (mkG1Point (Some x) (Some y))) p = Ret (mkG1Point (Some x) (Some y)).
Proof.
  rw /G1Point_UnmarshalJSON /G1Point_MarshalJSON Unmarshal_Marshal /mbind /gores_bind. cbn [fst snd big_String g1_X g1_Y].
  by rw !SetString_pretty; [right|right|].
Qed.

(** [UnmarshalJSON] swaps the halves of a coordinate, [MarshalJSON] does not: a point that is written and read is another one. *)
Lemma G2Point_json_swaps x0 x1 y0 y1 p : length (g2_X p) = 2%nat → length (g2_Y p) = 2%nat →
  G2Point_UnmarshalJSON (G2Point_MarshalJSON (mkG2Point [Some x0; Some x1] [Some y0; Some y1])) p =
  Ret (mkG2Point [Some x1; Some x0] [Some y1; Some y0]).
Proof.
  have HS n : SetString (pretty n) 10 = Some n by apply SetString_pretty; right.
  destruct p as [[|? [|? [|? ?]]] [|? [|? [|? ?]]]]; intros [=] [=].
  rw /G2Point_UnmarshalJSON /G2Point_MarshalJSON Unmarshal_Marshal /mbind /gores_bind.
  rw /g2_get /read_pair. cbn [fst snd g2_X g2_Y lookup list_lookup default big_String]. by rw !HS.
Qed.

(** A point whose first text is no number is read without an error. *)
Lemma G1Point_json_unchecked x y p : SetString x 10 = None →
  G1Point_UnmarshalJSON (Marshal (x, y)) p = Ret (mkG1Point None (g1_Y p)).
Proof. intros Hx. by rw /G1Point_UnmarshalJSON Unmarshal_Marshal /mbind /gores_bind /= Hx. Qed.

End json.

(** Three numbers in a coordinate of the second point stop the program. *)
Lemma toG2Point_panics s0 s1 s2 x0 x1 x2 l : SetString s0 10 = Some x0 → SetString s1 10 = Some x1 → SetString s2 10 = Some x2 →
  toG2Point ([s0; s1; s2] :: l) = Panic OutOfRange.
Proof.
  intros H1 H2 H3. have HF : foldM (g2_coordinate 0) g2_nil (with_index [s0; s1; s2]) = Panic OutOfRange.
  { cbv -[SetString]. by rw H1 H2 H3. }
  rw /toG2Point {2}/with_index seqZ_cons; [rw /zlen /=; lia|].
  change (zip (0 :: ?a) (?b :: ?c)) with ((0, b) :: zip a c). rw foldM_cons. cbn beta iota. by rw HF.
Qed.

(** ** Examples: any injective code stands for JSON. *)

Definition toy_json (A : Type) `{Countable A} : Json A := {|
  Marshal x := [Zpos (encode x)];
  Unmarshal b := match b with
                 | [Zpos n] => match decode n with Some x => Ret x | None => Fail EOF end
                 | _ => Fail EOF
                 end |}.

Lemma toy_json_laws (A : Type) `{Countable A} : @JsonLaws A (toy_json A).
Proof. constructor. intros x. cbn. by rw decode_encode. Qed.

#[local] Instance ProofData_eq_dec : EqDecision ProofData.
Proof. solve_decision. Defined.
#[local] Instance ProofData_countable : Countable ProofData :=
  inj_countable' (λ p, (pi_A p, pi_B p, pi_C p)) (λ '(a, b, c), mkProofData a b c) ltac:(by intros []).
#[local] Instance InputPair_eq_dec : EqDecision InputPair.
Proof. solve_decision. Defined.
#[local] Instance InputPair_countable : Countable InputPair :=
  inj_countable' (λ p, (EncodingKeyIn p, XIn p)) (λ '(a, b), mkInputPair a b) ltac:(by intros []).
#[local] Instance InputPairV2_eq_dec : EqDecision InputPairV2.
Proof. solve_decision. Defined.
#[local] Instance InputPairV2_countable : Countable InputPairV2 :=
  inj_countable' (λ p, (EncodingKeysIn p, XsIn p)) (λ '(a, b), mkInputPairV2 a b) ltac:(by intros []).

#[local] Instance toy_abi : ProofAbi := {|
  pack_proof a b c := Ret ((a ++ concat b ++ c) ≫= λ x, word (default 0 x)) |}.

Lemma toy_abi_laws : ProofAbiLaws toy_abi.
Proof. by constructor. Qed.

(** What snarkjs writes for the points (1, 2), ((3, 4), (5, 6)), (7, 8). *)
Definition toy_proof : ProofData :=
  mkProofData (pretty <$> [1; 2; 1]) [pretty <$> [3; 4]; pretty <$> [5; 6]; pretty <$> [1; 0]] (pretty <$> [7; 8; 1]).

#[local] Instance json_proof : Json ProofData := toy_json ProofData.
#[local] Instance json_texts : Json (list string) := toy_json (list string).
#[local] Instance json_input : Json InputPair := toy_json InputPair.
#[local] Instance json_inputs : Json InputPairV2 := toy_json InputPairV2.

Lemma toy_proof_words :
  readProof (Marshal toy_proof) = Ret ([1; 2; 4; 3; 6; 5; 7; 8] ≫= word).
Proof.
  pose proof toy_abi_laws. pose proof (toy_json_laws ProofData).
  apply (readProof_words 1 2 3 4 5 6 7 8 [pretty 1] [pretty <$> [1; 0]] [pretty 1]). repeat (constructor; [lia|]). constructor.
Defined.

(** A blinded toy: the coordinates depend on the randomness, and a proof is checked by one of them. *)
Definition toy_proof_of (rnd : Z) : ProofData :=
  mkProofData (pretty <$> [1; rnd; 1]) [pretty <$> [3; 4]; pretty <$> [5; 6]; pretty <$> [1; 0]] (pretty <$> [7; 8; 1]).

#[local] Instance toy_programs : SnarkPrograms := {|
  js_witness := Ret;
  js_prove rnd w := Ret (Marshal (toy_proof_of (Z.of_nat rnd mod 100)), Marshal (pretty <$> [11; 12; zlen w]));
  go_witness dat := Ret (0 :: dat);
  go_prove rnd w := Ret (Marshal (toy_proof_of (Z.of_nat rnd mod 100)), Marshal (pretty <$> [11; 12; zlen w - 1])) |}.
#[local] Instance toy_dirs : BuildDirs := {| mkdir_err := None; write_err := None |}.
#[local] Instance toy_circuit : Circuit := {|
  circuit dat := [11; 12; zlen dat];
  verifies p zs := ∃ rnd, p = toy_proof_of rnd |}.

Lemma toy_packs rnd : 0 ≤ rnd < 2 ^ 256 → packs (toy_proof_of rnd) ([1; rnd; 4; 3; 6; 5; 7; 8] ≫= word).
Proof.
  intros Hr. exists 1, rnd, 3, 4, 5, 6, 7, 8, [pretty 1], [pretty <$> [1; 0]], [pretty 1].
  split_and!; [|done|done]. repeat (constructor; [lia|]). constructor.
Qed.

Lemma toy_proves (rnd : nat) dat : proves dat (Marshal (toy_proof_of (Z.of_nat rnd mod 100))) (Marshal (pretty <$> [11; 12; zlen dat])).
Proof.
  have Hm := Z.mod_pos_bound (Z.of_nat rnd) 100 ltac:(done). eexists _, _. split_and!; [done|apply toy_packs; lia|by eexists|done].
Qed.

Lemma toy_laws : SnarkLaws.
Proof.
  constructor; intros rnd dat w raw public.
  - intros [= <-] [= <- <-]. apply toy_proves.
  - intros [= <-] [= <- <-]. have -> : zlen (0 :: dat) - 1 = zlen dat by rw /zlen /=; lia. apply toy_proves.
Qed.

Definition stale_builds : builds := {[ "d" := {[ publicName := [0] ]}; "other" := ∅ ]}.

Lemma provers_agree_witness :
  let input := mkInputPair "0x" "1" in
  (∃ proof, prove_sample (Snark := snark_files (λ _, 5%nat) (λ _, "d"%string) stale_builds) input = Ret (proof, 1) ∧ valid proof [11; 12; 1]) ∧
  (∃ proof, prove_sample (Snark := snark_go (λ _, 6%nat)) input = Ret (proof, 1) ∧ valid proof [11; 12; 1]) ∧
  (prove_with 5 readMaskFrom "d" (Marshal input) stale_builds).2 = {["other" := ∅]}.
Proof.
  pose proof toy_laws. pose proof toy_abi_laws. pose proof (toy_json_laws ProofData). pose proof (toy_json_laws (list string)).
  destruct (provers_agree (BD := toy_dirs) (KZ := toy_kzg) (λ _, 5%nat) (λ _, 6%nat) (λ _, "d"%string) stale_builds) as (V1 & V2 & _ & H4).
  have E1 : prove_sample (Snark := snark_files (λ _, 5%nat) (λ _, "d"%string) stale_builds) (mkInputPair "0x" "1") =
    Ret ([1; 5; 4; 3; 6; 5; 7; 8] ≫= word, 1) by vm_compute.
  have E2 : prove_sample (Snark := snark_go (λ _, 6%nat)) (mkInputPair "0x" "1") = Ret ([1; 6; 4; 3; 6; 5; 7; 8] ≫= word, 1) by vm_compute.
  split_and!.
  - eexists. split; [exact E1|]. destruct (sv_sample _ V1 _ _ _ E1) as (z0 & z1 & Hc & Hv). injection Hc as <- <-. exact Hv.
  - eexists. split; [exact E2|]. destruct (sv_sample _ V2 _ _ _ E2) as (z0 & z1 & Hc & Hv). injection Hc as <- <-. exact Hv.
  - destruct (H4 5%nat "d"%string (Marshal (mkInputPair "0x" "1"))) as (_ & _ & H5). rw (H5 _ E1). by vm_compute.
Defined.
