(* ===== verification/PeerNet.v ===== *)
(** * Peers (ethstorage/p2p: discovery.go, node.go, peer_gater.go, peer_scorer.go; p2p/protocol: types.go, utils.go, syncserver.go)

    Which nodes are peers: the filter of discovered records, the exchange of shard lists when a connection is made, the
    handlers that register peers with the sync client, and the blocking of peers by their gossip score.  libp2p, the
    discovery protocol and RLP are parameters.  A score is an IEEE double. *)

From Stdlib Require Import SpecFloat.
From S2P Require Import Prelude GoStrings Extern EthashSizes Ethash DataFile ChunkCodec DataShard ShardManager StorageManager.
From S2P Require Import SyncTask SyncClient SyncWire ShardConfig.

(** ** Shard lists *)

Record ContractShards := mkContractShards { cs_Contract : bytes; cs_ShardIds : list Z }.

Record EthStorageENRData := mkENRData { ChainID : Z; Version : Z; enr_Shards : list ContractShards }.

(** In the order of [map_to_list]. *)
Definition ConvertToContractShards (shards : gmap bytes (list Z)) : list ContractShards :=
  (λ '(contract, shardIds), mkContractShards contract shardIds) <$> map_to_list shards.

(** A later entry of a contract replaces an earlier one. *)
Definition ConvertToShardList (css : list ContractShards) : gmap bytes (list Z) :=
  foldl (λ shards cs, <[cs_Contract cs := cs_ShardIds cs]> shards) ∅ css.

(** ** Discovery *)

Definition p2pVersion : Z := 0.

(** [dat] is what the record of the node holds under the key of the program, [None] when that cannot be read;
    [shards] are the node's own. *)
Definition FilterEnodes (chainID : Z) (shards : gmap bytes (list Z)) (dat : option EthStorageENRData) : bool :=
  match dat with
  | None => false
  | Some dat =>
      if negb (chainID =? ChainID dat) then false
      else if negb (Version dat =? p2pVersion) then false
      else
        existsb (λ cs,
          match shards !! cs_Contract cs with
          | None => false
          | Some ss => existsb (λ sid, bool_decide (sid ∈ cs_ShardIds cs)) ss
          end) (enr_Shards dat)
  end.

(** ** Connections *)

Section connections.
Context {S : Type} `{SyncStorage S} `{SN : Snappy} `{RB : RLP bytes} `{RC : RLP (list ContractShards)}.

(** The serving side does not read the request. *)
Definition HandleRequestShardList (room : option Z) (shards : gmap bytes (list Z)) : bytes :=
  match EncodeToBytes (ConvertToContractShards shards) with
  | Ret bs => (WriteMsg room (mkMsg 0 bs)).1
  | _ => (WriteMsg room (mkMsg returnCodeServerError [])).1
  end.

(** [newStream] is the error of opening the stream. *)
Definition RequestShardList (newStream : option error) (room : option Z) (closeRead : option error) (net : bytes → bytes)
    : gores (list ContractShards) :=
  match newStream with
  | Some e => Fail e
  | None =>
      let '(code, r) := SendRPC (Q := bytes) (R := list ContractShards) room closeRead net [] in
      remoteShardList ← r;
      if negb (code =? 0) then Fail (ErrMsg "request shard list fail") else mret remoteShardList
  end.

(** The host's store of the shards of peers, the peers with known addresses, and whether a connection was closed. *)
Record peerstore := mkPeerstore { ps_shards : gmap Z (list ContractShards); ps_addrs : gset Z }.

(** [request] is the outcome of [RequestShardList]; the last result tells whether the connection is closed. *)
Definition ConnectedF (remotePeerId : Z) (request : gores (list ContractShards)) (ps : peerstore) (c : SyncClient S)
    : gores (peerstore * SyncClient S * bool) :=
  let add ps shards :=
    let '(added, c) := AddPeer remotePeerId (Some shards) c in
    Ret (ps, c, negb added) in
  match ps_shards ps !! remotePeerId with
  | Some css => add ps (ConvertToShardList css)
  | None =>
      match request with
      | Panic p => Panic p
      | Fail _ => if bool_decide (remotePeerId ∈ ps_addrs ps) then Ret (ps, c, true) else Ret (ps, c, false)
      | Ret remoteShardList =>
          add (mkPeerstore (<[remotePeerId := remoteShardList]> (ps_shards ps)) (ps_addrs ps)) (ConvertToShardList remoteShardList)
      end
  end.

Definition DisconnectedF (remotePeerId : Z) (ps : peerstore) (c : SyncClient S) : SyncClient S :=
  if bool_decide (remotePeerId ∈ ps_addrs ps) then (RemovePeer remotePeerId c).2 else c.

(** The connections to close: those of peers without an address. *)
Definition PurgeBadPeers (ps : peerstore) (peers : list Z) : list Z := filter (λ p, p ∉ ps_addrs ps) peers.

End connections.

(** ** Scores *)

Definition float64 := spec_float.

(** [-100], as a double. *)
Definition PeerScoreThreshold : float64 := S754_finite true 7036874417766400 (-46).

(** [conn_blocked] are the peers that libp2p's connection gater refuses. *)
Record gater := mkGater { blockedMap : gmap Z bool; banEnabled : bool; conn_blocked : gset Z }.

Definition NewPeerGater (banEnabled : bool) : gater := mkGater ∅ banEnabled ∅.

Definition IsBlocked (g : gater) (id : Z) : bool := default false (blockedMap g !! id).

Definition setBlocked (id : Z) (blocked : bool) (g : gater) : gater :=
  mkGater (<[id := blocked]> (blockedMap g)) (banEnabled g) (conn_blocked g).

(** The calls of the connection gater, with their errors. *)
Definition BlockPeer (err : option error) (id : Z) (g : gater) : gater :=
  match err with None => mkGater (blockedMap g) (banEnabled g) ({[id]} ∪ conn_blocked g) | Some _ => g end.
Definition UnblockPeer (err : option error) (id : Z) (g : gater) : gater :=
  match err with None => mkGater (blockedMap g) (banEnabled g) (conn_blocked g ∖ {[id]}) | Some _ => g end.

Definition Update (err : option error) (id : Z) (score : float64) (g : gater) : gater :=
  let isAlreadyBlocked := IsBlocked g id in
  let g := if SFltb score PeerScoreThreshold && banEnabled g && negb isAlreadyBlocked
           then setBlocked id true (BlockPeer err id g) else g in
  if SFltb PeerScoreThreshold score && isAlreadyBlocked
  then setBlocked id false (UnblockPeer err id g) else g.

Record scorePair := mkScorePair { band : string; threshold : float64 }.

(** [strings.Split(s, sep)] for a separator of one character. *)
Fixpoint split_on (sep : Z) (s : string) : list string :=
  match s with
  | EmptyString => [EmptyString]
  | String c s' =>
      if code c =? sep then EmptyString :: split_on sep s'
      else match split_on sep s' with
           | [] => [String c EmptyString]
           | w :: ws => String c w :: ws
           end
  end.

(** [ParseFloat] is [strconv.ParseFloat(s, 64)] and [sort_bands] is [sort.Slice] with the order of the thresholds. *)
Definition NewBandScorer (ParseFloat : string → option float64) (sort_bands : list scorePair → list scorePair) (str : string)
    : gores (list scorePair) :=
  bands ← foldM (λ bands part,
      let part := TrimSpace part in
      if bool_decide (part = "") then mret bands
      else
        match split_on 58 part with
        | [t; b] => match ParseFloat t with
                    | Some threshold => mret (bands ++ [mkScorePair b threshold])
                    | None => Fail (ErrMsg "strconv.ParseFloat: parsing")
                    end
        | _ => Fail (ErrMsg "invalid score band")
        end) [] (split_on 59 str);
  mret (sort_bands bands).

Fixpoint Bucket_in (score : float64) (bands : list scorePair) : option string :=
  match bands with
  | [] => None
  | p :: bands => if SFleb score (threshold p) then Some (band p) else Bucket_in score bands
  end.

Definition Bucket (bands : list scorePair) (score : float64) : string :=
  match Bucket_in score bands with
  | Some b => b
  | None => from_option band ""%string (last bands)
  end.

(** [m] are the scores of the peers in the order of the visit, [err] the errors of the connection gater. *)
Definition SnapshotHook (bands : list scorePair) (err : Z → option error) (m : list (Z * float64)) (g : gater) : gmap string Z * gater :=
  let zeroed := foldl (λ (s : gmap string Z) b, <[band b := 0]> s) ∅ bands in
  foldl (λ '(scoreMap, g) '(id, score),
    let b := Bucket bands score in
    (<[b := default 0 (scoreMap !! b) + 1]> scoreMap, Update (err id) id score g)) (zeroed, g) m.

(** ** Facts *)

(** A record is accepted exactly when it can be read, is of the same chain and version and shares a shard of a contract. *)
Lemma FilterEnodes_iff chainID shards dat :
  FilterEnodes chainID shards dat = true ↔
  ∃ d cs ss sid, dat = Some d ∧ ChainID d = chainID ∧ Version d = p2pVersion ∧ cs ∈ enr_Shards d ∧
    shards !! cs_Contract cs = Some ss ∧ sid ∈ ss ∧ sid ∈ cs_ShardIds cs.
Proof.
  rw /FilterEnodes. destruct dat as [d|]; [|split; [done|by intros (? & ? & ? & ? & ? & _)]].
  case: Z.eqb_spec => E1; cbn [negb]; [|split; [done|intros (? & ? & ? & ? & [= <-] & ? & _); congruence]].
  case: Z.eqb_spec => E2; cbn [negb]; [|split; [done|by intros (? & ? & ? & ? & [= <-] & _ & ? & _)]].
  rw existsb_exists. split.
  - intros (cs & Hcs%list_elem_of_In & Hs). destruct (shards !! cs_Contract cs) as [ss|] eqn:Es; [|done].
    apply existsb_exists in Hs as (sid & Hsid%list_elem_of_In & Hb%bool_decide_eq_true). by exists d, cs, ss, sid.
  - intros (? & cs & ss & sid & [= <-] & _ & _ & Hcs & Es & H1 & H2). exists cs. split; [by apply list_elem_of_In|]. rw Es.
    apply existsb_exists. exists sid. split; [by apply list_elem_of_In|]. by apply bool_decide_eq_true.
Qed.

Lemma ConvertToShardList_insert l m : NoDup l.*1 → (∀ k v, (k, v) ∈ l → m !! k = None) →
  foldl (λ shards cs, <[cs_Contract cs := cs_ShardIds cs]> shards) m ((λ '(k, v), mkContractShards k v) <$> l) =
  (list_to_map l ∪ m : gmap bytes (list Z)).
Proof.
  revert m. induction l as [|[k v] l IH]; intros m Hnd Hm; [by rw /= left_id_L|]. cbn in *. apply NoDup_cons in Hnd as [Hk Hnd].
  rw IH //.
  - intros k' v' Hin. rw lookup_insert_ne; [|by apply (Hm k' v'), list_elem_of_further].
    intros ->. apply Hk. by apply list_elem_of_fmap_2 with (f := fst) in Hin.
  - rw -insert_union_r; [by apply not_elem_of_list_to_map_1|]. by rw insert_union_l.
Qed.

(** The list of a map gives the map back. *)
Lemma ConvertToShardList_convert m : ConvertToShardList (ConvertToContractShards m) = m.
Proof.
  rw /ConvertToShardList /ConvertToContractShards ConvertToShardList_insert; [apply NoDup_fst_map_to_list|intros; apply lookup_empty|].
  by rw list_to_map_to_list right_id_L.
Qed.

Section exchange.
Context `{SN : Snappy} `{!SnappyLaws SN} `{RB : RLP bytes} `{!RLPLaws bytes} `{RC : RLP (list ContractShards)} `{!RLPLaws (list ContractShards)}.

(** A node that asks another for its shard list gets the shards of every contract of the other node, whatever it
    sends: over the wire format and the two conversions the map of the shards is the same on both sides. *)
Theorem shard_list_exchange (shards : gmap bytes (list Z)) bs :
  EncodeToBytes (ConvertToContractShards shards) = Ret bs → zlen bs + 4 ≤ maxGossipSize →
  ∃ css, RequestShardList None None None (λ _, HandleRequestShardList None shards) = Ret css ∧ ConvertToShardList css = shards.
Proof.
  intros Hb Hl. destruct (DecodeBytes_EncodeToBytes (ConvertToContractShards shards)) as (bs' & Hb' & Hd). have E : bs' = bs by congruence. subst bs'.
  destruct (DecodeBytes_EncodeToBytes ([] : bytes)) as (req & Hr & _). exists (ConvertToContractShards shards). split; [|apply ConvertToShardList_convert].
  rw /RequestShardList /SendRPC Hr /HandleRequestShardList Hb. cbn [WriteMsg].
  have HR := ReadMsg_whole (mkMsg 0 bs). cbn [ReturnCode Payload] in HR. change (0 =? 0) with true in HR. cbv iota in HR.
  rw HR; [done|rw /maxGossipSize in Hl; lia|]. rw (proj2 (Z.leb_le _ _) Hl). cbn [mbind gores_bind]. by rw Hd.
Qed.

End exchange.

(** ** The blocked peers *)

Definition updates (l : list (Z * float64)) (g : gater) : gater := foldl (λ g '(id, score), Update None id score g) g l.

Definition gater_agrees (g : gater) : Prop :=
  (∀ id, IsBlocked g id = bool_decide (id ∈ conn_blocked g)) ∧ (banEnabled g = false → conn_blocked g = ∅).

Lemma IsBlocked_set id id' b g : IsBlocked (setBlocked id b g) id' = if bool_decide (id = id') then b else IsBlocked g id'.
Proof.
  rw /IsBlocked /setBlocked /=. case_bool_decide as E; [subst; by rw lookup_insert_eq|by rw lookup_insert_ne].
Qed.

Lemma Update_agrees id score g : gater_agrees g → gater_agrees (Update None id score g) ∧ banEnabled (Update None id score g) = banEnabled g.
Proof.
  intros [Ha Hb]. rw /Update. destruct (IsBlocked g id) eqn:Ei.
  - rw andb_false_r andb_true_r. destruct (SFltb PeerScoreThreshold score); [|done]. split; [|done]. split; cbn.
    + intros j. rw IsBlocked_set. case_bool_decide as E; [subst; rw bool_decide_false //; set_solver|]. rw /IsBlocked /=. rw -/(IsBlocked g j) Ha.
      apply bool_decide_ext. set_solver.
    + intros Hban. rw Hb //. set_solver.
  - rw andb_true_r andb_false_r. destruct (SFltb score PeerScoreThreshold); [|done]. destruct (banEnabled g) eqn:Eb; [|split; [split; [exact Ha|intros _; by apply Hb]|exact Eb]]. cbn [andb].
    split; [|exact Eb]. split; [|by rw /= Eb]. intros j. rw IsBlocked_set. case_bool_decide as E; [subst; rw bool_decide_true //; set_solver|].
    rw /IsBlocked /=. rw -/(IsBlocked g j) Ha. apply bool_decide_ext. set_solver.
Qed.

(** After any sequence of scores, when the calls of the connection gater succeed, the gater counts as blocked exactly the
    peers whose connections are refused, and none when blocking is not enabled. *)
Theorem gater_consistent ban l : gater_agrees (updates l (NewPeerGater ban)).
Proof.
  have H0 : gater_agrees (NewPeerGater ban).
  { split; [|done]. intros id. by rw /IsBlocked /= lookup_empty bool_decide_false. }
  rw /updates. revert H0. generalize (NewPeerGater ban) as g. induction l as [|[id score] l IH]; intros g Hg; [done|]. cbn.
  by apply IH, Update_agrees.
Qed.

(** A peer whose blocking failed counts as blocked, so the call is not tried again while its score stays low. *)
Lemma failed_block_kept e id score l : SFltb score PeerScoreThreshold = true → SFltb PeerScoreThreshold score = false →
  Forall (λ x, x.1 = id ∧ SFltb PeerScoreThreshold x.2 = false) l →
  let g := updates l (Update (Some e) id score (NewPeerGater true)) in IsBlocked g id = true ∧ id ∉ conn_blocked g.
Proof.
  intros Hs Hn Hl. cbv zeta. have -> : Update (Some e) id score (NewPeerGater true) = setBlocked id true (NewPeerGater true).
  { rw /Update. cbn [IsBlocked NewPeerGater]. rw Hs Hn. done. }
  have [Hb Hc] : IsBlocked (setBlocked id true (NewPeerGater true)) id = true ∧ id ∉ conn_blocked (setBlocked id true (NewPeerGater true)).
  { by rw IsBlocked_set bool_decide_true. }
  revert Hb Hc. generalize (setBlocked id true (NewPeerGater true)) as g. induction Hl as [|[i sc] l [Ei Hsc] _ IH]; intros g Hb Hc; [done|].
  cbn in Ei. subst i. cbn [updates foldl]. apply IH; rw /Update Hb Hsc andb_false_r //.
Qed.

(** ** Examples *)

#[local] Instance ContractShards_eq_dec : EqDecision ContractShards.
Proof. solve_decision. Defined.

#[local] Instance ContractShards_countable : Countable ContractShards :=
  inj_countable' (λ c, (cs_Contract c, cs_ShardIds c)) (λ x, mkContractShards x.1 x.2) (λ c, match c with mkContractShards a b => eq_refl end).

#[local] Instance ex_rlp_bytes : RLP bytes := toy_rlp bytes.
#[local] Instance ex_rlp_shards : RLP (list ContractShards) := toy_rlp (list ContractShards).
#[local] Instance ex_rlp_bytes_laws : RLPLaws bytes := toy_rlp_laws bytes.
#[local] Instance ex_rlp_shards_laws : RLPLaws (list ContractShards) := toy_rlp_laws (list ContractShards).

Definition ex_shards : gmap bytes (list Z) := <[[1] := [0; 2]]> {[[2] := [5]]}.

Lemma shard_list_exchange_witness :
  ∃ css, RequestShardList None None None (λ _, HandleRequestShardList None ex_shards) = Ret css ∧ ConvertToShardList css = ex_shards.
Proof. eapply (shard_list_exchange ex_shards); [reflexivity|by vm_compute]. Defined.
