(* ===== verification/NodeLife.v ===== *)
(** * The life of a node (ethstorage/node/node.go, with [Start] and [Close] of the parts)

    [New] opens the parts of the node one after another and closes them again when one fails, [Start] starts them and
    [Close] closes them.  The model has which parts exist, whether the event loop of the downloader runs, and the order
    of what was done; what a part does while it runs is modelled with the part.  The errors of the parts are arguments. *)

From S2P Require Import Prelude GoStrings L1Client Downloader.

(** ** Parts, events and outcomes *)

(** The fields of [EsNode], and the goroutines that have no field. *)
Inductive part :=
| L1Source | DAClient | L1Beacon | RandaoSource | Database | StorageMgr | P2PNode | BlobCacheDir | DownloaderPart | MinerPart
| RPCServer | ArchiverAPI | ScannerPart | L1HeadsSub | RandaoHeadsSub | L1SafeSub | L1FinalizedSub
| DiscoveryProcess | MetricsServer | StateUpload.

#[export] Instance part_eq_dec : EqDecision part.
Proof. solve_decision. Defined.

Inductive event := Opened (p : part) | Started (p : part) | Closed (p : part) | Cancelled.

#[export] Instance event_eq_dec : EqDecision event.
Proof. solve_decision. Defined.

(** A call returns, returns an error, ends the process ([lg.Crit]) or waits forever. *)
Inductive outcome (A : Type) := Returns (a : A) | Errs (e : error) | Exits | Waits.
Arguments Returns {A} a.
Arguments Errs {A} e.
Arguments Exits {A}.
Arguments Waits {A}.

(** The event loop of the downloader is a goroutine that [Downloader.Start] starts and [Downloader.Close] stops. *)
Record EsNode := mkNode { n_parts : list part; n_dlLoop : bool; n_events : list event }.

Definition op (A : Type) : Type := EsNode → outcome A * EsNode.

#[export] Instance op_ret : MRet op := λ A a n, (Returns a, n).
#[export] Instance op_bind : MBind op := λ A B f m n,
  match m n with
  | (Returns a, n) => f a n
  | (Errs e, n) => (Errs e, n)
  | (Exits, n) => (Exits, n)
  | (Waits, n) => (Waits, n)
  end.

Definition has (p : part) (n : EsNode) : bool := bool_decide (p ∈ n_parts n).

(** [n.field = value] *)
Definition opened (p : part) : op unit := λ n, (Returns tt, mkNode (n_parts n ++ [p]) (n_dlLoop n) (n_events n ++ [Opened p])).
Definition did (e : event) : op unit := λ n, (Returns tt, mkNode (n_parts n) (n_dlLoop n) (n_events n ++ [e])).
Definition set_loop (b : bool) : op unit := λ n, (Returns tt, mkNode (n_parts n) b (n_events n)).
Definition err (e : error) : op unit := λ n, (Errs e, n).

(** [if n.field != nil { ... }] *)
Definition if_has (p : part) (m : op unit) : op unit := λ n, if has p n then m n else (Returns tt, n).

Definition try_open (e : option error) (p : part) : op unit := match e with Some e => err e | None => opened p end.

(** ** Configuration *)

(** [DataDir] empty stands for a database in memory; the interfaces and pointers of the source are flags that tell
    whether they are set. *)
Record Config := mkConfig {
  L1URL : string; DAURL : string; L1BeaconURL : string; RandaoSourceURL : string; DataDir : string; StateUploadURL : string;
  MetricsEnabled : bool; MetricsPort : Z; has_P2P : bool; has_Mining : bool; has_Archiver : bool; has_Scanner : bool }.

(** The results of the calls of other packages, in the order of the calls; [p2p_node] tells whether [NewNodeP2P] returned a
    node and [p2p_udp] whether that has discovery; [e_p2pClose] and [e_cacheClose] are errors at closing.
    [poller_free p] tells whether, when the node is closed, the poller of client [p] is not in the state that
    [poller_deadlock] of HeadPolling.v shows it cannot leave. *)
Record Env := mkEnv {
  e_pprof : option error; e_p2pCheck : option error;
  e_dial : option error; e_beacon : option error; e_randao : option error; e_leveldb : option error; e_storage : option error;
  e_p2p : option error; p2p_node : bool; p2p_udp : bool; e_role : option error; e_server : option error; e_archiver : option error;
  e_downloader : option error; e_p2pStart : option error; e_p2pClose : option error; e_cacheClose : option error;
  poller_free : part → bool }.

Section node.
Context (cfg : Config) (env : Env).

Definition MetricsConfig_Check : gores unit :=
  if negb (MetricsEnabled cfg) then mret tt
  else if (MetricsPort cfg <? 0) || (65535 <? MetricsPort cfg) then Fail (ErrMsg "invalid metrics port") else mret tt.

Definition Config_Check : gores unit :=
  match MetricsConfig_Check with
  | Fail e => Fail (ErrWrap "metrics config error" e)
  | _ =>
      match e_pprof env with
      | Some e => Fail (ErrWrap "pprof config error" e)
      | None =>
          if has_P2P cfg then match e_p2pCheck env with Some e => Fail (ErrWrap "p2p config error" e) | None => mret tt end
          else mret tt
      end
  end.

(** ** [init] *)

Definition wrap_err (msg : string) (e : option error) : option error := ErrWrap msg <$> e.

Definition initL1 : op unit :=
  _ ← try_open (wrap_err "failed to create L1 source" (e_dial env)) L1Source;
  _ ← (if negb (bool_decide (DAURL cfg = "")) then opened DAClient
       else if negb (bool_decide (L1BeaconURL cfg = "")) then try_open (wrap_err "failed to create L1 beacon source" (e_beacon env)) L1Beacon
       else err (ErrMsg "no L1 beacon or DA URL provided"));
  if negb (bool_decide (RandaoSourceURL cfg = "")) then try_open (wrap_err "failed to create randao source" (e_randao env)) RandaoSource
  else mret tt.

Definition initDatabase : op unit :=
  if bool_decide (DataDir cfg = "") then opened Database else try_open (e_leveldb env) Database.

(** [e_storage] is the error of [StartUp.initStorageManager]. *)
Definition initStorage : op unit := try_open (e_storage env) StorageMgr.

Definition initP2P : op unit :=
  if has_P2P cfg then
    match e_p2p env with
    | Some e => err e
    | None =>
        if p2p_node env then
          _ ← opened P2PNode;
          if p2p_udp env then did (Started DiscoveryProcess) else mret tt
        else mret tt
    end
  else mret tt.

Definition initL2 : op unit :=
  _ ← opened BlobCacheDir;
  opened DownloaderPart.

Definition initMiner : op unit :=
  if has_Mining cfg then
    match e_role env with
    | Some _ => λ n, (Exits, n)
    | None => opened MinerPart
    end
  else mret tt.

Definition initRPCServer : op unit := try_open (wrap_err "unable to start RPC server" (e_server env)) RPCServer.

Definition initMetricsServer : op unit := if MetricsEnabled cfg then did (Started MetricsServer) else mret tt.

(** The field is set before the server is started. *)
Definition initArchiver : op unit :=
  if has_Archiver cfg then
    _ ← opened ArchiverAPI;
    match e_archiver env with Some e => err (ErrWrap "unable to start blob archiver API server" e) | None => mret tt end
  else mret tt.

Definition init : op unit :=
  _ ← initL1; _ ← initDatabase; _ ← initStorage; _ ← initP2P; _ ← initL2; _ ← initMiner;
  _ ← initRPCServer; _ ← initMetricsServer; initArchiver.

(** ** [Close] *)

(** [s.done <- struct{}{}] on a channel without a buffer, then [s.wg.Wait()]: the event loop is the only receiver. *)
Definition Downloader_Close : op unit := λ n,
  if n_dlLoop n then (_ ← did (Closed DownloaderPart); set_loop false) n else (Waits, n).

Definition close_of (p : part) : op unit := if_has p (did (Closed p)).

(** A close that waits forever unless [ok]. *)
Definition close_when (ok : bool) (p : part) : op unit := if_has p (if ok then did (Closed p) else λ n, (Waits, n)).

(** [httpRegex], "^http(s)?://"; both clients poll the L1 node. *)
Definition isHTTP : bool := String.prefix "http://" (L1URL cfg) || String.prefix "https://" (L1URL cfg).

(** [Unsubscribe] waits for the forwarder of the subscription, which takes the lock of the client. *)
Definition Unsubscribe (p src : part) : op unit := close_when (negb isHTTP || poller_free env src) p.

(** [w.cancel(); <-w.closedCh; w.Client.Close()]: the channel is closed at the end of [pollHeads], which only runs over HTTP. *)
Definition PollingClient_Close (p : part) : op unit := close_when (isHTTP && poller_free env p) p.

(** The miner follows the heads of the randao source, or of the L1 node without one. *)
Definition randao_src (n : EsNode) : part := if has RandaoSource n then RandaoSource else L1Source.

(** The error is appended to the result: closing goes on. *)
Definition close_with (p : part) (e : option error) (msg : string) : op (list error) := λ n,
  if has p n then (_ ← did (Closed p); mret (match e with Some e => [ErrWrap msg e] | None => [] end)) n else (Returns [], n).

Definition Close : op (list error) :=
  _ ← close_of RPCServer;
  es1 ← close_with P2PNode (e_p2pClose env) "failed to close p2p node";
  _ ← if_has DownloaderPart Downloader_Close;
  _ ← did Cancelled;
  _ ← Unsubscribe L1HeadsSub L1Source;
  _ ← (λ n, Unsubscribe RandaoHeadsSub (randao_src n) n);
  _ ← close_of MinerPart;
  es2 ← close_with BlobCacheDir (e_cacheClose env) "failed to close blob cache";
  _ ← close_of ArchiverAPI;
  _ ← close_of ScannerPart;
  _ ← PollingClient_Close L1Source;
  _ ← PollingClient_Close RandaoSource;
  _ ← close_of StorageMgr;
  mret (es1 ++ es2).

(** ** [New] *)

Definition node_0 : EsNode := mkNode [] false [].

(** The node, or the errors that are returned: that of [init] first, then those of closing. *)
Definition New : outcome (EsNode + list error) * EsNode :=
  match Config_Check with
  | Fail e => (Returns (inr [e]), node_0)
  | Panic _ => (Exits, node_0)
  | Ret _ =>
      match init node_0 with
      | (Returns _, n) => (Returns (inl n), n)
      | (Errs e, n) =>
          match Close n with
          | (Returns es, n) => (Returns (inr (e :: es)), n)
          | (Errs e, n) => (Errs e, n)
          | (Exits, n) => (Exits, n)
          | (Waits, n) => (Waits, n)
          end
      | (Exits, n) => (Exits, n)
      | (Waits, n) => (Waits, n)
      end
  end.

(** ** [Start] *)

Definition startL1 : op unit :=
  _ ← opened L1HeadsSub;
  _ ← if_has MinerPart (opened RandaoHeadsSub);
  _ ← opened L1SafeSub;
  opened L1FinalizedSub.

Definition initScanner : op unit :=
  if has_Scanner cfg then
    _ ← opened ScannerPart;
    did (Started ScannerPart)
  else mret tt.

Definition start_downloader : op unit :=
  match e_downloader env with
  | Some e => err e
  | None => _ ← set_loop true; did (Started DownloaderPart)
  end.

Definition start_p2p : op unit :=
  match e_p2pStart env with
  | Some e => err e
  | None => did (Started P2PNode)
  end.

Definition Start : op unit :=
  _ ← startL1;
  _ ← if_has MinerPart (did (Started MinerPart));
  _ ← start_downloader;
  _ ← initScanner;
  _ ← if_has P2PNode start_p2p;
  if negb (bool_decide (StateUploadURL cfg = "")) then did (Started StateUpload) else mret tt.

End node.

(** ** What the operations add *)

Definition extend (n : EsNode) (ps : list part) (es : list event) : EsNode := mkNode (n_parts n ++ ps) (n_dlLoop n) (n_events n ++ es).

(** [m] adds these parts and events whenever it returns. *)
Definition adds (m : op unit) (ps : list part) (es : list event) : Prop :=
  ∀ n n', m n = (Returns tt, n') → n' = extend n ps es.

Lemma extend_app n ps es ps' es' : extend (extend n ps es) ps' es' = extend n (ps ++ ps') (es ++ es').
Proof. by rw /extend /= !app_assoc. Qed.

Lemma extend_nil n : extend n [] [] = n.
Proof. destruct n. by rw /extend /= !app_nil_r. Qed.

Lemma adds_bind (m k : op unit) ps es ps' es' : adds m ps es → adds k ps' es' → adds (m ≫= λ _, k) (ps ++ ps') (es ++ es').
Proof.
  intros Hm Hk n n'. rw /mbind /op_bind. destruct (m n) as [[[]| | |] n1] eqn:E; [|done..]. intros ->%Hk. rw (Hm _ _ E). apply extend_app.
Qed.

Lemma adds_ret : adds (mret tt) [] [].
Proof. intros n n' [= <-]. by rw extend_nil. Qed.

Lemma adds_opened p : adds (opened p) [p] [Opened p].
Proof. by intros n n' [= <-]. Qed.

Lemma adds_did e : adds (did e) [] [e].
Proof. intros n n' [= <-]. by rw /extend app_nil_r. Qed.

Lemma adds_try e p : adds (try_open e p) [p] [Opened p].
Proof. destruct e; [done|]. apply adds_opened. Qed.

Lemma adds_if (b : bool) m k ps es ps' es' : adds m ps es → adds k ps' es' →
  adds (if b then m else k) (if b then ps else ps') (if b then es else es').
Proof. by destruct b. Qed.

#[local] Hint Resolve adds_bind adds_ret adds_opened adds_did adds_try adds_if : es.

Section adds.
Context (cfg : Config) (env : Env).

Definition when {A} (b : bool) (l : list A) : list A := if b then l else [].

(** The parts that [init] opens, in order. *)
Definition init_parts : list part :=
  [L1Source] ++ (if negb (bool_decide (DAURL cfg = "")) then [DAClient] else [L1Beacon]) ++
  when (negb (bool_decide (RandaoSourceURL cfg = ""))) [RandaoSource] ++ [Database; StorageMgr] ++
  when (has_P2P cfg && p2p_node env) [P2PNode] ++ [BlobCacheDir; DownloaderPart] ++ when (has_Mining cfg) [MinerPart] ++
  [RPCServer] ++ when (has_Archiver cfg) [ArchiverAPI].

(** What [init] does, in order. *)
Definition init_events : list event :=
  [Opened L1Source] ++ (if negb (bool_decide (DAURL cfg = "")) then [Opened DAClient] else [Opened L1Beacon]) ++
  when (negb (bool_decide (RandaoSourceURL cfg = ""))) [Opened RandaoSource] ++ [Opened Database; Opened StorageMgr] ++
  when (has_P2P cfg && p2p_node env) ([Opened P2PNode] ++ when (p2p_udp env) [Started DiscoveryProcess]) ++
  [Opened BlobCacheDir; Opened DownloaderPart] ++ when (has_Mining cfg) [Opened MinerPart] ++
  [Opened RPCServer] ++ when (MetricsEnabled cfg) [Started MetricsServer] ++ when (has_Archiver cfg) [Opened ArchiverAPI].

Lemma adds_initL1 : adds (initL1 cfg env)
  ([L1Source] ++ (if negb (bool_decide (DAURL cfg = "")) then [DAClient] else [L1Beacon]) ++ when (negb (bool_decide (RandaoSourceURL cfg = ""))) [RandaoSource])
  ([Opened L1Source] ++ (if negb (bool_decide (DAURL cfg = "")) then [Opened DAClient] else [Opened L1Beacon]) ++
   when (negb (bool_decide (RandaoSourceURL cfg = ""))) [Opened RandaoSource]).
Proof.
  apply adds_bind; [auto with es|]. apply adds_bind; [|apply adds_if; auto with es]. apply adds_if; [auto with es|].
  case_match; [auto with es|done].
Qed.

Lemma adds_initP2P : adds (initP2P cfg env) (when (has_P2P cfg && p2p_node env) [P2PNode])
  (when (has_P2P cfg && p2p_node env) ([Opened P2PNode] ++ when (p2p_udp env) [Started DiscoveryProcess])).
Proof.
  rw /initP2P. destruct (has_P2P cfg); [|apply adds_ret]. destruct (e_p2p env); [done|]. cbn [andb].
  apply (adds_if _ _ _ _ _ [] []); [|apply adds_ret]. apply (adds_bind _ _ [P2PNode] _ []); [auto with es|].
  destruct (p2p_udp env); auto with es.
Qed.

Lemma adds_init : adds (init cfg env) init_parts init_events.
Proof.
  have E1 : init_parts = (([L1Source] ++ (if negb (bool_decide (DAURL cfg = "")) then [DAClient] else [L1Beacon]) ++
      when (negb (bool_decide (RandaoSourceURL cfg = ""))) [RandaoSource]) ++ [Database] ++ [StorageMgr] ++
    when (has_P2P cfg && p2p_node env) [P2PNode] ++ [BlobCacheDir; DownloaderPart] ++ when (has_Mining cfg) [MinerPart] ++
    [RPCServer] ++ [] ++ when (has_Archiver cfg) [ArchiverAPI]) by rw /init_parts -!app_assoc.
  have E2 : init_events = (([Opened L1Source] ++ (if negb (bool_decide (DAURL cfg = "")) then [Opened DAClient] else [Opened L1Beacon]) ++
      when (negb (bool_decide (RandaoSourceURL cfg = ""))) [Opened RandaoSource]) ++ [Opened Database] ++ [Opened StorageMgr] ++
    when (has_P2P cfg && p2p_node env) ([Opened P2PNode] ++ when (p2p_udp env) [Started DiscoveryProcess]) ++
    [Opened BlobCacheDir; Opened DownloaderPart] ++ when (has_Mining cfg) [Opened MinerPart] ++
    [Opened RPCServer] ++ when (MetricsEnabled cfg) [Started MetricsServer] ++ when (has_Archiver cfg) [Opened ArchiverAPI]) by rw /init_events -!app_assoc.
  rw E1 E2. clear E1 E2. apply adds_bind; [apply adds_initL1|]. apply adds_bind.
  { rw /initDatabase. destruct (bool_decide _); [apply adds_opened|apply adds_try]. }
  apply adds_bind; [apply adds_try|]. apply adds_bind; [apply adds_initP2P|].
  apply adds_bind; [apply (adds_bind _ _ [BlobCacheDir] [Opened BlobCacheDir]); auto with es|]. apply adds_bind.
  { rw /initMiner. destruct (has_Mining cfg); [|apply adds_ret]. destruct (e_role env); [done|]. apply adds_opened. }
  apply adds_bind; [apply adds_try|]. apply adds_bind; [rw /initMetricsServer; destruct (MetricsEnabled cfg); auto with es|].
  rw /initArchiver. destruct (has_Archiver cfg); [|apply adds_ret]. cbn [when]. rw -(app_nil_r [ArchiverAPI]) -(app_nil_r [Opened ArchiverAPI]).
  apply adds_bind; [auto with es|]. destruct (e_archiver env); [done|apply adds_ret].
Qed.

Lemma has_extend p n ps es : p ∉ ps → has p (extend n ps es) = has p n.
Proof. intros Hp. rw /has /extend /=. apply bool_decide_ext. rw elem_of_app. tauto. Qed.

Lemma if_has_true p m n : has p n = true → if_has p m n = m n.
Proof. by rw /if_has => ->. Qed.
Lemma if_has_false p m n : has p n = false → if_has p m n = (Returns tt, n).
Proof. by rw /if_has => ->. Qed.

(** *** Closing *)

(** The parts that [Close] closes, before and after it cancels the context. *)
Definition close_first : list part := [RPCServer; P2PNode; DownloaderPart].
Definition close_rest : list part :=
  [L1HeadsSub; RandaoHeadsSub; MinerPart; BlobCacheDir; ArchiverAPI; ScannerPart; L1Source; RandaoSource; StorageMgr].

Definition closings (ps l : list part) : list event := Closed <$> filter (λ p, p ∈ ps) l.

Definition close_events (ps : list part) : list event := closings ps close_first ++ [Cancelled] ++ closings ps close_rest.

Definition close_errors (ps : list part) : list error :=
  when (bool_decide (P2PNode ∈ ps)) (from_option (λ e, [ErrWrap "failed to close p2p node" e]) [] (e_p2pClose env)) ++
  when (bool_decide (BlobCacheDir ∈ ps)) (from_option (λ e, [ErrWrap "failed to close blob cache" e]) [] (e_cacheClose env)).

Lemma closings_cons ps p l : closings ps (p :: l) = when (bool_decide (p ∈ ps)) [Closed p] ++ closings ps l.
Proof. rw /closings filter_cons /when. case_decide; [by rw bool_decide_true|by rw bool_decide_false]. Qed.

Lemma extend_closed n ps p es : n_parts n = ps →
  (close_of p) (extend n [] es) = (Returns tt, extend n [] (es ++ when (bool_decide (p ∈ ps)) [Closed p])).
Proof.
  intros <-. rw /close_of /if_has /has /did /extend /= app_nil_r. destruct (bool_decide (p ∈ n_parts n)); cbn; by rw -?app_assoc ?app_nil_r.
Qed.

Lemma close_with_closed n ps p e msg es : n_parts n = ps →
  (close_with p e msg) (extend n [] es) = (Returns (when (bool_decide (p ∈ ps)) (from_option (λ e, [ErrWrap msg e]) [] e)),
    extend n [] (es ++ when (bool_decide (p ∈ ps)) [Closed p])).
Proof.
  intros <-. rw /close_with /has /did /mbind /op_bind /mret /op_ret /extend /= app_nil_r.
  destruct (bool_decide (p ∈ n_parts n)); cbn; rw -?app_assoc ?app_nil_r //; by destruct e.
Qed.

Lemma extend_closed_when n ps ok p es : n_parts n = ps → (p ∈ ps → ok = true) →
  (close_when ok p) (extend n [] es) = (Returns tt, extend n [] (es ++ when (bool_decide (p ∈ ps)) [Closed p])).
Proof.
  intros <- Hok. rw -(extend_closed n (n_parts n)) // /close_of /close_when /if_has /has /extend /= app_nil_r.
  case_bool_decide as Hp; [by rw (Hok Hp)|done].
Qed.

(** The clients of the node can be closed: they poll over HTTP and their pollers are not blocked. *)
Definition clients_free (ps : list part) : Prop := isHTTP cfg = true ∧ ∀ p, p = L1Source ∨ p = RandaoSource → p ∈ ps → poller_free env p = true.

Lemma randao_src_in n : L1Source ∈ n_parts n → randao_src n ∈ n_parts n ∧ (randao_src n = L1Source ∨ randao_src n = RandaoSource).
Proof. intros H. rw /randao_src /has. case_bool_decide; [split; [done|by right]|split; [done|by left]]. Qed.

(** What [Close] does until it has cancelled the context. *)
Lemma Close_first n : (has DownloaderPart n = true → n_dlLoop n = true) → let ps := n_parts n in
  let b := if has DownloaderPart n then false else n_dlLoop n in
  ∃ k : list error → op (list error), (∀ es1 m, k es1 m = (
     _ ← Unsubscribe cfg env L1HeadsSub L1Source; _ ← (λ n, Unsubscribe cfg env RandaoHeadsSub (randao_src n) n); _ ← close_of MinerPart;
     es2 ← close_with BlobCacheDir (e_cacheClose env) "failed to close blob cache";
     _ ← close_of ArchiverAPI; _ ← close_of ScannerPart; _ ← PollingClient_Close cfg env L1Source; _ ← PollingClient_Close cfg env RandaoSource;
     _ ← close_of StorageMgr; mret (es1 ++ es2)) m) ∧
   Close cfg env n = k (when (bool_decide (P2PNode ∈ ps)) (from_option (λ e, [ErrWrap "failed to close p2p node" e]) [] (e_p2pClose env)))
     (extend (mkNode ps b (n_events n)) [] (closings ps close_first ++ [Cancelled])).
Proof.
  intros Hd ps b. eexists. split; [done|]. set (n1 := mkNode ps b (n_events n)).
  rw -{1}(extend_nil n) /Close. rw {1 2 3 4}/mbind /op_bind (extend_closed n ps) // (close_with_closed n ps) //.
  match goal with |- context [if_has DownloaderPart _ (extend n [] ?es)] => set (es1 := es) end.
  have -> : if_has DownloaderPart Downloader_Close (extend n [] es1) =
    (Returns tt, extend n1 [] (es1 ++ when (bool_decide (DownloaderPart ∈ ps)) [Closed DownloaderPart])).
  { rw /if_has /has /extend /= app_nil_r -/ps /Downloader_Close /=. rw /n1 /b /has -/ps. rw /has -/ps in Hd.
    destruct (bool_decide (DownloaderPart ∈ ps)); [rw Hd // /mbind /op_bind /did /set_loop; cbn|]; by rw ?app_nil_r -?app_assoc. }
  have -> es : did Cancelled (extend n1 [] es) = (Returns tt, extend n1 [] (es ++ [Cancelled])) by rw /did /extend /= !app_nil_r app_assoc.
  rw /es1 /close_first !closings_cons -?app_assoc. change (closings ps []) with (@nil event). done.
Qed.

(** [Close] returns if the loop of the downloader runs, when there is one, and the clients can be closed; it closes the
    parts that exist, in its order. *)
Lemma Close_spec n : (has DownloaderPart n = true → n_dlLoop n = true) → L1Source ∈ n_parts n → clients_free (n_parts n) →
  ∃ b, Close cfg env n = (Returns (close_errors (n_parts n)), mkNode (n_parts n) b (n_events n ++ close_events (n_parts n))).
Proof.
  intros Hd HL [Hh Hfree]. destruct (Close_first n Hd) as (k & Hk & ->). set (ps := n_parts n) in *.
  set (b := if has DownloaderPart n then false else n_dlLoop n). exists b. set (n1 := mkNode ps b (n_events n)).
  have E : mkNode ps b (n_events n ++ close_events ps) = extend n1 [] (close_events ps) by rw /extend /n1 /= app_nil_r.
  rw Hk E /Unsubscribe /PollingClient_Close Hh /=. rw /mbind /op_bind.
  have HL1 : poller_free env L1Source = true by apply Hfree; [by left|].
  rw (extend_closed_when n1 ps) //.
  have Hrs es : poller_free env (randao_src (extend n1 [] es)) = true.
  { have Em : n_parts (extend n1 [] es) = ps by rw /extend /= app_nil_r.
    destruct (randao_src_in (extend n1 [] es)) as [Hi Ho]; [by rw Em|]. apply Hfree; [done|]. by rw -Em. }
  rw Hrs (extend_closed_when n1 ps) // (extend_closed n1 ps) // (close_with_closed n1 ps) //. do 2 rw (extend_closed n1 ps) //.
  rw (extend_closed_when n1 ps) // (extend_closed_when n1 ps) //; [apply Hfree; by right|]. rw (extend_closed n1 ps) //.
  rw /mret /op_ret. do 2 f_equal. rw /close_events /close_rest !closings_cons /= -?app_assoc //.
  change (closings ps []) with (@nil event). by rw app_nil_r.
Qed.

(** Over websockets nothing ends the wait for the poller: the clients, and the storage manager after them, stay open. *)
Lemma Close_ws n : (has DownloaderPart n = true → n_dlLoop n = true) → L1Source ∈ n_parts n → isHTTP cfg = false →
  ∃ n', Close cfg env n = (Waits, n') ∧ n_events n' = n_events n ++ closings (n_parts n) close_first ++ [Cancelled] ++
    closings (n_parts n) [L1HeadsSub; RandaoHeadsSub; MinerPart; BlobCacheDir; ArchiverAPI; ScannerPart].
Proof.
  intros Hd HL Hh. destruct (Close_first n Hd) as (k & Hk & ->). set (ps := n_parts n) in *.
  set (b := if has DownloaderPart n then false else n_dlLoop n). set (n1 := mkNode ps b (n_events n)).
  rw Hk /Unsubscribe /PollingClient_Close Hh /=. rw /mbind /op_bind.
  do 2 rw (extend_closed_when n1 ps) //. rw (extend_closed n1 ps) // (close_with_closed n1 ps) //. do 2 rw (extend_closed n1 ps) //.
  rw /close_when if_has_true; [rw /has /extend /= app_nil_r; by rw bool_decide_true|].
  eexists. split; [done|]. rw /extend. cbn [n_events n1]. rw !closings_cons. change (closings ps []) with (@nil event).
  by rw -!app_assoc !app_nil_r.
Qed.

(** With a blocked poller of the L1 client, closing waits for the subscription of the heads. *)
Lemma Close_blocked n : (has DownloaderPart n = true → n_dlLoop n = true) → L1HeadsSub ∈ n_parts n → isHTTP cfg = true →
  poller_free env L1Source = false →
  ∃ n', Close cfg env n = (Waits, n') ∧ n_events n' = n_events n ++ closings (n_parts n) close_first ++ [Cancelled].
Proof.
  intros Hd HL Hh Hf. destruct (Close_first n Hd) as (k & Hk & ->). rw Hk /Unsubscribe Hh Hf /=. rw {1}/mbind /op_bind.
  rw /close_when if_has_true; [rw /has /extend /= app_nil_r; by rw bool_decide_true|]. by eexists.
Qed.

Lemma Close_waits n : has DownloaderPart n = true → n_dlLoop n = false → (Close cfg env n).1 = Waits ∧
  ∀ p, Closed p ∈ n_events (Close cfg env n).2 → Closed p ∈ n_events n ∨ p = RPCServer ∨ p = P2PNode.
Proof.
  intros Hh Hl. set (es := when (bool_decide (RPCServer ∈ n_parts n)) [Closed RPCServer] ++ when (bool_decide (P2PNode ∈ n_parts n)) [Closed P2PNode]).
  have -> : Close cfg env n = (Waits, extend n [] es).
  { rw -{1}(extend_nil n) /Close. rw {1 2 3 4}/mbind /op_bind (extend_closed n (n_parts n)) // (close_with_closed n (n_parts n)) //.
    rw if_has_true; [by rw has_extend; [apply not_elem_of_nil|]|]. rw /Downloader_Close. cbn [extend n_dlLoop]. by rw Hl. }
  split; [done|]. intros p. cbn [snd n_events extend]. rw /es elem_of_app.
  destruct (bool_decide _), (bool_decide _); cbn; rw ?elem_of_cons ?elem_of_nil; (intros [?|Hin]; [by left|right; intuition congruence]).
Qed.

(** *** Starting *)

Definition start_parts (miner : bool) : list part :=
  [L1HeadsSub] ++ when miner [RandaoHeadsSub] ++ [L1SafeSub; L1FinalizedSub] ++ when (has_Scanner cfg) [ScannerPart].

(** What [Start] does, in order. *)
Definition start_events (miner p2p : bool) : list event :=
  [Opened L1HeadsSub] ++ when miner [Opened RandaoHeadsSub] ++ [Opened L1SafeSub; Opened L1FinalizedSub] ++
  when miner [Started MinerPart] ++ [Started DownloaderPart] ++ when (has_Scanner cfg) [Opened ScannerPart; Started ScannerPart] ++
  when p2p [Started P2PNode] ++ when (negb (bool_decide (StateUploadURL cfg = ""))) [Started StateUpload].

Lemma bind_returns {A} (m : op unit) (k : op A) n n' : m n = (Returns tt, n') → (m ≫= λ _, k) n = k n'.
Proof. by rw /mbind /op_bind => ->. Qed.

Lemma opened_extend p n ps es : opened p (extend n ps es) = (Returns tt, extend n (ps ++ [p]) (es ++ [Opened p])).
Proof. by rw /opened /extend /= !app_assoc. Qed.
Lemma did_extend e n ps es : did e (extend n ps es) = (Returns tt, extend n ps (es ++ [e])).
Proof. by rw /did /extend /= !app_assoc. Qed.

Lemma startL1_spec n : startL1 n = (Returns tt,
  extend n ([L1HeadsSub] ++ when (has MinerPart n) [RandaoHeadsSub] ++ [L1SafeSub; L1FinalizedSub])
    ([Opened L1HeadsSub] ++ when (has MinerPart n) [Opened RandaoHeadsSub] ++ [Opened L1SafeSub; Opened L1FinalizedSub])).
Proof.
  rw /startL1 -{1}(extend_nil n). rw (bind_returns _ _ _ _ (opened_extend _ _ _ _)).
  have Hh : has MinerPart (extend n ([] ++ [L1HeadsSub]) ([] ++ [Opened L1HeadsSub])) = has MinerPart n by apply has_extend; set_solver.
  destruct (has MinerPart n).
  - rw (bind_returns _ _ _ (extend n [L1HeadsSub; RandaoHeadsSub] [Opened L1HeadsSub; Opened RandaoHeadsSub])); [by rw if_has_true // opened_extend|].
    by rw (bind_returns _ _ _ _ (opened_extend _ _ _ _)) opened_extend.
  - rw (bind_returns _ _ _ (extend n [L1HeadsSub] [Opened L1HeadsSub])); [by rw if_has_false|].
    by rw (bind_returns _ _ _ _ (opened_extend _ _ _ _)) opened_extend.
Qed.

Lemma Start_spec n n' : Start cfg env n = (Returns tt, n') →
  n' = mkNode (n_parts n ++ start_parts (has MinerPart n)) true (n_events n ++ start_events (has MinerPart n) (has P2PNode n)).
Proof.
  rw /Start (bind_returns _ _ _ _ (startL1_spec n)).
  set (mi := has MinerPart n). set (p2 := has P2PNode n).
  set (ps1 := [L1HeadsSub] ++ when mi [RandaoHeadsSub] ++ [L1SafeSub; L1FinalizedSub]).
  set (es1 := [Opened L1HeadsSub] ++ when mi [Opened RandaoHeadsSub] ++ [Opened L1SafeSub; Opened L1FinalizedSub]).
  have Hm es : has MinerPart (extend n ps1 es) = mi by (apply has_extend; rw /ps1; destruct mi; set_solver).
  set (n2 := mkNode (n_parts n) true (n_events n)).
  rw (bind_returns _ _ _ (extend n ps1 (es1 ++ when mi [Started MinerPart]))).
  { destruct mi; [rw if_has_true // did_extend //|rw if_has_false // app_nil_r //]. }
  rw /start_downloader. destruct (e_downloader env); [done|].
  rw (bind_returns _ _ _ (extend n2 ps1 (es1 ++ when mi [Started MinerPart] ++ [Started DownloaderPart]))).
  { rw /mbind /op_bind /=. by rw /did /extend /= -!app_assoc /= -!app_assoc. }
  set (es2 := es1 ++ when mi [Started MinerPart] ++ [Started DownloaderPart]).
  rw (bind_returns _ _ _ (extend n2 (ps1 ++ when (has_Scanner cfg) [ScannerPart]) (es2 ++ when (has_Scanner cfg) [Opened ScannerPart; Started ScannerPart]))).
  { rw /initScanner. destruct (has_Scanner cfg); [|by rw !app_nil_r].
    rw (bind_returns _ _ _ _ (opened_extend _ _ _ _)) did_extend. by rw -app_assoc. }
  set (ps2 := ps1 ++ when (has_Scanner cfg) [ScannerPart]). set (es3 := es2 ++ when (has_Scanner cfg) [Opened ScannerPart; Started ScannerPart]).
  have Hp : has P2PNode (extend n2 ps2 es3) = p2 by (rw has_extend //; rw /ps2 /ps1 /when; repeat case_match; set_solver).
  destruct (if_has P2PNode (start_p2p env) (extend n2 ps2 es3)) as [[[]| | |] n3] eqn:E; rw /mbind /op_bind E; [|done..].
  have -> : n3 = extend n2 ps2 (es3 ++ when p2 [Started P2PNode]).
  { rw /if_has Hp /start_p2p in E. destruct p2; [destruct (e_p2pStart env); [done|]; rw did_extend in E|]; cbn; rw ?app_nil_r; by injection E as <-. }
  have Hfin : extend n2 ps2 (es3 ++ when p2 [Started P2PNode] ++ when (negb (bool_decide (StateUploadURL cfg = ""))) [Started StateUpload]) =
    mkNode (n_parts n ++ start_parts mi) true (n_events n ++ start_events mi p2).
  { rw /extend /ps2 /es3 /es2 /ps1 /es1 /start_parts /start_events -!app_assoc. done. }
  rw -Hfin. case: (negb _); [rw did_extend|]; intros [= <-]; by rw -?app_assoc ?app_nil_r.
Qed.

End adds.

(** ** The order of a start, and closing *)

(** The events of opening name the parts, and nothing was closed. *)
Definition records (n : EsNode) : Prop := (∀ p, Opened p ∈ n_events n ↔ p ∈ n_parts n) ∧ ∀ p, Closed p ∉ n_events n.

Definition sound (m : op unit) : Prop := ∀ n, records n → records (m n).2.

Lemma sound_bind m k : sound m → sound k → sound (m ≫= λ _, k).
Proof. intros Hm Hk n Hn. specialize (Hm n Hn). rw /mbind /op_bind. destruct (m n) as [[[]| | |] n1]; [by apply Hk|done..]. Qed.
Lemma sound_ret : sound (mret tt).
Proof. by intros n. Qed.
Lemma sound_err e : sound (err e).
Proof. by intros n. Qed.
Lemma sound_opened p : sound (opened p).
Proof. intros n [H1 H2]. split; cbn; [intros q; specialize (H1 q)|intros q; specialize (H2 q)]; set_solver. Qed.
Lemma sound_started p : sound (did (Started p)).
Proof. intros n [H1 H2]. split; cbn; [intros q; specialize (H1 q)|intros q; specialize (H2 q)]; set_solver. Qed.
Lemma sound_try e p : sound (try_open e p).
Proof. destruct e; [apply sound_err|apply sound_opened]. Qed.
Lemma sound_loop b : sound (set_loop b).
Proof. by intros n. Qed.

#[local] Hint Resolve sound_bind sound_ret sound_err sound_opened sound_started sound_try sound_loop : es.

Lemma sound_init cfg env : sound (init cfg env).
Proof.
  rw /init. repeat apply sound_bind;
    rw /initDatabase /initStorage /initP2P /initL2 /initMiner /initRPCServer /initMetricsServer /initArchiver;
    repeat (apply sound_bind || case_match || apply sound_opened || apply sound_started || apply sound_try || apply sound_ret || apply sound_err || by intros n).
Qed.

Lemma records_0 : records node_0.
Proof. split; [intros p; cbn; set_solver|]. intros p. apply not_elem_of_nil. Qed.

Lemma New_inv cfg env n : New cfg env = (Returns (inl n), n) →
  n_parts n = init_parts cfg env ∧ n_dlLoop n = false ∧ n_events n = init_events cfg env.
Proof.
  rw /New. destruct (Config_Check cfg env); [|done..]. destruct (init cfg env node_0) as [[[]| | |] n0] eqn:E; [| |done..].
  - intros [= <-]. rw (adds_init cfg env _ _ E). by split_and!.
  - by destruct (Close cfg env n0) as [[]?].
Qed.

(** Until [Start] the event loop of the downloader does not run. *)
Definition no_loop (m : op unit) : Prop := ∀ n, n_dlLoop n = false → n_dlLoop (m n).2 = false.

Lemma no_loop_bind m k : no_loop m → no_loop k → no_loop (m ≫= λ _, k).
Proof. intros Hm Hk n Hn. specialize (Hm n Hn). rw /mbind /op_bind. destruct (m n) as [[[]| | |] n1]; [by apply Hk|done..]. Qed.

Lemma no_loop_init cfg env : no_loop (init cfg env).
Proof.
  rw /init. repeat apply no_loop_bind;
    rw /initDatabase /initStorage /initP2P /initL2 /initMiner /initRPCServer /initMetricsServer /initArchiver /try_open;
    repeat (apply no_loop_bind || case_match || by intros n).
Qed.

(** The order in which a node is opened and started: the storage manager exists before the parts that use it, the RPC
    server is opened after them, the heads are followed before the miner and the downloader run, the miner is started
    before the sync with peers, and the scanner after the downloader. *)
Theorem start_order cfg env n n' : New cfg env = (Returns (inl n), n) → Start cfg env n = (Returns tt, n') →
  n_events n' = init_events cfg env ++ start_events cfg (has_Mining cfg) (has_P2P cfg && p2p_node env) ∧
  n_parts n' = init_parts cfg env ++ start_parts cfg (has_Mining cfg) ∧ n_dlLoop n' = true.
Proof.
  intros (Hp & _ & He)%New_inv ->%Start_spec. cbn. rw Hp He.
  have -> : has MinerPart n = has_Mining cfg.
  { rw /has Hp /init_parts /when. by repeat case_match. }
  have -> : has P2PNode n = has_P2P cfg && p2p_node env.
  { rw /has Hp /init_parts /when. by repeat case_match. }
  done.
Qed.

Definition closed_times (p : part) (n : EsNode) : nat := length (filter (λ e, e = Closed p) (n_events n)).

Lemma closed_times_nil p es : Closed p ∉ es → filter (λ e, e = Closed p) es = [].
Proof. induction es as [|e es IH]; [done|]. intros [? ?]%not_elem_of_cons. rw filter_cons decide_False; [congruence|]. by apply IH. Qed.

Lemma closings_times p ps l : NoDup l → length (filter (λ e, e = Closed p) (closings ps l)) = if bool_decide (p ∈ l ∧ p ∈ ps) then 1%nat else 0%nat.
Proof.
  induction 1 as [|q l Hq Hl IH]; [by rw bool_decide_false; [set_solver|]|]. rw closings_cons /when filter_app length_app IH.
  destruct (decide (q = p)) as [->|Hne].
  - rw (bool_decide_false (p ∈ l ∧ p ∈ ps)); [tauto|]. destruct (decide (p ∈ ps)) as [Hp|Hp].
    + rw (bool_decide_true (p ∈ ps)) // (bool_decide_true (p ∈ p :: l ∧ p ∈ ps)); [set_solver|]. cbn. by rw decide_True.
    + rw (bool_decide_false (p ∈ ps)) // (bool_decide_false (p ∈ p :: l ∧ p ∈ ps)) //. tauto.
  - have -> : length (filter (λ e, e = Closed p) (if bool_decide (q ∈ ps) then [Closed q] else [])) = 0%nat.
    { destruct (bool_decide (q ∈ ps)); cbn; [rw decide_False //; congruence|reflexivity]. }
    cbn. rw (bool_decide_ext (p ∈ l ∧ p ∈ ps) (p ∈ q :: l ∧ p ∈ ps)) //. set_solver.
Qed.

Lemma close_order_nodup : NoDup (close_first ++ close_rest).
Proof. by apply (bool_decide_unpack _). Qed.

(** The events of [Close]: each existing part of its list once. *)
Lemma close_events_times p ps : p ∈ close_first ++ close_rest →
  length (filter (λ e, e = Closed p) (close_events ps)) = if bool_decide (p ∈ ps) then 1%nat else 0%nat.
Proof.
  intros Hp. rw /close_events !filter_app !length_app. pose proof close_order_nodup as (Hn1 & Hd & Hn2)%NoDup_app.
  rw !closings_times //. cbn [filter list_filter length]. apply elem_of_app in Hp as [Hp|Hp].
  - rw (bool_decide_false (p ∈ close_rest ∧ p ∈ ps)); [intros [? _]; by apply (Hd p)|].
    rw (bool_decide_ext (p ∈ close_first ∧ p ∈ ps) (p ∈ ps)); [tauto|]. by destruct (bool_decide (p ∈ ps)).
  - rw (bool_decide_false (p ∈ close_first ∧ p ∈ ps)); [intros [? _]; by apply (Hd p)|].
    rw (bool_decide_ext (p ∈ close_rest ∧ p ∈ ps) (p ∈ ps)); [tauto|]. done.
Qed.

(** The events of [Close], after those of a node of which nothing was closed. *)
Lemma close_events_once n b p : records n → p ∈ close_first ++ close_rest →
  closed_times p (mkNode (n_parts n) b (n_events n ++ close_events (n_parts n))) = if bool_decide (Opened p ∈ n_events n) then 1%nat else 0%nat.
Proof.
  intros [Ho Hc] Hp. rw /closed_times /= filter_app length_app (closed_times_nil p _ (Hc p)) close_events_times //.
  by rw (bool_decide_ext (Opened p ∈ n_events n) (p ∈ n_parts n)).
Qed.

Lemma sound_if_has p m : sound m → sound (if_has p m).
Proof. intros Hm n Hn. rw /if_has. destruct (has p n); [by apply Hm|done]. Qed.

Lemma sound_Start cfg env : sound (Start cfg env).
Proof.
  rw /Start /startL1 /initScanner /start_downloader /start_p2p.
  repeat (apply sound_bind || apply sound_if_has || case_match || apply sound_opened || apply sound_started || apply sound_ret || apply sound_err || apply sound_loop).
Qed.

Lemma New_records cfg env n : New cfg env = (Returns (inl n), n) → records n.
Proof.
  rw /New. destruct (Config_Check cfg env); [|done..]. pose proof (sound_init cfg env node_0 records_0) as Hs.
  destruct (init cfg env node_0) as [[[]| | |] n0]; [by intros [= <-]| |done..]. by destruct (Close cfg env n0) as [[]?].
Qed.

(** The L1 client of a started node, and its subscription. *)
Lemma started_parts cfg env n n1 : New cfg env = (Returns (inl n), n) → Start cfg env n = (Returns tt, n1) →
  L1Source ∈ n_parts n1 ∧ L1HeadsSub ∈ n_parts n1 ∧ n_dlLoop n1 = true ∧ records n1.
Proof.
  intros HN HS. pose proof (sound_Start cfg env n (New_records _ _ _ HN)) as Hr. rw HS in Hr.
  destruct (New_inv _ _ _ HN) as (Ep & _). pose proof (Start_spec cfg env n n1 HS) as E.
  split_and!; [|  |by rw E|exact Hr]; rw E; cbn [n_parts]; rw Ep; apply elem_of_app;
    [left; apply list_elem_of_here|right; apply list_elem_of_here].
Qed.


(** When [New] fails before the downloader is made, and the clients can be closed, it returns the error, followed by those
    of closing, and has closed exactly once every part of the list of [Close] that it had opened. *)
Theorem New_fails_closed cfg env e n0 : Config_Check cfg env = Ret tt → init cfg env node_0 = (Errs e, n0) → has DownloaderPart n0 = false →
  L1Source ∈ n_parts n0 → clients_free cfg env (n_parts n0) →
  ∃ n, New cfg env = (Returns (inr (e :: close_errors env (n_parts n0))), n) ∧
    ∀ p, p ∈ close_first ++ close_rest → closed_times p n = if bool_decide (Opened p ∈ n_events n0) then 1%nat else 0%nat.
Proof.
  intros Hc Hi Hd HL Hf. pose proof (sound_init cfg env node_0 records_0) as Hr. rw Hi in Hr.
  destruct (Close_spec cfg env n0) as [b HC]; [by rw Hd|done..|]. eexists. split; [by rw /New Hc Hi HC|].
  intros p Hp. by apply close_events_once.
Qed.

(** C36: when [New] fails after that, as when the port of the RPC server is taken, it never returns: nothing receives from
    the channel that [Downloader.Close] sends on before [Start]; the L1 client, the blob cache, the miner and the storage
    stay open. *)
Theorem New_fails_waits cfg env e n0 : Config_Check cfg env = Ret tt → init cfg env node_0 = (Errs e, n0) → has DownloaderPart n0 = true →
  (New cfg env).1 = Waits ∧ ∀ p, Closed p ∈ n_events (New cfg env).2 → p = RPCServer ∨ p = P2PNode.
Proof.
  intros Hc Hi Hd. pose proof (sound_init cfg env node_0 records_0) as [_ Hr]. rw Hi in Hr.
  pose proof (no_loop_init cfg env node_0 eq_refl) as Hl. rw Hi in Hl. destruct (Close_waits cfg env n0 Hd Hl) as [Hw Hp].
  rw /New Hc Hi. destruct (Close cfg env n0) as [[] n]; simpl in *; try discriminate. split; [done|].
  intros p [Hin|Hin]%Hp; [by apply Hr in Hin|done].
Qed.

(** ** The handlers of new blocks *)

Section handlers.
Context {C : Type}.

(** The downloader and the channel of heads of the miner, [None] for nil fields. *)
Record Handlers := mkHandlers { h_downloader : option (Downloader C); h_heads : option (list L1BlockRef) }.

Definition chainHeadChanSize : nat := 1.

Definition OnNewL1Head (sig : L1BlockRef) (h : Handlers) : Handlers :=
  mkHandlers (Downloader.OnNewL1Head (Number sig) <$> h_downloader h) (h_heads h).

(** A head that does not fit into the channel is dropped. *)
Definition OnNewRandaoSourceHead (sig : L1BlockRef) (h : Handlers) : Handlers :=
  mkHandlers (h_downloader h) ((λ q, if (length q <? chainHeadChanSize)%nat then q ++ [sig] else q) <$> h_heads h).

Definition OnNewL1Safe (sig : L1BlockRef) (h : Handlers) : Handlers := h.

Definition OnNewL1Finalized (sig : L1BlockRef) (h : Handlers) : Handlers :=
  mkHandlers (Downloader.OnL1Finalized (Number sig) <$> h_downloader h) (h_heads h).

(** What happens: the four handlers, and a receive by the worker of the miner. *)
Inductive signal := NewHead (b : L1BlockRef) | NewRandaoHead (b : L1BlockRef) | NewSafe (b : L1BlockRef) | NewFinalized (b : L1BlockRef) | Receive.

Definition take_head (h : Handlers) : option L1BlockRef * Handlers :=
  match h_heads h with
  | Some (b :: q) => (Some b, mkHandlers (h_downloader h) (Some q))
  | _ => (None, h)
  end.

Definition on_signal (s : signal) (acc : list L1BlockRef * Handlers) : list L1BlockRef * Handlers :=
  let '(got, h) := acc in
  match s with
  | NewHead b => (got, OnNewL1Head b h)
  | NewRandaoHead b => (got, OnNewRandaoSourceHead b h)
  | NewSafe b => (got, OnNewL1Safe b h)
  | NewFinalized b => (got, OnNewL1Finalized b h)
  | Receive => let '(b, h) := take_head h in (got ++ option_list b, h)
  end.

Definition run_signals (l : list signal) (h : Handlers) : list L1BlockRef * Handlers := foldl (λ acc s, on_signal s acc) ([], h) l.

Definition randao_heads (l : list signal) : list L1BlockRef := omap (λ s, match s with NewRandaoHead b => Some b | _ => None end) l.

(** The heads that the miner has received or will receive, and the bound of the channel. *)
Definition heads_ok (l : list signal) (acc : list L1BlockRef * Handlers) : Prop :=
  (from_option length 0 (h_heads acc.2) ≤ chainHeadChanSize)%nat ∧ acc.1 ++ default [] (h_heads acc.2) `sublist_of` randao_heads l.

Lemma on_signal_ok s l acc : heads_ok l acc → heads_ok (l ++ [s]) (on_signal s acc).
Proof.
  destruct acc as [got h]. intros [Hle Hsub]. cbn [fst snd] in Hle, Hsub. have Hmore : randao_heads (l ++ [s]) = randao_heads l ++ randao_heads [s] by apply omap_app.
  rw /heads_ok Hmore. destruct s as [b|b|b|b|]; simpl; [by rw app_nil_r| |by rw app_nil_r|by rw app_nil_r|].
  - destruct (h_heads h) as [q|]; simpl in *; [|split; [rw /chainHeadChanSize; lia|apply sublist_inserts_r, Hsub]]. case: Nat.ltb_spec => Hq.
    + rw length_app /=. split; [lia|]. rw app_assoc. apply sublist_app; [exact Hsub|done].
    + split; [done|]. apply sublist_inserts_r, Hsub.
  - rw app_nil_r /take_head. destruct (h_heads h) as [[|b q]|] eqn:E; simpl in *; [by rw E app_nil_r|split; [lia|by rw -app_assoc]|by rw E app_nil_r].
Qed.

(** The handlers never wait for the miner: its channel holds at most one head; the heads the miner receives are heads of the
    randao source, in their order and each at most once, though some are skipped. *)
Theorem miner_heads_in_order d l :
  let r := run_signals l (mkHandlers d (Some [])) in
  (from_option length 0 (h_heads r.2) ≤ chainHeadChanSize)%nat ∧ r.1 `sublist_of` randao_heads l.
Proof.
  cbv zeta. have H : heads_ok l (run_signals l (mkHandlers d (Some []))).
  { rw /run_signals. induction l as [|s l IH] using rev_ind; [split; [simpl; lia|done]|]. rw foldl_app. by apply on_signal_ok. }
  destruct H as [H1 H2]. split; [done|]. etransitivity; [|exact H2]. by apply sublist_inserts_r.
Qed.

End handlers.

(** ** Examples *)

(** A miner on a beacon node, with a scanner and peers. *)
Definition ex_cfg : Config := mkConfig "http://l1" "" "http://beacon" "" "data" "" true 7300 true true true true.

Definition ex_node_env : Env := mkEnv None None None None None None None None true true None None None None None None None (λ _, true).

Definition ex_port_taken : Env :=
  mkEnv None None None None None None None None true true None (Some (ErrMsg "address already in use")) None None None None None (λ _, true).

Definition ex_no_files : Env :=
  mkEnv None None None None None None (Some (ErrMsg "open failed")) None true true None None None None None None None (λ _, true).

Definition ex_node : EsNode := mkNode (init_parts ex_cfg ex_node_env) false (init_events ex_cfg ex_node_env).

Definition ex_started : EsNode := (Start ex_cfg ex_node_env ex_node).2.

Lemma start_order_witness :
  n_events ex_started = init_events ex_cfg ex_node_env ++ start_events ex_cfg (has_Mining ex_cfg) (has_P2P ex_cfg && p2p_node ex_node_env) ∧
  n_parts ex_started = init_parts ex_cfg ex_node_env ++ start_parts ex_cfg (has_Mining ex_cfg) ∧ n_dlLoop ex_started = true.
Proof. apply (start_order ex_cfg ex_node_env ex_node ex_started); by vm_compute. Defined.

(** The same node on websockets. *)
Definition ex_ws_cfg : Config := mkConfig "wss://l1" "" "http://beacon" "" "data" "" true 7300 true true true true.
Definition ex_ws_started : EsNode := (Start ex_ws_cfg ex_node_env ex_node).2.


Lemma New_fails_closed_witness : let n0 := (init ex_cfg ex_no_files node_0).2 in
  ∃ n, New ex_cfg ex_no_files = (Returns (inr (ErrMsg "open failed" :: close_errors ex_no_files (n_parts n0))), n) ∧
    ∀ p, p ∈ close_first ++ close_rest → closed_times p n = if bool_decide (Opened p ∈ n_events n0) then 1%nat else 0%nat.
Proof.
  apply (New_fails_closed ex_cfg ex_no_files (ErrMsg "open failed")); [by vm_compute..|apply list_elem_of_here|by split].
Defined.

Lemma New_fails_waits_witness : (New ex_cfg ex_port_taken).1 = Waits ∧
  ∀ p, Closed p ∈ n_events (New ex_cfg ex_port_taken).2 → p = RPCServer ∨ p = P2PNode.
Proof.
  apply (New_fails_waits ex_cfg ex_port_taken (ErrWrap "unable to start RPC server" (ErrMsg "address already in use")) (init ex_cfg ex_port_taken node_0).2);
    by vm_compute.
Defined.
