(* ===== verification/Dashboard.v ===== *)
(** * The monitoring of the network (node/node.go, node/state.go, metrics/network_metrics.go, cmd/priv-dashboard/main.go)

    A node uploads its state at regular times; the dashboard keeps the last state of every node, shows it as gauges,
    forgets nodes that are silent and counts nodes by contract, version, shard and phase.  HTTP and JSON are outside:
    a handler gets the parsed body.  The order in which Go visits the map of nodes is an argument. *)

From S2P Require Import Prelude GoStrings SyncTask Miner.

(** ** The state of a node *)

Record ShardState := mkShardState {
  ss_ShardId : Z; ss_Miner : bytes; ss_SyncState : option SyncState; ss_ProvidedBlob : Z;
  ss_MiningState : option MiningState; ss_SubmissionState : option SubmissionState }.

Record ScanStats := mkScanStats { MismatchedCount : Z; UnfixedCount : Z }.

Record NodeState := mkNodeState {
  ns_Id : string; ns_Contract : string; ns_Version : string; ns_Address : string; ns_SavedBlobs : Z; ns_DownloadedBlobs : Z;
  ns_ScanStats : option ScanStats; ns_Shards : list ShardState }.

(** ** The upload of a node *)

(** A record of the database: absent, or present with the result of decoding it. *)
Definition stored (A : Type) : Type := option (gores (gmap Z A)).

Definition read_stored {A} (s : stored A) : gores (gmap Z A) := match s with None => Ret ∅ | Some r => r end.

Section upload.
Context (id contract version address : string) (savedBlobs downloadedBlobs : Z) (scan : ScanStats).
Context (shardIds : list Z) (GetShardMiner : Z → bytes).

Definition shard_state (submissions : gmap Z SubmissionState) (minings : gmap Z MiningState) (provided : gmap Z Z)
    (syncs : gmap Z SyncState) (shardId : Z) : ShardState :=
  mkShardState shardId (GetShardMiner shardId) (syncs !! shardId) (default 0 (provided !! shardId)) (minings !! shardId) (submissions !! shardId).

(** One tick of [UploadNodeState]: the state that is sent, or the error that makes it wait for the next tick. *)
Definition upload_tick (submissions : stored SubmissionState) (minings : stored MiningState) (provided : stored Z) (syncs : stored SyncState)
    : gores NodeState :=
  submissionStates ← read_stored submissions;
  miningStates ← read_stored minings;
  providedBlobs ← read_stored provided;
  syncStates ← read_stored syncs;
  mret (mkNodeState id contract version address savedBlobs downloadedBlobs (Some scan)
          (shard_state submissionStates miningStates providedBlobs syncStates <$> shardIds)).

End upload.

(** ** The gauges *)

(** The labels of a gauge: the contract, the description of the peer and the kind of the number.  The number is given as a
    fraction, before it is rounded to a double. *)
Definition gauge : Type := gmap (string * string * string) (Z * Z).

Definition set_gauges (contract label : string) (values : list (string * (Z * Z))) (g : gauge) : gauge :=
  foldl (λ g '(kind, v), <[(contract, label, kind) := v]> g) g values.

(** The gauges of the counts, by contract and the second label of each. *)
Record NetworkMetrics := mkMetrics {
  PeerState : gauge; PeersOfContract : gmap string Z; PeersOfShards : gmap (string * Z) Z; PeersOfVersions : gmap (string * string) Z;
  PeersOfPhase : gmap (string * Z * string) Z }.

Definition set_PeerState (g : gauge) (m : NetworkMetrics) : NetworkMetrics :=
  mkMetrics g (PeersOfContract m) (PeersOfShards m) (PeersOfVersions m) (PeersOfPhase m).

Record statistics := mkStatistics { count : Z; versions : gmap string Z; shards : gmap Z Z; phasesOfShard : gmap Z (gmap string Z) }.

(** [label] is [fmt.Sprintf(format, id, contract, version, address, shardId, miner.Hex())]. *)
Section metrics.
Context (label : NodeState → ShardState → string).

Definition on_peer (st : NodeState) (sh : ShardState) (values : list (string * (Z * Z))) (m : NetworkMetrics) : NetworkMetrics :=
  set_PeerState (set_gauges (ns_Contract st) (label st sh) values (PeerState m)) m.

Definition SetPeerInfo st sh (now : Z) : NetworkMetrics → NetworkMetrics := on_peer st sh [("UpdateTime", (now, 1))].

Definition SetScanState st sh (sc : ScanStats) : NetworkMetrics → NetworkMetrics :=
  on_peer st sh [("MismatchedKVCount", (MismatchedCount sc, 1)); ("UnfixedKVCount", (UnfixedCount sc, 1))].

Definition SetDownloadState st sh : NetworkMetrics → NetworkMetrics :=
  on_peer st sh [("SavedBlobs", (ns_SavedBlobs st, 1)); ("DownloadedBlobs", (ns_DownloadedBlobs st, 1))].

Definition SetSyncState st sh (sy : SyncState) : NetworkMetrics → NetworkMetrics :=
  on_peer st sh [("PeerCount", (PeerCount sy, 1)); ("SyncProgress", (SyncProgress sy, 100)); ("SyncedSeconds", (SyncedSeconds sy, 3600));
    ("FillEmptyProgress", (FillEmptyProgress sy, 100)); ("FillEmptySeconds", (FillEmptySeconds sy, 3600)); ("ProvidedBlobs", (ss_ProvidedBlob sh, 1))].

Definition SetMiningState st sh (mi : MiningState) : NetworkMetrics → NetworkMetrics :=
  on_peer st sh [("MiningPower", (MiningPower mi, 100)); ("SamplingTime", (SamplingTime mi, 1000))].

Definition SetSubmissionState st sh (su : SubmissionState) : NetworkMetrics → NetworkMetrics :=
  on_peer st sh [("Succeeded", (Submitted su, 1)); ("Failed", (Failed su, 1)); ("Dropped", (Dropped su, 1));
    ("LastSucceededTime", (LastSubmittedTime su, 1))].

Definition SetStaticMetrics (contract : string) (s : statistics) (m : NetworkMetrics) : NetworkMetrics :=
  mkMetrics (PeerState m) (<[contract := count s]> (PeersOfContract m))
    (map_fold (λ shardId n acc, <[(contract, shardId) := n]> acc) (PeersOfShards m) (shards s))
    (map_fold (λ version n acc, <[(contract, version) := n]> acc) (PeersOfVersions m) (versions s))
    (map_fold (λ shardId phases acc, map_fold (λ phase n acc, <[(contract, shardId, phase) := n]> acc) acc phases) (PeersOfPhase m) (phasesOfShard s)).

Definition ResetStaticMetrics (m : NetworkMetrics) : NetworkMetrics := mkMetrics (PeerState m) ∅ ∅ ∅ ∅.

Definition peer_kinds : list string :=
  ["UpdateTime"; "PeerCount"; "SyncProgress"; "SyncedSeconds"; "FillEmptyProgress"; "FillEmptySeconds"; "MiningPower"; "SamplingTime";
   "Succeeded"; "Failed"; "Dropped"; "LastSucceededTime"; "ProvidedBlobs"].

Definition DeletePeerInfo st sh (m : NetworkMetrics) : NetworkMetrics :=
  set_PeerState (foldl (λ g t, delete (ns_Contract st, label st sh, t) g) (PeerState m) peer_kinds) m.

(** ** The dashboard *)

Record record := mkRecord { receivedTime : Z; r_state : NodeState }.

Record dashboard := mkDashboard {
  d_nodes : gmap string record; d_m : NetworkMetrics; d_lastNotification : Z; d_lastStateCache : gmap string (gmap string record) }.

(** In nanoseconds. *)
Definition minute : Z := 60 * 10 ^ 9.
Definition timeoutTime : Z := 10 * minute.
Definition emailReportInterval : Z := 24 * 60 * minute.

Definition newDashboard (now : Z) : dashboard := mkDashboard ∅ (mkMetrics ∅ ∅ ∅ ∅ ∅) (now - emailReportInterval + 20 * minute) ∅.

Definition checkState (state : NodeState) : gores unit :=
  match ns_Shards state with
  | [] => Fail (ErrMsg "no shard exist in the node state")
  | shards => foldM (λ _ shard, match ss_SyncState shard with None => Fail (ErrMsg "invalid shard state in the node state") | Some _ => mret tt end) tt shards
  end.

Definition show_shard (now : Z) (state : NodeState) (m : NetworkMetrics) (shard : ShardState) : gores NetworkMetrics :=
  let m := SetPeerInfo state shard now m in
  let m := SetDownloadState state shard m in
  let m := match ns_ScanStats state with Some sc => SetScanState state shard sc m | None => m end in
  match ss_SyncState shard with
  | None => Panic NilPointer
  | Some sync =>
      let m := SetSyncState state shard sync m in
      let m := match ss_MiningState shard with Some mining => SetMiningState state shard mining m | None => m end in
      mret (match ss_SubmissionState shard with Some submission => SetSubmissionState state shard submission m | None => m end)
  end.

(** [body] is the parsed body; the answer is whether the status is ok. *)
Definition ReportStateHandler (now : Z) (body : gores NodeState) (d : dashboard) : gores (bool * dashboard) :=
  match body with
  | Panic p => Panic p
  | Fail _ => mret (false, d)
  | Ret state =>
      match checkState state with
      | Panic p => Panic p
      | Fail _ => mret (false, d)
      | Ret _ =>
          m ← foldM (show_shard now state) (d_m d) (ns_Shards state);
          mret (true, mkDashboard (<[ns_Id state := mkRecord now state]> (d_nodes d)) m (d_lastNotification d) (d_lastStateCache d))
      end
  end.

(** *** The report *)

Definition stats_0 : statistics := mkStatistics 0 ∅ ∅ ∅.

Definition bump {K} `{Countable K} (k : K) (m : gmap K Z) : gmap K Z := <[k := default 0 (m !! k) + 1]> m.

Definition phases_0 : gmap string Z := <["syncing" := 0]> (<["mining" := 0]> {["mined" := 0]}).

(** The phase of a shard that has a sync state; [None] for a synced shard of a node that never saved submissions. *)
Definition phase_of (sync : SyncState) (submission : option SubmissionState) : option string :=
  if (SyncProgress sync <? 10000) || (FillEmptyProgress sync <? 10000) then Some "syncing"%string
  else match submission with
       | Some su => if 0 <? Submitted su then Some "mined"%string else Some "mining"%string
       | None => None
       end.

Definition count_shard (sd : statistics) (s : ShardState) : gores statistics :=
  let shard := ss_ShardId s in
  let shards' := bump shard (shards sd) in
  let phases := default phases_0 (phasesOfShard sd !! shard) in
  match ss_SyncState s with
  | None => Panic NilPointer
  | Some sync =>
      let phases := match phase_of sync (ss_SubmissionState s) with Some ph => bump ph phases | None => phases end in
      mret (mkStatistics (count sd) (versions sd) shards' (<[shard := phases]> (phasesOfShard sd)))
  end.

Definition count_node (summary : gmap string statistics) (st : NodeState) : gores (gmap string statistics) :=
  let sd := default stats_0 (summary !! ns_Contract st) in
  let sd := mkStatistics (count sd + 1) (bump (ns_Version st) (versions sd)) (shards sd) (phasesOfShard sd) in
  sd ← foldM count_shard sd (ns_Shards st);
  mret (<[ns_Contract st := sd]> summary).

Definition add_node (id : string) (r : record) (net : gmap string (gmap string record)) : gmap string (gmap string record) :=
  <[ns_Contract (r_state r) := <[ns_Id (r_state r) := r]> (default ∅ (net !! ns_Contract (r_state r)))]> net.

(** What the loop over the nodes changes and collects. *)
Record scan_acc := mkScanAcc {
  sa_nodes : gmap string record; sa_m : NetworkMetrics; sa_summary : gmap string statistics; sa_network : gmap string (gmap string record) }.

Definition visit (now : Z) (acc : scan_acc) (x : string * record) : gores scan_acc :=
  let '(id, r) := x in
  if timeoutTime <? now - receivedTime r then
    mret (mkScanAcc (delete id (sa_nodes acc)) (foldl (λ m shard, DeletePeerInfo (r_state r) shard m) (sa_m acc) (ns_Shards (r_state r)))
            (sa_summary acc) (sa_network acc))
  else
    summary ← count_node (sa_summary acc) (r_state r);
    mret (mkScanAcc (sa_nodes acc) (sa_m acc) summary (add_node id r (sa_network acc))).

(** One row of the e-mail: the numbers of a shard. *)
Definition summary_row (n : NodeState) (downloaded : Z) (shard : ShardState) : gores (string * Z * Z * Z * Z) :=
  submission ← (match ss_MiningState shard with
                | Some _ => match ss_SubmissionState shard with
                            | Some su => mret (Submitted su, Dropped su, Failed su)
                            | None => Panic NilPointer
                            end
                | None => mret (0, 0, 0)
                end);
  match ss_SyncState shard with
  | None => Panic NilPointer
  | Some sync => mret (ns_Address n, downloaded, submission.1.1, submission.1.2, submission.2)
  end.

Definition since_last (cache : gmap string record) (n : NodeState) : Z :=
  match cache !! ns_Id n with
  | Some r => if ns_DownloadedBlobs (r_state r) <=? ns_DownloadedBlobs n then sub64 (ns_DownloadedBlobs n) (ns_DownloadedBlobs (r_state r)) else ns_DownloadedBlobs n
  | None => ns_DownloadedBlobs n
  end.

(** The rows of a contract; the text around them and the sending of the e-mail are outside. *)
Definition outputSummaryHtml (nodes : list record) (cache : gmap string record) : gores (list (string * Z * Z * Z * Z)) :=
  foldM (λ rows r,
    let n := r_state r in
    more ← go_map (summary_row n (since_last cache n)) (ns_Shards n);
    mret (rows ++ more)) [] nodes.

Definition email_contracts (flag : string) : list string := filter (λ c, c ≠ "") (TrimSpace <$> split_comma flag).

(** [order] is the order of the nodes; the clock stands still during a report. *)
Definition Report (now : Z) (emailEnabled : bool) (contractsFlag : string) (order : list (string * record)) (d : dashboard)
    : gores (list (string * list (string * Z * Z * Z * Z)) * dashboard) :=
  acc ← foldM (visit now) (mkScanAcc (d_nodes d) (d_m d) ∅ ∅) order;
  let email := emailEnabled && (d_lastNotification d + emailReportInterval <? now) in
  mails ← (if email then
             foldM (λ mails '(contract, nodeStates),
               if bool_decide (contract ∈ email_contracts contractsFlag) then
                 rows ← outputSummaryHtml (map_to_list nodeStates).*2 (default ∅ (d_lastStateCache d !! contract));
                 mret (mails ++ [(contract, rows)])
               else mret mails) [] (map_to_list (sa_network acc))
           else mret []);
  let m := foldl (λ m '(contract, data), SetStaticMetrics contract data m) (ResetStaticMetrics (sa_m acc)) (map_to_list (sa_summary acc)) in
  mret (mails, mkDashboard (sa_nodes acc) m (if email then now else d_lastNotification d) (if email then sa_network acc else d_lastStateCache d)).

End metrics.

(** ** What is accepted and kept *)

Lemma checkState_iff st : checkState st = Ret tt ↔ ns_Shards st ≠ [] ∧ Forall (λ sh, is_Some (ss_SyncState sh)) (ns_Shards st).
Proof.
  rw /checkState. have Hgen l : foldM (λ _ shard, match ss_SyncState shard with None => Fail (ErrMsg "invalid shard state in the node state") | Some _ => mret tt end) tt l = Ret tt
    ↔ Forall (λ sh, is_Some (ss_SyncState sh)) l.
  { induction l as [|sh l IH]; [done|]. rw foldM_cons Forall_cons. destruct (ss_SyncState sh) as [sy|] eqn:E; cbn.
    - rw IH. split; [by intros|by intros [_ ?]].
    - split; [done|]. by intros [[? ?] _]. }
  destruct (ns_Shards st) as [|sh l] eqn:E; [split; [done|by intros [? _]]|]. rw Hgen. split; [done|by intros [_ ?]].
Qed.

Lemma checkState_cases st : checkState st = Ret tt ∨ ∃ e, checkState st = Fail e.
Proof.
  rw /checkState. destruct (ns_Shards st) as [|sh l]; [right; by eexists|]. revert sh.
  induction l as [|sh' l IH]; intros sh; rw foldM_cons; (destruct (ss_SyncState sh); [|right; by eexists]); [by left|]. apply IH.
Qed.

(** The nodes are kept under their names, with a sync state for every shard. *)
Definition dashboard_ok (d : dashboard) : Prop := map_Forall (λ id r, ns_Id (r_state r) = id ∧ checkState (r_state r) = Ret tt) (d_nodes d).

Section facts.
Context (label : NodeState → ShardState → string).

Lemma show_shards_total now st m l : Forall (λ sh, is_Some (ss_SyncState sh)) l → ∃ m', foldM (show_shard label now st) m l = Ret m'.
Proof.
  intros Hl. destruct (foldM_total (λ _, True) (show_shard label now st) l) with (b := m) as (m' & ? & _); [|done|by exists m'].
  intros b sh _ Hin. rw Forall_forall in Hl. destruct (Hl sh Hin) as [sy E]. rw /show_shard E. by eexists.
Qed.

(** A state is recorded exactly when it has shards with sync states, and no answer of a node stops the dashboard. *)
Lemma ReportStateHandler_spec now st d : dashboard_ok d →
  (checkState st = Ret tt ∧ ∃ d', ReportStateHandler label now (Ret st) d = Ret (true, d') ∧
     d_nodes d' = <[ns_Id st := mkRecord now st]> (d_nodes d) ∧ dashboard_ok d') ∨
  (checkState st ≠ Ret tt ∧ ReportStateHandler label now (Ret st) d = Ret (false, d)).
Proof.
  intros Hd. rw /ReportStateHandler. destruct (checkState_cases st) as [Hc|[e He]]; [left|right; by rw He].
  split; [done|]. rw Hc. apply checkState_iff in Hc as [Hne Hs]. destruct (show_shards_total now st (d_m d) _ Hs) as [m ->].
  eexists. split_and!; [done..|]. apply map_Forall_insert_2; [|done]. split; [done|]. by apply checkState_iff.
Qed.

End facts.

(** ** The counts of a report *)

(** How many elements have the key. *)
Definition tally {A K} `{EqDecision K} (f : A → option K) (l : list A) (k : K) : Z := zlen (filter (λ a, f a = Some k) l).

Lemma tally_app {A K} `{EqDecision K} (f : A → option K) l l' k : tally f (l ++ l') k = tally f l k + tally f l' k.
Proof. by rw /tally filter_app zlen_app. Qed.

Lemma tally_one {A K} `{EqDecision K} (f : A → option K) a k : tally f [a] k = if bool_decide (f a = Some k) then 1 else 0.
Proof. rw /tally filter_cons. case_decide; [by rw bool_decide_true|by rw bool_decide_false]. Qed.

Lemma bump_lookup {K} `{Countable K} (k k' : K) m : default 0 (bump k m !! k') = default 0 (m !! k') + if bool_decide (Some k = Some k') then 1 else 0.
Proof.
  rw /bump. destruct (decide (k = k')) as [->|Hne].
  - rw lookup_insert_eq bool_decide_true //.
  - rw lookup_insert_ne // bool_decide_false; [congruence|]. lia.
Qed.

Definition shard_phase (sh : ShardState) : option string := ss_SyncState sh ≫= λ sy, phase_of sy (ss_SubmissionState sh).

Definition phase_in (s : Z) (sh : ShardState) : option string := if bool_decide (ss_ShardId sh = s) then shard_phase sh else None.

(** The counts of the shards [shs]. *)
Definition shard_stats (sd : statistics) (shs : list ShardState) : Prop :=
  (∀ s, default 0 (shards sd !! s) = tally (λ sh, Some (ss_ShardId sh)) shs s) ∧
  ∀ s ph, default 0 (default ∅ (phasesOfShard sd !! s) !! ph) = tally (phase_in s) shs ph.

(** The counts of the nodes [sts] of a contract. *)
Definition node_stats (sd : statistics) (sts : list NodeState) : Prop :=
  count sd = zlen sts ∧ (∀ v, default 0 (versions sd !! v) = tally (λ st, Some (ns_Version st)) sts v) ∧ shard_stats sd (sts ≫= ns_Shards).

Lemma phases_0_zero ph : default 0 (phases_0 !! ph) = 0.
Proof.
  rw /phases_0. destruct (decide (ph = "syncing")) as [->|]; [done|]. rw lookup_insert_ne; [congruence|].
  destruct (decide (ph = "mining")) as [->|]; [done|]. rw lookup_insert_ne; [congruence|]. destruct (decide (ph = "mined")) as [->|]; [done|].
  rw lookup_singleton_ne //. congruence.
Qed.

Lemma count_shard_spec sd shs sh : shard_stats sd shs → is_Some (ss_SyncState sh) →
  ∃ sd', count_shard sd sh = Ret sd' ∧ shard_stats sd' (shs ++ [sh]) ∧ count sd' = count sd ∧ versions sd' = versions sd.
Proof.
  intros [H1 H2] [sy Hsy]. rw /count_shard Hsy. eexists. split_and!; [done| |done|done]. split; cbn.
  - intros s. by rw bump_lookup H1 tally_app tally_one.
  - intros s ph. rw tally_app tally_one -H2 /phase_in /shard_phase Hsy /=.
    destruct (decide (ss_ShardId sh = s)) as [->|Hne]; last first.
    { rw lookup_insert_ne // (bool_decide_false (ss_ShardId sh = s)) // bool_decide_false //. lia. }
    rw lookup_insert_eq (bool_decide_true (s = s)) //=.
    have Hd q : default 0 (default phases_0 (phasesOfShard sd !! s) !! q) = default 0 (default ∅ (phasesOfShard sd !! s) !! q).
    { destruct (phasesOfShard sd !! s); [done|]. rw /= lookup_empty. apply phases_0_zero. }
    destruct (phase_of sy (ss_SubmissionState sh)) as [q|].
    + by rw bump_lookup Hd.
    + rw Hd bool_decide_false //. lia.
Qed.

Lemma count_shards_spec l : Forall (λ sh, is_Some (ss_SyncState sh)) l → ∀ sd shs, shard_stats sd shs →
  ∃ sd', foldM count_shard sd l = Ret sd' ∧ shard_stats sd' (shs ++ l) ∧ count sd' = count sd ∧ versions sd' = versions sd.
Proof.
  induction 1 as [|sh l Hsh _ IH]; intros sd shs Hs; [exists sd; by rw app_nil_r|].
  destruct (count_shard_spec sd shs sh Hs Hsh) as (sd1 & E & Hs1 & Hc & Hv). rw foldM_cons E. cbn [mbind gores_bind].
  destruct (IH sd1 _ Hs1) as (sd2 & E2 & Hs2 & Hc2 & Hv2). exists sd2. rw -app_assoc in Hs2. split_and!; [done|done|congruence..].
Qed.

Lemma node_stats_0 : node_stats stats_0 [].
Proof. split_and!; [done|done|]. split; [done|]. intros s ph. by rw /= lookup_empty /=. Qed.

(** The statistics of every contract are those of its nodes; a contract without nodes has none. *)
Definition summary_ok (summary : gmap string statistics) (sts : list NodeState) : Prop :=
  ∀ c, let here := filter (λ st, ns_Contract st = c) sts in
    match summary !! c with Some sd => here ≠ [] ∧ node_stats sd here | None => here = [] end.

Lemma count_node_spec summary sts st : summary_ok summary sts → checkState st = Ret tt →
  ∃ summary', count_node summary st = Ret summary' ∧ summary_ok summary' (sts ++ [st]).
Proof.
  intros Hs [_ Hsy]%checkState_iff. set (c := ns_Contract st). set (sd := default stats_0 (summary !! c)).
  have Hsd : node_stats sd (filter (λ st, ns_Contract st = c) sts).
  { specialize (Hs c). rw /sd. destruct (summary !! c); [by destruct Hs|]. rw Hs. exact node_stats_0. }
  destruct Hsd as (Hc & Hv & Hsh). rw /count_node -/c -/sd.
  destruct (count_shards_spec _ Hsy (mkStatistics (count sd + 1) (bump (ns_Version st) (versions sd)) (shards sd) (phasesOfShard sd)) _ Hsh)
    as (sd' & -> & Hsh' & Hc' & Hv'). eexists. split; [done|]. intros c'. rw filter_app filter_cons filter_nil.
  destruct (decide (c = c')) as [<-|Hne].
  - rw lookup_insert_eq decide_True //. split; [by destruct (filter _ sts)|]. split_and!.
    + by rw Hc' zlen_app /= Hc.
    + intros v. by rw Hv' /= bump_lookup Hv tally_app tally_one.
    + by rw bind_app /= app_nil_r.
  - rw lookup_insert_ne // decide_False // app_nil_r. apply Hs.
Qed.

(** ** Reports *)

Definition silent (now : Z) (r : record) : bool := timeoutTime <? now - receivedTime r.

Definition live_states (now : Z) (order : list (string * record)) : list NodeState :=
  (λ x, r_state x.2) <$> filter (λ x, silent now x.2 = false) order.

Section report.
Context (label : NodeState → ShardState → string).

(** The nodes that are left, the counts, and that only visited nodes get into the report. *)
Definition visited (now : Z) (nodes : gmap string record) (l : list (string * record)) (acc : scan_acc) : Prop :=
  summary_ok (sa_summary acc) (live_states now l) ∧
  (∀ id, sa_nodes acc !! id = if bool_decide (id ∈ (filter (λ x, silent now x.2 = true) l).*1) then None else nodes !! id) ∧
  ∀ c net id r, sa_network acc !! c = Some net → net !! id = Some r → r ∈ l.*2.

Lemma visit_spec now nodes l acc id r : visited now nodes l acc → checkState (r_state r) = Ret tt →
  ∃ acc', visit label now acc (id, r) = Ret acc' ∧ visited now nodes (l ++ [(id, r)]) acc'.
Proof.
  intros (Hs & Hn & Hw) Hc. rw /visit -/(silent now r). rw /visited /live_states !filter_app !fmap_app !filter_cons !filter_nil /=.
  destruct (silent now r) eqn:E.
  - eexists. split; [done|]. case_decide; [done|]. case_decide; [|done]. rw app_nil_r. split_and!; [exact Hs| |].
    + intros i. cbn. destruct (decide (i = id)) as [->|Hne].
      * rw lookup_delete_eq bool_decide_true //. set_solver.
      * rw lookup_delete_ne; [congruence|]. rw Hn. have -> : bool_decide (i ∈ (filter (λ x, silent now x.2 = true) l).*1) =
          bool_decide (i ∈ (filter (λ x, silent now x.2 = true) l).*1 ++ [id]); [|done]. apply bool_decide_ext. set_solver.
    + intros c net i r' Hc' Hr'. rw elem_of_app. left. by apply (Hw c net i r').
  - destruct (count_node_spec _ _ _ Hs Hc) as (summary' & -> & Hs'). eexists. split; [done|]. case_decide; [|done]. case_decide; [done|]. cbn [fmap list_fmap]. rw !app_nil_r.
    split_and!; [exact Hs'|exact Hn|]. intros c net i r'. cbn. rw /add_node.
    destruct (decide (ns_Contract (r_state r) = c)) as [<-|Hne].
    + rw lookup_insert_eq. intros [= <-]. destruct (decide (ns_Id (r_state r) = i)) as [<-|Hi].
      * rw lookup_insert_eq. intros [= <-]. set_solver.
      * rw lookup_insert_ne //. destruct (sa_network acc !! ns_Contract (r_state r)) as [net'|] eqn:En; cbn; [|by rw lookup_empty].
        intros Hr. rw elem_of_app. left. by apply (Hw _ _ _ _ En Hr).
    + rw lookup_insert_ne //. intros ??. rw elem_of_app. left. by apply (Hw c net i r').
Qed.

Lemma visits_spec now nodes order d0 : Forall (λ x, checkState (r_state x.2) = Ret tt) order → sa_nodes d0 = nodes → sa_summary d0 = ∅ → sa_network d0 = ∅ →
  ∃ acc, foldM (visit label now) d0 order = Ret acc ∧ visited now nodes order acc.
Proof.
  intros Ho Hn Hs Hw. induction order as [|[id r] order IH] using rev_ind.
  - exists d0. split; [done|]. split_and!; [intros c; by rw Hs lookup_empty|intros id; by rw Hn|]. intros c net id r. by rw Hw lookup_empty.
  - apply Forall_app in Ho as [Ho Hr]. destruct (IH Ho) as (acc & E & Hv). rw foldM_app E. cbn [mbind gores_bind]. rw foldM_one.
    apply visit_spec; [done|]. exact (Forall_inv Hr).
Qed.

(** What the e-mail needs: a shard with a mining state has a submission state. *)
Definition mining_reported (st : NodeState) : Prop := Forall (λ sh, is_Some (ss_MiningState sh) → is_Some (ss_SubmissionState sh)) (ns_Shards st).

Lemma outputSummaryHtml_total nodes cache : Forall (λ r, checkState (r_state r) = Ret tt ∧ mining_reported (r_state r)) nodes →
  ∃ rows, outputSummaryHtml nodes cache = Ret rows.
Proof.
  intros Hn. destruct (foldM_total (λ _, True) (λ rows r, more ← go_map (summary_row (r_state r) (since_last cache (r_state r))) (ns_Shards (r_state r)); mret (rows ++ more)) nodes)
    with (b := @nil (string * Z * Z * Z * Z)) as (rows & ? & _); [|done|by exists rows].
  intros rows r _ Hin. rw Forall_forall in Hn. destruct (Hn r Hin) as [[_ Hs]%checkState_iff Hm].
  destruct (foldM_total (λ _, True) (λ acc x, y ← summary_row (r_state r) (since_last cache (r_state r)) x; mret (acc ++ [y])) (ns_Shards (r_state r)))
    with (b := @nil (string * Z * Z * Z * Z)) as (more & E & _); [|done|by rw /go_map E; eexists].
  intros acc sh _ Hsh. rw /mining_reported !Forall_forall in Hs Hm. destruct (Hs sh Hsh) as [sy Esy]. rw /summary_row Esy.
  destruct (ss_MiningState sh) as [mi|] eqn:Emi; [|by eexists]. destruct (Hm sh Hsh) as [su ->]; [by rw Emi|]. by eexists.
Qed.

End report.

Lemma static_contracts (l : list (string * statistics)) m : NoDup l.*1 →
  PeersOfContract (foldl (λ m '(contract, data), SetStaticMetrics contract data m) m l) = (count <$> list_to_map l : gmap string Z) ∪ PeersOfContract m.
Proof.
  revert m. induction l as [|[c sd] l IH]; intros m Hnd; [by rw /= fmap_empty left_id_L|]. cbn in *. apply NoDup_cons in Hnd as [Hc Hnd].
  rw IH //= fmap_insert -insert_union_l insert_union_r //. rw lookup_fmap not_elem_of_list_to_map_1 //.
Qed.

(** A report does not fail, whatever the nodes have sent, as long as no e-mail is due or every shard with a mining state
    has a submission state; it forgets exactly the silent nodes, and the statistics it shows for every contract are the
    numbers of its live nodes, of their versions, of their shards and of the phases of these. *)
Theorem Report_spec label now email flag order d : dashboard_ok d → order ≡ₚ map_to_list (d_nodes d) →
  (email = true → ∀ id r, d_nodes d !! id = Some r → mining_reported (r_state r)) →
  ∃ mails d' summary, Report label now email flag order d = Ret (mails, d') ∧ dashboard_ok d' ∧
    d_nodes d' = filter (λ x, silent now x.2 = false) (d_nodes d) ∧
    PeersOfContract (d_m d') = count <$> summary ∧ summary_ok summary (live_states now order).
Proof.
  intros Hd Ho He. have Hin id r : (id, r) ∈ order → d_nodes d !! id = Some r by rw Ho; apply elem_of_map_to_list.
  have Hck : Forall (λ x, checkState (r_state x.2) = Ret tt) order.
  { apply Forall_forall. intros [id r] Hx%Hin. by apply (Hd id r). }
  rw /Report. destruct (visits_spec label now (d_nodes d) order (mkScanAcc (d_nodes d) (d_m d) ∅ ∅)) as (acc & -> & Hs & Hn & Hw); [done..|].
  cbn [mbind gores_bind]. set (due := email && _). have Hdue : due = true → email = true by rw /due; destruct email.
  clearbody due. match goal with |- context [mbind _ (if due then ?M else mret [])] => set (mk := M) end.
  have [mails Hm] : ∃ mails, (if due then mk else mret []) = Ret mails.
  { destruct due; [|by eexists]. have Hem := Hdue eq_refl. rw /mk.
    match goal with |- context [foldM ?f ?b0 ?l] => destruct (foldM_total (λ _, True) f l) with (b := b0) as (mails & ? & _); [|done|by exists mails] end.
    intros mails [c net] _ Hc%elem_of_map_to_list. case_bool_decide; [|by eexists].
    destruct (outputSummaryHtml_total (map_to_list net).*2 (default ∅ (d_lastStateCache d !! c))) as [rows ->]; [|by eexists].
    apply Forall_forall. intros r ([id r'] & -> & Hr%elem_of_map_to_list)%list_elem_of_fmap.
    destruct (list_elem_of_fmap_1 _ _ _ (Hw _ _ _ _ Hc Hr)) as ([id' r''] & Heq & Hx%Hin). cbn in Heq. subst r''. cbn.
    split; [by apply (Hd id' r')|by apply (He Hem id' r')]. }
  rw Hm. cbn [mbind gores_bind]. do 2 eexists. exists (sa_summary acc). split; [done|]. cbn [d_nodes d_m].
  have Hf : sa_nodes acc = filter (λ x, silent now x.2 = false) (d_nodes d).
  { apply map_eq. intros id. rw Hn. destruct (d_nodes d !! id) as [r|] eqn:Er; last first.
    - rw map_lookup_filter_None_2; [by left|]. by destruct (bool_decide _).
    - destruct (silent now r) eqn:Es.
      + rw bool_decide_true; [|by rw map_lookup_filter_None_2; [right; intros r'; rw Er; intros [= <-]; cbn; congruence|]].
        apply (list_elem_of_fmap_2 fst _ (id, r)), list_elem_of_filter. split; [done|]. rw Ho. by apply elem_of_map_to_list.
      + rw bool_decide_false; [|by rw (map_lookup_filter_Some_2 _ _ _ r)].
        intros ([id' r'] & -> & [Hs' Hx%Hin]%list_elem_of_filter)%list_elem_of_fmap. cbn in *. rw Er in Hx. congruence. }
  split_and!; [|done| |done].
  - rw /dashboard_ok /= Hf. intros id r [Hr _]%map_lookup_filter_Some. by apply (Hd id r).
  - rw static_contracts; [apply NoDup_fst_map_to_list|]. by rw list_to_map_to_list /= right_id_L.
Qed.

(** ** From a node to the dashboard *)

(** The state that a node uploads is recorded by the dashboard exactly when the node has shards and has saved a sync state
    for each of them; the recorded state has one entry per shard of the node, with what the database holds for the shard. *)
Theorem upload_recorded label id contract version address saved downloaded scan shardIds miner subs mins prov syncs now d :
  dashboard_ok d →
  ∃ st, upload_tick id contract version address saved downloaded scan shardIds miner (Some (Ret subs)) (Some (Ret mins)) (Some (Ret prov)) (Some (Ret syncs)) = Ret st ∧
    ss_ShardId <$> ns_Shards st = shardIds ∧
    if bool_decide (shardIds ≠ [] ∧ Forall (λ i, is_Some (syncs !! i)) shardIds)
    then ∃ d', ReportStateHandler label now (Ret st) d = Ret (true, d') ∧ d_nodes d' !! id = Some (mkRecord now st) ∧ dashboard_ok d'
    else ReportStateHandler label now (Ret st) d = Ret (false, d).
Proof.
  intros Hd. eexists. split; [done|]. set (st := mkNodeState _ _ _ _ _ _ _ _).
  have Hck : checkState st = Ret tt ↔ shardIds ≠ [] ∧ Forall (λ i, is_Some (syncs !! i)) shardIds.
  { rw checkState_iff /= Forall_fmap. split; intros [Hne HF]; (split; [|exact HF]); by destruct shardIds. }
  split; [by rw /= -list_fmap_compose list_fmap_id|].
  destruct (ReportStateHandler_spec label now st d Hd) as [(Hc & d' & Hr & Hn & Hd')|(Hc & Hr)].
  - rw bool_decide_true; [by apply Hck|]. exists d'. rw Hn lookup_insert_eq. done.
  - rw bool_decide_false; [by rw -Hck|]. exact Hr.
Qed.

(** ** Defects *)

(** The kinds that [DeletePeerInfo] does not name stay. *)
Lemma DeletePeerInfo_keeps label st sh m c l kind : kind ∉ peer_kinds →
  PeerState (DeletePeerInfo label st sh m) !! (c, l, kind) = PeerState m !! (c, l, kind).
Proof.
  intros Hk. have Hgen ks (g : gauge) : kind ∉ ks → foldl (λ g t, delete (ns_Contract st, label st sh, t) g) g ks !! (c, l, kind) = g !! (c, l, kind).
  { revert g. induction ks as [|k ks IH]; intros g Hks; [done|]. apply not_elem_of_cons in Hks as [Hne Hks]. rw /= IH // lookup_delete_ne //. congruence. }
  by apply Hgen.
Qed.

Lemma static_keeps (l : list (string * statistics)) m : PeerState (foldl (λ m '(contract, data), SetStaticMetrics contract data m) m l) = PeerState m.
Proof. revert m. induction l as [|[c sd] l IH]; intros m; [done|]. cbn. by rw IH. Qed.

(** The gauges of a node that is forgotten are not all removed: its blobs and its mismatches are shown until the dashboard
    ends, since no report removes a gauge of a kind that [DeletePeerInfo] does not name. *)
Lemma stale_gauges label now email flag order d mails d' c l kind : kind ∉ peer_kinds →
  Report label now email flag order d = Ret (mails, d') → PeerState (d_m d') !! (c, l, kind) = PeerState (d_m d) !! (c, l, kind).
Proof.
  intros Hk. rw /Report.
  have Hv acc acc' : foldM (visit label now) acc order = Ret acc' → PeerState (sa_m acc') !! (c, l, kind) = PeerState (sa_m acc) !! (c, l, kind).
  { revert acc. induction order as [|[id r] o IH]; intros acc; [by intros [= <-]|]. rw foldM_cons /visit. case_match.
    - cbn [mbind gores_bind mret gores_ret]. intros ->%IH. cbn [sa_m]. generalize (sa_m acc) as m. induction (ns_Shards (r_state r)) as [|sh shs IHs]; intros m; [done|].
      cbn [foldl]. rw IHs. by apply DeletePeerInfo_keeps.
    - destruct (count_node (sa_summary acc) (r_state r)); [|done..]. cbn [mbind gores_bind mret gores_ret]. by intros ->%IH. }
  destruct (foldM (visit label now) _ order) as [acc| |] eqn:E; [|done..]. cbn [mbind gores_bind]. apply Hv in E. cbn [sa_m] in E.
  match goal with |- context [mbind _ (if ?b then ?M else mret [])] => destruct (if b then M else mret []) as [ms| |]; [|done..] end.
  intros [= _ <-]. by rw /= static_keeps /= E.
Qed.

(** A node that reports a mining state without a submission state is accepted ([upload_recorded] does not ask for one), and
    the next e-mail about its contract makes the dashboard panic. *)
Lemma email_panics label now flag d id r sh shs mi : d_nodes d = {[id := r]} → silent now r = false → checkState (r_state r) = Ret tt →
  ns_Shards (r_state r) = sh :: shs → ss_MiningState sh = Some mi → ss_SubmissionState sh = None →
  d_lastNotification d + emailReportInterval < now → ns_Contract (r_state r) ∈ email_contracts flag →
  Report label now true flag [(id, r)] d = Panic NilPointer.
Proof.
  intros Hn Hs Hc Hsh Hmi Hsu Hdue Hin. rw /Report foldM_one /visit -/(silent now r) Hs. cbn [sa_summary].
  destruct (count_node_spec ∅ [] (r_state r)) as (summary & -> & _); [by intros c; rw lookup_empty|done|].
  cbn [mbind gores_bind mret gores_ret sa_network]. rw (proj2 (Z.ltb_lt _ _) Hdue) /add_node lookup_empty /= insert_empty map_to_list_singleton foldM_one.
  rw bool_decide_true // insert_empty map_to_list_singleton /outputSummaryHtml /= foldM_one Hsh /go_map foldM_cons /summary_row Hmi Hsu. done.
Qed.

(** ** Examples *)

Definition ex_label (st : NodeState) (sh : ShardState) : string := ns_Id st.

Definition ex_synced : SyncState := mkSyncState 3 10 0 10000 60 2 0 10000 60.

Definition ex_shard (mining : option MiningState) : ShardState := mkShardState 0 [1] (Some ex_synced) 0 mining None.

Definition ex_state (mining : option MiningState) : NodeState := mkNodeState "node" "contract" "v1" "1.2.3.4:9222" 12 5 (Some (mkScanStats 1 0)) [ex_shard mining].

Definition ex_dashboard (mining : option MiningState) : dashboard := (from_ret (false, newDashboard 0) (ReportStateHandler ex_label 0 (Ret (ex_state mining)) (newDashboard 0))).2.

Lemma Report_spec_witness : ∃ mails d' summary,
  Report ex_label minute true "contract" (map_to_list (d_nodes (ex_dashboard None))) (ex_dashboard None) = Ret (mails, d') ∧ dashboard_ok d' ∧
  d_nodes d' = filter (λ x, silent minute x.2 = false) (d_nodes (ex_dashboard None)) ∧
  PeersOfContract (d_m d') = count <$> summary ∧ summary_ok summary (live_states minute (map_to_list (d_nodes (ex_dashboard None)))).
Proof.
  have E : d_nodes (ex_dashboard None) = {["node"%string := mkRecord 0 (ex_state None)]} by vm_compute.
  apply (Report_spec ex_label minute true "contract" (map_to_list (d_nodes (ex_dashboard None))) (ex_dashboard None)); [|done|].
  - rw /dashboard_ok E. by apply map_Forall_singleton.
  - rw E. intros _ id r [_ <-]%lookup_singleton_Some. constructor; [by intros [? ?]|constructor].
Defined.

Lemma upload_recorded_witness :
  ∃ st, upload_tick "node" "contract" "v1" "addr" 12 5 (mkScanStats 0 0) [0; 1] (λ _, [1]) (Some (Ret ∅)) (Some (Ret ∅)) (Some (Ret ∅))
          (Some (Ret (<[0 := ex_synced]> {[1 := ex_synced]}))) = Ret st ∧
    ss_ShardId <$> ns_Shards st = [0; 1] ∧
    if bool_decide ([0; 1] ≠ [] ∧ Forall (λ i, is_Some ((<[0 := ex_synced]> {[1 := ex_synced]} : gmap Z SyncState) !! i)) [0; 1])
    then ∃ d', ReportStateHandler ex_label 7 (Ret st) (newDashboard 0) = Ret (true, d') ∧ d_nodes d' !! "node"%string = Some (mkRecord 7 st) ∧ dashboard_ok d'
    else ReportStateHandler ex_label 7 (Ret st) (newDashboard 0) = Ret (false, newDashboard 0).
Proof. apply (upload_recorded ex_label "node" "contract" "v1" "addr" 12 5 (mkScanStats 0 0) [0; 1]). apply map_Forall_empty. Defined.
