(* ===== verification/EsUtils.v ===== *)
(** * The utility program on data files (cmd/es-utils/main.go, and ComputeBlobs of cmd/es-utils/utils/utils.go)

    The commands of es-utils that create, read and write data files.  A command works on the files of a directory and
    ends with its output or with an error, as [log.Crit] exits; the open files of a shard are written back to the disk by
    name. *)

From S2P Require Import Prelude Extern GoStrings DataFile ChunkCodec DataShard BlobSources BlobEncoder BlobEncoderFacts BlobFields.

(** The contents of files by name. *)
Definition disk := gmap string bytes.

(** ** The flags *)

Record Flags := mkFlags {
  filenames : list string;
  miner : string;
  dumpFolder : string;
  chunkLen : Z; kvLen : Z; chunkIdx : Z; readLen : Z;
  shardIdx : Z; kvSize : Z; kvEntries : Z; kvIdx : Z; readStart : Z; readEnd : Z; chunkSize : Z;
  commitString : string;
  encodeType : Z;
  readEncoded : bool;
  sampleIdx : Z }.

(** The system and go-ethereum's [common]: which files can be created, how space is allocated, texts as addresses and
    hashes. *)
Class Sys := {
  perm : string → bool;
  fallocate : file → Z → Z → gores file;
  HexToAddress : string → bytes;
  HexToHash : string → bytes }.

(** [HexToAddress] and [HexToHash] return arrays of 20 and 32 bytes. *)
Class SysLaws (SY : Sys) : Prop := {
  fallocate_allocates : fallocate_ok fallocate;
  HexToAddress_length s : length (HexToAddress s) = 20%nat;
  HexToHash_length s : zlen (HexToHash s) = 32 }.

(** [log.Crit] with an error. *)
Definition crit {A} (msg : string) (r : gores A) : gores A :=
  match r with Fail e => Fail (ErrWrap msg e) | r => r end.

Section commands.
Context `{G : Geth} `{SY : Sys}.

(** ** create *)

(** [Create] got as far as [os.Create], which truncates. *)
Definition truncated (f : Flags) (name : string) (chunkIdx chunkLen : Z) : bool :=
  match Create (λ file _ _, Ret file) (perm name) chunkIdx chunkLen 0 (kvSize f) (encodeType f) (HexToAddress (miner f)) (chunkSize f) with
  | Ret _ => true
  | _ => false
  end.

Definition create_file (f : Flags) (name : string) (chunkIdx chunkLen : Z) : ST disk unit := λ d,
  match Create fallocate (perm name) chunkIdx chunkLen 0 (kvSize f) (encodeType f) (HexToAddress (miner f)) (chunkSize f) with
  | Ret df => (Ret tt, <[name := f_data (df_file df)]> d)
  | Fail e => (Fail (ErrWrap "Create failed" e), if truncated f name chunkIdx chunkLen then <[name := []]> d else d)
  | Panic p => (Panic p, d)
  end.

Definition single_file (f : Flags) : gores string :=
  match filenames f with [name] => mret name | _ => Fail (ErrMsg "Must provide single filename") end.

(** Without [chunk_len], the chunks are those of [kv_len] KVs from [kv_idx] on. *)
Definition runCreate (f : Flags) : ST disk unit :=
  name ← st_lift (single_file f);
  if negb (encodeType f =? NO_ENCODE) && bool_decide (miner f = "")%string then st_lift (Fail (ErrMsg "Must provide miner"))
  else if chunkSize f =? 0 then st_lift (Fail (ErrMsg "Chunk size should not be 0"))
  else if negb (kvSize f mod chunkSize f =? 0) then st_lift (Fail (ErrMsg "Max kv size %% chunk size should be 0"))
  else if (chunkLen f =? 0) && (kvLen f =? 0) then st_lift (Fail (ErrMsg "Chunk_Len or kv_Len is needed"))
  else if (0 <? chunkLen f) && (0 <? kvLen f) then st_lift (Fail (ErrMsg "Only one of chunk_Len and kv_Len is nonzero"))
  else
    let chunkPerKV := kvSize f / chunkSize f in
    if chunkLen f =? 0
    then create_file f name (mul64 (kvIdx f) chunkPerKV) (mul64 (kvLen f) chunkPerKV)
    else create_file f name (chunkIdx f) (chunkLen f).

(** ** Open files *)

Definition open (d : disk) (name : string) : gores DataFile :=
  crit "Open failed" (OpenDataFile match d !! name with
                                   | Some dat => Ret (mkFile dat false)
                                   | None => Fail (ErrMsg "no such file or directory")
                                   end).

(** What the open files hold is what is on disk; of two handles of one file only the first is ever used. *)
Definition save (names : list string) (dfs : list DataFile) (d : disk) : disk :=
  foldr (λ '(name, df) d, <[name := f_data (df_file df)]> d) d (zip names dfs).

(** ** chunk_read and chunk_write *)

Definition runChunkRead (f : Flags) (d : disk) : gores bytes :=
  name ← single_file f;
  df ← open d name;
  crit "Open failed" (DataFile.Read df (chunkIdx f) (int64 (readLen f))).

(** Standard input: the byte or the error of the n-th [ReadByte]. *)
Definition input := nat → gores Z.

(** Every error but the end of the input counts as a zero byte. *)
Fixpoint readInputBytes (fuel : nat) (stdin : input) (i : nat) (b : bytes) : gores bytes :=
  match fuel with
  | O => Panic OutOfFuel
  | S fuel =>
      match stdin i with
      | Ret c => readInputBytes fuel stdin (S i) (b ++ [c])
      | Fail e => if decide (e = EOF) then mret b else readInputBytes fuel stdin (S i) (b ++ [0])
      | Panic p => Panic p
      end
  end.

Definition runChunkWrite (f : Flags) (bs : gores bytes) : ST disk unit := λ d,
  match (name ← single_file f; df ← open d name; bs ← bs; mret (name, df, bs)) with
  | Ret (name, df, bs) =>
      match DataFile.Write (chunkIdx f) bs df with
      | (r, df) => (crit "Write failed" r, save [name] [df] d)
      end
  | Fail e => (Fail e, d)
  | Panic p => (Panic p, d)
  end.

(** ** Shards *)

Definition add_file (d : disk) (ds : DataShard) (filename : string) : gores DataShard :=
  df ← open d filename;
  let '(r, ds) := AddDataFile df ds in
  _ ← crit "Open failed" r;
  mret ds.

(** An incomplete shard is only warned about. *)
Definition initDataShard (f : Flags) (d : disk) : gores DataShard :=
  ds ← NewDataShard (shardIdx f) (kvSize f) (kvEntries f) (chunkSize f);
  ds ← foldM (add_file d) ds (filenames f);
  _ ← IsComplete ds;
  mret ds.

Definition runShardRead (f : Flags) (d : disk) : gores bytes :=
  ds ← initDataShard f d;
  crit "Read failed" (if readEncoded f then DataShard.ReadEncoded ds (kvIdx f) (int64 (readLen f))
                      else DataShard.Read ds (kvIdx f) (int64 (readLen f)) (HexToHash (commitString f))).

Definition runMetaRead (f : Flags) (d : disk) : gores (list Z) :=
  ds ← initDataShard f d;
  '(b, err) ← crit "Read failed" (DataShard.ReadMeta ds (kvIdx f));
  match err with
  | Some e => Fail (ErrWrap "Read failed" e)
  | None => mret (EncodeToString b)
  end.

Definition runSampleRead (f : Flags) (d : disk) : gores bytes :=
  ds ← initDataShard f d;
  crit "Read failed" (DataShard.ReadSample ds (sampleIdx f)).

(** The files of a shard after an operation on it. *)
Definition on_shard (f : Flags) (op : ST DataShard unit) : ST disk unit := λ d,
  match initDataShard f d with
  | Ret ds => let '(r, ds) := op ds in (crit "Write failed" r, save (filenames f) (ds_dataFiles ds) d)
  | Fail e => (Fail e, d)
  | Panic p => (Panic p, d)
  end.

(** The shard is opened before the input is read. *)
Definition runShardWrite (f : Flags) (bs : gores bytes) : ST disk unit :=
  on_shard f (bs ← st_lift bs; DataShard.Write (kvIdx f) bs (HexToHash (commitString f))).

(** *** kv_read *)

(** The name of a dump is made of the first five bytes of the KV: [b[0:5]] reaches past the bytes that were asked for, into
    the array of the whole KV, whose capacity is 8 at least. *)
Definition dump_name (f : Flags) (whole : bytes) : string :=
  (dumpFolder f +:+ "/" +:+ String.string_of_list_ascii ((λ c, chr (Z.to_nat c)) <$> EncodeToString (take 5 (whole ++ zeros 8))) +:+ ".dat")%string.

Definition dump_kv (f : Flags) (ds : DataShard) (d : disk) (i : Z) : gores disk :=
  '(b, _) ← crit "Read failed" (ReadWithMeta ds i (int64 (readLen f)));
  '(whole, _) ← ReadWithMeta ds i (int64 (kvSize f));
  let fileName := dump_name f whole in
  if perm fileName then mret (<[fileName := b]> d) else Fail (ErrMsg "Error creating file:").

Definition runKVRead (f : Flags) (d : disk) : gores disk :=
  ds ← initDataShard f d;
  foldM (dump_kv f ds) d (seqZ (readStart f) (readEnd f - readStart f)).

(** ** Blobs *)

(** [kzg4844] and [crypto/sha256]. *)
Class BlobKzg := {
  BlobToCommitment : bytes → gores bytes;
  ComputeCellProofs : bytes → gores (list bytes);
  Sum256 : bytes → bytes }.

Context `{BK : BlobKzg}.

Definition blobCommitmentVersionKZG : Z := 1.

(** [h[0] = blobCommitmentVersionKZG] on an array of 32 bytes. *)
Definition kZGToVersionedHash (kzg : bytes) : bytes := <[0%nat := blobCommitmentVersionKZG]> (Sum256 kzg).

Definition compute_blob (acc : list bytes * list bytes * list bytes) (blob : bytes) : gores (list bytes * list bytes * list bytes) :=
  let '(commits, proofs, versionedHashes) := acc in
  commit ← BlobToCommitment blob;
  cellProofs ← crit "cannot compute KZG cell proofs for blob in tx candidate" (ComputeCellProofs blob);
  mret (commits ++ [commit], proofs ++ cellProofs, versionedHashes ++ [kZGToVersionedHash commit]).

Definition ComputeBlobs (blobs : list bytes) : gores (list bytes * list bytes * list bytes) := foldM compute_blob ([], [], []) blobs.

(** Only the first blob of the input is written. *)
Definition runWriteBlob (f : Flags) (bs : gores bytes) : ST disk unit :=
  bs ← st_lift bs;
  blobs ← st_lift (EncodeBlobs bs);
  '(commitments, _, versionedHashes) ← st_lift (crit "Compute versioned hash failed" (ComputeBlobs blobs));
  h ← st_lift (index versionedHashes 0);
  _ ← st_lift (index commitments 0);
  blob ← st_lift (index blobs 0);
  on_shard f (DataShard.Write (kvIdx f) blob h).

End commands.

(** ** Files across runs *)

(** A file with the same first 4096 bytes opens with the same parameters. *)
Lemma OpenDataFile_header f f' df : OpenDataFile (Ret f) = Ret df → f_closed f = false → f_closed f' = false →
  take (Z.to_nat HEADER_SIZE) (f_data f') = take (Z.to_nat HEADER_SIZE) (f_data f) → OpenDataFile (Ret f') = Ret (set_file df f').
Proof.
  intros Ho Hf Hf' Hh. move: Ho. rw /OpenDataFile /mbind /gores_bind /readHeader. cbn [df_file].
  have -> : ReadAt f' HEADER_SIZE 0 = ReadAt f HEADER_SIZE 0.
  { rw /ReadAt Hf Hf' !drop_0 Hh //. }
  destruct (ReadAt f HEADER_SIZE 0) as [[b n] [e|]]; [done|]. destruct (negb _); [done|]. rw /mbind /gores_bind.
  destruct ((parse_header b).1) as [h| |]; [|done|done]. do 3 (case_match; [done|]). by intros [= <-].
Qed.

Lemma OpenDataFile_file f df : OpenDataFile (Ret f) = Ret df → df_file df = f.
Proof.
  rw /OpenDataFile /mbind /gores_bind /readHeader. cbn [df_file].
  destruct (ReadAt _ _ _) as [[b n] [e|]]; [done|]. destruct (negb _); [done|]. rw /mbind /gores_bind.
  destruct ((parse_header b).1) as [h| |]; [|done|done]. do 3 (case_match; [done|]). by intros [= <-].
Qed.

Lemma crit_Ret {A} msg (r : gores A) x : crit msg r = Ret x → r = Ret x.
Proof. by destruct r. Qed.

Section facts.
Context `{G : Geth} `{SY : Sys}.

Lemma open_inv d name df : open d name = Ret df →
  ∃ dat, d !! name = Some dat ∧ OpenDataFile (Ret (mkFile dat false)) = Ret df ∧ df_file df = mkFile dat false.
Proof.
  rw /open. destruct (d !! name) as [dat|]; [|done]. intros Ho%crit_Ret. exists dat. split_and!; [done|exact Ho|].
  exact (OpenDataFile_file _ _ Ho).
Qed.

Lemma open_saved d d' name df df' : open d name = Ret df → d' !! name = Some (f_data (df_file df')) → f_closed (df_file df') = false →
  same_params df df' →
  take (Z.to_nat HEADER_SIZE) (f_data (df_file df')) = take (Z.to_nat HEADER_SIZE) (f_data (df_file df)) → open d' name = Ret df'.
Proof.
  intros (dat & _ & Ho & Hf)%open_inv Hd Hc Hp Hh. rw Hf in Hh. cbn [f_data] in Hh.
  rw /open Hd (OpenDataFile_header _ (mkFile (f_data (df_file df')) false) _ Ho) //. rw /crit. f_equal. transitivity (set_file df (df_file df')); [|exact Hp]. f_equal.
  destruct (df_file df') as [x c]. cbn in *. by subst c.
Qed.

Lemma add_file_inv d ds name ds' : add_file d ds name = Ret ds' →
  ∃ df, open d name = Ret df ∧ AddDataFile df ds = (Ret tt, ds') ∧ ds' = set_files ds (ds_dataFiles ds ++ [df]).
Proof.
  rw /add_file /mbind /gores_bind. destruct (open d name) as [df| |]; [|done|done].
  destruct (AddDataFile df ds) as [r ds2] eqn:Ea. destruct r as [[]| |]; [|done|done]. intros [= <-]. exists df. split_and!; [done|done|].
  move: Ea. rw /AddDataFile. destruct (ds_dataFiles ds) as [|df0 files]; [by intros [= <-]|].
  do 3 (destruct (negb _); [done|]). by intros [= <-].
Qed.

Lemma add_files_inv d names : ∀ ds ds1, foldM (add_file d) ds names = Ret ds1 →
  ∃ dfs, Forall2 (λ name df, open d name = Ret df) names dfs ∧ ds1 = set_files ds (ds_dataFiles ds ++ dfs).
Proof.
  induction names as [|name names IH]; intros ds ds1.
  { intros [= <-]. exists []. rw app_nil_r. split; [done|by destruct ds]. }
  rw foldM_cons /mbind /gores_bind. destruct (add_file d ds name) as [ds2| |] eqn:E; [|done|done].
  apply add_file_inv in E as (df & Ho & _ & ->). intros (dfs & HF & ->)%IH. exists (df :: dfs). split; [by constructor|].
  by rw /set_files /= -app_assoc.
Qed.

Lemma AddDataFile_again ds ds' df df' : Forall2 same_params (ds_dataFiles ds) (ds_dataFiles ds') → same_params df df' →
  (AddDataFile df ds).1 = Ret tt → AddDataFile df' ds' = (Ret tt, set_files ds' (ds_dataFiles ds' ++ [df'])).
Proof.
  intros HF (_ & _ & He & Hk & _ & _ & Hm)%same_params_fields. rw /AddDataFile.
  destruct HF as [|x y xs ys (_ & _ & He' & Hk' & _ & _ & Hm')%same_params_fields HF]; [done|].
  rw He Hk Hm He' Hk' Hm'. by do 3 (destruct (negb _); [done|]).
Qed.

(** The same files with other contents make the same shard with these contents. *)
Lemma add_files_again d d' names : ∀ ds ds1 ds' dfs dfs',
  foldM (add_file d) ds names = Ret ds1 → Forall2 same_params (ds_dataFiles ds) (ds_dataFiles ds') →
  Forall2 (λ name df, open d name = Ret df) names dfs → Forall2 same_params dfs dfs' →
  Forall2 (λ name df, open d' name = Ret df) names dfs' →
  foldM (add_file d') ds' names = Ret (set_files ds' (ds_dataFiles ds' ++ dfs')).
Proof.
  induction names as [|name names IH]; intros ds ds1 ds' dfs dfs'.
  { intros _ _ _ _ ->%Forall2_nil_inv_l. rw app_nil_r. by destruct ds'. }
  rw !foldM_cons /mbind /gores_bind. destruct (add_file d ds name) as [ds2| |] eqn:E; [|done|done].
  apply add_file_inv in E as (df & Ho & Ha & ->). intros Hf Hs. inversion 1 as [|? dfx ? dfs0 Hox HF]; subst.
  rw Ho in Hox. injection Hox as <-. inversion 1 as [|? df' ? dfs0' Hp HP]; subst. inversion 1 as [|? ? ? ? Ho' HF']; subst.
  rw /add_file Ho' /mbind /gores_bind (AddDataFile_again ds ds' df df') //; [by rw Ha|]. rw /crit /mret /gores_ret.
  rw (IH _ _ (set_files ds' (ds_dataFiles ds' ++ [df'])) dfs0 dfs0' Hf) //; [|by rw /set_files /= -app_assoc].
  apply Forall2_app; [done|by constructor].
Qed.

Lemma initDataShard_inv f d ds : initDataShard f d = Ret ds →
  ∃ ds0, NewDataShard (shardIdx f) (kvSize f) (kvEntries f) (chunkSize f) = Ret ds0 ∧ ds_dataFiles ds0 = [] ∧
    foldM (add_file d) ds0 (filenames f) = Ret ds ∧ Forall2 (λ name df, open d name = Ret df) (filenames f) (ds_dataFiles ds) ∧
    ds = set_files ds0 (ds_dataFiles ds).
Proof.
  rw /initDataShard /mbind /gores_bind. destruct (NewDataShard _ _ _ _) as [ds0| |] eqn:E0; [|done|done].
  have Hn : ds_dataFiles ds0 = [].
  { move: E0. rw /NewDataShard /umod /udiv. destruct (chunkSize f =? 0); [done|]. rw /mbind /gores_bind. destruct (negb _); [done|]. by intros [= <-]. }
  destruct (foldM _ _ _) as [ds1| |] eqn:EF; [|done|done]. destruct (IsComplete_spec ds1) as (b & -> & _). intros [= <-].
  destruct (add_files_inv _ _ _ _ EF) as (dfs & HF & E1). rw Hn /= in E1. exists ds0. rw E1 in EF |- *. clear E1.
  by split_and!.
Qed.

(** After the files of a shard are saved, the next run opens the same shard. *)
Lemma initDataShard_again f f' d d' ds ds' : initDataShard f d = Ret ds →
  (shardIdx f', kvSize f', kvEntries f', chunkSize f', filenames f') = (shardIdx f, kvSize f, kvEntries f, chunkSize f, filenames f) →
  Forall2 same_params (ds_dataFiles ds) (ds_dataFiles ds') → set_files ds (ds_dataFiles ds') = ds' →
  Forall2 (λ name df, open d' name = Ret df) (filenames f) (ds_dataFiles ds') → initDataShard f' d' = Ret ds'.
Proof.
  intros (ds0 & E0 & Hn & EF & Ho & Eds)%initDataShard_inv [= E1 E2 E3 E4 E5] HP Hs Ho'.
  rw /initDataShard E1 E2 E3 E4 E5 E0 /mbind /gores_bind.
  rw (add_files_again d d' (filenames f) ds0 ds ds0 (ds_dataFiles ds) (ds_dataFiles ds')) //; [by rw Hn|].
  have -> : set_files ds0 (ds_dataFiles ds0 ++ ds_dataFiles ds') = ds' by rw Hn -Hs [in RHS]Eds.
  destruct (IsComplete_spec ds') as (b' & -> & _). done.
Qed.

Lemma save_lookup d names : ∀ dfs i name df, NoDup names → names !! i = Some name → dfs !! i = Some df →
  save names dfs d !! name = Some (f_data (df_file df)).
Proof.
  induction names as [|n names IH]; intros dfs i name df Hnd Hn Hd; [done|]. apply NoDup_cons in Hnd as [Hni Hnd].
  destruct dfs as [|x dfs]; [by destruct i|]. rw /save /=. destruct i as [|i]; [injection Hn as ->; injection Hd as ->; apply lookup_insert_eq|].
  rw lookup_insert_ne; [intros ->; apply Hni, list_elem_of_lookup; by exists i|]. by apply (IH dfs i).
Qed.

Lemma save_other d names : ∀ dfs name, name ∉ names → save names dfs d !! name = d !! name.
Proof.
  induction names as [|n names IH]; intros dfs name Hn; [done|]. apply not_elem_of_cons in Hn as [Hn1 Hn2].
  destruct dfs as [|x dfs]; [done|]. rw /save /= lookup_insert_ne; [congruence|]. by apply IH.
Qed.

(** The flags name the same shard. *)
Definition same_shard (f f' : Flags) : Prop :=
  (shardIdx f', kvSize f', kvEntries f', chunkSize f', filenames f') = (shardIdx f, kvSize f, kvEntries f, chunkSize f, filenames f).

Lemma same_shard_init f f' d : same_shard f f' → initDataShard f' d = initDataShard f d.
Proof. intros [= E1 E2 E3 E4 E5]. by rw /initDataShard E1 E2 E3 E4 E5. Qed.

Lemma Forall2_insert_same {A} (R : A → A → Prop) l j x y : Reflexive R → l !! j = Some x → R x y → Forall2 R l (<[j := y]> l).
Proof.
  intros HR Hj Hxy. apply Forall2_same_length_lookup_2; [by rw length_insert|]. intros i a b Ha Hb.
  move: Hb. destruct (decide (i = j)) as [->|Hne].
  - rw list_lookup_insert_eq; [exact (lookup_lt_Some _ _ _ Hj)|]. intros [= <-]. by simplify_eq.
  - rw list_lookup_insert_ne; [congruence|]. rw Ha. intros [= <-]. apply HR.
Qed.

#[local] Instance same_params_refl : Reflexive same_params.
Proof. by intros []. Qed.

Lemma shard_saved f d ds j df df' C K : initDataShard f d = Ret ds → NoDup (filenames f) → ds_dataFiles ds !! j = Some df →
  only_differ C K df df' →
  initDataShard f (save (filenames f) (ds_dataFiles (replaced ds j df')) d) = Ret (replaced ds j df').
Proof.
  intros Hi Hnd Hj Hod. pose proof Hi as (ds0 & _ & _ & _ & Ho & _)%initDataShard_inv.
  have HF := Forall2_insert_same same_params (ds_dataFiles ds) j df df' same_params_refl Hj (od_params _ _ _ _ Hod).
  apply (initDataShard_again f f d _ ds (replaced ds j df') Hi); [done|exact HF|done|].
  apply Forall2_same_length_lookup_2; [rw /replaced /= length_insert; exact (Forall2_length _ _ _ Ho)|]. intros i name x Hn Hx.
  destruct (Forall2_lookup_l _ _ _ _ _ Ho Hn) as (y & Hy & Hoy).
  have Hc : f_closed (df_file x) = false ∧ same_params y x ∧
    take (Z.to_nat HEADER_SIZE) (f_data (df_file x)) = take (Z.to_nat HEADER_SIZE) (f_data (df_file y)).
  { move: Hx. rw /replaced /=. destruct (decide (i = j)) as [->|Hne].
    - rw list_lookup_insert_eq; [exact (lookup_lt_Some _ _ _ Hj)|]. intros [= <-]. rw Hy in Hj. injection Hj as <-.
      split_and!; [apply (wf_open _ (od_wf _ _ _ _ Hod))|by apply Hod|by apply Hod].
    - rw list_lookup_insert_ne; [congruence|]. rw Hy. intros [= <-]. destruct (open_inv _ _ _ Hoy) as (dat & _ & _ & E). split_and!; [by rw E|apply same_params_refl|done]. }
  destruct Hc as (Hc1 & Hc2 & Hc3). by apply (open_saved d _ name y x Hoy (save_lookup _ _ _ _ _ _ Hnd Hn Hx)).
Qed.

(** What a write of a KV by one run leaves for the next ones. *)
Record left_on_disk (f : Flags) (ds : DataShard) (b commit : bytes) (d d' : disk) : Prop := {
  lo_others name : name ∉ filenames f → d' !! name = d !! name;
  lo_read f' n : same_shard f f' → kvIdx f' = kvIdx f → take 24 (HexToHash (commitString f')) = take 24 commit →
    readEncoded f' = false → readLen f' = n → 0 ≤ n ≤ ds_kvSize ds →
    runShardRead f' d' = crit "Read failed" (_ ← checkCommit (HexToHash (commitString f')) (padded (ds_kvSize ds) b);
                                             mret (take (Z.to_nat n) (padded (ds_kvSize ds) b)));
  lo_meta f' : same_shard f f' → kvIdx f' = kvIdx f → runMetaRead f' d' = Ret (EncodeToString commit);
  lo_kvs f' : same_shard f f' → kvIdx f' ≠ kvIdx f → in_shard ds (kvIdx f') → has_file ds (kvIdx f') →
    runMetaRead f' d' = runMetaRead f' d ∧
    (readEncoded f' = true → 0 ≤ readLen f' ≤ ds_kvSize ds → runShardRead f' d' = runShardRead f' d) }.

Lemma on_shard_Write `{GL : !GethLaws G} f d ds b commit : initDataShard f d = Ret ds → NoDup (filenames f) → ds_wf ds →
  in_shard ds (kvIdx f) → has_file ds (kvIdx f) → zlen b ≤ ds_kvSize ds → zlen commit = 32 → kv_maskable ds (kvIdx f) commit →
  ∃ d', on_shard f (DataShard.Write (kvIdx f) b commit) d = (Ret tt, d') ∧ left_on_disk f ds b commit d d'.
Proof.
  intros Hi Hnd Hwf Hk Hf Hb Hc Hm. destruct (serves_exists _ _ Hf) as (j & df & Hs).
  destruct (Write_ok ds _ j df b commit Hwf Hk Hs Hb Hc Hm) as (e & df' & HW & Hkw & _).
  destruct (Write_shard ds _ b commit Hwf Hk Hf Hb Hc Hm) as (ds' & HW' & Hwf' & [Hsf _] & Hmeta & Hread & Hoth).
  rw HW in HW'. injection HW' as <-.
  have Hi' := shard_saved f d ds j df df' _ _ Hi Hnd (proj1 Hs) (kw_frame _ _ _ _ _ _ Hkw).
  have H63 : ds_kvSize ds < two63.
  { pose proof (dwf_range _ Hwf). pose proof (dwf_idx _ Hwf). pose proof (dwf_entries _ Hwf). rw /two63 in H *. nia. }
  set d' := save _ _ _ in Hi'. exists d'. split; [by rw /on_shard Hi HW|]. constructor.
  - intros name Hn. by apply save_other.
  - intros f' n Hsf' Ek Hc' Er En Hn. rw /runShardRead (same_shard_init f f' d' Hsf') Hi' /mbind /gores_bind Er Ek En.
    rw int64_small; [lia|]. rw Hread //.
  - intros f' Hsf' Ek. rw /runMetaRead (same_shard_init f f' d' Hsf') Hi' /mbind /gores_bind Ek Hmeta //.
  - intros f' Hsf' Ek Hin Hhf. destruct (Hoth _ Ek Hin Hhf) as [Hm1 Hr1].
    rw /runMetaRead /runShardRead !(same_shard_init f f' _ Hsf') Hi Hi' /mbind /gores_bind Hm1. split; [done|].
    intros -> Hn. rw Hr1 //. rw int64_small; lia.
Qed.

(** *** A new file *)

(** The flags of a create command that counts in KVs, and of a shard that holds them, within the range of [int64]. *)
Record creates (f0 : Flags) (name : string) : Prop := {
  cr_names : filenames f0 = [name];
  cr_mode : chunkLen f0 = 0;
  cr_first : 0 ≤ kvIdx f0;
  cr_len : 0 < kvLen f0;
  cr_chunk : 0 < chunkSize f0 < two63;
  cr_encode : 0 ≤ encodeType f0 ≤ ENCODE_END;
  cr_end : (kvIdx f0 + kvLen f0) * kvSize f0 < two63;
  cr_alloc : HEADER_SIZE + (chunkSize f0 + 32) * (kvLen f0 * (kvSize f0 / chunkSize f0)) < two63;
  cr_shard : 0 ≤ shardIdx f0;
  cr_entries : 0 < kvEntries f0;
  cr_range : (shardIdx f0 + 1) * kvEntries f0 * kvSize f0 < two63 }.

Lemma runCreate_inv `{SL : !SysLaws SY} f0 name d d' : creates f0 name → 0 ≤ kvSize f0 → runCreate f0 d = (Ret tt, d') →
  ∃ df, d' = <[name := f_data (df_file df)]> d ∧ df_wf df ∧ OpenDataFile (Ret (df_file df)) = Ret df ∧
    df = mkDataFile (df_file df) (kvIdx f0 * (kvSize f0 / chunkSize f0)) (kvLen f0 * (kvSize f0 / chunkSize f0))
           (encodeType f0) (kvSize f0) (chunkSize f0) 32 (HexToAddress (miner f0)) ∧
    kvSize f0 = kvSize f0 / chunkSize f0 * chunkSize f0 ∧ chunkSize f0 ≤ kvSize f0.
Proof.
  intros [Hn Hm Hk Hl Hc He Hend Hal _ _ _] Hkv. rw /runCreate /single_file Hn Hm /mbind /st_bind /st_lift.
  destruct (_ && _); [done|]. case: Z.eqb_spec => [?|_]; [lia|]. case: Z.eqb_spec => // Hmod. cbn [negb].
  case: Z.eqb_spec => // _. case: Z.eqb_spec => [?|_]; [lia|]. cbn [andb Z.ltb Z.compare].
  have Hdiv : kvSize f0 = kvSize f0 / chunkSize f0 * chunkSize f0 by apply Z.div_exact in Hmod; lia.
  set cpk := kvSize f0 / chunkSize f0 in Hdiv |- *. have Hcpk : 0 ≤ cpk by apply Z.div_pos; lia.
  rw /mul64 !wrap64_small; [rw /two63 /two64 in Hend *; nia..|]. rw /mret /gores_ret /create_file.
  destruct (Create _ _ _ _ _ _ _ _ _) as [df| |] eqn:EC; [|done|done]. intros [= <-]. exists df.
  apply Create_facts in EC as (Hwf & Ho & Edf & Hle & _); [|apply fallocate_allocates| |done|apply HexToAddress_length]; [done|].
  rw /sizes_ok. fold cpk in Hal. rw /two63 /HEADER_SIZE in Hend Hc Hal |- *. split_and!; try nia.
Qed.

(** The next run opens the new file as a shard that serves its KVs. *)
Lemma created_shard `{SL : !SysLaws SY} f0 name d d' : creates f0 name → 0 ≤ kvSize f0 → runCreate f0 d = (Ret tt, d') →
  ∃ ds, initDataShard f0 d' = Ret ds ∧ ds_wf ds ∧ ds_kvSize ds = kvSize f0 ∧ EncodeType ds = encodeType f0 ∧
    Miner ds = HexToAddress (miner f0) ∧ ds_chunkSize ds = chunkSize f0 ∧ ds_chunksPerKv ds = kvSize f0 / chunkSize f0 ∧
    (∀ k, in_shard ds k ↔ shardIdx f0 * kvEntries f0 ≤ k < (shardIdx f0 + 1) * kvEntries f0) ∧
    (∀ k, kvIdx f0 ≤ k < kvIdx f0 + kvLen f0 → has_file ds k).
Proof.
  intros Hcr Hkv HC. destruct (runCreate_inv f0 name d d' Hcr Hkv HC) as (df & -> & Hwf & Ho & Edf & Hdiv & Hle).
  destruct Hcr as [Hn Hm Hk Hl Hc He Hend Hal Hs Hent Hr]. set cpk := kvSize f0 / chunkSize f0 in Edf Hdiv |- *.
  have Hpos : 0 < cpk by nia.
  exists (mkDataShard (shardIdx f0) (kvSize f0) cpk (kvEntries f0) [df] (chunkSize f0)).
  have Hopen : open (<[name := f_data (df_file df)]> d) name = Ret df.
  { rw /open lookup_insert_eq (_ : mkFile (f_data (df_file df)) false = df_file df); [|by rw Ho].
    pose proof (wf_open _ Hwf). destruct (df_file df) as [x c]. cbn in *. by subst c. }
  split.
  { rw /initDataShard /NewDataShard /umod /udiv. case: Z.eqb_spec => [?|_]; [lia|]. rw /mbind /gores_bind.
    rw (_ : kvSize f0 mod chunkSize f0 = 0); [rw Hdiv; apply Z.mod_mul; lia|]. cbn [negb Z.eqb]. rw /mret /gores_ret Hn.
    rw foldM_one /add_file Hopen /mbind /gores_bind. cbn [AddDataFile ds_dataFiles set_files crit].
    rw /mret /gores_ret. match goal with |- context [IsComplete ?ds] => by destruct (IsComplete_spec ds) as (b & -> & _) end. }
  have Hks : kv_start df = kvIdx f0.
  { rw /kv_start Edf. cbn [df_chunkIdxStart df_chunkSize df_maxKvSize]. rw -Z.mul_assoc -Hdiv. apply Z.div_mul. lia. }
  have Hkl : kv_len df = kvLen f0.
  { rw /kv_len /data_size Edf. cbn [df_chunkIdxLen df_chunkSize df_maxKvSize]. rw -Z.mul_assoc -Hdiv. apply Z.div_mul. lia. }
  split.
  { constructor; cbn; try done; try lia. constructor; [|done]. constructor; cbn; try done; rw Edf; cbn; try done; by rw Z.div_mul; lia. }
  split_and!; cbn; try done; try (by rw Edf).
  intros k Hkk. exists df. split; [apply list_elem_of_here|]. rw /has_kv Hks Hkl. lia.
Qed.

(** *** Blobs *)

Context `{BK : BlobKzg}.

(** SHA-256 has 32 bytes, and the versioned hash of a blob is that of its commitment with the version in the first byte
    (EIP-4844). *)
Class BlobKzgLaws : Prop := {
  Sum256_length b : length (Sum256 b) = 32%nat;
  BlobVersionedHash_commitment blob : BlobVersionedHash blob = (c ← BlobToCommitment blob; mret (kZGToVersionedHash c)) }.

Lemma compute_blob_grow l : ∀ acc r, foldM compute_blob acc l = Ret r →
  acc.1.1 `prefix_of` r.1.1 ∧ acc.2 `prefix_of` r.2.
Proof.
  induction l as [|x l IH]; intros acc r; [by intros [= <-]|]. rw foldM_cons /mbind /gores_bind.
  destruct (compute_blob acc x) as [acc'| |] eqn:E; [|done|done]. intros [H1 H2]%IH. move: E. destruct acc as [[cs ps] hs].
  rw /compute_blob /mbind /gores_bind. destruct (BlobToCommitment x); [|done|done]. destruct (crit _ _); [|done|done].
  intros [= <-]. cbn in *. split; etrans; [|exact H1| |exact H2]; by eexists.
Qed.

Lemma ComputeBlobs_first blob blobs cs ps hs : ComputeBlobs (blob :: blobs) = Ret (cs, ps, hs) →
  ∃ c, BlobToCommitment blob = Ret c ∧ cs !! 0%nat = Some c ∧ hs !! 0%nat = Some (kZGToVersionedHash c).
Proof.
  rw /ComputeBlobs foldM_cons /mbind /gores_bind {1}/compute_blob /mbind /gores_bind.
  destruct (BlobToCommitment blob) as [c| |]; [|done|done]. destruct (crit _ _); [|done|done].
  intros [[cs' Hc] [hs' Hh]]%compute_blob_grow. cbn in *. exists c. by subst.
Qed.

Lemma checkCommit_blob `{BL : BlobKzgLaws} blob c : zlen blob = blob_size → BlobToCommitment blob = Ret c →
  checkCommit (kZGToVersionedHash c) blob = Ret tt.
Proof.
  intros Hl Hc. have Hv : length (kZGToVersionedHash c) = 32%nat by rw /kZGToVersionedHash length_insert Sum256_length.
  have H1 : kZGToVersionedHash c !! 0%nat = Some 1.
  { rw /kZGToVersionedHash list_lookup_insert_eq //. rw Sum256_length. lia. }
  rw /checkCommit. case_decide as He.
  { have : take 24 (kZGToVersionedHash c) !! 0%nat = Some 1 by rw lookup_take_lt; [lia|]. rw He. done. }
  have -> : go_copy (zeros blob_size) blob = blob.
  { rw go_copy_zeros; [lia|]. rw Hl Z.sub_diag. by rw /zeros app_nil_r. }
  rw BlobVersionedHash_commitment Hc. cbn [mbind gores_bind mret gores_ret]. rw /CompareCommits /zlen Hv. cbn. by rw decide_True.
Qed.

(** C38: the data commands of es-utils over four runs.  After [create] made a file for some KVs, [blob_write] of any input to
    one of them succeeds, touches no other file, and leaves a KV from which [shard_read] with the blob's versioned hash
    returns the whole blob; decoded, it is the first 126976 bytes of the input, padded with zeros.  Every other KV of
    the file keeps its stored bytes and its metadata. *)
Theorem create_write_read `{GL : !GethLaws G} `{SL : !SysLaws SY} `{BL : BlobKzgLaws} f0 f name d0 d1 data blobs cs ps hs :
  creates f0 name → kvSize f0 = blob_size → runCreate f0 d0 = (Ret tt, d1) → same_shard f0 f →
  shardIdx f0 * kvEntries f0 ≤ kvIdx f < (shardIdx f0 + 1) * kvEntries f0 → kvIdx f0 ≤ kvIdx f < kvIdx f0 + kvLen f0 →
  EncodeBlobs data = Ret blobs → ComputeBlobs blobs = Ret (cs, ps, hs) →
  (0 < constants_Q ∧ ∀ h i, hs !! 0%nat = Some h → mask_defined (encodeType f0)
     (calcEncodeKey h (kvIdx f * (kvSize f0 / chunkSize f0) + i) (HexToAddress (miner f0))) (chunkSize f0)) →
  ∃ d2 blob h, runWriteBlob f (Ret data) d1 = (Ret tt, d2) ∧ blobs !! 0%nat = Some blob ∧ hs !! 0%nat = Some h ∧
    (∀ name', name' ≠ name → d2 !! name' = d0 !! name') ∧
    DecodeBlob blob = Ret (win data 0 126976) ∧
    (∀ f', same_shard f f' → kvIdx f' = kvIdx f → HexToHash (commitString f') = h → readEncoded f' = false →
       readLen f' = blob_size → runShardRead f' d2 = Ret blob) ∧
    (∀ f', same_shard f f' → kvIdx f' ≠ kvIdx f → shardIdx f0 * kvEntries f0 ≤ kvIdx f' < (shardIdx f0 + 1) * kvEntries f0 →
       kvIdx f0 ≤ kvIdx f' < kvIdx f0 + kvLen f0 → readEncoded f' = true → 0 ≤ readLen f' ≤ blob_size →
       runMetaRead f' d2 = runMetaRead f' d1 ∧ runShardRead f' d2 = runShardRead f' d1).
Proof.
  intros Hcr Hkv HC Hsame Hin Hfile HE HB [HQ Hmask].
  destruct (runCreate_inv f0 name d0 d1 Hcr) as (df & Ed1 & _); [rw Hkv; done|done|].
  destruct (created_shard f0 name d0 d1 Hcr) as (ds & Hi & Hwf & E1 & E2 & E3 & E4 & E5 & Hsh & Hhf); [rw Hkv; done|done|].
  have Enames : filenames f = [name] by move: Hsame => [= _ _ _ _ ->]; apply (cr_names _ _ Hcr).
  have Hb0 : blobs = padded_blob data <$> seqZ 0 (blobs_needed data) by rw EncodeBlobs_eq in HE; congruence.
  rw seqZ_cons in Hb0; [rw /blobs_needed; lia|]. cbn [fmap list_fmap] in Hb0.
  set blob := padded_blob data 0 in Hb0. have Hlb : zlen blob = blob_size by apply zlen_padded_blob.
  rw Hb0 in HB. destruct (ComputeBlobs_first _ _ _ _ _ HB) as (c & Hc & Hcs & Hhs). set h := kZGToVersionedHash c in Hhs.
  have Hh : zlen h = 32 by rw /zlen /h /kZGToVersionedHash length_insert Sum256_length.
  have Hdec : DecodeBlob blob = Ret (win data 0 126976) by apply DecodeBlob_padded.
  clearbody blob. destruct (on_shard_Write f d1 ds blob h) as (d2 & HW & Hleft).
  { by rw (same_shard_init _ _ _ Hsame). }
  { rw Enames. apply NoDup_singleton. }
  { done. } { by apply Hsh. } { by apply Hhf. } { rw E1 Hkv Hlb. reflexivity. } { done. }
  { split; [done|]. intros i _. rw E2 E3 E4 E5. by apply Hmask. }
  exists d2, blob, h. split_and!.
  - rw /runWriteBlob /mbind /st_bind /st_lift HE Hb0 HB. cbn [crit].
    have -> : index hs 0 = Ret h by rw /index /= Hhs. have -> : index cs 0 = Ret c by rw /index /= Hcs. exact HW.
  - by rw Hb0.
  - done.
  - intros name' Hne. rw (lo_others _ _ _ _ _ _ Hleft); [rw Enames; set_solver|]. rw Ed1. apply lookup_insert_ne. congruence.
  - done.
  - intros f' Hs' Ek Eh Er En.
    rw (lo_read _ _ _ _ _ _ Hleft f' blob_size) // ?Eh //; [rw E1 Hkv //|].
    have -> : padded (ds_kvSize ds) blob = blob.
    { rw /padded go_copy_zeros; [rw E1 Hkv; lia|]. rw E1 Hkv Hlb Z.sub_diag. by rw /zeros app_nil_r. }
    rw checkCommit_blob //. cbn [mbind gores_bind crit mret gores_ret]. f_equal. apply take_ge. rw /zlen in Hlb. lia.
  - intros f' Hs' Ek Hin' Hf' Er Hn. destruct (lo_kvs _ _ _ _ _ _ Hleft f' Hs' Ek) as [Hm1 Hr1]; [by apply Hsh|by apply Hhf|].
    split; [done|]. apply Hr1; [done|]. by rw E1 Hkv.
Qed.

End facts.

(** ** Lost and endless input *)

(** A byte that cannot be read counts as a zero, and an input that fails for ever is read for ever. *)
Lemma readInputBytes_endless stdin e : e ≠ EOF → (∀ i, stdin i = Fail e) → ∀ fuel i b, readInputBytes fuel stdin i b = Panic OutOfFuel.
Proof.
  intros Hne Hs fuel. induction fuel as [|fuel IH]; intros i b; [done|]. cbn [readInputBytes]. rw Hs decide_False //.
Qed.

Lemma readInputBytes_all stdin n bs : (∀ i, (i < n)%nat → stdin i = Ret (default 0 (bs !! i))) → stdin n = Fail EOF → length bs = n →
  readInputBytes (S n) stdin 0 [] = Ret bs.
Proof.
  intros Hs He Hl. have Hgen : ∀ m k b, (m + k)%nat = n → b = take m bs → readInputBytes (S k) stdin m b = Ret bs.
  { intros m k. revert m. induction k as [|k IH]; intros m b Hm ->; cbn [readInputBytes].
    - rw Nat.add_0_r in Hm. subst m. rw He. case_decide; [|done]. rw take_ge //. lia.
    - rw Hs; [lia|]. apply (IH (S m)); [lia|]. symmetry. apply take_S_r.
      destruct (lookup_lt_is_Some_2 bs m) as [x Hx]; [lia|]. by rw Hx. }
  by apply (Hgen 0%nat n).
Qed.

(** ** Examples *)

Definition versioned_hash (b : bytes) : bytes := <[0%nat := 1]> (toy_hash (take 64 b)).

Definition versioned_geth : Geth := {|
  Keccak256Hash := toy_hash; Keccak512 := @Keccak512 toy_geth; BytesToHash := @BytesToHash toy_geth;
  BigToHash := @BigToHash toy_geth; BlobVersionedHash b := Ret (versioned_hash b);
  constants_Q := @constants_Q toy_geth; PoseidonHashState := @PoseidonHashState toy_geth;
  FrFFT := @FrFFT toy_geth; FrBytes := @FrBytes toy_geth |}.

Lemma versioned_geth_laws : GethLaws versioned_geth.
Proof.
  destruct toy_geth_laws. constructor; try done. intros b h [= <-]. rw /versioned_hash length_insert. apply length_be_encode_32.
Qed.

Definition toy_blob_kzg : BlobKzg := {| BlobToCommitment b := Ret (take 64 b); ComputeCellProofs _ := Ret []; Sum256 := toy_hash |}.

Lemma toy_blob_kzg_laws : BlobKzgLaws (G := versioned_geth) (BK := toy_blob_kzg).
Proof. constructor; [intros; apply length_be_encode_32|done]. Qed.

Definition ex_data : bytes := [1; 2; 3].
Definition ex_hash : bytes := versioned_hash (padded_blob ex_data 0).

Definition toy_sys : Sys := {|
  perm _ := true;
  fallocate := toy_fallocate;
  HexToAddress _ := replicate 20 7;
  HexToHash s := if bool_decide (s = "hash"%string) then ex_hash else zeros 32 |}.

Lemma toy_sys_laws : SysLaws toy_sys.
Proof.
  constructor; [apply toy_fallocate_ok|done|]. intros s. cbn. case_bool_decide; [|done].
  by rw /zlen /ex_hash /versioned_hash length_insert length_be_encode_32.
Qed.

(** Two KVs of one chunk each, from KV 2 on, in the second of the shards of two. *)
Definition ex_flags (idx : Z) (commit : string) : Flags :=
  mkFlags ["es.dat"%string] "0x07" "" 0 2 0 blob_size 1 blob_size 2 idx 0 0 blob_size commit ENCODE_KECCAK_256 false 0.

Lemma ex_creates : creates (ex_flags 2 "") "es.dat".
Proof. constructor; by vm_compute. Qed.

Lemma ex_range :
  shardIdx (ex_flags 2 "") * kvEntries (ex_flags 2 "") ≤ kvIdx (ex_flags 3 "") < (shardIdx (ex_flags 2 "") + 1) * kvEntries (ex_flags 2 "") ∧
  kvIdx (ex_flags 2 "") ≤ kvIdx (ex_flags 3 "") < kvIdx (ex_flags 2 "") + kvLen (ex_flags 2 "").
Proof. by vm_compute. Qed.

Lemma create_write_read_witness : ∃ d1 d2 blob,
  runCreate (SY := toy_sys) (ex_flags 2 "") ∅ = (Ret tt, d1) ∧
  runWriteBlob (G := versioned_geth) (BK := toy_blob_kzg) (ex_flags 3 "") (Ret ex_data) d1 = (Ret tt, d2) ∧
  runShardRead (G := versioned_geth) (SY := toy_sys) (ex_flags 3 "hash") d2 = Ret blob ∧ DecodeBlob blob = Ret (win ex_data 0 126976).
Proof.
  pose proof versioned_geth_laws. pose proof toy_blob_kzg_laws. pose proof toy_sys_laws.
  destruct (Create_succeeds toy_fallocate 2 2 0 blob_size ENCODE_KECCAK_256 (replicate 20 7) blob_size) as [df Hdf].
  { intros. by eexists. } { by vm_compute. } { done. } { done. } { done. } { done. } { done. } { done. }
  have HC : runCreate (SY := toy_sys) (ex_flags 2 "") ∅ = (Ret tt, {["es.dat"%string := f_data (df_file df)]}).
  { change (create_file (SY := toy_sys) (ex_flags 2 "") "es.dat" 2 2 ∅ = (Ret tt, {["es.dat"%string := f_data (df_file df)]})).
    rw /create_file. cbn [kvSize ex_flags encodeType miner chunkSize HexToAddress toy_sys fallocate perm]. by rw Hdf. }
  have HE : EncodeBlobs ex_data = Ret [padded_blob ex_data 0] by apply EncodeBlobs_eq.
  have HB : ∀ x, ComputeBlobs (BK := toy_blob_kzg) [x] = Ret ([take 64 x], [], [versioned_hash x]) by done.
  pose proof ex_creates as Hcr. destruct ex_range as [Hr1 Hr2].
  have Hex : ex_hash = versioned_hash (padded_blob ex_data 0) by reflexivity.
  set b := padded_blob ex_data 0 in HE Hex.
  destruct (create_write_read (G := versioned_geth) (SY := toy_sys) (BK := toy_blob_kzg) (ex_flags 2 "") (ex_flags 3 "") "es.dat" ∅
              {["es.dat"%string := f_data (df_file df)]} ex_data _ _ _ _ Hcr eq_refl HC eq_refl Hr1 Hr2 HE (HB b)) as (d2 & blob & h & Hall).
  { clear -df. split; [done|]. intros. split; done. }
  destruct Hall as (HW & _ & Hh & _ & Hd & Hr & _).
  exists {["es.dat"%string := f_data (df_file df)]}, d2, blob. split_and!; [exact HC|exact HW| |exact Hd].
  apply Hr; [reflexivity|reflexivity| |reflexivity|reflexivity]. injection Hh as <-. exact Hex.
Defined.
