(* ===== verification/EsSend.v ===== *)
(** * The utility program on the chain (cmd/es-utils/utils/utils.go, and the upload command of cmd/es-utils/main.go)

    Blob transactions: the fees and the value, the retries and the wait for inclusion; the upload of blobs to the storage
    contract and what it reports; random blob files.  The node, the wallet, the ABI and 256-bit numbers are parameters. *)

From stdpp Require Import pretty.
From S2P Require Import Prelude Extern GoStrings GoBig DataFile ChunkCodec BlobSources BlobEncoder BlobEncoderFacts BlobFields EsUtils.

(** ** Numbers of transactions *)

(** [uint256.FromBig]: the number and whether it did not fit. *)
Class U256 := { FromBig : Z → Z * bool }.

(** Numbers of 256 bits are kept, larger ones do not fit. *)
Class U256Laws (U : U256) : Prop := {
  FromBig_fits x : 0 ≤ x < 2 ^ 256 → FromBig x = (x, false);
  FromBig_overflows x : 2 ^ 256 ≤ x → (FromBig x).2 = true }.

(** A transaction as it is signed: [Sidecar] holds the blobs, commitments and proofs. *)
Record BlobTx := mkBlobTx {
  ChainID : option Z; Nonce : Z; GasTipCap : Z; GasFeeCap : Z; Gas : Z; To : bytes; Value : Z; Data : bytes;
  BlobFeeCap : Z; BlobHashes : list bytes; Sidecar : list bytes * list bytes * list bytes }.

(** The node by its answers: the n-th try to send, the n-th look at the transaction (whether it was found and is no longer
    pending), the call of upfrontPayment(); and go-ethereum's parsers and signer. *)
Class SendNet := {
  Tx : Type;
  DialContext : option error;
  call_upfrontPayment : gores bytes;
  unpack_uint256 : bytes → gores Z;
  HexToECDSA : string → gores Z;
  PendingNonceAt : gores Z;
  SuggestGasPrice : gores Z;
  eth_blobBaseFee : gores string;
  ParseHexOrString : string → gores bytes;
  MustSignNewTx : Z → BlobTx → gores Tx;
  SendTransaction : nat → Tx → option error;
  TransactionByHash : nat → Tx → gores (Tx * bool) }.

Section send.
Context `{U : U256} `{N : SendNet} `{BK : BlobKzg}.

Definition DecodeUint256String (hexOrDecimal : string) : gores Z :=
  let base := if String.prefix "0x" hexOrDecimal then 16 else 10 in
  match SetString hexOrDecimal base with
  | None => Fail (ErrMsg "invalid value")
  | Some b => let '(val256, nok) := FromBig b in
              if (nok : bool) then Fail (ErrMsg "value is too big") else mret val256
  end.

Definition queryBlobBaseFee : gores Z :=
  hex ← eth_blobBaseFee;
  match SetString hex 0 with
  | None => Fail (ErrMsg "invalid blob base fee")
  | Some blobBaseFee => mret blobBaseFee
  end.

(** The number, or the exit when it does not fit. *)
Definition from_big (msg : string) (x : Z) : gores Z :=
  let '(v, overflow) := FromBig x in if (overflow : bool) then Fail (ErrMsg msg) else mret v.

Definition gas_price (gasPrice : string) : gores Z :=
  if bool_decide (gasPrice = "")%string
  then val ← crit "Error getting suggested gas price" SuggestGasPrice; from_big "Gas price is too high!" val
  else crit "Invalid gas price" (DecodeUint256String gasPrice).

Definition blob_price (maxFeePerDataGas : string) : gores Z :=
  if bool_decide (maxFeePerDataGas = "")%string
  then fee ← crit "Error getting blob base fee" queryBlobBaseFee; from_big "Error converting blob base fee to uint256" fee
  else crit "Invalid max_fee_per_data_gas" (DecodeUint256String maxFeePerDataGas).

(** The larger of the value that was asked for and the upfront payment. *)
Definition tx_value (value : string) : gores Z :=
  bs ← crit "Failed to get upfront fee" call_upfrontPayment;
  res ← crit "Failed to unpack values" (unpack_uint256 bs);
  match SetString value 0 with
  | None => Fail (ErrMsg "Invalid value param")
  | Some val => from_big "Invalid value param" (if val <? res then res else val)
  end.

(** [uint256.MustFromBig] of a pointer. *)
Definition must_from_big (x : option Z) : gores (option Z) :=
  match x with
  | None => mret None
  | Some x => let '(v, overflow) := FromBig x in if (overflow : bool) then Panic (Explicit "overflow") else mret (Some v)
  end.

Definition maxRetries : nat := 5.

(** Tries [i], [i+1], ..., [maxRetries]. *)
Fixpoint send_loop (more : nat) (i : nat) (tx : Tx) : gores nat :=
  match SendTransaction i tx with
  | None => mret i
  | Some e => match more with
              | O => Fail (ErrWrap "Unable to send transaction" e)
              | S more => send_loop more (S i) tx
              end
  end.

(** [for { ... }] until the transaction is found and not pending. *)
Fixpoint wait_loop (fuel : nat) (i : nat) (tx : Tx) : gores Tx :=
  match fuel with
  | O => Panic OutOfFuel
  | S fuel =>
      match TransactionByHash i tx with
      | Ret (txn, false) => mret txn
      | Panic p => Panic p
      | _ => wait_loop fuel (S i) tx
      end
  end.

Definition make_tx (to_ : bytes) (prv : string) (data : bytes) (needEncoding : bool) (nonce : Z) (value : string) (gasLimit : Z)
    (gasPrice priorityGasPrice maxFeePerDataGas chainID calldata : string) : gores (Z * BlobTx) :=
  let chainId := SetString chainID 0 in
  _ ← (match DialContext with Some e => Fail (ErrWrap "Failed to connect to the Ethereum client" e) | None => mret tt end);
  value256 ← tx_value value;
  key ← crit "Invalid private key" (HexToECDSA prv);
  nonce ← (if nonce =? -1 then n ← crit "Error getting nonce" PendingNonceAt; mret (int64 n) else mret nonce);
  gasPrice256 ← gas_price gasPrice;
  priorityGasPrice256 ← (if bool_decide (priorityGasPrice = "")%string then mret gasPrice256
                         else crit "Invalid priority gas price" (DecodeUint256String priorityGasPrice));
  blobPrice ← blob_price maxFeePerDataGas;
  blobs ← (if needEncoding then EncodeBlobs data else ConvertToBlobs data);
  '(commitments, proofs, versionedHashes) ← crit "Failed to compute commitments" (ComputeBlobs blobs);
  calldataBytes ← crit "Failed to parse calldata" (ParseHexOrString calldata);
  chainId ← must_from_big chainId;
  mret (key, mkBlobTx chainId (wrap64 nonce) priorityGasPrice256 gasPrice256 gasLimit to_ value256 calldataBytes blobPrice
               versionedHashes (blobs, commitments, proofs)).

Definition SendBlobTx (fuel : nat) (to_ : bytes) (prv : string) (data : bytes) (needEncoding : bool) (nonce : Z) (value : string) (gasLimit : Z)
    (gasPrice priorityGasPrice maxFeePerDataGas chainID calldata : string) : gores Tx :=
  '(key, blobtx) ← make_tx to_ prv data needEncoding nonce value gasLimit gasPrice priorityGasPrice maxFeePerDataGas chainID calldata;
  tx ← MustSignNewTx key blobtx;
  _ ← send_loop maxRetries 0 tx;
  wait_loop fuel 0 tx.

(** ** Uploads *)

(** How the wait of five seconds for the receipt ends: with a receipt (its status and the topics of its logs), with an error
    of the node, or not in time; and the contract's entry count and metadata. *)
Inductive mined := Mined (status : Z) (logs : list (list bytes)) | WaitFailed (e : error) | TimedOut.

Class UploadNet := {
  PubkeyToAddress : Z → bytes;
  UnixNano : nat → Z;
  selector_putBlobs : bytes;
  pack_putBlobs : list bytes → list Z → list Z → gores bytes;
  Bytes2Hex : bytes → string;
  WaitMined : Tx → mined;
  GetStorageKvEntryCount : gores Z;
  GetKvMetas : list Z → gores (list bytes) }.

Context `{UN : UploadNet} `{G : Geth}.

(** The key of the i-th blob; the time is read for every key. *)
Definition genKey (addr : bytes) (blobIndex : Z) (data : bytes) (now : Z) : bytes :=
  Keccak256Hash (addr ++ be_min now ++ data ++ [blobIndex mod 256]).

Definition hash_of_meta (meta : bytes) : gores bytes :=
  h ← slice meta (32 - HashSizeInContract) 32;
  mret (go_copy (zeros 32) h).

(** [i] runs from [lastIdx - blobLen], which wraps around, up to [lastIdx]. *)
Definition getKvInfo (blobLen : Z) : gores (list Z * list bytes) :=
  lastIdx ← GetStorageKvEntryCount;
  let kvIndices := let first := sub64 lastIdx (wrap64 blobLen) in seqZ first (lastIdx - first) in
  metas ← GetKvMetas kvIndices;
  if negb (zlen metas =? zlen kvIndices) then Fail (ErrMsg "invalid params lens")
  else
    hashes ← go_map hash_of_meta metas;
    mret (kvIndices, hashes).

(** The KV index and the data hash of an event. *)
Definition event_info (topics : list bytes) : gores (Z * bytes) :=
  t1 ← index topics 1;
  dataHash ← index topics 3;
  mret (wrap64 (be_decode t1), dataHash).

(** After an error of the node, the goroutine goes on to the status of a receipt it does not have. *)
Definition UploadBlobs (fuel : nat) (private chainID : string) (contractAddr data : bytes) (needEncoding : bool) (value : string)
    : gores (list Z * list bytes) :=
  key ← HexToECDSA private;
  let signer := PubkeyToAddress key in
  blobs ← (if needEncoding then EncodeBlobs data else ConvertToBlobs data);
  let ids := seqZ 0 (zlen blobs) in
  let keys := zip_with (λ i blob, genKey signer i blob (UnixNano (Z.to_nat i))) ids blobs in
  dataField ← pack_putBlobs keys ids (replicate (length blobs) BlobSize);
  let calldata := ("0x" +:+ Bytes2Hex (selector_putBlobs ++ dataField)%list)%string in
  tx ← SendBlobTx fuel contractAddr private data needEncoding (-1) value 500000 "" "" "" chainID calldata;
  match WaitMined tx with
  | Mined status logs =>
      if status =? 0 then Fail (ErrMsg "revert")
      else
        infos ← go_map event_info logs;
        mret (infos.*1, infos.*2)
  | WaitFailed _ => Panic NilPointer
  | TimedOut => getKvInfo (zlen blobs)
  end.

(** ** Facts *)

(** The tries stop at the first that is accepted, and after the last one. *)
Lemma send_loop_spec tx more : ∀ i,
  match send_loop more i tx with
  | Ret k => (i ≤ k ≤ i + more)%nat ∧ SendTransaction k tx = None ∧ ∀ j, (i ≤ j < k)%nat → is_Some (SendTransaction j tx)
  | Fail _ => ∀ j, (i ≤ j ≤ i + more)%nat → is_Some (SendTransaction j tx)
  | Panic _ => False
  end.
Proof.
  induction more as [|more IH]; intros i; cbn [send_loop]; destruct (SendTransaction i tx) as [e|] eqn:E.
  - intros j Hj. have -> : j = i by lia. rw E. by eexists.
  - split; [lia|]. split; [done|intros; lia].
  - specialize (IH (S i)). destruct (send_loop more (S i) tx) as [k| |]; [|intros j Hj|done].
    + destruct IH as (H1 & H2 & H3). split; [lia|]. split; [done|]. intros j Hj. destruct (decide (j = i)) as [->|]; [rw E; by eexists|apply H3; lia].
    + destruct (decide (j = i)) as [->|]; [rw E; by eexists|apply IH; lia].
  - split; [lia|]. split; [done|intros; lia].
Qed.

(** The transaction is pending or unknown at the n-th look. *)
Definition waiting (tx : Tx) (n : nat) : Prop :=
  match TransactionByHash n tx with Ret (_, pending) => pending = true | Fail _ => True | Panic _ => False end.

Lemma wait_loop_spec tx n txn : ∀ fuel i, TransactionByHash (i + n) tx = Ret (txn, false) → (∀ j, (i ≤ j < i + n)%nat → waiting tx j) →
  (n < fuel)%nat → wait_loop fuel i tx = Ret txn.
Proof.
  induction n as [|n IH]; intros fuel i Hn Hw Hf; (destruct fuel as [|fuel]; [lia|]); cbn [wait_loop].
  - rw Nat.add_0_r in Hn. by rw Hn.
  - have Hi : waiting tx i by apply Hw; lia. rw /waiting in Hi.
    have IH' : wait_loop fuel (S i) tx = Ret txn by apply IH; [rw Nat.add_succ_comm //|intros; apply Hw; lia|lia].
    destruct (TransactionByHash i tx) as [[t []]| |]; done.
Qed.

(** What [ComputeBlobs] gives: for every blob its commitment and its cell proofs, and the versioned hash of the commitment. *)
Record blobs_computed (blobs commits proofs hashes : list bytes) : Prop := {
  bc_commits : Forall2 (λ blob c, BlobToCommitment blob = Ret c) blobs commits;
  bc_proofs : ∃ pss, Forall2 (λ blob ps, ComputeCellProofs blob = Ret ps) blobs pss ∧ proofs = concat pss;
  bc_hashes : hashes = kZGToVersionedHash <$> commits }.

Lemma ComputeBlobs_computed l : ∀ blobs acc r, foldM compute_blob acc l = Ret r →
  blobs_computed blobs acc.1.1 acc.1.2 acc.2 → blobs_computed (blobs ++ l) r.1.1 r.1.2 r.2.
Proof.
  induction l as [|x l IH]; intros blobs acc r; [intros [= <-] ?; by rw app_nil_r|]. rw foldM_cons /mbind /gores_bind.
  destruct (compute_blob acc x) as [acc'| |] eqn:E; [|done|done]. intros HF [H1 (pss & H2 & H3) H4]. move: E. destruct acc as [[cs ps] hs].
  rw /compute_blob /mbind /gores_bind. destruct (BlobToCommitment x) as [c| |] eqn:Ec; [|done|done].
  destruct (crit _ _) as [cps| |] eqn:Ep; [|done|done]. apply crit_Ret in Ep. intros [= <-]. cbn in *.
  have HI := IH (blobs ++ [x]) _ _ HF. rw -app_assoc in HI. apply HI. constructor; cbn.
  - apply Forall2_app; [done|by constructor].
  - exists (pss ++ [cps]). split; [apply Forall2_app; [done|by constructor]|]. by rw concat_app H3 /= app_nil_r.
  - by rw fmap_app H4.
Qed.

Lemma bind_Ret {A B} (m : gores A) (f : A → gores B) r : m ≫= f = Ret r → ∃ x, m = Ret x ∧ f x = Ret r.
Proof. destruct m as [x| |]; [|done|done]. intros Hf. by exists x. Qed.

Lemma tx_value_max `{UL : !U256Laws U} value asked bs up v : SetString value 0 = Some asked → 0 ≤ asked < 2 ^ 256 →
  call_upfrontPayment = Ret bs → unpack_uint256 bs = Ret up → 0 ≤ up < 2 ^ 256 → tx_value value = Ret v → v = Z.max asked up.
Proof.
  intros Hv Ha Hc Hu Hup. rw /tx_value Hc. cbn [crit mbind gores_bind]. rw Hu. cbn [crit mbind gores_bind]. rw Hv /from_big.
  destruct (Z.ltb_spec asked up); rw FromBig_fits // => [= <-]; lia.
Qed.

(** The fields of the transaction. *)
Record tx_made (to_ : bytes) (data : bytes) (needEncoding : bool) (asked up nonce gasLimit : Z)
    (gasPrice priorityGasPrice maxFeePerDataGas chainID calldata : string) (b : BlobTx) : Prop := {
  tm_chain : must_from_big (SetString chainID 0) = Ret (ChainID b);
  tm_value : Value b = Z.max asked up;
  tm_nonce : 0 ≤ nonce < two63 → Nonce b = nonce;
  tm_pending : nonce = -1 → ∃ n, PendingNonceAt = Ret n ∧ Nonce b = wrap64 n;
  tm_fee : gasPrice ≠ ""%string → DecodeUint256String gasPrice = Ret (GasFeeCap b);
  tm_fee_suggested : gasPrice = ""%string → ∃ g, SuggestGasPrice = Ret g ∧ FromBig g = (GasFeeCap b, false);
  tm_tip : priorityGasPrice ≠ ""%string → DecodeUint256String priorityGasPrice = Ret (GasTipCap b);
  tm_tip_default : priorityGasPrice = ""%string → GasTipCap b = GasFeeCap b;
  tm_blob_fee : maxFeePerDataGas ≠ ""%string → DecodeUint256String maxFeePerDataGas = Ret (BlobFeeCap b);
  tm_blob_fee_base : maxFeePerDataGas = ""%string → ∃ g, queryBlobBaseFee = Ret g ∧ FromBig g = (BlobFeeCap b, false);
  tm_plain : Gas b = gasLimit ∧ To b = to_ ∧ ParseHexOrString calldata = Ret (Data b);
  tm_blobs : (if needEncoding then EncodeBlobs data else ConvertToBlobs data) = Ret (Sidecar b).1.1;
  tm_sidecar : blobs_computed (Sidecar b).1.1 (Sidecar b).1.2 (Sidecar b).2 (BlobHashes b) }.

Lemma wrap64_int64 x : wrap64 (int64 x) = wrap64 x.
Proof. rw /wrap64 /int64 Zminus_mod_idemp_l. f_equal. lia. Qed.

Lemma from_big_Ret msg x v : from_big msg x = Ret v → FromBig x = (v, false).
Proof. rw /from_big. destruct (FromBig x) as [y []]; [done|]. by intros [= ->]. Qed.

Lemma gas_price_Ret gp g : gas_price gp = Ret g →
  (gp ≠ ""%string → DecodeUint256String gp = Ret g) ∧ (gp = ""%string → ∃ s, SuggestGasPrice = Ret s ∧ FromBig s = (g, false)).
Proof.
  rw /gas_price. case_bool_decide as Eg; [intros (s & H1%crit_Ret & H2%from_big_Ret)%bind_Ret|intros H%crit_Ret]; split; [done| |done|done].
  intros _. by exists s.
Qed.

Lemma blob_price_Ret fee g : blob_price fee = Ret g →
  (fee ≠ ""%string → DecodeUint256String fee = Ret g) ∧ (fee = ""%string → ∃ s, queryBlobBaseFee = Ret s ∧ FromBig s = (g, false)).
Proof.
  rw /blob_price. case_bool_decide as Eg; [intros (s & H1%crit_Ret & H2%from_big_Ret)%bind_Ret|intros H%crit_Ret]; split; [done| |done|done].
  intros _. by exists s.
Qed.

Lemma make_tx_made `{UL : !U256Laws U} to_ prv data enc nonce value gasLimit gp pgp fee chainID calldata asked bs up key b :
  SetString value 0 = Some asked → 0 ≤ asked < 2 ^ 256 → call_upfrontPayment = Ret bs → unpack_uint256 bs = Ret up → 0 ≤ up < 2 ^ 256 →
  make_tx to_ prv data enc nonce value gasLimit gp pgp fee chainID calldata = Ret (key, b) →
  HexToECDSA prv = Ret key ∧ tx_made to_ data enc asked up nonce gasLimit gp pgp fee chainID calldata b.
Proof.
  intros Hv Ha Hc Hu Hup. rw /make_tx. intros (_ & _ & H)%bind_Ret. apply bind_Ret in H as (v & Ev & H).
  apply bind_Ret in H as (k & Ek%crit_Ret & H). apply bind_Ret in H as (n & En & H). apply bind_Ret in H as (g & Eg & H).
  apply bind_Ret in H as (t & Et & H). apply bind_Ret in H as (bp & Ebp & H). apply bind_Ret in H as (blobs & Eb & H).
  apply bind_Ret in H as ([[cs ps] hs] & Ec%crit_Ret & H). apply bind_Ret in H as (cd & Ecd%crit_Ret & H). apply bind_Ret in H as (cid & Ecid & H).
  injection H as <- <-. apply (tx_value_max value asked bs up) in Ev; [|done..]. split; [done|].
  apply (ComputeBlobs_computed blobs [] ([], [], []) _) in Ec; [|constructor; cbn; [done|by exists []|done]].
  apply gas_price_Ret in Eg as [G1 G2]. apply blob_price_Ret in Ebp as [B1 B2]. constructor; cbn; try done.
  - intros Hn. destruct (Z.eqb_spec nonce (-1)); [lia|]. injection En as <-. apply wrap64_small. rw /two63 /two64 in Hn *. lia.
  - intros ->. cbn in En. apply bind_Ret in En as (m & Em%crit_Ret & [= <-]). exists m. split; [done|]. apply wrap64_int64.
  - intros Hp. rw bool_decide_eq_false_2 // in Et. by apply crit_Ret in Et.
  - intros ->. by injection Et.
Qed.

(** C39: [SendBlobTx] builds the transaction it should and sends it as often as it must: the key and the receiver are the given
    ones, the value is the larger of the one asked for and the contract's upfront payment, the nonce is the given or the
    pending one, the fee cap the given or the suggested price, the tip the given one or else the fee cap, the blob fee cap
    the given or the base fee; the blobs are those of the data, the commitments and cell proofs are the library's for these
    blobs, one after the other, and the hashes are the versioned hashes of the commitments.  When one of the six tries to send
    is accepted and the transaction is found in a block at some later look, that transaction is returned, however many
    looks it takes; when all six tries are refused it exits with an error. *)
Theorem SendBlobTx_spec `{UL : !U256Laws U} to_ prv data enc nonce value gasLimit gp pgp fee chainID calldata asked bs up key b signed :
  SetString value 0 = Some asked → 0 ≤ asked < 2 ^ 256 → call_upfrontPayment = Ret bs → unpack_uint256 bs = Ret up → 0 ≤ up < 2 ^ 256 →
  make_tx to_ prv data enc nonce value gasLimit gp pgp fee chainID calldata = Ret (key, b) → MustSignNewTx key b = Ret signed →
  HexToECDSA prv = Ret key ∧ tx_made to_ data enc asked up nonce gasLimit gp pgp fee chainID calldata b ∧
  (∀ i n tx fuel, (i ≤ 5)%nat → SendTransaction i signed = None → TransactionByHash n signed = Ret (tx, false) →
     (∀ j, (j < n)%nat → waiting signed j) → (n < fuel)%nat →
     SendBlobTx fuel to_ prv data enc nonce value gasLimit gp pgp fee chainID calldata = Ret tx) ∧
  (∀ fuel, (∀ i, (i ≤ 5)%nat → is_Some (SendTransaction i signed)) →
     ∃ e, SendBlobTx fuel to_ prv data enc nonce value gasLimit gp pgp fee chainID calldata = Fail e).
Proof.
  intros Hv Ha Hc Hu Hup Hm Hs. destruct (make_tx_made _ _ _ _ _ _ _ _ _ _ _ _ _ _ _ _ _ Hv Ha Hc Hu Hup Hm) as [Hkey Htx]. split; [done|]. split; [done|].
  pose proof (send_loop_spec signed maxRetries 0) as Hl. split.
  - intros i n tx fuel Hi Hsend Hn Hw Hf. rw /SendBlobTx Hm /mbind /gores_bind Hs.
    destruct (send_loop maxRetries 0 signed) as [k|e|p]; [by apply (wait_loop_spec signed n); auto with lia| |done].
    destruct (Hl i) as [e' He']; [rw /maxRetries; lia|]. congruence.
  - intros fuel Hall. rw /SendBlobTx Hm /mbind /gores_bind Hs.
    destruct (send_loop maxRetries 0 signed) as [k|e|p]; [|by eexists|done]. destruct Hl as (Hk & Hno & _).
    rw /maxRetries in Hk. destruct (Hall k) as [e He]; [lia|]. congruence.
Qed.

(** *** Numbers *)

Lemma DecodeUint256String_decimal `{UL : !U256Laws U} n : 0 ≤ n →
  DecodeUint256String (pretty n) = if n <? 2 ^ 256 then Ret n else Fail (ErrMsg "value is too big").
Proof.
  intros Hn. rw /DecodeUint256String pretty_not_hex.
  rw SetString_pretty; [by right|]. destruct (Z.ltb_spec n (2 ^ 256)) as [Hlt|Hge].
  - by rw FromBig_fits.
  - pose proof (FromBig_overflows n Hge). by destruct (FromBig n) as [v []].
Qed.

(** Hexadecimal values are never accepted: the base is 16, in which the prefix is not part of a number. *)
Lemma DecodeUint256String_hex s : DecodeUint256String ("0x" +:+ s)%string = Fail (ErrMsg "invalid value").
Proof. by destruct s. Qed.

(** *** The latest entries *)

Lemma getKvInfo_latest lastIdx blobLen metas : GetStorageKvEntryCount = Ret lastIdx → is_u64 lastIdx → 0 ≤ blobLen ≤ lastIdx →
  GetKvMetas (seqZ (lastIdx - blobLen) blobLen) = Ret metas → zlen metas = blobLen → Forall (λ m, zlen m = 32) metas →
  getKvInfo blobLen = Ret (seqZ (lastIdx - blobLen) blobLen, (λ m, drop 8 m ++ zeros 8) <$> metas).
Proof.
  intros Hc Hu Hb Hm Hl HF. rw /is_u64 in Hu. rw /getKvInfo Hc. cbn [mbind gores_bind]. rw /sub64 !wrap64_small; [lia..|].
  rw (_ : lastIdx - (lastIdx - blobLen) = blobLen); [lia|]. rw Hm. cbn [mbind gores_bind].
  rw Hl {1}/zlen length_seqZ Z2Nat.id; [lia|]. rw Z.eqb_refl. cbn [negb].
  have -> : go_map hash_of_meta metas = Ret ((λ m, drop 8 m ++ zeros 8) <$> metas); [|done].
  apply go_map_Forall2, Forall2_fmap_r, Forall_Forall2_diag. eapply Forall_impl; [exact HF|]. intros m Hlm. rw /compose /hash_of_meta /slice Hlm.
  change (@Ret bytes (go_copy (zeros 32) (take 24 (drop 8 m))) = Ret (drop 8 m ++ zeros 8)). rw take_ge; [rw length_drop; rw /zlen in Hlm; lia|].
  rw go_copy_zeros; [rw /zlen length_drop; rw /zlen in Hlm; lia|]. do 2 f_equal. rw /zlen length_drop. rw /zlen in Hlm. f_equal. lia.
Qed.

End send.

(** ** Random blob files (cmd/es-utils/main.go) *)

(** [crand.Int] of the n-th call, in [0, max), and [os.MkdirAll]. *)
Class Rand := { crand_Int : nat → Z → gores Z; MkdirAll : string → option error }.
Class RandLaws (R : Rand) : Prop := { crand_Int_below n max x : crand_Int n max = Ret x → 0 ≤ x < max }.

Section random.
Context `{R : Rand} `{SY : Sys}.

Definition genRandomCanonicalScalar (n : nat) : gores bytes :=
  match SetString "73eda753299d7d483339d80809a1d80553bda402fffe5bfeffffffff00000000" 16 with
  | None => Fail (ErrMsg "Error creating modulus")
  | Some maxCanonical =>
      randomNum ← crit "Error generate random number" (crand_Int n maxCanonical);
      mret (be_encode 32 randomNum)
  end.

(** The scalars of one file, from the n-th random number on. *)
Definition random_file (n : nat) (fileSize : Z) : gores bytes :=
  scalars ← go_map (λ j, genRandomCanonicalScalar (n + Z.to_nat j)) (seqZ 0 (fileSize / 32));
  mret (concat scalars).

Definition ascii_string (l : list Z) : string := String.string_of_list_ascii ((λ c, chr (Z.to_nat c)) <$> l).

Definition create (name : string) (dat : bytes) : ST disk unit := λ d,
  if perm name then (Ret tt, <[name := dat]> d) else (Fail (ErrMsg "Error creating file:"), d).

(** The j-th part of a file is dumped twice, under a name made of its first five bytes; the parts are taken at multiples of
    the size of the whole file. *)
Definition dump_blob (saveDir finalDir : string) (fileSize : Z) (data : bytes) (j : Z) : ST disk unit :=
  let at_ := mul64 j fileSize in
  head ← st_lift (slice data at_ (add64 at_ 5));
  let name := (ascii_string (EncodeToString head) +:+ ".txt")%string in
  _ ← create (saveDir +:+ "/" +:+ name)%string [];
  part ← st_lift (slice data at_ (mul64 (add64 j 1) fileSize));
  _ ← create (saveDir +:+ "/" +:+ name)%string part;
  create (finalDir +:+ "/" +:+ name)%string part.

Definition mkdir (dir : string) : gores unit := match MkdirAll dir with Some e => Fail (ErrWrap "Error:" e) | None => mret tt end.

Definition gen_file (saveDir finalDir : string) (fileSize blobNum : Z) (filesData : list bytes) (i : Z) : ST disk (list bytes) :=
  data ← st_lift (random_file (Z.to_nat (i * (fileSize / 32))) fileSize);
  _ ← st_foldM (λ _ j, dump_blob saveDir finalDir fileSize data j) tt (seqZ 0 blobNum);
  mret (filesData ++ [data]).

Definition genBlobAndDump (dumpFolder : string) (fileNum blobNum idx : Z) : ST disk (list bytes) :=
  let saveDir := (dumpFolder +:+ "/" +:+ pretty idx)%string in
  _ ← st_lift (mkdir saveDir);
  let finalDir := (dumpFolder +:+ "/final")%string in
  _ ← st_lift (mkdir finalDir);
  let fileSize := mul64 (4096 * 32) blobNum in
  st_foldM (gen_file saveDir finalDir fileSize blobNum) [] (seqZ 0 fileNum).

(** *** Facts *)

(** Every random scalar is below the order of the field, so that it is a field element of a blob. *)
Lemma genRandomCanonicalScalar_canonical `{RL : !RandLaws R} n s : genRandomCanonicalScalar n = Ret s →
  zlen s = 32 ∧ 0 ≤ be_decode s < 52435875175126190479447740508185965837690552500527637822603658699938581184513.
Proof.
  rw /genRandomCanonicalScalar.
  have -> : SetString "73eda753299d7d483339d80809a1d80553bda402fffe5bfeffffffff00000000" 16 =
    Some 52435875175126190479447740508185965837690552500527637822603658699938581184512 by vm_compute.
  intros (x & Hx%crit_Ret & [= <-])%bind_Ret. apply crand_Int_below in Hx. split; [by apply length_be_encode|].
  rw (be_decode_encode 32 x); [lia| |lia]. split; [lia|]. eapply Z.lt_trans; [apply Hx|]. by vm_compute.
Qed.

(** With two blobs to a file, the second part lies behind the end of the data. *)
Lemma dump_blob_panics saveDir finalDir fileSize data j d : 0 < fileSize → zlen data = fileSize → 1 ≤ j → (j + 1) * fileSize + 5 < two64 →
  dump_blob saveDir finalDir fileSize data j d = (Panic OutOfRange, d).
Proof.
  intros Hf Hl Hj Hb. rw /dump_blob /mbind /st_bind /st_lift. rw /mul64 /add64 (wrap64_small (j * fileSize)); [nia|].
  rw wrap64_small; [nia|]. have -> : slice data (j * fileSize) (j * fileSize + 5) = Panic OutOfRange; [|done].
  rw /slice Hl. rw (proj2 (Z.leb_gt (j * fileSize + 5) fileSize)); [nia|]. by rw andb_false_r.
Qed.

End random.

(** ** Examples: the third try is accepted and the transaction is found at the third look. *)

Definition toy_u256 : U256 := {| FromBig x := (x mod 2 ^ 256, 2 ^ 256 <=? x) |}.

Lemma toy_u256_laws : U256Laws toy_u256.
Proof.
  constructor; intros x Hx; cbn [FromBig toy_u256].
  - f_equal; [by apply Z.mod_small|]. apply Z.leb_gt. lia.
  - by apply Z.leb_le.
Qed.

Definition toy_net : SendNet := {|
  Tx := BlobTx;
  DialContext := None;
  call_upfrontPayment := Ret [9];
  unpack_uint256 b := Ret (be_decode b);
  HexToECDSA _ := Ret 1;
  PendingNonceAt := Ret 4;
  SuggestGasPrice := Ret 70;
  eth_blobBaseFee := Ret "0x1f"%string;
  ParseHexOrString _ := Ret [];
  MustSignNewTx _ tx := Ret tx;
  SendTransaction i _ := if (i <? 2)%nat then Some (ErrMsg "refused") else None;
  TransactionByHash i tx := if (i =? 0)%nat then Fail (ErrMsg "not found") else Ret (tx, (i <? 2)%nat) |}.

Definition ex_tx (blob : bytes) : BlobTx :=
  mkBlobTx (Some 5) 4 40 70 21000 (replicate 20 3) 9 [] 31 [versioned_hash blob] ([blob], [take 64 blob], []).

Lemma ex_make_tx blob : EncodeBlobs ex_data = Ret [blob] →
  make_tx (U := toy_u256) (N := toy_net) (BK := toy_blob_kzg) (replicate 20 3) "key" ex_data true (-1) "7" 21000 "" "40" "" "5" "0x" = Ret (1, ex_tx blob).
Proof. intros HE. rw /make_tx HE. done. Qed.

Lemma ex_small n : 0 ≤ n < 10 → 0 ≤ n < 2 ^ 256.
Proof. lia. Qed.

Lemma SendBlobTx_spec_witness : ∃ b,
  tx_made (U := toy_u256) (N := toy_net) (BK := toy_blob_kzg) (replicate 20 3) ex_data true 7 9 (-1) 21000 "" "40" "" "5" "0x" b ∧
  SendBlobTx (U := toy_u256) (N := toy_net) (BK := toy_blob_kzg) 3 (replicate 20 3) "key" ex_data true (-1) "7" 21000 "" "40" "" "5" "0x" = Ret b.
Proof.
  pose proof toy_u256_laws. have HE : EncodeBlobs ex_data = Ret [padded_blob ex_data 0] by apply EncodeBlobs_eq.
  exists (ex_tx (padded_blob ex_data 0)). generalize dependent (padded_blob ex_data 0). intros blob HE.
  destruct (SendBlobTx_spec (U := toy_u256) (N := toy_net) (BK := toy_blob_kzg) (replicate 20 3) "key" ex_data true (-1) "7" 21000 "" "40" "" "5" "0x"
    7 [9] 9 1 (ex_tx blob) (ex_tx blob) eq_refl (ex_small 7 ltac:(lia)) eq_refl eq_refl (ex_small 9 ltac:(lia)) (ex_make_tx blob HE) eq_refl) as (_ & H1 & H2 & _).
  split; [exact H1|]. clear HE. apply (H2 2%nat 2%nat _ 3%nat); [lia|reflexivity|reflexivity| |lia].
  intros [|[|j]] Hj; [exact I|reflexivity|lia].
Defined.
