(* ===== verification/P2pConfig.v ===== *)
(** * Configuration of the p2p stack (p2p/cli/load_config.go, p2p/config.go, p2p/peer_params.go, p2p/topic_params.go)

    From the values of the command-line flags to the configuration of the p2p stack and its check: the key of the node,
    which is made once and read back from then on, ports, addresses, transport security, peer limits. *)

From stdpp Require Import pretty.
From S2P Require Import Prelude GoStrings BlobSources PeerNet.

(** The values of the flags by name, as urfave/cli has them after parsing. *)
Record Ctx := mkCtx { GlobalString : string → string; GlobalBool : string → bool; GlobalNum : string → Z }.

(** libp2p, discv5, the resolver, and [strconv.ParseFloat] with the sort of the score bands. *)
Class P2pLibs := {
  PrivKey : Type; IP : Type; Node : Type; DB : Type; Multiaddr : Type; Store : Type;
  GenerateSecp256k1Key : gores PrivKey;
  Raw : PrivKey → gores bytes;
  UnmarshalSecp256k1PrivateKey : bytes → gores PrivKey;
  ParseIP : string → option IP;
  LookupIP : string → gores (list IP);
  To4 : IP → option IP;
  OpenDB : string → gores DB;
  enode_Parse : string → gores Node;
  DefaultBootnodes : list Node;
  NewMultiaddr : string → gores Multiaddr;
  NewDatastore : string → gores Store;
  MapDatastore : Store;
  parse_float : string → option float64;
  sort_bands : list scorePair → list scorePair }.

(** ** Scoring parameters *)

(** The time of a block in nanoseconds, as a [time.Duration]; 2 seconds when it is not known. *)
Definition slot_of (blockTime : Z) : Z :=
  let slot := int64 (int64 blockTime * 1000000000) in if slot =? 0 then 2000000000 else slot.

(** The number of times a score decays in a duration; the factor is 0.01 to the power of 1 over it. *)
Definition ScoreDecay (duration slot : Z) : gores Z := if slot =? 0 then Panic DivideByZero else mret (Z.quot duration slot).

(** [disabled] is [DisabledPeerScoreParams], with the weights 0. *)
Record PeerScoreParams := mkPeerScore {
  TopicScoreCap : Z; IPColocationFactorWeight : Z; BehaviourPenaltyWeight : Z; BehaviourPenaltyDecay : Z; DecayInterval : Z; RetainScore : Z }.

Definition PeerScoreParams_of (light : bool) (blockTime : Z) : gores PeerScoreParams :=
  let slot := slot_of blockTime in
  let epoch := int64 (6 * slot) in
  decay ← ScoreDecay (int64 (10 * epoch)) slot;
  mret (if light then mkPeerScore 34 (-35) (-16) decay slot (int64 (100 * epoch)) else mkPeerScore 0 0 0 decay slot (int64 (100 * epoch))).

Definition GetPeerScoreParams (name : string) (blockTime : Z) : gores PeerScoreParams :=
  if bool_decide (name = "light"%string) then PeerScoreParams_of true blockTime
  else if bool_decide (name = "none"%string) then PeerScoreParams_of false blockTime
  else Fail (ErrMsg "invalid params").

(** The durations and counts of the topic parameters; [TimeInMeshCap] is the number of blocks of an hour. *)
Record TopicScoreParams := mkTopicScore {
  topic_light : bool; TimeInMeshQuantum : Z; TimeInMeshCap : Z; FirstMessageDeliveriesDecay : Z; MeshMessageDeliveriesDecay : Z;
  MeshMessageDeliveriesCap : Z; MeshMessageDeliveriesActivation : Z; InvalidMessageDeliveriesDecay : Z }.

Definition DecayEpoch : Z := 5.

Definition TopicScoreParams_of (light : bool) (blockTime : Z) : gores TopicScoreParams :=
  let slot := slot_of blockTime in
  let epoch := int64 (6 * slot) in
  cap ← ScoreDecay 3600000000000 slot;
  first ← ScoreDecay (int64 (20 * epoch)) slot;
  mesh ← ScoreDecay (int64 (DecayEpoch * epoch)) slot;
  n ← ScoreDecay epoch slot;
  invalid ← ScoreDecay (int64 (50 * epoch)) slot;
  mret (mkTopicScore light slot cap first mesh (mul64 (wrap64 n) DecayEpoch) (int64 (4 * epoch)) invalid).

Definition GetTopicScoreParams (name : string) (blockTime : Z) : gores TopicScoreParams :=
  if bool_decide (name = "light"%string) then TopicScoreParams_of true blockTime
  else if bool_decide (name = "none"%string) then TopicScoreParams_of false blockTime
  else Fail (ErrMsg "invalid topic params").

Section p2p.
Context `{L : P2pLibs}.

Inductive Muxer := Yamux.
Inductive Security := Noise | Tls.

Record SyncerParams := mkSyncerParams { MaxPeers : Z; InitRequestSize : Z; SyncConcurrency : Z; FillEmptyConcurrency : Z; MetaDownloadBatchSize : Z }.

Record Config := mkP2pConfig {
  Priv : option PrivKey; DisableP2P : bool; NoDiscovery : bool;
  PeerScoring : option PeerScoreParams; TopicScoring : option TopicScoreParams; BandScoreThresholds : list scorePair; BanningEnabled : bool;
  ListenIP : option IP; ListenTCPPort : Z; ListenUDPPort : Z;
  AdvertiseIP : option IP; AdvertiseTCPPort : Z; AdvertiseUDPPort : Z; Bootnodes : list Node; DiscoveryDB : option DB;
  StaticPeers : list Multiaddr; HostMux : list Muxer; HostSecurity : list Security; NoTransportSecurity : bool;
  PeersLo : Z; PeersHi : Z; PeersGrace : Z;
  MeshD : Z; MeshDLo : Z; MeshDHi : Z; MeshDLazy : Z; FloodPublish : bool; NAT : bool; UserAgent : string;
  TimeoutNegotiation : Z; TimeoutAccept : Z; TimeoutDial : Z;
  SyncParams : option SyncerParams; conf_Store : option Store; ConnGater : bool; ConnMngr : bool }.

(** ** Ports, addresses *)

Definition validatePort (p : Z) : gores Z :=
  if p =? 0 then mret 0
  else if 65536 <=? p then Fail (ErrMsg "port out of range")
  else if p <? 1024 then Fail (ErrMsg "port is reserved for system")
  else mret p.

Definition wrap_fail {A} (msg : string) (r : gores A) : gores A := match r with Fail e => Fail (ErrWrap msg e) | r => r end.

Definition loadListenOpts (ctx : Ctx) : gores (option IP * Z * Z) :=
  let listenIP := GlobalString ctx "p2p.listen.ip" in
  ip ← (if bool_decide (listenIP = "")%string then mret None
        else match ParseIP listenIP with None => Fail (ErrMsg "failed to parse IP") | Some ip => mret (Some ip) end);
  tcp ← wrap_fail "bad listen TCP port" (validatePort (GlobalNum ctx "p2p.listen.tcp"));
  udp ← wrap_fail "bad listen UDP port" (validatePort (GlobalNum ctx "p2p.listen.udp"));
  mret (ip, tcp, udp).

(** The items of a list in a flag, without the empty ones, parsed in order. *)
Definition parse_items {A} (msg : string) (parse : string → gores A) (text : string) : gores (list A) :=
  foldM (λ acc item,
      let item := TrimSpace item in
      if bool_decide (item = "")%string then mret acc
      else a ← wrap_fail msg (parse item); mret (acc ++ [a])) [] (split_comma text).

Definition advertise_ip (adIP : string) : gores (option IP) :=
  if bool_decide (adIP = "")%string then mret None
  else
    ips ← wrap_fail "failed to lookup IP to advertise in ENR" (LookupIP adIP);
    match head (omap To4 ips) with
    | None => Fail (ErrMsg "failed to parse IP")
    | ip => mret ip
    end.

Definition discovery_path (path : string) : string :=
  let path := if bool_decide (path = "")%string then "esnode_discovery_db"%string else path in
  if bool_decide (path = "memory"%string) then ""%string else path.

Definition loadDiscoveryOpts (ctx : Ctx) : gores (Z * Z * option IP * DB * list Node) :=
  tcp ← wrap_fail "bad advertised TCP port" (validatePort (GlobalNum ctx "p2p.advertise.tcp"));
  udp ← wrap_fail "bad advertised UDP port" (validatePort (GlobalNum ctx "p2p.advertise.udp"));
  ip ← advertise_ip (GlobalString ctx "p2p.advertise.ip");
  db ← wrap_fail "failed to open discovery db" (OpenDB (discovery_path (GlobalString ctx "p2p.discovery.path")));
  nodes ← parse_items "bootnode record is invalid" enode_Parse (GlobalString ctx "p2p.bootnodes");
  mret (tcp, udp, ip, db, DefaultBootnodes ++ nodes).

(** ** Transports *)

Definition load_mux (text : string) : gores (list Muxer) :=
  foldM (λ acc v, if bool_decide (ToLower (TrimSpace v) = "yamux"%string) then mret (acc ++ [Yamux])
                  else Fail (ErrMsg "could not recognize mux")) [] (split_comma text).

(** No security goes with no other protocol. *)
Definition load_security (text : string) : gores (list Security * bool) :=
  let secArr := split_comma text in
  foldM (λ '(sec, none) v,
      let v := ToLower (TrimSpace v) in
      if bool_decide (v = "none"%string) then
        if (0 <? zlen sec) || (1 <? zlen secArr) then Fail (ErrMsg "cannot mix secure transport protocols with no-security")
        else mret (sec, true)
      else if bool_decide (v = "noise"%string) then mret (sec ++ [Noise], none)
      else if bool_decide (v = "tls"%string) then mret (sec ++ [Tls], none)
      else Fail (ErrMsg "could not recognize security")) ([], false) secArr.

Definition load_store (peerstorePath : string) : gores Store :=
  if bool_decide (peerstorePath = "")%string
  then Fail (ErrMsg "peerstore path must be specified, use 'memory' to explicitly not persist peer records")
  else if bool_decide (peerstorePath = "memory"%string) then mret MapDatastore
  else wrap_fail "failed to open leveldb db for peerstore" (NewDatastore peerstorePath).

Definition loadLibp2pOpts (ctx : Ctx) : gores (list Multiaddr * list Muxer * (list Security * bool) * Store) :=
  peers ← parse_items "failed to parse multi addr of static peer" NewMultiaddr (GlobalString ctx "p2p.static");
  mux ← load_mux (GlobalString ctx "p2p.mux");
  sec ← load_security (GlobalString ctx "p2p.security");
  store ← load_store (GlobalString ctx "p2p.peerstore.path");
  mret (peers, mux, sec, store).

(** ** The key of the node *)

(** The files by path: [None] for a file that is not there; another error of opening or reading makes [ReadAll] fail. *)
Definition key_files := gmap string string.

Definition text_of (l : list Z) : string := String.string_of_list_ascii ((λ c, chr (Z.to_nat c)) <$> l).
Definition codes_of (s : string) : list Z := code <$> String.list_ascii_of_string s.

Definition parsePriv (data : string) : gores PrivKey :=
  let data := if (2 <? Z.of_nat (String.length data)) && String.prefix "0x" data then String.substring 2 (String.length data - 2) data else data in
  match DecodeString (codes_of data) with
  | Ret b => match UnmarshalSecp256k1PrivateKey b with
             | Fail _ => Fail (ErrMsg "failed to parse priv key")
             | r => r
             end
  | _ => Fail (ErrMsg "p2p priv key is not formatted in hex chars")
  end.

(** [writable] tells whether the new file can be opened, [io_err] what reading an old one returns. *)
Definition loadNetworkPrivKey (raw keyPath : string) (writable : option error) (io_err : option error) : ST key_files PrivKey := λ fs,
  if negb (bool_decide (raw = "")%string) then (parsePriv raw, fs)
  else if bool_decide (keyPath = "")%string
  then (Fail (ErrMsg "no p2p private key path specified, cannot auto-generate key without path"), fs)
  else
    match fs !! keyPath with
    | None =>
        match (p ← wrap_fail "failed to generate new p2p priv key" GenerateSecp256k1Key;
               b ← wrap_fail "failed to encode new p2p priv key" (Raw p); mret (p, b)) with
        | Ret (p, b) =>
            match writable with
            | Some e => (Fail (ErrWrap "failed to store new p2p priv key" e), fs)
            | None => (Ret p, <[keyPath := text_of (EncodeToString b)]> fs)
            end
        | Fail e => (Fail e, fs)
        | Panic p => (Panic p, fs)
        end
    | Some data =>
        match io_err with
        | Some e => (Fail (ErrWrap "failed to read priv key file" e), fs)
        | None => (parsePriv (TrimSpace data), fs)
        end
    end.

(** ** The whole configuration *)

Definition loadSyncerParams (ctx : Ctx) : gores SyncerParams :=
  if GlobalNum ctx "p2p.sync.concurrency" <? 1 then Fail (ErrMsg "p2p.sync.concurrency param is invalid: the value should larger than 0")
  else mret (mkSyncerParams (GlobalNum ctx "p2p.peers.hi") (GlobalNum ctx "p2p.request.size") (GlobalNum ctx "p2p.sync.concurrency")
               (GlobalNum ctx "p2p.fill-empty.concurrency") (GlobalNum ctx "p2p.meta.download.batch")).

(** Scoring that is not set is left as it is. *)
Definition load_scoring {A} (get : string → Z → gores A) (scoringLevel : string) (blockTime : Z) : gores (option A) :=
  if bool_decide (scoringLevel = "")%string then mret None else p ← get scoringLevel blockTime; mret (Some p).

Definition disabled : Config :=
  mkP2pConfig None true false None None [] false None 0 0 None 0 0 [] None [] [] [] false 0 0 0 0 0 0 0 false false "" 0 0 0 None None false false.

Definition NewConfig (ctx : Ctx) (blockTime : Z) (writable io_err : option error) : ST key_files Config :=
  if GlobalBool ctx "p2p.disable" then mret disabled
  else
    p ← (λ fs, let '(r, fs) := loadNetworkPrivKey (GlobalString ctx "p2p.priv.raw") (GlobalString ctx "p2p.priv.path") writable io_err fs in
               (wrap_fail "failed to load p2p priv key" r, fs));
    st_lift (
      '(listenIP, listenTCP, listenUDP) ← wrap_fail "failed to load p2p listen options" (loadListenOpts ctx);
      '(advTCP, advUDP, advIP, db, nodes) ← wrap_fail "failed to load p2p discovery options" (loadDiscoveryOpts ctx);
      '(peers, mux, (sec, none), store) ← wrap_fail "failed to load p2p options" (loadLibp2pOpts ctx);
      peerScore ← wrap_fail "failed to load p2p peer scoring options" (load_scoring GetPeerScoreParams (GlobalString ctx "p2p.scoring.peers") blockTime);
      bands ← wrap_fail "failed to load p2p peer score bands" (NewBandScorer parse_float sort_bands (GlobalString ctx "p2p.score.bands"));
      topicScore ← wrap_fail "failed to load p2p topic scoring options" (load_scoring GetTopicScoreParams (GlobalString ctx "p2p.scoring.topics") blockTime);
      sync ← wrap_fail "failed to load syncer params" (loadSyncerParams ctx);
      mret (mkP2pConfig (Some p) false (GlobalBool ctx "p2p.no-discovery") peerScore topicScore bands (GlobalBool ctx "p2p.ban.peers")
              listenIP listenTCP listenUDP advIP advTCP advUDP nodes (Some db) peers mux sec none
              (GlobalNum ctx "p2p.peers.lo") (GlobalNum ctx "p2p.peers.hi") (GlobalNum ctx "p2p.peers.grace")
              (GlobalNum ctx "p2p.gossip.mesh.d") (GlobalNum ctx "p2p.gossip.mesh.lo") (GlobalNum ctx "p2p.gossip.mesh.dhi")
              (GlobalNum ctx "p2p.gossip.mesh.dlazy") (GlobalBool ctx "p2p.gossip.mesh.floodpublish") (GlobalBool ctx "p2p.nat")
              (GlobalString ctx "p2p.useragent") (GlobalNum ctx "p2p.timeout.negotiation") (GlobalNum ctx "p2p.timeout.accept")
              (GlobalNum ctx "p2p.timeout.dial") (Some sync) (Some store) true true)).

(** *** The check (p2p/config.go) *)

Definition maxMeshParam : Z := 1000.

Definition mesh_ok (d : Z) : bool := negb ((d <=? 0) || (maxMeshParam <? d)).

Definition Config_Check (conf : Config) : gores unit :=
  if DisableP2P conf then mret tt
  else if bool_decide (conf_Store conf = None) then Fail (ErrMsg "p2p requires a persistent or in-memory peerstore, but found none")
  else if negb (NoDiscovery conf) && bool_decide (DiscoveryDB conf = None)
  then Fail (ErrMsg "discovery requires a persistent or in-memory discv5 db, but found none")
  else if (PeersLo conf =? 0) || (PeersHi conf =? 0) || (PeersHi conf <? PeersLo conf) then Fail (ErrMsg "peers lo/hi tides are invalid")
  else if negb (ConnMngr conf) then Fail (ErrMsg "need a connection manager")
  else if negb (ConnGater conf) then Fail (ErrMsg "need a connection gater")
  else if negb (mesh_ok (MeshD conf)) then Fail (ErrMsg "mesh D param must not be 0 or exceed 1000")
  else if negb (mesh_ok (MeshDLo conf)) then Fail (ErrMsg "mesh Dlo param must not be 0 or exceed 1000")
  else if negb (mesh_ok (MeshDHi conf)) then Fail (ErrMsg "mesh Dhi param must not be 0 or exceed 1000")
  else if negb (mesh_ok (MeshDLazy conf)) then Fail (ErrMsg "mesh Dlazy param must not be 0 or exceed 1000")
  else mret tt.

(** ** The key is kept *)

(** A key that was encoded is the key that is decoded; its encoding is not empty. *)
Class KeyLaws : Prop := { Raw_Unmarshal p b : Raw p = Ret b → is_bytes b ∧ UnmarshalSecp256k1PrivateKey b = Ret p }.

Definition is_hex (x : Z) : Prop := 48 ≤ x ≤ 57 ∨ 97 ≤ x ≤ 102.

Lemma EncodeToString_hex b : is_bytes b → Forall is_hex (EncodeToString b).
Proof.
  intros Hb. rw /EncodeToString. apply Forall_forall. intros x (y & Hx & Hy)%list_elem_of_bind.
  have Hyb : 0 ≤ y < 256 by exact (proj1 (Forall_forall _ _) Hb y Hy).
  have H1 : 0 ≤ y / 16 < 16 by split; [apply Z.div_pos|apply Z.div_lt_upper_bound]; lia. have H2 := Z.mod_pos_bound y 16 ltac:(lia).
  have Ht z : 0 ≤ z < 16 → is_hex (toHexChar z) by intros Hz; rw /is_hex /toHexChar; case: Z.ltb_spec; lia.
  apply elem_of_cons in Hx as [->|Hx]; [by apply Ht|]. apply elem_of_cons in Hx as [->|Hx]; [by apply Ht|]. by apply not_elem_of_nil in Hx.
Qed.

Lemma code_chr x : 0 ≤ x < 256 → code (chr (Z.to_nat x)) = x.
Proof. intros Hx. rw /code /chr Ascii.nat_ascii_embedding; lia. Qed.

Lemma hex_256 x : is_hex x → 0 ≤ x < 256.
Proof. rw /is_hex. lia. Qed.

Lemma codes_text l : Forall is_hex l → codes_of (text_of l) = l.
Proof.
  intros Hl. rw /codes_of /text_of String.list_ascii_of_string_of_list_ascii -list_fmap_compose.
  induction Hl as [|x l Hx Hl IH]; [done|]. cbn [fmap list_fmap]. f_equal; [|exact IH]. by apply code_chr, hex_256.
Qed.

Lemma hex_not_space x : is_hex x → is_space (chr (Z.to_nat x)) = false.
Proof. intros Hx. rw /is_space code_chr; [by apply hex_256|]. rw /is_hex in Hx. lia. Qed.

Lemma TrimSpace_hex l : Forall is_hex l → TrimSpace (text_of l) = text_of l.
Proof.
  intros Hl. have Hleft : trim_left (text_of l) = text_of l.
  { destruct Hl as [|x l Hx Hl]; [done|]. cbn [text_of fmap list_fmap String.string_of_list_ascii trim_left]. by rw hex_not_space. }
  rw /TrimSpace Hleft. clear Hleft. induction Hl as [|x l Hx Hl IH]; [done|].
  change (text_of (x :: l)) with (String (chr (Z.to_nat x)) (text_of l)). cbn [trim_right]. rw IH hex_not_space //. by destruct (text_of l).
Qed.

Lemma hex_no_prefix l : Forall is_hex l → String.prefix "0x" (text_of l) = false.
Proof.
  intros Hl. destruct Hl as [|x l Hx Hl]; [done|]. change (text_of (x :: l)) with (String (chr (Z.to_nat x)) (text_of l)).
  cbn [String.prefix]. destruct (Ascii.ascii_dec _ _) as [_|]; [|done]. destruct Hl as [|y l Hy Hl]; [done|].
  change (text_of (y :: l)) with (String (chr (Z.to_nat y)) (text_of l)). cbn [String.prefix].
  destruct (Ascii.ascii_dec _ _) as [E|]; [|done]. exfalso. apply (f_equal code) in E. rw code_chr in E; [by apply hex_256|].
  rw /is_hex in Hy. cbv -[Z.le] in E. lia.
Qed.

Lemma parsePriv_text `{KL : KeyLaws} p b : Raw p = Ret b → parsePriv (TrimSpace (text_of (EncodeToString b))) = Ret p.
Proof.
  intros [Hb Hu]%Raw_Unmarshal. pose proof (EncodeToString_hex b Hb) as Hh. rw TrimSpace_hex // /parsePriv hex_no_prefix //.
  rw andb_false_r codes_text // DecodeString_EncodeToString // Hu //.
Qed.

(** The node keeps its identity: the first start without a key makes one and stores it, and every later start reads the
    same key from the file and leaves the file alone. *)
Theorem key_kept `{KL : KeyLaws} keyPath io_err fs fs' p : fs !! keyPath = None →
  loadNetworkPrivKey "" keyPath None io_err fs = (Ret p, fs') →
  (∀ writable, loadNetworkPrivKey "" keyPath writable None fs' = (Ret p, fs')) ∧ ∀ path, path ≠ keyPath → fs' !! path = fs !! path.
Proof.
  intros Hno. rw /loadNetworkPrivKey. cbn [negb bool_decide decide]. rw !(bool_decide_eq_true_2 (""%string = "")) //. cbn [negb].
  case_bool_decide as Hk; [done|]. rw Hno. destruct GenerateSecp256k1Key as [q| |]; [|done|done]. cbn [wrap_fail mbind gores_bind].
  destruct (Raw q) as [b| |] eqn:Er; [|done|done]. intros [= <- <-]. split.
  - intros writable. rw lookup_insert_eq. by rw (parsePriv_text q b Er).
  - intros path Hne. apply lookup_insert_ne. congruence.
Qed.

(** ** Loaded configurations *)

Lemma split_comma_nonempty text : split_comma text ≠ [].
Proof. destruct text as [|c s]; [done|]. cbn [split_comma]. destruct (code c =? 44); [done|]. by destruct (split_comma s). Qed.

(** Either no security by itself, or one protocol at least. *)
Lemma load_security_spec text sec none : load_security text = Ret (sec, none) →
  if none then sec = [] ∧ length (split_comma text) = 1%nat else length sec = length (split_comma text).
Proof.
  rw /load_security. cbv zeta. set f := (λ '(sec, none) v, _). have Hf : ∀ l sec none sec' none', 1 < zlen (split_comma text) →
    foldM f (sec, none) l = Ret (sec', none') → none' = none ∧ length sec' = (length sec + length l)%nat.
  { intros l. induction l as [|v l IH]; intros s0 n0 s1 n1 Hn; [intros [= <- <-]; split; [done|cbn; lia]|].
    rw foldM_cons. destruct (f (s0, n0) v) as [[s2 n2]| |] eqn:Ef; [|done|done]. intros [-> ->]%IH; [|done].
    have [-> ->] : n2 = n0 ∧ length s2 = S (length s0); [|split; [done|cbn; lia]].
    move: Ef. rw /f (proj2 (Z.ltb_lt 1 (zlen (split_comma text)))) // orb_true_r. case_bool_decide; [done|].
    do 2 (case_bool_decide; [intros [= <- <-]; rw length_app /=; split; [done|lia]|]). done. }
  destruct (split_comma text) as [|v [|w l]] eqn:E; [by destruct (split_comma_nonempty text)| |].
  - rw foldM_one /f. cbn [zlen length Z.of_nat Z.ltb Z.compare orb]. do 3 (case_bool_decide; [by intros [= <- <-]|]). done.
  - intros [-> ->]%Hf; [done|]. rw /zlen /=. lia.
Qed.

Lemma validatePort_spec p r : 0 ≤ p → validatePort p = Ret r → r = p ∧ (r = 0 ∨ 1024 ≤ r < 65536).
Proof. intros Hp. rw /validatePort. case: Z.eqb_spec => [->|_]; [intros [= <-]; lia|]. case: Z.leb_spec => // ?. case: Z.ltb_spec => // ?. intros [= <-]. lia. Qed.

(** Scoring parameters are always found for a known name: a block time of 0 does not divide by zero. *)
Lemma scoring_total light blockTime : (∃ p, PeerScoreParams_of light blockTime = Ret p) ∧ ∃ t, TopicScoreParams_of light blockTime = Ret t.
Proof.
  have Hs : slot_of blockTime ≠ 0 by rw /slot_of; case: Z.eqb_spec.
  rw /PeerScoreParams_of /TopicScoreParams_of /ScoreDecay (proj2 (Z.eqb_neq _ 0)) //. split; by eexists.
Qed.

Definition port (p : Z) : Prop := p = 0 ∨ 1024 ≤ p < 65536.

Definition mesh_param (d : Z) : Prop := 0 < d ≤ maxMeshParam.

Lemma mesh_ok_spec d : mesh_ok d = true ↔ mesh_param d.
Proof. rw /mesh_ok /mesh_param. lia. Qed.

Lemma bind_inv {A B} (m : gores A) (f : A → gores B) r : m ≫= f = Ret r → ∃ x, m = Ret x ∧ f x = Ret r.
Proof. destruct m as [x| |]; [|done|done]. intros Hf. by exists x. Qed.

Lemma wrap_fail_Ret {A} msg (r : gores A) x : wrap_fail msg r = Ret x → r = Ret x.
Proof. by destruct r. Qed.

(** What the loaders leave to the check. *)
Lemma Config_Check_loaded conf : DisableP2P conf = false → is_Some (conf_Store conf) → is_Some (DiscoveryDB conf) → ConnMngr conf = true → ConnGater conf = true →
  0 ≤ PeersLo conf → 0 ≤ PeersHi conf →
  Config_Check conf = Ret tt ↔ 0 < PeersLo conf ≤ PeersHi conf ∧ Forall mesh_param [MeshD conf; MeshDLo conf; MeshDHi conf; MeshDLazy conf].
Proof.
  intros Hd [st Hst] [db Hdb] Hm Hg Hlo Hhi. rw !Forall_cons -!mesh_ok_spec /Config_Check Hd Hst Hdb Hm Hg.
  rw !bool_decide_eq_false_2 // andb_false_r. cbn [negb].
  destruct ((PeersLo conf =? 0) || (PeersHi conf =? 0) || (PeersHi conf <? PeersLo conf)) eqn:E; [split; [done|lia]|].
  destruct (mesh_ok (MeshD conf)), (mesh_ok (MeshDLo conf)), (mesh_ok (MeshDHi conf)), (mesh_ok (MeshDLazy conf)); cbn [negb]; split; try done; try (by intros (_ & ? & ? & ? & ? & _)).
  all: intros _; split; [lia|done].
Qed.

(** A p2p configuration that the flags give is sound: all four ports are 0 or unreserved, at least one worker syncs, and
    the transport is encrypted unless the flag is just "none"; its check accepts it exactly when the limits of peers are
    ordered and the gossip parameters are between 1 and 1000. *)
Theorem NewConfig_sound ctx blockTime writable io_err fs conf fs' : (∀ name, 0 ≤ GlobalNum ctx name) →
  NewConfig ctx blockTime writable io_err fs = (Ret conf, fs') → GlobalBool ctx "p2p.disable" = false →
  Forall port [ListenTCPPort conf; ListenUDPPort conf; AdvertiseTCPPort conf; AdvertiseUDPPort conf] ∧
  (∃ sp, SyncParams conf = Some sp ∧ 0 < SyncConcurrency sp ∧ MaxPeers sp = PeersHi conf) ∧
  (if NoTransportSecurity conf then HostSecurity conf = [] ∧ length (split_comma (GlobalString ctx "p2p.security")) = 1%nat
   else HostSecurity conf ≠ []) ∧
  (Config_Check conf = Ret tt ↔
     0 < PeersLo conf ≤ PeersHi conf ∧ Forall mesh_param [MeshD conf; MeshDLo conf; MeshDHi conf; MeshDLazy conf]).
Proof.
  intros Hnum. rw /NewConfig. intros HN Hd. rw Hd in HN. move: HN. rw /mbind /st_bind.
  destruct (loadNetworkPrivKey _ _ _ _ _) as [[p| |] fs1]; [|done|done]. cbn [wrap_fail]. rw /st_lift. intros [= H <-].
  apply bind_inv in H as ([[ip tcp] udp] & H1%wrap_fail_Ret & H). apply bind_inv in H as ([[[[atcp audp] aip] db] nodes] & H2%wrap_fail_Ret & H).
  apply bind_inv in H as ([[[peers mux] [sec none]] store] & H3%wrap_fail_Ret & H). apply bind_inv in H as (ps & _ & H).
  apply bind_inv in H as (bands & _ & H). apply bind_inv in H as (ts & _ & H). apply bind_inv in H as (sync & H4%wrap_fail_Ret & H).
  injection H as <-. cbn [ListenTCPPort ListenUDPPort AdvertiseTCPPort AdvertiseUDPPort SyncParams PeersHi NoTransportSecurity HostSecurity].
  split_and!.
  - apply bind_inv in H1 as (? & _ & H1). apply bind_inv in H1 as (t & E1%wrap_fail_Ret & H1). apply bind_inv in H1 as (u & E2%wrap_fail_Ret & H1).
    injection H1 as <- <- <-. apply bind_inv in H2 as (t' & E3%wrap_fail_Ret & H2). apply bind_inv in H2 as (u' & E4%wrap_fail_Ret & H2).
    apply bind_inv in H2 as (? & _ & H2). apply bind_inv in H2 as (? & _ & H2). apply bind_inv in H2 as (? & _ & H2). injection H2 as <- <- <- <- <-.
    pose proof (λ n r, validatePort_spec (GlobalNum ctx n) r (Hnum n)) as Hp.
    rw !Forall_cons. split_and!; [exact (proj2 (Hp _ _ E1))|exact (proj2 (Hp _ _ E2))|exact (proj2 (Hp _ _ E3))|exact (proj2 (Hp _ _ E4))|by apply Forall_nil].
  - exists sync. split; [done|]. move: H4. rw /loadSyncerParams. case: Z.ltb_spec => // Hc. intros [= <-]. cbn. split; [lia|done].
  - apply bind_inv in H3 as (? & _ & H3). apply bind_inv in H3 as (? & _ & H3). apply bind_inv in H3 as ([s n] & Es & H3).
    apply bind_inv in H3 as (? & _ & H3). injection H3 as <- <- <- <- <-. apply load_security_spec in Es. destruct n; [done|].
    intros ->. by destruct (split_comma_nonempty (GlobalString ctx "p2p.security")), (split_comma _).
  - by apply Config_Check_loaded; try apply Hnum.
Qed.

End p2p.

(** ** Examples *)

#[local] Instance toy_libs : P2pLibs := {|
  PrivKey := bool; IP := Z; Node := string; DB := string; Multiaddr := string; Store := string;
  GenerateSecp256k1Key := Ret true;
  Raw k := Ret (if k then [171; 7] else [1; 9]);
  UnmarshalSecp256k1PrivateKey b := if decide (b = [171; 7]) then Ret true else if decide (b = [1; 9]) then Ret false else Fail EOF;
  ParseIP s := if bool_decide (s = "0.0.0.0"%string) then Some 0 else None;
  LookupIP _ := Ret [4; 6];
  To4 ip := if ip =? 6 then Some 6 else None;
  OpenDB := Ret;
  enode_Parse := Ret;
  DefaultBootnodes := ["enr"%string];
  NewMultiaddr := Ret;
  NewDatastore := Ret;
  MapDatastore := "map"%string;
  parse_float _ := None;
  sort_bands l := l |}.

#[local] Instance toy_key_laws : KeyLaws.
Proof. constructor. intros [] b [= <-]; (split; [repeat constructor; lia|done]). Qed.

Lemma key_kept_witness : ∃ fs' : key_files, (∀ writable, loadNetworkPrivKey "" "priv.txt" writable None fs' = (Ret true, fs')) ∧
  fs' !! "priv.txt"%string = Some "ab07"%string.
Proof.
  destruct (key_kept (L := toy_libs) "priv.txt" None ∅ {["priv.txt"%string := "ab07"%string]} true) as [H _]; [done|done|].
  eexists. split; [exact H|apply lookup_insert_eq].
Defined.

Definition ex_ctx : Ctx := {|
  GlobalString name := if bool_decide (name = "p2p.mux"%string) then "yamux" else if bool_decide (name = "p2p.security"%string) then "Noise, tls"
    else if bool_decide (name = "p2p.priv.path"%string) then "priv.txt" else if bool_decide (name = "p2p.peerstore.path"%string) then "memory"
    else if bool_decide (name = "p2p.static"%string) then " a,,b" else "";
  GlobalBool _ := false;
  GlobalNum name := if bool_decide (name = "p2p.listen.tcp"%string) then 9222 else if bool_decide (name = "p2p.peers.lo"%string) then 60
    else if bool_decide (name = "p2p.peers.hi"%string) then 70 else if bool_decide (name = "p2p.sync.concurrency"%string) then 16 else 0 |}.

Definition returns {A S} (r : gores A * S) : bool := match r.1 with Ret _ => true | _ => false end.

Lemma returns_Ret {A S} (r : gores A * S) : returns r = true → ∃ x s, r = (Ret x, s).
Proof. destruct r as [[x| |] s]; [|done|done]. intros _. by exists x, s. Qed.

Lemma ex_ctx_returns : returns (NewConfig ex_ctx 0 None None ∅) = true.
Proof. by vm_compute. Qed.

Lemma NewConfig_sound_witness : ∃ conf fs', NewConfig ex_ctx 0 None None ∅ = (Ret conf, fs') ∧
  Forall port [ListenTCPPort conf; ListenUDPPort conf; AdvertiseTCPPort conf; AdvertiseUDPPort conf].
Proof.
  destruct (returns_Ret _ ex_ctx_returns) as (conf & fs' & E). exists conf, fs'. split; [exact E|].
  destruct (NewConfig_sound ex_ctx 0 None None ∅ conf fs') as (H1 & _); [intros name; cbn; repeat case_bool_decide; lia|exact E|done|exact H1].
Defined.
