(* ===== verification/Discovery.v ===== *)
(** * Discovery of peers (ethstorage/p2p: discovery.go, node.go, host.go, gossip.go)

    What a node announces of itself, what it does with the records it finds, whom it dials, how the goroutines of the
    discovery end, and the identifiers of gossip messages.  discv5, libp2p and pubsub are parameters. *)

From S2P Require Import Prelude Extern SyncTask SyncClient SyncWire PeerNet P2pConfig.

Section discovery.
Context `{L : P2pLibs}.

(** ** The record of the local node *)

Record LocalNode := mkLocalNode {
  ln_static : option IP; ln_fallback : option IP; ln_udp : Z; ln_tcp : Z; ln_data : option EthStorageENRData
}.

(** Explicit ports come first, then the bound one, then the configured one. *)
Definition udp_port (conf : Config) : Z :=
  if negb (AdvertiseUDPPort conf =? 0) then AdvertiseUDPPort conf else ListenUDPPort conf.
Definition tcp_port (conf : Config) (bound : Z) : gores Z :=
  if negb (AdvertiseTCPPort conf =? 0) then mret (AdvertiseTCPPort conf)
  else if negb (bound =? 0) then mret bound
  else if negb (ListenTCPPort conf =? 0) then mret (ListenTCPPort conf)
  else Fail (ErrMsg "no TCP port to put in discovery record").

(** [listen] is the port that [net.ListenUDP] got, [start] the error of [discover.ListenV5]; the result tells whether the
    address is known. *)
Definition Discovery (conf : Config) (l2ChainID tcpPort : Z) (fallbackIP : option IP) (shards : gmap bytes (list Z))
    (listen : gores Z) (start : option error) : gores (option (LocalNode * bool)) :=
  if NoDiscovery conf then mret None
  else
    let isIPSet := match AdvertiseIP conf, fallbackIP with None, None => false | _, _ => true end in
    tcp ← tcp_port conf tcpPort;
    let dat := mkENRData l2ChainID p2pVersion (ConvertToContractShards shards) in
    port ← listen;
    let udp := if ListenUDPPort conf =? 0 then port else udp_port conf in
    match start with
    | Some e => Fail e
    | None =>
        mret (Some (mkLocalNode (AdvertiseIP conf) (match AdvertiseIP conf with None => fallbackIP | _ => None end) udp tcp (Some dat), isIPSet))
    end.

(** An address of the host: its IPv4 part, and its TCP part. *)
Record host_addr := mkAddr { ha_ip4 : option IP; ha_tcp : option string }.

Section addresses.
Context (IsPrivate IsGlobalUnicast : IP → bool) (Atoi : string → Z) (ParsePort : string → option Z).

(** The first public address with a TCP port is announced. *)
Fixpoint updateLocalNodeIPAndTCP (addrs : list host_addr) (n : LocalNode) : bool * LocalNode :=
  match addrs with
  | [] => (false, n)
  | a :: addrs =>
      match ha_ip4 a, ha_tcp a with
      | Some ip, Some tcp =>
          if IsPrivate ip || negb (IsGlobalUnicast ip) then updateLocalNodeIPAndTCP addrs n
          else (true, mkLocalNode (ln_static n) (Some ip) (ln_udp n) (Atoi tcp) (ln_data n))
      | _, _ => updateLocalNodeIPAndTCP addrs n
      end
  end.

Fixpoint FindActiveTCPPort (addrs : list host_addr) : Z :=
  match addrs with
  | [] => 0
  | a :: addrs => match ha_tcp a ≫= ParsePort with Some v => v | None => FindActiveTCPPort addrs end
  end.

(** [None] for an interface that is not an IP network. *)
Fixpoint GetLocalPublicIPv4 (addrs : list (option IP)) : option IP :=
  match addrs with
  | [] => None
  | a :: addrs =>
      match a ≫= To4 with
      | None => GetLocalPublicIPv4 addrs
      | Some ip4 => if from_option IsGlobalUnicast false a && negb (from_option IsPrivate true a) then Some ip4 else GetLocalPublicIPv4 addrs
      end
  end.
End addresses.

(** ** Found records *)

(** A record of discv5: its sequence number, address and port, the public key and the data of the program, when they can be
    read. *)
Record enode := mkEnode { en_Seq : Z; en_IP : IP; en_TCP : Z; en_pub : option bytes; en_data : option EthStorageENRData }.

(** [ip.String()] and [peer.IDFromPublicKey]. *)
Context (ip_String : IP → string) (IDFromPublicKey : bytes → gores Z).

(** The peer's identity, address and key. *)
Definition enrToAddrInfo (r : enode) : gores (Z * Multiaddr * bytes) :=
  let '(scheme, ip) := match To4 (en_IP r) with None => ("ip6", en_IP r) | Some ip4 => ("ip4", ip4) end%string in
  addr ← wrap_fail "could not construct multi addr"
           (NewMultiaddr ("/" +:+ scheme +:+ "/" +:+ ip_String ip +:+ "/tcp/" +:+ pretty.pretty (en_TCP r)));
  match en_pub r with
  | None => Fail (ErrMsg "failed to load pubkey as libp2p pubkey type from ENR")
  | Some pub => id ← wrap_fail "could not compute peer ID from pubkey for multi-addr" (IDFromPublicKey pub); mret (id, addr, pub)
  end.

(** The host's peer store, with the addresses, keys and tags that discovery adds. *)
Record hosts := mkHosts {
  h_store : peerstore; h_addrs : gmap Z (list Multiaddr); h_keys : gmap Z bytes; h_tags : gmap Z (Z * Z)
}.

(** A record from the channel: [resolve] asks for its latest version, [put] is the error of the store. *)
Definition on_found (resolve : enode → enode) (put : option error) (found : enode) (h : hosts) : hosts :=
  let node := resolve found in
  match en_data node, enrToAddrInfo node with
  | Some dat, Ret (id, addr, pub) =>
      let addrs := <[id := default [] (h_addrs h !! id) ++ [addr]]> (h_addrs h) in
      let known := {[id]} ∪ ps_addrs (h_store h) in
      match put with
      | Some _ => mkHosts (mkPeerstore (ps_shards (h_store h)) known) addrs (h_keys h) (h_tags h)
      | None => mkHosts (mkPeerstore (<[id := enr_Shards dat]> (ps_shards (h_store h))) known) addrs
                  (<[id := pub]> (h_keys h)) (<[id := (ChainID dat, Version dat)]> (h_tags h))
      end
  | _, _ => h
  end.

(** ** Whom to dial *)

Definition skip (self : Z) (connected : list Z) (cannot : Z → bool) (id : Z) : bool :=
  (self =? id) || bool_decide (id ∈ connected) || cannot id.

(** A tick: whether to go on fast, and the peers that are given to the workers.  [shuffled] are the peers with addresses in
    their random order, [None] when the shuffle fails; [room] is how many of them are taken before the deadline. *)
Definition connect_tick (self : Z) (connected : list Z) (connectGoal : Z) (shuffled : option (list Z)) (cannot : Z → bool) (room : nat)
    : bool * list Z :=
  if zlen connected <? connectGoal then
    match shuffled with
    | None => (true, [])
    | Some ids => (true, take room (filter (λ id, skip self connected cannot id = false) ids))
    end
  else (false, []).

(** The static peers that a tick of [monitorStaticPeers] dials. *)
Definition monitorStaticPeers (static : list Z) (connected : Z → bool) : list Z := filter (λ id, connected id = false) static.

(** ** Two nodes *)

Definition share_shard (a b : gmap bytes (list Z)) : Prop :=
  ∃ contract sa sb sid, a !! contract = Some sa ∧ b !! contract = Some sb ∧ sid ∈ sa ∧ sid ∈ sb.

Lemma filter_announced chainID version theirs mine :
  FilterEnodes chainID mine (Some (mkENRData chainID version (ConvertToContractShards theirs))) = true ↔ version = p2pVersion ∧ share_shard theirs mine.
Proof.
  rw /FilterEnodes /= Z.eqb_refl /=. destruct (Z.eqb_spec version p2pVersion) as [->|Hv]; simpl; [|naive_solver].
  rw existsb_exists /ConvertToContractShards. split.
  - intros (cs & Hin%list_elem_of_In & Hex). split; [done|]. apply list_elem_of_fmap in Hin as ([contract sa] & -> & Hin). apply elem_of_map_to_list in Hin. cbn in Hex.
    destruct (mine !! contract) as [sb|] eqn:Hb; [|done]. apply existsb_exists in Hex as (sid & Hsb%list_elem_of_In & Hsa).
    apply bool_decide_eq_true in Hsa. by exists contract, sa, sb, sid.
  - intros [_ (contract & sa & sb & sid & Ha & Hb & Hsa & Hsb)]. exists (mkContractShards contract sa). split.
    + apply list_elem_of_In, list_elem_of_fmap. exists (contract, sa). split; [done|]. by apply elem_of_map_to_list.
    + cbn. rw Hb existsb_exists. exists sid. split; [by apply list_elem_of_In|]. by apply bool_decide_eq_true.
Qed.

Lemma tcp_port_spec conf bound tcp : tcp_port conf bound = Ret tcp → tcp ≠ 0 ∧ (AdvertiseTCPPort conf ≠ 0 → tcp = AdvertiseTCPPort conf).
Proof.
  rw /tcp_port. destruct (Z.eqb_spec (AdvertiseTCPPort conf) 0); [|by intros [= <-]].
  destruct (Z.eqb_spec bound 0); [|by intros [= <-]]. destruct (Z.eqb_spec (ListenTCPPort conf) 0); [done|by intros [= <-]].
Qed.

(** What a node announces has a TCP port, the explicit one if there is one, and another node of the network takes it for a
    peer exactly when the two share a shard. *)
Theorem announced_record conf chainID bound ip shards listen start n set : Discovery conf chainID bound ip shards listen start = Ret (Some (n, set)) →
  ln_tcp n ≠ 0 ∧ (AdvertiseTCPPort conf ≠ 0 → ln_tcp n = AdvertiseTCPPort conf) ∧
  (∀ mine, FilterEnodes chainID mine (ln_data n) = true ↔ share_shard shards mine) ∧
  (∀ chainID' mine, chainID' ≠ chainID → FilterEnodes chainID' mine (ln_data n) = false).
Proof.
  rw /Discovery. case_match; [done|]. destruct (tcp_port conf bound) as [tcp| |] eqn:Ht; [|done|done]. apply tcp_port_spec in Ht as [H0 Ha].
  cbn [mbind gores_bind]. destruct listen as [port| |]; [|done|done]. cbn [mbind gores_bind]. destruct start; [done|]. intros [= <- _]. cbn [ln_tcp ln_data].
  split_and!; [done|done| |].
  - intros mine. rw filter_announced. naive_solver.
  - intros chainID' mine Hne. rw /FilterEnodes /=. by rw (proj2 (Z.eqb_neq chainID' chainID)).
Qed.

(** With a dynamic listening port the advertised UDP port is not used, though the source says that it gets priority. *)
Lemma advertised_udp_replaced conf chainID bound ip shards port n set :
  ListenUDPPort conf = 0 → Discovery conf chainID bound ip shards (Ret port) None = Ret (Some (n, set)) → ln_udp n = port.
Proof.
  rw /Discovery. intros ->. case_match; [done|]. destruct (tcp_port conf bound); [|done|done]. cbn. by intros [= <- _].
Qed.

(** ** Found peers *)

(** A peer whose record was found is registered with the shards of the record when it connects, without asking it. *)
Theorem found_peer_connects {S} `{SyncStorage S} resolve found h id addr pub dat request (c : SyncClient S) :
  en_data (resolve found) = Some dat → enrToAddrInfo (resolve found) = Ret (id, addr, pub) →
  ConnectedF id request (h_store (on_found resolve None found h)) c =
    let '(added, c') := AddPeer id (Some (ConvertToShardList (enr_Shards dat))) c in
    Ret (h_store (on_found resolve None found h), c', negb added).
Proof. intros Hd Ha. rw /on_found Hd Ha /ConnectedF. cbn. by rw lookup_insert_eq. Qed.

(** The record that is stored is the latest version, which may have another network or version than the one that passed the
    filter. *)
Lemma resolved_not_filtered chainID mine found node h id addr pub dat :
  FilterEnodes chainID mine (en_data found) = true → FilterEnodes chainID mine (en_data node) = false →
  en_data node = Some dat → enrToAddrInfo node = Ret (id, addr, pub) →
  ps_shards (h_store (on_found (λ _, node) None found h)) !! id = Some (enr_Shards dat).
Proof. intros _ _ Hd Ha. rw /on_found Hd Ha. cbn. by rw lookup_insert_eq. Qed.

(** The peers that are dialled: with an address, not the node itself, not connected; each at most once, and all of them
    when there is room; none when the node has enough connections. *)
Theorem connect_tick_spec self connected goal ids cannot room : NoDup ids →
  let '(fast, dials) := connect_tick self connected goal (Some ids) cannot room in
  (fast = true ↔ zlen connected < goal) ∧ (fast = false → dials = []) ∧ NoDup dials ∧
  (∀ id, id ∈ dials → id ∈ ids ∧ id ≠ self ∧ (id ∉ connected) ∧ cannot id = false) ∧
  (fast = true → (length ids ≤ room)%nat → ∀ id, id ∈ ids → id ≠ self → (id ∉ connected) → cannot id = false → id ∈ dials).
Proof.
  intros Hnd. rw /connect_tick. destruct (Z.ltb_spec (zlen connected) goal) as [Hl|Hl]; last first.
  { split_and!; [split; [done|lia]|done|constructor|by intros id ?%not_elem_of_nil|done]. }
  have Hskip id : skip self connected cannot id = false ↔ id ≠ self ∧ (id ∉ connected) ∧ cannot id = false.
  { rw /skip !orb_false_iff Z.eqb_neq bool_decide_eq_false. naive_solver. }
  split_and!; [done|done| | |].
  - apply (sublist_NoDup _ (filter (λ id, skip self connected cannot id = false) ids)); [by apply NoDup_filter|apply sublist_take].
  - intros id Hin%elem_of_take. destruct Hin as (i & Hi & _). apply list_elem_of_lookup_2, list_elem_of_filter in Hi as [?%Hskip ?]. naive_solver.
  - intros _ Hr id Hin Hs Hc Hca. rw take_ge; [etransitivity; [apply length_filter|done]|].
    apply list_elem_of_filter. split; [by apply Hskip|done].
Qed.
End discovery.

(** ** The goroutines of [DiscoveryProcess]

    The main loop, the goroutine that walks the table ([bufferNodes]), the one that starts with the known nodes, and the
    workers that dial.  When the main loop returns it closes both channels. *)

Definition discoveredNodesBuffer : nat := 3.
Definition connectionBufferSize : nat := 10.
Definition connectionWorkerCount : nat := 4.

Inductive walker := Walking | Found | WalkEnded.
(** The goroutine with the known nodes: in its delay, or with so many nodes left to send. *)
Inductive starter := Delay | Sending (left : nat) | StartEnded.
Inductive dialler := DIdle | Dialling | DialEnded.

(** [nodes] and [attempts] are the numbers of entries in [randomNodesCh] and [connAttempts]; they are closed when the main
    loop has returned. *)
Record process := mkProcess {
  dp_cancelled : bool; main_alive : bool; nodes : nat; attempts : nat; walk : walker; kick : starter; diallers : list dialler
}.

Definition start_process : process := mkProcess false true 0 0 Walking Delay (replicate connectionWorkerCount DIdle).

Inductive plabel :=
| Cancel | MainReturn | MainFound | MainDial
| WalkFound | WalkStop | WalkSend | WalkCancel
| DelayOver (n : nat) | StartSend | StartCancel
| DialNext (k : nat) | DialDone (k : nat).

Definition send_node (s : process) (s' : process) : option (gores process) :=
  if negb (main_alive s) then Some (Panic (Explicit "send on closed channel"))
  else if (nodes s <? discoveredNodesBuffer)%nat then Some (Ret s') else None.

Definition process_exec (x : plabel) (s : process) : option (gores process) :=
  let '(mkProcess c m n a w k d) := s in
  match x, w, k with
  | Cancel, _, _ => Some (Ret (mkProcess true m n a w k d))
  | MainReturn, _, _ => if m && c then Some (Ret (mkProcess c false n a w k d)) else None
  | MainFound, _, _ => if m && (0 <? n)%nat then Some (Ret (mkProcess c m (n - 1) a w k d)) else None
  | MainDial, _, _ => if m && (a <? connectionBufferSize)%nat then Some (Ret (mkProcess c m n (a + 1) w k d)) else None
  | WalkFound, Walking, _ => Some (Ret (mkProcess c m n a Found k d))
  | WalkStop, Walking, _ => Some (Ret (mkProcess c m n a WalkEnded k d))
  | WalkSend, Found, _ => send_node s (mkProcess c m (n + 1) a Walking k d)
  | WalkCancel, (Walking | Found), _ => if c then Some (Ret (mkProcess c m n a WalkEnded k d)) else None
  | DelayOver l, _, Delay => Some (Ret (mkProcess c m n a w (Sending l) d))
  | StartSend, _, Sending 0 => Some (Ret (mkProcess c m n a w StartEnded d))
  | StartSend, _, Sending (S l) => send_node s (mkProcess c m (n + 1) a w (Sending l) d)
  | StartCancel, _, Sending (S _) => if c then Some (Ret (mkProcess c m n a w StartEnded d)) else None
  | DialNext i, _, _ =>
      match d !! i with
      | Some DIdle =>
          if (0 <? a)%nat then Some (Ret (mkProcess c m n (a - 1) w k (<[i := Dialling]> d)))
          else if m then None else Some (Ret (mkProcess c m n a w k (<[i := DialEnded]> d)))
      | _ => None
      end
  | DialDone i, _, _ => match d !! i with Some Dialling => Some (Ret (mkProcess c m n a w k (<[i := DIdle]> d))) | _ => None end
  | _, _, _ => None
  end.

Definition process_step (s s' : process) : Prop := ∃ x, process_exec x s = Some (Ret s').

Lemma process_inv x s s' : process_exec x s = Some (Ret s') → main_alive s || dp_cancelled s = true → main_alive s' || dp_cancelled s' = true.
Proof.
  destruct s as [c m n a w k d]. rw /process_exec /send_node. destruct c, m; try done; destruct x, w, k as [|[]|]; cbn; repeat case_match; intros; simplify_eq/=; done.
Qed.

(** While the node is not stopped the main loop is alive and no goroutine of the discovery panics. *)
Theorem discovery_runs s : rtc process_step start_process s → dp_cancelled s = false →
  main_alive s = true ∧ ∀ x p, process_exec x s ≠ Some (Panic p).
Proof.
  intros Hr Hc. have Hm : main_alive s || dp_cancelled s = true.
  { have H0 : main_alive start_process || dp_cancelled start_process = true by done. revert H0. clear Hc.
    induction Hr as [|s1 s2 s3 [x Hx] _ IH]; [done|]. intros H0. apply IH. by apply (process_inv x s1). }
  rw Hc orb_false_r in Hm. split; [done|]. intros x p. destruct s as [c m n a w k d]. cbn in *. subst.
  destruct x, w, k as [|[]|]; cbn; rw /send_node /=; repeat case_match; done.
Qed.

(** When the node is stopped during the first three seconds, the goroutine with the known nodes meets a closed channel: its
    select may take the send, and the program panics. *)
Lemma discovery_panics : ∃ s1 s2 s3,
  process_exec Cancel start_process = Some (Ret s1) ∧ process_exec MainReturn s1 = Some (Ret s2) ∧ process_exec (DelayOver 1) s2 = Some (Ret s3) ∧
  process_exec StartSend s3 = Some (Panic (Explicit "send on closed channel")).
Proof. by eexists _, _, _. Qed.

(** ** The identifiers of gossip messages (gossip.go) *)

(** [snappy.DecodedLen], [snappy.Decode] and [sha256.Sum]. *)
Class GossipLibs := { DecodedLen : bytes → gores Z; snappy_Decode : bytes → gores bytes; sha256_Sum : bytes → bytes }.

Section gossip.
Context `{GL : GossipLibs}.

(** Whether the payload is valid compressed data, and what is hashed. *)
Definition msg_data (payload : bytes) : bool * bytes :=
  match DecodedLen payload with
  | Ret n => if n <=? maxGossipSize then match snappy_Decode payload with Ret data => (true, data) | _ => (false, payload) end else (false, payload)
  | _ => (false, payload)
  end.

Definition msg_preimage (topic payload : bytes) : bytes :=
  let '(valid, data) := msg_data payload in
  (if valid then [1; 0; 0; 0] else [0; 0; 0; 0]) ++ Z_to_little_endian 8 8 (zlen topic) ++ topic ++ data.

Definition BuildMsgIdFn (topic payload : bytes) : bytes := take 20 (sha256_Sum (msg_preimage topic payload)).

Lemma msg_preimage_inj t1 p1 t2 p2 : zlen t1 < two64 → zlen t2 < two64 →
  msg_preimage t1 p1 = msg_preimage t2 p2 → t1 = t2 ∧ msg_data p1 = msg_data p2.
Proof.
  intros H1 H2. rw /msg_preimage. destruct (msg_data p1) as [v1 d1], (msg_data p2) as [v2 d2]. intros E.
  apply app_inj_1 in E as [Ev E]; [|by destruct v1, v2]. apply app_inj_1 in E as [El E]; last first.
  { apply Nat2Z.inj. by rw !length_Z_to_little_endian. }
  have Hl : zlen t1 = zlen t2.
  { have Hz n : 0 ≤ n < two64 → little_endian_to_Z 8 (Z_to_little_endian 8 8 n) = n.
    { intros Hn. rw little_endian_to_Z_to_little_endian; [lia..|]. apply Z.mod_small. by rw /two64 in Hn *. }
    rw -(Hz (zlen t1)); [rw /zlen in H1 *; lia|]. rw El. apply Hz. rw /zlen in H2 *. lia. }
  apply app_inj_1 in E as [-> ->]; [|by rw /zlen in Hl; lia]. split; [done|]. by destruct v1, v2.
Qed.

(** Two messages have the same identifier only when they have the same topic and the same decoded data, or the shortened
    hashes collide. *)
Theorem msg_id_binding t1 p1 t2 p2 : zlen t1 < two64 → zlen t2 < two64 → BuildMsgIdFn t1 p1 = BuildMsgIdFn t2 p2 →
  (t1 = t2 ∧ msg_data p1 = msg_data p2) ∨ ∃ x y, x ≠ y ∧ take 20 (sha256_Sum x) = take 20 (sha256_Sum y).
Proof.
  intros H1 H2 E. destruct (decide (msg_preimage t1 p1 = msg_preimage t2 p2)) as [He|Hne].
  - left. by apply msg_preimage_inj.
  - right. by exists (msg_preimage t1 p1), (msg_preimage t2 p2).
Qed.
End gossip.
