(* ===== verification/NodeConfig.v ===== *)
(** * Configuration of the node (cmd/es-node/config.go, miner/cli.go, signer, email, flags)

    From flags and environment variables to the configuration of a node: the signer of mining transactions, the miner's
    parameters from the contract, the e-mail account, and how the parts are put together and checked. *)

From S2P Require Import Prelude Extern GoStrings StartUp NodeLife P2pConfig.

(** ** Flags with environment variables *)

(** urfave/cli: the value on the command line, else the environment variable, else the default. *)
Record Source := mkSource { on_line : gmap string string; in_env : gmap string string }.

Definition PrefixEnvVar (name : string) : string := ("ES_NODE" +:+ "_" +:+ name)%string.

Definition flag_text (s : Source) (name envVar dflt : string) : string :=
  match on_line s !! name with
  | Some v => v
  | None => default dflt (in_env s !! envVar)
  end.

(** ** The signer of transactions (signer/config.go, signer/signature.go) *)

Record SignerCLI := mkSignerCLI { Endpoint : string; Address : string; PrivateKey : string; Mnemonic : string; HDPath : string }.

Definition signerEnv (name : string) : string := PrefixEnvVar ("SIGNER_" +:+ name)%string.

(** The path of the mnemonic reads the environment variable of the address. *)
Definition signer_ReadCLIConfig (s : Source) : SignerCLI := mkSignerCLI
  (flag_text s "signer.endpoint" (signerEnv "ENDPOINT") "")
  (flag_text s "signer.address" (signerEnv "ADDRESS") "")
  (flag_text s "signer.private-key" (signerEnv "PRIVATE_KEY") "")
  (flag_text s "signer.mnemonic" (signerEnv "MNEMONIC") "")
  (flag_text s "signer.hdpath" (signerEnv "ADDRESS") "").

Definition empty (s : string) : bool := bool_decide (s = ""%string).

Definition signer_Check (c : SignerCLI) : gores unit :=
  if negb ((empty (Endpoint c) && empty (Address c)) || (negb (empty (Endpoint c)) && negb (empty (Address c))))
  then Fail (ErrMsg "signer endpoint and address must both be set or not set")
  else if negb ((empty (Mnemonic c) && empty (HDPath c)) || (negb (empty (Mnemonic c)) && negb (empty (HDPath c))))
  then Fail (ErrMsg "mnemonic and hdpath must both be set or not set")
  else if negb (empty (PrivateKey c)) && negb (empty (Mnemonic c)) then Fail (ErrMsg "cannot specify both a private key and a mnemonic")
  else if (empty (Endpoint c) && empty (Address c)) && empty (PrivateKey c) && empty (Mnemonic c)
  then Fail (ErrMsg "must specify one of the 3 signer methods")
  else mret tt.

Definition RemoteEnabled (c : SignerCLI) : bool := negb (empty (Endpoint c)) && negb (empty (Address c)).

(** The remote signer, the wallet and go-ethereum's keys. *)
Class SignLibs := {
  Key : Type; STx : Type; SignerClient : Type;
  NewSignerClient : string → gores SignerClient;
  SignTransaction : SignerClient → Z → bytes → STx → gores STx;
  wallet_key : string → string → gores Key;
  HexToECDSA : string → gores Key;
  PubkeyToAddress : Key → bytes;
  sign_with : Key → Z → STx → gores STx;
  addr_of_hex : string → bytes }.

Section signer.
Context `{SL : SignLibs}.

Definition SignerFn : Type := bytes → STx → gores STx.

Definition ErrNotAuthorized : error := ErrMsg "not authorized to sign this account".

Definition PrivateKeySignerFn (key : Key) (chainID : Z) : SignerFn := λ address tx,
  let from := PubkeyToAddress key in
  if negb (bool_decide (address = from)) then Fail ErrNotAuthorized else sign_with key chainID tx.

(** [strings.TrimPrefix(s, "0x")] *)
Definition trim_0x (s : string) : string := if String.prefix "0x" s then String.substring 2 (String.length s - 2) s else s.

Definition wrapped {A} (msg : string) (r : gores A) : gores A := match r with Fail e => Fail (ErrWrap msg e) | r => r end.

Definition local_key (c : SignerCLI) : gores Key :=
  if negb (empty (PrivateKey c)) && negb (empty (Mnemonic c)) then Fail (ErrMsg "cannot specify both a private key and a mnemonic")
  else if empty (PrivateKey c) then wallet_key (Mnemonic c) (HDPath c)
  else wrapped "failed to parse the private key" (HexToECDSA (trim_0x (PrivateKey c))).

(** A remote signer comes first. *)
Definition SignerFactoryFromConfig (c : SignerCLI) : gores ((Z → SignerFn) * bytes) :=
  if RemoteEnabled c then
    client ← wrapped "failed to create the signer client" (NewSignerClient (Endpoint c));
    let fromAddress := addr_of_hex (Address c) in
    mret (λ chainID address tx,
            if negb (bool_decide (address = fromAddress)) then Fail (ErrMsg "attempting to sign for another address")
            else SignTransaction client chainID address tx, fromAddress)
  else
    key ← local_key c;
    mret (PrivateKeySignerFn key, PubkeyToAddress key).

Definition NewSignerConfig (s : Source) : gores ((Z → SignerFn) * bytes) :=
  let signerConfig := signer_ReadCLIConfig s in
  _ ← wrapped "invalid signer flags" (signer_Check signerConfig);
  SignerFactoryFromConfig signerConfig.

(** *** Facts *)

(** Settings that name exactly one way to sign. *)
Lemma signer_Check_spec c : signer_Check c = Ret tt ↔
  ((Endpoint c = ""%string ↔ Address c = ""%string) ∧ (Mnemonic c = ""%string ↔ HDPath c = ""%string) ∧
   (PrivateKey c = ""%string ∨ Mnemonic c = ""%string) ∧
   (Endpoint c ≠ ""%string ∨ PrivateKey c ≠ ""%string ∨ Mnemonic c ≠ ""%string)).
Proof.
  rw /signer_Check /empty. repeat case_bool_decide; cbn [negb andb orb]; split; try done; try tauto; intros (H1 & H2 & H3 & H4); tauto.
Qed.

(** A remote signer that is set up by environment variables alone is refused: its address also sets the path. *)
Lemma remote_env_refused endpoint address : endpoint ≠ ""%string → address ≠ ""%string →
  ∃ e, NewSignerConfig (mkSource ∅ (<[signerEnv "ENDPOINT" := endpoint]> {[signerEnv "ADDRESS" := address]})) = Fail e.
Proof.
  intros He Ha. have Hc : ¬ signer_Check (signer_ReadCLIConfig (mkSource ∅ (<[signerEnv "ENDPOINT" := endpoint]> {[signerEnv "ADDRESS" := address]}))) = Ret tt.
  { intros (_ & [H _] & _)%signer_Check_spec. apply Ha. move: H. rw /signer_ReadCLIConfig /flag_text.
    cbn [Mnemonic HDPath on_line in_env]. rw !lookup_empty lookup_insert_ne // lookup_singleton_ne // lookup_insert_ne // lookup_singleton_eq. intros H. by apply H. }
  rw /NewSignerConfig. destruct (signer_Check _) as [[]|e|p] eqn:E; [done|by eexists|]. exfalso. move: E. rw /signer_Check. by repeat case_match.
Qed.

(** Whatever the settings, a signer signs for its own address only. *)
Lemma signer_own_address s fac from : NewSignerConfig s = Ret (fac, from) → ∀ chainID address tx, address ≠ from → ∃ e, fac chainID address tx = Fail e.
Proof.
  rw /NewSignerConfig /SignerFactoryFromConfig. destruct (wrapped "invalid signer flags" _) as [[]| |]; [|done|done]. rw /mbind /gores_bind.
  destruct (RemoteEnabled _).
  - destruct (wrapped _ _) as [cl| |]; [|done|done]. intros [= <- <-] chainID address tx Hne. rw bool_decide_eq_false_2 //. by eexists.
  - destruct (local_key _) as [key| |]; [|done|done]. intros [= <- <-] chainID address tx Hne.
    rw /PrivateKeySignerFn bool_decide_eq_false_2 //. by eexists.
Qed.

End signer.

(** ** Transactions for the remote signer (signer/transaction_args.go) *)

Record DynamicFeeTx := mkDynTx {
  tx_ChainID : option Z; tx_Nonce : Z; tx_GasTipCap : option Z; tx_GasFeeCap : option Z; tx_Gas : Z; tx_To : option bytes;
  tx_Value : option Z; tx_Data : bytes; tx_AccessList : list (bytes * list bytes) }.

(** Pointers are options. *)
Record TransactionArgs := mkArgs {
  From : option bytes; ToArg : option bytes; GasArg : option Z; GasPrice : option Z; MaxFeePerGas : option Z; MaxPriorityFeePerGas : option Z;
  ValueArg : option Z; NonceArg : option Z; DataArg : option bytes; Input : option bytes; AccessListArg : option (list (bytes * list bytes));
  ChainIDArg : option Z }.

Definition NewTransactionArgsFromTransaction (chainId : option Z) (from : bytes) (tx : DynamicFeeTx) : TransactionArgs :=
  mkArgs (Some from) (tx_To tx) (Some (tx_Gas tx)) None (tx_GasFeeCap tx) (tx_GasTipCap tx) (tx_Value tx) (Some (tx_Nonce tx)) None
    (Some (tx_Data tx)) (Some (tx_AccessList tx)) chainId.

Definition args_data (args : TransactionArgs) : bytes :=
  match Input args with
  | Some d => d
  | None => default [] (DataArg args)
  end.

Definition deref {A} (x : option A) : gores A := match x with Some a => mret a | None => Panic NilPointer end.

Definition ToTransaction (args : TransactionArgs) : gores DynamicFeeTx :=
  nonce ← deref (NonceArg args);
  gas ← deref (GasArg args);
  mret (mkDynTx (ChainIDArg args) nonce (MaxPriorityFeePerGas args) (MaxFeePerGas args) gas (ToArg args) (ValueArg args) (args_data args)
          (default [] (AccessListArg args))).

(** The arguments for the remote signer say all of the transaction. *)
Lemma TransactionArgs_roundtrip from tx : ToTransaction (NewTransactionArgsFromTransaction (tx_ChainID tx) from tx) = Ret tx.
Proof. by destruct tx. Qed.

(** ** The e-mail account (email/email.go, email/cli.go) *)

Record EmailConfig := mkEmail { Username : string; Password : string; Host : string; Port : Z; MailTo : string; MailFrom : string }.

Definition Email_Check (c : EmailConfig) : gores unit :=
  if empty (Username c) then Fail (ErrMsg "email username is empty")
  else if empty (Password c) then Fail (ErrMsg "email password is empty")
  else if empty (Host c) then Fail (ErrMsg "email host is empty")
  else if Port c =? 0 then Fail (ErrMsg "email port is empty")
  else if empty (MailTo c) then Fail (ErrMsg "email to is empty")
  else if empty (MailFrom c) then Fail (ErrMsg "email from is empty")
  else mret tt.

(** [ctx.String] of the flag, which for the list of recipients is what the library prints of the list. *)
Definition GetEmailConfig (ctx : Ctx) : gores EmailConfig :=
  let cfg := mkEmail (GlobalString ctx "email.username") (GlobalString ctx "email.password") (GlobalString ctx "email.host")
               (GlobalNum ctx "email.port") (GlobalString ctx "email.to") (GlobalString ctx "email.from") in
  _ ← wrapped "email config check error" (Email_Check cfg);
  mret cfg.

(** ** The miner's flags (miner/cli.go) *)

Record MinerCLI := mkMinerCLI {
  Enabled : bool; cli_GasPrice : option Z; cli_PriorityGasPrice : option Z; cli_MinimumProfit : option Z; cli_MaxGasPrice : option Z;
  cli_ZKeyFile : string; cli_ZKWorkingDir : string; cli_ZKProverMode : Z; cli_ZKProverImpl : Z; cli_ThreadsPerShard : Z; cli_EmailEnabled : bool }.

(** What [os.Stat] finds: a file or a directory, nothing, or another error, with which it returns no information. *)
Inductive stat := Found (is_dir : bool) | NotExist | StatError.

(** The information is asked for only when there is an error. *)
Definition Miner_Check (info : stat) : gores unit :=
  match info with
  | Found _ => mret tt
  | NotExist => Fail (ErrMsg "snark_lib folder not found in ZKWorkingDir")
  | StatError => Panic NilPointer
  end.

(** The factory is nil until [NewMinerConfig] sets it. *)
Record MinerConfig `{SL : SignLibs} := mkMinerConfig {
  mc_ChainID : option Z; mc_Slot : Z;
  RandomChecks : Z; NonceLimit : Z; StartTime : Z; ShardEntry : Z; TreasuryShare : Z; MinimumDiff : Z; Cutoff : Z; DiffAdjDivisor : Z;
  StorageCost : Z; PrepaidAmount : Z; DcfFactor : Z;
  mc_cli : MinerCLI; SignerFnFactory : option (Z → SignerFn); SignerAddr : bytes; mc_EmailConfig : option EmailConfig }.
Arguments mkMinerConfig {_}.

(** The numbers that [math.ParseBig256] accepted; [filepath.IsAbs] and [filepath.Abs]; the information on the library folder. *)
Class MinerSys := { GlobalBig : string → option Z; IsAbs : string → bool; Abs : string → gores string; snark_stat : stat }.

Section config.
Context `{MS : MinerSys} `{SLb : SignLibs} `{GE : Geth} `{CN : ContractNode}.

Definition DefaultZKWorkingDir : string := "build/bin".

Definition ReadCLIConfig (ctx : Ctx) : MinerCLI := mkMinerCLI
  (GlobalBool ctx "miner.enabled") (GlobalBig "miner.gas-price") (GlobalBig "miner.priority-gas-price") (GlobalBig "miner.min-profit")
  (GlobalBig "miner.max-gas-price") (GlobalString ctx "miner.zkey") DefaultZKWorkingDir (GlobalNum ctx "miner.zk-prover-mode")
  (GlobalNum ctx "miner.zk-prover-impl") (GlobalNum ctx "miner.threads-per-shard") (GlobalBool ctx "miner.email-enabled").

Definition absolute (msg path : string) : gores string := if IsAbs path then mret path else wrapped msg (Abs path).

(** The defaults that the contract's values replace afterwards are left out; paths become absolute. *)
Definition ToMinerConfig (c : MinerCLI) : gores MinerConfig :=
  zkWorkingDir ← absolute "check ZKWorkingDir error" (cli_ZKWorkingDir c);
  zkFile ← absolute "check ZKeyFileName error" (cli_ZKeyFile c);
  mret (mkMinerConfig None 12 2 1048576 0 0 0 1000000 60 1024 0 0 0
          (mkMinerCLI (Enabled c) (cli_GasPrice c) (cli_PriorityGasPrice c) (cli_MinimumProfit c) (cli_MaxGasPrice c) zkFile zkWorkingDir
             (cli_ZKProverMode c) (cli_ZKProverImpl c) (cli_ThreadsPerShard c) (cli_EmailEnabled c)) None (zeros 20) None).

Definition readBig (fieldName : string) : gores Z := bs ← readSlot fieldName; mret (be_decode bs).

Definition NewMinerConfig (ctx : Ctx) (src : Source) (minerAddr : bytes) : gores (option MinerConfig) :=
  let cliConfig := ReadCLIConfig ctx in
  if negb (Enabled cliConfig) then mret None
  else if bool_decide (minerAddr = zeros 20) then Fail (ErrMsg "miner address cannot be empty")
  else
    _ ← wrapped "invalid miner flags" (Miner_Check snark_stat);
    c ← ToMinerConfig cliConfig;
    randomChecks ← readUint "randomChecks";
    nonceLimit ← readUint "nonceLimit";
    minimumDiff ← readBig "minimumDiff";
    cutoff ← readBig "cutoff";
    diffAdjDivisor ← readBig "diffAdjDivisor";
    dcf ← readBig "dcfFactor";
    startTime ← readUint "startTime";
    shardEntryBits ← readUint "shardEntryBits";
    treasuryShare ← readUint "treasuryShare";
    storageCost ← readBig "storageCost";
    prepaidAmount ← readBig "prepaidAmount";
    '(signerFnFactory, signerAddr) ← wrapped "failed to get signer" (NewSignerConfig src);
    mret (Some (mkMinerConfig (mc_ChainID c) (mc_Slot c) randomChecks nonceLimit startTime (shl64 1 shardEntryBits) treasuryShare minimumDiff cutoff
                  diffAdjDivisor storageCost prepaidAmount dcf (mc_cli c) (Some signerFnFactory) signerAddr None)).

(** ** The node's configuration (config.go) *)

Definition requiredFlags : list string := ["datadir"; "storage.files"; "l1.rpc"; "storage.l1contract"]%string.

Definition CheckRequired (isSet : string → bool) : gores unit :=
  foldM (λ _ f, if isSet f then mret tt else Fail (ErrMsg "flag is required")) tt requiredFlags.

(** The L1 node: dialling it and asking for its chain id. *)
Class L1Dial := { dial_l1 : string → option error; l1_ChainID : gores Z; isSet : string → bool; files_flag : list string }.

Context `{LD : L1Dial} `{PL : P2pLibs}.

Record L1EndpointConfig := mkL1Endpoint {
  L1ChainID : Z; L1NodeAddr : string; L1BlockTime : Z; ep_BeaconURL : string; L1BeaconSlotTime : Z; ep_DAURL : string; L1MinDuration : Z }.

Definition NewL1EndpointConfig (ctx : Ctx) : gores L1EndpointConfig :=
  let l1NodeAddr := GlobalString ctx "l1.rpc" in
  match dial_l1 l1NodeAddr with
  | Some e => Fail e
  | None =>
      chainid ← l1_ChainID;
      mret (mkL1Endpoint (wrap64 chainid) l1NodeAddr (GlobalNum ctx "l1.block_time") (GlobalString ctx "l1.beacon") (GlobalNum ctx "l1.beacon-slot-time")
              (GlobalString ctx "da.url") (GlobalNum ctx "l1.min-duration-blobs-request"))
  end.

Definition NewStorageConfig (ctx : Ctx) : gores StorageConfig :=
  let l1Contract := addr_of_hex (GlobalString ctx "storage.l1contract") in
  let miner := addr_of_hex (GlobalString ctx "storage.miner") in
  c ← initStorageConfig l1Contract miner;
  mret (mkStorageConfig files_flag (KvSize c) (ChunkSize c) (KvEntriesPerShard c) (L1Contract c) (cfg_Miner c)).

Record DownloaderConfig := mkDlConfig { DownloadStart : Z; DownloadDump : string; DownloadThreadNum : Z; dl_EmailConfig : option EmailConfig }.

Definition NewDownloaderConfig (ctx : Ctx) : DownloaderConfig :=
  mkDlConfig (GlobalNum ctx "download.start") (GlobalString ctx "download.dump") (GlobalNum ctx "download.thread") None.

(** [archiver.NewConfig]: nil unless enabled. *)
Record ArchiverConfig := mkArchiver { ArchiverAddr : string; ArchiverPort : Z; MaxBlobsPerBlock : Z }.
Definition archiver_NewConfig (ctx : Ctx) : option ArchiverConfig :=
  if GlobalBool ctx "archiver.enabled"
  then Some (mkArchiver (GlobalString ctx "archiver.addr") (GlobalNum ctx "archiver.port") (GlobalNum ctx "archiver.maxBlobsPerBlock")) else None.

Record NodeConfig := mkNodeConfig {
  nc_L1 : L1EndpointConfig; nc_ChainID : Z; nc_Downloader : DownloaderConfig; nc_DataDir : string; nc_StateUploadURL : string; nc_RandaoURL : string;
  nc_MetricsEnabled : bool; nc_MetricsPort : Z; nc_P2P : P2pConfig.Config; nc_Storage : StorageConfig; nc_Mining : option MinerConfig;
  nc_Archiver : option ArchiverConfig; nc_scanner : bool }.

(** The part of it that the node's start looks at. *)
Definition node_view (c : NodeConfig) : NodeLife.Config :=
  NodeLife.mkConfig (L1NodeAddr (nc_L1 c)) (ep_DAURL (nc_L1 c)) (ep_BeaconURL (nc_L1 c)) (nc_RandaoURL c) (nc_DataDir c) (nc_StateUploadURL c) (nc_MetricsEnabled c)
    (nc_MetricsPort c) true (bool_decide (is_Some (nc_Mining c))) (bool_decide (is_Some (nc_Archiver c))) (nc_scanner c).

Definition set_mining (m : MinerConfig) (chainId slot : Z) (email : option EmailConfig) : MinerConfig :=
  mkMinerConfig (Some chainId) slot (RandomChecks m) (NonceLimit m) (StartTime m) (ShardEntry m) (TreasuryShare m) (MinimumDiff m) (Cutoff m)
    (DiffAdjDivisor m) (StorageCost m) (PrepaidAmount m) (DcfFactor m) (mc_cli m) (SignerFnFactory m) (SignerAddr m) email.

(** The miner's e-mail account: required when the miner sends mail. *)
Definition finish_mining (m : option MinerConfig) (email : option EmailConfig) (chainId slot : Z) : gores (option MinerConfig) :=
  match m with
  | None => mret None
  | Some m =>
      if cli_EmailEnabled (mc_cli m) then
        match email with
        | None => Fail (ErrMsg "email config is required by miner but not loaded")
        | Some e => mret (Some (set_mining m chainId slot (Some e)))
        end
      else mret (Some (set_mining m chainId slot None))
  end.

(** [pprof] is the check of the profiler's settings; [scan] is [scanner.NewConfig], which gives nil when scans are off. *)
Definition NewConfig (ctx : Ctx) (src : Source) (writable io_err pprof : option error) (scan : gores bool) : ST key_files NodeConfig :=
  _ ← st_lift (CheckRequired isSet);
  p2pConfig ← (λ fs, let '(r, fs) := P2pConfig.NewConfig ctx 0 writable io_err fs in (wrapped "failed to load p2p config" r, fs));
  st_lift (
    l1Endpoint ← NewL1EndpointConfig ctx;
    storageConfig ← wrapped "failed to load storage config" (NewStorageConfig ctx);
    email ← catch (GetEmailConfig ctx);
    let emailConfig := match email with inl _ => None | inr c => Some c end in
    let dl := NewDownloaderConfig ctx in
    let dlConfig := mkDlConfig (DownloadStart dl) (DownloadDump dl) (DownloadThreadNum dl) emailConfig in
    minerConfig ← wrapped "failed to load miner config" (NewMinerConfig ctx src (cfg_Miner storageConfig));
    let chainId := GlobalNum ctx "chain_id" in
    minerConfig ← finish_mining minerConfig emailConfig chainId (L1BeaconSlotTime l1Endpoint);
    let archiverConfig := archiver_NewConfig ctx in
    scanner ← wrapped "failed to create scanner config" scan;
    let cfg := mkNodeConfig l1Endpoint chainId dlConfig (GlobalString ctx "datadir") (GlobalString ctx "state.upload.url") (GlobalString ctx "randao.url")
                 (GlobalBool ctx "metrics.enabled") (GlobalNum ctx "metrics.port") p2pConfig storageConfig minerConfig archiverConfig scanner in
    _ ← NodeLife.Config_Check (node_view cfg)
          (mkEnv pprof match P2pConfig.Config_Check p2pConfig with Fail e => Some e | _ => None end
             None None None None None None true true None None None None None None None (λ _, true));
    mret cfg).

(** ** Facts *)

Lemma wrapped_Ret {A} msg (r : gores A) x : wrapped msg r = Ret x → r = Ret x.
Proof. by destruct r. Qed.

(** A miner is configured exactly when it is enabled, for an address of its own, with the contract's shard size and the signer's address. *)
Lemma NewMinerConfig_inv ctx src minerAddr m : NewMinerConfig ctx src minerAddr = Ret m →
  match m with
  | None => GlobalBool ctx "miner.enabled" = false
  | Some m => GlobalBool ctx "miner.enabled" = true ∧ minerAddr ≠ zeros 20 ∧ (∃ b, readUint "shardEntryBits" = Ret b ∧ ShardEntry m = shl64 1 b) ∧
              (∃ fac, NewSignerConfig src = Ret (fac, SignerAddr m) ∧ SignerFnFactory m = Some fac) ∧ cli_EmailEnabled (mc_cli m) = GlobalBool ctx "miner.email-enabled"
  end.
Proof.
  rw /NewMinerConfig. cbn [Enabled ReadCLIConfig]. destruct (GlobalBool ctx "miner.enabled"); [|by intros [= <-]]. cbn [negb].
  case_bool_decide as Ha; [done|]. intros (_ & _ & H)%bind_inv. apply bind_inv in H as (c & Hc & H).
  do 7 (apply bind_inv in H as (? & _ & H)). apply bind_inv in H as (b & Hb & H). do 3 (apply bind_inv in H as (? & _ & H)).
  apply bind_inv in H as ([fac addr] & Hs%wrapped_Ret & H). injection H as <-. split_and!; [done|done|by exists b|by exists fac|].
  apply bind_inv in Hc as (? & _ & Hc). apply bind_inv in Hc as (? & _ & Hc). by injection Hc as <-.
Qed.

Lemma GetEmailConfig_checked ctx e : GetEmailConfig ctx = Ret e → Email_Check e = Ret tt.
Proof. intros ([] & Hc%wrapped_Ret & [= <-])%bind_inv. done. Qed.

Lemma initStorageConfig_entries l1 miner c : initStorageConfig l1 miner = Ret c →
  cfg_Miner c = miner ∧ ∃ b, readUint "shardEntryBits" = Ret b ∧ KvEntriesPerShard c = shl64 1 b.
Proof.
  rw /initStorageConfig. intros (ex & _ & H)%bind_inv. destruct (negb ex); [done|]. apply bind_inv in H as (? & _ & H).
  apply bind_inv in H as (b & Hb & H). injection H as <-. split; [done|]. by exists b.
Qed.

Lemma CheckRequired_set (set : string → bool) : ∀ l, foldM (λ _ f, if set f then mret tt else Fail (ErrMsg "flag is required")) tt l = Ret tt →
  ∀ f, f ∈ l → set f = true.
Proof.
  intros l. induction l as [|x l IH]; intros H f Hf; [by apply not_elem_of_nil in Hf|]. rw foldM_cons in H.
  destruct (set x) eqn:E; [|done]. apply elem_of_cons in Hf as [->|Hf]; [done|]. by apply IH.
Qed.

Lemma P2p_Check_total conf : P2pConfig.Config_Check conf = Ret tt ∨ ∃ e, P2pConfig.Config_Check conf = Fail e.
Proof. rw /P2pConfig.Config_Check. repeat case_match; eauto. Qed.

(** C40: a configuration that [NewConfig] returns is consistent: every required flag is set; there is a miner exactly when
    mining is enabled, and then its address is not empty, it counts the same KVs to a shard as the storage, has the
    signer that the signer flags give, which signs for the miner's own signing address only, knows the network and the slot time, and has a complete e-mail account when it is to send mail; the
    p2p settings passed their check and the metrics port is valid. *)
Theorem node_config_sound ctx src writable io_err pprof scan fs cfg fs' :
  NewConfig ctx src writable io_err pprof scan fs = (Ret cfg, fs') →
  (∀ f, f ∈ requiredFlags → isSet f = true) ∧
  (is_Some (nc_Mining cfg) ↔ GlobalBool ctx "miner.enabled" = true) ∧
  (∀ m, nc_Mining cfg = Some m →
     cfg_Miner (nc_Storage cfg) ≠ zeros 20 ∧ ShardEntry m = KvEntriesPerShard (nc_Storage cfg) ∧
     (∃ fac, NewSignerConfig src = Ret (fac, SignerAddr m) ∧ SignerFnFactory m = Some fac ∧
        ∀ chainID address tx, address ≠ SignerAddr m → ∃ e, fac chainID address tx = Fail e) ∧
     mc_ChainID m = Some (nc_ChainID cfg) ∧ mc_Slot m = L1BeaconSlotTime (nc_L1 cfg) ∧
     (GlobalBool ctx "miner.email-enabled" = true → ∃ e, mc_EmailConfig m = Some e ∧ Email_Check e = Ret tt)) ∧
  P2pConfig.Config_Check (nc_P2P cfg) = Ret tt ∧
  (nc_MetricsEnabled cfg = true → 0 ≤ nc_MetricsPort cfg ≤ 65535).
Proof.
  rw /NewConfig /mbind /st_bind. destruct (st_lift (CheckRequired isSet) fs) as [[[]| |] fs0] eqn:Er; [|done|done]. move: Er. rw /st_lift. intros [= Er <-].
  destruct (P2pConfig.NewConfig _ _ _ _ _) as [[p2p| |] fs1]; [|done|done]. cbn [wrapped]. intros [= H <-].
  apply bind_inv in H as (l1 & H1 & H). apply bind_inv in H as (sc & H2%wrapped_Ret & H). apply bind_inv in H as (em & H3 & H).
  apply bind_inv in H as (m0 & H4%wrapped_Ret & H). apply bind_inv in H as (m & H5 & H). apply bind_inv in H as (sn & _ & H).
  apply bind_inv in H as ([] & H6 & H). injection H as <-.
  cbn [nc_Mining nc_Storage nc_ChainID nc_L1 nc_P2P nc_MetricsEnabled nc_MetricsPort].
  apply NewMinerConfig_inv in H4.
  have [Hsm [b [Hb He]]] : cfg_Miner sc = addr_of_hex (GlobalString ctx "storage.miner") ∧ ∃ b, readUint "shardEntryBits" = Ret b ∧ KvEntriesPerShard sc = shl64 1 b.
  { apply bind_inv in H2 as (c & Hc & [= <-]). by apply initStorageConfig_entries in Hc. }
  split_and!.
  - intros f Hf. by apply (CheckRequired_set _ _ Er).
  - destruct m0 as [m0|]; [|injection H5 as <-; split; [by intros []|by rw H4]]. split; [intros _; apply H4|intros _].
    move: H5. rw /finish_mining. destruct (cli_EmailEnabled _); [destruct em; [done|]|]; intros [= <-]; by eexists.
  - intros m' ->. destruct m0 as [m0|]; [|done]. destruct H4 as (_ & Ha & (b' & Hb' & Hs) & (fac & Hfac & Hsig) & Hem).
    have Hown : ∃ fac, NewSignerConfig src = Ret (fac, SignerAddr m0) ∧ SignerFnFactory m0 = Some fac ∧
      ∀ chainID address tx, address ≠ SignerAddr m0 → ∃ e, fac chainID address tx = Fail e.
    { exists fac. split_and!; [done|done|]. by apply (signer_own_address src). } move: H5. rw /finish_mining Hem.
    rw Hb in Hb'. injection Hb' as <-. have Hse : ShardEntry m0 = KvEntriesPerShard sc by rw Hs He.
    destruct (GlobalBool ctx "miner.email-enabled"); [|intros [= <-]; cbn; split_and!; done].
    destruct em as [|e]; [done|]. intros [= <-]. cbn. split_and!; try done. intros _. exists e. split; [done|].
    apply (GetEmailConfig_checked ctx). move: H3. rw /catch. destruct (GetEmailConfig ctx) as [x| |]; [|done|done]. by intros [= <-].
  - move: H6. rw /NodeLife.Config_Check. destruct (MetricsConfig_Check _); [|done|]; cbn; (destruct pprof; [done|]);
      by destruct (P2p_Check_total p2p) as [->|[e ->]].
  - move: H6. rw /NodeLife.Config_Check /MetricsConfig_Check /node_view.
    cbn [MetricsEnabled MetricsPort nc_MetricsEnabled nc_MetricsPort]. intros H6 Hm. rw Hm in H6. cbn [negb] in H6.
    destruct ((_ <? 0) || _) eqn:E; [done|]. lia.
Qed.

End config.

(** ** An example: a miner with a private key and mail *)

Definition ex_miner_sys : MinerSys := {|
  GlobalBig _ := Some 0; IsAbs _ := false; Abs p := Ret ("/" +:+ p)%string; snark_stat := Found true |}.

Definition ex_sign_libs : SignLibs := {|
  Key := Z; STx := Z; SignerClient := Z;
  NewSignerClient _ := Fail EOF; SignTransaction _ _ _ tx := Ret tx; wallet_key _ _ := Fail EOF; HexToECDSA _ := Ret 5;
  PubkeyToAddress k := replicate 20 k; sign_with _ _ tx := Ret tx; addr_of_hex s := replicate 20 (Z.of_nat (String.length s)) |}.

Definition ex_contract : ContractNode := {| CodeAt := Ret [1]; CallContract _ := Ret (be_encode 32 4); unpack_uint256s _ := None |}.

Definition ex_dial : L1Dial := {| dial_l1 _ := None; l1_ChainID := Ret 1; isSet _ := true; files_flag := ["a.dat"%string] |}.

Definition ex_node_ctx : Ctx := {|
  GlobalString name := if bool_decide (name = "storage.miner"%string) then "0x01" else if String.prefix "email" name then "mail" else GlobalString ex_ctx name;
  GlobalBool name := String.prefix "miner." name;
  GlobalNum name := if String.prefix "p2p.gossip" name then 8 else if String.prefix "p2p" name then GlobalNum ex_ctx name else 100 |}.

Definition ex_source : Source := mkSource {["signer.private-key"%string := "0x11"%string]} ∅.

Lemma ex_node_returns :
  returns (NewConfig (MS := ex_miner_sys) (SLb := ex_sign_libs) (CN := ex_contract) (LD := ex_dial) (PL := toy_libs) ex_node_ctx ex_source None None None (Ret true) ∅) = true.
Proof. by vm_compute. Qed.

Lemma node_config_sound_witness : ∃ cfg fs' m,
  NewConfig (MS := ex_miner_sys) (SLb := ex_sign_libs) (CN := ex_contract) (LD := ex_dial) (PL := toy_libs) ex_node_ctx ex_source None None None (Ret true) ∅ = (Ret cfg, fs') ∧
  nc_Mining cfg = Some m ∧ ShardEntry m = KvEntriesPerShard (nc_Storage cfg) ∧ ∃ e, mc_EmailConfig m = Some e ∧ Email_Check e = Ret tt.
Proof.
  destruct (returns_Ret _ ex_node_returns) as (cfg & fs' & E).
  destruct (node_config_sound (MS := ex_miner_sys) (SLb := ex_sign_libs) (CN := ex_contract) (LD := ex_dial) (PL := toy_libs) _ _ _ _ _ _ _ _ _ E)
    as (_ & [_ H1] & H2 & _). destruct H1 as [m Hm]; [done|]. exists cfg, fs', m. destruct (H2 m Hm) as (_ & H3 & _ & _ & _ & H4).
  split_and!; [done|done|done|by apply H4].
Defined.
